(* ===== verification/_CoqProject ===== *)
-Q . S2P
Prelude.v
Sql.v
Schema.v
Credentials.v
Repository.v
Ledger.v
StoreSpec.v
Ecash.v
EcashStore.v
Mint.v
MintConcurrent.v
WorkerPool.v
Settlement.v
Nostr.v
Usage.v
Payments.v
Peers.v
IPPool.v
Control.v
Connect.v
ProofVault.v
Wallet.v
Selector.v
CashuApi.v
Attestation.v
Discovery.v
HubApi.v
HubSelector.v
Breaker.v
Announcer.v
Nip44.v
Envelope.v
Relay.v
TokenReceiver.v
ClientConnect.v
ServiceNodes.v
ServicePay.v
Service.v
Endpoints.v
HostNet.v
Tunnel.v
VaultFile.v
Backup.v
Identity.v
Helper.v
Lightning.v
Bandwidth.v
HubKeys.v
HubMain.v
NodeConfig.v
Registry.v
Cli.v
MintClient.v
ClientMain.v
Windows.v
LightningMock.v
Desktop.v
