(* ===== verification/Prelude.v ===== *)
(** * ARFL: a paid two-hop VPN with blinded payments

    ** The program

    A _hub_ sells bandwidth for Lightning payments, a _node_ forwards traffic,
    and a _client_ buys, chooses two nodes and connects. The hub never learns
    which nodes a buyer uses, since what it sells are tickets, RSA-blinded
    tokens or Cashu proofs; the nodes report usage and the hub pays them. The
    money is therefore in four places that must agree: the hub's ledger
    (SQLite), its mint, the client's vault and the node's gate. Around them are
    the directory of nodes (vouchers, announcements, the index), the tunnel the
    client builds over the host's network, and the files and settings all of it
    starts from.

    A sale: POST /purchase makes an invoice (Payments); when it settles,
    onInvoiceSettled issues tickets and an entitlement (Credentials, Ledger);
    /redeem signs blinded tokens against the entitlement (Bandwidth on the
    client's side); /connect on a node verifies one and spends it through the
    hub's /spend (Connect); the peer gets an address and a byte quota (Control).
    Nodes report usage (Usage, Nostr), RunSettlement bills sessions and pays by
    keysend (Settlement, Lightning). The ecash path: the wallet mints against a
    paid quote and swaps for change (Wallet, MintClient, ProofVault, CashuApi,
    Mint), the proofs travel to a node over HTTP or as an encrypted event
    (ClientConnect, Envelope, TokenReceiver), and the node redeems them at the
    hub. A connection of the desktop client is Service: it chooses two nodes
    (ServiceNodes), pays both (ServicePay) and raises the tunnel (Tunnel), in a
    privileged process if it must (Helper).

    ** Files

    - Prelude (this file): results, machine integers, strings, hex, sums,
      tactics and hints.
    - Sql, Schema, Repository, Ledger, StoreSpec: src/internal/store. SQLite
      statements over tables as lists of rows; the tables, CHECKs, UNIQUEs and
      triggers of schema.go; one definition per method of *Store; the guarantees
      along any sequence of operations; and the specification of every call over
      finite maps, which the store refines.
    - Credentials: src/internal/credentials: tiers, HMAC tickets, RSA blind
      tokens.
    - Ecash, EcashStore, Mint, MintConcurrent, WorkerPool: src/internal/ecash
      and store/ecash_repository.go. The Store interface of the mint is the class
      [MintStore] with its laws, and the SQLite store an instance; the mint is
      proved against the laws. MintConcurrent interleaves requests, WorkerPool
      the acquisitions and releases of the semaphore.
    - Settlement, Usage, Payments: src/internal/payments: billing and paying,
      usage reports, and the HTTP handlers. Breaker: the circuit breaker around
      the Lightning client. Lightning, LightningMock: the client of an LND node
      under the settlement engine, and the one of development mode.
    - CashuApi, HubApi: the hub's HTTP endpoints for ecash, and those for nodes,
      vouchers, earnings and withdrawals (src/internal/ecash/api.go,
      src/internal/discovery/api.go).
    - Nostr, Nip44, Envelope, Relay: src/internal/nostr: signed events, NIP-44
      payloads, token deliveries, and the relay pool as interleaved steps.
    - Attestation, Discovery, HubSelector, Announcer: src/internal/discovery:
      vouchers, the index of nodes, the choice from the hub's list, and how a
      node stays listed.
    - Peers, IPPool, Control, Connect, TokenReceiver: src/internal/control, wg,
      quota and node: the interfaces of the device and the quota as classes with
      laws and two instances, the address pool, granting and reaping peers, the
      gates and the handlers, and deliveries by event.
    - ProofVault, VaultFile, Wallet, MintClient, Backup, Identity:
      src/internal/wallet and identity: the abstract store of proofs, the sealed
      file that implements it on a device whose calls fail and whose power is
      cut, minting and paying exact amounts, the mint over a connection that
      loses messages, backups, the device key and the move of a wallet onto one.
    - Selector, ClientConnect, Bandwidth: src/internal/client: pairing an entry
      and an exit, presenting credentials to both, buying tokens.
    - ServiceNodes, ServicePay, Service: src/internal/app/service.go: settings
      and nodes, paying and raising the tunnel as a program of effects, and the
      state machine of concurrent calls over it.
    - Endpoints, HostNet, Tunnel, Windows, Helper, Desktop: src/internal/tunnel,
      wg, helper and cmd/arfl-desktop: the addresses, the host's network (class
      [Host], with Linux, macOS, Windows and a plain instance), the tunnel with
      its record of changes, the privileged helper with its socket, and the
      application's choice between them.
    - HubKeys, HubMain, NodeConfig, Registry, Cli, ClientMain: src/cmd,
      src/internal/config and registry: the hub's key files, the hub daemon and
      its lease commands, the node daemon's start, settings and firewall, the
      published list of hubs, init and doctor, and the command-line client.

    A Go struct is a Record, a (value, error) pair is [result], a state change
    returns the new state, a map is a gmap, and a map's iteration order is an
    argument. Where many calls share a state that each may change or fail on,
    the state is threaded by a small monad ([io], of HostNet) or the calls are
    the effects of a program (ServicePay). int64 and uint64 are integers with
    their wrap-around written out ([wrap_i64], [wrap_u64]); where a theorem asks
    for a range, it is because the code does not check it. An HTTP handler takes
    the decoded request and returns the reply and the new state.

    ** Theorems

    - The hub's ledger: each call does what its specification says
      ([store_refines_spec]); [ledger_append_only], [ledger_integrity],
      [first_spend_exactly_once], [entitlement_conserved]; withdrawals stay
      covered by earnings ([withdrawals_covered]).
    - The mint: every branch of Swap ([swap_outcomes]), no double spend under
      any interleaving ([no_double_spend]), and signatures only for paid quotes
      ([ecash_funded]).
    - Payments to nodes: nothing is sent again but what was reported failed
      ([keysend_never_repeated]; over LND, when its exchanges are conclusive,
      that is delivering once: [lnd_pays_once]), and a pass stays in budget
      ([payouts_within_budget]).
    - Peers: no two share an address whatever calls fail ([peers_isolated]).
    - The client's money: [reserve_outcomes], [wallet_mint_round_trip],
      [purchase_accounted], [redeem_gives_tokens]; the vault file refines the
      vault and is never torn ([store_refines], [vault_never_torn]), and a move
      onto a device key loses nothing ([upgrade_keeps_tokens]).
    - Presenting credentials: [nip44_roundtrip], [request_served_once],
      [http_connect_accounted].
    - The connection: [connect_settles], [service_consistent],
      [transitions_exclusive], [transition_completes], [new_settings_ok].
    - The host: the routes and the IPv6 block of the tunnel are on record
      ([changes_recorded]), the helper is as good as the tunnel itself and guards
      it ([helper_transparent], [socket_guarded]), and firewall rules are taken
      back ([nat_removed]). Of the resolver and the interfaces the first two say
      this only for a host whose failed calls change nothing of them, which the
      Linux and macOS helpers are not.
    - The directory: [index_lists_vetted], [revoked_node_drops_off],
      [node_advertised], [trusted_list_good].
    - Files and setup: [denomination_key_kept], [overwrite_keeps_old],
      [doctor_agrees], [init_node_starts].
    - Beyond these, lemmas of the same kind: [windows_dns_restored],
      [windows_ipv6_on_record], [mock_settlements], [bridge_one_tunnel],
      [configured_as_asked] and [client_tokens].

    Some theorems and examples show what the code does not do and name no
    promise. Money that is lost or stranded: [retry_exceeds_budget],
    [entitlement_lost_after_crash], [delivered_tickets_rejected],
    [ticket_billed_per_session], [session_billed_each_period],
    [late_mark_reissues], [withdrawn_then_retried], [in_flight_withdrawn_again],
    [broken_answer_pays_twice], [silent_stream_pays_twice], [hex_hash_garbled],
    [wrapped_outputs_signed], [wrapped_outputs_issued], [lost_swap_answer],
    [keys_conflict_drops], [unwritten_purchase], [negative_count_adds_tokens],
    [lost_answer_refunded], [conflict_forfeits_unspent],
    [lost_answer_strands_tokens], [lost_signatures_strand_purchase],
    [stale_wallet_pays], [extend_crosses_sessions], [restore_strands_vault],
    [restore_failure_hides_wallet], [upgrade_failure_hides_wallet],
    [unreadable_seed_replaced], [torn_seed_replaced], [unflushed_key_replaced],
    [mock_pays_twice],
    [mock_settles_expired], [spent_tokens_block_client],
    [refused_exit_strands_entry], [purchase_replaces]. Panics: [oversized_C_panics], [short_key_panics],
    [capacity_overflow_panics], [key_nonce_panics], [short_pubkey_stops_hub],
    [short_hash_panics]. Networking: [double_fault_shares_address],
    [duplicates_delivered], [unroutable_accepted], [linux_interface_leaked],
    [darwin_dns_not_restored], [darwin_retry_forgets], [darwin_utun_left],
    [windows_dns_not_restored], [windows_retry_forgets],
    [windows_interface_leaked], [windows_key_left], [install_closes_live_tunnel],
    [refused_node_leaves_rules], [missing_hub_key_stops_node],
    [both_role_not_masqueraded]. The directory and
    its settings: [endpoint_not_bound], [pair_given_up], [half_open_admits_two],
    [probe_not_restarted], [commands_miss_hub], [narrowed_lease_keeps_roles],
    [long_lease_wraps], [long_interval_wraps], [doctor_misses_raw_key],
    [doctor_passes_capital_role], [doctor_misjudges_key],
    [connect_addrs_not_announced], [ipv6_listed],
    [capital_key_never_matches], [listed_twice], [cached_list_lost],
    [normalised_query_kept].

    ** Parameters and bounds

    Cryptography is abstract: HMAC, RSA and SHA-256 (Credentials, Payments), the
    secp256k1 arithmetic and gonuts' helpers (Mint, Wallet), BIP-340 (Nostr),
    ECDH, HKDF and ChaCha20 ([Nip44Crypto]), Argon2 and AES-GCM ([Sealing]). So
    are the encodings made by reflection: JSON, PEM and DER ([AttestationJson],
    [NodeCodec], [NodeEncoder], [EnvelopeJson], [HelperJson], [LndJson],
    [KeyCodec], [RegistryJson], [TokensJson]), net/url ([UrlParser]), RFC 3339
    and net's address parsers. Each is a class or an argument with the functions
    the code calls, and a second class with the laws a group of theorems uses; a
    concrete instance discharges the laws in the witnesses. The Lightning
    client, the WireGuard device, the commands of the operating system, the
    resolver, relays and HTTP, the clock, crypto/rand, math/rand and the order
    of maps are arguments: what they answer is universally quantified, errors
    included.

    The loops of the modelled code are structural recursions over lists (rows,
    proofs, amounts, peers, addresses, what a loop is woken by), and every
    operation is a total function. One takes fuel: the batches of
    UnspentProofs (Backup), where as much fuel as there are proofs is enough.
    Sequences of operations and interleavings are inductive relations or lists
    of operations of any length. A power cut leaves a flushed file as it is, and
    of every file that was not flushed any prefix of what was written or not even
    the name; a rename is atomic, and what was flushed keeps the name it was
    renamed to.

    ** Not modelled

    The noop quota enforcer and other code that nothing calls; removing peers from
    and reading statistics of a device; opening the SQLite file; the files of the
    installed helper; the desktop window with its
    bindings and what it only shows (previews, fingerprints, balances); prompts,
    flags, styles, logs and profiling of the commands, and writing the kernel's
    forwarding switch. They are platform glue around what is modelled, or text
    for a reader. *)
From stdpp Require Export base gmap strings list numbers pretty.
From Stdlib Require Export ZArith Lia Ascii.

Declare Scope arfl_scope.
Delimit Scope arfl_scope with arfl.
#[global] Open Scope arfl_scope.
#[global] Open Scope Z_scope.

(** ** Results: Go's [(value, error)] pairs *)

(** A Go function that returns [(T, error)] returns [Ok t] when the error is
    nil and [Err e] otherwise (the value that comes with a non-nil error is
    never read by the code modelled here). *)
Inductive result (E A : Type) : Type :=
| Ok (a : A)
| Err (e : E).
Arguments Ok {E A} a.
Arguments Err {E A} e.

#[export] Instance result_mret {E} : MRet (result E) := fun _ a => Ok a.
#[export] Instance result_mbind {E} : MBind (result E) :=
  fun _ _ f r => match r with Ok a => f a | Err e => Err e end.
#[export] Instance result_fmap {E} : FMap (result E) :=
  fun _ _ f r => match r with Ok a => Ok (f a) | Err e => Err e end.

#[export] Instance result_eq_dec `{EqDecision E, EqDecision A} : EqDecision (result E A).
Proof. solve_decision. Defined.

Definition is_ok {E A} (r : result E A) : bool :=
  match r with Ok _ => true | Err _ => false end.

(** [guard_or e b]: an early return [if !b { return e }]. *)
Definition guard_or {E} (e : E) (b : bool) : result E unit :=
  if b then Ok tt else Err e.

(** ** Machine integers *)

Definition wrap_i64 (z : Z) : Z := (z + 2 ^ 63) mod 2 ^ 64 - 2 ^ 63.
Definition wrap_u64 (z : Z) : Z := z mod 2 ^ 64.
Definition in_i64 (z : Z) : Prop := - 2 ^ 63 <= z < 2 ^ 63.
Definition in_u64 (z : Z) : Prop := 0 <= z < 2 ^ 64.

Definition in_i64b (z : Z) : bool := (- 2 ^ 63 <=? z) && (z <? 2 ^ 63).

(** Go's int64 operators. *)
Definition add_i64 (a b : Z) : Z := wrap_i64 (a + b).
Definition sub_i64 (a b : Z) : Z := wrap_i64 (a - b).
Definition mul_i64 (a b : Z) : Z := wrap_i64 (a * b).
(** Go truncates division towards zero; [MinInt64 / -1] wraps. *)
Definition quot_i64 (a b : Z) : Z := wrap_i64 (Z.quot a b).
Definition add_u64 (a b : Z) : Z := wrap_u64 (a + b).
Definition sub_u64 (a b : Z) : Z := wrap_u64 (a - b).

(** time.Time.Sub saturates. *)
Definition time_sub (a b : Z) : Z := Z.max (- 2 ^ 63) (Z.min (2 ^ 63 - 1) (a - b)).

Infix "+i" := add_i64 (at level 50, left associativity) : arfl_scope.
Infix "-i" := sub_i64 (at level 50, left associativity) : arfl_scope.
Infix "*i" := mul_i64 (at level 40, left associativity) : arfl_scope.
Infix "/i" := quot_i64 (at level 40, left associativity) : arfl_scope.
Infix "+u" := add_u64 (at level 50, left associativity) : arfl_scope.
Infix "-u" := sub_u64 (at level 50, left associativity) : arfl_scope.

(** ** Strings

    A Go string and a Go []byte are both byte sequences; both are [string]
    here. [len(s)] is [slen s]. *)
Definition slen (s : string) : Z := Z.of_nat (String.length s).
Definition str_empty (s : string) : bool := String.eqb s "".

(** SQLite's BINARY collation: bytewise, shorter first. *)
Definition str_le (a b : string) : bool := String.leb a b.
Definition str_lt (a b : string) : bool := String.ltb a b.

(** strings.Join *)
Fixpoint join (sep : string) (l : list string) : string :=
  match l with
  | [] => ""
  | [x] => x
  | x :: r => (x ++ sep ++ join sep r)%string
  end.

(** strings.Split with a one-byte separator. *)
Fixpoint split_on (c : ascii) (s : string) : list string :=
  match s with
  | EmptyString => [""%string]
  | String d r =>
      if Ascii.eqb c d then ""%string :: split_on c r
      else match split_on c r with
           | [] => [String d ""%string]
           | x :: l => String d x :: l
           end
  end.

Fixpoint char_free (c : ascii) (s : string) : bool :=
  match s with
  | EmptyString => true
  | String d r => negb (Ascii.eqb c d) && char_free c r
  end.

(** fmt's %d of an integer *)
Definition show_Z (z : Z) : string := pretty z.

(** ** encoding/hex *)
Definition hex_digit (n : nat) : ascii :=
  ascii_of_nat (if (n <? 10)%nat then n + 48 else n + 87)%nat.

Definition hex_value (c : ascii) : option nat :=
  let n := nat_of_ascii c in
  if ((48 <=? n) && (n <=? 57))%nat then Some (n - 48)%nat
  else if ((97 <=? n) && (n <=? 102))%nat then Some (n - 87)%nat
  else if ((65 <=? n) && (n <=? 70))%nat then Some (n - 55)%nat
  else None.

Fixpoint hex_encode (s : string) : string :=
  match s with
  | EmptyString => ""
  | String c r =>
      let n := nat_of_ascii c in
      String (hex_digit (n / 16)) (String (hex_digit (n mod 16)) (hex_encode r))
  end.

Fixpoint hex_decode (s : string) : option string :=
  match s with
  | EmptyString => Some ""%string
  | String a (String b r) =>
      match hex_value a, hex_value b, hex_decode r with
      | Some x, Some y, Some t => Some (String (ascii_of_nat (16 * x + y)) t)
      | _, _, _ => None
      end
  | String _ EmptyString => None
  end.

(** ** Sums *)
Definition zsum (l : list Z) : Z := foldr Z.add 0 l.
Definition zsum_by {A} (f : A -> Z) (l : list A) : Z := zsum (f <$> l).
(** Go's [for ... { total += x }] over uint64. *)
Definition usum_by {A} (f : A -> Z) (l : list A) : Z :=
  foldl (fun t a => t +u f a) 0 l.

Definition bfilter {A} (p : A -> bool) (l : list A) : list A := List.filter p l.

(** ** HTTP *)
Inductive reply (A : Type) : Type :=
| Reply (code : Z) (body : A)
| Fault (code : Z) (msg : string).
Arguments Reply {A} code body.
Arguments Fault {A} code msg.

Definition reply_code {A} (r : reply A) : Z :=
  match r with Reply c _ => c | Fault c _ => c end.

Inductive http_method := GET | POST | DELETE | PUT | OTHER.
#[export] Instance http_method_eq_dec : EqDecision http_method.
Proof. solve_decision. Defined.

Definition StatusOK := 200.
Definition StatusCreated := 201.
Definition StatusAccepted := 202.
Definition StatusBadRequest := 400.
Definition StatusUnauthorized := 401.
Definition StatusPaymentRequired := 402.
Definition StatusForbidden := 403.
Definition StatusNotFound := 404.
Definition StatusMethodNotAllowed := 405.
Definition StatusConflict := 409.
Definition StatusTooManyRequests := 429.
Definition StatusInternalServerError := 500.
Definition StatusBadGateway := 502.
Definition StatusServiceUnavailable := 503.

(** ** Lemmas and automation *)
Create HintDb arfl.
Create Rewrite HintDb arfl_rw.

(** Case analysis on everything a handler branches on, with the trivial
    branches closed: the workhorse of the per-branch lemmas. *)
Ltac step_match :=
  match goal with
  | |- context [match ?x with _ => _ end] => destruct x eqn:?
  | H : context [match ?x with _ => _ end] |- _ => destruct x eqn:?
  end.
Ltac crush := repeat (simplify_eq/=; try done; step_match); simplify_eq/=; try done.

(** Boolean guards to propositions. *)
Ltac bprop :=
  repeat match goal with
  | H : _ && _ = true |- _ => apply andb_true_iff in H as [? ?]
  | H : _ || _ = false |- _ => apply orb_false_iff in H as [? ?]
  | H : negb _ = true |- _ => apply negb_true_iff in H
  | H : negb _ = false |- _ => apply negb_false_iff in H
  | H : (_ <=? _) = true |- _ => apply Z.leb_le in H
  | H : (_ <=? _) = false |- _ => apply Z.leb_gt in H
  | H : (_ <? _) = true |- _ => apply Z.ltb_lt in H
  | H : (_ <? _) = false |- _ => apply Z.ltb_ge in H
  | H : (_ =? _) = true |- _ => apply Z.eqb_eq in H
  | H : (_ =? _) = false |- _ => apply Z.eqb_neq in H
  | H : String.eqb _ _ = true |- _ => apply String.eqb_eq in H
  | H : String.eqb _ _ = false |- _ => apply String.eqb_neq in H
  | H : bool_decide _ = true |- _ => apply bool_decide_eq_true in H
  | H : bool_decide _ = false |- _ => apply bool_decide_eq_false in H
  end.

Section integers.
Lemma wrap_i64_id z : in_i64 z -> wrap_i64 z = z.
Proof. unfold in_i64, wrap_i64. intros. rewrite Z.mod_small; lia. Qed.

Lemma wrap_i64_range z : in_i64 (wrap_i64 z).
Proof.
  unfold in_i64, wrap_i64.
  pose proof (Z.mod_pos_bound (z + 2 ^ 63) (2 ^ 64)). lia.
Qed.

Lemma wrap_u64_id z : in_u64 z -> wrap_u64 z = z.
Proof. unfold in_u64, wrap_u64. intros. apply Z.mod_small. lia. Qed.

Lemma wrap_u64_range z : in_u64 (wrap_u64 z).
Proof. unfold in_u64, wrap_u64. apply Z.mod_pos_bound. lia. Qed.

Lemma in_i64b_spec z : in_i64b z = true <-> in_i64 z.
Proof. unfold in_i64b, in_i64. rewrite andb_true_iff, Z.leb_le, Z.ltb_lt. lia. Qed.
End integers.

#[export] Hint Resolve wrap_i64_range wrap_u64_range : arfl.
#[export] Hint Rewrite wrap_i64_id wrap_u64_id using (unfold in_i64, in_u64 in *; lia) : arfl_rw.

Section sums.
Context {A : Type}.
Implicit Types (f : A -> Z) (l : list A).

Lemma zsum_app (l1 l2 : list Z) : zsum (l1 ++ l2) = zsum l1 + zsum l2.
Proof. induction l1; simpl; unfold zsum in *; simpl; lia. Qed.

Lemma zsum_by_nil f : zsum_by f [] = 0.
Proof. done. Qed.
Lemma zsum_by_cons f x l : zsum_by f (x :: l) = f x + zsum_by f l.
Proof. done. Qed.
Lemma zsum_by_app f l1 l2 : zsum_by f (l1 ++ l2) = zsum_by f l1 + zsum_by f l2.
Proof. unfold zsum_by. by rewrite fmap_app, zsum_app. Qed.

Lemma zsum_by_nonneg f l : Forall (fun x => 0 <= f x) l -> 0 <= zsum_by f l.
Proof. induction 1; rewrite ?zsum_by_nil, ?zsum_by_cons; lia. Qed.

Lemma zsum_by_perm f l1 l2 : l1 ≡ₚ l2 -> zsum_by f l1 = zsum_by f l2.
Proof. induction 1; rewrite ?zsum_by_cons in *; lia. Qed.

#[export] Instance zsum_by_proper f : Proper ((≡ₚ) ==> (=)) (zsum_by f).
Proof. intros l1 l2. apply zsum_by_perm. Qed.

Lemma usum_by_foldl f l t :
  in_u64 t ->
  foldl (fun t a => t +u f a) t l = wrap_u64 (t + zsum_by f l).
Proof.
  revert t. induction l as [|x l IH]; intros t Ht; simpl.
  - rewrite zsum_by_nil, Z.add_0_r. symmetry. by apply wrap_u64_id.
  - rewrite IH by apply wrap_u64_range. rewrite zsum_by_cons.
    unfold add_u64, wrap_u64. rewrite Zplus_mod_idemp_l. f_equal. lia.
Qed.

(** Wrapping at every step is wrapping once at the end. *)
Lemma usum_by_wrap f l : usum_by f l = wrap_u64 (zsum_by f l).
Proof. unfold usum_by. rewrite usum_by_foldl; [done|]. unfold in_u64; lia. Qed.

Lemma usum_by_exact f l : in_u64 (zsum_by f l) -> usum_by f l = zsum_by f l.
Proof. intros. rewrite usum_by_wrap. by apply wrap_u64_id. Qed.
End sums.

#[export] Hint Rewrite @zsum_by_nil @zsum_by_cons @zsum_by_app : arfl_rw.

Section bfilter.
Context {A : Type}.
Implicit Types (p : A -> bool) (l : list A).

Lemma elem_of_bfilter p x l : x ∈ bfilter p l <-> p x = true /\ x ∈ l.
Proof.
  unfold bfilter. rewrite !list_elem_of_In, List.filter_In. tauto.
Qed.

Lemma bfilter_app p l1 l2 : bfilter p (l1 ++ l2) = bfilter p l1 ++ bfilter p l2.
Proof. apply List.filter_app. Qed.

Lemma bfilter_cons p x l :
  bfilter p (x :: l) = if p x then x :: bfilter p l else bfilter p l.
Proof. done. Qed.
End bfilter.

(** Invariants of runs over pairs of a shared state and its threads. *)
Lemma rtc_pair_inv {A B} (R : relation (A * B)) (P : A -> B -> Prop) a b a' b' :
  (forall a b a' b', R (a, b) (a', b') -> P a b -> P a' b') ->
  rtc R (a, b) (a', b') -> P a b -> P a' b'.
Proof.
  intros Hstep Hrun. remember (a, b) as x eqn:Hx. remember (a', b') as y eqn:Hy.
  revert a b Hx. induction Hrun as [|x [a1 b1] y H1 _ IH]; intros a b ->; [by simplify_eq|].
  intros HP. eapply (IH Hy); [done|]. by eapply Hstep.
Qed.

(** Rewriting the rows of a table leaves a column the rewriting keeps. *)
Lemma fmap_keeps {A K} (k : A -> K) (f : A -> A) (l : list A) :
  (forall x, k (f x) = k x) -> k <$> (f <$> l) = k <$> l.
Proof. intros H. induction l; csimpl; [done|]. by rewrite H, IHl. Qed.

Section text.
Lemma hex_decode_encode s : hex_decode (hex_encode s) = Some s.
Proof.
  induction s as [|c s IH]; [done|].
  cbn -[Nat.div Nat.modulo hex_digit hex_value].
  rewrite IH.
  destruct c as [[] [] [] [] [] [] [] []]; reflexivity.
Qed.

Lemma hex_encode_length s : String.length (hex_encode s) = (2 * String.length s)%nat.
Proof. induction s as [|c s IH]; [done|]. cbn -[Nat.mul Nat.div Nat.modulo]. rewrite IH. lia. Qed.

Lemma split_on_nonempty c s : split_on c s <> [].
Proof. induction s; simpl; [done|]. crush. Qed.

Lemma split_on_free c s : char_free c s = true -> split_on c s = [s].
Proof.
  induction s as [|d s IH]; simpl; [done|].
  intros H. bprop. rewrite H. by rewrite IH.
Qed.

Lemma split_on_cons c s r :
  char_free c s = true ->
  split_on c (s ++ String c r)%string = s :: split_on c r.
Proof.
  induction s as [|d s IH]; simpl.
  - intros _. by rewrite Ascii.eqb_refl.
  - intros H. bprop. rewrite H. by rewrite IH.
Qed.

(** strings.Split undoes strings.Join on non-empty lists whose elements do
    not contain the separator. *)
Lemma split_join c l :
  l <> [] -> forallb (char_free c) l = true ->
  split_on c (join (String c "") l) = l.
Proof.
  intros Hne Hfree. induction l as [|x [|y l] IH]; [done| |].
  - simpl in *. bprop. by apply split_on_free.
  - cbn [forallb] in Hfree. bprop.
    change (join (String c "") (x :: y :: l))
      with (x ++ String c (join (String c "") (y :: l)))%string.
    rewrite split_on_cons by done. f_equal. apply IH; [done|].
    simpl. by rewrite andb_true_iff.
Qed.
End text.

Lemma str_app_assoc (a b c : string) : ((a ++ b) ++ c = a ++ (b ++ c))%string.
Proof. induction a as [|x a IH]; [done|]. exact (f_equal (String x) IH). Qed.
Lemma str_length_app a b : String.length (a ++ b)%string = (String.length a + String.length b)%nat.
Proof. induction a as [|c a IH]; [done|]. exact (f_equal S IH). Qed.

(** ** Delimited and length-prefixed text *)
Section delimited.
Lemma char_free_app c a b : char_free c (a ++ b)%string = char_free c a && char_free c b.
Proof. induction a as [|d a IH]; simpl; [done|]. by rewrite IH, andb_assoc. Qed.

Lemma pretty_N_go_free c n s :
  (forall d, pretty_N_char d <> c) -> char_free c s = true ->
  char_free c (pretty_N_go n s) = true.
Proof.
  intros Hc. revert s. induction (N.lt_wf_0 n) as [n _ IH]; intros s Hs.
  assert (n = 0 \/ 0 < n)%N as [->|Hn] by lia; [by rewrite pretty_N_go_0|].
  rewrite pretty_N_go_step by done. apply IH; [by apply N.div_lt|].
  simpl. rewrite Hs, andb_true_r, negb_true_iff, Ascii.eqb_neq.
  intros ->. by eapply Hc.
Qed.

(** %d prints digits and a minus sign only. *)
Lemma show_Z_free c z :
  (forall d, pretty_N_char d <> c) -> c <> "-"%char -> char_free c (show_Z z) = true.
Proof.
  intros Hc Hm. unfold show_Z, pretty, pretty_Z.
  assert (forall p, char_free c (pretty (N.pos p)) = true) as Hp.
  { intros p. unfold pretty, pretty_N. case_decide; [done|].
    by apply pretty_N_go_free. }
  destruct z as [|p|p].
  - simpl. rewrite andb_true_r, negb_true_iff, Ascii.eqb_neq.
    intros ->. by apply (Hc 0%N).
  - apply Hp.
  - change (char_free c (String "-" (pretty (N.pos p))) = true).
    cbn [char_free]. rewrite Hp, andb_true_r, negb_true_iff, Ascii.eqb_neq. done.
Qed.

Lemma show_Z_inj x y : show_Z x = show_Z y -> x = y.
Proof. apply (inj pretty). Qed.

Lemma pretty_char_not c : (nat_of_ascii c <? 48)%nat || (57 <? nat_of_ascii c)%nat = true ->
  forall d, pretty_N_char d <> c.
Proof.
  intros H d <-. revert H. unfold pretty_N_char.
  repeat case_match; vm_compute; done.
Qed.

Lemma bar_free_Z z : char_free "|" (show_Z z) = true.
Proof. apply show_Z_free; [by apply pretty_char_not|done]. Qed.
Lemma colon_free_Z z : char_free ":" (show_Z z) = true.
Proof. apply show_Z_free; [by apply pretty_char_not|done]. Qed.

Lemma sep_inj c a b x y :
  char_free c a = true -> char_free c b = true ->
  (a ++ String c x = b ++ String c y)%string -> a = b /\ x = y.
Proof.
  revert b. induction a as [|d a IH]; intros [|e b] Ha Hb Heq; simpl in *; simplify_eq/=; bprop.
  - done.
  - by rewrite Ascii.eqb_refl in *.
  - by rewrite Ascii.eqb_refl in *.
  - destruct (IH b) as [-> ->]; auto.
Qed.

Lemma app_len_inj a b x y :
  String.length a = String.length b ->
  (a ++ x = b ++ y)%string -> a = b /\ x = y.
Proof.
  revert b. induction a as [|d a IH]; intros [|e b] Hl Heq; simpl in *; simplify_eq/=; [done|].
  destruct (IH b) as [-> ->]; auto.
Qed.

Lemma hex_encode_free c s :
  (forall n, (n < 16)%nat -> hex_digit n <> c) -> char_free c (hex_encode s) = true.
Proof.
  intros Hc. induction s as [|d s IH]; [done|].
  cbn -[Nat.div Nat.modulo hex_digit]. rewrite IH, andb_true_r, andb_true_iff.
  pose proof (nat_ascii_bounded d) as Hd.
  split; rewrite negb_true_iff, Ascii.eqb_neq; intros Heq; eapply Hc; [|done| |done].
  - apply Nat.Div0.div_lt_upper_bound; lia.
  - by apply Nat.mod_upper_bound.
Qed.
End delimited.
