(* ===== verification/Sql.v ===== *)
(** * Sql: the SQLite statements the store issues

    A table is the list of its rows in insertion order (no table of the schema
    allows DELETE). [sql_insert], [sql_insert_ignore], [sql_insert_nothing] and
    [sql_update] are INSERT, INSERT OR IGNORE, INSERT .. ON CONFLICT DO NOTHING
    and UPDATE .. WHERE over such a table, with the constraint checks and the
    BEFORE UPDATE triggers of the schema as arguments. The lemmas describe
    every outcome of a statement once; the ledger's proofs use only them. *)
From S2P Require Import Prelude.

Inductive sql_error :=
| UniqueViolation
| CheckViolation
| ForeignKeyViolation
| TriggerRaised
| IntegerOverflow
| UnsupportedUint64
| NoRows.

#[export] Instance sql_error_eq_dec : EqDecision sql_error.
Proof. solve_decision. Defined.

Section statements.
Context {R : Type}.
Implicit Types (t : list R) (r : R).

(** [clash r r'] : the rows violate a UNIQUE or PRIMARY KEY constraint
    together. [chk] is the CHECK constraints, [fk] the foreign keys. *)
Definition sql_insert (clash : R -> R -> bool) (chk fk : R -> bool) r t : result sql_error (list R) :=
  if negb (chk r) then Err CheckViolation
  else if existsb (clash r) t then Err UniqueViolation
  else if negb (fk r) then Err ForeignKeyViolation
  else Ok (t ++ [r]).

(** INSERT OR IGNORE: a UNIQUE or CHECK violation skips the row. The boolean
    is [RowsAffected() > 0]. *)
Definition sql_insert_ignore (clash : R -> R -> bool) (chk : R -> bool) r t : list R * bool :=
  if negb (chk r) || existsb (clash r) t then (t, false) else (t ++ [r], true).

(** INSERT .. ON CONFLICT(key) DO NOTHING *)
Definition sql_insert_nothing (clash : R -> R -> bool) r t : list R * bool :=
  if existsb (clash r) t then (t, false) else (t ++ [r], true).

(** UPDATE: rows are visited in order; a BEFORE UPDATE trigger that fires
    RAISE(FAIL)s, which stops the statement and keeps what it already did; a
    violated CHECK aborts the statement and undoes it. *)
Inductive scan := Done (n : nat) | Fired | ChkFailed.

Fixpoint update_scan (p : R -> bool) (trig : R -> R -> bool) (chk : R -> bool)
    (f : R -> R) t : list R * scan :=
  match t with
  | [] => ([], Done 0)
  | r :: t' =>
      if p r then
        if trig r (f r) then (r :: t', Fired)
        else if negb (chk (f r)) then (r :: t', ChkFailed)
        else let '(u, o) := update_scan p trig chk f t' in
             (f r :: u, match o with Done n => Done (S n) | _ => o end)
      else let '(u, o) := update_scan p trig chk f t' in (r :: u, o)
  end.

(** The result carries RowsAffected(). *)
Definition sql_update (p : R -> bool) (trig : R -> R -> bool) (chk : R -> bool)
    (f : R -> R) t : list R * result sql_error nat :=
  match update_scan p trig chk f t with
  | (u, Done n) => (u, Ok n)
  | (u, Fired) => (u, Err TriggerRaised)
  | (_, ChkFailed) => (t, Err CheckViolation)
  end.

(** SELECT .. WHERE .. of at most one row. *)
Definition sql_find (p : R -> bool) t : option R := List.find p t.

Definition sql_count (p : R -> bool) t : nat := length (bfilter p t).
End statements.

(** SUM over int64 columns: NULL (read as 0) on no rows, an error when the
    running sum leaves int64. *)
Fixpoint sql_sum (l : list Z) (acc : Z) : result sql_error Z :=
  match l with
  | [] => Ok acc
  | x :: r => if in_i64b (acc + x) then sql_sum r (acc + x) else Err IntegerOverflow
  end.

(** AUTOINCREMENT *)
Definition next_rowid (ids : list Z) : Z := 1 + foldr Z.max 0 ids.

(** ORDER BY: a stable sort; rows that compare equal keep insertion order. *)
Fixpoint ins_sorted {R} (le : R -> R -> bool) (x : R) (l : list R) : list R :=
  match l with
  | [] => [x]
  | y :: l' => if le x y then x :: y :: l' else y :: ins_sorted le x l'
  end.
Definition order_by {R} (le : R -> R -> bool) (l : list R) : list R :=
  foldr (ins_sorted le) [] l.
(** ORDER BY of a text column *)
Definition by_text {R} (key : R -> string) (x y : R) : bool := str_le (key x) (key y).

(** ** What a statement can have done *)
Section facts.
Context {R : Type}.
Implicit Types (t : list R) (r : R).

Lemma sql_insert_Ok clash chk fk r t t' :
  sql_insert clash chk fk r t = Ok t' ->
  t' = t ++ [r] /\ chk r = true /\ fk r = true /\
  forall r', r' ∈ t -> clash r r' = false.
Proof.
  unfold sql_insert. intros H.
  destruct (chk r) eqn:?, (existsb (clash r) t) eqn:He, (fk r) eqn:?; simplify_eq/=.
  split_and!; try done. intros r' Hin.
  destruct (clash r r') eqn:Hc; [|done].
  assert (existsb (clash r) t = true); [|congruence].
  apply existsb_exists. exists r'. by rewrite <-list_elem_of_In.
Qed.

Lemma sql_insert_fits clash chk fk r t :
  chk r = true -> (forall r', r' ∈ t -> clash r r' = false) -> fk r = true ->
  sql_insert clash chk fk r t = Ok (t ++ [r]).
Proof.
  intros Hc Hcl Hfk. unfold sql_insert. rewrite Hc, Hfk. simpl.
  destruct (existsb (clash r) t) eqn:He; [|done].
  apply existsb_exists in He as (r' & Hr' & Hx).
  rewrite Hcl in Hx; [done|by apply list_elem_of_In].
Qed.

Lemma sql_insert_nothing_spec clash r t t' b :
  sql_insert_nothing clash r t = (t', b) ->
  (b = true /\ t' = t ++ [r] /\ forall r', r' ∈ t -> clash r r' = false) \/
  (b = false /\ t' = t /\ exists r', r' ∈ t /\ clash r r' = true).
Proof.
  unfold sql_insert_nothing.
  destruct (existsb (clash r) t) eqn:He; intros [= <- <-]; [right|left]; split_and!; try done.
  - apply existsb_exists in He as (r' & ? & ?). exists r'. by rewrite list_elem_of_In.
  - intros r' Hin. destruct (clash r r') eqn:Hc; [|done].
    assert (existsb (clash r) t = true) as Hx; [|congruence].
    apply existsb_exists. exists r'. by rewrite <-list_elem_of_In.
Qed.

Lemma sql_insert_ignore_spec clash chk r t t' b :
  sql_insert_ignore clash chk r t = (t', b) ->
  (b = true /\ t' = t ++ [r] /\ chk r = true /\ forall r', r' ∈ t -> clash r r' = false) \/
  (b = false /\ t' = t).
Proof.
  unfold sql_insert_ignore. intros H.
  destruct (chk r) eqn:Hchk; simpl in H; [|by right; simplify_eq].
  change (sql_insert_nothing clash r t = (t', b)) in H.
  apply sql_insert_nothing_spec in H as [(? & ? & ?)|(? & ? & ?)]; [left|right]; done.
Qed.

(** A row after an UPDATE is the old row, or the new one that passed the
    trigger and the CHECK. Holds for every outcome of the statement. *)
Definition row_step (p : R -> bool) (trig : R -> R -> bool) (chk : R -> bool)
    (f : R -> R) (r r' : R) : Prop :=
  r' = r \/ (p r = true /\ r' = f r /\ trig r (f r) = false /\ chk (f r) = true).

Lemma update_scan_rows p trig chk f t u o :
  update_scan p trig chk f t = (u, o) -> Forall2 (row_step p trig chk f) t u.
Proof.
  revert u o. induction t as [|r t IH]; simpl; intros u o H; simplify_eq; [done|].
  assert (forall l, Forall2 (row_step p trig chk f) l l) as Hrefl.
  { intros l. apply Forall_Forall2_diag, Forall_forall. by left. }
  destruct (p r) eqn:Hp; [destruct (trig r (f r)) eqn:?|].
  - simplify_eq. done.
  - destruct (chk (f r)) eqn:?; simplify_eq/=; [|done].
    destruct (update_scan p trig chk f t) as [u' o'] eqn:Hs; simplify_eq.
    constructor; [by right|]. by eapply IH.
  - destruct (update_scan p trig chk f t) as [u' o'] eqn:Hs; simplify_eq.
    constructor; [by left|]. by eapply IH.
Qed.

Lemma sql_update_rows p trig chk f t u res :
  sql_update p trig chk f t = (u, res) -> Forall2 (row_step p trig chk f) t u.
Proof.
  unfold sql_update. intros H.
  destruct (update_scan p trig chk f t) as [u' o] eqn:Hs.
  apply update_scan_rows in Hs.
  destruct o; simplify_eq; try done.
  apply Forall_Forall2_diag, Forall_forall. by left.
Qed.

Lemma sql_update_Ok p trig chk f t u n :
  sql_update p trig chk f t = (u, Ok n) ->
  u = (fun r => if p r then f r else r) <$> t /\ n = sql_count p t.
Proof.
  unfold sql_update. destruct (update_scan p trig chk f t) as [u' []] eqn:Hs; [|done..].
  intros [= <- <-]. revert u' n0 Hs.
  induction t as [|r t IH]; simpl; intros u' m Hs; [by simplify_eq|].
  unfold sql_count. simpl. destruct (p r) eqn:Hp.
  - destruct (trig r (f r)); [done|]. destruct (chk (f r)); [|done]. simpl in Hs.
    destruct (update_scan p trig chk f t) as [w []] eqn:Hw; simplify_eq/=.
    destruct (IH _ _ eq_refl) as [-> ->]. done.
  - destruct (update_scan p trig chk f t) as [w []] eqn:Hw; simplify_eq/=.
    destruct (IH _ _ eq_refl) as [-> ->]. done.
Qed.

(** No trigger fires and no CHECK fails: the UPDATE is a map. *)
Lemma sql_update_map p trig chk f t :
  (forall r, r ∈ t -> p r = true -> trig r (f r) = false /\ chk (f r) = true) ->
  sql_update p trig chk f t =
    ((fun r => if p r then f r else r) <$> t, Ok (sql_count p t)).
Proof.
  intros Hok. unfold sql_update.
  assert (update_scan p trig chk f t =
    ((fun r => if p r then f r else r) <$> t, Done (sql_count p t))) as ->; [|done].
  induction t as [|r t IH]; [done|]. simpl.
  rewrite IH by (intros; apply Hok; [by right|done]).
  unfold sql_count. simpl. destruct (p r) eqn:Hp; [|done].
  destruct (Hok r) as [-> ->]; [by left|done|]. done.
Qed.

Lemma sql_update_none p trig chk f t :
  sql_count p t = 0%nat -> sql_update p trig chk f t = (t, Ok 0%nat).
Proof.
  intros H. rewrite sql_update_map, H.
  - f_equal. rewrite <-(list_fmap_id t) at 2. apply list_fmap_ext. intros i r Hr.
    destruct (p r) eqn:Hp; [|done].
    assert (r ∈ bfilter p t) as Hin.
    { apply elem_of_bfilter. split; [done|]. by eapply list_elem_of_lookup_2. }
    unfold sql_count in H. destruct (bfilter p t); [by apply not_elem_of_nil in Hin|done].
  - intros r Hr Hp.
    assert (r ∈ bfilter p t) as Hin by by apply elem_of_bfilter.
    unfold sql_count in H. destruct (bfilter p t); [by apply not_elem_of_nil in Hin|done].
Qed.

Lemma sql_count_pos p t : (0 < sql_count p t)%nat <-> exists r, r ∈ t /\ p r = true.
Proof.
  unfold sql_count. split.
  - destruct (bfilter p t) as [|r l] eqn:Hf; simpl; [lia|]. intros _.
    exists r. assert (r ∈ bfilter p t) as Hin by (rewrite Hf; by left).
    apply elem_of_bfilter in Hin. tauto.
  - intros (r & Hr & Hp).
    assert (r ∈ bfilter p t) as Hin by by apply elem_of_bfilter.
    destruct (bfilter p t); [by apply not_elem_of_nil in Hin|simpl; lia].
Qed.

Lemma sql_find_Some p t r : sql_find p t = Some r -> r ∈ t /\ p r = true.
Proof. intros H. apply List.find_some in H. by rewrite list_elem_of_In. Qed.

Lemma sql_find_None p t r : sql_find p t = None -> r ∈ t -> p r = false.
Proof.
  intros H Hin. apply list_elem_of_In in Hin.
  by eapply List.find_none in H.
Qed.

(** Columns an UPDATE does not write keep their values, row by row. *)
Lemma update_column {K} (g : R -> K) p trig chk f t u :
  (forall r, g (f r) = g r) ->
  Forall2 (row_step p trig chk f) t u -> g <$> u = g <$> t.
Proof.
  intros Hg. induction 1 as [|r r' t u Hr _ IH]; [done|].
  csimpl. f_equal; [|done]. destruct Hr as [->|(_ & -> & _)]; auto.
Qed.
End facts.

Lemma sql_find_snoc {R} (p : R -> bool) t r :
  sql_find p (t ++ [r]) =
    match sql_find p t with Some x => Some x | None => if p r then Some r else None end.
Proof. unfold sql_find. induction t as [|x t IH]; simpl; [done|]. by destruct (p x). Qed.

Lemma next_rowid_fresh ids : next_rowid ids ∉ ids.
Proof.
  assert (forall i, i ∈ ids -> i < next_rowid ids) as H.
  { unfold next_rowid. induction ids as [|x ids IH]; intros i Hi; [by apply not_elem_of_nil in Hi|].
    simpl. apply elem_of_cons in Hi as [->|Hi]; [lia|]. apply IH in Hi. lia. }
  intros Hin. apply H in Hin. lia.
Qed.

Lemma next_rowid_pos ids : 0 < next_rowid ids.
Proof. unfold next_rowid. induction ids; simpl; lia. Qed.

Lemma sql_sum_exact l acc z : sql_sum l acc = Ok z -> z = acc + zsum l.
Proof.
  revert acc. induction l as [|x l IH]; simpl; intros acc H; simplify_eq; [lia|].
  destruct (in_i64b (acc + x)); [|done]. apply IH in H. lia.
Qed.

Lemma sql_sum_range l acc z : in_i64 acc -> sql_sum l acc = Ok z -> in_i64 z.
Proof.
  revert acc. induction l as [|x l IH]; simpl; intros acc Hacc Hz; simplify_eq; [done|].
  destruct (in_i64b (acc + x)) eqn:Hb; [|done]. eapply IH; [|done]. by apply in_i64b_spec.
Qed.

Lemma ins_sorted_perm {R} (le : R -> R -> bool) x l : ins_sorted le x l ≡ₚ x :: l.
Proof.
  induction l as [|y l IH]; simpl; [done|].
  destruct (le x y); [done|]. rewrite IH. apply perm_swap.
Qed.

Lemma order_by_perm {R} (le : R -> R -> bool) l : order_by le l ≡ₚ l.
Proof.
  unfold order_by. induction l as [|x l IH]; simpl; [done|].
  by rewrite ins_sorted_perm, IH.
Qed.

(** A row that is not before any other goes last. *)
Lemma order_by_snoc {R} (le : R -> R -> bool) l r :
  (forall x, x ∈ l -> le x r = true) -> order_by le (l ++ [r]) = order_by le l ++ [r].
Proof.
  assert (forall x L, le x r = true -> ins_sorted le x (L ++ [r]) = ins_sorted le x L ++ [r]) as Hins.
  { intros x L Hx. induction L as [|y L IH]; simpl; [by rewrite Hx|]. rewrite IH. by destruct (le x y). }
  intros Hall. unfold order_by. induction l as [|x l IH]; simpl; [done|].
  rewrite IH by (intros; apply Hall; by right). apply Hins, Hall. by left.
Qed.

(** An UPDATE that selects only the last row. *)
Lemma sql_update_snoc {R} (p : R -> bool) chk (f : R -> R) t r :
  (forall x, x ∈ t -> p x = false) -> p r = true -> chk (f r) = true ->
  sql_update p (fun _ _ => false) chk f (t ++ [r]) = (t ++ [f r], Ok 1%nat).
Proof.
  intros Hold Hr Hc.
  assert (update_scan p (fun _ _ => false) chk f (t ++ [r]) = (t ++ [f r], Done 1)) as Hs; [|unfold sql_update; by rewrite Hs].
  induction t as [|x t IH]; simpl; [by rewrite Hr, Hc|].
  rewrite (Hold x) by left. rewrite IH; [done|]. intros y Hy. apply Hold. by right.
Qed.

#[export] Hint Resolve next_rowid_fresh next_rowid_pos : arfl.
