(* ===== verification/Schema.v ===== *)
(** * Schema: the hub's SQLite tables (src/internal/store/schema.go)

    One record per table with its columns, one boolean per CHECK clause, UNIQUE
    or PRIMARY KEY constraint, and one per BEFORE UPDATE trigger. Columns whose
    CHECK lists the allowed strings are enumerations. [DB] is the ledger part of
    the database; the Cashu tables are in EcashStore.v. DELETE is forbidden by
    the *_no_delete triggers and never issued, so tables only grow. *)
From S2P Require Import Prelude Sql.

(** ** invoices *)
Inductive InvStatus := InvOpen | InvSettled | InvExpired.
#[export] Instance InvStatus_eq_dec : EqDecision InvStatus.
Proof. solve_decision. Defined.

Record InvoiceRow := mkInvoice {
  i_id : Z;
  i_payment_hash : string;
  i_payment_request : string;
  i_amount_sats : Z;
  i_tier : string;
  i_bytes_allowed : Z;
  i_status : InvStatus;
  i_created_at : string;
  i_settled_at : option string;
  i_expires_at : string;
  i_client_ip : string
}.

Definition invoice_check (r : InvoiceRow) : bool :=
  (0 <? i_amount_sats r) && (0 <? i_bytes_allowed r).
Definition invoice_clash (r r' : InvoiceRow) : bool :=
  String.eqb (i_payment_hash r) (i_payment_hash r').
(** invoices_immutable_fields *)
Definition invoices_immutable_fields (o n : InvoiceRow) : bool :=
  negb (String.eqb (i_payment_hash o) (i_payment_hash n))
  || negb (i_amount_sats o =? i_amount_sats n)
  || negb (String.eqb (i_tier o) (i_tier n))
  || negb (i_bytes_allowed o =? i_bytes_allowed n)
  || negb (String.eqb (i_payment_request o) (i_payment_request n)).
(** invoices_forward_transition *)
Definition invoices_forward_transition (o n : InvoiceRow) : bool :=
  negb (bool_decide (i_status o = InvOpen)) && negb (bool_decide (i_status o = i_status n)).
Definition invoice_trig (o n : InvoiceRow) : bool :=
  invoices_immutable_fields o n || invoices_forward_transition o n.

(** ** tickets *)
Inductive TicketStatus := TActive | TRedeemed.
#[export] Instance TicketStatus_eq_dec : EqDecision TicketStatus.
Proof. solve_decision. Defined.

Record TicketRow := mkTicket {
  t_id : string;
  t_payment_hash : string;
  t_bytes_value : Z;
  t_hmac : string;
  t_status : TicketStatus;
  t_issued_at : string;
  t_redeemed_at : option string;
  t_redeemed_by : option string
}.

Definition ticket_check (r : TicketRow) : bool := 0 <? t_bytes_value r.
Definition ticket_clash (r r' : TicketRow) : bool := String.eqb (t_id r) (t_id r').
(** tickets_no_rewrite *)
Definition tickets_no_rewrite (o n : TicketRow) : bool := bool_decide (t_status o = TRedeemed).
(** tickets_immutable_fields *)
Definition tickets_immutable_fields (o n : TicketRow) : bool :=
  negb (t_bytes_value o =? t_bytes_value n)
  || negb (String.eqb (t_hmac o) (t_hmac n))
  || negb (String.eqb (t_payment_hash o) (t_payment_hash n)).
Definition ticket_trig (o n : TicketRow) : bool :=
  tickets_no_rewrite o n || tickets_immutable_fields o n.

(** ** usage_reports *)
Record UsageRow := mkUsage {
  u_id : Z;
  u_session_id : string;
  u_ticket_id : string;
  u_node_pubkey : string;
  u_node_role : string;
  u_bytes_reported : Z;
  u_reported_at : string;
  u_node_signature : string;
  u_received_at : string
}.

Definition usage_check (r : UsageRow) : bool :=
  (String.eqb (u_node_role r) "entry" || String.eqb (u_node_role r) "exit")
  && (0 <=? u_bytes_reported r).

(** ** settlement_entries *)
Record SettlementRow := mkSettlement {
  s_id : Z;
  s_period : string;
  s_node_pubkey : string;
  s_billable_bytes : Z;
  s_amount_sats : Z;
  s_entry_bytes_total : Z;
  s_exit_bytes_total : Z;
  s_tickets_redeemed : Z;
  s_created_at : string
}.

Definition settlement_check (r : SettlementRow) : bool :=
  (0 <=? s_billable_bytes r) && (0 <=? s_amount_sats r).
(** UNIQUE(settlement_period, node_pubkey) *)
Definition settlement_clash (r r' : SettlementRow) : bool :=
  String.eqb (s_period r) (s_period r') && String.eqb (s_node_pubkey r) (s_node_pubkey r').

(** ** payouts *)
Inductive PayoutStatus := PPending | PInFlight | PPaid | PFailed | PRetrying.
#[export] Instance PayoutStatus_eq_dec : EqDecision PayoutStatus.
Proof. solve_decision. Defined.

Record PayoutRow := mkPayout {
  p_id : Z;
  p_entry_id : Z;
  p_node_pubkey : string;
  p_amount_sats : Z;
  p_status : PayoutStatus;
  p_payment_hash : option string;
  p_attempt_count : Z;
  p_last_error : option string;
  p_created_at : string;
  p_updated_at : string
}.

Definition payout_check (r : PayoutRow) : bool := 0 <? p_amount_sats r.
(** idx_payouts_settlement_unique *)
Definition payout_clash (r r' : PayoutRow) : bool := p_entry_id r =? p_entry_id r'.
(** payouts_immutable_fields *)
Definition payout_trig (o n : PayoutRow) : bool :=
  negb (p_amount_sats o =? p_amount_sats n)
  || negb (String.eqb (p_node_pubkey o) (p_node_pubkey n))
  || negb (p_entry_id o =? p_entry_id n).

(** ** compensating_entries *)
Record CompRow := mkComp {
  c_id : Z;
  c_entry_type : string;
  c_reference_id : Z;
  c_adjustment_sats : Z;
  c_reason : string;
  c_created_at : string
}.

Definition comp_check (r : CompRow) : bool :=
  String.eqb (c_entry_type r) "settlement" || String.eqb (c_entry_type r) "payout"
  || String.eqb (c_entry_type r) "ticket".

(** ** entitlements *)
Record EntitlementRow := mkEntitlement {
  e_id : string;
  e_payment_hash : string;
  e_tokens_remaining : Z;
  e_tokens_total : Z;
  e_bytes_per_token : Z;
  e_key_id : string;
  e_created_at : string
}.

Definition entitlement_check (r : EntitlementRow) : bool :=
  (0 <=? e_tokens_remaining r) && (0 <? e_tokens_total r) && (0 <? e_bytes_per_token r).
Definition entitlement_clash (r r' : EntitlementRow) : bool :=
  String.eqb (e_id r) (e_id r') || String.eqb (e_payment_hash r) (e_payment_hash r').
(** entitlements_immutable_fields *)
Definition entitlement_trig (o n : EntitlementRow) : bool :=
  negb (String.eqb (e_payment_hash o) (e_payment_hash n))
  || negb (e_tokens_total o =? e_tokens_total n)
  || negb (e_bytes_per_token o =? e_bytes_per_token n)
  || negb (String.eqb (e_key_id o) (e_key_id n)).

(** ** spent_tokens *)
Record SpentTokenRow := mkSpentToken {
  st_token_id : string;
  st_key_id : string;
  st_node_pubkey : string;
  st_spent_at : string
}.
Definition spent_token_clash (r r' : SpentTokenRow) : bool :=
  String.eqb (st_token_id r) (st_token_id r').

(** ** redemptions *)
Record RedemptionRow := mkRedemption {
  r_nonce : string;
  r_entitlement_id : string;
  r_request_hash : string;
  r_tokens_count : Z;
  r_blind_signatures : list string;
  r_created_at : string
}.
Definition redemption_check (r : RedemptionRow) : bool := 0 <? r_tokens_count r.
Definition redemption_clash (r r' : RedemptionRow) : bool :=
  String.eqb (r_nonce r) (r_nonce r').

(** ** node_leases: the RFC3339 columns are the whole seconds they denote *)
Record LeaseRow := mkLease {
  l_node_pubkey : string;
  l_node_wg_pubkey : string;
  l_operator_id : string;
  l_allowed_roles : string;
  l_lease_start : Z;
  l_lease_end : Z;
  l_revoked : bool;
  l_updated_at : string
}.

(** ** node_wallets *)
Record WalletRow := mkWalletRow {
  w_node_pubkey : string;
  w_ln_address : string;
  w_updated_at : string
}.

(** ** withdrawals *)
Inductive WithdrawalStatus := WPending | WPaid | WFailed.
#[export] Instance WithdrawalStatus_eq_dec : EqDecision WithdrawalStatus.
Proof. solve_decision. Defined.

Record WithdrawalRow := mkWithdrawal {
  wd_id : Z;
  wd_node_pubkey : string;
  wd_amount_sats : Z;
  wd_status : WithdrawalStatus;
  wd_payment_hash : option string;
  wd_last_error : option string;
  wd_created_at : string;
  wd_updated_at : string
}.
Definition withdrawal_check (r : WithdrawalRow) : bool := 0 <? wd_amount_sats r.

(** ** The database *)
Record DB := mkDB {
  invoices : list InvoiceRow;
  tickets : list TicketRow;
  usage_reports : list UsageRow;
  settlement_entries : list SettlementRow;
  payouts : list PayoutRow;
  compensating_entries : list CompRow;
  entitlements : list EntitlementRow;
  spent_tokens : list SpentTokenRow;
  redemptions : list RedemptionRow;
  node_leases : list LeaseRow;
  node_wallets : list WalletRow;
  withdrawals : list WithdrawalRow
}.

(** A freshly migrated database. *)
Definition empty_db : DB := mkDB [] [] [] [] [] [] [] [] [] [] [] [].

Definition set_invoices (db : DB) t := mkDB t (tickets db) (usage_reports db)
  (settlement_entries db) (payouts db) (compensating_entries db) (entitlements db)
  (spent_tokens db) (redemptions db) (node_leases db) (node_wallets db) (withdrawals db).
Definition set_tickets (db : DB) t := mkDB (invoices db) t (usage_reports db)
  (settlement_entries db) (payouts db) (compensating_entries db) (entitlements db)
  (spent_tokens db) (redemptions db) (node_leases db) (node_wallets db) (withdrawals db).
Definition set_usage_reports (db : DB) t := mkDB (invoices db) (tickets db) t
  (settlement_entries db) (payouts db) (compensating_entries db) (entitlements db)
  (spent_tokens db) (redemptions db) (node_leases db) (node_wallets db) (withdrawals db).
Definition set_settlement_entries (db : DB) t := mkDB (invoices db) (tickets db)
  (usage_reports db) t (payouts db) (compensating_entries db) (entitlements db)
  (spent_tokens db) (redemptions db) (node_leases db) (node_wallets db) (withdrawals db).
Definition set_payouts (db : DB) t := mkDB (invoices db) (tickets db) (usage_reports db)
  (settlement_entries db) t (compensating_entries db) (entitlements db)
  (spent_tokens db) (redemptions db) (node_leases db) (node_wallets db) (withdrawals db).
Definition set_compensating (db : DB) t := mkDB (invoices db) (tickets db) (usage_reports db)
  (settlement_entries db) (payouts db) t (entitlements db)
  (spent_tokens db) (redemptions db) (node_leases db) (node_wallets db) (withdrawals db).
Definition set_entitlements (db : DB) t := mkDB (invoices db) (tickets db) (usage_reports db)
  (settlement_entries db) (payouts db) (compensating_entries db) t
  (spent_tokens db) (redemptions db) (node_leases db) (node_wallets db) (withdrawals db).
Definition set_spent_tokens (db : DB) t := mkDB (invoices db) (tickets db) (usage_reports db)
  (settlement_entries db) (payouts db) (compensating_entries db) (entitlements db)
  t (redemptions db) (node_leases db) (node_wallets db) (withdrawals db).
Definition set_redemptions (db : DB) t := mkDB (invoices db) (tickets db) (usage_reports db)
  (settlement_entries db) (payouts db) (compensating_entries db) (entitlements db)
  (spent_tokens db) t (node_leases db) (node_wallets db) (withdrawals db).
Definition set_node_leases (db : DB) t := mkDB (invoices db) (tickets db) (usage_reports db)
  (settlement_entries db) (payouts db) (compensating_entries db) (entitlements db)
  (spent_tokens db) (redemptions db) t (node_wallets db) (withdrawals db).
Definition set_node_wallets (db : DB) t := mkDB (invoices db) (tickets db) (usage_reports db)
  (settlement_entries db) (payouts db) (compensating_entries db) (entitlements db)
  (spent_tokens db) (redemptions db) (node_leases db) t (withdrawals db).
Definition set_withdrawals (db : DB) t := mkDB (invoices db) (tickets db) (usage_reports db)
  (settlement_entries db) (payouts db) (compensating_entries db) (entitlements db)
  (spent_tokens db) (redemptions db) (node_leases db) (node_wallets db) t.
