(* ===== verification/Credentials.v ===== *)
(** * Credentials: tiers, HMAC tickets and RSA blind tokens
    (src/internal/credentials/) *)
From S2P Require Import Prelude.

(** ** tiers.go *)
Record Tier := mkTier {
  tier_ID : string;
  tier_Name : string;
  tier_Bytes : Z;
  tier_PriceSats : Z;
  tier_TicketCount : Z;
  tier_TicketBytes : Z
}.

Definition DefaultTiers : gmap string Tier :=
  <["1gb" := mkTier "1gb" "1 GB" 1000000000 500 10 100000000]>
  (<["10gb" := mkTier "10gb" "10 GB" 10000000000 4000 100 100000000]>
  (<["50gb" := mkTier "50gb" "50 GB" 50000000000 15000 500 100000000]> ∅)).

(** ** Errors *)
Inductive cred_error :=
| ErrInvalidMAC
| ErrExpiredTicket
| ErrUnknownKeyID
| ErrInvalidTicket (why : string)
| ErrUnknownTier (id : string)
| ErrIssue (why : string)
| ErrSign (why : string).
#[export] Instance cred_error_eq_dec : EqDecision cred_error.
Proof. solve_decision. Defined.

Definition LookupTier (id : string) : result cred_error Tier :=
  match DefaultTiers !! id with
  | Some t => Ok t
  | None => Err (ErrUnknownTier id)
  end.

(** ** credentials.go *)
Record Ticket := mkTkt {
  tk_ID : string;
  tk_KeyID : string;
  tk_Bytes : Z;
  tk_IssuedAt : Z;
  tk_ExpiresAt : Z;
  tk_MAC : string
}.

Definition Ticket_Payload (t : Ticket) : string :=
  (tk_ID t ++ "|" ++ tk_KeyID t ++ "|" ++ show_Z (tk_Bytes t) ++ "|"
   ++ show_Z (tk_IssuedAt t) ++ "|" ++ show_Z (tk_ExpiresAt t))%string.

Definition MaxTicketsPerIssuance : Z := 1000.

Definition ValidateStructure (ot : option Ticket) : result cred_error unit :=
  match ot with
  | None => Err (ErrInvalidTicket "nil")
  | Some t =>
      if str_empty (tk_ID t) then Err (ErrInvalidTicket "empty ID")
      else if str_empty (tk_KeyID t) then Err (ErrInvalidTicket "empty KeyID")
      else if tk_Bytes t <=? 0 then Err (ErrInvalidTicket "non-positive Bytes")
      else if tk_IssuedAt t <=? 0 then Err (ErrInvalidTicket "non-positive IssuedAt")
      else if tk_ExpiresAt t <=? tk_IssuedAt t
        then Err (ErrInvalidTicket "ExpiresAt must be after IssuedAt")
      else if str_empty (tk_MAC t) then Err (ErrInvalidTicket "empty MAC")
      else if negb (slen (tk_MAC t) =? 64)
        then Err (ErrInvalidTicket "MAC must be 64 hex chars")
      else Ok tt
  end.

(** Unix seconds of a clock reading in nanoseconds. *)
Definition unix (ns : Z) : Z := ns / 1000000000.

(** ** hmac.go *)
Definition DefaultTicketBytes : Z := 100000000.
Definition DefaultTicketTTL : Z := 24 * 3600 * 1000000000.

Record HMACIssuer := mkHMACIssuer {
  hi_keyID : string;
  hi_secret : string;
  hi_ticketTTL : Z
}.

(** NewHMACIssuer with the TTL option ([WithTicketTTL]) or the default. *)
Definition NewHMACIssuer (keyID secret : string) (ttl : option Z) : HMACIssuer :=
  mkHMACIssuer keyID secret (default DefaultTicketTTL ttl).

Section hmac.
(** crypto/hmac over crypto/sha256: key, message, 32-byte tag. *)
Context (hmac_sha256 : string -> string -> string).

Definition computeMAC (h : HMACIssuer) (t : Ticket) : string :=
  hex_encode (hmac_sha256 (hi_secret h) (Ticket_Payload t)).

(** The ticket built in one iteration of Issue's loop. *)
Definition stamp (h : HMACIssuer) (id : string) (bytes issued expires : Z) : Ticket :=
  let t := mkTkt id (hi_keyID h) bytes issued expires "" in
  mkTkt id (hi_keyID h) bytes issued expires (computeMAC h t).

(** [rand i] is the i-th 16-byte read of crypto/rand, [None] if it fails. *)
Fixpoint issue_loop (h : HMACIssuer) (rand : nat -> option string)
    (bytes issued expires : Z) (i n : nat) : result cred_error (list Ticket) :=
  match n with
  | O => Ok []
  | S n' =>
      match rand i with
      | None => Err (ErrIssue "generate ticket ID")
      | Some raw =>
          let t := stamp h (hex_encode raw) bytes issued expires in
          ts ← issue_loop h rand bytes issued expires (S i) n'; Ok (t :: ts)
      end
  end.

(** [now1], [now2]: the two clock readings (nanoseconds). *)
Definition Issue (h : HMACIssuer) (rand : nat -> option string) (now1 now2 : Z)
    (paymentHash : string) (bytesPerTicket count : Z) : result cred_error (list Ticket) :=
  if count <=? 0 then Err (ErrIssue "count must be positive")
  else if MaxTicketsPerIssuance <? count then Err (ErrIssue "count exceeds maximum")
  else if bytesPerTicket <=? 0 then Err (ErrIssue "bytesPerTicket must be positive")
  else issue_loop h rand bytesPerTicket (unix now1) (unix (now2 + hi_ticketTTL h)) 0
         (Z.to_nat count).

(** HMACVerifier: key ID to secret. *)
Definition HMACVerifier_AddKey (keys : gmap string string) (keyID secret : string) :
    gmap string string := <[keyID := secret]> keys.

Definition HMACVerifier_Verify (keys : gmap string string) (now : Z)
    (ticket : option Ticket) : result cred_error unit :=
  match ValidateStructure ticket, ticket with
  | Err e, _ => Err e
  | Ok _, None => Err (ErrInvalidTicket "nil")
  | Ok _, Some t =>
      if tk_ExpiresAt t <=? unix now then Err ErrExpiredTicket
      else match keys !! tk_KeyID t with
           | None => Err ErrUnknownKeyID
           | Some secret =>
               let expected := hex_encode (hmac_sha256 secret (Ticket_Payload t)) in
               if String.eqb expected (tk_MAC t) then Ok tt else Err ErrInvalidMAC
           end
  end.
End hmac.

(** ** blind.go *)
Definition MaxBlindMessagesPerRequest : Z := 500.
Definition BlindTokenVersion : Z := 1.

Record BlindToken := mkBlindToken {
  bt_Version : Z;
  bt_KeyID : string;
  bt_TokenSecret : string;
  bt_Signature : string
}.

(** The third-party RSA blind signature scheme (cryptoballot/rsablind, fdh) and
    crypto/sha256: operations only; what a theorem needs of them it assumes. *)
Class BlindScheme := {
  PrivateKey : Type;
  PublicKey : Type;
  sha256 : string -> string;
  fdh_Sum : string -> string;
  (** randomised: the third argument is the randomness drawn *)
  rsablind_Blind : PublicKey -> string -> string -> option (string * string);
  rsablind_BlindSign : PrivateKey -> string -> option string;
  rsablind_Unblind : PublicKey -> string -> string -> string;
  rsablind_Verify : PublicKey -> string -> string -> bool
}.

Section blind.
Context `{BlindScheme}.

Record DenominationKey := mkDenomKey {
  dk_KeyID : string;
  dk_BytesPerToken : Z;
  dk_PrivateKey : option PrivateKey;
  dk_PublicKey : PublicKey
}.

(** Format: SHA256("ARFL|v1|{key_id}|{token_secret_hex}") *)
Definition TokenID (t : BlindToken) : string :=
  hex_encode (sha256 ("ARFL|v" ++ show_Z (bt_Version t) ++ "|" ++ bt_KeyID t ++ "|"
                      ++ hex_encode (bt_TokenSecret t))%string).

(** NewRSABlindMint / NewRSABlindVerifier: later keys win. *)
Definition key_map (keys : list DenominationKey) : gmap string DenominationKey :=
  foldl (fun m k => <[dk_KeyID k := k]> m) ∅ keys.

Fixpoint sign_loop (k : PrivateKey) (msgs : list string) : result cred_error (list string) :=
  match msgs with
  | [] => Ok []
  | bm :: r =>
      match rsablind_BlindSign k bm with
      | None => Err (ErrSign "blind sign message")
      | Some s => ss ← sign_loop k r; Ok (s :: ss)
      end
  end.

Definition SignBlinded (m : gmap string DenominationKey) (keyID : string)
    (blindedMessages : list string) : result cred_error (list string) :=
  if (Z.of_nat (length blindedMessages) =? 0) then Err (ErrSign "no blinded messages")
  else if MaxBlindMessagesPerRequest <? Z.of_nat (length blindedMessages)
    then Err (ErrSign "too many messages")
  else match m !! keyID with
       | None => Err (ErrSign "unknown key_id")
       | Some key =>
           match dk_PrivateKey key with
           | None => Err (ErrSign "no private key")
           | Some k => sign_loop k blindedMessages
           end
       end.

Definition Denomination (m : gmap string DenominationKey) (keyID : string) : option Z :=
  dk_BytesPerToken <$> m !! keyID.

Definition BlindVerifier_Verify (m : gmap string DenominationKey)
    (token : option BlindToken) : result cred_error unit :=
  match token with
  | None => Err (ErrInvalidTicket "nil")
  | Some t =>
      if negb (bt_Version t =? BlindTokenVersion) then Err (ErrInvalidTicket "unsupported version")
      else if str_empty (bt_KeyID t) then Err (ErrInvalidTicket "empty key_id")
      else if str_empty (bt_TokenSecret t) then Err (ErrInvalidTicket "empty token secret")
      else if str_empty (bt_Signature t) then Err (ErrInvalidTicket "empty signature")
      else match m !! bt_KeyID t with
           | None => Err ErrUnknownKeyID
           | Some key =>
               if rsablind_Verify (dk_PublicKey key) (fdh_Sum (bt_TokenSecret t)) (bt_Signature t)
               then Ok tt else Err ErrInvalidMAC
           end
  end.

Definition AddKey (m : gmap string DenominationKey) (key : DenominationKey) :=
  <[dk_KeyID key := key]> m.

Definition BlindTokenSecret (pub : PublicKey) (tokenSecret rnd : string) :
    option (string * string) :=
  rsablind_Blind pub (fdh_Sum tokenSecret) rnd.

Definition UnblindSignature (pub : PublicKey) (blindSig unblinder : string) : string :=
  rsablind_Unblind pub blindSig unblinder.

(** keystore.go: what a node gets of a denomination key. *)
Definition ExportPublicKey (key : DenominationKey) : DenominationKey :=
  mkDenomKey (dk_KeyID key) (dk_BytesPerToken key) None (dk_PublicKey key).

(** GenerateDenominationKey, the RSA key pair drawn being an argument. *)
Definition GenerateDenominationKey (keyID : string) (bytesPerToken : Z)
    (pair : option (PrivateKey * PublicKey)) : result cred_error DenominationKey :=
  if str_empty keyID then Err (ErrIssue "key_id must not be empty")
  else if bytesPerToken <=? 0 then Err (ErrIssue "bytes_per_token must be positive")
  else match pair with
       | None => Err (ErrIssue "generate RSA key")
       | Some (priv, pub) => Ok (mkDenomKey keyID bytesPerToken (Some priv) pub)
       end.
End blind.

(** ** Theorems *)

Definition tier_list : list (string * Tier) := map_to_list DefaultTiers.

(** Every ticket Issue returns was stamped with this issuer's key, the given
    bytes and times, over the hex of a crypto/rand read. *)
Lemma issue_loop_stamped hmac h rand bytes issued expires i n ts :
  issue_loop hmac h rand bytes issued expires i n = Ok ts ->
  length ts = n /\
  Forall (fun t => exists j raw, rand j = Some raw /\
                  t = stamp hmac h (hex_encode raw) bytes issued expires) ts.
Proof.
  revert i ts. induction n as [|n IH]; simpl; intros i ts Heq; simplify_eq; [done|].
  destruct (rand i) as [raw|] eqn:Hr; [|done].
  destruct (issue_loop hmac h rand bytes issued expires (S i) n) as [ts'|] eqn:Hl;
    simplify_eq/=.
  destruct (IH _ _ Hl) as [-> Hf]. split; [done|]. constructor; [|done]. eauto.
Qed.

Lemma Issue_batch hmac h rand now1 now2 ph bytes count ts :
  Issue hmac h rand now1 now2 ph bytes count = Ok ts ->
  Z.of_nat (length ts) = count /\ zsum_by tk_Bytes ts = bytes * count /\
  Forall (fun t => exists j raw, rand j = Some raw /\
    t = stamp hmac h (hex_encode raw) bytes (unix now1) (unix (now2 + hi_ticketTTL h))) ts /\
  0 < bytes.
Proof.
  unfold Issue. intros Hissue.
  destruct (count <=? 0) eqn:?, (MaxTicketsPerIssuance <? count) eqn:?,
    (bytes <=? 0) eqn:?; simplify_eq/=; bprop.
  apply issue_loop_stamped in Hissue as [Hlen Hst].
  assert (Z.of_nat (length ts) = count) as Hcount by lia.
  split_and!; [done| |done|lia]. rewrite <-Hcount. clear -Hst.
  induction Hst as [|t ts (? & ? & _ & ->) _ IH]; [by rewrite Z.mul_0_r|].
  rewrite zsum_by_cons, IH. cbn [length stamp tk_Bytes]. lia.
Qed.

Section hmac_theorems.
Context (hmac : string -> string -> string).
(** HMAC-SHA256 tags are 32 bytes. *)
Context (hmac_len : forall k m, String.length (hmac k m) = 32%nat).

Lemma stamp_well_formed h id bytes issued expires :
  id <> ""%string -> hi_keyID h <> ""%string ->
  0 < bytes -> 0 < issued -> issued < expires ->
  ValidateStructure (Some (stamp hmac h id bytes issued expires)) = Ok tt.
Proof.
  intros Hid Hkey Hb Hi He.
  assert (slen (computeMAC hmac h (mkTkt id (hi_keyID h) bytes issued expires "")) = 64) as Hlen.
  { unfold slen, computeMAC. by rewrite hex_encode_length, hmac_len. }
  unfold ValidateStructure, stamp. cbn [tk_ID tk_KeyID tk_Bytes tk_IssuedAt tk_ExpiresAt tk_MAC].
  rewrite Hlen. unfold str_empty.
  rewrite !(proj2 (String.eqb_neq _ _)); [|intros Hm; by rewrite Hm in Hlen|done|done].
  rewrite (proj2 (Z.leb_gt bytes 0)), (proj2 (Z.leb_gt issued 0)),
    (proj2 (Z.leb_gt expires issued)) by lia. done.
Qed.

Lemma stamp_verifies h keys now id bytes issued expires :
  keys !! hi_keyID h = Some (hi_secret h) ->
  ValidateStructure (Some (stamp hmac h id bytes issued expires)) = Ok tt ->
  HMACVerifier_Verify hmac keys now (Some (stamp hmac h id bytes issued expires)) =
    if expires <=? unix now then Err ErrExpiredTicket else Ok tt.
Proof.
  intros Hk Hv. unfold HMACVerifier_Verify. rewrite Hv. simpl.
  rewrite Hk. unfold computeMAC, Ticket_Payload. simpl. by rewrite String.eqb_refl.
Qed.
End hmac_theorems.

(** Everything Issue returns is accepted by a verifier that holds the
    issuer's key exactly until the second the ticket expires. *)
Theorem issued_tickets_verify hmac h rand now1 now2 ph bytes count ts keys now
    (hmac_len : forall k m, String.length (hmac k m) = 32%nat)
    (rand_len : forall i raw, rand i = Some raw -> String.length raw = 16%nat)
    (Hkey : hi_keyID h <> ""%string)
    (Hclock : 0 < unix now1 < unix (now2 + hi_ticketTTL h))
    (Hissue : Issue hmac h rand now1 now2 ph bytes count = Ok ts)
    (Hkeys : keys !! hi_keyID h = Some (hi_secret h)) :
  Z.of_nat (length ts) = count /\ zsum_by tk_Bytes ts = bytes * count /\
  Forall (fun t => HMACVerifier_Verify hmac keys now (Some t) =
                   if unix (now2 + hi_ticketTTL h) <=? unix now
                   then Err ErrExpiredTicket else Ok tt) ts.
Proof.
  apply Issue_batch in Hissue as (Hlen & Hsum & Hst & Hb).
  split_and!; [done|done|].
  eapply Forall_impl; [exact Hst|]. intros t (j & raw & Hraw & ->).
    apply stamp_verifies; [done|]. apply stamp_well_formed; try done; try lia.
    apply rand_len in Hraw. intros Hn. pose proof (hex_encode_length raw) as Hl.
    rewrite Hn, Hraw in Hl. done.
Qed.

(** The canonical payload determines every field it covers when the ID and
    key ID contain no separator (IDs from Issue are hex). *)
Theorem ticket_payload_injective t1 t2
    (H1 : char_free "|" (tk_ID t1) && char_free "|" (tk_KeyID t1) = true)
    (H2 : char_free "|" (tk_ID t2) && char_free "|" (tk_KeyID t2) = true)
    (Heq : Ticket_Payload t1 = Ticket_Payload t2) :
  t1 = mkTkt (tk_ID t2) (tk_KeyID t2) (tk_Bytes t2) (tk_IssuedAt t2) (tk_ExpiresAt t2) (tk_MAC t1).
Proof.
  bprop. unfold Ticket_Payload in Heq.
  apply sep_inj in Heq as [Hid Heq]; [|done..].
  apply sep_inj in Heq as [Hkey Heq]; [|done..].
  apply sep_inj in Heq as [Hb Heq]; [|apply bar_free_Z..].
  apply sep_inj in Heq as [Hi He]; [|apply bar_free_Z..].
  apply show_Z_inj in Hb, Hi, He. destruct t1; simpl in *; congruence.
Qed.

(** The tiers the hub sells: the tickets add up to the bytes bought, a tier
    fits in one issuance and in one blind redemption. *)
Lemma tiers_consistent id t (Ht : LookupTier id = Ok t) :
  tier_ID t = id /\ tier_TicketCount t * tier_TicketBytes t = tier_Bytes t /\
  0 < tier_TicketCount t <= MaxTicketsPerIssuance /\
  tier_TicketCount t <= MaxBlindMessagesPerRequest /\
  0 < tier_TicketBytes t /\ 0 < tier_PriceSats t <= 15000 /\ 0 < tier_Bytes t <= 50000000000.
Proof.
  unfold LookupTier in Ht. destruct (DefaultTiers !! id) as [t'|] eqn:Hl; simplify_eq.
  unfold DefaultTiers in Hl.
  repeat (apply lookup_insert_Some in Hl as [[<- <-]|[_ Hl]]; [vm_compute; naive_solver|]).
  by rewrite lookup_empty in Hl.
Qed.

(** ** Witnesses *)
Definition demo_hmac (k m : string) : string := hex_encode (hex_encode "12345678").
Definition demo_rand (i : nat) : option string := Some "0123456789abcdef"%string.
Definition demo_issuer : HMACIssuer := NewHMACIssuer "key-1" "secret" None.

Lemma issued_tickets_verify_witness :
  exists ts, Issue demo_hmac demo_issuer demo_rand 2000000000 2000000000 "ph" 100 2 = Ok ts /\
  (Z.of_nat (length ts) = 2 /\ zsum_by tk_Bytes ts = 100 * 2 /\
  Forall (fun t => HMACVerifier_Verify demo_hmac (<["key-1"%string := "secret"%string]> ∅)
                     3000000000 (Some t) =
     if unix (2000000000 + hi_ticketTTL demo_issuer) <=? unix 3000000000
     then Err ErrExpiredTicket else Ok tt) ts).
Proof.
  eexists. split; [vm_compute; reflexivity|].
  apply (issued_tickets_verify demo_hmac demo_issuer demo_rand 2000000000 2000000000 "ph" 100 2);
    try (vm_compute; done).
  intros i raw [= <-]. reflexivity.
Defined.

Lemma ticket_payload_injective_witness :
  let t1 := mkTkt "a" "k" 5 1 2 "m1" in let t2 := mkTkt "a" "k" 5 1 2 "m2" in
  t1 = mkTkt (tk_ID t2) (tk_KeyID t2) (tk_Bytes t2) (tk_IssuedAt t2) (tk_ExpiresAt t2) (tk_MAC t1).
Proof. apply ticket_payload_injective; reflexivity. Defined.
