(* ===== verification/Repository.v ===== *)
(** * Repository: the store's operations (src/internal/store/repository.go)

    One definition per method of *Store, taking the database and, where the
    statement reads strftime('now'), the current time text; mutators return the
    outcome and the new database. *)
From S2P Require Import Prelude Sql Schema Credentials.

Inductive store_error :=
| DbErr (e : sql_error)
| ErrInvoiceNotFound
| ErrInvoiceState (st : InvStatus)
| ErrInvoiceNotOpen
| ErrTicketNotActive
| ErrPayoutTransition (to : PayoutStatus)
| ErrInsufficientEntitlement
| ErrNoLease.
#[export] Instance store_error_eq_dec : EqDecision store_error.
Proof. solve_decision. Defined.

Abbreviation outcome A := (result store_error A).

Definition of_sql {A} (r : result sql_error A) : outcome A :=
  match r with Ok a => Ok a | Err e => Err (DbErr e) end.

Definition of_row {A} (o : option A) : outcome A :=
  match o with Some a => Ok a | None => Err (DbErr NoRows) end.

(** [Exec] of an INSERT: the table afterwards, or unchanged on error. *)
Definition exec_insert {R} (res : result sql_error (list R)) (t : list R) : outcome unit * list R :=
  match res with Ok t' => (Ok tt, t') | Err e => (Err (DbErr e), t) end.

(** [Exec] of an UPDATE followed by [if n == 0 { return err }]. *)
Definition exec_update (res : result sql_error nat) (none : store_error) : outcome unit :=
  match res with
  | Err e => Err (DbErr e)
  | Ok O => Err none
  | Ok (S _) => Ok tt
  end.

(** ** Invoices *)
Definition InsertInvoice (now : string) (paymentHash paymentRequest : string) (amountSats : Z)
    (tier : string) (bytesAllowed : Z) (expiresAt clientIP : string) (db : DB) : outcome unit * DB :=
  let row := mkInvoice (next_rowid (i_id <$> invoices db)) paymentHash paymentRequest amountSats
               tier bytesAllowed InvOpen now None expiresAt clientIP in
  let '(res, t) := exec_insert (sql_insert invoice_clash invoice_check (fun _ => true) row
                                  (invoices db)) (invoices db) in
  (res, set_invoices db t).

Definition hash_is (h : string) (r : InvoiceRow) : bool := String.eqb (i_payment_hash r) h.
Definition open_invoice (h : string) (r : InvoiceRow) : bool :=
  hash_is h r && bool_decide (i_status r = InvOpen).
Definition settle_row (now : string) (r : InvoiceRow) : InvoiceRow :=
  mkInvoice (i_id r) (i_payment_hash r) (i_payment_request r) (i_amount_sats r) (i_tier r)
    (i_bytes_allowed r) InvSettled (i_created_at r) (Some now) (i_expires_at r) (i_client_ip r).
Definition expire_row (r : InvoiceRow) : InvoiceRow :=
  mkInvoice (i_id r) (i_payment_hash r) (i_payment_request r) (i_amount_sats r) (i_tier r)
    (i_bytes_allowed r) InvExpired (i_created_at r) (i_settled_at r) (i_expires_at r) (i_client_ip r).

Definition SettleInvoice (now paymentHash : string) (db : DB) : outcome unit * DB :=
  let '(t, res) := sql_update (open_invoice paymentHash) invoice_trig invoice_check
                     (settle_row now) (invoices db) in
  let db' := set_invoices db t in
  match res with
  | Err e => (Err (DbErr e), db')
  | Ok O =>
      match sql_find (hash_is paymentHash) t with
      | None => (Err ErrInvoiceNotFound, db')
      | Some r =>
          match i_status r with
          | InvSettled => (Ok tt, db')
          | st => (Err (ErrInvoiceState st), db')
          end
      end
  | Ok (S _) => (Ok tt, db')
  end.

Definition ExpireInvoice (paymentHash : string) (db : DB) : outcome unit * DB :=
  let '(t, res) := sql_update (open_invoice paymentHash) invoice_trig invoice_check
                     expire_row (invoices db) in
  (exec_update res ErrInvoiceNotOpen, set_invoices db t).

Definition GetInvoice (paymentHash : string) (db : DB) : outcome InvoiceRow :=
  of_row (sql_find (hash_is paymentHash) (invoices db)).

(** ** Tickets *)
Definition ticket_fk (db : DB) (r : TicketRow) : bool :=
  existsb (hash_is (t_payment_hash r)) (invoices db).

Definition insert_ticket_row (now id paymentHash : string) (bytesValue : Z) (hmac : string)
    (db : DB) : result sql_error (list TicketRow) :=
  sql_insert ticket_clash ticket_check (ticket_fk db)
    (mkTicket id paymentHash bytesValue hmac TActive now None None) (tickets db).

Definition InsertTicket (now id paymentHash : string) (bytesValue : Z) (hmac : string)
    (db : DB) : outcome unit * DB :=
  let '(res, t) := exec_insert (insert_ticket_row now id paymentHash bytesValue hmac db)
                     (tickets db) in
  (res, set_tickets db t).

(** The loop inside the transaction: [db] is the transaction's view. *)
Fixpoint insert_tickets_tx (now paymentHash : string) (ts : list Ticket) (db : DB) :
    result sql_error DB :=
  match ts with
  | [] => Ok db
  | t :: ts' =>
      tab ← insert_ticket_row now (tk_ID t) paymentHash (tk_Bytes t) (tk_MAC t) db;
      insert_tickets_tx now paymentHash ts' (set_tickets db tab)
  end.

Definition InsertTicketsBatch (now paymentHash : string) (ts : list Ticket) (db : DB) :
    outcome unit * DB :=
  match insert_tickets_tx now paymentHash ts db with
  | Ok db' => (Ok tt, db')
  | Err e => (Err (DbErr e), db)
  end.

Definition active_ticket (id : string) (r : TicketRow) : bool :=
  String.eqb (t_id r) id && bool_decide (t_status r = TActive).
Definition redeem_row (now by_ : string) (r : TicketRow) : TicketRow :=
  mkTicket (t_id r) (t_payment_hash r) (t_bytes_value r) (t_hmac r) TRedeemed (t_issued_at r)
    (Some now) (Some by_).

Definition RedeemTicket (now ticketID redeemedBy : string) (db : DB) : outcome unit * DB :=
  let '(t, res) := sql_update (active_ticket ticketID) ticket_trig ticket_check
                     (redeem_row now redeemedBy) (tickets db) in
  (exec_update res ErrTicketNotActive, set_tickets db t).

Definition ticket_is (id : string) (r : TicketRow) : bool := String.eqb (t_id r) id.
Definition GetTicket (id : string) (db : DB) : outcome TicketRow :=
  of_row (sql_find (ticket_is id) (tickets db)).

Definition ticket_for (h : string) (r : TicketRow) : bool := String.eqb (t_payment_hash r) h.
Definition CountTicketsByPaymentHash (paymentHash : string) (db : DB) : Z :=
  Z.of_nat (sql_count (ticket_for paymentHash) (tickets db)).
Definition GetTicketsByPaymentHash (paymentHash : string) (db : DB) : list TicketRow :=
  order_by (by_text t_issued_at) (bfilter (ticket_for paymentHash) (tickets db)).

(** ** Usage reports *)
Definition usage_fk (db : DB) (r : UsageRow) : bool :=
  existsb (ticket_is (u_ticket_id r)) (tickets db).

Definition InsertUsageReport (now sessionID ticketID nodePubkey nodeRole : string)
    (bytesReported : Z) (reportedAt nodeSignature : string) (db : DB) : outcome unit * DB :=
  let row := mkUsage (next_rowid (u_id <$> usage_reports db)) sessionID ticketID nodePubkey
               nodeRole bytesReported reportedAt nodeSignature now in
  let '(res, t) := exec_insert (sql_insert (fun _ _ => false) usage_check (usage_fk db) row
                                  (usage_reports db)) (usage_reports db) in
  (res, set_usage_reports db t).

Definition received_in (from to : string) (r : UsageRow) : bool :=
  str_le from (u_received_at r) && str_lt (u_received_at r) to.
Definition GetUsageReportsByPeriod (from to : string) (db : DB) : list UsageRow :=
  order_by (by_text u_received_at) (bfilter (received_in from to) (usage_reports db)).

(** ** Settlement entries *)
Definition InsertSettlementEntry (now period nodePubkey : string)
    (billableBytes amountSats entryBytesTotal exitBytesTotal ticketsRedeemed : Z)
    (db : DB) : outcome bool * DB :=
  let row := mkSettlement (next_rowid (s_id <$> settlement_entries db)) period nodePubkey
               billableBytes amountSats entryBytesTotal exitBytesTotal ticketsRedeemed now in
  let '(t, inserted) := sql_insert_ignore settlement_clash settlement_check row
                          (settlement_entries db) in
  (Ok inserted, set_settlement_entries db t).

(** LEFT JOIN payouts .. WHERE p.id IS NULL *)
Definition has_payout (db : DB) (entry_id : Z) : bool :=
  existsb (fun p => p_entry_id p =? entry_id) (payouts db).
Definition GetUnsettledEntries (minAmountSats : Z) (db : DB) : list SettlementRow :=
  order_by (by_text s_created_at)
    (bfilter (fun e => negb (has_payout db (s_id e)) && (minAmountSats <=? s_amount_sats e))
       (settlement_entries db)).

(** ** Payouts *)
Definition payout_fk (db : DB) (r : PayoutRow) : bool :=
  existsb (fun e => s_id e =? p_entry_id r) (settlement_entries db).

Definition InsertPayout (now : string) (settlementEntryID : Z) (nodePubkey : string)
    (amountSats : Z) (db : DB) : outcome Z * DB :=
  let id := next_rowid (p_id <$> payouts db) in
  let row := mkPayout id settlementEntryID nodePubkey amountSats PPending None 0 None now now in
  match sql_insert payout_clash payout_check (payout_fk db) row (payouts db) with
  | Ok t => (Ok id, set_payouts db t)
  | Err e => (Err (DbErr e), db)
  end.

Definition payout_is (id : Z) (r : PayoutRow) : bool := p_id r =? id.
Definition payout_in (id : Z) (sts : list PayoutStatus) (r : PayoutRow) : bool :=
  payout_is id r && bool_decide (p_status r ∈ sts).

Definition set_payout (now : string) (st : PayoutStatus) (hash : option string)
    (attempts : Z) (err : option string) (r : PayoutRow) : PayoutRow :=
  mkPayout (p_id r) (p_entry_id r) (p_node_pubkey r) (p_amount_sats r) st hash attempts err
    (p_created_at r) now.

Definition update_payout (guard : PayoutRow -> bool) (f : PayoutRow -> PayoutRow)
    (to : PayoutStatus) (db : DB) : outcome unit * DB :=
  let '(t, res) := sql_update guard payout_trig payout_check f (payouts db) in
  (exec_update res (ErrPayoutTransition to), set_payouts db t).

Definition MarkPayoutInFlight (now : string) (payoutID : Z) (db : DB) : outcome unit * DB :=
  update_payout (payout_in payoutID [PPending; PRetrying])
    (fun r => set_payout now PInFlight (p_payment_hash r) (p_attempt_count r) (p_last_error r) r)
    PInFlight db.

Definition MarkPayoutPaid (now : string) (payoutID : Z) (paymentHash : string) (db : DB) :
    outcome unit * DB :=
  update_payout (payout_in payoutID [PInFlight])
    (fun r => set_payout now PPaid (Some paymentHash) (p_attempt_count r) (p_last_error r) r)
    PPaid db.

Definition MarkPayoutFailed (now : string) (payoutID : Z) (lastError : string) (db : DB) :
    outcome unit * DB :=
  update_payout (payout_in payoutID [PInFlight])
    (fun r => set_payout now PFailed (p_payment_hash r) (p_attempt_count r + 1) (Some lastError) r)
    PFailed db.

Definition retryable (r : PayoutRow) : bool :=
  bool_decide (p_status r = PFailed) && (p_attempt_count r <? 3).

Definition MarkPayoutRetrying (now : string) (payoutID : Z) (db : DB) : outcome unit * DB :=
  update_payout (fun r => payout_is payoutID r && retryable r)
    (fun r => set_payout now PRetrying (p_payment_hash r) (p_attempt_count r) (p_last_error r) r)
    PRetrying db.

Definition GetRetryablePayouts (db : DB) : list PayoutRow :=
  order_by (by_text p_created_at) (bfilter retryable (payouts db)).

(** ** Compensating entries and audit queries *)
Definition InsertCompensatingEntry (now entryType : string) (referenceID adjustmentSats : Z)
    (reason : string) (db : DB) : outcome unit * DB :=
  let row := mkComp (next_rowid (c_id <$> compensating_entries db)) entryType referenceID
               adjustmentSats reason now in
  let '(res, t) := exec_insert (sql_insert (fun _ _ => false) comp_check (fun _ => true) row
                                  (compensating_entries db)) (compensating_entries db) in
  (res, set_compensating db t).

Definition settled_invoice (r : InvoiceRow) : bool := bool_decide (i_status r = InvSettled).
Definition committed_payout (r : PayoutRow) : bool :=
  bool_decide (p_status r ∈ [PPaid; PPending; PInFlight; PRetrying]).
Definition paid_payout (r : PayoutRow) : bool := bool_decide (p_status r = PPaid).

Definition TotalPurchasedSats (db : DB) : outcome Z :=
  of_sql (sql_sum (i_amount_sats <$> bfilter settled_invoice (invoices db)) 0).
Definition TotalPaidOutSats (db : DB) : outcome Z :=
  of_sql (sql_sum (p_amount_sats <$> bfilter paid_payout (payouts db)) 0).
Definition TotalCompensationSats (db : DB) : outcome Z :=
  of_sql (sql_sum (c_adjustment_sats <$> compensating_entries db) 0).
Definition TotalCommittedPayoutSats (db : DB) : outcome Z :=
  of_sql (sql_sum (p_amount_sats <$> bfilter committed_payout (payouts db)) 0).

(** ** Settlement queries *)
Record SessionUsageSummary := mkSummary {
  su_SessionID : string;
  su_TicketID : string;
  su_EntryNode : string;
  su_ExitNode : string;
  su_EntryBytes : Z;
  su_ExitBytes : Z
}.

(** One row of a role's GROUP BY session_id sub-query. *)
Record RoleGroup := mkGroup {
  g_session : string;
  g_ticket : string;
  g_node : string;
  g_max_bytes : Z
}.

Definition role_rows (role from to : string) (db : DB) : list UsageRow :=
  bfilter (fun r => String.eqb (u_node_role r) role && received_in from to r) (usage_reports db).

(** HAVING COUNT(DISTINCT node_pubkey) = 1 AND COUNT(DISTINCT ticket_id) = 1;
    the MAX of a constant text column is that constant. *)
Definition session_group (rows : list UsageRow) (session : string) : option RoleGroup :=
  match bfilter (fun r => String.eqb (u_session_id r) session) rows with
  | [] => None
  | r :: rs =>
      if forallb (fun r' => String.eqb (u_node_pubkey r') (u_node_pubkey r)
                            && String.eqb (u_ticket_id r') (u_ticket_id r)) rs
      then Some (mkGroup session (u_ticket_id r) (u_node_pubkey r)
                   (foldr Z.max (u_bytes_reported r) (u_bytes_reported <$> rs)))
      else None
  end.

Definition role_groups (role from to : string) (db : DB) : list RoleGroup :=
  let rows := role_rows role from to db in
  omap (session_group rows) (remove_dups (u_session_id <$> rows)).

Definition join_groups (e x : RoleGroup) : option SessionUsageSummary :=
  if String.eqb (g_session e) (g_session x) && String.eqb (g_ticket e) (g_ticket x)
  then Some (mkSummary (g_session e) (g_ticket e) (g_node e) (g_node x)
               (g_max_bytes e) (g_max_bytes x))
  else None.

Definition GetSessionUsageSummaries (from to : string) (db : DB) : list SessionUsageSummary :=
  e ← role_groups "entry" from to db;
  omap (join_groups e) (role_groups "exit" from to db).

Record TicketSettlementInfo := mkInfo {
  ti_TicketID : string;
  ti_TicketStatus : TicketStatus;
  ti_TicketBytes : Z;
  ti_InvoiceStatus : InvStatus;
  ti_AmountSats : Z;
  ti_BytesAllowed : Z;
  ti_Tier : string
}.

Definition GetTicketSettlementInfo (ticketID : string) (db : DB) : outcome TicketSettlementInfo :=
  t ← of_row (sql_find (ticket_is ticketID) (tickets db));
  i ← of_row (sql_find (hash_is (t_payment_hash t)) (invoices db));
  Ok (mkInfo (t_id t) (t_status t) (t_bytes_value t) (i_status i) (i_amount_sats i)
        (i_bytes_allowed i) (i_tier i)).

(** ** Entitlements *)
Definition entitlement_fk (db : DB) (r : EntitlementRow) : bool :=
  existsb (hash_is (e_payment_hash r)) (invoices db).

Definition InsertEntitlement (now id paymentHash : string) (tokensTotal bytesPerToken : Z)
    (keyID : string) (db : DB) : outcome unit * DB :=
  let row := mkEntitlement id paymentHash tokensTotal tokensTotal bytesPerToken keyID now in
  let '(res, t) := exec_insert (sql_insert entitlement_clash entitlement_check
                                  (entitlement_fk db) row (entitlements db)) (entitlements db) in
  (res, set_entitlements db t).

Definition entitlement_for (h : string) (r : EntitlementRow) : bool :=
  String.eqb (e_payment_hash r) h.
Definition GetEntitlementByPaymentHash (paymentHash : string) (db : DB) : outcome EntitlementRow :=
  of_row (sql_find (entitlement_for paymentHash) (entitlements db)).

Definition entitlement_with (id : string) (count : Z) (r : EntitlementRow) : bool :=
  String.eqb (e_id r) id && (count <=? e_tokens_remaining r).
Definition consume_row (count : Z) (r : EntitlementRow) : EntitlementRow :=
  mkEntitlement (e_id r) (e_payment_hash r) (e_tokens_remaining r - count) (e_tokens_total r)
    (e_bytes_per_token r) (e_key_id r) (e_created_at r).

Definition ConsumeEntitlement (entitlementID : string) (count : Z) (db : DB) : outcome unit * DB :=
  let '(t, res) := sql_update (entitlement_with entitlementID count) entitlement_trig
                     entitlement_check (consume_row count) (entitlements db) in
  (exec_update res ErrInsufficientEntitlement, set_entitlements db t).

(** ** Spent tokens *)
Definition MarkSpent (now tokenID keyID nodePubkey : string) (db : DB) : outcome bool * DB :=
  let '(t, first) := sql_insert_nothing spent_token_clash
                       (mkSpentToken tokenID keyID nodePubkey now) (spent_tokens db) in
  (Ok first, set_spent_tokens db t).

Definition IsSpent (tokenID : string) (db : DB) : bool :=
  (0 <? Z.of_nat (sql_count (fun r => String.eqb (st_token_id r) tokenID) (spent_tokens db))).

(** ** Redemption cache (blind_signatures is the JSON array it encodes) *)
Definition redemption_fk (db : DB) (r : RedemptionRow) : bool :=
  existsb (fun e => String.eqb (e_id e) (r_entitlement_id r)) (entitlements db).

Definition InsertRedemption (now nonce entitlementID requestHash : string) (tokensCount : Z)
    (blindSignatures : list string) (db : DB) : outcome unit * DB :=
  let row := mkRedemption nonce entitlementID requestHash tokensCount blindSignatures now in
  let '(res, t) := exec_insert (sql_insert redemption_clash redemption_check
                                  (redemption_fk db) row (redemptions db)) (redemptions db) in
  (res, set_redemptions db t).

Definition GetRedemption (nonce : string) (db : DB) : option RedemptionRow :=
  sql_find (fun r => String.eqb (r_nonce r) nonce) (redemptions db).

(** ** Earnings, wallets, withdrawals *)
Record NodeEarnings := mkEarnings {
  ne_TotalEarnedSats : Z;
  ne_PendingSats : Z;
  ne_PaidSats : Z;
  ne_SessionCount : Z;
  ne_SettlementCount : Z
}.

Definition GetNodeEarnings (nodePubkey : string) (db : DB) : outcome NodeEarnings :=
  let mine := bfilter (fun r => String.eqb (s_node_pubkey r) nodePubkey) (settlement_entries db) in
  total ← of_sql (sql_sum (s_amount_sats <$> mine) 0);
  sessions ← of_sql (sql_sum (s_tickets_redeemed <$> mine) 0);
  paid ← of_sql (sql_sum (p_amount_sats <$>
            bfilter (fun p => String.eqb (p_node_pubkey p) nodePubkey && paid_payout p)
              (payouts db)) 0);
  let pending := total -i paid in
  Ok (mkEarnings total (if pending <? 0 then 0 else pending) paid sessions
        (Z.of_nat (length mine))).

(** INSERT .. ON CONFLICT(key) DO UPDATE *)
Definition upsert {R} (key : R -> string) (row : R) (merge : R -> R) (t : list R) : list R :=
  if existsb (fun r => String.eqb (key r) (key row)) t
  then (fun r => if String.eqb (key r) (key row) then merge r else r) <$> t
  else t ++ [row].

Definition SetNodeWallet (now nodePubkey lnAddress : string) (db : DB) : outcome unit * DB :=
  (Ok tt, set_node_wallets db
     (upsert w_node_pubkey (mkWalletRow nodePubkey lnAddress now)
        (fun r => mkWalletRow (w_node_pubkey r) lnAddress now) (node_wallets db))).

Definition GetNodeWallet (nodePubkey : string) (db : DB) : outcome string :=
  w ← of_row (sql_find (fun r => String.eqb (w_node_pubkey r) nodePubkey) (node_wallets db));
  Ok (w_ln_address w).

Definition InsertWithdrawal (now nodePubkey : string) (amountSats : Z) (db : DB) : outcome Z * DB :=
  let id := next_rowid (wd_id <$> withdrawals db) in
  match sql_insert (fun _ _ => false) withdrawal_check (fun _ => true)
          (mkWithdrawal id nodePubkey amountSats WPending None None now now) (withdrawals db) with
  | Ok t => (Ok id, set_withdrawals db t)
  | Err e => (Err (DbErr e), db)
  end.

Definition pending_withdrawal (id : Z) (r : WithdrawalRow) : bool :=
  (wd_id r =? id) && bool_decide (wd_status r = WPending).
Definition set_withdrawal (now : string) (st : WithdrawalStatus) (hash err : option string)
    (r : WithdrawalRow) : WithdrawalRow :=
  mkWithdrawal (wd_id r) (wd_node_pubkey r) (wd_amount_sats r) st hash err (wd_created_at r) now.

(** Both ignore RowsAffected. *)
Definition MarkWithdrawalPaid (now : string) (id : Z) (paymentHash : string) (db : DB) :
    outcome unit * DB :=
  let '(t, res) := sql_update (pending_withdrawal id) (fun _ _ => false) withdrawal_check
    (fun r => set_withdrawal now WPaid (Some paymentHash) (wd_last_error r) r) (withdrawals db) in
  (of_sql (res ≫= fun _ => Ok tt), set_withdrawals db t).

Definition MarkWithdrawalFailed (now : string) (id : Z) (lastError : string) (db : DB) :
    outcome unit * DB :=
  let '(t, res) := sql_update (pending_withdrawal id) (fun _ _ => false) withdrawal_check
    (fun r => set_withdrawal now WFailed (wd_payment_hash r) (Some lastError) r) (withdrawals db) in
  (of_sql (res ≫= fun _ => Ok tt), set_withdrawals db t).

Definition TotalWithdrawnSats (nodePubkey : string) (db : DB) : outcome Z :=
  of_sql (sql_sum (wd_amount_sats <$>
    bfilter (fun r => String.eqb (wd_node_pubkey r) nodePubkey
                      && bool_decide (wd_status r = WPaid)) (withdrawals db)) 0).

(** ** Node leases

    Times are nanoseconds since the epoch; an RFC3339 column keeps the whole
    second, and parsing gives that second back. *)
Record NodeLease := mkNodeLease {
  nl_NodePubkey : string;
  nl_NodeWGPubkey : string;
  nl_OperatorID : string;
  nl_AllowedRoles : list string;
  nl_LeaseStart : Z;
  nl_LeaseEnd : Z;
  nl_Revoked : bool
}.

Definition UpsertNodeLease (now : string) (lease : NodeLease) (db : DB) : outcome unit * DB :=
  let roles := join "," (nl_AllowedRoles lease) in
  let row := mkLease (nl_NodePubkey lease) (nl_NodeWGPubkey lease) (nl_OperatorID lease) roles
               (unix (nl_LeaseStart lease)) (unix (nl_LeaseEnd lease)) false now in
  (Ok tt, set_node_leases db (upsert l_node_pubkey row (fun _ => row) (node_leases db))).

Definition lease_of_row (r : LeaseRow) : NodeLease :=
  mkNodeLease (l_node_pubkey r) (l_node_wg_pubkey r) (l_operator_id r)
    (split_on "," (l_allowed_roles r)) (l_lease_start r * 1000000000)
    (l_lease_end r * 1000000000) (l_revoked r).

Definition lease_is (k : string) (r : LeaseRow) : bool := String.eqb (l_node_pubkey r) k.
Definition GetNodeLease (nodePubkey : string) (db : DB) : option NodeLease :=
  lease_of_row <$> sql_find (lease_is nodePubkey) (node_leases db).

(** [now_ns] is time.Now(). *)
Definition IsLeaseActive (now_ns : Z) (nodePubkey : string) (db : DB) : bool :=
  match GetNodeLease nodePubkey db with
  | None => false
  | Some l => if nl_Revoked l then false else now_ns <? nl_LeaseEnd l
  end.

Definition update_lease (k : string) (f : LeaseRow -> LeaseRow) (db : DB) : outcome unit * DB :=
  let '(t, res) := sql_update (lease_is k) (fun _ _ => false) (fun _ => true) f
                     (node_leases db) in
  (exec_update res ErrNoLease, set_node_leases db t).

Definition RevokeNodeLease (now nodePubkey : string) (db : DB) : outcome unit * DB :=
  update_lease nodePubkey
    (fun r => mkLease (l_node_pubkey r) (l_node_wg_pubkey r) (l_operator_id r) (l_allowed_roles r)
                (l_lease_start r) (l_lease_end r) true now) db.

Definition RenewNodeLease (now nodePubkey : string) (newEnd : Z) (db : DB) : outcome unit * DB :=
  update_lease nodePubkey
    (fun r => mkLease (l_node_pubkey r) (l_node_wg_pubkey r) (l_operator_id r) (l_allowed_roles r)
                (l_lease_start r) (unix newEnd) false now) db.

(** ORDER BY lease_end DESC *)
Definition ListNodeLeases (db : DB) : list NodeLease :=
  lease_of_row <$> order_by (fun x y => l_lease_end y <=? l_lease_end x) (node_leases db).
