(* ===== verification/Ledger.v ===== *)
(** * Ledger: what the store guarantees over any sequence of operations

    [op] lists every mutating method of the ledger part of *Store, [run_op] runs
    one. (ConsumeEntitlement's count is a natural number here: its only caller,
    handleRedeem, passes the length of the request's messages. StoreSpec.v has
    every int.) [db_wf] is the integrity invariant, [ledger_le] the append-only order
    the schema promises (immutable columns, forward-only status), and the
    theorems show that every operation, whatever its arguments and outcome,
    keeps both; from them follow single use of tickets and tokens and the
    conservation of entitlements. *)
From S2P Require Import Prelude Sql Schema Credentials Repository.

(** ** Operations *)
Inductive op :=
| OInsertInvoice (now h req : string) (amt : Z) (tier : string) (bytes : Z) (expires ip : string)
| OSettleInvoice (now h : string)
| OExpireInvoice (h : string)
| OInsertTicket (now id h : string) (bytes : Z) (mac : string)
| OInsertTicketsBatch (now h : string) (ts : list Ticket)
| ORedeemTicket (now id by_ : string)
| OInsertUsageReport (now session ticket node role : string) (bytes : Z) (at_ sig : string)
| OInsertSettlementEntry (now period node : string) (bb sats eb xb n : Z)
| OInsertPayout (now : string) (entry : Z) (node : string) (sats : Z)
| OMarkPayoutInFlight (now : string) (id : Z)
| OMarkPayoutPaid (now : string) (id : Z) (hash : string)
| OMarkPayoutFailed (now : string) (id : Z) (err : string)
| OMarkPayoutRetrying (now : string) (id : Z)
| OInsertCompensatingEntry (now ty : string) (ref adj : Z) (reason : string)
| OInsertEntitlement (now id h : string) (total bpt : Z) (key : string)
| OConsumeEntitlement (id : string) (count : nat)
| OMarkSpent (now token key node : string)
| OInsertRedemption (now nonce ent rh : string) (n : Z) (sigs : list string)
| OSetNodeWallet (now node addr : string)
| OInsertWithdrawal (now node : string) (sats : Z)
| OMarkWithdrawalPaid (now : string) (id : Z) (hash : string)
| OMarkWithdrawalFailed (now : string) (id : Z) (err : string)
| OUpsertNodeLease (now : string) (l : NodeLease)
| ORevokeNodeLease (now node : string)
| ORenewNodeLease (now node : string) (end_ : Z).

Definition run_op (o : op) (db : DB) : DB :=
  match o with
  | OInsertInvoice now h req amt tier bytes ex ip => (InsertInvoice now h req amt tier bytes ex ip db).2
  | OSettleInvoice now h => (SettleInvoice now h db).2
  | OExpireInvoice h => (ExpireInvoice h db).2
  | OInsertTicket now id h bytes mac => (InsertTicket now id h bytes mac db).2
  | OInsertTicketsBatch now h ts => (InsertTicketsBatch now h ts db).2
  | ORedeemTicket now id by_ => (RedeemTicket now id by_ db).2
  | OInsertUsageReport now s t n r b a g => (InsertUsageReport now s t n r b a g db).2
  | OInsertSettlementEntry now p n bb s eb xb k => (InsertSettlementEntry now p n bb s eb xb k db).2
  | OInsertPayout now e n s => (InsertPayout now e n s db).2
  | OMarkPayoutInFlight now id => (MarkPayoutInFlight now id db).2
  | OMarkPayoutPaid now id h => (MarkPayoutPaid now id h db).2
  | OMarkPayoutFailed now id e => (MarkPayoutFailed now id e db).2
  | OMarkPayoutRetrying now id => (MarkPayoutRetrying now id db).2
  | OInsertCompensatingEntry now ty ref adj why => (InsertCompensatingEntry now ty ref adj why db).2
  | OInsertEntitlement now id h tot bpt key => (InsertEntitlement now id h tot bpt key db).2
  | OConsumeEntitlement id n => (ConsumeEntitlement id (Z.of_nat n) db).2
  | OMarkSpent now t k n => (MarkSpent now t k n db).2
  | OInsertRedemption now nonce e rh n sigs => (InsertRedemption now nonce e rh n sigs db).2
  | OSetNodeWallet now n a => (SetNodeWallet now n a db).2
  | OInsertWithdrawal now n s => (InsertWithdrawal now n s db).2
  | OMarkWithdrawalPaid now id h => (MarkWithdrawalPaid now id h db).2
  | OMarkWithdrawalFailed now id e => (MarkWithdrawalFailed now id e db).2
  | OUpsertNodeLease now l => (UpsertNodeLease now l db).2
  | ORevokeNodeLease now n => (RevokeNodeLease now n db).2
  | ORenewNodeLease now n e => (RenewNodeLease now n e db).2
  end.

Definition run_ops (os : list op) (db : DB) : DB := foldl (fun d o => run_op o d) db os.

(** ** The integrity invariant *)
Definition invoice_keys (db : DB) : list string := i_payment_hash <$> invoices db.
Definition ticket_keys (db : DB) : list string := t_id <$> tickets db.
Definition settlement_keys (db : DB) : list Z := s_id <$> settlement_entries db.
Definition entitlement_keys (db : DB) : list string := e_id <$> entitlements db.

Definition wf_invoices (t : list InvoiceRow) : Prop :=
  NoDup (i_payment_hash <$> t) /\ Forall (fun r => invoice_check r = true) t.
Definition wf_tickets (parents : list string) (t : list TicketRow) : Prop :=
  NoDup (t_id <$> t) /\
  Forall (fun r => ticket_check r = true /\ t_payment_hash r ∈ parents) t.
Definition wf_usage (parents : list string) (t : list UsageRow) : Prop :=
  Forall (fun r => usage_check r = true /\ u_ticket_id r ∈ parents) t.
Definition wf_settlements (t : list SettlementRow) : Prop :=
  NoDup (s_id <$> t) /\ NoDup ((fun r => (s_period r, s_node_pubkey r)) <$> t) /\
  Forall (fun r => settlement_check r = true) t.

(** Attempts counted per status: a payout fails at most three times, and only
    a paid one carries a payment hash. *)
Definition attempts_ok (r : PayoutRow) : Prop :=
  (p_status r = PPaid <-> is_Some (p_payment_hash r)) /\
  match p_status r with
  | PPending => p_attempt_count r = 0
  | PInFlight | PPaid => 0 <= p_attempt_count r <= 2
  | PFailed => 1 <= p_attempt_count r <= 3
  | PRetrying => 1 <= p_attempt_count r <= 2
  end.
Definition wf_payouts (parents : list Z) (t : list PayoutRow) : Prop :=
  NoDup (p_id <$> t) /\ NoDup (p_entry_id <$> t) /\
  Forall (fun r => payout_check r = true /\ p_entry_id r ∈ parents /\ attempts_ok r) t.
Definition wf_entitlements (parents : list string) (t : list EntitlementRow) : Prop :=
  NoDup (e_id <$> t) /\ NoDup (e_payment_hash <$> t) /\
  Forall (fun r => entitlement_check r = true /\ e_payment_hash r ∈ parents /\
                   e_tokens_remaining r <= e_tokens_total r) t.
Definition wf_spent (t : list SpentTokenRow) : Prop := NoDup (st_token_id <$> t).
Definition wf_redemptions (parents : list string) (t : list RedemptionRow) : Prop :=
  NoDup (r_nonce <$> t) /\
  Forall (fun r => redemption_check r = true /\ r_entitlement_id r ∈ parents) t.

Record db_wf (db : DB) : Prop := {
  wf_inv : wf_invoices (invoices db);
  wf_tkt : wf_tickets (invoice_keys db) (tickets db);
  wf_use : wf_usage (ticket_keys db) (usage_reports db);
  wf_set : wf_settlements (settlement_entries db);
  wf_pay : wf_payouts (settlement_keys db) (payouts db);
  wf_ent : wf_entitlements (invoice_keys db) (entitlements db);
  wf_spt : wf_spent (spent_tokens db);
  wf_red : wf_redemptions (entitlement_keys db) (redemptions db)
}.

(** ** The append-only order *)

(** The old rows are still there, in order, each related to its old self. *)
Definition grows {R} (rel : R -> R -> Prop) (t t' : list R) : Prop :=
  exists u v, t' = u ++ v /\ Forall2 rel t u.

Definition invoice_le (o n : InvoiceRow) : Prop :=
  i_id n = i_id o /\ i_payment_hash n = i_payment_hash o /\
  i_payment_request n = i_payment_request o /\ i_amount_sats n = i_amount_sats o /\
  i_tier n = i_tier o /\ i_bytes_allowed n = i_bytes_allowed o /\
  i_created_at n = i_created_at o /\ i_expires_at n = i_expires_at o /\
  (i_status o <> InvOpen -> n = o).
Definition ticket_le (o n : TicketRow) : Prop :=
  t_id n = t_id o /\ t_payment_hash n = t_payment_hash o /\
  t_bytes_value n = t_bytes_value o /\ t_hmac n = t_hmac o /\
  t_issued_at n = t_issued_at o /\ (t_status o = TRedeemed -> n = o).

(** pending -> in_flight -> paid | failed -> retrying -> in_flight *)
Inductive payout_edge : PayoutStatus -> PayoutStatus -> Prop :=
| edge_send : payout_edge PPending PInFlight
| edge_resend : payout_edge PRetrying PInFlight
| edge_paid : payout_edge PInFlight PPaid
| edge_failed : payout_edge PInFlight PFailed
| edge_retry : payout_edge PFailed PRetrying.
Definition payout_le (o n : PayoutRow) : Prop :=
  p_id n = p_id o /\ p_entry_id n = p_entry_id o /\ p_node_pubkey n = p_node_pubkey o /\
  p_amount_sats n = p_amount_sats o /\ p_created_at n = p_created_at o /\
  p_attempt_count o <= p_attempt_count n /\
  rtc payout_edge (p_status o) (p_status n) /\ (p_status o = PPaid -> n = o).
Definition entitlement_le (o n : EntitlementRow) : Prop :=
  e_id n = e_id o /\ e_payment_hash n = e_payment_hash o /\
  e_tokens_total n = e_tokens_total o /\ e_bytes_per_token n = e_bytes_per_token o /\
  e_key_id n = e_key_id o /\ e_created_at n = e_created_at o /\
  e_tokens_remaining n <= e_tokens_remaining o.

Record ledger_le (db db' : DB) : Prop := {
  le_inv : grows invoice_le (invoices db) (invoices db');
  le_tkt : grows ticket_le (tickets db) (tickets db');
  le_use : usage_reports db `prefix_of` usage_reports db';
  le_set : settlement_entries db `prefix_of` settlement_entries db';
  le_pay : grows payout_le (payouts db) (payouts db');
  le_com : compensating_entries db `prefix_of` compensating_entries db';
  le_ent : grows entitlement_le (entitlements db) (entitlements db');
  le_spt : spent_tokens db `prefix_of` spent_tokens db';
  le_red : redemptions db `prefix_of` redemptions db'
}.

(** ** Steps of the ledger: one row appears or rows move

    What the operations may do to the ledger, row by row, with no SQL left:
    every operation is a sequence of these steps, which is enough for the order
    and the invariant. What each single call answers and changes is the
    specification of StoreSpec.v. *)
Inductive invoice_move : InvoiceRow -> InvoiceRow -> Prop :=
| im_stay r : invoice_move r r
| im_settle now r : i_status r = InvOpen -> invoice_move r (settle_row now r)
| im_expire r : i_status r = InvOpen -> invoice_move r (expire_row r).
Inductive ticket_move : TicketRow -> TicketRow -> Prop :=
| tm_stay r : ticket_move r r
| tm_redeem now by_ r : t_status r = TActive -> ticket_move r (redeem_row now by_ r).
Inductive payout_move : PayoutRow -> PayoutRow -> Prop :=
| pm_stay r : payout_move r r
| pm_send now r : p_status r = PPending \/ p_status r = PRetrying ->
    payout_move r (set_payout now PInFlight (p_payment_hash r) (p_attempt_count r) (p_last_error r) r)
| pm_paid now h r : p_status r = PInFlight ->
    payout_move r (set_payout now PPaid (Some h) (p_attempt_count r) (p_last_error r) r)
| pm_failed now e r : p_status r = PInFlight ->
    payout_move r (set_payout now PFailed (p_payment_hash r) (p_attempt_count r + 1) (Some e) r)
| pm_retry now r : p_status r = PFailed -> p_attempt_count r < 3 ->
    payout_move r (set_payout now PRetrying (p_payment_hash r) (p_attempt_count r) (p_last_error r) r).
Inductive entitlement_move : EntitlementRow -> EntitlementRow -> Prop :=
| em_stay r : entitlement_move r r
| em_consume n r : 0 <= n <= e_tokens_remaining r -> entitlement_move r (consume_row n r).

Inductive ledger_step (db : DB) : DB -> Prop :=
| ls_invoice r : invoice_check r = true -> i_payment_hash r ∉ invoice_keys db ->
    i_status r = InvOpen -> ledger_step db (set_invoices db (invoices db ++ [r]))
| ls_invoice_move t : Forall2 invoice_move (invoices db) t -> ledger_step db (set_invoices db t)
| ls_ticket r : ticket_check r = true -> t_id r ∉ ticket_keys db ->
    t_payment_hash r ∈ invoice_keys db -> t_status r = TActive ->
    ledger_step db (set_tickets db (tickets db ++ [r]))
| ls_ticket_move t : Forall2 ticket_move (tickets db) t -> ledger_step db (set_tickets db t)
| ls_usage r : usage_check r = true -> u_ticket_id r ∈ ticket_keys db ->
    ledger_step db (set_usage_reports db (usage_reports db ++ [r]))
| ls_settlement r : settlement_check r = true -> s_id r ∉ settlement_keys db ->
    (s_period r, s_node_pubkey r) ∉ ((fun r => (s_period r, s_node_pubkey r)) <$> settlement_entries db) ->
    ledger_step db (set_settlement_entries db (settlement_entries db ++ [r]))
| ls_payout r : payout_check r = true -> p_id r ∉ (p_id <$> payouts db) ->
    p_entry_id r ∉ (p_entry_id <$> payouts db) -> p_entry_id r ∈ settlement_keys db ->
    p_status r = PPending -> p_attempt_count r = 0 -> p_payment_hash r = None ->
    ledger_step db (set_payouts db (payouts db ++ [r]))
| ls_payout_move t : Forall2 payout_move (payouts db) t -> ledger_step db (set_payouts db t)
| ls_comp r : comp_check r = true ->
    ledger_step db (set_compensating db (compensating_entries db ++ [r]))
| ls_entitlement r : entitlement_check r = true -> e_id r ∉ entitlement_keys db ->
    e_payment_hash r ∉ (e_payment_hash <$> entitlements db) ->
    e_payment_hash r ∈ invoice_keys db -> e_tokens_remaining r = e_tokens_total r ->
    ledger_step db (set_entitlements db (entitlements db ++ [r]))
| ls_entitlement_move t : Forall2 entitlement_move (entitlements db) t ->
    ledger_step db (set_entitlements db t)
| ls_spent r : st_token_id r ∉ (st_token_id <$> spent_tokens db) ->
    ledger_step db (set_spent_tokens db (spent_tokens db ++ [r]))
| ls_redemption r : redemption_check r = true -> r_nonce r ∉ (r_nonce <$> redemptions db) ->
    r_entitlement_id r ∈ entitlement_keys db ->
    ledger_step db (set_redemptions db (redemptions db ++ [r]))
| ls_leases t : ledger_step db (set_node_leases db t)
| ls_wallets t : ledger_step db (set_node_wallets db t)
| ls_withdrawals t : ledger_step db (set_withdrawals db t).

(** ** Traces of guarded operations *)

(** What one operation reports about a token, a ticket, an entitlement. *)
Definition first_spend_at (token : string) (o : op) (db : DB) : nat :=
  match o with
  | OMarkSpent now t k n =>
      if String.eqb t token && bool_decide ((MarkSpent now t k n db).1 = Ok true) then 1 else 0
  | _ => 0
  end%nat.
Definition redeemed_at (id : string) (o : op) (db : DB) : nat :=
  match o with
  | ORedeemTicket now i by_ =>
      if String.eqb i id && bool_decide ((RedeemTicket now i by_ db).1 = Ok tt) then 1 else 0
  | _ => 0
  end%nat.
Definition consumed_at (id : string) (o : op) (db : DB) : Z :=
  match o with
  | OConsumeEntitlement i n =>
      if String.eqb i id && bool_decide ((ConsumeEntitlement i (Z.of_nat n) db).1 = Ok tt)
      then Z.of_nat n else 0
  | _ => 0
  end.

(** How often /spend reported a first spend of a token along a trace. *)
Fixpoint first_spends (token : string) (os : list op) (db : DB) : nat :=
  match os with
  | [] => 0
  | o :: os' => (first_spend_at token o db + first_spends token os' (run_op o db))%nat
  end.

(** How often a ticket was redeemed successfully along a trace. *)
Fixpoint redemptions_of (id : string) (os : list op) (db : DB) : nat :=
  match os with
  | [] => 0
  | o :: os' => (redeemed_at id o db + redemptions_of id os' (run_op o db))%nat
  end.

(** Tokens handed out against an entitlement along a trace. *)
Fixpoint consumed (id : string) (os : list op) (db : DB) : Z :=
  match os with
  | [] => 0
  | o :: os' => consumed_at id o db + consumed id os' (run_op o db)
  end.

Definition ent_is (id : string) (r : EntitlementRow) : bool := String.eqb (e_id r) id.
Definition remaining_of (id : string) (db : DB) : Z :=
  match sql_find (ent_is id) (entitlements db) with
  | Some r => e_tokens_remaining r
  | None => 0
  end.

(** ** Growth *)
Section grows.
Context {R : Type} (rel : R -> R -> Prop) `{!PreOrder rel}.

#[export] Instance grows_preorder : PreOrder (grows rel).
Proof.
  split.
  - intros t. exists t, []. rewrite app_nil_r. split; [done|].
    by apply Forall_Forall2_diag, Forall_forall.
  - intros t1 t2 t3 (u & v & -> & Hu) (u' & v' & -> & Hu').
    apply Forall2_app_inv_l in Hu' as (w1 & w2 & H1 & H2 & ->).
    exists w1, (w2 ++ v'). split; [by rewrite app_assoc|].
    eapply Forall2_trans; [|exact Hu|exact H1]. intros x y z ??. by etrans.
Qed.

Lemma grows_snoc t r : grows rel t (t ++ [r]).
Proof. exists t, [r]. split; [done|]. by apply Forall_Forall2_diag, Forall_forall. Qed.

Lemma grows_update p trig chk f t u :
  (forall r, p r = true -> trig r (f r) = false -> chk (f r) = true -> rel r (f r)) ->
  Forall2 (row_step p trig chk f) t u -> grows rel t u.
Proof.
  intros Hf Ht. exists u, []. rewrite app_nil_r. split; [done|].
  eapply Forall2_impl; [exact Ht|]. intros r r' [->|(? & -> & ? & ?)]; auto.
  reflexivity.
Qed.
End grows.

#[export] Instance invoice_le_preorder : PreOrder invoice_le.
Proof.
  split.
  - intros r. by split_and!.
  - unfold invoice_le. intros x y z (?&?&?&?&?&?&?&?&Hxy) (?&?&?&?&?&?&?&?&Hyz).
    split_and!; try congruence. intros Hs. rewrite Hyz by (by rewrite Hxy). auto.
Qed.
#[export] Instance ticket_le_preorder : PreOrder ticket_le.
Proof.
  split.
  - intros r. by split_and!.
  - unfold ticket_le. intros x y z (?&?&?&?&?&Hxy) (?&?&?&?&?&Hyz).
    split_and!; try congruence. intros Hs. rewrite Hyz by (by rewrite Hxy). auto.
Qed.
#[export] Instance payout_le_preorder : PreOrder payout_le.
Proof.
  split.
  - intros r. by split_and!.
  - unfold payout_le. intros x y z (?&?&?&?&?&?&?&Hxy) (?&?&?&?&?&?&?&Hyz).
    split_and!; try congruence; try lia; [by etrans|].
    intros Hs. rewrite Hyz by (by rewrite Hxy). auto.
Qed.
#[export] Instance entitlement_le_preorder : PreOrder entitlement_le.
Proof.
  split.
  - intros r. by split_and!.
  - unfold entitlement_le. intros x y z (?&?&?&?&?&?&?) (?&?&?&?&?&?&?).
    split_and!; try congruence; lia.
Qed.
#[export] Instance ledger_le_preorder : PreOrder ledger_le.
Proof.
  split.
  - intros db. by split.
  - intros x y z [] []. split; by etrans.
Qed.


(** ** Well-formedness of one table *)
Lemma Forall_update {R} (P : R -> Prop) p trig chk f (t u : list R) :
  (forall r, P r -> p r = true -> trig r (f r) = false -> chk (f r) = true -> P (f r)) ->
  Forall2 (row_step p trig chk f) t u -> Forall P t -> Forall P u.
Proof.
  intros HP. induction 1 as [|r r' t u Hr _ IH]; [done|].
  intros [??]%Forall_cons. constructor; [|auto].
  destruct Hr as [->|(? & -> & ? & ?)]; auto.
Qed.

Lemma NoDup_snoc_key {R K} (key : R -> K) (t : list R) r :
  NoDup (key <$> t) -> (forall r', r' ∈ t -> key r <> key r') -> NoDup (key <$> (t ++ [r])).
Proof.
  intros Ht Hr. rewrite fmap_app. apply NoDup_app. split_and!; [done| |apply NoDup_singleton].
  intros k (r' & -> & Hin)%list_elem_of_fmap Hk.
  apply list_elem_of_singleton in Hk. by eapply Hr.
Qed.

Lemma Forall_snoc {R} (P : R -> Prop) t r : Forall P t -> P r -> Forall P (t ++ [r]).
Proof. intros. apply Forall_app. split; [done|]. by apply Forall_singleton. Qed.

(** ** Every operation is a run of steps *)
Section refinement.
Lemma existsb_key {R K} `{EqDecision K} (key : R -> K) (k : K) (test : R -> bool) (t : list R) :
  (forall r, test r = true -> key r = k) -> existsb test t = true -> k ∈ (key <$> t).
Proof.
  intros Hk (r & Hin & Hr)%existsb_exists. apply list_elem_of_fmap.
  exists r. split; [by rewrite (Hk r)|by apply list_elem_of_In].
Qed.

Lemma no_clash_key {R K} (key : R -> K) (clash : R -> R -> bool) r (t : list R) :
  (forall r', key r = key r' -> clash r r' = true) ->
  (forall r', r' ∈ t -> clash r r' = false) -> key r ∉ (key <$> t).
Proof.
  intros Hk Ht (r' & Heq & Hin)%list_elem_of_fmap. specialize (Ht r' Hin).
  rewrite Hk in Ht by done. done.
Qed.

Lemma exec_insert_cases {R} clash chk fk (r : R) t res t' :
  exec_insert (sql_insert clash chk fk r t) t = (res, t') ->
  (t' = t /\ is_ok res = false) \/
  (res = Ok tt /\ t' = t ++ [r] /\ chk r = true /\ fk r = true /\
   forall r', r' ∈ t -> clash r r' = false).
Proof.
  unfold exec_insert. destruct (sql_insert clash chk fk r t) as [u|e] eqn:Hi; intros [= <- <-].
  - apply sql_insert_Ok in Hi. right. tauto.
  - by left.
Qed.

Lemma set_same_invoices db : set_invoices db (invoices db) = db.  Proof. by destruct db. Qed.
Lemma set_same_tickets db : set_tickets db (tickets db) = db.  Proof. by destruct db. Qed.
Lemma set_same_usage db : set_usage_reports db (usage_reports db) = db.  Proof. by destruct db. Qed.
Lemma set_same_settlement db : set_settlement_entries db (settlement_entries db) = db.
Proof. by destruct db. Qed.
Lemma set_same_comp db : set_compensating db (compensating_entries db) = db.
Proof. by destruct db. Qed.
Lemma set_same_ent db : set_entitlements db (entitlements db) = db.  Proof. by destruct db. Qed.
Lemma set_same_spent db : set_spent_tokens db (spent_tokens db) = db.  Proof. by destruct db. Qed.
Lemma set_same_red db : set_redemptions db (redemptions db) = db.  Proof. by destruct db. Qed.
End refinement.
#[export] Hint Rewrite set_same_invoices set_same_tickets set_same_usage set_same_settlement
  set_same_comp set_same_ent set_same_spent set_same_red : arfl_rw.

Lemma clash_invoice r r' : i_payment_hash r = i_payment_hash r' -> invoice_clash r r' = true.
Proof. unfold invoice_clash. intros ->. apply String.eqb_refl. Qed.
Lemma clash_ticket r r' : t_id r = t_id r' -> ticket_clash r r' = true.
Proof. unfold ticket_clash. intros ->. apply String.eqb_refl. Qed.
Lemma clash_settlement r r' :
  (s_period r, s_node_pubkey r) = (s_period r', s_node_pubkey r') -> settlement_clash r r' = true.
Proof. unfold settlement_clash. intros [= -> ->]. by rewrite !String.eqb_refl. Qed.
Lemma clash_payout r r' : p_entry_id r = p_entry_id r' -> payout_clash r r' = true.
Proof. unfold payout_clash. intros ->. apply Z.eqb_refl. Qed.
Lemma clash_entitlement_id r r' : e_id r = e_id r' -> entitlement_clash r r' = true.
Proof. unfold entitlement_clash. intros ->. by rewrite String.eqb_refl. Qed.
Lemma clash_entitlement_hash r r' :
  e_payment_hash r = e_payment_hash r' -> entitlement_clash r r' = true.
Proof. unfold entitlement_clash. intros ->. by rewrite String.eqb_refl, orb_true_r. Qed.
Lemma clash_spent r r' : st_token_id r = st_token_id r' -> spent_token_clash r r' = true.
Proof. unfold spent_token_clash. intros ->. apply String.eqb_refl. Qed.
Lemma clash_redemption r r' : r_nonce r = r_nonce r' -> redemption_clash r r' = true.
Proof. unfold redemption_clash. intros ->. apply String.eqb_refl. Qed.
#[export] Hint Resolve clash_invoice clash_ticket clash_settlement clash_payout clash_entitlement_id
  clash_entitlement_hash clash_spent clash_redemption : arfl.

Lemma hash_is_key h r : hash_is h r = true -> i_payment_hash r = h.
Proof. unfold hash_is. by intros ?%String.eqb_eq. Qed.
Lemma ticket_is_key h r : ticket_is h r = true -> t_id r = h.
Proof. unfold ticket_is. by intros ?%String.eqb_eq. Qed.
#[export] Hint Resolve hash_is_key ticket_is_key : arfl.

(** A foreign key or freshness side condition of [ledger_step]. *)
Ltac side :=
  first [ done
        | solve [eapply no_clash_key; [|eassumption]; eauto with arfl]
        | solve [eapply existsb_key; [|eassumption]; eauto with arfl] ].
(** An INSERT is no step or one appended row. *)
Ltac ins :=
  match goal with
  | |- context [exec_insert ?x ?t] =>
      destruct (exec_insert x t) as [? ?] eqn:Hx;
      apply exec_insert_cases in Hx as [[-> _]|(-> & -> & ? & ? & ?)];
      autorewrite with arfl_rw; simpl; autorewrite with arfl_rw; [reflexivity|apply rtc_once]
  end.
(** An UPDATE moves rows. *)
Ltac upd :=
  match goal with
  | |- context [sql_update ?p ?tr ?c ?f ?t] =>
      destruct (sql_update p tr c f t) as [? ?] eqn:Hx;
      apply sql_update_rows in Hx; simpl; apply rtc_once
  end.
Ltac moved H := eapply Forall2_impl; [exact H|]; intros ? ? [->|(? & -> & ? & ?)]; [constructor|].

Abbreviation steps := (rtc ledger_step).

Lemma settle_refines now h db : steps db (SettleInvoice now h db).2.
Proof.
  unfold SettleInvoice. upd.
  assert (ledger_step db (set_invoices db l)) as Hstep.
  { apply ls_invoice_move. moved Hx. unfold open_invoice in *. bprop. by constructor. }
  repeat case_match; done.
Qed.

Lemma expire_refines h db : steps db (ExpireInvoice h db).2.
Proof.
  unfold ExpireInvoice. upd. apply ls_invoice_move. moved Hx.
  unfold open_invoice in *. bprop. by constructor.
Qed.

Lemma insert_ticket_refines now id h bytes mac db t :
  insert_ticket_row now id h bytes mac db = Ok t -> ledger_step db (set_tickets db t).
Proof.
  intros (-> & ? & ? & ?)%sql_insert_Ok. apply ls_ticket; side.
Qed.

Lemma tickets_tx_refines now h ts db db' :
  insert_tickets_tx now h ts db = Ok db' -> steps db db'.
Proof.
  revert db. induction ts as [|t ts IH]; simpl; intros db; [by intros [= ->]|].
  destruct (insert_ticket_row _ _ _ _ _ _) as [tab|] eqn:Hi; [|done]. simpl.
  intros ?%IH. eapply rtc_l; [by eapply insert_ticket_refines|done].
Qed.

Lemma redeem_refines now id by_ db : steps db (RedeemTicket now id by_ db).2.
Proof.
  unfold RedeemTicket. upd. apply ls_ticket_move. moved Hx.
  unfold active_ticket in *. bprop. by constructor.
Qed.

Lemma payout_update_refines guard f to db :
  (forall r, guard r = true -> payout_move r (f r)) -> steps db (update_payout guard f to db).2.
Proof.
  intros Hf. unfold update_payout. upd. apply ls_payout_move. moved Hx. auto.
Qed.

Lemma insert_payout_refines now e n s db : steps db (InsertPayout now e n s db).2.
Proof.
  unfold InsertPayout. destruct (sql_insert _ _ _ _ _) as [t|] eqn:Hi; simpl; [|reflexivity].
  apply sql_insert_Ok in Hi as (-> & ? & ? & ?). apply rtc_once.
  apply ls_payout; try side.
  - apply next_rowid_fresh.
  - eapply existsb_key; [|eassumption]. by intros r ?%Z.eqb_eq.
Qed.

Lemma consume_refines id n db : steps db (ConsumeEntitlement id (Z.of_nat n) db).2.
Proof.
  unfold ConsumeEntitlement. upd. apply ls_entitlement_move. moved Hx.
  unfold entitlement_with in *. bprop. constructor. lia.
Qed.

Lemma settlement_refines now p n bb s eb xb k db :
  steps db (InsertSettlementEntry now p n bb s eb xb k db).2.
Proof.
  unfold InsertSettlementEntry.
  destruct (sql_insert_ignore _ _ _ _) as [t b] eqn:Hi. simpl.
  apply sql_insert_ignore_spec in Hi as [(-> & -> & ? & ?)|(-> & ->)];
    autorewrite with arfl_rw; [|reflexivity].
  apply rtc_once, ls_settlement; [done|apply next_rowid_fresh|].
  eapply (no_clash_key (fun r => (s_period r, s_node_pubkey r))); [|eassumption]. auto with arfl.
Qed.

Lemma spent_refines now t k n db : steps db (MarkSpent now t k n db).2.
Proof.
  unfold MarkSpent. destruct (sql_insert_nothing _ _ _) as [u b] eqn:Hi. simpl.
  apply sql_insert_nothing_spec in Hi as [(-> & -> & ?)|(-> & -> & ?)];
    autorewrite with arfl_rw; [|reflexivity].
  apply rtc_once, ls_spent. side.
Qed.

Lemma set_same_withdrawals db : set_withdrawals db (withdrawals db) = db.
Proof. by destruct db. Qed.

(** One operation is a run of steps. *)
Lemma run_op_steps o db : rtc ledger_step db (run_op o db).
Proof.
  destruct o; simpl;
    eauto using settle_refines, expire_refines, redeem_refines, insert_payout_refines,
      consume_refines, settlement_refines, spent_refines.
  - unfold InsertInvoice. ins. apply ls_invoice; side.
  - unfold InsertTicket. unfold insert_ticket_row. ins. apply ls_ticket; side.
  - unfold InsertTicketsBatch. destruct (insert_tickets_tx _ _ _ _) eqn:?; simpl;
      [by eapply tickets_tx_refines|reflexivity].
  - unfold InsertUsageReport. ins. apply ls_usage; side.
  - apply payout_update_refines. unfold payout_in. intros r ?. bprop.
    apply pm_send. set_solver.
  - apply payout_update_refines. unfold payout_in. intros r ?. bprop. apply pm_paid. set_solver.
  - apply payout_update_refines. unfold payout_in. intros r ?. bprop. apply pm_failed. set_solver.
  - apply payout_update_refines. unfold retryable. intros r ?. bprop. by apply pm_retry.
  - unfold InsertCompensatingEntry. ins. by apply ls_comp.
  - unfold InsertEntitlement. ins. apply ls_entitlement; side.
  - unfold InsertRedemption. ins. apply ls_redemption; try side.
    eapply existsb_key; [|eassumption]. simpl. by intros r ?%String.eqb_eq.
  - apply rtc_once. apply ls_wallets.
  - unfold InsertWithdrawal. destruct (sql_insert _ _ _ _ _); [apply rtc_once, ls_withdrawals|reflexivity].
  - unfold MarkWithdrawalPaid. upd. apply ls_withdrawals.
  - unfold MarkWithdrawalFailed. upd. apply ls_withdrawals.
  - apply rtc_once. apply ls_leases.
  - unfold RevokeNodeLease, update_lease. upd. apply ls_leases.
  - unfold RenewNodeLease, update_lease. upd. apply ls_leases.
Qed.

Lemma run_ops_steps os db : rtc ledger_step db (run_ops os db).
Proof.
  revert db. induction os as [|o os IH]; intros db; simpl; [reflexivity|].
  etrans; [apply run_op_steps|apply IH].
Qed.

(** ** Steps keep the append-only order *)
Lemma invoice_move_le o n : invoice_move o n -> invoice_le o n.
Proof. destruct 1; [reflexivity|..]; unfold invoice_le; simpl; naive_solver. Qed.
Lemma ticket_move_le o n : ticket_move o n -> ticket_le o n.
Proof. destruct 1; [reflexivity|]. unfold ticket_le; simpl. naive_solver congruence. Qed.
Lemma payout_move_le o n : payout_move o n -> payout_le o n.
Proof.
  destruct 1 as [r|now r H|now h r H|now e r H|now r H ?]; [reflexivity|..];
    unfold payout_le; simpl; split_and!; try done; try lia; try (intros; exfalso; naive_solver congruence);
    try (destruct H as [H|H]); rewrite H; apply rtc_once; constructor.
Qed.
Lemma entitlement_move_le o n : entitlement_move o n -> entitlement_le o n.
Proof. destruct 1; [reflexivity|]. unfold entitlement_le; simpl. split_and!; try done; lia. Qed.

Lemma grows_moves {R} (rel move : R -> R -> Prop) t u :
  (forall o n, move o n -> rel o n) -> Forall2 move t u -> grows rel t u.
Proof.
  intros Hm Ht. exists u, []. rewrite app_nil_r. split; [done|]. by eapply Forall2_impl.
Qed.
#[export] Hint Resolve invoice_move_le ticket_move_le payout_move_le entitlement_move_le : arfl.

Lemma ledger_step_le db db' : ledger_step db db' -> ledger_le db db'.
Proof.
  destruct 1; split; simpl;
    first [ reflexivity
          | apply prefix_app_r; reflexivity
          | apply grows_snoc, _
          | eapply grows_moves; [|eassumption]; auto with arfl ].
Qed.

Lemma steps_le db db' : rtc ledger_step db db' -> ledger_le db db'.
Proof.
  induction 1 as [|x y z Hxy _ IH]; [reflexivity|]. etrans; [by apply ledger_step_le|done].
Qed.

(** C2: append-only. No operation deletes a row or rewrites an immutable column;
    statuses only move forward; settled and expired invoices, redeemed tickets
    and paid payouts never change again. *)
Theorem ledger_append_only os db : ledger_le db (run_ops os db).
Proof. apply steps_le, run_ops_steps. Qed.

(** ** Steps keep the integrity invariant *)
Section wf.
Lemma moves_keys {R K} (key : R -> K) (move : R -> R -> Prop) t u :
  (forall o n, move o n -> key n = key o) -> Forall2 move t u -> key <$> u = key <$> t.
Proof. intros Hk. induction 1; csimpl; f_equal; auto. Qed.

Lemma moves_Forall {R} (P : R -> Prop) (move : R -> R -> Prop) t u :
  (forall o n, move o n -> P o -> P n) -> Forall2 move t u -> Forall P t -> Forall P u.
Proof.
  intros HP. induction 1 as [|o n t u Ho _ IH]; [done|].
  intros [??]%Forall_cons. constructor; eauto.
Qed.

Lemma NoDup_snoc {K} (l : list K) k : NoDup l -> k ∉ l -> NoDup (l ++ [k]).
Proof.
  intros. apply NoDup_app. split_and!; [done| |apply NoDup_singleton]. set_solver.
Qed.

Lemma wf_tickets_mono ks ks' t : ks ⊆ ks' -> wf_tickets ks t -> wf_tickets ks' t.
Proof. intros ? [? H]. split; [done|]. eapply Forall_impl; [exact H|]. set_solver. Qed.
Lemma wf_usage_mono ks ks' t : ks ⊆ ks' -> wf_usage ks t -> wf_usage ks' t.
Proof. intros ? H. eapply Forall_impl; [exact H|]. set_solver. Qed.
Lemma wf_payouts_mono ks ks' t : ks ⊆ ks' -> wf_payouts ks t -> wf_payouts ks' t.
Proof. intros ? (? & ? & H). split_and!; [done..|]. eapply Forall_impl; [exact H|]. set_solver. Qed.
Lemma wf_entitlements_mono ks ks' t : ks ⊆ ks' -> wf_entitlements ks t -> wf_entitlements ks' t.
Proof. intros ? (? & ? & H). split_and!; [done..|]. eapply Forall_impl; [exact H|]. set_solver. Qed.
Lemma wf_redemptions_mono ks ks' t : ks ⊆ ks' -> wf_redemptions ks t -> wf_redemptions ks' t.
Proof. intros ? [? H]. split; [done|]. eapply Forall_impl; [exact H|]. set_solver. Qed.

Lemma invoice_move_facts o n : invoice_move o n ->
  i_payment_hash n = i_payment_hash o /\ invoice_check n = invoice_check o.
Proof. by destruct 1. Qed.
Lemma ticket_move_facts o n : ticket_move o n ->
  t_id n = t_id o /\ ticket_check n = ticket_check o /\ t_payment_hash n = t_payment_hash o.
Proof. by destruct 1. Qed.
Lemma payout_move_facts o n : payout_move o n ->
  p_id n = p_id o /\ p_entry_id n = p_entry_id o /\ payout_check n = payout_check o /\
  (attempts_ok o -> attempts_ok n).
Proof.
  destruct 1 as [r|now r H|now h r H|now e r H|now r H ?]; split_and!; try done;
    unfold attempts_ok; simpl; try (destruct H as [H|H]); rewrite H; intros [Hp ?];
    (split; [|lia]); split; intros Hx; try done; try (apply Hp in Hx; done); eauto.
Qed.
Lemma entitlement_move_facts o n : entitlement_move o n ->
  e_id n = e_id o /\ e_payment_hash n = e_payment_hash o /\
  (entitlement_check o = true -> entitlement_check n = true) /\
  (e_tokens_remaining o <= e_tokens_total o -> e_tokens_remaining n <= e_tokens_total n).
Proof.
  destruct 1; split_and!; try done; simpl; [|lia].
  unfold entitlement_check. simpl. intros ?. bprop. rewrite !andb_true_iff, Z.leb_le. lia.
Qed.
End wf.

Lemma wf_keys_snoc {K} (l : list K) (k : K) : l ⊆ l ++ [k].
Proof. set_solver. Qed.
#[export] Hint Resolve wf_keys_snoc : arfl.

(** Re-proves a table invariant whose parents' keys did not change or grew. *)
Ltac parents := unfold invoice_keys, ticket_keys, settlement_keys, entitlement_keys in *;
  simpl; rewrite ?fmap_app.


Section wf_step.
Context (db : DB) (Hwf : db_wf db).

Lemma wf_step_invoice r :
  invoice_check r = true -> i_payment_hash r ∉ invoice_keys db ->
  db_wf (set_invoices db (invoices db ++ [r])).
Proof.
  destruct Hwf as [[? ?] ? ? ? ? ? ? ?]. intros. split; parents; simpl; try done.
  - split; [rewrite fmap_app; by apply NoDup_snoc|by apply Forall_snoc].
  - eapply wf_tickets_mono; [|done]. apply wf_keys_snoc.
  - eapply wf_entitlements_mono; [|done]. apply wf_keys_snoc.
Qed.

Lemma wf_step_invoice_move t :
  Forall2 invoice_move (invoices db) t -> db_wf (set_invoices db t).
Proof.
  destruct Hwf as [[? ?] ? ? ? ? ? ? ?]. intros Ht.
  assert (i_payment_hash <$> t = i_payment_hash <$> invoices db) as Hk.
  { eapply moves_keys; [|exact Ht]. intros o n ?%invoice_move_facts. tauto. }
  split; parents; simpl; rewrite ?Hk; try done. split; [by rewrite Hk|].
  eapply moves_Forall; [|exact Ht|done]. intros o n [_ ->]%invoice_move_facts. done.
Qed.

Lemma wf_step_ticket r :
  ticket_check r = true -> t_id r ∉ ticket_keys db -> t_payment_hash r ∈ invoice_keys db ->
  db_wf (set_tickets db (tickets db ++ [r])).
Proof.
  destruct Hwf as [? [? ?] ? ? ? ? ? ?]. intros. split; parents; simpl; try done.
  - split; [rewrite fmap_app; by apply NoDup_snoc|by apply Forall_snoc].
  - eapply wf_usage_mono; [|done]. apply wf_keys_snoc.
Qed.

Lemma wf_step_ticket_move t : Forall2 ticket_move (tickets db) t -> db_wf (set_tickets db t).
Proof.
  destruct Hwf as [? [? ?] ? ? ? ? ? ?]. intros Ht.
  assert (t_id <$> t = t_id <$> tickets db) as Hk.
  { eapply moves_keys; [|exact Ht]. intros o n ?%ticket_move_facts. tauto. }
  split; parents; simpl; rewrite ?Hk; try done. split; [by rewrite Hk|].
  eapply moves_Forall; [|exact Ht|done]. intros o n (_ & -> & ->)%ticket_move_facts. done.
Qed.

Lemma wf_step_settlement r :
  settlement_check r = true -> s_id r ∉ settlement_keys db ->
  (s_period r, s_node_pubkey r) ∉ ((fun r => (s_period r, s_node_pubkey r)) <$> settlement_entries db) ->
  db_wf (set_settlement_entries db (settlement_entries db ++ [r])).
Proof.
  destruct Hwf as [? ? ? (? & ? & ?) ? ? ? ?]. intros. split; parents; simpl; try done.
  - split_and!; [rewrite fmap_app; by apply NoDup_snoc..|by apply Forall_snoc].
  - eapply wf_payouts_mono; [|done]. apply wf_keys_snoc.
Qed.

Lemma wf_step_payout r :
  payout_check r = true -> p_id r ∉ (p_id <$> payouts db) ->
  p_entry_id r ∉ (p_entry_id <$> payouts db) -> p_entry_id r ∈ settlement_keys db ->
  p_status r = PPending -> p_attempt_count r = 0 -> p_payment_hash r = None ->
  db_wf (set_payouts db (payouts db ++ [r])).
Proof.
  destruct Hwf as [? ? ? ? (? & ? & ?) ? ? ?]. intros ? ? ? ? Hst Hat Hph.
  split; parents; simpl; try done.
  split_and!; [rewrite fmap_app; by apply NoDup_snoc..|].
  apply Forall_snoc; [done|]. split_and!; [done..|].
  unfold attempts_ok. rewrite Hst, Hph. split; [|done]. by split; intros []%is_Some_None || done.
Qed.

Lemma wf_step_payout_move t : Forall2 payout_move (payouts db) t -> db_wf (set_payouts db t).
Proof.
  destruct Hwf as [? ? ? ? (? & ? & ?) ? ? ?]. intros Ht.
  assert (p_id <$> t = p_id <$> payouts db /\ p_entry_id <$> t = p_entry_id <$> payouts db) as [Hk Hk'].
  { split; (eapply moves_keys; [|exact Ht]); intros o n ?%payout_move_facts; tauto. }
  split; parents; simpl; try done. split_and!; [by rewrite Hk|by rewrite Hk'|].
  eapply moves_Forall; [|exact Ht|done]. intros o n (_ & -> & -> & ?)%payout_move_facts. tauto.
Qed.

Lemma wf_step_entitlement r :
  entitlement_check r = true -> e_id r ∉ entitlement_keys db ->
  e_payment_hash r ∉ (e_payment_hash <$> entitlements db) ->
  e_payment_hash r ∈ invoice_keys db -> e_tokens_remaining r = e_tokens_total r ->
  db_wf (set_entitlements db (entitlements db ++ [r])).
Proof.
  destruct Hwf as [? ? ? ? ? (? & ? & ?) ? ?]. intros. split; parents; simpl; try done.
  - split_and!; [rewrite fmap_app; by apply NoDup_snoc..|].
    apply Forall_snoc; [done|]. split_and!; [done..|lia].
  - eapply wf_redemptions_mono; [|done]. apply wf_keys_snoc.
Qed.

Lemma wf_step_entitlement_move t :
  Forall2 entitlement_move (entitlements db) t -> db_wf (set_entitlements db t).
Proof.
  destruct Hwf as [? ? ? ? ? (? & ? & ?) ? ?]. intros Ht.
  assert (e_id <$> t = e_id <$> entitlements db /\
          e_payment_hash <$> t = e_payment_hash <$> entitlements db) as [Hk Hk'].
  { split; (eapply moves_keys; [|exact Ht]); intros o n ?%entitlement_move_facts; tauto. }
  split; parents; simpl; rewrite ?Hk; try done. split_and!; [by rewrite Hk|by rewrite Hk'|].
  eapply moves_Forall; [|exact Ht|done].
  intros o n (_ & -> & ? & ?)%entitlement_move_facts. tauto.
Qed.

Lemma ledger_step_wf db' : ledger_step db db' -> db_wf db'.
Proof.
  pose proof Hwf as [? ? ? ? ? ? ? ?].
  destruct 1; eauto using wf_step_invoice, wf_step_invoice_move, wf_step_ticket,
    wf_step_ticket_move, wf_step_settlement, wf_step_payout, wf_step_payout_move,
    wf_step_entitlement, wf_step_entitlement_move; split; try done; simpl.
  - by apply Forall_snoc.
  - unfold wf_spent. rewrite fmap_app. by apply NoDup_snoc.
  - destruct wf_red0 as [? ?]. split; [rewrite fmap_app; by apply NoDup_snoc|by apply Forall_snoc].
Qed.
End wf_step.

Lemma empty_db_wf : db_wf empty_db.
Proof. split; repeat split; simpl; constructor. Qed.

Lemma steps_wf db db' : rtc ledger_step db db' -> db_wf db -> db_wf db'.
Proof.
  induction 1 as [|x y z Hxy _ IH]; [done|]. intros. by apply IH, (ledger_step_wf x).
Qed.

Lemma run_op_wf o db : db_wf db -> db_wf (run_op o db).
Proof. apply steps_wf, run_op_steps. Qed.

(** C3: integrity. From an empty database every sequence of operations keeps
    primary keys unique, foreign keys valid, CHECKs true, the payout attempt
    count consistent with its status (never above three), a payment hash on
    exactly the paid payouts, and 0 <= tokens_remaining <= tokens_total. *)
Theorem ledger_integrity os : db_wf (run_ops os empty_db).
Proof.
  eapply steps_wf; [apply run_ops_steps|apply empty_db_wf].
Qed.

(** ** Single use *)
Definition spent_in (tok : string) (db : DB) : Prop := tok ∈ (st_token_id <$> spent_tokens db).

Lemma IsSpent_spec tok db : IsSpent tok db = true <-> spent_in tok db.
Proof.
  unfold IsSpent, spent_in. rewrite Z.ltb_lt.
  pose proof (sql_count_pos (fun r => String.eqb (st_token_id r) tok) (spent_tokens db)) as Hc.
  split.
  - intros ?. destruct (proj1 Hc) as (r & Hr & He); [lia|]. apply String.eqb_eq in He.
    apply list_elem_of_fmap. eauto.
  - intros (r & -> & Hr)%list_elem_of_fmap.
    enough (0 < sql_count (fun r0 => String.eqb (st_token_id r0) (st_token_id r)) (spent_tokens db))%nat by lia.
    apply sql_count_pos. exists r. by rewrite String.eqb_refl.
Qed.

(** /spend's primitive on both branches. *)
Lemma MarkSpent_spec now tok key node db :
  (spent_in tok db -> MarkSpent now tok key node db = (Ok false, db)) /\
  (~ spent_in tok db -> MarkSpent now tok key node db =
     (Ok true, set_spent_tokens db (spent_tokens db ++ [mkSpentToken tok key node now]))).
Proof.
  unfold MarkSpent. destruct (sql_insert_nothing _ _ _) as [t b] eqn:Hi.
  apply sql_insert_nothing_spec in Hi as [(-> & -> & Hn)|(-> & -> & r & Hr & Hc)].
  - split; [|done]. intros Hin. exfalso. revert Hin. unfold spent_in.
    change tok with (st_token_id (mkSpentToken tok key node now)).
    eapply no_clash_key; [|exact Hn]. apply clash_spent.
  - rewrite set_same_spent. split; [done|]. intros []. unfold spent_in.
    unfold spent_token_clash in Hc. apply String.eqb_eq in Hc. simpl in Hc. rewrite Hc.
    apply list_elem_of_fmap. eauto.
Qed.

Lemma insert_tickets_tx_tables now h ts db db' :
  insert_tickets_tx now h ts db = Ok db' -> exists t, db' = set_tickets db t.
Proof.
  revert db. induction ts as [|t ts IH]; simpl; intros db.
  - intros [= <-]. exists (tickets db). by rewrite set_same_tickets.
  - destruct (insert_ticket_row _ _ _ _ _ _) as [tab|]; [|done]. simpl.
    intros (u & ->)%IH. by exists u.
Qed.

(** Unfolds one operation down to the table it writes. *)
Ltac one_table :=
  repeat first
    [ progress unfold run_op, InsertInvoice, SettleInvoice, ExpireInvoice, InsertTicket, RedeemTicket,
        InsertUsageReport, InsertSettlementEntry, InsertPayout, MarkPayoutInFlight, MarkPayoutPaid,
        MarkPayoutFailed, MarkPayoutRetrying, update_payout, InsertCompensatingEntry,
        InsertEntitlement, ConsumeEntitlement, MarkSpent, InsertRedemption, SetNodeWallet,
        InsertWithdrawal, MarkWithdrawalPaid, MarkWithdrawalFailed, UpsertNodeLease,
        RevokeNodeLease, RenewNodeLease, update_lease
    | case_match ]; simpl; try done.

Lemma batch_tables now h ts db : exists t, (InsertTicketsBatch now h ts db).2 = set_tickets db t.
Proof.
  unfold InsertTicketsBatch. destruct (insert_tickets_tx _ _ _ _) eqn:Hi; simpl.
  - by eapply insert_tickets_tx_tables.
  - exists (tickets db). by rewrite set_same_tickets.
Qed.

Lemma spent_tokens_frame o db :
  match o with OMarkSpent _ _ _ _ => False | _ => True end ->
  spent_tokens (run_op o db) = spent_tokens db.
Proof.
  destruct o; try done; intros _; try solve [one_table].
  simpl. destruct (batch_tables now h ts db) as [t ->]. done.
Qed.

Lemma IsSpent_mono tok os db : IsSpent tok db = true -> IsSpent tok (run_ops os db) = true.
Proof.
  rewrite !IsSpent_spec. unfold spent_in. intros Hin.
  destruct (le_spt _ _ (steps_le _ _ (run_ops_steps os db))) as [l ->]. rewrite fmap_app. set_solver.
Qed.

Lemma first_spend_step tok o db :
  first_spend_at tok o db =
    if IsSpent tok db then 0%nat else if IsSpent tok (run_op o db) then 1%nat else 0%nat.
Proof.
  destruct o as [| | | | | | | | | | | | | | | |now t k n| | | | | | | |];
    try solve [ unfold IsSpent; rewrite spent_tokens_frame by done; simpl; by case_match ].
  simpl. destruct (MarkSpent_spec now t k n db) as [Hin Hout].
  destruct (IsSpent t db) eqn:Ht.
  - rewrite (Hin (proj1 (IsSpent_spec t db) Ht)). simpl. rewrite andb_false_r. by case_match.
  - assert (~ spent_in t db) as Hn by (rewrite <-IsSpent_spec; congruence).
    rewrite (Hout Hn). cbn [fst snd]. rewrite bool_decide_eq_true_2, andb_true_r by done.
    set (db' := set_spent_tokens _ _).
    assert (IsSpent tok db' = true <-> tok = t \/ IsSpent tok db = true) as Hdb'.
    { rewrite !IsSpent_spec. unfold spent_in, db'. simpl. rewrite fmap_app. set_solver. }
    destruct (String.eqb_spec t tok) as [->|Hne].
    + rewrite Ht. by rewrite (proj2 Hdb') by auto.
    + destruct (IsSpent tok db) eqn:?; [done|].
      destruct (IsSpent tok db') eqn:?; [|done]. destruct (proj1 Hdb'); congruence.
Qed.

(** C4: a token is spent for the first time at most once along any sequence of
    store operations, and exactly when it goes from unspent to spent. *)
Theorem first_spend_exactly_once tok os db :
  first_spends tok os db =
    if IsSpent tok db then 0%nat else if IsSpent tok (run_ops os db) then 1%nat else 0%nat.
Proof.
  revert db. induction os as [|o os IH]; intros db; simpl; [by destruct (IsSpent tok db)|].
  rewrite IH, first_spend_step.
  pose proof (IsSpent_mono tok [o] db) as H1. simpl in H1.
  pose proof (IsSpent_mono tok os (run_op o db)) as H2.
  fold (run_ops os (run_op o db)).
  destruct (IsSpent tok db); [by rewrite H1|].
  destruct (IsSpent tok (run_op o db)); [by rewrite H2|done].
Qed.

(** ** Tickets *)

(** A ticket no operation can redeem (again). *)
Definition ticket_done (id : string) (db : DB) : Prop :=
  id ∈ ticket_keys db /\ forall r, r ∈ tickets db -> t_id r = id -> t_status r = TRedeemed.

Lemma RedeemTicket_done now id by_ db :
  (RedeemTicket now id by_ db).1 = Ok tt -> ticket_done id (RedeemTicket now id by_ db).2.
Proof.
  unfold RedeemTicket.
  destruct (sql_update _ _ _ _ _) as [t [n|e]] eqn:Hu; simpl; [|done].
  apply sql_update_Ok in Hu as [-> ->]. intros Hn.
  assert (0 < sql_count (active_ticket id) (tickets db))%nat as Hc.
  { destruct (sql_count _ _); [done|lia]. }
  apply sql_count_pos in Hc as (r & Hr & Ha). unfold ticket_done, ticket_keys. simpl. split.
  - apply list_elem_of_fmap. exists (redeem_row now by_ r). split.
    + unfold active_ticket in Ha. bprop. done.
    + apply list_elem_of_fmap. exists r. by rewrite Ha.
  - intros r' (r0 & -> & Hr0)%list_elem_of_fmap Hid.
    destruct (active_ticket id r0) eqn:Ha0; [done|].
    unfold active_ticket in Ha0. rewrite Hid, String.eqb_refl in Ha0. simpl in Ha0. bprop.
    by destruct (t_status r0).
Qed.

Lemma RedeemTicket_refused now id by_ db :
  ticket_done id db -> (RedeemTicket now id by_ db).1 = Err ErrTicketNotActive.
Proof.
  intros [_ Hd]. unfold RedeemTicket.
  rewrite sql_update_none; [done|].
  destruct (sql_count _ _) eqn:Hc; [done|].
  destruct (proj1 (sql_count_pos (active_ticket id) (tickets db))) as (r & Hr & Ha); [lia|].
  unfold active_ticket in Ha. bprop. rewrite Hd in * by done. done.
Qed.

Lemma ticket_done_step id db db' : ledger_step db db' -> ticket_done id db -> ticket_done id db'.
Proof.
  intros Hs [Hin Hd]. destruct Hs; try done; unfold ticket_done, ticket_keys in *; simpl.
  - rewrite fmap_app. split; [set_solver|]. intros r' Hr' Hid.
    apply elem_of_app in Hr' as [Hr'|Hr']; [auto|].
    apply list_elem_of_singleton in Hr' as ->. by subst id.
  - assert (t_id <$> t = t_id <$> tickets db) as ->.
    { eapply moves_keys; [|done]. intros o n ?%ticket_move_facts. tauto. }
    split; [done|]. intros r' Hr' Hid.
    apply list_elem_of_lookup in Hr' as [i Hi].
    eapply Forall2_lookup_r in Hi as (r & Hr & Hm); [|done].
    assert (t_status r = TRedeemed) as Hst.
    { apply Hd; [by eapply list_elem_of_lookup_2|]. apply ticket_move_facts in Hm. naive_solver. }
    destruct Hm; [done|congruence].
Qed.

Lemma ticket_done_op id o db : ticket_done id db -> ticket_done id (run_op o db).
Proof.
  intros H. revert H. generalize (run_op_steps o db).
  induction 1; [done|]. eauto using ticket_done_step.
Qed.

Lemma redemptions_of_done id os db : ticket_done id db -> redemptions_of id os db = 0%nat.
Proof.
  revert db. induction os as [|o os IH]; intros db Hd; simpl; [done|].
  rewrite IH by by apply ticket_done_op. rewrite Nat.add_0_r.
  destruct o; try done. simpl. destruct (String.eqb_spec id0 id) as [->|]; [|done].
  by rewrite RedeemTicket_refused.
Qed.

(** A ticket is redeemed at most once along any sequence of operations. *)
Theorem ticket_single_use id os db : (redemptions_of id os db <= 1)%nat.
Proof.
  revert db. induction os as [|o os IH]; intros db; simpl; [lia|].
  destruct (redeemed_at id o db) eqn:Hr; [apply IH|].
  rewrite redemptions_of_done.
  - unfold redeemed_at in Hr. repeat case_match; lia.
  - destruct o; try done. simpl in Hr. destruct (String.eqb_spec id0 id) as [->|]; [|done].
    simpl in Hr. case_bool_decide; [|done]. by apply RedeemTicket_done.
Qed.

(** ** Entitlements *)

Lemma find_fmap {R} (p : R -> bool) (f : R -> R) t :
  (forall r, p (f r) = p r) -> sql_find p (f <$> t) = f <$> sql_find p t.
Proof.
  intros Hp. induction t as [|r t IH]; [done|]. unfold sql_find in *. csimpl.
  rewrite Hp. by destruct (p r).
Qed.

Lemma find_snoc {R} (p : R -> bool) t r x :
  sql_find p t = Some x -> sql_find p (t ++ [r]) = Some x.
Proof.
  unfold sql_find. induction t as [|y t IH]; simpl; [done|]. by destruct (p y).
Qed.

Lemma find_key {R} (key : R -> string) k t :
  k ∈ (key <$> t) -> exists r, sql_find (fun r => String.eqb (key r) k) t = Some r.
Proof.
  intros (r & -> & Hr)%list_elem_of_fmap.
  destruct (sql_find _ t) eqn:Hf; [eauto|].
  eapply sql_find_None in Hf; [|exact Hr]. by rewrite String.eqb_refl in Hf.
Qed.

(** Rows with a unique key: the row found is the only one with that key. *)
Lemma unique_key {R K} (key : R -> K) t r r' :
  NoDup (key <$> t) -> r ∈ t -> r' ∈ t -> key r = key r' -> r = r'.
Proof.
  induction t as [|x t IH]; intros Hnd Hr Hr' Hk; [by apply not_elem_of_nil in Hr|].
  csimpl in *. apply NoDup_cons in Hnd as [Hx Hnd].
  apply elem_of_cons in Hr as [->|Hr], Hr' as [->|Hr']; auto.
  - destruct Hx. rewrite Hk. by apply list_elem_of_fmap_2.
  - destruct Hx. rewrite <-Hk. by apply list_elem_of_fmap_2.
Qed.

Lemma ConsumeEntitlement_map id n db :
  Forall (fun r => entitlement_check r = true) (entitlements db) -> 0 <= n ->
  ConsumeEntitlement id n db =
    (if decide (sql_count (entitlement_with id n) (entitlements db) = 0%nat)
     then Err ErrInsufficientEntitlement else Ok tt,
     set_entitlements db ((fun r => if entitlement_with id n r then consume_row n r else r)
                            <$> entitlements db)).
Proof.
  intros Hchk Hn. unfold ConsumeEntitlement. rewrite sql_update_map.
  - by destruct (sql_count _ _).
  - intros r Hr Hp. rewrite Forall_forall in Hchk. specialize (Hchk r Hr).
    unfold entitlement_with, entitlement_check, entitlement_trig in *. bprop. simpl.
    rewrite !String.eqb_refl, !Z.eqb_refl. split; [done|].
    rewrite !andb_true_iff, Z.leb_le, !Z.ltb_lt. lia.
Qed.

(** /redeem's primitive: enough tokens left, they are taken; otherwise refused
    and nothing changes. *)
Lemma ConsumeEntitlement_spec id n db r :
  db_wf db -> 0 <= n -> sql_find (ent_is id) (entitlements db) = Some r ->
  (ConsumeEntitlement id n db).1 =
    (if n <=? e_tokens_remaining r then Ok tt else Err ErrInsufficientEntitlement) /\
  sql_find (ent_is id) (entitlements (ConsumeEntitlement id n db).2) =
    Some (if n <=? e_tokens_remaining r then consume_row n r else r).
Proof.
  intros [_ _ _ _ _ (Hnd & _ & Hall) _ _] Hn Hf. pose proof (sql_find_Some _ _ _ Hf) as [Hr Hid].
  rewrite ConsumeEntitlement_map; [|eapply Forall_impl; [exact Hall|naive_solver]|done].
  unfold ent_is in Hid. cbn [fst snd]. split.
  - destruct (sql_count _ _) eqn:Hc; simpl.
    + destruct (Z.leb_spec n (e_tokens_remaining r)); [|done].
      assert (0 < sql_count (entitlement_with id n) (entitlements db))%nat; [|lia].
      apply sql_count_pos. exists r. split; [done|]. unfold entitlement_with.
      rewrite Hid. by apply Z.leb_le.
    + destruct (proj1 (sql_count_pos (entitlement_with id n) (entitlements db))) as (r' & Hr' & Hp); [lia|].
      unfold entitlement_with in Hp. bprop.
      assert (r' = r) as -> by (eapply (unique_key e_id); eauto; congruence).
      by rewrite (proj2 (Z.leb_le _ _)).
  - simpl. rewrite find_fmap, Hf; [|intros r0; by case_match]. simpl. f_equal.
    unfold entitlement_with. rewrite Hid. simpl. by destruct (n <=? e_tokens_remaining r).
Qed.

Lemma entitlements_frame o db :
  match o with OConsumeEntitlement _ _ | OInsertEntitlement _ _ _ _ _ _ => False | _ => True end ->
  entitlements (run_op o db) = entitlements db.
Proof.
  destruct o; try done; intros _; try solve [one_table].
  simpl. destruct (batch_tables now h ts db) as [t ->]. done.
Qed.

Lemma consume_step id o db r :
  db_wf db -> sql_find (ent_is id) (entitlements db) = Some r ->
  consumed_at id o db + remaining_of id (run_op o db) = e_tokens_remaining r /\
  exists r', sql_find (ent_is id) (entitlements (run_op o db)) = Some r' /\
             0 <= e_tokens_remaining r' <= e_tokens_remaining r.
Proof.
  intros Hwf Hf. unfold remaining_of.
  assert (0 <= e_tokens_remaining r) as Hpos.
  { destruct Hwf as [_ _ _ _ _ (_ & _ & Hall) _ _]. rewrite Forall_forall in Hall.
    destruct (Hall r (proj1 (sql_find_Some _ _ _ Hf))) as [Hc _].
    unfold entitlement_check in Hc. bprop. done. }
  destruct o as [| | | | | | | | | | | | | |now i h tot bpt key|i n| | | | | | | | |];
    try solve [ rewrite entitlements_frame, Hf by done; simpl; split; [lia|eexists; split; [done|lia]] ].
  - cbn [run_op consumed_at]. unfold InsertEntitlement.
    destruct (exec_insert _ _) as [res t] eqn:Hi. cbn [snd].
    assert (sql_find (ent_is id) t = Some r) as Hf'.
    { apply exec_insert_cases in Hi as [[-> _]|(_ & -> & _)]; [done|by apply find_snoc]. }
    simpl. rewrite Hf'. split; [lia|]. eexists; split; [done|lia].
  - cbn [run_op consumed_at]. destruct (String.eqb_spec i id) as [->|Hne]; cbn [andb].
    + destruct (ConsumeEntitlement_spec id (Z.of_nat n) db r) as [Hres Hfind]; [done|lia|done|].
      rewrite Hres, Hfind. destruct (Z.leb_spec (Z.of_nat n) (e_tokens_remaining r)); simpl.
      * split; [lia|]. eexists; split; [done|]. simpl. lia.
      * split; [lia|]. eexists; split; [done|lia].
    + rewrite ConsumeEntitlement_map; [| |lia].
      * simpl. rewrite find_fmap, Hf by (intros; by case_match). simpl.
        unfold entitlement_with. apply sql_find_Some in Hf as [_ Hid].
        unfold ent_is in Hid. bprop. rewrite (proj2 (String.eqb_neq _ _)) by congruence. simpl.
        split; [lia|]. eexists; split; [done|lia].
      * destruct Hwf as [_ _ _ _ _ (_ & _ & Hall) _ _]. eapply Forall_impl; [exact Hall|naive_solver].
Qed.

(** C5: conservation. Along any sequence of operations the tokens successfully
    taken from an entitlement and those remaining add up to what it had; it is
    never overdrawn. *)
Theorem entitlement_conserved id os db
    (Hwf : db_wf db) (Hin : id ∈ entitlement_keys db) :
  consumed id os db + remaining_of id (run_ops os db) = remaining_of id db /\
  0 <= remaining_of id (run_ops os db).
Proof.
  destruct (find_key e_id id _ Hin) as [r Hf]. clear Hin.
  change (sql_find (ent_is id) (entitlements db) = Some r) in Hf.
  revert db r Hwf Hf. induction os as [|o os IH]; intros db r Hwf Hf.
  - simpl. split; [lia|]. unfold remaining_of. rewrite Hf.
    destruct (consume_step id (OExpireInvoice "") db r Hwf Hf) as [? (r' & Hr' & ?)].
    rewrite entitlements_frame in Hr' by done. simplify_eq. lia.
  - destruct (consume_step id o db r Hwf Hf) as [Heq (r' & Hr' & ?)].
    assert (db_wf (run_op o db)) as Hwf'.
    { by eapply steps_wf; [apply run_op_steps|]. }
    destruct (IH _ r' Hwf' Hr') as [IH1 IH2]. simpl. split; [|done].
    fold (run_ops os (run_op o db)) in *.
    assert (remaining_of id db = e_tokens_remaining r) by (unfold remaining_of; by rewrite Hf). lia.
Qed.

(** A database with one settled invoice and an entitlement of five tokens. *)
Definition demo_entitled : DB :=
  run_ops [ OInsertInvoice "t0" "ph" "lnbc1" 500 "1gb" 1000000000 "t1" "1.2.3.4";
            OSettleInvoice "t0" "ph";
            OInsertEntitlement "t0" "ent" "ph" 5 100000000 "key-1" ] empty_db.

Lemma entitlement_conserved_witness :
  let os := [OConsumeEntitlement "ent" 3; OConsumeEntitlement "ent" 3; OConsumeEntitlement "ent" 1] in
  consumed "ent" os demo_entitled = 4 /\ remaining_of "ent" demo_entitled = 5 /\
  consumed "ent" os demo_entitled + remaining_of "ent" (run_ops os demo_entitled)
    = remaining_of "ent" demo_entitled.
Proof.
  cbv zeta. split_and!; [vm_compute; reflexivity..|].
  apply (entitlement_conserved "ent").
  - apply (steps_wf empty_db); [apply run_ops_steps|apply empty_db_wf].
  - vm_compute. left.
Defined.

(** ** Settling an invoice, branch by branch *)
Lemma open_invoice_none h t :
  (forall r, r ∈ t -> hash_is h r = true -> i_status r <> InvOpen) ->
  sql_count (open_invoice h) t = 0%nat.
Proof.
  intros Hno. destruct (sql_count _ _) eqn:Hc; [done|].
  destruct (proj1 (sql_count_pos (open_invoice h) t)) as (r & Hr & Hp); [lia|].
  unfold open_invoice in Hp. bprop. by destruct (Hno r).
Qed.

Lemma settle_row_passes now r :
  invoice_check r = true -> i_status r = InvOpen ->
  invoice_trig r (settle_row now r) = false /\ invoice_check (settle_row now r) = true.
Proof.
  intros Hc Ho. split; [|exact Hc].
  unfold invoice_trig, invoices_immutable_fields, invoices_forward_transition. simpl.
  by rewrite Ho, !String.eqb_refl, !Z.eqb_refl.
Qed.

Lemma SettleInvoice_cases now h db (Hwf : db_wf db) :
  match sql_find (hash_is h) (invoices db) with
  | None => SettleInvoice now h db = (Err ErrInvoiceNotFound, db)
  | Some r =>
      match i_status r with
      | InvOpen =>
          (SettleInvoice now h db).1 = Ok tt /\
          sql_find (hash_is h) (invoices (SettleInvoice now h db).2) = Some (settle_row now r) /\
          (SettleInvoice now h db).2 =
            set_invoices db ((fun x => if hash_is h x then settle_row now x else x) <$> invoices db)
      | InvSettled => SettleInvoice now h db = (Ok tt, db)
      | InvExpired => SettleInvoice now h db = (Err (ErrInvoiceState InvExpired), db)
      end
  end.
Proof.
  destruct Hwf as [(Hnd & Hchk) _ _ _ _ _ _ _].
  unfold SettleInvoice.
  destruct (sql_find (hash_is h) (invoices db)) as [r|] eqn:Hf.
  - pose proof (sql_find_Some _ _ _ Hf) as [Hr Hh].
    assert (forall r', r' ∈ invoices db -> hash_is h r' = true -> r' = r) as Huniq.
    { unfold hash_is in *. intros r' Hr' Hh'. bprop.
      eapply (unique_key i_payment_hash); eauto. congruence. }
    destruct (i_status r) eqn:Hst.
    + rewrite sql_update_map.
      * assert (0 < sql_count (open_invoice h) (invoices db))%nat as Hpos.
        { apply sql_count_pos. exists r. split; [done|]. unfold open_invoice. by rewrite Hh, Hst. }
        destruct (sql_count _ _); [lia|]. simpl. split; [done|].
        assert ((fun r0 => if open_invoice h r0 then settle_row now r0 else r0) <$> invoices db
                = (fun x => if hash_is h x then settle_row now x else x) <$> invoices db) as ->.
        { apply list_fmap_ext. intros i x Hx. unfold open_invoice.
          destruct (hash_is h x) eqn:Hhx; [|done].
          rewrite (Huniq x), Hst; [done|by eapply list_elem_of_lookup_2|done]. }
        split; [|done]. rewrite find_fmap, Hf; [simpl; by rewrite Hh|].
        intros x. by destruct (hash_is h x) eqn:Hhx; rewrite ?Hhx.
      * intros x Hx Hp. unfold open_invoice in Hp. bprop.
        apply settle_row_passes; [|done]. rewrite Forall_forall in Hchk. by apply Hchk.
    + rewrite sql_update_none, Hf, Hst, set_same_invoices; [done|].
      apply open_invoice_none. intros x Hx Hhx. rewrite (Huniq x); congruence.
    + rewrite sql_update_none, Hf, Hst, set_same_invoices; [done|].
      apply open_invoice_none. intros x Hx Hhx. rewrite (Huniq x); congruence.
  - rewrite sql_update_none, Hf, set_same_invoices; [done|].
    apply open_invoice_none. intros x Hx Hhx.
    eapply sql_find_None in Hf; [|done]. congruence.
Qed.

(** SettleInvoice on every branch. An open invoice becomes settled and
    nothing else in the database changes; a settled one is accepted again
    without a write (listener replays are idempotent); an expired or unknown
    one is refused without a write. *)
Theorem settle_invoice_branches now h db (Hwf : db_wf db) :
  match sql_find (hash_is h) (invoices db) with
  | None => SettleInvoice now h db = (Err ErrInvoiceNotFound, db)
  | Some r =>
      match i_status r with
      | InvOpen =>
          (SettleInvoice now h db).1 = Ok tt /\
          sql_find (hash_is h) (invoices (SettleInvoice now h db).2) = Some (settle_row now r) /\
          (SettleInvoice now h db).2 =
            set_invoices db ((fun x => if hash_is h x then settle_row now x else x) <$> invoices db)
      | InvSettled => SettleInvoice now h db = (Ok tt, db)
      | InvExpired => SettleInvoice now h db = (Err (ErrInvoiceState InvExpired), db)
      end
  end.
Proof. by apply SettleInvoice_cases. Qed.

Lemma settle_invoice_branches_witness :
  db_wf demo_entitled /\ SettleInvoice "t9" "ph" demo_entitled = (Ok tt, demo_entitled).
Proof.
  assert (db_wf demo_entitled) as Hwf.
  { apply (steps_wf empty_db); [apply run_ops_steps|apply empty_db_wf]. }
  split; [exact Hwf|]. exact (settle_invoice_branches "t9" "ph" demo_entitled Hwf).
Defined.

(** ** Inserting a batch of tickets *)
Definition ticket_row (now h : string) (t : Ticket) : TicketRow :=
  mkTicket (tk_ID t) h (tk_Bytes t) (tk_MAC t) TActive now None None.

(** The batch violates no constraint. *)
Definition batch_fits (h : string) (ts : list Ticket) (db : DB) : Prop :=
  (ts = [] \/ h ∈ invoice_keys db) /\ Forall (fun t => 0 < tk_Bytes t) ts /\
  NoDup (tk_ID <$> ts) /\ Forall (fun t => tk_ID t ∉ ticket_keys db) ts.

Lemma insert_ticket_row_cases now id h bytes mac db :
  match insert_ticket_row now id h bytes mac db with
  | Ok t => t = tickets db ++ [mkTicket id h bytes mac TActive now None None] /\
            0 < bytes /\ id ∉ ticket_keys db /\ h ∈ invoice_keys db
  | Err _ => ~ (0 < bytes /\ id ∉ ticket_keys db /\ h ∈ invoice_keys db)
  end.
Proof.
  unfold insert_ticket_row, sql_insert, ticket_check. cbn [t_bytes_value].
  destruct (Z.ltb_spec 0 bytes); simpl; [|lia].
  destruct (existsb _ (tickets db)) eqn:Hc.
  - apply existsb_exists in Hc as (r & Hr & Heq). unfold ticket_clash in Heq. simpl in Heq. bprop.
    intros (_ & Hn & _). apply Hn. subst. apply list_elem_of_fmap_2. by apply list_elem_of_In.
  - unfold ticket_fk. simpl. destruct (existsb _ (invoices db)) eqn:Hfk; simpl.
    + split_and!; [done|done| |].
      * intros (r & -> & Hr)%list_elem_of_fmap.
        assert (existsb (ticket_clash (mkTicket (t_id r) h bytes mac TActive now None None))
                  (tickets db) = true) as Ht; [|congruence].
        apply existsb_exists. exists r. rewrite <-list_elem_of_In. split; [done|].
        apply String.eqb_refl.
      * apply existsb_exists in Hfk as (r & Hr%list_elem_of_In & Heq). unfold hash_is in Heq. simpl in Heq. bprop.
        subst. by apply list_elem_of_fmap_2.
    + intros (_ & _ & (r & -> & Hr)%list_elem_of_fmap).
      assert (existsb (hash_is (i_payment_hash r)) (invoices db) = true)
        as Ht; [|congruence].
      apply existsb_exists. exists r. rewrite <-list_elem_of_In. split; [done|].
      apply String.eqb_refl.
Qed.

Lemma insert_tickets_tx_cases now h ts db :
  match insert_tickets_tx now h ts db with
  | Ok db' => batch_fits h ts db /\ db' = set_tickets db (tickets db ++ (ticket_row now h <$> ts))
  | Err _ => ~ batch_fits h ts db
  end.
Proof.
  revert db. induction ts as [|t ts IH]; intros db; simpl.
  { split; [split; [by left|repeat constructor]|]. rewrite app_nil_r. by destruct db. }
  pose proof (insert_ticket_row_cases now (tk_ID t) h (tk_Bytes t) (tk_MAC t) db) as Hrow.
  destruct (insert_ticket_row _ _ _ _ _ _) as [tab|e]; cbn [mbind result_mbind].
  - destruct Hrow as (-> & Hpos & Hfresh & Hfk). set (db1 := set_tickets db _).
    specialize (IH db1).
    assert (batch_fits h (t :: ts) db <-> batch_fits h ts db1) as Heq.
    { unfold batch_fits, db1, ticket_keys, invoice_keys. simpl. rewrite fmap_app, !Forall_cons, NoDup_cons.
      rewrite !Forall_forall. setoid_rewrite elem_of_app. setoid_rewrite list_elem_of_singleton.
      split.
      - intros (_ & [_ Hp] & [Hd Hnd] & [_ Hf]). split_and!; auto. intros x Hx [?|Hx'].
        + by apply (Hf x).
        + apply Hd. simpl in Hx'. rewrite <-Hx'. by apply list_elem_of_fmap_2.
      - intros (_ & Hp & Hnd & Hf). split_and!; auto.
        + intros (x & Hx & Hin)%list_elem_of_fmap. apply (Hf x Hin). right. done.
        + intros x Hx ?. apply (Hf x Hx). by left. }
    destruct (insert_tickets_tx now h ts db1) as [db'|e]; [|by rewrite Heq].
    destruct IH as [Hb ->]. split; [by apply Heq|]. unfold db1. simpl.
    by rewrite <-app_assoc.
  - intros ([?|Hfk] & Hpos & _ & Hfresh); [done|]. apply Hrow.
    apply Forall_cons in Hpos as [? _], Hfresh as [? _]. done.
Qed.

(** The ticket batch is one transaction: either every ticket of the batch is
    stored, in order and active, or the database is untouched; it succeeds
    exactly when the invoice exists, every ticket is worth something and no ID
    is repeated or already stored. *)
Theorem insert_tickets_all_or_nothing now h ts db :
  let '(res, db') := InsertTicketsBatch now h ts db in
  (res = Ok tt <-> batch_fits h ts db) /\
  db' = match res with
        | Ok _ => set_tickets db (tickets db ++ (ticket_row now h <$> ts))
        | Err _ => db
        end.
Proof.
  unfold InsertTicketsBatch. pose proof (insert_tickets_tx_cases now h ts db) as Hc.
  destruct (insert_tickets_tx now h ts db) as [db'|e]; simpl; [|done].
  destruct Hc as [? ->]. done.
Qed.
