(* ===== verification/StoreSpec.v ===== *)
(** * StoreSpec: what each call of the store promises, over finite maps

    [Spec] is the ledger as a finite map per table, keyed by the table's
    primary key: no row order, no SQL. [spec_post] gives for every mutating
    call, from its arguments and the maps before, which answer it makes and
    which map it changes at which key: a call succeeds exactly when its
    constraints hold, changes the row it names and no other, and a refused
    call changes nothing. [store_refines_spec] is the refinement: every call on
    a database whose keys are unique answers and acts as [spec_post] says,
    keeps the keys unique, and so every history from the empty database is a
    history of the specification. *)
From S2P Require Import Prelude Sql Schema Credentials Repository Ledger.

(** ** The abstract state *)
Record Spec := mkSpec {
  a_invoices : gmap string InvoiceRow;
  a_tickets : gmap string TicketRow;
  a_usage : gmap Z UsageRow;
  a_settlements : gmap Z SettlementRow;
  a_payouts : gmap Z PayoutRow;
  a_comps : gmap Z CompRow;
  a_ents : gmap string EntitlementRow;
  a_spent : gmap string SpentTokenRow;
  a_reds : gmap string RedemptionRow;
  a_leases : gmap string LeaseRow;
  a_wallets : gmap string WalletRow;
  a_wds : gmap Z WithdrawalRow
}.

Definition with_invoices (S : Spec) m := mkSpec m (a_tickets S) (a_usage S) (a_settlements S)
  (a_payouts S) (a_comps S) (a_ents S) (a_spent S) (a_reds S) (a_leases S) (a_wallets S) (a_wds S).
Definition with_tickets (S : Spec) m := mkSpec (a_invoices S) m (a_usage S) (a_settlements S)
  (a_payouts S) (a_comps S) (a_ents S) (a_spent S) (a_reds S) (a_leases S) (a_wallets S) (a_wds S).
Definition with_usage (S : Spec) m := mkSpec (a_invoices S) (a_tickets S) m (a_settlements S)
  (a_payouts S) (a_comps S) (a_ents S) (a_spent S) (a_reds S) (a_leases S) (a_wallets S) (a_wds S).
Definition with_settlements (S : Spec) m := mkSpec (a_invoices S) (a_tickets S) (a_usage S) m
  (a_payouts S) (a_comps S) (a_ents S) (a_spent S) (a_reds S) (a_leases S) (a_wallets S) (a_wds S).
Definition with_payouts (S : Spec) m := mkSpec (a_invoices S) (a_tickets S) (a_usage S)
  (a_settlements S) m (a_comps S) (a_ents S) (a_spent S) (a_reds S) (a_leases S) (a_wallets S) (a_wds S).
Definition with_comps (S : Spec) m := mkSpec (a_invoices S) (a_tickets S) (a_usage S)
  (a_settlements S) (a_payouts S) m (a_ents S) (a_spent S) (a_reds S) (a_leases S) (a_wallets S) (a_wds S).
Definition with_ents (S : Spec) m := mkSpec (a_invoices S) (a_tickets S) (a_usage S)
  (a_settlements S) (a_payouts S) (a_comps S) m (a_spent S) (a_reds S) (a_leases S) (a_wallets S) (a_wds S).
Definition with_spent (S : Spec) m := mkSpec (a_invoices S) (a_tickets S) (a_usage S)
  (a_settlements S) (a_payouts S) (a_comps S) (a_ents S) m (a_reds S) (a_leases S) (a_wallets S) (a_wds S).
Definition with_reds (S : Spec) m := mkSpec (a_invoices S) (a_tickets S) (a_usage S)
  (a_settlements S) (a_payouts S) (a_comps S) (a_ents S) (a_spent S) m (a_leases S) (a_wallets S) (a_wds S).
Definition with_leases (S : Spec) m := mkSpec (a_invoices S) (a_tickets S) (a_usage S)
  (a_settlements S) (a_payouts S) (a_comps S) (a_ents S) (a_spent S) (a_reds S) m (a_wallets S) (a_wds S).
Definition with_wallets (S : Spec) m := mkSpec (a_invoices S) (a_tickets S) (a_usage S)
  (a_settlements S) (a_payouts S) (a_comps S) (a_ents S) (a_spent S) (a_reds S) (a_leases S) m (a_wds S).
Definition with_wds (S : Spec) m := mkSpec (a_invoices S) (a_tickets S) (a_usage S)
  (a_settlements S) (a_payouts S) (a_comps S) (a_ents S) (a_spent S) (a_reds S) (a_leases S) (a_wallets S) m.

(** ** Calls and answers

    [op] has every mutating method; ConsumeEntitlement takes an int, of which
    [op] has the counts its only caller passes (a length), so [call] adds the
    rest. *)
Inductive call :=
| CStore (o : op)
| CConsume (id : string) (count : Z).

Inductive answer :=
| ADone (r : outcome unit)
| AFlag (r : outcome bool)
| AId (r : outcome Z).

(** ** Shapes the methods share *)

(** An INSERT: the row is stored when it fits, and otherwise the database's
    error is returned and nothing changes. *)
Definition inserts (S : Spec) (fits : Prop) (done : answer) (S1 : Spec)
    (refused : sql_error -> answer) (a : answer) (S' : Spec) : Prop :=
  (fits /\ a = done /\ S' = S1) \/ (~ fits /\ (exists e, a = refused e) /\ S' = S).
Definition db_error (e : sql_error) : answer := ADone (Err (DbErr e)).

(** An UPDATE of the row of one key when it satisfies the guard; otherwise the
    method's own error and no change. *)
Definition updates {K R} `{Countable K} (S : Spec) (m : gmap K R) (k : K) (guard : R -> Prop) (f : R -> R)
    (put : gmap K R -> Spec) (none : answer) (a : answer) (S' : Spec) : Prop :=
  (exists r, m !! k = Some r /\ guard r /\ a = ADone (Ok tt) /\ S' = put (<[k := f r]> m)) \/
  ((forall r, m !! k = Some r -> ~ guard r) /\ a = none /\ S' = S).

(** AUTOINCREMENT: above every id there is. *)
Definition newer (id : Z) (ids : Z -> Prop) : Prop := 0 < id /\ forall i, ids i -> i < id.
Definition keys_of {R} (m : gmap Z R) (i : Z) : Prop := is_Some (m !! i).

Definition consume_post (id : string) (count : Z) (S : Spec) (a : answer) (S' : Spec) : Prop :=
  updates S (a_ents S) id (fun r => count <= e_tokens_remaining r) (consume_row count)
    (with_ents S) (ADone (Err ErrInsufficientEntitlement)) a S'.

Definition lease_row (now : string) (l : NodeLease) : LeaseRow :=
  mkLease (nl_NodePubkey l) (nl_NodeWGPubkey l) (nl_OperatorID l) (join "," (nl_AllowedRoles l))
    (unix (nl_LeaseStart l)) (unix (nl_LeaseEnd l)) false now.

(** ** The specification of every call

    Left open: the result of a ConsumeEntitlement whose difference leaves 64
    bits, which SQLite would store as a REAL. *)
Definition op_post (o : op) (S : Spec) (a : answer) (S' : Spec) : Prop :=
  match o with
  | OInsertInvoice now h req amt tier bytes ex ip =>
      exists id, newer id (fun i => exists k r, a_invoices S !! k = Some r /\ i_id r = i) /\
      inserts S (0 < amt /\ 0 < bytes /\ a_invoices S !! h = None) (ADone (Ok tt))
        (with_invoices S (<[h := mkInvoice id h req amt tier bytes InvOpen now None ex ip]> (a_invoices S)))
        db_error a S'
  | OSettleInvoice now h =>
      match a_invoices S !! h with
      | None => a = ADone (Err ErrInvoiceNotFound) /\ S' = S
      | Some r =>
          match i_status r with
          | InvOpen => a = ADone (Ok tt) /\
              S' = with_invoices S (<[h := settle_row now r]> (a_invoices S))
          | InvSettled => a = ADone (Ok tt) /\ S' = S
          | InvExpired => a = ADone (Err (ErrInvoiceState InvExpired)) /\ S' = S
          end
      end
  | OExpireInvoice h =>
      updates S (a_invoices S) h (fun r => i_status r = InvOpen) expire_row (with_invoices S)
        (ADone (Err ErrInvoiceNotOpen)) a S'
  | OInsertTicket now id h bytes mac =>
      inserts S (0 < bytes /\ a_tickets S !! id = None /\ is_Some (a_invoices S !! h)) (ADone (Ok tt))
        (with_tickets S (<[id := mkTicket id h bytes mac TActive now None None]> (a_tickets S)))
        db_error a S'
  | OInsertTicketsBatch now h ts =>
      inserts S ((ts = [] \/ is_Some (a_invoices S !! h)) /\ Forall (fun t => 0 < tk_Bytes t) ts /\
                 NoDup (tk_ID <$> ts) /\ Forall (fun t => a_tickets S !! tk_ID t = None) ts)
        (ADone (Ok tt))
        (with_tickets S (foldl (fun m t => <[tk_ID t := ticket_row now h t]> m) (a_tickets S) ts))
        db_error a S'
  | ORedeemTicket now id by_ =>
      updates S (a_tickets S) id (fun r => t_status r = TActive) (redeem_row now by_) (with_tickets S)
        (ADone (Err ErrTicketNotActive)) a S'
  | OInsertUsageReport now s t n role b at_ sig =>
      exists id, newer id (keys_of (a_usage S)) /\
      inserts S ((role = "entry" \/ role = "exit")%string /\ 0 <= b /\ is_Some (a_tickets S !! t)) (ADone (Ok tt))
        (with_usage S (<[id := mkUsage id s t n role b at_ sig now]> (a_usage S))) db_error a S'
  | OInsertSettlementEntry now p n bb s eb xb k =>
      exists id, newer id (keys_of (a_settlements S)) /\
      let fits := 0 <= bb /\ 0 <= s /\
        forall i r, a_settlements S !! i = Some r -> (s_period r, s_node_pubkey r) <> (p, n) in
      (fits /\ a = AFlag (Ok true) /\
       S' = with_settlements S (<[id := mkSettlement id p n bb s eb xb k now]> (a_settlements S))) \/
      (~ fits /\ a = AFlag (Ok false) /\ S' = S)
  | OInsertPayout now e n s =>
      exists id, newer id (keys_of (a_payouts S)) /\
      inserts S (0 < s /\ is_Some (a_settlements S !! e) /\
                 forall i r, a_payouts S !! i = Some r -> p_entry_id r <> e) (AId (Ok id))
        (with_payouts S (<[id := mkPayout id e n s PPending None 0 None now now]> (a_payouts S)))
        (fun e => AId (Err (DbErr e))) a S'
  | OMarkPayoutInFlight now id =>
      updates S (a_payouts S) id (fun r => p_status r = PPending \/ p_status r = PRetrying)
        (fun r => set_payout now PInFlight (p_payment_hash r) (p_attempt_count r) (p_last_error r) r)
        (with_payouts S) (ADone (Err (ErrPayoutTransition PInFlight))) a S'
  | OMarkPayoutPaid now id h =>
      updates S (a_payouts S) id (fun r => p_status r = PInFlight)
        (fun r => set_payout now PPaid (Some h) (p_attempt_count r) (p_last_error r) r)
        (with_payouts S) (ADone (Err (ErrPayoutTransition PPaid))) a S'
  | OMarkPayoutFailed now id e =>
      updates S (a_payouts S) id (fun r => p_status r = PInFlight)
        (fun r => set_payout now PFailed (p_payment_hash r) (p_attempt_count r + 1) (Some e) r)
        (with_payouts S) (ADone (Err (ErrPayoutTransition PFailed))) a S'
  | OMarkPayoutRetrying now id =>
      updates S (a_payouts S) id (fun r => p_status r = PFailed /\ p_attempt_count r < 3)
        (fun r => set_payout now PRetrying (p_payment_hash r) (p_attempt_count r) (p_last_error r) r)
        (with_payouts S) (ADone (Err (ErrPayoutTransition PRetrying))) a S'
  | OInsertCompensatingEntry now ty ref adj why =>
      exists id, newer id (keys_of (a_comps S)) /\
      inserts S (ty ∈ ["settlement"; "payout"; "ticket"]%string) (ADone (Ok tt))
        (with_comps S (<[id := mkComp id ty ref adj why now]> (a_comps S))) db_error a S'
  | OInsertEntitlement now id h tot bpt key =>
      inserts S (0 < tot /\ 0 < bpt /\ a_ents S !! id = None /\ is_Some (a_invoices S !! h) /\
                 forall i r, a_ents S !! i = Some r -> e_payment_hash r <> h) (ADone (Ok tt))
        (with_ents S (<[id := mkEntitlement id h tot tot bpt key now]> (a_ents S))) db_error a S'
  | OConsumeEntitlement id n => consume_post id (Z.of_nat n) S a S'
  | OMarkSpent now t k n =>
      match a_spent S !! t with
      | Some _ => a = AFlag (Ok false) /\ S' = S
      | None => a = AFlag (Ok true) /\ S' = with_spent S (<[t := mkSpentToken t k n now]> (a_spent S))
      end
  | OInsertRedemption now nonce e rh n sigs =>
      inserts S (0 < n /\ a_reds S !! nonce = None /\ is_Some (a_ents S !! e)) (ADone (Ok tt))
        (with_reds S (<[nonce := mkRedemption nonce e rh n sigs now]> (a_reds S))) db_error a S'
  | OSetNodeWallet now n addr =>
      a = ADone (Ok tt) /\ S' = with_wallets S (<[n := mkWalletRow n addr now]> (a_wallets S))
  | OInsertWithdrawal now n s =>
      exists id, newer id (keys_of (a_wds S)) /\
      inserts S (0 < s) (AId (Ok id))
        (with_wds S (<[id := mkWithdrawal id n s WPending None None now now]> (a_wds S)))
        (fun e => AId (Err (DbErr e))) a S'
  | OMarkWithdrawalPaid now id h =>
      updates S (a_wds S) id (fun r => wd_status r = WPending)
        (fun r => set_withdrawal now WPaid (Some h) (wd_last_error r) r) (with_wds S)
        (ADone (Ok tt)) a S'
  | OMarkWithdrawalFailed now id e =>
      updates S (a_wds S) id (fun r => wd_status r = WPending)
        (fun r => set_withdrawal now WFailed (wd_payment_hash r) (Some e) r) (with_wds S)
        (ADone (Ok tt)) a S'
  | OUpsertNodeLease now l =>
      a = ADone (Ok tt) /\
      S' = with_leases S (<[nl_NodePubkey l := lease_row now l]> (a_leases S))
  | ORevokeNodeLease now n =>
      updates S (a_leases S) n (fun _ => True)
        (fun r => mkLease (l_node_pubkey r) (l_node_wg_pubkey r) (l_operator_id r) (l_allowed_roles r)
                    (l_lease_start r) (l_lease_end r) true now)
        (with_leases S) (ADone (Err ErrNoLease)) a S'
  | ORenewNodeLease now n end_ =>
      updates S (a_leases S) n (fun _ => True)
        (fun r => mkLease (l_node_pubkey r) (l_node_wg_pubkey r) (l_operator_id r) (l_allowed_roles r)
                    (l_lease_start r) (unix end_) false now)
        (with_leases S) (ADone (Err ErrNoLease)) a S'
  end.

Definition spec_post (c : call) (S : Spec) (a : answer) (S' : Spec) : Prop :=
  match c with
  | CStore o => op_post o S a S'
  | CConsume id count =>
      (forall r, a_ents S !! id = Some r -> in_i64 (e_tokens_remaining r - count)) ->
      consume_post id count S a S'
  end.

(** A history of the specification: each answer and next state as promised. *)
Fixpoint spec_history (h : list (call * answer)) (S S' : Spec) : Prop :=
  match h with
  | [] => S' = S
  | (c, a) :: h' => exists S1, spec_post c S a S1 /\ spec_history h' S1 S'
  end.

(** ** The store's calls *)
Definition answered {A} (f : outcome A -> answer) (r : outcome A * DB) : answer * DB := (f r.1, r.2).

Definition op_call (o : op) (db : DB) : answer * DB :=
  match o with
  | OInsertInvoice now h req amt tier bytes ex ip => answered ADone (InsertInvoice now h req amt tier bytes ex ip db)
  | OSettleInvoice now h => answered ADone (SettleInvoice now h db)
  | OExpireInvoice h => answered ADone (ExpireInvoice h db)
  | OInsertTicket now id h bytes mac => answered ADone (InsertTicket now id h bytes mac db)
  | OInsertTicketsBatch now h ts => answered ADone (InsertTicketsBatch now h ts db)
  | ORedeemTicket now id by_ => answered ADone (RedeemTicket now id by_ db)
  | OInsertUsageReport now s t n r b a g => answered ADone (InsertUsageReport now s t n r b a g db)
  | OInsertSettlementEntry now p n bb s eb xb k => answered AFlag (InsertSettlementEntry now p n bb s eb xb k db)
  | OInsertPayout now e n s => answered AId (InsertPayout now e n s db)
  | OMarkPayoutInFlight now id => answered ADone (MarkPayoutInFlight now id db)
  | OMarkPayoutPaid now id h => answered ADone (MarkPayoutPaid now id h db)
  | OMarkPayoutFailed now id e => answered ADone (MarkPayoutFailed now id e db)
  | OMarkPayoutRetrying now id => answered ADone (MarkPayoutRetrying now id db)
  | OInsertCompensatingEntry now ty ref adj why => answered ADone (InsertCompensatingEntry now ty ref adj why db)
  | OInsertEntitlement now id h tot bpt key => answered ADone (InsertEntitlement now id h tot bpt key db)
  | OConsumeEntitlement id n => answered ADone (ConsumeEntitlement id (Z.of_nat n) db)
  | OMarkSpent now t k n => answered AFlag (MarkSpent now t k n db)
  | OInsertRedemption now nonce e rh n sigs => answered ADone (InsertRedemption now nonce e rh n sigs db)
  | OSetNodeWallet now n a => answered ADone (SetNodeWallet now n a db)
  | OInsertWithdrawal now n s => answered AId (InsertWithdrawal now n s db)
  | OMarkWithdrawalPaid now id h => answered ADone (MarkWithdrawalPaid now id h db)
  | OMarkWithdrawalFailed now id e => answered ADone (MarkWithdrawalFailed now id e db)
  | OUpsertNodeLease now l => answered ADone (UpsertNodeLease now l db)
  | ORevokeNodeLease now n => answered ADone (RevokeNodeLease now n db)
  | ORenewNodeLease now n e => answered ADone (RenewNodeLease now n e db)
  end.

Definition run_call (c : call) (db : DB) : answer * DB :=
  match c with
  | CStore o => op_call o db
  | CConsume id count => answered ADone (ConsumeEntitlement id count db)
  end.

(** The calls with their answers, and the database at the end. *)
Fixpoint run_calls (cs : list call) (db : DB) : list (call * answer) * DB :=
  match cs with
  | [] => ([], db)
  | c :: cs' =>
      let '(a, db1) := run_call c db in
      let '(h, db2) := run_calls cs' db1 in ((c, a) :: h, db2)
  end.

(** ** Tables as maps *)
Definition no_check {R} (_ : R) : bool := true.

Section table.
Context {K R : Type} `{Countable K} (key : R -> K).
Implicit Types (t : list R) (chk : R -> bool).

Definition table t : gmap K R := list_to_map ((fun r => (key r, r)) <$> t).
Definition table_ok chk t : Prop := NoDup (key <$> t) /\ Forall (fun r => chk r = true) t.

Lemma table_fst t : ((fun r => (key r, r)) <$> t).*1 = key <$> t.
Proof. rewrite <-list_fmap_compose. by apply list_fmap_ext. Qed.

Lemma table_Some t k r : NoDup (key <$> t) -> table t !! k = Some r <-> r ∈ t /\ key r = k.
Proof.
  intros Hnd. unfold table. rewrite <-elem_of_list_to_map by (by rewrite table_fst).
  rewrite list_elem_of_fmap. split; [intros (x & [= -> ->] & ?); done|].
  intros [? <-]. by exists r.
Qed.

Lemma table_None t k : table t !! k = None <-> forall r, r ∈ t -> key r <> k.
Proof.
  unfold table. rewrite <-not_elem_of_list_to_map, table_fst, list_elem_of_fmap. naive_solver.
Qed.

Lemma table_is_Some t k : is_Some (table t !! k) <-> exists r, r ∈ t /\ key r = k.
Proof.
  rewrite <-not_eq_None_Some, table_None. split; [|naive_solver].
  intros Hn. destruct (decide (k ∈ key <$> t)) as [(r & -> & ?)%list_elem_of_fmap|Hk]; [eauto|].
  destruct Hn. intros r Hr <-. apply Hk. by apply list_elem_of_fmap_2.
Qed.

Lemma table_snoc t r : table t !! key r = None -> table (t ++ [r]) = <[key r := r]> (table t).
Proof.
  unfold table. intros Hn. rewrite fmap_app, list_to_map_app. simpl.
  by rewrite insert_empty, insert_union_singleton_r.
Qed.

Lemma table_ok_snoc chk t r :
  table_ok chk t -> chk r = true -> table t !! key r = None -> table_ok chk (t ++ [r]).
Proof.
  intros [Hnd Hc] Hr Hn. rewrite table_None in Hn. split; [|by apply Forall_snoc].
  apply NoDup_snoc_key; [done|]. intros r' Hr' Heq. by apply (Hn r').
Qed.

(** The existence test of a constraint over the table. *)
Lemma table_exists t (p : R -> bool) k :
  (forall r, p r = true <-> key r = k) -> existsb p t = true <-> is_Some (table t !! k).
Proof.
  intros Hp. rewrite existsb_exists, table_is_Some. setoid_rewrite list_elem_of_In.
  by setoid_rewrite Hp.
Qed.

Lemma table_find t (p : R -> bool) k :
  NoDup (key <$> t) -> (forall r, p r = true <-> key r = k) -> sql_find p t = table t !! k.
Proof.
  intros Hnd Hp. destruct (sql_find p t) as [r|] eqn:Hf.
  - apply sql_find_Some in Hf as [? ?%Hp]. symmetry. by apply table_Some.
  - symmetry. apply table_None. intros r Hr ?%Hp. by rewrite (sql_find_None _ _ _ Hf Hr) in *.
Qed.

Lemma table_keys_below t (ids : list K) : ids = key <$> t ->
  forall i, is_Some (table t !! i) -> i ∈ ids.
Proof. intros -> i (r & ? & <-)%table_is_Some. by apply list_elem_of_fmap_2. Qed.

(** INSERT: stored under its key exactly when it fits. *)
Lemma table_insert chk clash fk r t (fits : Prop) :
  table_ok chk t ->
  (fits <-> chk r = true /\ (forall r', r' ∈ t -> clash r r' = false) /\ fk r = true) ->
  (fits -> table t !! key r = None) ->
  (fits /\ sql_insert clash chk fk r t = Ok (t ++ [r]) /\
   table (t ++ [r]) = <[key r := r]> (table t) /\ table_ok chk (t ++ [r])) \/
  (~ fits /\ exists e, sql_insert clash chk fk r t = Err e).
Proof.
  intros Hok Hfits Hkey. destruct (sql_insert clash chk fk r t) as [t'|e] eqn:Hi.
  - apply sql_insert_Ok in Hi as (-> & ? & ? & ?). left.
    assert fits as Hf by by apply Hfits. split_and!; auto using table_snoc.
    apply table_ok_snoc; auto.
  - right. split; [|eauto]. intros (? & ? & ?)%Hfits. by rewrite sql_insert_fits in Hi.
Qed.

Lemma insert_ignore_eq clash chk r t :
  sql_insert_ignore clash chk r t =
    match sql_insert clash chk (fun _ => true) r t with Ok t' => (t', true) | Err _ => (t, false) end.
Proof. unfold sql_insert_ignore, sql_insert. by destruct (chk r), (existsb _ _). Qed.

Lemma insert_nothing_eq clash r t :
  sql_insert_nothing clash r t =
    match sql_insert clash no_check (fun _ => true) r t with Ok t' => (t', true) | Err _ => (t, false) end.
Proof. unfold sql_insert_nothing, sql_insert. by destruct (existsb _ _). Qed.

(** UPDATE .. WHERE key = k AND g: the row of the key moves when g holds of
    it, and RowsAffected tells. *)
Definition upd_key (g : R -> bool) (f : R -> R) (k : K) (m : gmap K R) : gmap K R :=
  match m !! k with Some r => if g r then <[k := f r]> m else m | None => m end.

Lemma table_map p g f k t :
  NoDup (key <$> t) -> (forall r, p r = bool_decide (key r = k) && g r) -> (forall r, key (f r) = key r) ->
  table ((fun r => if p r then f r else r) <$> t) = upd_key g f k (table t) /\
  key <$> ((fun r => if p r then f r else r) <$> t) = key <$> t.
Proof.
  intros Hnd Hp Hf.
  assert (key <$> ((fun r => if p r then f r else r) <$> t) = key <$> t) as Hkeys.
  { rewrite <-list_fmap_compose. apply list_fmap_ext. intros i r _. simpl. case_match; auto. }
  split; [|done]. apply map_eq. intros j. apply option_eq. intros x.
  rewrite table_Some by (by rewrite Hkeys). rewrite list_elem_of_fmap. unfold upd_key.
  destruct (table t !! k) as [r|] eqn:Hk.
  - apply table_Some in Hk as [Hr Hrk]; [|done].
    assert (forall y, y ∈ t -> key y = k -> y = r) as Huniq.
    { intros y Hy Hyk. apply (unique_key key t); [done..|congruence]. }
    destruct (g r) eqn:Hg.
    + rewrite lookup_insert_Some, table_Some by done. split.
      * intros [(y & -> & Hy) Hj]. rewrite Hp in *. case_bool_decide as Hyk; simpl in *.
        -- pose proof (Huniq y Hy Hyk) as ->. rewrite Hg in *. left. rewrite <-Hj, Hf. done.
        -- right. split; [congruence|done].
      * intros [[<- <-]|(Hne & Hx & <-)].
        -- split; [|by rewrite Hf]. exists r. by rewrite Hp, bool_decide_true, Hg.
        -- split; [|done]. exists x. by rewrite Hp, bool_decide_false.
    + rewrite table_Some by done. split.
      * intros [(y & -> & Hy) Hj]. rewrite Hp in *. case_bool_decide as Hyk; simpl in *; [|done].
        pose proof (Huniq y Hy Hyk) as ->. by rewrite Hg in *.
      * intros [Hx <-]. split; [|done]. exists x. rewrite Hp. case_bool_decide as Hyk; simpl; [|done].
        by rewrite (Huniq x Hx Hyk), Hg.
  - rewrite table_None in Hk. rewrite table_Some by done. split.
    + intros [(y & -> & Hy) Hj]. rewrite Hp, bool_decide_false in * by auto. done.
    + intros [Hx <-]. split; [|done]. exists x. by rewrite Hp, bool_decide_false by auto.
Qed.

Lemma table_update p g f k trig chk t :
  table_ok chk t -> (forall r, p r = true <-> key r = k /\ g r = true) -> (forall r, key (f r) = key r) ->
  (forall r, chk r = true -> p r = true -> trig r (f r) = false /\ chk (f r) = true) ->
  exists n, sql_update p trig chk f t = ((fun r => if p r then f r else r) <$> t, Ok n) /\
    table ((fun r => if p r then f r else r) <$> t) = upd_key g f k (table t) /\
    table_ok chk ((fun r => if p r then f r else r) <$> t) /\
    ((0 < n)%nat <-> exists r, table t !! k = Some r /\ g r = true).
Proof.
  intros [Hnd Hc] Hp0 Hf Hpass.
  assert (forall r, p r = bool_decide (key r = k) && g r) as Hp.
  { intros r. apply eq_true_iff_eq. by rewrite Hp0, andb_true_iff, bool_decide_eq_true. }
  rewrite Forall_forall in Hc.
  destruct (table_map p g f k t Hnd Hp Hf) as [Ht Hk].
  exists (sql_count p t). split_and!.
  - apply sql_update_map. auto.
  - done.
  - split; [by rewrite Hk|]. apply Forall_fmap, Forall_forall. intros r Hr. simpl.
    destruct (p r) eqn:Hpr; [|auto]. apply Hpass; auto.
  - rewrite sql_count_pos. setoid_rewrite Hp. setoid_rewrite (table_Some t k _ Hnd).
    split.
    + intros (r & Hr & [Hk' Hg]%andb_true_iff). exists r. by apply bool_decide_eq_true in Hk'.
    + intros (r & [Hr Hk'] & Hg). exists r. by rewrite bool_decide_true.
Qed.

End table.

(** INSERT .. ON CONFLICT(key) DO UPDATE leaves the new row under its key. *)
Lemma table_upsert {R} (key : R -> string) row merge t :
  table_ok key no_check t -> (forall r, key r = key row -> merge r = row) ->
  table key (upsert key row merge t) = <[key row := row]> (table key t) /\
  table_ok key no_check (upsert key row merge t).
Proof.
  intros [Hnd Hc] Hm. unfold upsert.
  pose proof (table_exists key t (fun r => String.eqb (key r) (key row)) (key row)
    (fun r => String.eqb_eq _ _)) as Hex.
  destruct (existsb _ t) eqn:He.
  - destruct (proj1 Hex eq_refl) as [r Hr].
    set (f := fun r : R => if String.eqb (key r) (key row) then row else r).
    assert ((fun r => if String.eqb (key r) (key row) then merge r else r) <$> t =
            (fun r => if String.eqb (key r) (key row) then f r else r) <$> t) as ->.
    { apply list_fmap_ext. intros i x _. unfold f.
      destruct (String.eqb_spec (key x) (key row)); [auto|done]. }
    destruct (table_map key (fun r => String.eqb (key r) (key row)) (fun _ => true) f (key row) t) as [Ht Hk].
    + done.
    + intros x. rewrite andb_true_r. apply eq_true_iff_eq. by rewrite String.eqb_eq, bool_decide_eq_true.
    + intros x. unfold f. by destruct (String.eqb_spec (key x) (key row)).
    + rewrite Ht. unfold upd_key. rewrite Hr. apply table_Some in Hr as [_ Hr]; [|done].
      unfold f at 1. rewrite Hr, String.eqb_refl. split; [done|]. split; [by rewrite Hk|].
      by apply Forall_forall.
  - assert (table key t !! key row = None) as Hn.
    { apply eq_None_not_Some. intros Hs. apply Hex in Hs. done. }
    split; [by apply table_snoc|by apply table_ok_snoc].
Qed.

(** AUTOINCREMENT is above every id of the table. *)
Lemma next_rowid_above ids i : i ∈ ids -> i < next_rowid ids.
Proof.
  unfold next_rowid. induction ids as [|x ids IH]; intros Hi; [by apply not_elem_of_nil in Hi|].
  simpl. apply elem_of_cons in Hi as [->|Hi]; [lia|]. apply IH in Hi. lia.
Qed.

Lemma rowid_newer {R} (key : R -> Z) t : newer (next_rowid (key <$> t)) (keys_of (table key t)).
Proof.
  split; [apply next_rowid_pos|]. intros i (r & ? & <-)%table_is_Some.
  by apply next_rowid_above, list_elem_of_fmap_2.
Qed.

Lemma rowid_none {R} (key : R -> Z) t : table key t !! next_rowid (key <$> t) = None.
Proof.
  apply table_None. intros r Hr Heq. apply (next_rowid_fresh (key <$> t)). rewrite <-Heq.
  by apply list_elem_of_fmap_2.
Qed.

(** ** The database behind the specification *)
Definition abs (db : DB) : Spec := mkSpec
  (table i_payment_hash (invoices db)) (table t_id (tickets db)) (table u_id (usage_reports db))
  (table s_id (settlement_entries db)) (table p_id (payouts db)) (table c_id (compensating_entries db))
  (table e_id (entitlements db)) (table st_token_id (spent_tokens db)) (table r_nonce (redemptions db))
  (table l_node_pubkey (node_leases db)) (table w_node_pubkey (node_wallets db))
  (table wd_id (withdrawals db)).

(** Every table's key is unique and its CHECKs hold. *)
Record store_ok (db : DB) : Prop := {
  ok_inv : table_ok i_payment_hash invoice_check (invoices db);
  ok_tkt : table_ok t_id ticket_check (tickets db);
  ok_use : table_ok u_id usage_check (usage_reports db);
  ok_set : table_ok s_id settlement_check (settlement_entries db);
  ok_pay : table_ok p_id payout_check (payouts db);
  ok_com : table_ok c_id comp_check (compensating_entries db);
  ok_ent : table_ok e_id entitlement_check (entitlements db);
  ok_spt : table_ok st_token_id no_check (spent_tokens db);
  ok_red : table_ok r_nonce redemption_check (redemptions db);
  ok_lea : table_ok l_node_pubkey no_check (node_leases db);
  ok_wal : table_ok w_node_pubkey no_check (node_wallets db);
  ok_wds : table_ok wd_id withdrawal_check (withdrawals db)
}.

Lemma empty_ok : store_ok empty_db.
Proof. split; split; constructor. Qed.

(** The call [c] is as the specification says, and keeps [store_ok]. *)
Definition meets (c : call) : Prop := forall db, store_ok db ->
  spec_post c (abs db) (run_call c db).1 (abs (run_call c db).2) /\ store_ok (run_call c db).2.

(** One table was replaced by a good one. *)
Ltac put Hok := destruct Hok; split; simpl; assumption.

(** Both outcomes of an INSERT, the specification's row given. *)
Ltac inserting key chk clash fk row t fits :=
  destruct (table_insert key chk clash fk row t fits) as [(Hf & -> & Ht & Hk)|(Hf & err & ->)].
Ltac stored Ht Hok :=
  simpl; split; [|put Hok]; try (eexists; split; [apply rowid_newer|]); left; unfold abs; simpl; by rewrite Ht.
Ltac refused :=
  simpl; autorewrite with arfl_rw; split; [|done]; try (eexists; split; [apply rowid_newer|]); right; eauto.

Lemma invoice_exists h t : existsb (hash_is h) t = true <-> is_Some (table i_payment_hash t !! h).
Proof. apply table_exists. intros r. apply String.eqb_eq. Qed.
Lemma ticket_exists i t : existsb (ticket_is i) t = true <-> is_Some (table t_id t !! i).
Proof. apply table_exists. intros r. apply String.eqb_eq. Qed.
Lemma set_same_payouts db : set_payouts db (payouts db) = db.  Proof. by destruct db. Qed.
#[local] Hint Rewrite set_same_withdrawals set_same_payouts : arfl_rw.

Section inserts.
Lemma meets_invoice now h req amt tier bytes ex ip :
  meets (CStore (OInsertInvoice now h req amt tier bytes ex ip)).
Proof.
  intros db Hok. simpl. unfold InsertInvoice. set (id := next_rowid _).
  assert (newer id (fun i => exists k r, table i_payment_hash (invoices db) !! k = Some r /\ i_id r = i)) as Hid.
  { split; [apply next_rowid_pos|]. intros i (k & r & [Hr _]%table_Some & <-); [|apply Hok].
    by apply next_rowid_above, list_elem_of_fmap_2. }
  set (row := mkInvoice id _ _ _ _ _ _ _ _ _ _).
  inserting i_payment_hash invoice_check invoice_clash (fun _ : InvoiceRow => true) row (invoices db)
    (0 < amt /\ 0 < bytes /\ table i_payment_hash (invoices db) !! h = None).
  - apply Hok.
  - unfold invoice_check, invoice_clash. simpl. rewrite andb_true_iff, !Z.ltb_lt, table_None.
    setoid_rewrite String.eqb_neq. naive_solver.
  - tauto.
  - simpl. split; [|put Hok]. exists id. split; [done|]. left. unfold abs. simpl. by rewrite Ht.
  - simpl. autorewrite with arfl_rw. split; [|done]. exists id. split; [done|]. right. eauto.
Qed.

Lemma meets_ticket now id h bytes mac : meets (CStore (OInsertTicket now id h bytes mac)).
Proof.
  intros db Hok. simpl. unfold InsertTicket, insert_ticket_row. set (row := mkTicket _ _ _ _ _ _ _ _).
  inserting t_id ticket_check ticket_clash (ticket_fk db) row (tickets db)
    (0 < bytes /\ table t_id (tickets db) !! id = None /\ is_Some (table i_payment_hash (invoices db) !! h)).
  - apply Hok.
  - unfold ticket_check, ticket_clash, ticket_fk. simpl. rewrite Z.ltb_lt, table_None, invoice_exists.
    setoid_rewrite String.eqb_neq. naive_solver.
  - tauto.
  - stored Ht Hok.
  - refused.
Qed.

Lemma meets_usage now s t n role b at_ sig : meets (CStore (OInsertUsageReport now s t n role b at_ sig)).
Proof.
  intros db Hok. simpl. unfold InsertUsageReport. set (id := next_rowid _). set (row := mkUsage id _ _ _ _ _ _ _ _).
  inserting u_id usage_check (fun _ _ : UsageRow => false) (usage_fk db) row (usage_reports db)
    ((role = "entry" \/ role = "exit")%string /\ 0 <= b /\ is_Some (table t_id (tickets db) !! t)).
  - apply Hok.
  - unfold usage_check, usage_fk. simpl.
    rewrite andb_true_iff, orb_true_iff, !String.eqb_eq, Z.leb_le, ticket_exists. naive_solver.
  - intros _. apply rowid_none.
  - stored Ht Hok.
  - refused.
Qed.

Lemma meets_settlement now p n bb s eb xb k :
  meets (CStore (OInsertSettlementEntry now p n bb s eb xb k)).
Proof.
  intros db Hok. simpl. unfold InsertSettlementEntry. rewrite insert_ignore_eq. set (id := next_rowid _).
  set (row := mkSettlement id _ _ _ _ _ _ _ _).
  set (fits := 0 <= bb /\ 0 <= s /\ forall i r, table s_id (settlement_entries db) !! i = Some r ->
                 (s_period r, s_node_pubkey r) <> (p, n)).
  inserting s_id settlement_check settlement_clash (fun _ : SettlementRow => true) row (settlement_entries db) fits.
  - apply Hok.
  - unfold fits, settlement_check, settlement_clash. simpl. rewrite andb_true_iff, !Z.leb_le.
    setoid_rewrite andb_false_iff. setoid_rewrite String.eqb_neq. setoid_rewrite table_Some; [|apply Hok].
    split.
    + intros (? & ? & Hn). split_and!; [done..| |done]. intros r' Hr'.
      destruct (decide (p = s_period r')) as [->|]; [|by left]. right. intros ->. by apply (Hn (s_id r') r').
    + intros ((? & ?) & Hn & _). split_and!; [done..|]. intros i r [Hr _] [= <- <-]. by destruct (Hn r Hr).
  - intros _. apply rowid_none.
  - stored Ht Hok.
  - refused.
Qed.

Lemma meets_payout now e n s : meets (CStore (OInsertPayout now e n s)).
Proof.
  intros db Hok. simpl. unfold InsertPayout. set (id := next_rowid _).
  set (row := mkPayout id _ _ _ _ _ _ _ _ _).
  inserting p_id payout_check payout_clash (payout_fk db) row (payouts db)
    (0 < s /\ is_Some (table s_id (settlement_entries db) !! e) /\
     forall i r, table p_id (payouts db) !! i = Some r -> p_entry_id r <> e).
  - apply Hok.
  - unfold payout_check, payout_clash, payout_fk. simpl. rewrite Z.ltb_lt.
    rewrite (table_exists s_id _ _ e) by (intros; apply Z.eqb_eq).
    setoid_rewrite Z.eqb_neq. setoid_rewrite table_Some; [|apply Hok]. naive_solver.
  - intros _. apply rowid_none.
  - stored Ht Hok.
  - refused.
Qed.

Lemma meets_comp now ty ref adj why : meets (CStore (OInsertCompensatingEntry now ty ref adj why)).
Proof.
  intros db Hok. simpl. unfold InsertCompensatingEntry. set (id := next_rowid _).
  set (row := mkComp id _ _ _ _ _).
  inserting c_id comp_check (fun _ _ : CompRow => false) (fun _ : CompRow => true) row (compensating_entries db)
    (ty ∈ ["settlement"; "payout"; "ticket"]%string).
  - apply Hok.
  - unfold comp_check. simpl. rewrite !orb_true_iff, !String.eqb_eq. set_solver.
  - intros _. apply rowid_none.
  - stored Ht Hok.
  - refused.
Qed.

Lemma meets_entitlement now id h tot bpt key : meets (CStore (OInsertEntitlement now id h tot bpt key)).
Proof.
  intros db Hok. simpl. unfold InsertEntitlement. set (row := mkEntitlement _ _ _ _ _ _ _).
  inserting e_id entitlement_check entitlement_clash (entitlement_fk db) row (entitlements db)
    (0 < tot /\ 0 < bpt /\ table e_id (entitlements db) !! id = None /\
     is_Some (table i_payment_hash (invoices db) !! h) /\
     forall i r, table e_id (entitlements db) !! i = Some r -> e_payment_hash r <> h).
  - apply Hok.
  - unfold entitlement_check, entitlement_clash, entitlement_fk. simpl.
    rewrite !andb_true_iff, !Z.ltb_lt, Z.leb_le, table_None, invoice_exists.
    setoid_rewrite orb_false_iff. setoid_rewrite String.eqb_neq.
    setoid_rewrite table_Some; [|apply Hok]. split.
    + intros (? & ? & Hn & ? & Hh). split_and!; try done; [lia|]. intros r Hr. split; [naive_solver|].
      intros ->. by apply (Hh (e_id r) r).
    + intros (((? & ?) & ?) & Hn & ?). split_and!; try done; [|naive_solver]. intros r Hr <-. by destruct (Hn r Hr).
  - tauto.
  - stored Ht Hok.
  - refused.
Qed.

Lemma meets_redemption now nonce e rh n sigs : meets (CStore (OInsertRedemption now nonce e rh n sigs)).
Proof.
  intros db Hok. simpl. unfold InsertRedemption. set (row := mkRedemption _ _ _ _ _ _).
  inserting r_nonce redemption_check redemption_clash (redemption_fk db) row (redemptions db)
    (0 < n /\ table r_nonce (redemptions db) !! nonce = None /\ is_Some (table e_id (entitlements db) !! e)).
  - apply Hok.
  - unfold redemption_check, redemption_clash, redemption_fk. simpl. rewrite Z.ltb_lt, table_None.
    rewrite (table_exists e_id _ _ e) by (intros; apply String.eqb_eq).
    setoid_rewrite String.eqb_neq. naive_solver.
  - tauto.
  - stored Ht Hok.
  - refused.
Qed.

Lemma meets_withdrawal now n s : meets (CStore (OInsertWithdrawal now n s)).
Proof.
  intros db Hok. simpl. unfold InsertWithdrawal. set (id := next_rowid _).
  set (row := mkWithdrawal id _ _ _ _ _ _ _).
  inserting wd_id withdrawal_check (fun _ _ : WithdrawalRow => false) (fun _ : WithdrawalRow => true) row
    (withdrawals db) (0 < s).
  - apply Hok.
  - unfold withdrawal_check. simpl. rewrite Z.ltb_lt. naive_solver.
  - intros _. apply rowid_none.
  - stored Ht Hok.
  - refused.
Qed.

Lemma meets_spent now t k n : meets (CStore (OMarkSpent now t k n)).
Proof.
  intros db Hok. simpl. unfold MarkSpent. rewrite insert_nothing_eq. set (row := mkSpentToken _ _ _ _).
  inserting st_token_id (@no_check SpentTokenRow) spent_token_clash (fun _ : SpentTokenRow => true) row (spent_tokens db)
    (table st_token_id (spent_tokens db) !! t = None).
  - apply Hok.
  - unfold spent_token_clash. simpl. rewrite table_None. setoid_rewrite String.eqb_neq. naive_solver.
  - done.
  - rewrite Hf. simpl. split; [|put Hok]. unfold abs. simpl. by rewrite Ht.
  - simpl. autorewrite with arfl_rw. split; [|done]. by destruct (table _ _ !! t).
Qed.
End inserts.

(** An UPDATE of one key, as [table_update] describes it, is [updates]. *)
Lemma updates_intro {K R} `{Countable K} (S : Spec) (m : gmap K R) k (g : R -> bool) (guard : R -> Prop)
    f put none a S' n :
  (forall r, g r = true <-> guard r) ->
  ((0 < n)%nat <-> exists r, m !! k = Some r /\ g r = true) ->
  a = match n with O => none | Datatypes.S _ => ADone (Ok tt) end ->
  S' = put (upd_key g f k m) -> put m = S ->
  updates S m k guard f put none a S'.
Proof.
  intros Hg Hn -> -> <-. unfold updates, upd_key. destruct (m !! k) as [r|] eqn:Hk.
  - destruct (g r) eqn:Hgr.
    + left. exists r. assert (0 < n)%nat by (apply Hn; eauto). destruct n; [lia|]. by apply Hg in Hgr.
    + right. assert (~ (0 < n)%nat) as Hz. { intros (? & [= <-] & ?)%Hn. congruence. }
      destruct n; [|lia]. split_and!; [|done|done]. intros ? [= <-] ?%Hg. congruence.
  - right. assert (~ (0 < n)%nat) as Hz. { intros (? & ? & ?)%Hn. congruence. }
    destruct n; [|lia]. done.
Qed.

(** Runs [table_update] on the UPDATE of the goal. *)
Ltac updating key g k :=
  match goal with
  | |- context [sql_update ?p ?trig ?chk ?f ?t] =>
      destruct (table_update key p g f k trig chk t) as (n & -> & Ht & Hk & Hn)
  end.
Ltac updated g Ht Hok :=
  simpl; split; [|put Hok]; eapply (updates_intro _ _ _ g);
    [|eassumption|by match goal with |- context [match ?n with O => _ | _ => _ end] => destruct n end
     |unfold abs; simpl; by rewrite Ht|done].

Section moves.
Lemma payout_keeps now st h n e r :
  payout_check r = true -> payout_trig r (set_payout now st h n e r) = false /\ payout_check (set_payout now st h n e r) = true.
Proof.
  intros ?. split; [|done]. unfold payout_trig. simpl. by rewrite String.eqb_refl, !Z.eqb_refl.
Qed.

Lemma meets_update_payout id (g : PayoutRow -> bool) (guard : PayoutRow -> Prop) p f to db :
  store_ok db ->
  (forall r, p r = true <-> p_id r = id /\ g r = true) -> (forall r, g r = true <-> guard r) ->
  (forall r, exists now st h n e, f r = set_payout now st h n e r) ->
  updates (abs db) (a_payouts (abs db)) id guard f (with_payouts (abs db))
    (ADone (Err (ErrPayoutTransition to))) (ADone (update_payout p f to db).1) (abs (update_payout p f to db).2) /\
  store_ok (update_payout p f to db).2.
Proof.
  intros Hok Hp Hg Hf. unfold update_payout. updating p_id g id.
  - apply Hok.
  - done.
  - intros r. by destruct (Hf r) as (? & ? & ? & ? & ? & ->).
  - intros r Hr _. destruct (Hf r) as (? & ? & ? & ? & ? & ->). by apply payout_keeps.
  - updated g Ht Hok. done.
Qed.

Lemma meets_in_flight now id : meets (CStore (OMarkPayoutInFlight now id)).
Proof.
  intros db Hok. apply (meets_update_payout id (fun r => bool_decide (p_status r ∈ [PPending; PRetrying]))); [done| | |].
  - intros r. unfold payout_in, payout_is. by rewrite andb_true_iff, Z.eqb_eq.
  - intros r. rewrite bool_decide_eq_true. set_solver.
  - intros r. eauto 10.
Qed.

Lemma meets_paid now id h : meets (CStore (OMarkPayoutPaid now id h)).
Proof.
  intros db Hok. apply (meets_update_payout id (fun r => bool_decide (p_status r ∈ [PInFlight]))); [done| | |].
  - intros r. unfold payout_in, payout_is. by rewrite andb_true_iff, Z.eqb_eq.
  - intros r. rewrite bool_decide_eq_true. set_solver.
  - intros r. eauto 10.
Qed.

Lemma meets_failed now id e : meets (CStore (OMarkPayoutFailed now id e)).
Proof.
  intros db Hok. apply (meets_update_payout id (fun r => bool_decide (p_status r ∈ [PInFlight]))); [done| | |].
  - intros r. unfold payout_in, payout_is. by rewrite andb_true_iff, Z.eqb_eq.
  - intros r. rewrite bool_decide_eq_true. set_solver.
  - intros r. eauto 10.
Qed.

Lemma meets_retrying now id : meets (CStore (OMarkPayoutRetrying now id)).
Proof.
  intros db Hok. apply (meets_update_payout id retryable); [done| | |].
  - intros r. unfold payout_in, payout_is. by rewrite andb_true_iff, Z.eqb_eq.
  - intros r. unfold retryable. by rewrite andb_true_iff, bool_decide_eq_true, Z.ltb_lt.
  - intros r. eauto 10.
Qed.
Lemma meets_redeem now id by_ : meets (CStore (ORedeemTicket now id by_)).
Proof.
  intros db Hok. simpl. unfold RedeemTicket.
  updating t_id (fun r => bool_decide (t_status r = TActive)) id.
  - apply Hok.
  - intros r. unfold active_ticket. by rewrite andb_true_iff, String.eqb_eq.
  - done.
  - intros r Hr. unfold active_ticket. rewrite andb_true_iff, bool_decide_eq_true. intros [_ Ha].
    split; [|done]. unfold ticket_trig, tickets_no_rewrite, tickets_immutable_fields. simpl.
    by rewrite Ha, !String.eqb_refl, Z.eqb_refl.
  - updated (fun r => bool_decide (t_status r = TActive)) Ht Hok. intros r. apply bool_decide_eq_true.
Qed.

Lemma open_row_keeps r r' :
  invoice_check r = true -> i_status r = InvOpen ->
  i_payment_hash r' = i_payment_hash r -> i_payment_request r' = i_payment_request r ->
  i_amount_sats r' = i_amount_sats r -> i_tier r' = i_tier r -> i_bytes_allowed r' = i_bytes_allowed r ->
  invoice_trig r r' = false /\ invoice_check r' = true.
Proof.
  unfold invoice_check, invoice_trig, invoices_immutable_fields, invoices_forward_transition.
  intros Hc Ho -> -> -> -> ->. by rewrite Ho, !String.eqb_refl, !Z.eqb_refl.
Qed.

Lemma open_invoice_iff h r :
  open_invoice h r = true <-> i_payment_hash r = h /\ bool_decide (i_status r = InvOpen) = true.
Proof. unfold open_invoice, hash_is. by rewrite andb_true_iff, String.eqb_eq. Qed.

Lemma meets_expire h : meets (CStore (OExpireInvoice h)).
Proof.
  intros db Hok. simpl. unfold ExpireInvoice.
  updating i_payment_hash (fun r => bool_decide (i_status r = InvOpen)) h.
  - apply Hok.
  - apply open_invoice_iff.
  - done.
  - intros r Hr [_ Ho%bool_decide_eq_true]%open_invoice_iff. by apply open_row_keeps.
  - updated (fun r => bool_decide (i_status r = InvOpen)) Ht Hok. intros r. apply bool_decide_eq_true.
Qed.

Lemma meets_settle now h : meets (CStore (OSettleInvoice now h)).
Proof.
  intros db Hok. simpl. unfold SettleInvoice.
  updating i_payment_hash (fun r => bool_decide (i_status r = InvOpen)) h; cycle 4.
  1: rewrite (table_find i_payment_hash _ _ h); [|apply Hk|intros r; apply String.eqb_eq].
  1: rewrite Ht; unfold upd_key in *.
  1: destruct (table i_payment_hash (invoices db) !! h) as [r|] eqn:Hr.
  - case_bool_decide as Ho.
    + rewrite Ho. assert (0 < n)%nat by (apply Hn; exists r; by rewrite bool_decide_true).
      destruct n; [lia|]. simpl. split; [|put Hok]. unfold abs. simpl. by rewrite Ht.
    + assert (n = O) as ->. { destruct n; [done|]. destruct Hn as [(? & [= <-] & ?%bool_decide_eq_true) _]; [lia|done]. }
      rewrite Hr. destruct (i_status r); [done|..]; (split; [|put Hok]); unfold abs; simpl; rewrite Ht; done.
  - assert (n = O) as ->. { destruct n; [done|]. destruct Hn as [(? & ? & ?) _]; [lia|done]. }
    rewrite Hr. split; [|put Hok]. unfold abs; simpl; by rewrite Ht.
  - apply Hok.
  - apply open_invoice_iff.
  - done.
  - intros r Hr [_ Ho%bool_decide_eq_true]%open_invoice_iff. by apply open_row_keeps.
Qed.

Lemma consume_meets id count db : store_ok db ->
  consume_post id count (abs db) (ADone (ConsumeEntitlement id count db).1)
    (abs (ConsumeEntitlement id count db).2) /\ store_ok (ConsumeEntitlement id count db).2.
Proof.
  intros Hok. unfold consume_post, ConsumeEntitlement.
  updating e_id (fun r => count <=? e_tokens_remaining r) id.
  - apply Hok.
  - intros r. unfold entitlement_with. by rewrite andb_true_iff, String.eqb_eq.
  - done.
  - intros r Hr. unfold entitlement_with. rewrite andb_true_iff, Z.leb_le. intros [_ Hc].
    split; [unfold entitlement_trig; simpl; by rewrite !String.eqb_refl, !Z.eqb_refl|].
    unfold entitlement_check in *. simpl. bprop. rewrite !andb_true_iff, Z.leb_le, !Z.ltb_lt. lia.
  - updated (fun r => count <=? e_tokens_remaining r) Ht Hok. intros r. apply Z.leb_le.
Qed.

Lemma meets_consume id n : meets (CStore (OConsumeEntitlement id n)).
Proof. intros db Hok. by apply consume_meets. Qed.
Lemma meets_consume_int id count : meets (CConsume id count).
Proof. intros db Hok. split; [intros _|]; by apply consume_meets. Qed.

Lemma meets_withdrawal_paid now id h : meets (CStore (OMarkWithdrawalPaid now id h)).
Proof.
  intros db Hok. simpl. unfold MarkWithdrawalPaid.
  updating wd_id (fun r => bool_decide (wd_status r = WPending)) id.
  - apply Hok.
  - intros r. unfold pending_withdrawal. by rewrite andb_true_iff, Z.eqb_eq.
  - done.
  - done.
  - simpl. split; [|put Hok]. eapply (updates_intro _ _ _ (fun r => bool_decide (wd_status r = WPending)));
      [|eassumption|by destruct n|unfold abs; simpl; by rewrite Ht|done]. intros r. apply bool_decide_eq_true.
Qed.

Lemma meets_withdrawal_failed now id e : meets (CStore (OMarkWithdrawalFailed now id e)).
Proof.
  intros db Hok. simpl. unfold MarkWithdrawalFailed.
  updating wd_id (fun r => bool_decide (wd_status r = WPending)) id.
  - apply Hok.
  - intros r. unfold pending_withdrawal. by rewrite andb_true_iff, Z.eqb_eq.
  - done.
  - done.
  - simpl. split; [|put Hok]. eapply (updates_intro _ _ _ (fun r => bool_decide (wd_status r = WPending)));
      [|eassumption|by destruct n|unfold abs; simpl; by rewrite Ht|done]. intros r. apply bool_decide_eq_true.
Qed.

Lemma meets_update_lease k f db :
  store_ok db -> (forall r, l_node_pubkey (f r) = l_node_pubkey r) ->
  updates (abs db) (a_leases (abs db)) k (fun _ => True) f (with_leases (abs db))
    (ADone (Err ErrNoLease)) (ADone (update_lease k f db).1) (abs (update_lease k f db).2) /\
  store_ok (update_lease k f db).2.
Proof.
  intros Hok Hf. unfold update_lease. change (fun _ : LeaseRow => true) with (@no_check LeaseRow).
  updating l_node_pubkey (@no_check LeaseRow) k.
  - apply Hok.
  - intros r. unfold lease_is, no_check. rewrite String.eqb_eq. tauto.
  - done.
  - done.
  - updated (@no_check LeaseRow) Ht Hok. done.
Qed.

Lemma meets_revoke now n : meets (CStore (ORevokeNodeLease now n)).
Proof. intros db Hok. by apply meets_update_lease. Qed.
Lemma meets_renew now n e : meets (CStore (ORenewNodeLease now n e)).
Proof. intros db Hok. by apply meets_update_lease. Qed.

Lemma meets_upsert_lease now l : meets (CStore (OUpsertNodeLease now l)).
Proof.
  intros db Hok. simpl. fold (lease_row now l).
  destruct (table_upsert l_node_pubkey (lease_row now l) (fun _ => lease_row now l) (node_leases db)) as [Ht Hk];
    [apply Hok|done|].
  split; [|put Hok]. unfold abs. simpl. by rewrite Ht.
Qed.

Lemma meets_wallet now n addr : meets (CStore (OSetNodeWallet now n addr)).
Proof.
  intros db Hok. simpl.
  destruct (table_upsert w_node_pubkey (mkWalletRow n addr now)
    (fun r => mkWalletRow (w_node_pubkey r) addr now) (node_wallets db)) as [Ht Hk];
    [apply Hok|by intros r ->|].
  split; [|put Hok]. unfold abs. simpl. by rewrite Ht.
Qed.

Lemma table_batch now h ts t :
  NoDup (tk_ID <$> ts) -> Forall (fun x => table t_id t !! tk_ID x = None) ts ->
  Forall (fun x => 0 < tk_Bytes x) ts -> table_ok t_id ticket_check t ->
  table t_id (t ++ (ticket_row now h <$> ts)) =
    foldl (fun m x => <[tk_ID x := ticket_row now h x]> m) (table t_id t) ts /\
  table_ok t_id ticket_check (t ++ (ticket_row now h <$> ts)).
Proof.
  revert t. induction ts as [|x ts IH]; intros t Hnd Hfresh Hpos Hok.
  - simpl. by rewrite app_nil_r.
  - change (NoDup (tk_ID x :: (tk_ID <$> ts))) in Hnd. simpl. apply NoDup_cons in Hnd as [Hx Hnd]. apply Forall_cons in Hfresh as [Hf Hfresh], Hpos as [Hp Hpos].
    assert (table t_id (t ++ [ticket_row now h x]) = <[tk_ID x := ticket_row now h x]> (table t_id t)) as Ht.
    { by apply (table_snoc t_id t (ticket_row now h x)). }
    destruct (IH (t ++ [ticket_row now h x])) as [IH1 IH2]; [done| |done| |].
    + rewrite Ht. rewrite Forall_forall in *. intros y Hy. rewrite lookup_insert_ne; [auto|].
      intros Heq. apply Hx. rewrite Heq. by apply (list_elem_of_fmap_2 tk_ID).
    + apply table_ok_snoc; [done| |done]. by apply Z.ltb_lt.
    + rewrite <-app_assoc in *. simpl in *. by rewrite <-Ht.
Qed.

Lemma meets_batch now h ts : meets (CStore (OInsertTicketsBatch now h ts)).
Proof.
  intros db Hok. simpl. unfold InsertTicketsBatch. pose proof (insert_tickets_tx_cases now h ts db) as Hc.
  assert ((ts = [] \/ is_Some (table i_payment_hash (invoices db) !! h)) /\
    Forall (fun t => 0 < tk_Bytes t) ts /\ NoDup (tk_ID <$> ts) /\
    Forall (fun t => table t_id (tickets db) !! tk_ID t = None) ts <-> batch_fits h ts db) as Hiff.
  { unfold batch_fits, invoice_keys, ticket_keys. rewrite table_is_Some, list_elem_of_fmap, !Forall_forall.
    setoid_rewrite table_None. setoid_rewrite list_elem_of_fmap. naive_solver. }
  destruct (insert_tickets_tx now h ts db) as [db'|e].
  - destruct Hc as [Hb ->]. apply Hiff in Hb. destruct (table_batch now h ts (tickets db)) as [Ht Hk];
      [apply Hb..|apply Hok|].
    simpl. split; [|put Hok]. left. unfold abs. simpl. rewrite Ht. split; [exact Hb|done].
  - simpl. split; [|done]. right. split; [|eauto]. simpl. by rewrite Hiff.
Qed.
End moves.

Lemma call_meets c : meets c.
Proof.
  destruct c as [[]|]; auto using meets_invoice, meets_ticket, meets_usage, meets_settlement, meets_payout,
    meets_comp, meets_entitlement, meets_redemption, meets_withdrawal, meets_spent, meets_in_flight,
    meets_paid, meets_failed, meets_retrying, meets_redeem, meets_expire, meets_settle, meets_consume,
    meets_consume_int, meets_withdrawal_paid, meets_withdrawal_failed, meets_revoke, meets_renew,
    meets_upsert_lease, meets_wallet, meets_batch.
Qed.

(** [op]'s runs of Ledger.v are the same calls, without the answers. *)
Lemma op_call_run o db : (op_call o db).2 = run_op o db.
Proof. by destruct o. Qed.

(** ** Reads by key *)
Definition reads_agree (db : DB) : Prop := forall k,
  GetInvoice k db = of_row (a_invoices (abs db) !! k) /\
  GetTicket k db = of_row (a_tickets (abs db) !! k) /\
  GetRedemption k db = a_reds (abs db) !! k /\
  GetNodeLease k db = lease_of_row <$> a_leases (abs db) !! k /\
  GetNodeWallet k db = (w ← of_row (a_wallets (abs db) !! k); Ok (w_ln_address w)) /\
  (IsSpent k db = true <-> is_Some (a_spent (abs db) !! k)).

Lemma reads_from_maps db : store_ok db -> reads_agree db.
Proof.
  intros Hok k. unfold GetInvoice, GetTicket, GetRedemption, GetNodeLease, GetNodeWallet. simpl.
  rewrite (table_find i_payment_hash _ _ k), (table_find t_id _ _ k), (table_find r_nonce _ _ k),
    (table_find l_node_pubkey _ _ k), (table_find w_node_pubkey _ _ k);
    try (intros; apply String.eqb_eq); try apply Hok.
  split_and!; [done..|]. rewrite IsSpent_spec, table_is_Some. unfold spent_in.
  rewrite list_elem_of_fmap. naive_solver.
Qed.

Definition empty_spec : Spec := mkSpec ∅ ∅ ∅ ∅ ∅ ∅ ∅ ∅ ∅ ∅ ∅ ∅.

Lemma run_calls_spec cs db : store_ok db ->
  spec_history (run_calls cs db).1 (abs db) (abs (run_calls cs db).2) /\ store_ok (run_calls cs db).2.
Proof.
  revert db. induction cs as [|c cs IH]; intros db Hok; [done|]. simpl.
  destruct (call_meets c db Hok) as [Hc Hok1]. destruct (run_call c db) as [a db1].
  destruct (IH db1 Hok1) as [IH1 IH2]. destruct (run_calls cs db1) as [h db2].
  split; [|done]. by exists (abs db1).
Qed.

(** C1: refinement. Each mutating call of the store, on any database whose
    keys are unique, answers as the specification of that very call says and
    changes the maps as it says: success exactly when the call's constraints
    hold, the named row changed and no other, nothing changed on refusal. It
    keeps the keys unique and the CHECKs true, the reads by key return the
    maps' rows, and every sequence of calls from the empty database, with its
    answers, is a history of the specification. *)
Theorem store_refines_spec :
  (forall c db, store_ok db ->
     spec_post c (abs db) (run_call c db).1 (abs (run_call c db).2) /\
     store_ok (run_call c db).2 /\ reads_agree db) /\
  (forall cs, spec_history (run_calls cs empty_db).1 empty_spec (abs (run_calls cs empty_db).2)).
Proof.
  split.
  - intros c db Hok. destruct (call_meets c db Hok). split_and!; [done..|by apply reads_from_maps].
  - intros cs. by apply (run_calls_spec cs empty_db), empty_ok.
Qed.

(** A database with a settled invoice and two tickets of it. *)
Definition two_tickets : DB :=
  run_ops [ OInsertInvoice "t0" "ph" "lnbc1" 500 "1gb" 1000000000 "t1" "1.2.3.4";
            OSettleInvoice "t0" "ph"; OInsertTicket "t0" "a" "ph" 10 "m"; OInsertTicket "t0" "b" "ph" 10 "m";
            OInsertEntitlement "t0" "ent" "ph" 5 100000000 "key-1" ] empty_db.

Lemma store_refines_spec_witness :
  store_ok two_tickets /\
  run_call (CStore (ORedeemTicket "t2" "a" "me")) two_tickets =
    (ADone (Ok tt), run_op (ORedeemTicket "t2" "a" "me") two_tickets) /\
  a_tickets (abs (run_op (ORedeemTicket "t2" "a" "me") two_tickets)) !! "b"%string =
    Some (mkTicket "b" "ph" 10 "m" TActive "t0" None None) /\
  spec_post (CStore (ORedeemTicket "t2" "a" "me")) (abs two_tickets) (ADone (Ok tt))
    (abs (run_op (ORedeemTicket "t2" "a" "me") two_tickets)).
Proof.
  assert (store_ok two_tickets) as Hok.
  { split; split; vm_compute; repeat constructor; set_solver. }
  split; [exact Hok|]. split; [vm_compute; reflexivity|]. split; [vm_compute; reflexivity|].
  exact (proj1 (proj1 store_refines_spec (CStore (ORedeemTicket "t2" "a" "me")) two_tickets Hok)).
Defined.

(** A negative count, which no caller passes, is not refused: it hands tokens
    back, above the number bought. *)
Example negative_count_adds_tokens :
  run_call (CConsume "ent" (-3)) two_tickets =
    (ADone (Ok tt), (ConsumeEntitlement "ent" (-3) two_tickets).2) /\
  remaining_of "ent" (ConsumeEntitlement "ent" (-3) two_tickets).2 = 8.
Proof. by vm_compute. Qed.
