(* ===== verification/Ecash.v ===== *)
(** * Ecash: the mint's data, its errors and the Store interface it is written
    against (src/internal/ecash/mint.go, lines 26-107)

    [MintStore] is the Go interface [ecash.Store] with its methods, and
    [MintStoreLaws] what its documentation promises, stated on two views of a
    store: the set of spent Y values and the quotes. Mint.v is proved against
    the laws; EcashStore.v shows the SQLite store satisfies them. *)
From S2P Require Import Prelude Sql.

(** ** Quotes and spent proofs *)
Inductive QuoteState := QuoteUnpaid | QuotePaid | QuoteIssued | QuoteExpired.
#[export] Instance QuoteState_eq_dec : EqDecision QuoteState.
Proof. solve_decision. Defined.

Record MintQuote := mkQuote {
  q_ID : string;
  q_Amount : Z;
  q_PaymentRequest : string;
  q_PaymentHash : string;
  q_State : QuoteState;
  q_Expiry : Z;
  q_CreatedAt : string
}.

Definition quote_with (q : MintQuote) (st : QuoteState) : MintQuote :=
  mkQuote (q_ID q) (q_Amount q) (q_PaymentRequest q) (q_PaymentHash q) st (q_Expiry q)
    (q_CreatedAt q).

Record SpentProof := mkSpent {
  sp_Y : string;
  sp_KeysetID : string;
  sp_Amount : Z;
  sp_Secret : string;
  sp_C : string;
  sp_SpentAt : string
}.

Record KeysetRecord := mkKeysetRecord {
  kr_ID : string;
  kr_Unit : string;
  kr_Active : bool;
  kr_DerivationPathIdx : Z;
  kr_InputFeePpk : Z;
  kr_CreatedAt : string
}.

(** ** Errors

    [Wrap] is fmt.Errorf("..: %w", err); [Panicked] is a Go run-time panic,
    which unwinds to the HTTP server (every lock is released by a defer). *)
Inductive mint_error :=
| ErrUnknownKeyset
| ErrInactiveKeyset
| ErrInvalidProof
| ErrProofAlreadySpent
| ErrDuplicateProofs
| ErrAmountMismatch
| ErrQuoteNotFound
| ErrQuoteNotPaid
| ErrQuoteAlreadyUsed
| ErrOutputOverQuote
| ErrPoolFull
| DriverErr (e : sql_error)
| OtherErr (why : string)
| Wrap (why : string) (e : mint_error)
| Panicked.
#[export] Instance mint_error_eq_dec : EqDecision mint_error.
Proof. solve_decision. Defined.

(** errors.Is *)
Fixpoint errors_is (e target : mint_error) : bool :=
  bool_decide (e = target) || match e with Wrap _ e' => errors_is e' target | _ => false end.

Abbreviation mresult A := (result mint_error A).

(** ** The Store interface *)
Class MintStore (S : Type) := {
  SaveKeyset : KeysetRecord -> S -> mresult unit * S;
  GetAllKeysets : S -> mresult (list KeysetRecord);
  SaveMintQuote : MintQuote -> S -> mresult unit * S;
  GetMintQuote : string -> S -> mresult MintQuote;
  UpdateMintQuoteState : string -> QuoteState -> S -> mresult unit * S;
  TransitionMintQuoteState : string -> QuoteState -> QuoteState -> S -> mresult bool * S;
  SaveSpentProofs : list SpentProof -> S -> mresult unit * S;
  IsProofSpent : string -> S -> mresult bool
}.

Class MintStoreLaws (S : Type) `{MintStore S} := {
  store_ok : S -> Prop;
  spent_set : S -> gset string;
  quotes : S -> gmap string MintQuote;

  (** a read reports the current state *)
  law_IsProofSpent y s b :
    store_ok s -> IsProofSpent y s = Ok b -> b = bool_decide (y ∈ spent_set s);
  law_GetMintQuote id s q :
    store_ok s -> GetMintQuote id s = Ok q -> quotes s !! id = Some q;

  (** SaveSpentProofs is all or nothing and rejects a Y already recorded *)
  law_SaveSpentProofs ps s res s' :
    store_ok s -> SaveSpentProofs ps s = (res, s') ->
    store_ok s' /\ quotes s' = quotes s /\
    match res with
    | Ok _ => NoDup (sp_Y <$> ps) /\ (forall p, p ∈ ps -> sp_Y p ∉ spent_set s) /\
              spent_set s' = spent_set s ∪ list_to_set (sp_Y <$> ps)
    | Err _ => spent_set s' = spent_set s
    end;

  (** TransitionMintQuoteState is an atomic compare and set *)
  law_Transition id from to s res s' :
    store_ok s -> TransitionMintQuoteState id from to s = (res, s') ->
    store_ok s' /\ spent_set s' = spent_set s /\
    match res with
    | Ok true => exists q, quotes s !! id = Some q /\ q_State q = from /\
                           quotes s' = <[id := quote_with q to]> (quotes s)
    | Ok false => quotes s' = quotes s /\ forall q, quotes s !! id = Some q -> q_State q <> from
    | Err _ => quotes s' = quotes s
    end;

  (** SaveMintQuote only adds a quote under a new id *)
  law_SaveMintQuote q s res s' :
    store_ok s -> SaveMintQuote q s = (res, s') ->
    store_ok s' /\ spent_set s' = spent_set s /\
    match res with
    | Ok _ => quotes s !! q_ID q = None /\ quotes s' = <[q_ID q := q]> (quotes s)
    | Err _ => quotes s' = quotes s
    end;

  (** UpdateMintQuoteState is unconditional *)
  law_Update id st s res s' :
    store_ok s -> UpdateMintQuoteState id st s = (res, s') ->
    store_ok s' /\ spent_set s' = spent_set s /\
    match res with
    | Ok _ => exists q, quotes s !! id = Some q /\ quotes s' = <[id := quote_with q st]> (quotes s)
    | Err _ => quotes s' = quotes s
    end
}.

(** ** Facts about errors *)
Lemma errors_is_refl e : errors_is e e = true.
Proof.
  destruct e; cbn [errors_is]; apply orb_true_iff; left; by apply bool_decide_eq_true_2.
Qed.

Lemma errors_is_wrap why e target : errors_is e target = true -> errors_is (Wrap why e) target = true.
Proof. cbn [errors_is]. intros ->. apply orb_true_r. Qed.

#[export] Hint Resolve errors_is_refl errors_is_wrap : arfl.
