(* ===== verification/EcashStore.v ===== *)
(** * EcashStore: the Cashu tables of the hub database
    (src/internal/store/ecash_repository.go and the end of schema.go), as an
    instance of the mint's Store interface. *)
From S2P Require Import Prelude Sql Ecash.

(** ** Tables (schema.go, lines 376-440) *)

(** mint_keysets: only the id is constrained. *)
Definition keyset_clash (r r' : KeysetRecord) : bool := String.eqb (kr_ID r) (kr_ID r').

(** mint_quotes *)
Definition quote_check (q : MintQuote) : bool := 0 <? q_Amount q.
Definition quote_clash (q q' : MintQuote) : bool := String.eqb (q_ID q) (q_ID q').
(** mint_quotes_immutable_fields *)
Definition mint_quotes_immutable_fields (o n : MintQuote) : bool :=
  negb (q_Amount o =? q_Amount n)
  || negb (String.eqb (q_PaymentHash o) (q_PaymentHash n))
  || negb (String.eqb (q_PaymentRequest o) (q_PaymentRequest n)).

(** cashu_spent_proofs *)
Definition proof_clash (p p' : SpentProof) : bool := String.eqb (sp_Y p) (sp_Y p').

Record EDB := mkEDB {
  mint_keysets : list KeysetRecord;
  mint_quotes : list MintQuote;
  cashu_spent_proofs : list SpentProof
}.
Definition empty_edb : EDB := mkEDB [] [] [].

(** database/sql refuses a uint64 argument with its high bit set. *)
Definition bind_u64 (z : Z) : bool := z <? 2 ^ 63.

(** ** Operations *)
Definition SaveKeyset_sql (ks : KeysetRecord) (db : EDB) : mresult unit * EDB :=
  match sql_insert keyset_clash (fun _ => true) (fun _ => true) ks (mint_keysets db) with
  | Ok t => (Ok tt, mkEDB t (mint_quotes db) (cashu_spent_proofs db))
  | Err e => (Err (DriverErr e), db)
  end.

Definition GetActiveKeyset (db : EDB) : option KeysetRecord :=
  sql_find kr_Active (mint_keysets db).
Definition GetKeyset (id : string) (db : EDB) : option KeysetRecord :=
  sql_find (fun k => String.eqb (kr_ID k) id) (mint_keysets db).
Definition GetAllKeysets_sql (db : EDB) : mresult (list KeysetRecord) :=
  Ok (order_by (fun x y => kr_DerivationPathIdx x <=? kr_DerivationPathIdx y) (mint_keysets db)).

Definition SaveMintQuote_sql (q : MintQuote) (db : EDB) : mresult unit * EDB :=
  if negb (bind_u64 (q_Amount q)) then (Err (DriverErr UnsupportedUint64), db)
  else match sql_insert quote_clash quote_check (fun _ => true) q (mint_quotes db) with
       | Ok t => (Ok tt, mkEDB (mint_keysets db) t (cashu_spent_proofs db))
       | Err e => (Err (DriverErr e), db)
       end.

Definition quote_is (id : string) (q : MintQuote) : bool := String.eqb (q_ID q) id.
Definition GetMintQuote_sql (id : string) (db : EDB) : mresult MintQuote :=
  match sql_find (quote_is id) (mint_quotes db) with
  | Some q => Ok q
  | None => Err ErrQuoteNotFound
  end.

Definition update_quotes (p : MintQuote -> bool) (st : QuoteState) (db : EDB) :
    result sql_error nat * EDB :=
  let '(t, res) := sql_update p mint_quotes_immutable_fields quote_check
                     (fun q => quote_with q st) (mint_quotes db) in
  (res, mkEDB (mint_keysets db) t (cashu_spent_proofs db)).

Definition UpdateMintQuoteState_sql (id : string) (st : QuoteState) (db : EDB) :
    mresult unit * EDB :=
  let '(res, db') := update_quotes (quote_is id) st db in
  (match res with
   | Err e => Err (DriverErr e)
   | Ok O => Err ErrQuoteNotFound
   | Ok (S _) => Ok tt
   end, db').

Definition TransitionMintQuoteState_sql (id : string) (from to : QuoteState) (db : EDB) :
    mresult bool * EDB :=
  let '(res, db') := update_quotes (fun q => quote_is id q && bool_decide (q_State q = from)) to db in
  (match res with
   | Err e => Err (DriverErr e)
   | Ok n => Ok (bool_decide (0 < n)%nat)
   end, db').

(** isUniqueViolation *)
Definition isUniqueViolation (e : sql_error) : bool := bool_decide (e = UniqueViolation).

(** The loop inside SaveSpentProofs' transaction. *)
Fixpoint spend_tx (ps : list SpentProof) (t : list SpentProof) : mresult (list SpentProof) :=
  match ps with
  | [] => Ok t
  | p :: ps' =>
      if negb (bind_u64 (sp_Amount p))
      then Err (Wrap "inserting spent proof" (DriverErr UnsupportedUint64))
      else match sql_insert proof_clash (fun _ => true) (fun _ => true) p t with
           | Ok t' => spend_tx ps' t'
           | Err e => if isUniqueViolation e then Err ErrProofAlreadySpent
                      else Err (Wrap "inserting spent proof" (DriverErr e))
           end
  end.

Definition SaveSpentProofs_sql (ps : list SpentProof) (db : EDB) : mresult unit * EDB :=
  match spend_tx ps (cashu_spent_proofs db) with
  | Ok t => (Ok tt, mkEDB (mint_keysets db) (mint_quotes db) t)
  | Err e => (Err e, db)
  end.

Definition IsProofSpent_sql (y : string) (db : EDB) : mresult bool :=
  Ok (0 <? Z.of_nat (sql_count (fun p => String.eqb (sp_Y p) y) (cashu_spent_proofs db))).

Definition GetSpentProofsCount (db : EDB) : Z := Z.of_nat (length (cashu_spent_proofs db)).

#[export] Instance sql_mint_store : MintStore EDB := {|
  SaveKeyset := SaveKeyset_sql;
  GetAllKeysets := GetAllKeysets_sql;
  SaveMintQuote := SaveMintQuote_sql;
  GetMintQuote := GetMintQuote_sql;
  UpdateMintQuoteState := UpdateMintQuoteState_sql;
  TransitionMintQuoteState := TransitionMintQuoteState_sql;
  SaveSpentProofs := SaveSpentProofs_sql;
  IsProofSpent := IsProofSpent_sql
|}.

(** ** The SQLite store satisfies the interface's laws *)
Definition edb_ok (db : EDB) : Prop :=
  NoDup (q_ID <$> mint_quotes db) /\ Forall (fun q => quote_check q = true) (mint_quotes db) /\
  NoDup (sp_Y <$> cashu_spent_proofs db).
Definition edb_spent (db : EDB) : gset string := list_to_set (sp_Y <$> cashu_spent_proofs db).
Definition edb_quotes (db : EDB) : gmap string MintQuote :=
  list_to_map ((fun q => (q_ID q, q)) <$> mint_quotes db).

Section laws.
Implicit Types (db : EDB) (t : list MintQuote).

Definition quote_map t : gmap string MintQuote := list_to_map ((fun q => (q_ID q, q)) <$> t).

Lemma quote_map_lookup t id q :
  NoDup (q_ID <$> t) -> (quote_map t !! id = Some q <-> q ∈ t /\ q_ID q = id).
Proof.
  intros Hnd. unfold quote_map.
  assert (NoDup (((fun q => (q_ID q, q)) <$> t).*1)) as Hnd'.
  { by rewrite <-list_fmap_compose. }
  rewrite <-elem_of_list_to_map by done. rewrite list_elem_of_fmap. split.
  - intros (q' & ? & ?); by simplify_eq.
  - intros [Hq <-]. by exists q.
Qed.

Lemma quote_map_snoc t q :
  NoDup (q_ID <$> t ++ [q]) ->
  quote_map t !! q_ID q = None /\ quote_map (t ++ [q]) = <[q_ID q := q]> (quote_map t).
Proof.
  intros Hnd. pose proof Hnd as Hnd1. rewrite fmap_app in Hnd1.
  apply NoDup_app in Hnd1 as (Hnd1 & Hdis & _).
  assert (quote_map t !! q_ID q = None) as Hnone.
  { destruct (quote_map t !! q_ID q) as [r|] eqn:Hl; [|done].
    apply quote_map_lookup in Hl as [Hr Hid]; [|done]. exfalso.
    apply (Hdis (q_ID q)); [rewrite <-Hid; by apply list_elem_of_fmap_2|csimpl; by left]. }
  split; [done|]. apply map_eq. intros i. apply option_eq. intros q'.
  rewrite quote_map_lookup, lookup_insert_Some, quote_map_lookup by done.
  rewrite elem_of_app, list_elem_of_singleton. split.
  - intros [[Hq| ->] <-]; [|by left]. right. split; [|done]. intros Heq.
    rewrite Heq in Hnone. assert (quote_map t !! q_ID q' = Some q') as Hs by by apply quote_map_lookup.
    congruence.
  - intros [[<- <-]|(_ & ? & ?)]; auto.
Qed.

(** An UPDATE of the row with a given key is an insertion in the map view. *)
Lemma quote_map_update t id q st (p : MintQuote -> bool) :
  NoDup (q_ID <$> t) -> q ∈ t -> q_ID q = id -> p q = true ->
  (forall q', p q' = true -> q_ID q' = id) ->
  quote_map ((fun r => if p r then quote_with r st else r) <$> t)
  = <[id := quote_with q st]> (quote_map t).
Proof.
  intros Hnd Hq Hid Hp Honly.
  set (g := fun r => if p r then quote_with r st else r).
  assert (forall r, q_ID (g r) = q_ID r) as Hg by (intros r; unfold g; by destruct (p r)).
  assert (NoDup (q_ID <$> (g <$> t))) as Hnd'.
  { by rewrite fmap_keeps. }
  apply map_eq. intros i. apply option_eq. intros q'.
  rewrite quote_map_lookup, lookup_insert_Some, quote_map_lookup by done.
  rewrite list_elem_of_fmap. split.
  - intros [(r & -> & Hr) Hi]. rewrite Hg in Hi. unfold g. destruct (p r) eqn:Hpr.
    + left. rewrite <-Hi, (Honly r Hpr). split; [done|].
      f_equal. apply Honly in Hpr.
      assert (quote_map t !! id = Some r) by (apply quote_map_lookup; eauto).
      assert (quote_map t !! id = Some q) by (apply quote_map_lookup; eauto).
      congruence.
    + right. split; [|done]. intros <-.
      assert (quote_map t !! id = Some r) by (by apply quote_map_lookup).
      assert (quote_map t !! id = Some q) by (by apply quote_map_lookup).
      congruence.
  - intros [[<- <-]|(Hne & Hr & Hi)].
    + split; [|done]. exists q. split; [|done]. unfold g. by rewrite Hp.
    + split; [|done]. exists q'. split; [|done]. unfold g.
      destruct (p q') eqn:Hpq; [|done]. apply Honly in Hpq. congruence.
Qed.

Lemma update_quotes_spec p st db :
  edb_ok db ->
  update_quotes p st db =
    (Ok (sql_count p (mint_quotes db)),
     mkEDB (mint_keysets db)
       ((fun r => if p r then quote_with r st else r) <$> mint_quotes db)
       (cashu_spent_proofs db)).
Proof.
  intros (_ & Hchk & _). unfold update_quotes. rewrite sql_update_map; [done|].
  intros r Hr _. rewrite Forall_forall in Hchk. split; [|exact (Hchk r Hr)].
  unfold mint_quotes_immutable_fields, quote_with; simpl.
  by rewrite Z.eqb_refl, !String.eqb_refl.
Qed.

Lemma update_quotes_ok p st db : edb_ok db -> edb_ok (update_quotes p st db).2.
Proof.
  intros Hok. rewrite update_quotes_spec by done. destruct Hok as (Hnd & Hchk & Hs).
  split_and!; simpl; [|apply Forall_fmap; eapply Forall_impl; [done|]|done].
  - rewrite fmap_keeps; [done|]. intros q. by destruct (p q).
  - intros q Hq. simpl. by destruct (p q).
Qed.

Lemma update_quotes_none p st db :
  edb_ok db -> sql_count p (mint_quotes db) = 0%nat -> (update_quotes p st db).2 = db.
Proof.
  intros _ Hc. unfold update_quotes. rewrite sql_update_none by done. by destruct db.
Qed.

Lemma spend_tx_Ok ps (t t' : list SpentProof) :
  NoDup (sp_Y <$> t) -> spend_tx ps t = Ok t' ->
  t' = t ++ ps /\ NoDup (sp_Y <$> t').
Proof.
  revert t. induction ps as [|p ps IH]; simpl; intros t Hnd H.
  - simplify_eq. by rewrite app_nil_r.
  - destruct (negb (bind_u64 (sp_Amount p))); [done|].
    destruct (sql_insert _ _ _ p t) as [t1|e] eqn:Hi; [|by destruct (isUniqueViolation _)].
    apply sql_insert_Ok in Hi as (-> & _ & _ & Hfresh).
    apply IH in H as [-> Hnd']; [by rewrite <-app_assoc in Hnd' |- *|].
    rewrite fmap_app. apply NoDup_app. split_and!; [done| |apply NoDup_singleton].
    intros y (r & -> & Hr)%list_elem_of_fmap Heq%list_elem_of_singleton.
    specialize (Hfresh r Hr). unfold proof_clash in Hfresh. bprop. congruence.
Qed.

Lemma IsProofSpent_read y db :
  IsProofSpent_sql y db = Ok (bool_decide (y ∈ edb_spent db)).
Proof.
  unfold IsProofSpent_sql. f_equal. apply Bool.eq_iff_eq_true.
  rewrite bool_decide_eq_true, Z.ltb_lt, <-(Nat2Z.inj_lt 0), sql_count_pos.
  unfold edb_spent. rewrite elem_of_list_to_set, list_elem_of_fmap. split.
  - intros (p & ? & <-%String.eqb_eq). by exists p.
  - intros (p & -> & ?). exists p. by rewrite String.eqb_refl.
Qed.

Lemma SaveSpentProofs_atomic ps db res db' :
  edb_ok db -> SaveSpentProofs_sql ps db = (res, db') ->
  edb_ok db' /\ edb_quotes db' = edb_quotes db /\
  match res with
  | Ok _ => NoDup (sp_Y <$> ps) /\ (forall p, p ∈ ps -> sp_Y p ∉ edb_spent db) /\
            edb_spent db' = edb_spent db ∪ list_to_set (sp_Y <$> ps)
  | Err _ => edb_spent db' = edb_spent db
  end.
Proof.
  intros Hok. unfold SaveSpentProofs_sql.
  destruct (spend_tx _ _) as [t|e] eqn:Ht; intros [= <- <-]; [|done].
  destruct Hok as (? & ? & Hs). apply spend_tx_Ok in Ht as [-> Hnd]; [|done].
  split; [done|]. split; [done|].
  rewrite fmap_app in Hnd. apply NoDup_app in Hnd as (_ & Hdis & Hps).
  split_and!; [done| |].
  - intros p Hp. unfold edb_spent. rewrite elem_of_list_to_set. intros Hin.
    eapply Hdis; [done|]. by apply list_elem_of_fmap_2.
  - unfold edb_spent. simpl. by rewrite fmap_app, list_to_set_app_L.
Qed.

(** What an UPDATE of one quote does, by whether a row matched. *)
Lemma update_one_quote p id st db (Hp : forall q, p q = true -> q_ID q = id) :
  edb_ok db ->
  edb_ok (update_quotes p st db).2 /\ edb_spent (update_quotes p st db).2 = edb_spent db /\
  (update_quotes p st db).1 = Ok (sql_count p (mint_quotes db)) /\
  ((0 < sql_count p (mint_quotes db))%nat ->
     exists q, edb_quotes db !! id = Some q /\ p q = true /\
       edb_quotes (update_quotes p st db).2 = <[id := quote_with q st]> (edb_quotes db)) /\
  (sql_count p (mint_quotes db) = 0%nat ->
     (update_quotes p st db).2 = db /\ forall q, edb_quotes db !! id = Some q -> p q = false).
Proof.
  intros Hok. split_and!; [by apply update_quotes_ok|by rewrite update_quotes_spec|
    by rewrite update_quotes_spec| |].
  - intros Hpos. rewrite update_quotes_spec by done.
    apply sql_count_pos in Hpos as (q & Hq & Hpq). exists q. split_and!; [|done|].
    + apply quote_map_lookup; [apply Hok|]. split; [done|]. by apply Hp.
    + rewrite <-(Hp q Hpq). apply quote_map_update with (p := p); [apply Hok|done..|].
      intros q' Hq'. by rewrite (Hp q' Hq'), (Hp q Hpq).
  - intros Hzero. split; [by apply update_quotes_none|].
    intros q [Hq _]%quote_map_lookup; [|apply Hok]. destruct (p q) eqn:Hpq; [|done].
    assert (0 < sql_count p (mint_quotes db))%nat; [|lia]. apply sql_count_pos. by exists q.
Qed.

Lemma SaveMintQuote_adds q db res db' :
  edb_ok db -> SaveMintQuote_sql q db = (res, db') ->
  edb_ok db' /\ edb_spent db' = edb_spent db /\
  match res with
  | Ok _ => edb_quotes db !! q_ID q = None /\ edb_quotes db' = <[q_ID q := q]> (edb_quotes db)
  | Err _ => edb_quotes db' = edb_quotes db
  end.
Proof.
  intros (Hnd & Hchk & Hs). unfold SaveMintQuote_sql. destruct (negb _); [by intros [= <- <-]|].
  destruct (sql_insert _ _ _ _ _) as [t|e] eqn:Hi; intros [= <- <-]; [|done].
  apply sql_insert_Ok in Hi as (-> & Hc & _ & Hfresh).
  assert (NoDup (q_ID <$> mint_quotes db ++ [q])) as Hnd'.
  { rewrite fmap_app. apply NoDup_app. split_and!; [done| |apply NoDup_singleton].
    intros i (r & -> & Hr)%list_elem_of_fmap Heq%list_elem_of_singleton.
    specialize (Hfresh r Hr). unfold quote_clash in Hfresh. bprop. congruence. }
  split; [split_and!; simpl; [done|apply Forall_app; by repeat constructor|done]|].
  split; [done|]. by apply quote_map_snoc.
Qed.

#[export] Instance sql_mint_store_laws : MintStoreLaws EDB.
Proof.
  refine {| store_ok := edb_ok; spent_set := edb_spent; quotes := edb_quotes |}.
  - intros y db b _. simpl. rewrite IsProofSpent_read. by intros [= <-].
  - intros id db q (Hnd & _). simpl. unfold GetMintQuote_sql.
    destruct (sql_find _ _) eqn:Hf; [|done]. intros [= ->].
    apply sql_find_Some in Hf as [Hq Hid%String.eqb_eq]. by apply quote_map_lookup.
  - apply SaveSpentProofs_atomic.
  - intros id from to db res db' Hok. simpl. unfold TransitionMintQuoteState_sql.
    set (p := fun q => quote_is id q && bool_decide (q_State q = from)).
    destruct (update_one_quote p id to db) as (Hok' & Hs & Hn & Hpos & Hzero); [|done|].
    { intros q Hq. unfold p, quote_is in Hq. by bprop. }
    destruct (update_quotes p to db) as [r db1] eqn:Hu. simpl in *. subst r. intros [= <- <-].
    split; [done|]. split; [done|]. case_bool_decide as Hc.
    + destruct (Hpos Hc) as (q & Hq & Hpq & ->). exists q. unfold p in Hpq. by bprop.
    + destruct Hzero as [-> Hno]; [lia|]. split; [done|]. intros q Hq Hst. specialize (Hno q Hq).
      apply quote_map_lookup in Hq as [_ Hid]; [|apply Hok].
      revert Hno. unfold p, quote_is. by rewrite Hid, String.eqb_refl, bool_decide_eq_true_2.
  - apply SaveMintQuote_adds.
  - intros id st db res db' Hok. simpl. unfold UpdateMintQuoteState_sql.
    destruct (update_one_quote (quote_is id) id st db) as (Hok' & Hs & Hn & Hpos & Hzero); [|done|].
    { intros q Hq. unfold quote_is in Hq. by bprop. }
    destruct (update_quotes (quote_is id) st db) as [r db1] eqn:Hu. simpl in *. subst r.
    destruct (sql_count (quote_is id) (mint_quotes db)) eqn:Hc; intros [= <- <-].
    + destruct Hzero as [-> _]; [done|]. done.
    + split; [done|]. split; [done|]. destruct Hpos as (q & Hq & _ & ->); [lia|]. by exists q.
Defined.
End laws.
