(* ===== verification/Mint.v ===== *)
(** * Mint: the Cashu mint (src/internal/ecash/mint.go)

    The curve, the key derivation and gonuts' list helpers are the class
    [Bdhke]; the store is any [MintStore]. A [Mint] is the in-memory half of
    the Go struct, [S] the store behind it. Operations that the Go code runs
    under [mu] or [spendMu] are single functions here; [Spend] and [Issue] take
    them apart again into the steps that several requests (and several hub
    processes sharing one database) interleave. *)
From S2P Require Import Prelude Sql Ecash EcashStore.

(** ** gonuts and secp256k1 *)
Record Proof_ := mkProof { p_Amount : Z; p_Id : string; p_Secret : string; p_C : string }.
Record BlindedMessage := mkBM { bm_Amount : Z; bm_B_ : string; bm_Id : string }.
Record BlindedSignature := mkBS { bs_Amount : Z; bs_C_ : string; bs_Id : string }.

(** What mint.go calls in gonuts/crypto, gonuts/cashu, secp256k1 and
    hdkeychain. *)
Class Bdhke := {
  Point : Type;
  Scalar : Type;
  ExtendedKey : Type;
  Point_eq_dec :: EqDecision Point;
  ParsePubKey : string -> option Point;
  SerializeCompressed : Point -> string;
  ScalarMult : Scalar -> Point -> Point;
  HashToCurve : string -> option Point;
  SignBlindedMessage : Point -> Scalar -> Point;
  NewMaster : string -> option ExtendedKey;
  CheckDuplicateProofs : list Proof_ -> bool;
  ProofsAmount : list Proof_ -> Z;
  OutputsAmount : list BlindedMessage -> Z;
  (** Proofs.Amount() and BlindedMessages.Amount() add up uint64 amounts, and
      wrap around. *)
  law_ProofsAmount ps : ProofsAmount ps = usum_by p_Amount ps;
  law_OutputsAmount outs : OutputsAmount outs = usum_by bm_Amount outs
}.

Section mint.
Context `{Bdhke}.

Record KeyPair := mkKeyPair { kp_PrivateKey : Scalar; kp_PublicKey : Point }.
Record MintKeyset := mkKeyset {
  mk_Id : string;
  mk_Unit : string;
  mk_Active : bool;
  mk_Keys : gmap Z KeyPair;
  mk_InputFeePpk : Z
}.
Definition with_active (ks : MintKeyset) (b : bool) : MintKeyset :=
  mkKeyset (mk_Id ks) (mk_Unit ks) b (mk_Keys ks) (mk_InputFeePpk ks).

(** gcrypto.GenerateKeyset *)
Context (GenerateKeyset : ExtendedKey -> Z -> Z -> option MintKeyset).

Record Mint := mkMint {
  m_activeKeyset : option MintKeyset;
  m_keysets : gmap string MintKeyset;
  m_masterKey : ExtendedKey;
  m_nextKeysetIdx : Z
}.

Section with_store.
Context {S : Type} `{MintStore S}.
Implicit Types (m : Mint) (s : S).

(** *** Construction *)
(** uint32 arithmetic *)
Definition next_idx (i : Z) : Z := (i + 1) mod 2 ^ 32.

Definition generateKeyset m s (now : string) : mresult Mint * S :=
  match GenerateKeyset (m_masterKey m) (m_nextKeysetIdx m) 0 with
  | None => (Err (OtherErr "generating keyset"), s)
  | Some ks0 =>
      let ks := with_active ks0 true in
      let rec := mkKeysetRecord (mk_Id ks) (mk_Unit ks) true (m_nextKeysetIdx m) 0 now in
      match SaveKeyset rec s with
      | (Err e, s') => (Err (Wrap "saving keyset" e), s')
      | (Ok _, s') =>
          (Ok (mkMint (Some ks) (<[mk_Id ks := ks]> (m_keysets m)) (m_masterKey m)
                 (next_idx (m_nextKeysetIdx m))), s')
      end
  end.

(** One iteration of the loop over the stored records. *)
Definition load_record (m : Mint) (rec : KeysetRecord) : mresult Mint :=
  match GenerateKeyset (m_masterKey m) (kr_DerivationPathIdx rec) (kr_InputFeePpk rec) with
  | None => Err (OtherErr "regenerating keyset")
  | Some ks0 =>
      let ks := with_active ks0 (kr_Active rec) in
      Ok (mkMint (if kr_Active rec then Some ks else m_activeKeyset m)
            (<[mk_Id ks := ks]> (m_keysets m)) (m_masterKey m)
            (if m_nextKeysetIdx m <=? kr_DerivationPathIdx rec
             then next_idx (kr_DerivationPathIdx rec) else m_nextKeysetIdx m))
  end.
Fixpoint load_records (m : Mint) (recs : list KeysetRecord) : mresult Mint :=
  match recs with
  | [] => Ok m
  | rec :: recs' => m' ← load_record m rec; load_records m' recs'
  end.

Definition NewMint (seed : string) (now : string) s : mresult Mint * S :=
  match NewMaster seed with
  | None => (Err (OtherErr "deriving master key"), s)
  | Some masterKey =>
      match GetAllKeysets s with
      | Err e => (Err (Wrap "loading keysets" e), s)
      | Ok records =>
          match load_records (mkMint None ∅ masterKey 0) records with
          | Err e => (Err e, s)
          | Ok m =>
              match m_activeKeyset m with
              | None => generateKeyset m s now
              | Some _ => (Ok m, s)
              end
          end
      end
  end.

(** *** Reads *)
Definition ActiveKeysetID m : mresult string :=
  match m_activeKeyset m with Some ks => Ok (mk_Id ks) | None => Err Panicked end.
Definition keysetPublicKeys (ks : MintKeyset) : gmap Z string :=
  (fun kp => hex_encode (SerializeCompressed (kp_PublicKey kp))) <$> mk_Keys ks.
Definition KeysetPublicKeys m (keysetID : string) : mresult (gmap Z string) :=
  match m_keysets m !! keysetID with
  | None => Err ErrUnknownKeyset
  | Some ks => Ok (keysetPublicKeys ks)
  end.

(** *** Signing *)
Definition parsePublicKey (hexStr : string) : option Point :=
  match hex_decode hexStr with Some b => ParsePubKey b | None => None end.

Definition sign_one m (msg : BlindedMessage) : mresult BlindedSignature :=
  match m_keysets m !! bm_Id msg with
  | None => Err ErrUnknownKeyset
  | Some ks =>
      if negb (mk_Active ks) then Err ErrInactiveKeyset
      else match mk_Keys ks !! bm_Amount msg with
           | None => Err (OtherErr "no key for amount")
           | Some kp =>
               match parsePublicKey (bm_B_ msg) with
               | None => Err (OtherErr "invalid blinded message")
               | Some B_ =>
                   let C_ := SignBlindedMessage B_ (kp_PrivateKey kp) in
                   Ok (mkBS (bm_Amount msg) (hex_encode (SerializeCompressed C_)) (mk_Id ks))
               end
           end
  end.
Fixpoint SignBlindedMessages m (outputs : list BlindedMessage) : mresult (list BlindedSignature) :=
  match outputs with
  | [] => Ok []
  | msg :: rest =>
      sig ← sign_one m msg;
      sigs ← SignBlindedMessages m rest;
      Ok (sig :: sigs)
  end.

(** *** Verification

    hex.Decode into a fixed buffer: pairs are decoded left to right, a bad
    digit or an odd length is an error, and the pair after the last byte of
    the buffer is an index out of range, which panics. *)
Inductive hex_buf := BufOk (bytes : string) | BufErr | BufPanic.
Fixpoint hex_decode_buf (cap : nat) (src : string) {struct src} : hex_buf :=
  match src with
  | EmptyString => BufOk ""
  | String a (String b r) =>
      match hex_value a, hex_value b, cap with
      | Some x, Some y, O => BufPanic
      | Some x, Some y, Datatypes.S cap' =>
          match hex_decode_buf cap' r with
          | BufOk t => BufOk (String (ascii_of_nat (16 * x + y)) t)
          | e => e
          end
      | _, _, _ => BufErr
      end
  | String _ EmptyString => BufErr
  end.

(** One iteration of VerifyProofs' loop; [read] is store.IsProofSpent at
    the moment it is called. *)
Definition verify_one m (read : string -> mresult bool) (now : string) (proof : Proof_) :
    mresult SpentProof :=
  match m_keysets m !! p_Id proof with
  | None => Err ErrUnknownKeyset
  | Some ks =>
      match mk_Keys ks !! p_Amount proof with
      | None => Err (OtherErr "no key for amount in keyset")
      | Some kp =>
          match hex_decode_buf 33 (p_C proof) with
          | BufPanic => Err Panicked
          | BufErr => Err (OtherErr "invalid C in proof")
          | BufOk b =>
              if negb (slen b =? 33) then Err (OtherErr "invalid C in proof")
              else match ParsePubKey b with
                   | None => Err (OtherErr "invalid C in proof")
                   | Some C =>
                       match HashToCurve (p_Secret proof) with
                       | None => Err (OtherErr "hashing secret to curve")
                       | Some Y =>
                           if negb (bool_decide (C = ScalarMult (kp_PrivateKey kp) Y))
                           then Err ErrInvalidProof
                           else
                             let yHex := hex_encode (SerializeCompressed Y) in
                             match read yHex with
                             | Err e => Err (Wrap "checking spent status" e)
                             | Ok true => Err ErrProofAlreadySpent
                             | Ok false =>
                                 Ok (mkSpent yHex (p_Id proof) (p_Amount proof)
                                       (p_Secret proof) (p_C proof) now)
                             end
                       end
                   end
          end
      end
  end.
Fixpoint verify_loop m (reads : nat -> string -> mresult bool) (i : nat) (now : string)
    (proofs : list Proof_) : mresult (list SpentProof) :=
  match proofs with
  | [] => Ok []
  | p :: rest =>
      sp ← verify_one m (reads i) now p;
      sps ← verify_loop m reads (Datatypes.S i) now rest;
      Ok (sp :: sps)
  end.
(** [reads i] answers the i-th proof's query. *)
Definition VerifyProofs_reading m (reads : nat -> string -> mresult bool) (now : string)
    (proofs : list Proof_) : mresult (list SpentProof) :=
  if CheckDuplicateProofs proofs then Err ErrDuplicateProofs
  else verify_loop m reads 0 now proofs.
Definition VerifyProofs m s (now : string) (proofs : list Proof_) : mresult (list SpentProof) :=
  VerifyProofs_reading m (fun _ y => IsProofSpent y s) now proofs.

(** *** Spending *)
Definition VerifyAndMarkSpent m (now : string) (proofs : list Proof_) s :
    mresult (list SpentProof) * S :=
  match VerifyProofs m s now proofs with
  | Err e => (Err e, s)
  | Ok spent =>
      match SaveSpentProofs spent s with
      | (Err e, s') => (Err (Wrap "saving spent proofs" e), s')
      | (Ok _, s') => (Ok spent, s')
      end
  end.

Definition Swap m (now : string) (inputs : list Proof_) (outputs : list BlindedMessage) s :
    mresult (list BlindedSignature) * S :=
  if negb (ProofsAmount inputs =? OutputsAmount outputs) then (Err ErrAmountMismatch, s)
  else match VerifyAndMarkSpent m now inputs s with
       | (Err e, s') => (Err e, s')
       | (Ok _, s') => (SignBlindedMessages m outputs, s')
       end.

(** *** Minting *)
(** The state switch and the amount check: the claim may be attempted. *)
Definition mint_guard (quote : MintQuote) (outputs : list BlindedMessage) : mresult unit :=
  match q_State quote with
  | QuoteUnpaid => Err ErrQuoteNotPaid
  | QuoteIssued => Err ErrQuoteAlreadyUsed
  | QuoteExpired => Err ErrQuoteNotPaid
  | QuotePaid =>
      guard_or ErrOutputOverQuote (OutputsAmount outputs <=? q_Amount quote)
  end.

(** The release after a failed signature. *)
Definition release_quote (quoteID : string) (err : mint_error) s :
    mresult (list BlindedSignature) * S :=
  match TransitionMintQuoteState quoteID QuoteIssued QuotePaid s with
  | (Err rerr, s') => (Err (Wrap "quote could not be released" rerr), s')
  | (Ok false, s') => (Err (OtherErr "quote was not released"), s')
  | (Ok true, s') => (Err err, s')
  end.

Definition MintTokens m (quoteID : string) (outputs : list BlindedMessage) s :
    mresult (list BlindedSignature) * S :=
  match GetMintQuote quoteID s with
  | Err _ => (Err ErrQuoteNotFound, s)
  | Ok quote =>
      match mint_guard quote outputs with
      | Err e => (Err e, s)
      | Ok _ =>
          match TransitionMintQuoteState quoteID QuotePaid QuoteIssued s with
          | (Err e, s') => (Err (Wrap "claiming quote" e), s')
          | (Ok false, s') => (Err ErrQuoteAlreadyUsed, s')
          | (Ok true, s') =>
              match SignBlindedMessages m outputs with
              | Ok sigs => (Ok sigs, s')
              | Err e => release_quote quoteID e s'
              end
          end
      end
  end.

(** *** State queries (NUT-07) *)
Inductive ProofStateEnum := ProofStateUnspent | ProofStateSpent | ProofStatePending.
Fixpoint CheckProofsState s (Ys : list string) : mresult (list (string * ProofStateEnum)) :=
  match Ys with
  | [] => Ok []
  | yHex :: rest =>
      match IsProofSpent yHex s with
      | Err e => Err (Wrap "checking state" e)
      | Ok spent =>
          states ← CheckProofsState s rest;
          Ok ((yHex, if spent then ProofStateSpent else ProofStateUnspent) :: states)
      end
  end.
End with_store.

Definition HashSecret (secret : string) : option string :=
  match HashToCurve secret with
  | None => None
  | Some Y => Some (hex_encode (SerializeCompressed Y))
  end.
End mint.

(** A uint64 sum depends on the amounts only. *)
Lemma usum_by_same {A B} (f : A -> Z) (g : B -> Z) l k : f <$> l = g <$> k -> usum_by f l = usum_by g k.
Proof. intros Heq. rewrite !usum_by_wrap. unfold zsum_by. by rewrite Heq. Qed.

(** ** Facts about single operations *)
Lemma hex_decode_buf_encode cap s :
  hex_decode_buf cap (hex_encode s) =
    if (String.length s <=? cap)%nat then BufOk s else BufPanic.
Proof.
  revert cap. induction s as [|c s IH]; intros cap; [by destruct cap|].
  assert (hex_value (hex_digit (nat_of_ascii c / 16)) = Some (nat_of_ascii c / 16)%nat /\
          hex_value (hex_digit (nat_of_ascii c mod 16)) = Some (nat_of_ascii c mod 16)%nat /\
          ascii_of_nat (16 * (nat_of_ascii c / 16) + nat_of_ascii c mod 16) = c)
    as (Hh & Hl & Hc) by (by destruct c as [[] [] [] [] [] [] [] []]).
  cbn -[Nat.div Nat.modulo hex_digit hex_value Nat.leb Nat.mul].
  rewrite Hh, Hl. destruct cap as [|cap]; [done|]. rewrite IH, Hc.
  change (String.length s <=? cap)%nat with (Datatypes.S (String.length s) <=? Datatypes.S cap)%nat.
  by destruct (_ <=? _)%nat.
Qed.

Section facts.
Context `{Bdhke} {S : Type} `{!MintStore S}.
Implicit Types (m : Mint) (s : S).

(** What one accepted proof establishes. *)
Definition verified m (read : string -> mresult bool) (now : string) (p : Proof_) (sp : SpentProof) : Prop :=
  exists ks kp b Y,
    m_keysets m !! p_Id p = Some ks /\ mk_Keys ks !! p_Amount p = Some kp /\
    hex_decode_buf 33 (p_C p) = BufOk b /\
    HashToCurve (p_Secret p) = Some Y /\
    ParsePubKey b = Some (ScalarMult (kp_PrivateKey kp) Y) /\
    read (hex_encode (SerializeCompressed Y)) = Ok false /\
    sp = mkSpent (hex_encode (SerializeCompressed Y)) (p_Id p) (p_Amount p) (p_Secret p) (p_C p) now.

Lemma verify_one_Ok m read now p sp :
  verify_one m read now p = Ok sp -> verified m read now p sp.
Proof.
  unfold verify_one, verified. intros Hv.
  destruct (m_keysets m !! p_Id p) as [ks|] eqn:?; [|done].
  destruct (mk_Keys ks !! p_Amount p) as [kp|] eqn:?; [|done].
  destruct (hex_decode_buf 33 (p_C p)) as [b| |] eqn:?; [|done..].
  destruct (slen b =? 33); simpl in Hv; [|done].
  destruct (ParsePubKey b) as [C|] eqn:?; [|done].
  destruct (HashToCurve (p_Secret p)) as [Y|] eqn:?; [|done].
  destruct (bool_decide _) eqn:Hb; simpl in Hv; [|done]. bprop.
  destruct (read _) as [[]|] eqn:?; simplify_eq. naive_solver.
Qed.

(** A genuine proof: its keyset and amount have a key, and its C is the point
    that key makes of the secret's Y. *)
Definition genuine m (p : Proof_) (Y : Point) : Prop :=
  exists ks kp b,
    m_keysets m !! p_Id p = Some ks /\ mk_Keys ks !! p_Amount p = Some kp /\
    hex_decode_buf 33 (p_C p) = BufOk b /\ slen b = 33 /\
    HashToCurve (p_Secret p) = Some Y /\ ParsePubKey b = Some (ScalarMult (kp_PrivateKey kp) Y).
Definition Y_hex (Y : Point) : string := hex_encode (SerializeCompressed Y).
Definition spent_record (now : string) (p : Proof_) (Y : Point) : SpentProof :=
  mkSpent (Y_hex Y) (p_Id p) (p_Amount p) (p_Secret p) (p_C p) now.

Lemma verify_one_iff m read now p sp :
  verify_one m read now p = Ok sp <->
  exists Y, genuine m p Y /\ read (Y_hex Y) = Ok false /\ sp = spent_record now p Y.
Proof.
  unfold verify_one, genuine. split.
  - intros Hv. destruct (m_keysets m !! p_Id p) as [ks|] eqn:?; [|done].
    destruct (mk_Keys ks !! p_Amount p) as [kp|] eqn:?; [|done].
    destruct (hex_decode_buf 33 (p_C p)) as [b| |] eqn:?; [|done..].
    destruct (slen b =? 33) eqn:?; simpl in Hv; [|done].
    destruct (ParsePubKey b) as [C|] eqn:?; [|done].
    destruct (HashToCurve (p_Secret p)) as [Y|] eqn:?; [|done].
    destruct (bool_decide _) eqn:Hb; simpl in Hv; [|done]. bprop.
    destruct (read _) as [[]|] eqn:?; simplify_eq. exists Y. split_and!; [|done..].
    exists ks, kp, b. split_and!; try done.
  - intros (Y & (ks & kp & b & -> & -> & -> & Hb & -> & ->) & Hr & ->).
    rewrite Hb, bool_decide_true by done. simpl. unfold Y_hex in Hr. by rewrite Hr.
Qed.

Lemma verify_loop_iff m read i now ps sps :
  verify_loop m (fun _ => read) i now ps = Ok sps <->
  exists Ys, Forall2 (genuine m) ps Ys /\ Forall (fun Y => read (Y_hex Y) = Ok false) Ys /\
    sps = zip_with (spent_record now) ps Ys.
Proof.
  revert i sps. induction ps as [|p ps IH]; simpl; intros i sps.
  - split; [intros [= <-]; by exists []|]. intros (Ys & ->%Forall2_nil_inv_l & _ & ->). done.
  - split.
    + destruct (verify_one m read now p) as [sp|] eqn:Hone; simpl; [|done].
      destruct (verify_loop m _ _ now ps) as [sps'|] eqn:Hl; simpl; intros [= <-].
      apply verify_one_iff in Hone as (Y & ? & ? & ->). apply IH in Hl as (Ys & ? & ? & ->).
      exists (Y :: Ys). auto.
    + intros (Ys & HYs & Hr & ->). destruct Ys as [|Y Ys]; [by apply Forall2_nil_inv_r in HYs|].
      apply Forall2_cons in HYs as [Hg HYs]. apply Forall_cons in Hr as [Hr1 Hr].
      rewrite (proj2 (verify_one_iff m read now p (spent_record now p Y))) by eauto. simpl.
      rewrite (proj2 (IH (Datatypes.S i) (zip_with (spent_record now) ps Ys))) by eauto. done.
Qed.

Lemma verify_loop_Ok m reads i now ps sps :
  verify_loop m reads i now ps = Ok sps ->
  Forall2 (fun p sp => exists j, verified m (reads j) now p sp) ps sps.
Proof.
  revert i sps. induction ps as [|p ps IH]; simpl; intros i sps Hv; simplify_eq; [constructor|].
  destruct (verify_one _ _ _ _) as [sp|] eqn:Hone; simpl in Hv; [|done].
  destruct (verify_loop _ _ _ _ _) as [sps'|] eqn:Hl; simplify_eq/=.
  constructor; [|by eapply IH]. exists i. by apply verify_one_Ok.
Qed.

Lemma VerifyProofs_reading_Ok m reads now ps sps :
  VerifyProofs_reading m reads now ps = Ok sps ->
  CheckDuplicateProofs ps = false /\
  Forall2 (fun p sp => exists j, verified m (reads j) now p sp) ps sps.
Proof.
  unfold VerifyProofs_reading. destruct (CheckDuplicateProofs ps); [done|].
  intros Hv. split; [done|]. by eapply verify_loop_Ok.
Qed.

Lemma SignBlindedMessages_Ok m outs sigs :
  SignBlindedMessages m outs = Ok sigs <-> Forall2 (fun msg sig => sign_one m msg = Ok sig) outs sigs.
Proof.
  split.
  - revert sigs. induction outs as [|o outs IH]; simpl; intros sigs Hs; simplify_eq; [constructor|].
    destruct (sign_one m o) as [sig|] eqn:?; simpl in Hs; [|done].
    destruct (SignBlindedMessages m outs) as [sigs'|] eqn:?; simplify_eq/=. constructor; auto.
  - induction 1 as [|o sig outs sigs Ho _ IH]; simpl; [done|]. by rewrite Ho, IH.
Qed.

(** What one signature is: the active key of the amount on the point sent. *)
Definition signed_as m (o : BlindedMessage) (sig : BlindedSignature) : Prop :=
  exists ks kp B, m_keysets m !! bm_Id o = Some ks /\ mk_Active ks = true /\
    mk_Keys ks !! bm_Amount o = Some kp /\ parsePublicKey (bm_B_ o) = Some B /\
    sig = mkBS (bm_Amount o) (hex_encode (SerializeCompressed (SignBlindedMessage B (kp_PrivateKey kp))))
            (mk_Id ks).

Lemma sign_one_iff m o sig : sign_one m o = Ok sig <-> signed_as m o sig.
Proof.
  unfold sign_one, signed_as. split.
  - intros Hs. destruct (m_keysets m !! bm_Id o) as [ks|]; [|done].
    destruct (mk_Active ks) eqn:?; [|done]. simpl in Hs.
    destruct (mk_Keys ks !! bm_Amount o) as [kp|] eqn:?; [|done].
    destruct (parsePublicKey (bm_B_ o)) as [B|]; simplify_eq. by exists ks, kp, B.
  - intros (ks & kp & B & -> & -> & Hk & Hp & ->). simpl. by rewrite Hk, Hp.
Qed.

Lemma sign_all_iff m outs sigs :
  SignBlindedMessages m outs = Ok sigs <-> Forall2 (signed_as m) outs sigs.
Proof.
  rewrite SignBlindedMessages_Ok. split; intros Hf; (eapply Forall2_impl; [exact Hf|]);
    intros; by apply sign_one_iff.
Qed.

Lemma sign_one_amount m msg sig :
  sign_one m msg = Ok sig -> bs_Amount sig = bm_Amount msg.
Proof. unfold sign_one. intros Hs. crush. Qed.

Lemma SignBlindedMessages_amounts m outs sigs :
  SignBlindedMessages m outs = Ok sigs -> bs_Amount <$> sigs = bm_Amount <$> outs.
Proof.
  rewrite SignBlindedMessages_Ok. induction 1 as [|o sig outs sigs Ho _ IH]; [done|].
  csimpl. by rewrite IH, (sign_one_amount _ _ _ Ho).
Qed.
End facts.

(** ** The mint over a lawful store *)
Section lawful.
Context `{Bdhke} {S : Type} `{MintStoreLaws S}.
Implicit Types (m : Mint) (s : S).

(** The Y under which a proof is recorded. *)
Definition proof_Y (p : Proof_) : option string := HashSecret (p_Secret p).

Lemma verified_Y m read now p sp : verified m read now p sp -> proof_Y p = Some (sp_Y sp).
Proof. intros (ks & kp & b & Y & _ & _ & _ & HY & _ & _ & ->). unfold proof_Y, HashSecret. by rewrite HY. Qed.

Lemma verified_all_Y m (reads : nat -> string -> mresult bool) now ps sps :
  Forall2 (fun p sp => exists j, verified m (reads j) now p sp) ps sps ->
  proof_Y <$> ps = Some <$> (sp_Y <$> sps).
Proof.
  induction 1 as [|p sp ps sps [j Hj] _ IH]; [done|]. csimpl.
  by rewrite IH, (verified_Y _ _ _ _ _ Hj).
Qed.

Lemma VerifyAndMarkSpent_spec m now ps s res s' :
  store_ok s -> VerifyAndMarkSpent m now ps s = (res, s') ->
  store_ok s' /\ quotes s' = quotes s /\
  match res with
  | Ok sps =>
      Forall2 (fun p sp => exists j, verified m ((fun (_ : nat) y => IsProofSpent y s) j) now p sp) ps sps /\
      NoDup (sp_Y <$> sps) /\ (forall sp, sp ∈ sps -> sp_Y sp ∉ spent_set s) /\
      spent_set s' = spent_set s ∪ list_to_set (sp_Y <$> sps)
  | Err _ => spent_set s' = spent_set s
  end.
Proof.
  unfold VerifyAndMarkSpent, VerifyProofs. intros Hok Hrun.
  destruct (VerifyProofs_reading _ _ _ _) as [sps|e] eqn:Hv; [|by simplify_eq].
  destruct (SaveSpentProofs sps s) as [[[]|e] s1] eqn:Hsave; simplify_eq;
    apply law_SaveSpentProofs in Hsave; [|done| |done]; destruct Hsave as (? & ? & Hr);
    split_and!; try done.
  - by apply VerifyProofs_reading_Ok in Hv as [_ ?].
  - tauto. - tauto. - tauto.
Qed.

(** Verifying and marking succeeds exactly on genuine proofs the store reads as
    unspent and agrees to record. *)
Lemma VerifyAndMarkSpent_Ok m now ps s :
  is_ok (VerifyAndMarkSpent m now ps s).1 = true <->
  CheckDuplicateProofs ps = false /\
  exists Ys, Forall2 (genuine m) ps Ys /\ Forall (fun Y => IsProofSpent (Y_hex Y) s = Ok false) Ys /\
    is_ok (SaveSpentProofs (zip_with (spent_record now) ps Ys) s).1 = true.
Proof.
  unfold VerifyAndMarkSpent, VerifyProofs, VerifyProofs_reading.
  destruct (CheckDuplicateProofs ps); [split; [done|by intros []]|].
  destruct (verify_loop m (fun _ y => IsProofSpent y s) 0 now ps) as [sps|e] eqn:Hv.
  - split.
    + intros Hsv. split; [done|]. apply verify_loop_iff in Hv as (Ys & ? & ? & ->). exists Ys.
      split_and!; [done..|]. by destruct (SaveSpentProofs _ s) as [[] ?].
    + intros (_ & Ys & Hg & Hr & Hsv).
      rewrite (proj2 (verify_loop_iff m (fun y => IsProofSpent y s) 0 now ps _)) in Hv by eauto.
      injection Hv as <-. by destruct (SaveSpentProofs _ s) as [[] ?].
  - split; [done|]. intros (_ & Ys & Hg & Hr & _).
    by rewrite (proj2 (verify_loop_iff m (fun y => IsProofSpent y s) 0 now ps _)) in Hv by eauto.
Qed.

(** C6: every outcome of a swap. It succeeds exactly when the guards pass: the
    two uint64 sums are equal, no input is repeated, every input is genuine
    (its C is the mint's own signature on its secret under a key the mint has)
    and read as unspent, the store records them all, and every output can be
    signed; the signatures are then the active keys' own on the points sent, in
    order. After a success the inputs' distinct Ys, unspent before, are spent
    and nothing else changed. A failure leaves the store as it was, except that
    inputs already marked stay spent when an output cannot be signed. *)
Theorem swap_outcomes m now inputs outputs s res s'
    (Hok : store_ok s) (Hrun : Swap m now inputs outputs s = (res, s')) :
  (forall sigs, res = Ok sigs <->
     usum_by p_Amount inputs = usum_by bm_Amount outputs /\ CheckDuplicateProofs inputs = false /\
     (exists Ys, Forall2 (genuine m) inputs Ys /\
        Forall (fun Y => IsProofSpent (Y_hex Y) s = Ok false) Ys /\
        is_ok (SaveSpentProofs (zip_with (spent_record now) inputs Ys) s).1 = true) /\
     Forall2 (signed_as m) outputs sigs) /\
  quotes s' = quotes s /\
  match res with
  | Ok _ =>
      exists Ys, proof_Y <$> inputs = Some <$> Ys /\ NoDup Ys /\
                 (forall y, y ∈ Ys -> y ∉ spent_set s) /\
                 spent_set s' = spent_set s ∪ list_to_set Ys
  | Err e =>
      spent_set s' = spent_set s \/
      (SignBlindedMessages m outputs = Err e /\
       exists Ys, proof_Y <$> inputs = Some <$> Ys /\ spent_set s' = spent_set s ∪ list_to_set Ys)
  end.
Proof.
  unfold Swap in Hrun. rewrite law_ProofsAmount, law_OutputsAmount in Hrun.
  destruct (Z.eqb_spec (usum_by p_Amount inputs) (usum_by bm_Amount outputs)) as [Ham|Ham]; simpl in Hrun.
  2: { simplify_eq. split; [|split; [done|by left]]. split; [done|by intros []]. }
  pose proof (VerifyAndMarkSpent_Ok m now inputs s) as Hiff.
  destruct (VerifyAndMarkSpent m now inputs s) as [[sps|e] s1] eqn:Hvm;
    apply VerifyAndMarkSpent_spec in Hvm as (_ & Hq & Hv); try done; simplify_eq.
  - destruct Hv as (Hf & Hnd & Hfresh & Hset). apply verified_all_Y in Hf.
    destruct (proj1 Hiff eq_refl) as [Hdup Hg]. split.
    { intros sigs. rewrite <-sign_all_iff. tauto. }
    split; [done|]. destruct (SignBlindedMessages m outputs) as [sigs|e]; [|right; eauto].
    exists (sp_Y <$> sps). split_and!; try done.
    intros y (sp & -> & Hsp)%list_elem_of_fmap. auto.
  - split; [|split; [done|by left]]. intros sigs. split; [done|]. intros (_ & Hdup & Hg & _).
    exfalso. by specialize (proj2 Hiff (conj Hdup Hg)).
Qed.

(** MintTokens with the store it leaves, the failed release included. *)
Lemma MintTokens_spec m id outputs s res s' :
  store_ok s -> MintTokens m id outputs s = (res, s') ->
  store_ok s' /\ spent_set s' = spent_set s /\
  match res with
  | Ok sigs =>
      exists q, quotes s !! id = Some q /\ q_State q = QuotePaid /\
        OutputsAmount outputs <= q_Amount q /\
        bs_Amount <$> sigs = bm_Amount <$> outputs /\
        quotes s' = <[id := quote_with q QuoteIssued]> (quotes s)
  | Err e =>
      quotes s' = quotes s \/
      exists rerr q, e = Wrap "quote could not be released" rerr /\ quotes s !! id = Some q /\
        q_State q = QuotePaid /\ quotes s' = <[id := quote_with q QuoteIssued]> (quotes s)
  end.
Proof.
  intros Hok Hrun. unfold MintTokens in Hrun.
  destruct (GetMintQuote id s) as [q|] eqn:Hget; [|simplify_eq; split_and!; try done; by left].
  apply law_GetMintQuote in Hget; [|done].
  destruct (mint_guard q outputs) as [[]|] eqn:Hg; [|simplify_eq; split_and!; try done; by left].
  unfold mint_guard, guard_or in Hg. destruct (q_State q) eqn:Hst; try done.
  destruct (OutputsAmount outputs <=? q_Amount q) eqn:Hle; [|done]. bprop.
  destruct (TransitionMintQuoteState id QuotePaid QuoteIssued s) as [r1 s1] eqn:Hclaim.
  apply law_Transition in Hclaim as (Hok1 & Hsp1 & Hr1); [|done].
  destruct r1 as [[]|]; [|simplify_eq; split_and!; try done; left; tauto
                         |simplify_eq; split_and!; try done; by left].
  destruct Hr1 as (q' & Hq' & _ & Hq1). simplify_eq.
  destruct (SignBlindedMessages m outputs) as [sigs|e] eqn:Hs.
  { simplify_eq. split_and!; try done. apply SignBlindedMessages_amounts in Hs. eauto 10. }
  unfold release_quote in Hrun.
  destruct (TransitionMintQuoteState id QuoteIssued QuotePaid s1) as [r2 s2] eqn:Hrel.
  apply law_Transition in Hrel as (Hok2 & Hsp2 & Hr2); [|done].
  destruct r2 as [[]|rerr]; simplify_eq; (split; [done|]; split; [congruence|]).
  - left. destruct Hr2 as (q2 & Hq2 & _ & ->). rewrite Hq1, lookup_insert_eq in Hq2. simplify_eq.
    rewrite Hq1, insert_insert_eq. apply insert_id. rewrite Hget. f_equal.
    destruct q; simpl in *; by subst.
  - left. exfalso. destruct Hr2 as [_ Hno]. apply (Hno (quote_with q QuoteIssued)); [|done].
    rewrite Hq1. apply lookup_insert_eq.
  - right. exists rerr, q. by rewrite Hr2.
Qed.

(** Every outcome of minting. Tokens are returned only for a quote that was
    paid, for at most its amount, and the quote is issued afterwards; any
    failure gives the quote back untouched (a signing failure after the claim
    included) unless the store itself failed to release it. Proofs are never
    touched. *)
Theorem mint_tokens_outcomes m id outputs s res s'
    (Hok : store_ok s) (Hrun : MintTokens m id outputs s = (res, s')) :
  spent_set s' = spent_set s /\
  match res with
  | Ok sigs =>
      exists q, quotes s !! id = Some q /\ q_State q = QuotePaid /\
        OutputsAmount outputs <= q_Amount q /\
        bs_Amount <$> sigs = bm_Amount <$> outputs /\
        quotes s' = <[id := quote_with q QuoteIssued]> (quotes s)
  | Err e =>
      quotes s' = quotes s \/ exists rerr, e = Wrap "quote could not be released" rerr
  end.
Proof.
  apply MintTokens_spec in Hrun as (_ & Hs & Hr); [|done]. split; [done|].
  destruct res; [done|]. destruct Hr as [?|(rerr & q & -> & _)]; [by left|right; by exists rerr].
Qed.
End lawful.

(** ** A hex string too long for the buffer *)
Section oversize.
Context `{Bdhke} {S : Type} `{!MintStore S}.

(** A proof for a known key whose C is the hex of more than 33 bytes does
    not get an error: decoding it into the 33-byte buffer panics, whatever the
    store holds. *)
Theorem oversized_C_panics (m : Mint) (s : S) now p ks kp c
    (Hdup : CheckDuplicateProofs [p] = false)
    (Hks : m_keysets m !! p_Id p = Some ks) (Hkp : mk_Keys ks !! p_Amount p = Some kp)
    (Hlong : (33 < String.length c)%nat) (HC : p_C p = hex_encode c) :
  VerifyProofs m s now [p] = Err Panicked.
Proof.
  unfold VerifyProofs, VerifyProofs_reading. rewrite Hdup. simpl. unfold verify_one.
  rewrite Hks, Hkp, HC, hex_decode_buf_encode.
  by rewrite (proj2 (Nat.leb_gt _ _)).
Qed.
End oversize.

(** ** Restarting over the SQLite store *)
Section restart.
Context `{Bdhke} (GenerateKeyset : ExtendedKey -> Z -> Z -> option MintKeyset).
Abbreviation Load := (load_records GenerateKeyset).

Lemma load_records_app m l1 l2 :
  Load m (l1 ++ l2) = m' ← Load m l1; Load m' l2.
Proof.
  revert m. induction l1 as [|r l1 IH]; intros m; simpl; [done|].
  destruct (load_record _ m r); simpl; [apply IH|done].
Qed.

(** Keysets are never forgotten, the master key never changes and the next
    index is beyond every index loaded. *)
Lemma load_records_facts m l m' :
  Forall (fun r => 0 <= kr_DerivationPathIdx r < 2 ^ 32 - 1) l ->
  0 <= m_nextKeysetIdx m ->
  Load m l = Ok m' ->
  m_masterKey m' = m_masterKey m /\ m_nextKeysetIdx m <= m_nextKeysetIdx m' /\
  dom (m_keysets m) ⊆ dom (m_keysets m') /\
  (forall r, r ∈ l -> kr_DerivationPathIdx r < m_nextKeysetIdx m' /\
     exists ks, GenerateKeyset (m_masterKey m) (kr_DerivationPathIdx r) (kr_InputFeePpk r) = Some ks /\
                mk_Id ks ∈ dom (m_keysets m')).
Proof.
  intros Hidx. revert m. induction Hidx as [|r l Hr _ IH]; simpl; intros m Hn Hl.
  { simplify_eq. split_and!; try done. intros r Hr. by apply not_elem_of_nil in Hr. }
  destruct (load_record _ m r) as [m1|] eqn:H1; simpl in Hl; [|done].
  unfold load_record in H1. destruct (GenerateKeyset _ _ _) as [ks|] eqn:Hg; simplify_eq.
  assert (next_idx (kr_DerivationPathIdx r) = kr_DerivationPathIdx r + 1) as Hnext.
  { unfold next_idx. apply Z.mod_small. lia. }
  rewrite Hnext in Hl.
  apply IH in Hl as (Hm & Hle & Hdom & Hall); cbn [m_masterKey m_nextKeysetIdx m_keysets] in *; [|destruct (m_nextKeysetIdx m <=? kr_DerivationPathIdx r); lia].
  rewrite dom_insert in Hdom.
  split_and!; [done| |set_solver|].
  - destruct (Z.leb_spec (m_nextKeysetIdx m) (kr_DerivationPathIdx r)); lia.
  - intros r' [->|Hr']%elem_of_cons; [|auto]. split.
    + destruct (Z.leb_spec (m_nextKeysetIdx m) (kr_DerivationPathIdx r)); lia.
    + exists ks. split; [done|]. set_solver.
Qed.

(** Restarting the hub on the database the mint left gives the same mint,
    writes nothing, and every keyset ever recorded is still there to verify old
    proofs. *)
Theorem new_mint_restart seed now now' db m db'
    (Hidx : Forall (fun r => 0 <= kr_DerivationPathIdx r < 2 ^ 32 - 1) (mint_keysets db))
    (Hrun : NewMint GenerateKeyset seed now db = (Ok m, db')) :
  NewMint GenerateKeyset seed now' db' = (Ok m, db') /\ mint_keysets db `prefix_of` mint_keysets db' /\
  forall r, r ∈ mint_keysets db ->
    exists ks, GenerateKeyset (m_masterKey m) (kr_DerivationPathIdx r) (kr_InputFeePpk r) = Some ks /\
               mk_Id ks ∈ dom (m_keysets m).
Proof.
  unfold NewMint in *. destruct (NewMaster seed) as [master|]; [|done].
  cbn [GetAllKeysets sql_mint_store] in *. unfold GetAllKeysets_sql in *.
  set (le := fun x y => kr_DerivationPathIdx x <=? kr_DerivationPathIdx y) in *.
  destruct (Load _ (order_by le (mint_keysets db))) as [m0|] eqn:Hl; [|done].
  assert (forall r, r ∈ mint_keysets db <-> r ∈ order_by le (mint_keysets db)) as Hperm.
  { intros r. by rewrite order_by_perm. }
  assert (Forall (fun r => 0 <= kr_DerivationPathIdx r < 2 ^ 32 - 1) (order_by le (mint_keysets db)))
    as Hidx' by by rewrite order_by_perm.
  pose proof (load_records_facts (mkMint None ∅ master 0) _ _ Hidx' (Z.le_refl 0) Hl) as (Hmaster & Hpos & _ & Hall).
  simpl in Hmaster, Hpos, Hall. subst master. setoid_rewrite <-Hperm in Hall.
  destruct (m_activeKeyset m0) as [a|] eqn:Ha.
  { simplify_eq. rewrite Hl, Ha. split_and!; [done|done|]. intros r Hr.
    by apply Hall. }
  unfold generateKeyset in Hrun.
  destruct (GenerateKeyset (m_masterKey m0) (m_nextKeysetIdx m0) 0) as [ks|] eqn:Hg; [|done].
  cbn [SaveKeyset sql_mint_store] in Hrun. unfold SaveKeyset_sql in Hrun.
  set (rec := mkKeysetRecord _ _ _ _ _ _) in Hrun.
  destruct (sql_insert _ _ _ rec _) as [t|] eqn:Hins; simplify_eq.
  apply sql_insert_Ok in Hins as (-> & _). cbn [mint_keysets].
  rewrite order_by_snoc; [|intros r Hr; apply Z.leb_le; apply Hall in Hr as [? _]; simpl; lia].
  rewrite load_records_app, Hl. simpl. unfold load_record. simpl.
  rewrite Hg, (proj2 (Z.leb_le _ _)) by lia. simpl.
  split_and!; [done|by apply prefix_app_r|].
  intros r Hr. apply Hall in Hr as (_ & ks' & ? & ?). exists ks'. split; [done|].
  rewrite dom_insert. set_solver.
Qed.
End restart.

(** ** A small instance of the parameters

    Points are residues modulo 251 printed on 33 bytes, a scalar multiplies;
    enough to run the mint on concrete inputs. *)
Definition toy_pad : string := String.concat "" (repeat "0"%string 32).
Definition toy_hash (s : string) : Z :=
  1 + foldr (fun c h => (Z.of_nat (nat_of_ascii c) + 7 * h) mod 250) 3 (String.list_ascii_of_string s).
#[export] Instance toy_bdhke : Bdhke := {|
  Point := Z;
  Scalar := Z;
  ExtendedKey := string;
  Point_eq_dec := Z.eq_dec;
  ParsePubKey := fun s => match s with
                          | String c r => if String.eqb r toy_pad then Some (Z.of_nat (nat_of_ascii c)) else None
                          | _ => None
                          end;
  SerializeCompressed := fun p => String (ascii_of_nat (Z.to_nat p)) toy_pad;
  ScalarMult := fun k p => (k * p) mod 251;
  HashToCurve := fun s => Some (toy_hash s);
  SignBlindedMessage := fun b k => (k * b) mod 251;
  NewMaster := fun s => Some s;
  CheckDuplicateProofs := fun ps => negb (bool_decide (NoDup (p_Secret <$> ps)));
  ProofsAmount := usum_by p_Amount;
  OutputsAmount := usum_by bm_Amount;
  law_ProofsAmount ps := eq_refl;
  law_OutputsAmount outs := eq_refl
|}.

Definition toy_keys (idx : Z) : gmap Z KeyPair :=
  list_to_map ((fun i => (2 ^ i, mkKeyPair (17 + i + idx) ((17 + i + idx) mod 251))) <$> seqZ 0 60).
Definition toy_generate (mk : string) (idx fee : Z) : option MintKeyset :=
  Some (mkKeyset ("00" ++ show_Z idx) "sat" true (toy_keys idx) fee).
Definition toy_start : mresult Mint * EDB := NewMint toy_generate "seed" "t0" empty_edb.
Definition toy_mint : Mint :=
  match toy_start.1 with Ok m => m | Err _ => mkMint None ∅ "" 0 end.
Definition toy_db : EDB := toy_start.2.

Definition toy_proof (amount : Z) (secret : string) : Proof_ :=
  mkProof amount "000" secret
    (hex_encode (SerializeCompressed (ScalarMult (17 + Z.log2 amount) (toy_hash secret)))).
Definition toy_output (amount b : Z) : BlindedMessage :=
  mkBM amount (hex_encode (SerializeCompressed b)) "000".
Definition toy_quote (st : QuoteState) : MintQuote := mkQuote "q" 8 "lnbc" "ph" st 100 "t0".
Definition toy_paid : EDB := (SaveMintQuote (toy_quote QuotePaid) toy_db).2.

Lemma toy_start_ok : toy_start = (Ok toy_mint, toy_db).
Proof.
  assert (is_ok toy_start.1 = true) as Hok by (vm_compute; reflexivity).
  unfold toy_mint, toy_db. revert Hok. by destruct toy_start as [[m|e] d].
Qed.

Lemma edb_ok_dec db :
  bool_decide (NoDup (q_ID <$> mint_quotes db)) && forallb quote_check (mint_quotes db)
  && bool_decide (NoDup (sp_Y <$> cashu_spent_proofs db)) = true -> edb_ok db.
Proof.
  intros Hb. bprop. split_and!; try done. apply Forall_forall. intros q Hq.
  eapply forallb_forall; [done|]. by apply list_elem_of_In.
Qed.

Lemma swap_outcomes_witness :
  let ins := [toy_proof 4 "a"; toy_proof 2 "b"] in
  let outs := [toy_output 2 9; toy_output 2 10; toy_output 2 11] in
  let r := Swap toy_mint "t1" ins outs toy_db in
  is_ok r.1 = true /\ quotes r.2 = quotes toy_db.
Proof.
  cbv zeta. split; [vm_compute; reflexivity|].
  refine (proj1 (proj2 (swap_outcomes toy_mint "t1" _ _ toy_db _ _ _ (surjective_pairing _)))).
  apply edb_ok_dec. vm_compute. reflexivity.
Defined.

(** A forged C is refused, whatever else is right. *)
Example forged_input_refused :
  Swap toy_mint "t1" [mkProof 2 "000" "a" (hex_encode (SerializeCompressed (18 : Z)))] [toy_output 2 9] toy_db
  = (Err ErrInvalidProof, toy_db).
Proof. by vm_compute. Qed.

(** The amounts are summed in a uint64 that wraps: a paid quote of 8 sats is
    enough for 33 outputs, 32 of them of 2^59 sats each. *)
Definition overflowing : list BlindedMessage := toy_output 8 5 :: repeat (toy_output (2 ^ 59) 9) 32.
Example wrapped_outputs_signed :
  match (MintTokens toy_mint "q" overflowing toy_paid).1 with
  | Ok sigs => (length sigs = 33)%nat /\ zsum_by bs_Amount sigs = 2 ^ 64 + 8
  | Err _ => False
  end.
Proof. by vm_compute. Qed.

Lemma mint_tokens_outcomes_witness :
  let r := MintTokens toy_mint "q" [toy_output 8 5] toy_paid in
  is_ok r.1 = true /\ spent_set r.2 = spent_set toy_paid.
Proof.
  cbv zeta. split; [vm_compute; reflexivity|].
  refine (proj1 (mint_tokens_outcomes toy_mint "q" _ toy_paid _ _ _ (surjective_pairing _))).
  apply edb_ok_dec. vm_compute. reflexivity.
Defined.

Lemma new_mint_restart_witness :
  NewMint toy_generate "seed" "t9" toy_db = (Ok toy_mint, toy_db).
Proof.
  refine (proj1 (new_mint_restart toy_generate "seed" "t0" "t9" empty_edb toy_mint toy_db _ _)).
  - constructor.
  - exact toy_start_ok.
Defined.

Lemma oversized_C_panics_witness :
  let p := mkProof 4 "000" "a" (hex_encode (toy_pad ++ "00")) in
  VerifyProofs toy_mint toy_db "t1" [p] = Err Panicked.
Proof.
  cbv zeta.
  assert (match m_keysets toy_mint !! "000" with
          | Some ks => match mk_Keys ks !! 4 with Some _ => true | None => false end
          | None => false
          end = true) as Hkey by (vm_compute; reflexivity).
  destruct (m_keysets toy_mint !! "000") as [ks|] eqn:Hks; [|discriminate].
  destruct (mk_Keys ks !! 4) as [kp|] eqn:Hkp; [|discriminate].
  apply (oversized_C_panics toy_mint toy_db "t1" _ ks kp (toy_pad ++ "00")).
  - vm_compute. reflexivity.
  - exact Hks.
  - exact Hkp.
  - apply Nat.ltb_lt. vm_compute. reflexivity.
  - reflexivity.
Defined.
