(* ===== verification/MintConcurrent.v ===== *)
(** * MintConcurrent: concurrent requests against the mint

    Requests are threads, each belonging to some hub process (its own [Mint])
    over one shared store. [spend_step] interleaves the two halves of
    VerifyAndMarkSpent (mint.go, lines 415-428), [issue_step] the read, claim,
    sign and release of MintTokens (lines 452-514). The in-process locks are
    not modelled, so the theorems hold with or without them: they rest on the
    store's two atomic operations only. *)
From S2P Require Import Prelude Sql Ecash EcashStore Mint.

(** ** Lists of threads *)
Lemma bind_insert_perm {A B} (f : A -> list B) (l : list A) i x y :
  l !! i = Some x -> f x ++ (<[i := y]> l ≫= f) ≡ₚ f y ++ (l ≫= f).
Proof.
  revert i. induction l as [|z l IH]; intros [|i] Hi; simplify_eq/=.
  - rewrite !app_assoc. f_equiv. apply Permutation_app_comm.
  - rewrite !app_assoc, (Permutation_app_comm (f x)), (Permutation_app_comm (f y)).
    rewrite <-!app_assoc. f_equiv. by apply IH.
Qed.

(** A thread that contributed nothing now contributes [f y]. *)
Lemma bind_insert_new {A B} (f : A -> list B) (l : list A) i x y :
  l !! i = Some x -> f x = [] -> <[i := y]> l ≫= f ≡ₚ f y ++ (l ≫= f).
Proof. intros Hi Hx. rewrite <-(bind_insert_perm f l i x y) by done. by rewrite Hx. Qed.

Lemma Forall_bind_insert {A B} (P : B -> Prop) (f : A -> list B) (l : list A) i x y :
  l !! i = Some x -> Forall P (l ≫= f) -> Forall P (f y) -> Forall P (<[i := y]> l ≫= f).
Proof.
  intros Hi Hl Hy. assert (Forall P (f x ++ (<[i := y]> l ≫= f))) as Hall.
  { rewrite (bind_insert_perm f l i x y Hi). by apply Forall_app. }
  by apply Forall_app in Hall as [_ ?].
Qed.

Lemma elem_of_bind_lookup {A B} (f : A -> list B) (l : list A) i x b :
  l !! i = Some x -> b ∈ f x -> b ∈ l ≫= f.
Proof. intros Hi Hb. apply list_elem_of_bind. exists x. split; [done|]. by eapply list_elem_of_lookup_2. Qed.

(** If [g] recovers [f x] from [h x], [h] is injective where [f] is. *)
Lemma NoDup_fmap_via {A K L} (f : A -> K) (h : A -> L) (g : L -> option K) (l : list A) :
  NoDup (f <$> l) -> Forall (fun x => g (h x) = Some (f x)) l -> NoDup (h <$> l).
Proof.
  intros Hnd Hg. induction Hg as [|x l Hx Hg IH]; csimpl in *; [constructor|].
  apply NoDup_cons in Hnd as [Hni Hnd]. constructor; [|auto].
  intros (y & Heq & Hy)%list_elem_of_fmap. apply Hni.
  rewrite Forall_forall in Hg. specialize (Hg y Hy). rewrite <-Heq, Hx in Hg. simplify_eq.
  rewrite Hg. by apply list_elem_of_fmap_2.
Qed.

(** ** Spending *)
Section spend.
Context `{Bdhke} {S : Type} `{MintStoreLaws S}.
Implicit Types (s : S) (m : Mint).

(** Where a VerifyAndMarkSpent call stands. *)
Inductive spender :=
| SpStart (now : string) (proofs : list Proof_)
| SpVerified (spent : list SpentProof)
| SpAccepted (spent : list SpentProof)
| SpFailed (e : mint_error).

Record spend_thread := mkSpender { st_mint : Mint; st_pc : spender }.

(** [reads] are the answers the thread's spent-status queries got, at whatever
    moments they ran; the other rules are the store's remaining mutators. *)
Inductive spend_step : S * list spend_thread -> S * list spend_thread -> Prop :=
| sp_arrive s ts m now ps :
    spend_step (s, ts) (s, ts ++ [mkSpender m (SpStart now ps)])
| sp_verify s ts i m now ps reads sps :
    ts !! i = Some (mkSpender m (SpStart now ps)) ->
    VerifyProofs_reading m reads now ps = Ok sps ->
    spend_step (s, ts) (s, <[i := mkSpender m (SpVerified sps)]> ts)
| sp_reject s ts i m now ps reads e :
    ts !! i = Some (mkSpender m (SpStart now ps)) ->
    VerifyProofs_reading m reads now ps = Err e ->
    spend_step (s, ts) (s, <[i := mkSpender m (SpFailed e)]> ts)
| sp_save s ts i m sps s' :
    ts !! i = Some (mkSpender m (SpVerified sps)) ->
    SaveSpentProofs sps s = (Ok tt, s') ->
    spend_step (s, ts) (s', <[i := mkSpender m (SpAccepted sps)]> ts)
| sp_save_fails s ts i m sps e s' :
    ts !! i = Some (mkSpender m (SpVerified sps)) ->
    SaveSpentProofs sps s = (Err e, s') ->
    spend_step (s, ts) (s', <[i := mkSpender m (SpFailed (Wrap "saving spent proofs" e))]> ts)
| sp_transition s ts id from to res s' :
    TransitionMintQuoteState id from to s = (res, s') -> spend_step (s, ts) (s', ts)
| sp_update s ts id st res s' :
    UpdateMintQuoteState id st s = (res, s') -> spend_step (s, ts) (s', ts)
| sp_quote s ts q res s' :
    SaveMintQuote q s = (res, s') -> spend_step (s, ts) (s', ts).

Definition accepted_by (t : spend_thread) : list SpentProof :=
  match st_pc t with SpAccepted sps => sps | _ => [] end.
(** Every proof accepted by any request so far. *)
Definition accepted (ts : list spend_thread) : list SpentProof := ts ≫= accepted_by.

Definition known_by (t : spend_thread) : list SpentProof :=
  match st_pc t with SpVerified sps | SpAccepted sps => sps | _ => [] end.
Definition hashed (sp : SpentProof) : Prop := HashSecret (sp_Secret sp) = Some (sp_Y sp).

Record spend_inv (s0 s : S) (ts : list spend_thread) : Prop := {
  si_ok : store_ok s;
  si_grow : spent_set s0 ⊆ spent_set s;
  si_nodup : NoDup (sp_Y <$> accepted ts);
  si_in : forall sp, sp ∈ accepted ts -> sp_Y sp ∈ spent_set s /\ sp_Y sp ∉ spent_set s0;
  si_hash : Forall hashed (ts ≫= known_by)
}.

Lemma verified_hashed m reads now ps sps :
  VerifyProofs_reading m reads now ps = Ok sps -> Forall hashed sps.
Proof.
  intros [_ Hf]%VerifyProofs_reading_Ok.
  induction Hf as [|p sp ps sps (j & ks & kp & b & Y & _ & _ & _ & HY & _ & _ & ->) _ IH];
    constructor; [|done]. unfold hashed, HashSecret. simpl. by rewrite HY.
Qed.

(** A thread moves without accepting anything: the invariant survives. *)
Lemma spend_inv_move s0 s ts i t t' :
  spend_inv s0 s ts -> ts !! i = Some t -> accepted_by t = [] -> accepted_by t' = [] ->
  Forall hashed (known_by t') -> spend_inv s0 s (<[i := t']> ts).
Proof.
  intros [? ? Hnd Hin Hh] Hi Ht Ht' Hh'.
  assert (accepted (<[i := t']> ts) ≡ₚ accepted ts) as Hacc.
  { unfold accepted. by rewrite (bind_insert_new _ _ _ _ _ Hi Ht), Ht'. }
  split; [done|done|by rewrite Hacc|setoid_rewrite Hacc; exact Hin|].
  by eapply Forall_bind_insert.
Qed.

Lemma spend_inv_store s0 s s' ts :
  spend_inv s0 s ts -> store_ok s' -> spent_set s' = spent_set s -> spend_inv s0 s' ts.
Proof. intros [? ? ? ? ?] Hok Heq. split; rewrite ?Heq; done. Qed.

(** The only step that accepts anything. *)
Lemma spend_inv_save s0 s ts i m sps s' :
  spend_inv s0 s ts -> ts !! i = Some (mkSpender m (SpVerified sps)) ->
  SaveSpentProofs sps s = (Ok tt, s') ->
  spend_inv s0 s' (<[i := mkSpender m (SpAccepted sps)]> ts).
Proof.
  intros [Hok Hg Hnd Hin Hh] Hi Hsave.
  apply law_SaveSpentProofs in Hsave as (Hok' & _ & Hps & Hfresh & Hset); [|done].
  assert (accepted (<[i := mkSpender m (SpAccepted sps)]> ts) ≡ₚ sps ++ accepted ts) as Hacc.
  { unfold accepted. by rewrite (bind_insert_new _ _ _ _ _ Hi eq_refl). }
  split; [done|set_solver| | |].
  - rewrite Hacc, fmap_app. apply NoDup_app. split_and!; [done| |done].
    intros y (sp & -> & Hsp)%list_elem_of_fmap (sp' & Heq & Hsp')%list_elem_of_fmap.
    apply (Hfresh sp Hsp). rewrite Heq. by apply Hin.
  - setoid_rewrite Hacc. intros sp [Hsp|Hsp]%elem_of_app.
    + rewrite Hset. split; [|specialize (Hfresh sp Hsp); set_solver].
      apply elem_of_union_r, elem_of_list_to_set. by apply list_elem_of_fmap_2.
    + apply Hin in Hsp as [? ?]. split; [set_solver|done].
  - eapply Forall_bind_insert; [done..|]. simpl. apply Forall_forall. intros sp Hsp.
    rewrite Forall_forall in Hh. apply Hh. by eapply elem_of_bind_lookup.
Qed.

Lemma spend_step_inv s0 s ts s' ts' :
  spend_step (s, ts) (s', ts') -> spend_inv s0 s ts -> spend_inv s0 s' ts'.
Proof.
  intros Hstep Hinv. pose proof (si_ok _ _ _ Hinv) as Hok. inversion Hstep; subst; clear Hstep.
  - destruct Hinv as [? ? Hnd Hin Hh].
    assert (accepted (ts ++ [mkSpender m (SpStart now ps)]) = accepted ts) as Hacc.
    { unfold accepted. rewrite bind_app. simpl. by rewrite app_nil_r. }
    split; rewrite ?Hacc; try done. rewrite bind_app. simpl. by rewrite app_nil_r.
  - eapply spend_inv_move; try done. by eapply verified_hashed.
  - by eapply spend_inv_move.
  - by eapply spend_inv_save.
  - match goal with Hs : SaveSpentProofs _ _ = _ |- _ =>
      apply law_SaveSpentProofs in Hs as (? & _ & ?); [|done] end.
    eapply spend_inv_move; [|done..]. by eapply spend_inv_store.
  - match goal with Hs : TransitionMintQuoteState _ _ _ _ = _ |- _ =>
      apply law_Transition in Hs as (? & ? & _); [|done] end. by eapply spend_inv_store.
  - match goal with Hs : UpdateMintQuoteState _ _ _ = _ |- _ =>
      apply law_Update in Hs as (? & ? & _); [|done] end. by eapply spend_inv_store.
  - match goal with Hs : SaveMintQuote _ _ = _ |- _ =>
      apply law_SaveMintQuote in Hs as (? & ? & _); [|done] end. by eapply spend_inv_store.
Qed.

Lemma spend_run_inv s0 s ts : store_ok s0 -> rtc spend_step (s0, []) (s, ts) -> spend_inv s0 s ts.
Proof.
  intros Hok Hrun. eapply (rtc_pair_inv _ (spend_inv s0)); [apply spend_step_inv|exact Hrun|].
  split; [done|done|constructor|intros sp Hsp; by apply not_elem_of_nil in Hsp|constructor].
Qed.

(** C7: no double spend. However requests, processes and stale reads interleave,
    the proofs accepted by all of them have pairwise distinct secrets (and Y);
    each was unspent at the start and is recorded as spent. *)
Theorem no_double_spend s0 s ts
    (Hok : store_ok s0) (Hrun : rtc spend_step (s0, []) (s, ts)) :
  NoDup (sp_Secret <$> accepted ts) /\ NoDup (sp_Y <$> accepted ts) /\
  forall sp, sp ∈ accepted ts -> sp_Y sp ∈ spent_set s /\ sp_Y sp ∉ spent_set s0.
Proof.
  destruct (spend_run_inv s0 s ts Hok Hrun) as [_ _ Hnd Hin Hh].
  split_and!; [|done|done]. eapply (NoDup_fmap_via sp_Y sp_Secret HashSecret); [done|].
  apply Forall_forall. intros sp (t & Hsp & Ht)%list_elem_of_bind.
  rewrite Forall_forall in Hh. apply Hh. apply list_elem_of_bind. exists t. split; [|done].
  unfold accepted_by, known_by in *.
  destruct (st_pc t); try done; by apply not_elem_of_nil in Hsp.
Qed.
End spend.

(** ** Issuing *)
Section issue.
Context `{Bdhke} {S : Type} `{MintStoreLaws S}.
Implicit Types (s : S) (m : Mint).

(** Where a MintTokens call stands. *)
Inductive minter :=
| MtStart
| MtGuarded
| MtClaimed
| MtReleasing (e : mint_error)
| MtSigned (sigs : list BlindedSignature)
| MtFailed (e : mint_error).

Record mint_thread := mkMinter {
  mt_mint : Mint;
  mt_quote : string;
  mt_outputs : list BlindedMessage;
  mt_pc : minter
}.
Definition at_pc (t : mint_thread) (pc : minter) : mint_thread :=
  mkMinter (mt_mint t) (mt_quote t) (mt_outputs t) pc.

(** The last two rules are what the rest of the hub does to quotes: create
    them, and move them between states other than ISSUED atomically (a payment
    seen, an expiry). *)
Inductive issue_step : S * list mint_thread -> S * list mint_thread -> Prop :=
| is_arrive s ts m id outs :
    issue_step (s, ts) (s, ts ++ [mkMinter m id outs MtStart])
| is_guard s ts i t q :
    ts !! i = Some t -> mt_pc t = MtStart ->
    GetMintQuote (mt_quote t) s = Ok q -> mint_guard q (mt_outputs t) = Ok tt ->
    issue_step (s, ts) (s, <[i := at_pc t MtGuarded]> ts)
| is_refuse s ts i t e :
    ts !! i = Some t -> mt_pc t = MtStart ->
    issue_step (s, ts) (s, <[i := at_pc t (MtFailed e)]> ts)
| is_claim s ts i t res s' :
    ts !! i = Some t -> mt_pc t = MtGuarded ->
    TransitionMintQuoteState (mt_quote t) QuotePaid QuoteIssued s = (res, s') ->
    issue_step (s, ts)
      (s', <[i := at_pc t match res with
                          | Ok true => MtClaimed
                          | Ok false => MtFailed ErrQuoteAlreadyUsed
                          | Err e => MtFailed (Wrap "claiming quote" e)
                          end]> ts)
| is_sign s ts i t :
    ts !! i = Some t -> mt_pc t = MtClaimed ->
    issue_step (s, ts)
      (s, <[i := at_pc t match SignBlindedMessages (mt_mint t) (mt_outputs t) with
                         | Ok sigs => MtSigned sigs
                         | Err e => MtReleasing e
                         end]> ts)
| is_release s ts i t e res s' :
    ts !! i = Some t -> mt_pc t = MtReleasing e ->
    release_quote (mt_quote t) e s = (Err res, s') ->
    issue_step (s, ts) (s', <[i := at_pc t (MtFailed res)]> ts)
| is_quote s ts q res s' :
    SaveMintQuote q s = (res, s') -> issue_step (s, ts) (s', ts)
| is_move s ts id from to res s' :
    from <> QuoteIssued ->
    TransitionMintQuoteState id from to s = (res, s') -> issue_step (s, ts) (s', ts).

(** The thread holds the claim on [id], or has used it. *)
Definition holds (id : string) (t : mint_thread) : list mint_thread :=
  if String.eqb (mt_quote t) id then
    match mt_pc t with MtClaimed | MtReleasing _ | MtSigned _ => [t] | _ => [] end
  else [].
Definition holders (id : string) (ts : list mint_thread) : list mint_thread := ts ≫= holds id.
(** Threads that got signatures for [id]. *)
Definition issued (id : string) (ts : list mint_thread) : list mint_thread :=
  ts ≫= fun t => match mt_pc t with MtSigned _ => holds id t | _ => [] end.

(** Past the guard: the outputs fit the quote, whatever its state has become. *)
Definition fits s (t : mint_thread) : Prop :=
  match mt_pc t with
  | MtGuarded | MtClaimed | MtReleasing _ | MtSigned _ =>
      exists q, quotes s !! mt_quote t = Some q /\ OutputsAmount (mt_outputs t) <= q_Amount q
  | _ => True
  end.

Record issue_inv s (ts : list mint_thread) : Prop := {
  ii_ok : store_ok s;
  ii_fits : Forall (fits s) ts;
  ii_one : forall id, (length (holders id ts) <= 1)%nat;
  ii_issued : forall id, holders id ts <> [] ->
    exists q, quotes s !! id = Some q /\ q_State q = QuoteIssued
}.

Lemma fits_mono s s' t :
  (forall id q, quotes s !! id = Some q ->
     exists q', quotes s' !! id = Some q' /\ q_Amount q' = q_Amount q) ->
  fits s t -> fits s' t.
Proof.
  intros Hq. unfold fits. destruct (mt_pc t); try done;
    intros (q & Hl & Hle); apply Hq in Hl as (q' & ? & ?); exists q'; split; [done|lia|done|lia|done|lia|done|lia].
Qed.

(** What any of the store's quote operations can do to the amounts. *)
Lemma insert_amounts (qs : gmap string MintQuote) id q st :
  qs !! id = Some q ->
  forall id' r, qs !! id' = Some r ->
    exists r', <[id := quote_with q st]> qs !! id' = Some r' /\ q_Amount r' = q_Amount r.
Proof.
  intros Hl id' r Hr. destruct (decide (id = id')) as [->|Hne].
  - exists (quote_with q st). rewrite lookup_insert_eq. by simplify_eq.
  - exists r. by rewrite lookup_insert_ne.
Qed.

Lemma holders_move id ts i t t' :
  ts !! i = Some t -> holds id t' = [] \/ holds id t <> [] ->
  (length (holders id (<[i := t']> ts)) <= length (holders id ts))%nat.
Proof.
  intros Hi Hc. pose proof (bind_insert_perm (holds id) ts i t t' Hi) as Hp.
  apply Permutation_length in Hp. rewrite !length_app in Hp. unfold holders.
  assert (length (holds id t') <= length (holds id t))%nat; [|lia].
  unfold holds in *. repeat case_match; simpl; destruct Hc; try done; lia.
Qed.
Lemma holds_at id t pc :
  holds id (at_pc t pc) =
    if String.eqb (mt_quote t) id then
      match pc with MtClaimed | MtReleasing _ | MtSigned _ => [at_pc t pc] | _ => [] end
    else [].
Proof. done. Qed.

Lemma length_zero_nil {A} (l l' : list A) : (length l' <= length l)%nat -> l' <> [] -> l <> [].
Proof. destruct l, l'; simpl; try done; lia. Qed.

Lemma issue_inv_thread s ts i t pc :
  issue_inv s ts -> ts !! i = Some t -> fits s (at_pc t pc) ->
  holds (mt_quote t) (at_pc t pc) = [] \/ holds (mt_quote t) t <> [] ->
  issue_inv s (<[i := at_pc t pc]> ts).
Proof.
  intros [Hok Hf Hone Hiss] Hi Hft Hh.
  assert (forall id, (length (holders id (<[i := at_pc t pc]> ts)) <= length (holders id ts))%nat) as Hlen.
  { intros id. eapply holders_move; [done|].
    destruct (String.eqb_spec (mt_quote t) id) as [<-|Hne]; [done|left].
    rewrite holds_at. by rewrite (proj2 (String.eqb_neq _ _)). }
  split; [done|by apply Forall_insert| |].
  - intros id. specialize (Hlen id). specialize (Hone id). lia.
  - intros id Hne. apply Hiss. eapply length_zero_nil; [apply Hlen|done].
Qed.

Lemma issue_inv_store s s' ts :
  issue_inv s ts -> store_ok s' ->
  (forall id q, quotes s !! id = Some q ->
     exists q', quotes s' !! id = Some q' /\ q_Amount q' = q_Amount q) ->
  (forall id, holders id ts <> [] -> quotes s' !! id = quotes s !! id) ->
  issue_inv s' ts.
Proof.
  intros [Hok Hf Hone Hiss] Hok' Ham Hsame. split; [done| |done|].
  - eapply Forall_impl; [done|]. intros t. by apply fits_mono.
  - intros id Hne. rewrite Hsame by done. by apply Hiss.
Qed.

(** A quote without a holder changes state. *)
Lemma issue_inv_transition s s' ts id q st :
  issue_inv s ts -> store_ok s' -> quotes s !! id = Some q ->
  quotes s' = <[id := quote_with q st]> (quotes s) -> holders id ts = [] ->
  issue_inv s' ts.
Proof.
  intros Hinv Hok' Hq Hqs Hno. eapply issue_inv_store; [done..| |].
  - rewrite Hqs. by apply insert_amounts.
  - intros id' Hne. rewrite Hqs. apply lookup_insert_ne. congruence.
Qed.

Lemma issue_inv_same s s' ts :
  issue_inv s ts -> store_ok s' -> quotes s' = quotes s -> issue_inv s' ts.
Proof. intros Hinv Hok' Hq. eapply issue_inv_store; [done..| |]; rewrite Hq; eauto. Qed.

Lemma not_issued_no_holder s ts id q :
  issue_inv s ts -> quotes s !! id = Some q -> q_State q <> QuoteIssued -> holders id ts = [].
Proof.
  intros Hinv Hq Hst. destruct (holders id ts) eqn:Hh; [done|].
  destruct (ii_issued _ _ Hinv id) as (q' & ? & ?); [by rewrite Hh|congruence].
Qed.

Lemma issue_inv_claim s s' ts i t res :
  issue_inv s ts -> ts !! i = Some t -> mt_pc t = MtGuarded ->
  TransitionMintQuoteState (mt_quote t) QuotePaid QuoteIssued s = (res, s') ->
  issue_inv s' (<[i := at_pc t match res with
                               | Ok true => MtClaimed
                               | Ok false => MtFailed ErrQuoteAlreadyUsed
                               | Err e => MtFailed (Wrap "claiming quote" e)
                               end]> ts).
Proof.
  intros Hinv Hi Hpc Htr. pose proof (ii_ok _ _ Hinv) as Hok.
  apply law_Transition in Htr as (Hok' & _ & Hres); [|done].
  assert (forall e, quotes s' = quotes s -> issue_inv s' (<[i := at_pc t (MtFailed e)]> ts)) as Hfail.
  { intros e Hq. eapply issue_inv_same; [|done..]. apply issue_inv_thread; try done.
    left. rewrite holds_at; by destruct (String.eqb _ _). }
  destruct res as [[]|e]; [|apply Hfail; tauto|by apply Hfail].
  destruct Hres as (q & Hq & Hst & Hqs).
  assert (holders (mt_quote t) ts = []) as Hno by (eapply not_issued_no_holder; [done..|congruence]).
  assert (issue_inv s' ts) as Hinv' by by eapply issue_inv_transition.
  destruct Hinv' as [_ Hf Hone Hiss].
  assert (holders (mt_quote t) (<[i := at_pc t MtClaimed]> ts) ≡ₚ [at_pc t MtClaimed]) as Hnew.
  { unfold holders in *. rewrite (bind_insert_new _ _ _ _ (at_pc t MtClaimed) Hi).
    - by rewrite Hno, holds_at, String.eqb_refl.
    - unfold holds. rewrite Hpc. by case_match. }
  assert (forall id, id <> mt_quote t ->
    (length (holders id (<[i := at_pc t MtClaimed]> ts)) <= length (holders id ts))%nat) as Hold.
  { intros id Hne. eapply holders_move; [done|left]. rewrite holds_at.
    by rewrite (proj2 (String.eqb_neq _ _)). }
  split; [done| | |].
  - apply Forall_insert; [done|]. rewrite Forall_forall in Hf.
    specialize (Hf t (list_elem_of_lookup_2 _ _ _ Hi)). unfold fits in *. rewrite Hpc in Hf. exact Hf.
  - intros id. destruct (decide (id = mt_quote t)) as [->|Hne]; [by rewrite Hnew|].
    specialize (Hold id Hne). specialize (Hone id). lia.
  - intros id Hne. destruct (decide (id = mt_quote t)) as [->|Hid].
    + exists (quote_with q QuoteIssued). rewrite Hqs. by rewrite lookup_insert_eq.
    + apply Hiss. eapply length_zero_nil; [by apply Hold|done].
Qed.

Lemma issue_inv_release s s' ts i t e res :
  issue_inv s ts -> ts !! i = Some t -> mt_pc t = MtReleasing e ->
  release_quote (mt_quote t) e s = (Err res, s') ->
  issue_inv s' (<[i := at_pc t (MtFailed res)]> ts).
Proof.
  intros Hinv Hi Hpc Hrel.
  assert (issue_inv s (<[i := at_pc t (MtFailed res)]> ts)) as Hinv1.
  { apply issue_inv_thread; try done. left. rewrite holds_at; by destruct (String.eqb _ _). }
  assert (holders (mt_quote t) (<[i := at_pc t (MtFailed res)]> ts) = []) as Hno.
  { pose proof (bind_insert_perm (holds (mt_quote t)) ts i t (at_pc t (MtFailed res)) Hi) as Hp.
    apply Permutation_length in Hp. rewrite !length_app in Hp.
    pose proof (ii_one _ _ Hinv (mt_quote t)) as Hle1. unfold holders in *.
    assert (length (holds (mt_quote t) t) = 1%nat) as Ht.
    { unfold holds. by rewrite String.eqb_refl, Hpc. }
    assert (length (holds (mt_quote t) (at_pc t (MtFailed res))) = 0%nat) as Ht'.
    { rewrite holds_at; by destruct (String.eqb _ _). }
    apply nil_length_inv. lia. }
  unfold release_quote in Hrel.
  destruct (TransitionMintQuoteState _ _ _ _) as [r s1] eqn:Htr.
  apply law_Transition in Htr as (Hok' & _ & Hres); [|by apply (ii_ok s ts)].
  destruct r as [[]|e']; simplify_eq.
  - destruct Hres as (q & Hq & _ & Hqs). by eapply issue_inv_transition.
  - eapply issue_inv_same; [done..|]. tauto.
  - by eapply issue_inv_same.
Qed.

Lemma issue_step_inv s ts s' ts' :
  issue_step (s, ts) (s', ts') -> issue_inv s ts -> issue_inv s' ts'.
Proof.
  intros Hstep Hinv. pose proof (ii_ok _ _ Hinv) as Hok. inversion Hstep; subst; clear Hstep.
  - destruct Hinv as [_ Hf Hone Hiss]. set (t := mkMinter m id outs MtStart).
    assert (forall id', holders id' (ts ++ [t]) = holders id' ts) as Heq.
    { intros id'. unfold holders. rewrite bind_app. simpl. unfold holds at 2. simpl.
      case_match; by rewrite app_nil_r. }
    split; [done|apply Forall_app; by repeat constructor|setoid_rewrite Heq; done..].
  - apply issue_inv_thread; [done..| |left; rewrite holds_at; by destruct (String.eqb _ _)].
    exists q. split; [by apply law_GetMintQuote|].
    match goal with Hg : mint_guard _ _ = _ |- _ => unfold mint_guard, guard_or in Hg end.
    destruct (q_State q); try done. case_match; [by bprop|done].
  - apply issue_inv_thread; [done..|left; rewrite holds_at; by destruct (String.eqb _ _)].
  - by eapply issue_inv_claim.
  - pose proof (ii_fits _ _ Hinv) as Hf. rewrite Forall_forall in Hf.
    match goal with Ht : ts !! i = Some t, Hpc : mt_pc t = _ |- _ =>
      specialize (Hf t (list_elem_of_lookup_2 _ _ _ Ht)); unfold fits in Hf; rewrite Hpc in Hf end.
    apply issue_inv_thread; [done..| |].
    + unfold fits. simpl. by destruct (SignBlindedMessages _ _).
    + right. unfold holds. rewrite String.eqb_refl.
      match goal with Hpc : mt_pc t = _ |- _ => by rewrite Hpc end.
  - by eapply issue_inv_release.
  - match goal with Hs : SaveMintQuote _ _ = _ |- _ =>
      apply law_SaveMintQuote in Hs as (Hok' & _ & Hres); [|done] end.
    destruct res; [|by eapply issue_inv_same]. destruct Hres as [Hnone Hqs].
    eapply issue_inv_store; [done..| |].
    + intros id r Hr. exists r. rewrite Hqs, lookup_insert_ne by congruence. done.
    + intros id Hne. rewrite Hqs. apply lookup_insert_ne.
      intros <-. apply (ii_issued _ _ Hinv) in Hne as (? & ? & _). congruence.
  - match goal with Hs : TransitionMintQuoteState _ _ _ _ = _ |- _ =>
      apply law_Transition in Hs as (Hok' & _ & Hres); [|done] end.
    destruct res as [[]|]; [|eapply issue_inv_same; [done..|tauto]|by eapply issue_inv_same].
    destruct Hres as (q & Hq & Hst & Hqs). eapply issue_inv_transition; [done..|].
    eapply not_issued_no_holder; [done..|congruence].
Qed.

(** One payment, one issuance. However MintTokens calls interleave with each
    other, with failures and releases and with the payment being recorded, at
    most one of them gets signatures for a quote, and for no more than the
    quote's amount. *)
Theorem one_issuance_per_quote s0 s ts id
    (Hok : store_ok s0) (Hrun : rtc issue_step (s0, []) (s, ts)) :
  issued id ts = [] \/
  exists t q, issued id ts = [t] /\ quotes s !! id = Some q /\
              OutputsAmount (mt_outputs t) <= q_Amount q.
Proof.
  assert (issue_inv s ts) as Hinv.
  { eapply (rtc_pair_inv _ issue_inv); [apply issue_step_inv|exact Hrun|].
    split; [done|constructor|intros; simpl; lia|done]. }
  pose proof (ii_one _ _ Hinv id) as Hone.
  assert (issued id ts `sublist_of` holders id ts) as Hsub.
  { unfold issued, holders. clear. induction ts as [|t ts IH]; simpl; [constructor|].
    apply sublist_app; [|done]. unfold holds.
    repeat case_match; try constructor; apply sublist_nil_l. }
  pose proof (sublist_length _ _ Hsub) as Hlen.
  destruct (issued id ts) as [|t [|]] eqn:Hi; [by left| |simpl in *; lia].
  right. assert (t ∈ issued id ts) as Ht by (rewrite Hi; by left).
  apply list_elem_of_bind in Ht as (t' & Ht & Hin).
  pose proof (ii_fits _ _ Hinv) as Hf. rewrite Forall_forall in Hf. specialize (Hf t' Hin).
  unfold fits, holds in *. destruct (mt_pc t'); try by apply not_elem_of_nil in Ht.
  destruct (String.eqb_spec (mt_quote t') id) as [<-|]; [|by apply not_elem_of_nil in Ht].
  apply list_elem_of_singleton in Ht as ->. destruct Hf as (q & ? & ?). eauto.
Qed.
End issue.

(** ** Concrete interleavings over the SQLite store *)
Definition toy_ps : list Proof_ := [toy_proof 4 "a"].
Definition toy_sps : list SpentProof :=
  match VerifyProofs toy_mint toy_db "t1" toy_ps with Ok l => l | Err _ => [] end.
Definition toy_saved : EDB := (SaveSpentProofs toy_sps toy_db).2.

Lemma toy_sps_ok :
  VerifyProofs_reading toy_mint (fun _ y => IsProofSpent y toy_db) "t1" toy_ps = Ok toy_sps.
Proof. vm_compute. reflexivity. Qed.

(** Two requests verify the same proof before either saves it: one is accepted. *)
Lemma toy_spend_run :
  rtc spend_step (toy_db, [])
    (toy_saved, [mkSpender toy_mint (SpAccepted toy_sps);
                 mkSpender toy_mint (SpFailed (Wrap "saving spent proofs" ErrProofAlreadySpent))]).
Proof.
  eapply rtc_l; [apply (sp_arrive _ _ toy_mint "t1" toy_ps)|].
  eapply rtc_l; [apply (sp_arrive _ _ toy_mint "t1" toy_ps)|].
  eapply rtc_l; [eapply (sp_verify _ _ 0); [reflexivity|exact toy_sps_ok]|].
  eapply rtc_l; [eapply (sp_verify _ _ 1); [reflexivity|exact toy_sps_ok]|].
  eapply rtc_l; [eapply (sp_save _ _ 0 _ toy_sps toy_saved); [reflexivity|by vm_compute]|].
  eapply rtc_l; [eapply (sp_save_fails _ _ 1 _ toy_sps ErrProofAlreadySpent toy_saved);
    [reflexivity|by vm_compute]|].
  apply rtc_refl.
Qed.

Lemma no_double_spend_witness :
  exists s ts, rtc spend_step (toy_db, []) (s, ts) /\ length ts = 2%nat /\
               length (accepted ts) = 1%nat /\ NoDup (sp_Secret <$> accepted ts).
Proof.
  do 2 eexists. split; [exact toy_spend_run|]. split; [reflexivity|].
  split; [vm_compute; reflexivity|].
  refine (proj1 (no_double_spend toy_db _ _ _ toy_spend_run)).
  apply edb_ok_dec. vm_compute. reflexivity.
Defined.

Definition toy_outs : list BlindedMessage := [toy_output 8 5].
Definition toy_issued_db : EDB :=
  (TransitionMintQuoteState "q" QuotePaid QuoteIssued toy_paid).2.
Definition toy_sigs : list BlindedSignature :=
  match SignBlindedMessages toy_mint toy_outs with Ok l => l | Err _ => [] end.
Definition toy_minter (pc : minter) : mint_thread := mkMinter toy_mint "q" toy_outs pc.

(** Two requests pass the state check of one paid quote: one gets signatures. *)
Lemma toy_issue_run :
  rtc issue_step (toy_paid, [])
    (toy_issued_db, [toy_minter (MtSigned toy_sigs); toy_minter (MtFailed ErrQuoteAlreadyUsed)]).
Proof.
  eapply rtc_l; [apply (is_arrive _ _ toy_mint "q" toy_outs)|].
  eapply rtc_l; [apply (is_arrive _ _ toy_mint "q" toy_outs)|].
  assert (forall ts i t, ts !! i = Some t -> mt_pc t = MtStart -> mt_quote t = "q"%string ->
    mt_outputs t = toy_outs -> issue_step (toy_paid, ts) (toy_paid, <[i := at_pc t MtGuarded]> ts)) as Hg.
  { intros ts i t Hi Hpc Hq Ho. apply (is_guard _ _ i t (toy_quote QuotePaid)); [done..|rewrite Hq|rewrite Ho];
      by vm_compute. }
  eapply rtc_l; [apply (Hg _ 0%nat (toy_minter MtStart)); reflexivity|].
  eapply rtc_l; [apply (Hg _ 1%nat (toy_minter MtStart)); reflexivity|]. clear Hg.
  eapply rtc_l; [apply (is_claim _ _ 0 (toy_minter MtGuarded) (Ok true) toy_issued_db); [reflexivity..|by vm_compute]|].
  eapply rtc_l; [apply (is_claim _ _ 1 (toy_minter MtGuarded) (Ok false) toy_issued_db); [reflexivity..|by vm_compute]|].
  eapply rtc_l; [apply (is_sign _ _ 0 (toy_minter MtClaimed)); reflexivity|].
  assert (SignBlindedMessages toy_mint toy_outs = Ok toy_sigs) as Hs by (vm_compute; reflexivity).
  cbn -[SignBlindedMessages toy_mint toy_outs toy_issued_db toy_sigs]. rewrite Hs. apply rtc_refl.
Qed.

Lemma one_issuance_per_quote_witness :
  exists s ts t, rtc issue_step (toy_paid, []) (s, ts) /\ issued "q" ts = [t] /\
    (issued "q" ts = [] \/ exists t q, issued "q" ts = [t] /\ quotes s !! "q"%string = Some q /\
                                      OutputsAmount (mt_outputs t) <= q_Amount q).
Proof.
  do 3 eexists. split; [exact toy_issue_run|]. split; [reflexivity|].
  refine (one_issuance_per_quote toy_paid _ _ "q" _ toy_issue_run).
  apply edb_ok_dec. vm_compute. reflexivity.
Defined.
