(* ===== verification/WorkerPool.v ===== *)
(** * WorkerPool: the bound on concurrent crypto operations
    (src/internal/ecash/worker_pool.go)

    The semaphore channel is the number of tokens in it, [pending] the counter
    beside it. A request takes a token and then counts itself, and leaves in
    the opposite order, so the two numbers are momentarily apart; [pool_step]
    interleaves all requests at that grain. *)
From S2P Require Import Prelude Sql Ecash Mint.

Record pool := mkPool { wp_cap : nat; wp_sem : nat; wp_pending : Z }.

(** [gomaxprocs] is runtime.GOMAXPROCS(0). *)
Definition NewWorkerPool (gomaxprocs maxWorkers : Z) : pool :=
  mkPool (Z.to_nat (if maxWorkers <=? 0 then gomaxprocs else maxWorkers)) 0 0.
Definition Pending (wp : pool) : Z := wp_pending wp.
Definition MaxWorkers (wp : pool) : Z := Z.of_nat (wp_cap wp).

(** ** Where a request stands *)
Inductive worker :=
| WWaiting    (* in acquire's select *)
| WCounting   (* has a token, not counted yet *)
| WRunning    (* inside the mint's operation *)
| WLeaving    (* uncounted, token still held *)
| WDone
| WCancelled. (* the context ended first: "crypto worker pool full" *)
#[export] Instance worker_eq_dec : EqDecision worker.
Proof. solve_decision. Defined.

Definition has_token (w : worker) : bool :=
  match w with WCounting | WRunning | WLeaving => true | _ => false end.
Definition is_running (w : worker) : bool := match w with WRunning => true | _ => false end.
Definition count (p : worker -> bool) (ws : list worker) : nat := length (bfilter p ws).

(** [ctx i] tells whether the i-th request's context has ended. When both arms
    of the select are ready either may be taken. *)
Inductive pool_step (ctx : nat -> bool) : pool * list worker -> pool * list worker -> Prop :=
| wp_arrive wp ws : pool_step ctx (wp, ws) (wp, ws ++ [WWaiting])
| wp_take wp ws i :
    ws !! i = Some WWaiting -> (wp_sem wp < wp_cap wp)%nat ->
    pool_step ctx (wp, ws) (mkPool (wp_cap wp) (S (wp_sem wp)) (wp_pending wp), <[i := WCounting]> ws)
| wp_cancel wp ws i :
    ws !! i = Some WWaiting -> ctx i = true ->
    pool_step ctx (wp, ws) (wp, <[i := WCancelled]> ws)
| wp_count wp ws i :
    ws !! i = Some WCounting ->
    pool_step ctx (wp, ws) (mkPool (wp_cap wp) (wp_sem wp) (wp_pending wp + 1), <[i := WRunning]> ws)
| wp_uncount wp ws i :
    ws !! i = Some WRunning ->
    pool_step ctx (wp, ws) (mkPool (wp_cap wp) (wp_sem wp) (wp_pending wp - 1), <[i := WLeaving]> ws)
| wp_release wp ws i :
    ws !! i = Some WLeaving -> (0 < wp_sem wp)%nat ->
    pool_step ctx (wp, ws) (mkPool (wp_cap wp) (Nat.pred (wp_sem wp)) (wp_pending wp), <[i := WDone]> ws).

(** The pool's wrappers around the mint's operations: the operation runs
    exactly when the acquire succeeded. *)
Definition pooled {A S} (acquired : bool) (op : S -> mresult A * S) (s : S) : mresult A * S :=
  if acquired then op s else (Err ErrPoolFull, s).

Section wrappers.
Context `{Bdhke} {S : Type} `{!MintStore S}.
Definition Pool_SignBlindedMessages acquired (m : Mint) outputs (s : S) :=
  pooled acquired (fun s => (SignBlindedMessages m outputs, s)) s.
Definition Pool_VerifyProofs acquired (m : Mint) now proofs (s : S) :=
  pooled acquired (fun s => (VerifyProofs m s now proofs, s)) s.
Definition Pool_VerifyAndMarkSpent acquired (m : Mint) now proofs (s : S) :=
  pooled acquired (VerifyAndMarkSpent m now proofs) s.
Definition Pool_Swap acquired (m : Mint) now inputs outputs (s : S) :=
  pooled acquired (Swap m now inputs outputs) s.
Definition Pool_MintTokens acquired (m : Mint) quoteID outputs (s : S) :=
  pooled acquired (MintTokens m quoteID outputs) s.
End wrappers.

(** ** The counters tell the truth *)
Lemma count_app p ws w : count p (ws ++ [w]) = (count p ws + if p w then 1 else 0)%nat.
Proof. unfold count. rewrite bfilter_app, length_app. simpl. by destruct (p w). Qed.

Lemma count_insert p ws i w w' :
  ws !! i = Some w ->
  (count p (<[i := w']> ws) + (if p w then 1 else 0) = count p ws + (if p w' then 1 else 0))%nat.
Proof.
  unfold count. revert i. induction ws as [|x ws IH]; intros [|i] Hi; simplify_eq/=.
  - destruct (p w), (p w'); simpl; lia.
  - specialize (IH i Hi). destruct (p x); simpl; lia.
Qed.

Definition pool_ok (wp : pool) (ws : list worker) : Prop :=
  wp_sem wp = count has_token ws /\ wp_pending wp = Z.of_nat (count is_running ws) /\
  (wp_sem wp <= wp_cap wp)%nat.

Lemma pool_step_ok ctx wp ws wp' ws' :
  pool_step ctx (wp, ws) (wp', ws') -> pool_ok wp ws -> pool_ok wp' ws' /\ wp_cap wp' = wp_cap wp.
Proof.
  intros Hstep (Hs & Hp & Hc). unfold pool_ok.
  inversion Hstep; subst; clear Hstep; simpl;
    rewrite ?count_app;
    repeat match goal with
    | Hi : ws !! ?i = Some ?w |- context [<[?i := ?w']> ws] =>
        pose proof (count_insert has_token ws i w w' Hi);
        pose proof (count_insert is_running ws i w w' Hi); clear Hi; simpl in *
    end; simpl; lia.
Qed.

Lemma running_has_token ws : (count is_running ws <= count has_token ws)%nat.
Proof. unfold count. induction ws as [|[] ws IH]; simpl; lia. Qed.

(** The pool's bound. At every moment the semaphore holds exactly the
    requests that own a token, [Pending] is exactly the number inside the mint,
    never more than the number of workers; and a waiting request is held up
    only while some other request owns a token (slots are never leaked). *)
Theorem pool_bounded gomaxprocs maxWorkers ctx wp ws
    (Hcpu : 0 < gomaxprocs)
    (Hrun : rtc (pool_step ctx) (NewWorkerPool gomaxprocs maxWorkers, []) (wp, ws)) :
  Pending wp = Z.of_nat (count is_running ws) /\
  Pending wp <= Z.of_nat (count has_token ws) <= MaxWorkers wp /\
  forall i, ws !! i = Some WWaiting ->
    (exists wp', pool_step ctx (wp, ws) (wp', <[i := WCounting]> ws)) \/
    exists j w, ws !! j = Some w /\ has_token w = true.
Proof.
  assert (pool_ok wp ws /\ (0 < wp_cap wp)%nat) as [(Hs & Hp & Hc) Hpos].
  { eapply (rtc_pair_inv _ (fun wp ws => pool_ok wp ws /\ (0 < wp_cap wp)%nat)); [|exact Hrun|].
    - intros wp1 ws1 wp2 ws2 Hstep [Hok Hpos]. apply pool_step_ok in Hstep as [? ->]; done.
    - repeat split; simpl; try done; try lia. destruct (Z.leb_spec maxWorkers 0); lia. }
  unfold Pending, MaxWorkers. pose proof (running_has_token ws).
  split; [done|]. split; [lia|]. intros i Hi.
  destruct (decide (wp_sem wp < wp_cap wp)%nat) as [Hfree|Hfull].
  - left. eexists. by apply wp_take.
  - right. assert (0 < count has_token ws)%nat as Hn by lia. unfold count in Hn.
    destruct (bfilter has_token ws) as [|w l] eqn:Hf; [simpl in Hn; lia|].
    assert (w ∈ bfilter has_token ws) as Hw by (rewrite Hf; by left).
    apply elem_of_bfilter in Hw as [Ht [j Hj]%list_elem_of_lookup]. eauto.
Qed.

Lemma pool_bounded_witness :
  let wp := mkPool 1 1 1 in
  let ws := [WRunning; WWaiting] in
  rtc (pool_step (fun _ => false)) (NewWorkerPool 8 1, []) (wp, ws) /\
  Pending wp = Z.of_nat (count is_running ws).
Proof.
  cbv zeta.
  assert (rtc (pool_step (fun _ => false)) (NewWorkerPool 8 1, []) (mkPool 1 1 1, [WRunning; WWaiting])) as Hrun.
  { eapply rtc_l; [apply wp_arrive|]. eapply rtc_l; [apply wp_arrive|].
    eapply rtc_l; [eapply (wp_take _ _ _ 0); [reflexivity|simpl; lia]|].
    eapply rtc_l; [eapply (wp_count _ _ _ 0); reflexivity|]. apply rtc_refl. }
  split; [exact Hrun|].
  refine (proj1 (pool_bounded 8 1 (fun _ => false) _ _ _ Hrun)). reflexivity.
Defined.
