(* ===== verification/Settlement.v ===== *)
(** * Settlement: computing and paying node earnings
    (src/internal/payments/settlement.go)

    [RunSettlement] and [RetryFailedPayouts] over the store of Repository.v.
    The Lightning client is the argument [env]: for each payout, whether the
    context had ended and what Keysend answered. Every Keysend issued is
    returned, so the theorems can count payments. *)
From S2P Require Import Prelude Sql Schema Credentials Repository Ledger.

(** ** The Lightning client *)
Inductive PaymentStatus := PaymentSucceeded | PaymentFailed | PaymentInFlight.
Record PaymentResult := mkPayResult {
  pr_PaymentHash : string;
  pr_Status : PaymentStatus;
  pr_FeeSats : Z;
  pr_Error : string
}.
(** What a Keysend call returns: a context error, another error, a result. *)
Inductive keysend_reply :=
| KsContext
| KsError (msg : string)
| KsResult (r : PaymentResult).

Record pay_env := mkEnv {
  env_cancelled : Z -> bool;
  env_keysend : Z -> keysend_reply
}.

(** A Keysend issued: for which payout, to whom, how much, and the reply. *)
Record call := mkCall {
  call_payout : Z;
  call_dest : string;
  call_sats : Z;
  call_reply : keysend_reply
}.

Inductive pay_error :=
| ErrPaymentInFlight
| ErrCancelled
| ErrStore (e : store_error)
| ErrKeysend (msg : string).
#[export] Instance pay_error_eq_dec : EqDecision pay_error.
Proof. solve_decision. Defined.

(** ** The engine *)
Record SettlementEngine := mkEngine { minPayout : Z; hubMarginPct : Z }.
Definition NewSettlementEngine : SettlementEngine := mkEngine 1000 20.
Definition SetMinPayout (sats : Z) (e : SettlementEngine) : SettlementEngine :=
  mkEngine sats (hubMarginPct e).
Definition SetHubMargin (pct : Z) (e : SettlementEngine) : SettlementEngine :=
  mkEngine (minPayout e) (if (pct <? 0) || (50 <? pct) then 20 else pct).

Record SettlementResult := mkResult {
  sr_Period : string;
  sr_SessionsSettled : Z;
  sr_SessionsSkipped : Z;
  sr_EntriesCreated : Z;
  sr_PayoutsSent : Z;
  sr_PayoutsSucceeded : Z;
  sr_PayoutsFailed : Z;
  sr_PayoutsInFlight : Z;
  sr_TotalPaidSats : Z
}.

(** ** Sending one payout *)

(** The body of the switch on result.Status. *)
Definition settle_reply (now : string) (payoutID : Z) (reply : keysend_reply) (db : DB) :
    result pay_error unit * DB :=
  match reply with
  | KsContext => (Err ErrPaymentInFlight, db)
  | KsError msg => (Err (ErrKeysend msg), (MarkPayoutFailed now payoutID msg db).2)
  | KsResult r =>
      match pr_Status r with
      | PaymentSucceeded =>
          let '(res, db') := MarkPayoutPaid now payoutID (pr_PaymentHash r) db in
          (match res with Ok u => Ok u | Err e => Err (ErrStore e) end, db')
      | PaymentInFlight => (Err ErrPaymentInFlight, db)
      | PaymentFailed =>
          let errMsg := if str_empty (pr_Error r) then "payment did not succeed"%string
                        else pr_Error r in
          (Err (ErrKeysend errMsg), (MarkPayoutFailed now payoutID errMsg db).2)
      end
  end.

Definition sendPayout (env : pay_env) (now : string) (payoutID : Z) (nodePubkey : string)
    (amountSats : Z) (db : DB) : result pay_error unit * DB * list call :=
  if env_cancelled env payoutID then (Err ErrCancelled, db, [])
  else match MarkPayoutInFlight now payoutID db with
       | (Err e, db1) => (Err (ErrStore e), db1, [])
       | (Ok _, db1) =>
           let reply := env_keysend env payoutID in
           (settle_reply now payoutID reply db1, [mkCall payoutID nodePubkey amountSats reply])
       end.

(** ** Paying what is owed *)
Definition count_payout (amount : Z) (r : result pay_error unit) (res : SettlementResult) :
    SettlementResult :=
  mkResult (sr_Period res) (sr_SessionsSettled res) (sr_SessionsSkipped res)
    (sr_EntriesCreated res) (sr_PayoutsSent res + 1)
    (sr_PayoutsSucceeded res + match r with Ok _ => 1 | _ => 0 end)
    (sr_PayoutsFailed res
     + match r with Ok _ | Err ErrPaymentInFlight => 0 | Err _ => 1 end)
    (sr_PayoutsInFlight res + match r with Err ErrPaymentInFlight => 1 | _ => 0 end)
    (match r with Ok _ => sr_TotalPaidSats res +i amount | Err _ => sr_TotalPaidSats res end).

(** The loop over the unsettled entries. *)
Fixpoint pay_loop (env : pay_env) (now : string) (purchased committed : Z)
    (entries : list SettlementRow) (res : SettlementResult) (db : DB) :
    SettlementResult * DB * list call :=
  match entries with
  | [] => (res, db, [])
  | entry :: rest =>
      if purchased <? committed +i s_amount_sats entry then (res, db, [])
      else match InsertPayout now (s_id entry) (s_node_pubkey entry) (s_amount_sats entry) db with
           | (Err _, db1) => pay_loop env now purchased committed rest res db1
           | (Ok payoutID, db1) =>
               let '(r, db2, cs) := sendPayout env now payoutID (s_node_pubkey entry)
                                      (s_amount_sats entry) db1 in
               let '(res', db3, cs') :=
                 pay_loop env now purchased (committed +i s_amount_sats entry) rest
                   (count_payout (s_amount_sats entry) r res) db2 in
               (res', db3, cs ++ cs')
           end
  end.

Definition executePayouts (e : SettlementEngine) (env : pay_env) (now : string)
    (res : SettlementResult) (db : DB) : outcome SettlementResult * DB * list call :=
  match TotalPurchasedSats db, TotalCommittedPayoutSats db with
  | Err err, _ => (Err err, db, [])
  | Ok _, Err err => (Err err, db, [])
  | Ok purchased, Ok committed =>
      let '(res', db', cs) :=
        pay_loop env now purchased committed (GetUnsettledEntries (minPayout e) db) res db in
      (Ok res', db', cs)
  end.

(** ** Computing what is owed *)
Definition min64 (a b : Z) : Z := if a <? b then a else b.

Definition computePayoutSats (billableBytes invoiceAmountSats invoiceBytesAllowed : Z) : Z :=
  if invoiceBytesAllowed =? 0 then 0
  else (billableBytes *i invoiceAmountSats) /i invoiceBytesAllowed.

(** What one session earns: billable bytes, the entry's and the exit's sats. *)
Definition session_bill (marginPct : Z) (s : SessionUsageSummary) (info : TicketSettlementInfo) :
    Z * Z * Z :=
  let billable0 := min64 (su_EntryBytes s) (su_ExitBytes s) in
  let billable := if ti_TicketBytes info <? billable0 then ti_TicketBytes info else billable0 in
  let totalSats := computePayoutSats billable (ti_AmountSats info) (ti_BytesAllowed info) in
  let nodePool := (totalSats *i (100 - marginPct)) /i 100 in
  let entrySats := nodePool /i 2 in
  let exitSats := nodePool -i entrySats in
  (billable, entrySats, exitSats).

(** The session counts: ticket found and redeemed, its invoice settled. *)
Definition session_valid (db : DB) (s : SessionUsageSummary) : option TicketSettlementInfo :=
  match GetTicketSettlementInfo (su_TicketID s) db with
  | Err _ => None
  | Ok info =>
      if negb (bool_decide (ti_TicketStatus info = TRedeemed)) then None
      else if negb (bool_decide (ti_InvoiceStatus info = InvSettled)) then None
      else if ti_BytesAllowed info =? 0 then None
      else Some info
  end.

Record nodeAgg := mkAgg {
  na_entryBytesTotal : Z;
  na_exitBytesTotal : Z;
  na_billableBytes : Z;
  na_billableSats : Z;
  na_ticketsRedeemed : Z
}.

Definition add_share (s : SessionUsageSummary) (billable sats : Z) (node : string)
    (aggs : gmap string nodeAgg) : gmap string nodeAgg :=
  let a := default (mkAgg 0 0 0 0 0) (aggs !! node) in
  <[node := mkAgg (na_entryBytesTotal a +i su_EntryBytes s) (na_exitBytesTotal a +i su_ExitBytes s)
              (na_billableBytes a +i billable) (na_billableSats a +i sats)
              (na_ticketsRedeemed a + 1)]> aggs.

(** The loop over the summaries: aggregates, sessions settled and skipped. *)
Fixpoint aggregate (marginPct : Z) (db : DB) (ss : list SessionUsageSummary)
    (acc : gmap string nodeAgg * Z * Z) : gmap string nodeAgg * Z * Z :=
  match ss with
  | [] => acc
  | s :: rest =>
      let '(aggs, settled, skipped) := acc in
      match session_valid db s with
      | None => aggregate marginPct db rest (aggs, settled, skipped + 1)
      | Some info =>
          let '(billable, entrySats, exitSats) := session_bill marginPct s info in
          let aggs1 := add_share s billable entrySats (su_EntryNode s) aggs in
          let aggs2 := add_share s billable exitSats (su_ExitNode s) aggs1 in
          aggregate marginPct db rest (aggs2, settled + 1, skipped)
      end
  end.

(** The loop over the aggregates, in whatever order the map yields them. *)
Fixpoint entry_loop (now period : string) (l : list (string * nodeAgg)) (created : Z) (db : DB) :
    Z * DB :=
  match l with
  | [] => (created, db)
  | (nodePubkey, agg) :: rest =>
      match InsertSettlementEntry now period nodePubkey (na_billableBytes agg) (na_billableSats agg)
              (na_entryBytesTotal agg) (na_exitBytesTotal agg) (na_ticketsRedeemed agg) db with
      | (Ok true, db1) => entry_loop now period rest (created + 1) db1
      | (_, db1) => entry_loop now period rest created db1
      end
  end.

(** Go's range over a map. *)
Definition map_order := gmap string nodeAgg -> list (string * nodeAgg).
Definition fair_order (range : map_order) : Prop := forall m, range m ≡ₚ map_to_list m.

Definition period_of (periodStart periodEnd : string) : string :=
  (periodStart ++ "/" ++ periodEnd)%string.

(** Steps 1-3. *)
Definition create_entries (e : SettlementEngine) (range : map_order)
    (now periodStart periodEnd : string) (db : DB) : SettlementResult * DB :=
  let period := period_of periodStart periodEnd in
  let summaries := GetSessionUsageSummaries periodStart periodEnd db in
  let '(aggs, settled, skipped) := aggregate (hubMarginPct e) db summaries (∅, 0, 0) in
  let '(created, db1) := entry_loop now period (range aggs) 0 db in
  (mkResult period settled skipped created 0 0 0 0 0, db1).

Definition RunSettlement (e : SettlementEngine) (env : pay_env) (range : map_order)
    (now periodStart periodEnd : string) (db : DB) : outcome SettlementResult * DB * list call :=
  let '(res, db1) := create_entries e range now periodStart periodEnd db in
  executePayouts e env now res db1.

(** The loop of RetryFailedPayouts: succeeded, failed. *)
Fixpoint retry_loop (env : pay_env) (now : string) (ps : list PayoutRow) (succeeded failed : Z)
    (db : DB) : Z * Z * DB * list call :=
  match ps with
  | [] => (succeeded, failed, db, [])
  | p :: rest =>
      match MarkPayoutRetrying now (p_id p) db with
      | (Err _, db1) => retry_loop env now rest succeeded failed db1
      | (Ok _, db1) =>
          let '(r, db2, cs) := sendPayout env now (p_id p) (p_node_pubkey p) (p_amount_sats p) db1 in
          let '(s', f', db3, cs') :=
            retry_loop env now rest (succeeded + if is_ok r then 1 else 0)
              (failed + if is_ok r then 0 else 1) db2 in
          (s', f', db3, cs ++ cs')
      end
  end.
Definition RetryFailedPayouts (env : pay_env) (now : string) (db : DB) : Z * Z * DB * list call :=
  retry_loop env now (GetRetryablePayouts db) 0 0 db.

(** ** One payout at a time *)
Definition payout_at (id : Z) (db : DB) : option PayoutRow := sql_find (payout_is id) (payouts db).
Definition update_at (id : Z) (f : PayoutRow -> PayoutRow) (db : DB) : DB :=
  set_payouts db ((fun x => if payout_is id x then f x else x) <$> payouts db).

(** [f] only rewrites the columns a payout may change. *)
Definition mark (f : PayoutRow -> PayoutRow) : Prop :=
  forall x, p_id (f x) = p_id x /\ p_entry_id (f x) = p_entry_id x /\
            p_node_pubkey (f x) = p_node_pubkey x /\ p_amount_sats (f x) = p_amount_sats x.

Lemma set_payout_mark now st h a e :
  mark (fun x => set_payout now st (h x) (a x) (e x) x).
Proof. done. Qed.

Lemma mark_passes f x : mark f -> payout_trig x (f x) = false /\ payout_check (f x) = payout_check x.
Proof.
  intros Hm. destruct (Hm x) as (_ & He & Hn & Ha).
  unfold payout_trig, payout_check. by rewrite He, Hn, Ha, !Z.eqb_refl, String.eqb_refl.
Qed.

Lemma payout_at_update_same id f db r :
  mark f -> payout_at id db = Some r -> payout_at id (update_at id f db) = Some (f r).
Proof.
  intros Hm Hr. unfold payout_at, update_at in *. simpl. rewrite find_fmap, Hr; simpl.
  - by apply sql_find_Some in Hr as [_ ->].
  - intros x. unfold payout_is. destruct (p_id x =? id) eqn:Hx; [|done].
    by rewrite (proj1 (Hm x)).
Qed.

Lemma payout_at_update_other id id' f db :
  mark f -> id <> id' -> payout_at id' (update_at id f db) = payout_at id' db.
Proof.
  intros Hm Hne. unfold payout_at, update_at. simpl. rewrite find_fmap.
  - destruct (sql_find (payout_is id') (payouts db)) as [x|] eqn:Hx; [|done]. simpl.
    apply sql_find_Some in Hx as [_ Hx]. unfold payout_is in *. bprop.
    by rewrite (proj2 (Z.eqb_neq _ _)) by congruence.
  - intros x. unfold payout_is. destruct (p_id x =? id); [|done]. by rewrite (proj1 (Hm x)).
Qed.

Lemma payout_at_unique db id r x :
  NoDup (p_id <$> payouts db) -> payout_at id db = Some r ->
  x ∈ payouts db -> payout_is id x = true -> x = r.
Proof.
  intros Hnd Hr Hx Hid. apply sql_find_Some in Hr as [Hr Hid']. unfold payout_is in *. bprop.
  revert Hnd Hr Hx. induction (payouts db) as [|y t IH]; intros Hnd Hr Hx; [by apply not_elem_of_nil in Hr|].
  csimpl in *. apply NoDup_cons in Hnd as [Hy Hnd].
  apply elem_of_cons in Hr as [->|Hr], Hx as [->|Hx]; auto.
  - destruct Hy. rewrite Hid', <-Hid. by apply list_elem_of_fmap_2.
  - destruct Hy. rewrite Hid, <-Hid'. by apply list_elem_of_fmap_2.
Qed.

(** An UPDATE of one payout by id: done if its guard holds, refused without a
    write otherwise. *)
Lemma update_payout_cases id (g : PayoutRow -> bool) f to db r :
  db_wf db -> mark f -> payout_at id db = Some r ->
  update_payout (fun x => payout_is id x && g x) f to db =
    if g r then (Ok tt, update_at id f db) else (Err (ErrPayoutTransition to), db).
Proof.
  intros [_ _ _ _ (Hnd & _ & Hall) _ _ _] Hm Hr. unfold update_payout.
  assert (forall x, x ∈ payouts db -> payout_is id x = true -> x = r) as Huniq
    by (intros; by eapply payout_at_unique).
  pose proof (sql_find_Some _ _ _ Hr) as [Hin Hid].
  destruct (g r) eqn:Hg.
  - rewrite sql_update_map.
    + assert (0 < sql_count (fun x => payout_is id x && g x) (payouts db))%nat as Hpos.
      { apply sql_count_pos. exists r. by rewrite Hid, Hg. }
      destruct (sql_count _ _); [lia|]. simpl. f_equal. unfold update_at. f_equal.
      apply list_fmap_ext. intros i x Hx%list_elem_of_lookup_2.
      destruct (payout_is id x) eqn:Hidx; [|done]. by rewrite (Huniq x), Hg.
    + intros x Hx _. rewrite Forall_forall in Hall. destruct (Hall x Hx) as [Hc _].
      destruct (mark_passes f x Hm) as [? ->]. done.
  - rewrite sql_update_none; [by destruct db|].
    destruct (sql_count _ _) eqn:Hc; [done|].
    destruct (proj1 (sql_count_pos (fun x => payout_is id x && g x) (payouts db))) as (x & Hx & Hp); [lia|].
    bprop. rewrite (Huniq x) in * by done. congruence.
Qed.

(** No such payout: every transition is refused without a write. *)
Lemma update_payout_absent id (g : PayoutRow -> bool) f to db :
  payout_at id db = None ->
  update_payout (fun x => payout_is id x && g x) f to db = (Err (ErrPayoutTransition to), db).
Proof.
  intros Hn. unfold update_payout. rewrite sql_update_none; [by destruct db|].
  destruct (sql_count _ _) eqn:Hc; [done|].
  destruct (proj1 (sql_count_pos (fun x => payout_is id x && g x) (payouts db))) as (x & Hx & Hp); [lia|].
  bprop. by rewrite (sql_find_None _ _ _ Hn Hx) in *.
Qed.

Definition sendable (r : PayoutRow) : bool := bool_decide (p_status r ∈ [PPending; PRetrying]).
Definition sent_row (now : string) (r : PayoutRow) : PayoutRow :=
  set_payout now PInFlight (p_payment_hash r) (p_attempt_count r) (p_last_error r) r.
Definition paid_row (now h : string) (r : PayoutRow) : PayoutRow :=
  set_payout now PPaid (Some h) (p_attempt_count r) (p_last_error r) r.
Definition failed_row (now msg : string) (r : PayoutRow) : PayoutRow :=
  set_payout now PFailed (p_payment_hash r) (p_attempt_count r + 1) (Some msg) r.
Definition retry_row (now : string) (r : PayoutRow) : PayoutRow :=
  set_payout now PRetrying (p_payment_hash r) (p_attempt_count r) (p_last_error r) r.

Lemma MarkPayoutInFlight_cases now id db r :
  db_wf db -> payout_at id db = Some r ->
  MarkPayoutInFlight now id db =
    if sendable r then (Ok tt, update_at id (sent_row now) db)
    else (Err (ErrPayoutTransition PInFlight), db).
Proof. intros Hwf Hr. by apply (update_payout_cases id (fun x => bool_decide (p_status x ∈ _)) _ _ _ r). Qed.

Lemma MarkPayoutPaid_cases now id h db r :
  db_wf db -> payout_at id db = Some r -> p_status r = PInFlight ->
  MarkPayoutPaid now id h db = (Ok tt, update_at id (paid_row now h) db).
Proof.
  intros Hwf Hr Hst. unfold MarkPayoutPaid, payout_in.
  rewrite (update_payout_cases id (fun x => bool_decide (p_status x ∈ _)) _ _ _ r) by done.
  by rewrite bool_decide_eq_true_2 by (rewrite Hst; by left).
Qed.

Lemma MarkPayoutFailed_cases now id msg db r :
  db_wf db -> payout_at id db = Some r -> p_status r = PInFlight ->
  MarkPayoutFailed now id msg db = (Ok tt, update_at id (failed_row now msg) db).
Proof.
  intros Hwf Hr Hst. unfold MarkPayoutFailed, payout_in.
  rewrite (update_payout_cases id (fun x => bool_decide (p_status x ∈ _)) _ _ _ r) by done.
  by rewrite bool_decide_eq_true_2 by (rewrite Hst; by left).
Qed.

Lemma MarkPayoutRetrying_cases now id db :
  db_wf db ->
  MarkPayoutRetrying now id db =
    match payout_at id db with
    | Some r => if retryable r then (Ok tt, update_at id (retry_row now) db)
                else (Err (ErrPayoutTransition PRetrying), db)
    | None => (Err (ErrPayoutTransition PRetrying), db)
    end.
Proof.
  intros Hwf. destruct (payout_at id db) as [r|] eqn:Hr; unfold MarkPayoutRetrying.
  - by apply update_payout_cases.
  - by apply update_payout_absent.
Qed.

(** ** Sending a payout *)
Definition fail_text (r : PaymentResult) : string :=
  if str_empty (pr_Error r) then "payment did not succeed" else pr_Error r.
(** What a reply does to the row in flight, and what sendPayout returns. *)
Definition reply_row (now : string) (reply : keysend_reply) (r : PayoutRow) : PayoutRow :=
  match reply with
  | KsContext => r
  | KsError msg => failed_row now msg r
  | KsResult p =>
      match pr_Status p with
      | PaymentSucceeded => paid_row now (pr_PaymentHash p) r
      | PaymentInFlight => r
      | PaymentFailed => failed_row now (fail_text p) r
      end
  end.
Definition reply_result (reply : keysend_reply) : result pay_error unit :=
  match reply with
  | KsContext => Err ErrPaymentInFlight
  | KsError msg => Err (ErrKeysend msg)
  | KsResult p =>
      match pr_Status p with
      | PaymentSucceeded => Ok tt
      | PaymentInFlight => Err ErrPaymentInFlight
      | PaymentFailed => Err (ErrKeysend (fail_text p))
      end
  end.
Definition send_row (now : string) (reply : keysend_reply) (r : PayoutRow) : PayoutRow :=
  reply_row now reply (sent_row now r).

Lemma reply_row_mark now reply : mark (reply_row now reply).
Proof. intros x. unfold reply_row. by repeat case_match. Qed.
Lemma send_row_mark now reply : mark (send_row now reply).
Proof. intros x. unfold send_row. by destruct (reply_row_mark now reply (sent_row now x)) as (-> & -> & -> & ->). Qed.

Lemma update_at_id id db : update_at id (fun x => x) db = db.
Proof.
  unfold update_at. replace (_ <$> payouts db) with (payouts db); [by destruct db|].
  symmetry. rewrite <-(list_fmap_id (payouts db)) at 2. apply list_fmap_ext.
  intros i x _. by destruct (payout_is id x).
Qed.

Lemma update_at_compose id f g db :
  mark g -> update_at id f (update_at id g db) = update_at id (fun x => f (g x)) db.
Proof.
  intros Hg. unfold update_at. simpl. rewrite <-list_fmap_compose. f_equal.
  apply list_fmap_ext. intros i x _. simpl. unfold payout_is.
  destruct (p_id x =? id) eqn:Hx; [|by rewrite Hx]. by rewrite (proj1 (Hg x)), Hx.
Qed.

Lemma settle_reply_cases now id reply db r :
  db_wf db -> payout_at id db = Some r -> p_status r = PInFlight ->
  settle_reply now id reply db = (reply_result reply, update_at id (reply_row now reply) db).
Proof.
  intros Hwf Hr Hst. unfold settle_reply, reply_result, reply_row.
  destruct reply as [|msg|p]; [by rewrite update_at_id|by rewrite (MarkPayoutFailed_cases _ _ _ _ r)|].
  destruct (pr_Status p).
  - by rewrite (MarkPayoutPaid_cases _ _ _ _ r).
  - fold (fail_text p). by rewrite (MarkPayoutFailed_cases _ _ _ _ r).
  - by rewrite update_at_id.
Qed.

Lemma sendPayout_cases env now id node sats db r :
  db_wf db -> payout_at id db = Some r ->
  sendPayout env now id node sats db =
    if env_cancelled env id then (Err ErrCancelled, db, [])
    else if sendable r
    then (reply_result (env_keysend env id), update_at id (send_row now (env_keysend env id)) db,
          [mkCall id node sats (env_keysend env id)])
    else (Err (ErrStore (ErrPayoutTransition PInFlight)), db, []).
Proof.
  intros Hwf Hr. unfold sendPayout. destruct (env_cancelled env id); [done|].
  pose proof (run_op_wf (OMarkPayoutInFlight now id) db Hwf) as Hwf1. simpl in Hwf1.
  rewrite (MarkPayoutInFlight_cases _ _ _ r) in * by done. destruct (sendable r); [|done].
  assert (payout_at id (update_at id (sent_row now) db) = Some (sent_row now r)) as Hr1
    by by apply payout_at_update_same.
  cbn [snd] in *. rewrite (settle_reply_cases _ _ _ _ _ Hwf1 Hr1) by done.
  by rewrite update_at_compose.
Qed.

Lemma sendPayout_wf env now id node sats db :
  db_wf db -> db_wf (sendPayout env now id node sats db).1.2.
Proof.
  intros Hwf. unfold sendPayout. destruct (env_cancelled env id); [done|].
  pose proof (run_op_wf (OMarkPayoutInFlight now id) db Hwf) as Hwf1. simpl in Hwf1.
  destruct (MarkPayoutInFlight now id db) as [[[]|e] db1]; [|done]. simpl in *.
  unfold settle_reply. destruct (env_keysend env id) as [|msg|p]; [done| |].
  - exact (run_op_wf (OMarkPayoutFailed now id msg) db1 Hwf1).
  - destruct (pr_Status p); [| |done].
    + pose proof (run_op_wf (OMarkPayoutPaid now id (pr_PaymentHash p)) db1 Hwf1) as Hw. simpl in Hw.
      by destruct (MarkPayoutPaid _ _ _ _).
    + exact (run_op_wf (OMarkPayoutFailed now id (fail_text p)) db1 Hwf1).
Qed.

(** Every outcome of sendPayout. A cancelled context or a payout that is
    neither pending nor retrying means no Keysend and no change. Otherwise the
    payout was in flight when exactly one Keysend was issued, and it ends paid
    with the payment's hash, failed with one more attempt, or, when the outcome
    is unknown, still in flight (never failed, so never retried). No other
    payout and no other table changes. *)
Theorem send_payout_outcomes env now id node sats db r
    (Hwf : db_wf db) (Hr : payout_at id db = Some r) :
  let '(res, db', cs) := sendPayout env now id node sats db in
  db' = set_payouts db (payouts db') /\
  (forall id', id <> id' -> payout_at id' db' = payout_at id' db) /\
  if env_cancelled env id || negb (sendable r) then db' = db /\ cs = [] /\ is_ok res = false
  else
    cs = [mkCall id node sats (env_keysend env id)] /\ res = reply_result (env_keysend env id) /\
    exists r', payout_at id db' = Some r' /\
      match res with
      | Ok _ => p_status r' = PPaid /\
                exists p, env_keysend env id = KsResult p /\ pr_Status p = PaymentSucceeded /\
                          p_payment_hash r' = Some (pr_PaymentHash p)
      | Err ErrPaymentInFlight => p_status r' = PInFlight /\ p_attempt_count r' = p_attempt_count r
      | Err _ => p_status r' = PFailed /\ p_attempt_count r' = p_attempt_count r + 1
      end.
Proof.
  rewrite (sendPayout_cases _ _ _ _ _ _ r) by done.
  destruct (env_cancelled env id); simpl; [by destruct db|].
  destruct (sendable r) eqn:Hs; simpl; [|by destruct db].
  split; [done|]. split; [intros; apply payout_at_update_other; [apply send_row_mark|done]|].
  split; [done|]. split; [done|]. exists (send_row now (env_keysend env id) r).
  split; [apply payout_at_update_same; [apply send_row_mark|done]|].
  unfold reply_result, send_row, reply_row. destruct (env_keysend env id) as [|msg|p]; [done..|].
  destruct (pr_Status p) eqn:Hp; [|done..]. simpl. eauto.
Qed.

(** ** Counting payments *)

(** The reply does not report the payment as failed: a context error, or any
    status but failed. An error of another kind is what the engine takes as a
    failure; whether it is one is the Lightning client's business (Lightning.v
    has the client, and [broken_answer_pays_twice] where it is not). *)
Definition outcome_open (reply : keysend_reply) : bool :=
  match reply with
  | KsContext => true
  | KsError _ => false
  | KsResult p => match pr_Status p with PaymentFailed => false | _ => true end
  end.
Definition open_calls (id : Z) (tr : list call) : nat :=
  length (bfilter (fun c => (call_payout c =? id) && outcome_open (call_reply c)) tr).
Definition failed_calls (id : Z) (tr : list call) : nat :=
  length (bfilter (fun c => (call_payout c =? id) && negb (outcome_open (call_reply c))) tr).

(** What a payout's status says of the Keysends issued for it. *)
Definition calls_ok (r : PayoutRow) (failed open : nat) : Prop :=
  match p_status r with
  | PPending => failed = 0%nat /\ open = 0%nat
  | PFailed | PRetrying => Z.of_nat failed = p_attempt_count r /\ open = 0%nat
  | PInFlight | PPaid => Z.of_nat failed = p_attempt_count r /\ (open <= 1)%nat
  end.
Definition payable (node : string) (sats : Z) (r : PayoutRow) : Prop :=
  p_node_pubkey r = node /\ p_amount_sats r = sats.

(** The settlement entry a payout pays: its node and its amount. *)
Definition owes (s : SettlementRow) (r : PayoutRow) : Prop :=
  s_id s = p_entry_id r /\ s_node_pubkey s = p_node_pubkey r /\ s_amount_sats s = p_amount_sats r.

Record pay_inv (db : DB) (tr : list call) : Prop := {
  pi_wf : db_wf db;
  pi_calls : forall id,
    match payout_at id db with
    | Some r => calls_ok r (failed_calls id tr) (open_calls id tr)
    | None => failed_calls id tr = 0%nat /\ open_calls id tr = 0%nat
    end;
  pi_dest : forall c, c ∈ tr ->
    exists r, payout_at (call_payout c) db = Some r /\ payable (call_dest c) (call_sats c) r;
  pi_entry : forall r, r ∈ payouts db -> exists s, s ∈ settlement_entries db /\ owes s r
}.

Lemma calls_app id tr tr' :
  open_calls id (tr ++ tr') = (open_calls id tr + open_calls id tr')%nat /\
  failed_calls id (tr ++ tr') = (failed_calls id tr + failed_calls id tr')%nat.
Proof. unfold open_calls, failed_calls. by rewrite !bfilter_app, !length_app. Qed.

(** Rows keep their id, node and amount from one database to the next. *)
Definition rows_kept (db db' : DB) : Prop :=
  forall id r, payout_at id db = Some r ->
    exists r', payout_at id db' = Some r' /\ p_node_pubkey r' = p_node_pubkey r /\
               p_amount_sats r' = p_amount_sats r.

#[export] Instance rows_kept_preorder : PreOrder rows_kept.
Proof.
  split.
  - intros db id r Hr. eauto.
  - intros a b c Hab Hbc id r Hr. destruct (Hab id r Hr) as (r1 & H1 & ? & ?).
    destruct (Hbc id r1 H1) as (r2 & ? & ? & ?). exists r2. split_and!; congruence.
Qed.

Lemma rows_kept_update id f db : mark f -> rows_kept db (update_at id f db).
Proof.
  intros Hm id' r Hr. destruct (decide (id = id')) as [<-|Hne].
  - exists (f r). split; [by apply payout_at_update_same|]. by destruct (Hm r) as (_ & _ & -> & ->).
  - exists r. by rewrite payout_at_update_other.
Qed.

Lemma payable_kept db db' id node sats :
  rows_kept db db' ->
  (exists r, payout_at id db = Some r /\ payable node sats r) ->
  exists r, payout_at id db' = Some r /\ payable node sats r.
Proof.
  intros Hk (r & Hr & Hn & Ha). destruct (Hk id r Hr) as (r' & ? & ? & ?).
  exists r'. split; [done|]. split; congruence.
Qed.

(** One payout's row is rewritten and its calls extended accordingly. *)
Lemma pay_inv_update db tr id f cs r :
  pay_inv db tr -> mark f -> db_wf (update_at id f db) -> payout_at id db = Some r ->
  calls_ok (f r) (failed_calls id tr + failed_calls id cs) (open_calls id tr + open_calls id cs) ->
  (forall c, c ∈ cs -> call_payout c = id /\ payable (call_dest c) (call_sats c) r) ->
  pay_inv (update_at id f db) (tr ++ cs).
Proof.
  intros [Hwf Hc Hd He] Hm Hwf' Hr Hok Hcs. split; [done| | |].
  - intros id'. destruct (calls_app id' tr cs) as [-> ->].
    destruct (decide (id = id')) as [<-|Hne].
    + by rewrite (payout_at_update_same _ _ _ _ Hm Hr).
    + rewrite payout_at_update_other by done.
      assert (open_calls id' cs = 0%nat /\ failed_calls id' cs = 0%nat) as [-> ->].
      { unfold open_calls, failed_calls.
        assert (forall g, bfilter (fun c => (call_payout c =? id') && g c) cs = []) as Hnil.
        { intros g. destruct (bfilter _ cs) as [|c l] eqn:Hf; [done|].
          assert (c ∈ bfilter (fun c => (call_payout c =? id') && g c) cs) as Hin by (rewrite Hf; by left).
          apply elem_of_bfilter in Hin as [Hb Hin]. bprop. destruct (Hcs c Hin). congruence. }
        by rewrite !Hnil. }
      rewrite !Nat.add_0_r. apply Hc.
  - intros c [Hin|Hin]%elem_of_app.
    + eapply payable_kept; [by apply rows_kept_update|]. by apply Hd.
    + destruct (Hcs c Hin) as [Hid Hp]. eapply payable_kept; [by apply rows_kept_update|].
      rewrite Hid. eauto.
  - intros x (y & -> & Hy)%list_elem_of_fmap. destruct (He y Hy) as (e & Hin & Hi & Hn & Ha).
    exists e. split; [exact Hin|]. destruct (payout_is id y); [|done].
    unfold owes. by destruct (Hm y) as (_ & -> & -> & ->).
Qed.

Lemma send_row_calls now reply r nf :
  p_status r = PPending \/ p_status r = PRetrying ->
  (p_status r = PPending -> p_attempt_count r = 0) ->
  calls_ok r nf 0 ->
  calls_ok (send_row now reply r) (nf + if outcome_open reply then 0 else 1)
    (if outcome_open reply then 1 else 0).
Proof.
  intros Hst Hzero Hok. assert (Z.of_nat nf = p_attempt_count r) as Hnf.
  { unfold calls_ok in Hok. destruct Hst as [Hst|Hst]; rewrite Hst in Hok; destruct Hok as [Hn _];
      [rewrite Hzero by done|]; lia. }
  unfold send_row, reply_row, calls_ok, outcome_open.
  destruct reply as [|msg|p]; simpl; [lia|split; lia|].
  destruct (pr_Status p); simpl; split; lia.
Qed.

Lemma sendable_facts db tr id r :
  pay_inv db tr -> payout_at id db = Some r -> sendable r = true ->
  (p_status r = PPending \/ p_status r = PRetrying) /\
  (p_status r = PPending -> p_attempt_count r = 0) /\
  calls_ok r (failed_calls id tr) 0 /\ open_calls id tr = 0%nat.
Proof.
  intros [Hwf Hc _ _] Hr Hs. unfold sendable in Hs. bprop.
  assert (p_status r = PPending \/ p_status r = PRetrying) as Hst by set_solver.
  destruct Hwf as [_ _ _ _ (_ & _ & Hall) _ _ _]. rewrite Forall_forall in Hall.
  pose proof (sql_find_Some _ _ _ Hr) as [Hin _].
  destruct (Hall r Hin) as (_ & _ & _ & Hat).
  specialize (Hc id). rewrite Hr in Hc.
  assert (open_calls id tr = 0%nat) as Ho.
  { unfold calls_ok in Hc. destruct Hst as [Hst|Hst]; rewrite Hst in Hc; tauto. }
  rewrite Ho in Hc. split_and!; [done| |done|done].
  intros Hp. by rewrite Hp in Hat.
Qed.

Lemma sendPayout_inv env now id node sats db tr res db' cs :
  pay_inv db tr -> (exists r, payout_at id db = Some r /\ payable node sats r) ->
  sendPayout env now id node sats db = (res, db', cs) ->
  pay_inv db' (tr ++ cs) /\ rows_kept db db'.
Proof.
  intros Hinv (r & Hr & Hn & Ha) Hrun.
  pose proof (pi_wf _ _ Hinv) as Hwf.
  pose proof (sendPayout_wf env now id node sats db Hwf) as Hwf'. rewrite Hrun in Hwf'. simpl in Hwf'.
  rewrite (sendPayout_cases _ _ _ _ _ _ r) in Hrun by done.
  destruct (env_cancelled env id); [simplify_eq; by rewrite app_nil_r|].
  destruct (sendable r) eqn:Hs; simplify_eq; [|by rewrite app_nil_r].
  destruct (sendable_facts _ _ _ _ Hinv Hr Hs) as (Hst & Hz & Hok & Hop).
  split; [|by apply rows_kept_update, send_row_mark].
  eapply pay_inv_update; [done|apply send_row_mark|done|done| |].
  - pose proof (send_row_calls now (env_keysend env id) r _ Hst Hz Hok) as Hsr.
    rewrite Hop. unfold open_calls, failed_calls. simpl. rewrite Z.eqb_refl. simpl.
    by destruct (outcome_open _).
  - intros c ->%list_elem_of_singleton. done.
Qed.

(** Nothing but the payouts changed. *)
Definition only_payouts (db db' : DB) : Prop := db' = set_payouts db (payouts db').
Lemma only_payouts_trans a b c : only_payouts a b -> only_payouts b c -> only_payouts a c.
Proof. unfold only_payouts. intros Hab Hbc. rewrite Hbc, Hab at 1. done. Qed.
Lemma only_payouts_refl a : only_payouts a a.
Proof. by destruct a. Qed.

Lemma update_payout_only g f to db : only_payouts db (update_payout g f to db).2.
Proof. unfold update_payout. by destruct (sql_update _ _ _ _ _). Qed.
Lemma sendPayout_only env now id node sats db :
  only_payouts db (sendPayout env now id node sats db).1.2.
Proof.
  unfold sendPayout. destruct (env_cancelled env id); [apply only_payouts_refl|].
  pose proof (update_payout_only (payout_in id [PPending; PRetrying]) (sent_row now) PInFlight db) as Ho.
  fold (MarkPayoutInFlight now id db) in Ho.
  change (only_payouts db (MarkPayoutInFlight now id db).2) in Ho.
  destruct (MarkPayoutInFlight now id db) as [[[]|e] db1]; [|done]. simpl in *.
  eapply only_payouts_trans; [exact Ho|]. unfold settle_reply.
  destruct (env_keysend env id) as [|msg|p]; [apply only_payouts_refl|apply update_payout_only|].
  destruct (pr_Status p); [|apply update_payout_only|apply only_payouts_refl].
  pose proof (update_payout_only (payout_in id [PInFlight]) (paid_row now (pr_PaymentHash p)) PPaid db1) as Hp.
  change (only_payouts db1 (MarkPayoutPaid now id (pr_PaymentHash p) db1).2) in Hp.
  by destruct (MarkPayoutPaid _ _ _ _).
Qed.

(** ** Creating a payout *)
Lemma payout_at_snoc id row db :
  payout_at id (set_payouts db (payouts db ++ [row])) =
    match payout_at id db with
    | Some r => Some r
    | None => if p_id row =? id then Some row else None
    end.
Proof.
  unfold payout_at. simpl. induction (payouts db) as [|x t IH]; [done|].
  simpl. by destruct (payout_is id x).
Qed.

Lemma payout_at_fresh db : payout_at (next_rowid (p_id <$> payouts db)) db = None.
Proof.
  destruct (payout_at _ db) as [r|] eqn:Hr; [|done].
  apply sql_find_Some in Hr as [Hr Hid]. unfold payout_is in Hid. bprop.
  destruct (next_rowid_fresh (p_id <$> payouts db)). rewrite <-Hid. by apply list_elem_of_fmap_2.
Qed.

Definition new_payout (now : string) (entry : SettlementRow) (db : DB) : PayoutRow :=
  mkPayout (next_rowid (p_id <$> payouts db)) (s_id entry) (s_node_pubkey entry)
    (s_amount_sats entry) PPending None 0 None now now.

Lemma InsertPayout_cases now entry db :
  match InsertPayout now (s_id entry) (s_node_pubkey entry) (s_amount_sats entry) db with
  | (Ok pid, db1) => pid = p_id (new_payout now entry db) /\
                     db1 = set_payouts db (payouts db ++ [new_payout now entry db]) /\
                     0 < s_amount_sats entry
  | (Err _, db1) => db1 = db
  end.
Proof.
  unfold InsertPayout. fold (new_payout now entry db).
  destruct (sql_insert _ _ _ _ _) as [t|e] eqn:Hi; [|done].
  apply sql_insert_Ok in Hi as (-> & Hc & _). unfold payout_check in Hc. simpl in Hc. by bprop.
Qed.

Lemma InsertPayout_inv now entry db db1 pid tr :
  pay_inv db tr -> entry ∈ settlement_entries db ->
  InsertPayout now (s_id entry) (s_node_pubkey entry) (s_amount_sats entry) db = (Ok pid, db1) ->
  pay_inv db1 tr /\ rows_kept db db1 /\ payout_at pid db1 = Some (new_payout now entry db).
Proof.
  intros [Hwf Hc Hd He] Hentry Hrun.
  pose proof (run_op_wf (OInsertPayout now (s_id entry) (s_node_pubkey entry) (s_amount_sats entry))
                db Hwf) as Hwf1. simpl in Hwf1. rewrite Hrun in Hwf1. simpl in Hwf1.
  pose proof (InsertPayout_cases now entry db) as Hcase. rewrite Hrun in Hcase.
  destruct Hcase as (-> & -> & _). pose proof (payout_at_fresh db) as Hfresh.
  assert (rows_kept db (set_payouts db (payouts db ++ [new_payout now entry db]))) as Hk.
  { intros id r Hr. exists r. by rewrite payout_at_snoc, Hr. }
  split; [|split; [done|]].
  - split; [done| | |].
    + intros id. rewrite payout_at_snoc. specialize (Hc id).
      destruct (payout_at id db) as [r|]; [done|].
      destruct (p_id (new_payout now entry db) =? id); [|done]. unfold calls_ok. simpl. tauto.
    + intros c Hin. by eapply payable_kept; [|apply Hd].
    + intros x [Hx| ->%list_elem_of_singleton]%elem_of_app; [by apply He|]. by exists entry.
  - rewrite payout_at_snoc. simpl. rewrite Hfresh. by rewrite Z.eqb_refl.
Qed.

Lemma InsertPayout_only now entry db :
  only_payouts db (InsertPayout now (s_id entry) (s_node_pubkey entry) (s_amount_sats entry) db).2.
Proof.
  unfold InsertPayout. by destruct (sql_insert _ _ _ _ _); [|apply only_payouts_refl].
Qed.

Lemma pay_loop_inv env now purchased entries : forall committed res db tr res' db' cs,
  pay_inv db tr -> (forall e, e ∈ entries -> e ∈ settlement_entries db) ->
  pay_loop env now purchased committed entries res db = (res', db', cs) ->
  pay_inv db' (tr ++ cs) /\ rows_kept db db'.
Proof.
  induction entries as [|entry rest IH]; simpl; intros committed res db tr res' db' cs Hinv Hsub Hrun.
  { simplify_eq. by rewrite app_nil_r. }
  destruct (purchased <? _); [simplify_eq; by rewrite app_nil_r|].
  destruct (InsertPayout now _ _ _ db) as [[pid|e] db1] eqn:Hins.
  - destruct (InsertPayout_inv _ _ _ _ _ _ Hinv (Hsub entry ltac:(by left)) Hins) as (Hinv1 & Hk1 & Hat).
    pose proof (InsertPayout_only now entry db) as Ho1. rewrite Hins in Ho1.
    pose proof (sendPayout_only env now pid (s_node_pubkey entry) (s_amount_sats entry) db1) as Ho2.
    destruct (sendPayout _ _ _ _ _ _) as [[r db2] cs1] eqn:Hsend.
    destruct (pay_loop env now purchased _ rest _ db2) as [[res2 db3] cs2] eqn:Hloop. simplify_eq.
    simpl in Ho1, Ho2.
    eapply sendPayout_inv in Hsend as [Hinv2 Hk2]; [|done|by eexists].
    eapply IH in Hloop as [Hinv3 Hk3]; [|done|].
    2: { intros x Hx. unfold only_payouts in *. rewrite Ho2, Ho1. apply Hsub. by right. }
    rewrite <-app_assoc in Hinv3.
    split; [done|]. by do 2 (etrans; [done|]).
  - pose proof (InsertPayout_cases now entry db) as Hc. rewrite Hins in Hc. subst db1.
    eapply IH; [done| |done]. intros x Hx. apply Hsub. by right.
Qed.

Lemma retry_loop_inv env now ps : forall s f db tr s' f' db' cs,
  pay_inv db tr ->
  (forall p, p ∈ ps -> exists r, payout_at (p_id p) db = Some r /\
                                 payable (p_node_pubkey p) (p_amount_sats p) r) ->
  retry_loop env now ps s f db = (s', f', db', cs) ->
  pay_inv db' (tr ++ cs) /\ rows_kept db db'.
Proof.
  induction ps as [|p rest IH]; simpl; intros s f db tr s' f' db' cs Hinv Hps Hrun.
  { simplify_eq. by rewrite app_nil_r. }
  pose proof (pi_wf _ _ Hinv) as Hwf.
  pose proof (run_op_wf (OMarkPayoutRetrying now (p_id p)) db Hwf) as Hwf1. simpl in Hwf1.
  destruct (Hps p) as (r & Hr & Hp); [by left|].
  rewrite (MarkPayoutRetrying_cases _ _ _ Hwf), Hr in *.
  assert (forall q, q ∈ rest -> exists r, payout_at (p_id q) db = Some r /\
            payable (p_node_pubkey q) (p_amount_sats q) r) as Hrest by (intros; apply Hps; by right).
  destruct (retryable r) eqn:Hret; [|eauto].
  destruct (sendPayout _ _ _ _ _ _) as [[res db2] cs1] eqn:Hsend.
  destruct (retry_loop _ _ _ _ _ _) as [[[s2 f2] db3] cs2] eqn:Hloop. simplify_eq.
  set (db1 := update_at (p_id p) (retry_row now) db) in *.
  assert (mark (retry_row now)) as Hm by done.
  assert (rows_kept db db1) as Hk1 by by apply rows_kept_update.
  assert (pay_inv db1 tr) as Hinv1.
  { rewrite <-(app_nil_r tr). eapply pay_inv_update; [done..| |].
    - pose proof (pi_calls _ _ Hinv (p_id p)) as Hc. rewrite Hr in Hc.
      unfold retryable in Hret. bprop. unfold calls_ok in *.
      match goal with Hst : p_status r = PFailed |- _ => rewrite Hst in Hc end.
      simpl. unfold open_calls at 2, failed_calls at 2. simpl. rewrite !Nat.add_0_r. done.
    - intros c Hc. by apply not_elem_of_nil in Hc. }
  eapply sendPayout_inv in Hsend as [Hinv2 Hk2]; [|done|eapply payable_kept; [exact Hk1|by exists r]].
  eapply IH in Hloop as [Hinv3 Hk3]; [|done|].
  - rewrite <-app_assoc in Hinv3. split; [done|]. by do 2 (etrans; [done|]).
  - intros q Hq. eapply payable_kept; [by transitivity db1|]. by apply Hrest.
Qed.

(** ** Runs of the engine *)
Lemma entry_loop_frame now period l : forall c db c' db',
  entry_loop now period l c db = (c', db') ->
  rtc ledger_step db db' /\ db' = set_settlement_entries db (settlement_entries db').
Proof.
  induction l as [|[n a] l IH]; simpl; intros c db c' db' Hl; [simplify_eq; by destruct db'|].
  pose proof (run_op_steps (OInsertSettlementEntry now period n (na_billableBytes a)
    (na_billableSats a) (na_entryBytesTotal a) (na_exitBytesTotal a) (na_ticketsRedeemed a)) db) as Hs.
  simpl in Hs.
  assert (exists t, (InsertSettlementEntry now period n (na_billableBytes a) (na_billableSats a)
    (na_entryBytesTotal a) (na_exitBytesTotal a) (na_ticketsRedeemed a) db).2
    = set_settlement_entries db t) as [t Ht].
  { unfold InsertSettlementEntry. destruct (sql_insert_ignore _ _ _ _). eauto. }
  destruct (InsertSettlementEntry _ _ _ _ _ _ _ _ _) as [o db2]. simpl in *. subst db2.
  assert (rtc ledger_step (set_settlement_entries db t) db' /\
          db' = set_settlement_entries (set_settlement_entries db t) (settlement_entries db')) as [? Heq].
  { destruct o as [[]|]; by eapply IH. }
  split; [by etrans|]. rewrite Heq at 1. done.
Qed.

Lemma create_entries_frame e range now from to db :
  let db' := (create_entries e range now from to db).2 in
  rtc ledger_step db db' /\ db' = set_settlement_entries db (settlement_entries db').
Proof.
  unfold create_entries. destruct (aggregate _ _ _ _) as [[aggs settled] skipped].
  destruct (entry_loop _ _ _ _ _) as [created db1] eqn:Hl. by eapply entry_loop_frame.
Qed.

Lemma pay_inv_frame db db' tr :
  pay_inv db tr -> db_wf db' -> payouts db' = payouts db ->
  settlement_entries db `prefix_of` settlement_entries db' -> pay_inv db' tr.
Proof.
  intros [Hwf Hc Hd He] Hwf' Hp [new Hnew].
  assert (forall id, payout_at id db' = payout_at id db) as Hat by (intros id; unfold payout_at; by rewrite Hp).
  split; [done|intros id; rewrite Hat; apply Hc| |].
  - intros c Hin. destruct (Hd c Hin) as (r & ? & ?). exists r. by rewrite Hat.
  - rewrite Hp. intros r Hr. destruct (He r Hr) as (e & ? & ?). exists e. rewrite Hnew. set_solver.
Qed.

Lemma RunSettlement_inv e env range now from to db tr res db' cs :
  pay_inv db tr -> RunSettlement e env range now from to db = (res, db', cs) ->
  pay_inv db' (tr ++ cs).
Proof.
  intros Hinv Hrun. unfold RunSettlement in Hrun.
  pose proof (create_entries_frame e range now from to db) as [Hs Hp].
  destruct (create_entries _ _ _ _ _ _) as [res1 db1]. simpl in *.
  assert (pay_inv db1 tr) as Hinv1.
  { eapply pay_inv_frame; [done| |by rewrite Hp|by apply le_set, steps_le].
    eapply steps_wf; [done|apply Hinv]. }
  unfold executePayouts in Hrun.
  destruct (TotalPurchasedSats db1); [|simplify_eq; by rewrite app_nil_r].
  destruct (TotalCommittedPayoutSats db1); [|simplify_eq; by rewrite app_nil_r].
  destruct (pay_loop _ _ _ _ _ _ _) as [[res2 db2] cs2] eqn:Hl. simplify_eq.
  eapply pay_loop_inv in Hl as [? _]; [done..|]. intros x Hx. unfold GetUnsettledEntries in Hx.
  rewrite order_by_perm in Hx. by apply elem_of_bfilter in Hx as [_ ?].
Qed.

Lemma RetryFailedPayouts_inv env now db tr s f db' cs :
  pay_inv db tr -> RetryFailedPayouts env now db = (s, f, db', cs) -> pay_inv db' (tr ++ cs).
Proof.
  intros Hinv Hrun. eapply retry_loop_inv in Hrun as [? _]; [done..|].
  intros p Hp. unfold GetRetryablePayouts in Hp. rewrite order_by_perm in Hp.
  apply elem_of_bfilter in Hp as [_ Hp]. exists p. split; [|done].
  destruct (pi_wf _ _ Hinv) as [_ _ _ _ (Hnd & _) _ _ _].
  destruct (payout_at (p_id p) db) as [r|] eqn:Hr.
  - f_equal. symmetry. eapply payout_at_unique; [done..|]. unfold payout_is. apply Z.eqb_refl.
  - eapply sql_find_None in Hr; [|done]. unfold payout_is in Hr. by rewrite Z.eqb_refl in Hr.
Qed.

(** The hub's life: settlement runs, retries, and any other store operation
    (those that do not touch payouts), with the Keysends issued so far. *)
Inductive engine_step : DB * list call -> DB * list call -> Prop :=
| es_run e env range now from to db tr res db' cs :
    RunSettlement e env range now from to db = (res, db', cs) ->
    engine_step (db, tr) (db', tr ++ cs)
| es_retry env now db tr s f db' cs :
    RetryFailedPayouts env now db = (s, f, db', cs) ->
    engine_step (db, tr) (db', tr ++ cs)
| es_store o db tr :
    payouts (run_op o db) = payouts db -> engine_step (db, tr) (run_op o db, tr).

Lemma engine_pay_inv db tr : rtc engine_step (empty_db, []) (db, tr) -> pay_inv db tr.
Proof.
  intros Hrun. eapply (rtc_pair_inv _ pay_inv); [|exact Hrun|].
    - intros d t d' t' Hstep Hinv. inversion Hstep; subst.
      + by eapply RunSettlement_inv.
      + by eapply RetryFailedPayouts_inv.
      + eapply pay_inv_frame; [done|apply run_op_wf, Hinv|done|]. apply le_set, steps_le, run_op_steps.
    - split; [apply empty_db_wf|done| |]; intros c Hin; by apply not_elem_of_nil in Hin.
Qed.
Lemma open_once db tr id : rtc engine_step (empty_db, []) (db, tr) -> (open_calls id tr <= 1)%nat.
Proof.
  intros Hrun. destruct (engine_pay_inv db tr Hrun) as [_ Hc _ _]. specialize (Hc id). destruct (payout_at id db) as [r|]; [|lia].
  unfold calls_ok in Hc. destruct (p_status r); lia.
Qed.

(** C8: a settlement entry is not paid again unless paying it was reported failed.
    Over the hub's whole life, whatever Keysend answers, payouts and settlement
    entries correspond one to one, every Keysend goes to the node and for the
    amount of the settlement entry its payout is for, and a payout is sent again
    only after every earlier Keysend for it was reported failed: at most one of
    its Keysends was not, and at most three were. (Reported failed: a failed
    status, or an error that is not the context's. The LND client also returns
    such an error when the connection breaks after LND took the order, so this
    is not yet that the node gets the money once: that is Lightning.v's.) *)
Theorem keysend_never_repeated db tr
    (Hrun : rtc engine_step (empty_db, []) (db, tr)) :
  NoDup (s_id <$> settlement_entries db) /\ NoDup (p_entry_id <$> payouts db) /\
  (forall id, (open_calls id tr <= 1)%nat /\ (failed_calls id tr <= 3)%nat) /\
  forall c, c ∈ tr -> exists r s,
    payout_at (call_payout c) db = Some r /\ s ∈ settlement_entries db /\ s_id s = p_entry_id r /\
    call_dest c = s_node_pubkey s /\ call_sats c = s_amount_sats s.
Proof.
  destruct (engine_pay_inv db tr Hrun) as [[_ _ _ (Hids & _) (_ & Hnd & Hall) _ _ _] Hc Hd He].
  split_and!; [done|done| |].
  - intros id. specialize (Hc id). destruct (payout_at id db) as [r|] eqn:Hr; [|lia].
    rewrite Forall_forall in Hall. pose proof (sql_find_Some _ _ _ Hr) as [Hin _].
    destruct (Hall r Hin) as (_ & _ & _ & Hat). unfold calls_ok in Hc. destruct (p_status r); lia.
  - intros c Hin. destruct (Hd c Hin) as (r & Hr & Hn & Ha).
    destruct (He r) as (s & Hs & Hi & Hsn & Hsa); [by apply sql_find_Some in Hr as [? _]|].
    exists r, s. split_and!; [done..|congruence|congruence].
Qed.

(** ** The budget *)
Definition committed_sats (db : DB) : Z :=
  zsum_by p_amount_sats (bfilter committed_payout (payouts db)).
Definition purchased_sats (db : DB) : Z :=
  zsum_by i_amount_sats (bfilter settled_invoice (invoices db)).

Lemma committed_as_sum t :
  zsum_by p_amount_sats (bfilter committed_payout t)
  = zsum_by (fun r => if committed_payout r then p_amount_sats r else 0) t.
Proof.
  induction t as [|r t IH]; [done|]. rewrite bfilter_cons, zsum_by_cons.
  destruct (committed_payout r); rewrite ?zsum_by_cons; lia.
Qed.

(** Marking a row never commits more when the row was committed already. *)
Lemma committed_update id f db r :
  db_wf db -> mark f -> payout_at id db = Some r -> committed_payout r = true ->
  committed_sats (update_at id f db) <= committed_sats db.
Proof.
  intros Hwf Hm Hr Hc. unfold committed_sats. rewrite !committed_as_sum. unfold update_at. simpl.
  assert (forall x, x ∈ payouts db -> payout_is id x = true -> x = r) as Huniq.
  { intros x Hx Hid. eapply payout_at_unique; [|done..]. by destruct Hwf as [_ _ _ _ (? & _) _ _ _]. }
  assert (Forall (fun x => payout_check x = true) (payouts db)) as Hpos.
  { destruct Hwf as [_ _ _ _ (_ & _ & Hall) _ _ _]. eapply Forall_impl; [exact Hall|]. naive_solver. }
  revert Huniq Hpos. induction (payouts db) as [|x t IH]; intros Huniq Hpos; csimpl; [lia|].
  rewrite !zsum_by_cons. apply Forall_cons in Hpos as [Hx Hpos].
  assert (zsum_by (fun r => if committed_payout r then p_amount_sats r else 0)
            ((fun x => if payout_is id x then f x else x) <$> t)
          <= zsum_by (fun r => if committed_payout r then p_amount_sats r else 0) t) as Ht.
  { apply IH; [|done]. intros y Hy. apply Huniq. by right. }
  unfold payout_check in Hx. bprop.
  destruct (payout_is id x) eqn:Hid; [|lia].
  assert (x = r) as -> by (apply Huniq; [by left|done]). destruct (Hm r) as (_ & _ & _ & ->). rewrite Hc.
  destruct (committed_payout (f r)); lia.
Qed.

Lemma sendPayout_committed env now id node sats db r :
  db_wf db -> payout_at id db = Some r ->
  committed_sats (sendPayout env now id node sats db).1.2 <= committed_sats db.
Proof.
  intros Hwf Hr. rewrite (sendPayout_cases _ _ _ _ _ _ r) by done.
  destruct (env_cancelled env id); [done|]. destruct (sendable r) eqn:Hs; [|done]. simpl.
  eapply committed_update; [done|apply send_row_mark|done|].
  unfold sendable, committed_payout in *. bprop. apply bool_decide_eq_true. set_solver.
Qed.

Lemma pay_loop_budget env now purchased entries : forall committed res db,
  db_wf db -> committed_sats db <= committed -> 0 <= committed ->
  committed <= Z.max committed purchased < 2 ^ 62 ->
  Forall (fun s => s_amount_sats s < 2 ^ 62) entries ->
  committed_sats (pay_loop env now purchased committed entries res db).1.2
    <= Z.max committed purchased.
Proof.
  induction entries as [|entry rest IH]; simpl; intros committed res db Hwf Hle Hpos Hmax Hall; [lia|].
  apply Forall_cons in Hall as [Hamt Hall].
  destruct (purchased <? committed +i s_amount_sats entry) eqn:Hb; [simpl; lia|]. bprop.
  pose proof (InsertPayout_cases now entry db) as Hcase.
  pose proof (run_op_wf (OInsertPayout now (s_id entry) (s_node_pubkey entry) (s_amount_sats entry))
                db Hwf) as Hwf1. simpl in Hwf1.
  destruct (InsertPayout now _ _ _ db) as [[pid|e] db1]; simpl in Hwf1.
  - destruct Hcase as (-> & -> & Hamt0). set (row := new_payout now entry db) in *.
    assert (payout_at (p_id row) (set_payouts db (payouts db ++ [row])) = Some row) as Hat.
    { rewrite payout_at_snoc. unfold row at 1. simpl. by rewrite payout_at_fresh, Z.eqb_refl. }
    pose proof (sendPayout_committed env now (p_id row) (s_node_pubkey entry) (s_amount_sats entry)
                  _ row Hwf1 Hat) as Hsend.
    pose proof (sendPayout_wf env now (p_id row) (s_node_pubkey entry) (s_amount_sats entry) _ Hwf1) as Hwf2.
    destruct (sendPayout _ _ _ _ _ _) as [[r db2] cs]. simpl in Hsend, Hwf2.
    assert (committed_sats (set_payouts db (payouts db ++ [row])) = committed_sats db + s_amount_sats entry)
      as Hnew.
    { unfold committed_sats. simpl. rewrite bfilter_app, zsum_by_app. simpl.
      rewrite zsum_by_cons, zsum_by_nil. simpl. lia. }
    assert (committed +i s_amount_sats entry = committed + s_amount_sats entry) as Hadd.
    { apply wrap_i64_id. unfold in_i64. lia. }
    rewrite Hadd in *.
    specialize (IH (committed + s_amount_sats entry) (count_payout (s_amount_sats entry) r res) db2 Hwf2).
    destruct (pay_loop _ _ _ _ _ _ db2) as [[res2 db3] cs2]. simpl in *.
    assert (Z.max (committed + s_amount_sats entry) purchased = purchased) as Hm by lia.
    rewrite Hm in IH. etrans; [apply IH; try done; lia|lia].
  - subst db1. by apply IH.
Qed.

Lemma total_committed db z : TotalCommittedPayoutSats db = Ok z -> z = committed_sats db.
Proof.
  unfold TotalCommittedPayoutSats. destruct (sql_sum _ 0) eqn:Hs; [|done].
  intros [= <-]. by apply sql_sum_exact in Hs.
Qed.
Lemma total_purchased db z : TotalPurchasedSats db = Ok z -> z = purchased_sats db.
Proof.
  unfold TotalPurchasedSats. destruct (sql_sum _ 0) eqn:Hs; [|done].
  intros [= <-]. by apply sql_sum_exact in Hs.
Qed.
Lemma committed_nonneg db : db_wf db -> 0 <= committed_sats db.
Proof.
  intros [_ _ _ _ (_ & _ & Hall) _ _ _]. apply zsum_by_nonneg. rewrite Forall_forall in *.
  intros r [_ Hr]%elem_of_bfilter. destruct (Hall r Hr) as [Hc _].
  unfold payout_check in Hc. bprop. lia.
Qed.

(** C9: the budget guard. Below 2^62 sats, a settlement run never commits more to
    nodes than customers have paid: what is paid, pending, in flight or retrying
    stays within the larger of what was purchased and what was already
    committed. *)
Theorem payouts_within_budget e env range now from to db
    (Hwf : db_wf db)
    (Hp : purchased_sats db < 2 ^ 62) (Hc : committed_sats db < 2 ^ 62)
    (Hs : Forall (fun s => s_amount_sats s < 2 ^ 62)
            (settlement_entries (create_entries e range now from to db).2)) :
  committed_sats (RunSettlement e env range now from to db).1.2
    <= Z.max (committed_sats db) (purchased_sats db).
Proof.
  unfold RunSettlement. pose proof (create_entries_frame e range now from to db) as [Hsteps Heq].
  pose proof (steps_wf _ _ Hsteps Hwf) as Hwf1.
  destruct (create_entries _ _ _ _ _ _) as [res db1]. simpl in *.
  assert (committed_sats db1 = committed_sats db /\ purchased_sats db1 = purchased_sats db) as [Hc1 Hp1]
    by by rewrite Heq.
  rewrite <-Hc1, <-Hp1 in *. clear Heq Hc1 Hp1 Hsteps Hwf.
  unfold executePayouts.
  destruct (TotalPurchasedSats db1) as [pur|] eqn:Hpur; simpl; [|lia].
  destruct (TotalCommittedPayoutSats db1) as [com|] eqn:Hcom; simpl; [|lia].
  apply total_purchased in Hpur as ->. apply total_committed in Hcom as ->.
  pose proof (pay_loop_budget env now (purchased_sats db1) (GetUnsettledEntries (minPayout e) db1)
    (committed_sats db1) res db1) as Hloop.
  destruct (pay_loop _ _ _ _ _ _ _) as [[res' db'] cs]. apply Hloop; [done|lia| |lia|].
  - by apply committed_nonneg.
  - rewrite Forall_forall in *. intros s Hin. apply Hs. unfold GetUnsettledEntries in Hin.
    rewrite order_by_perm in Hin. by apply elem_of_bfilter in Hin as [_ ?].
Qed.

(** ** The bill of one session *)
Lemma quot_i64_div a b : 0 <= a < 2 ^ 63 -> 0 < b -> a /i b = a / b.
Proof.
  intros Ha Hb. unfold quot_i64. rewrite Z.quot_div_nonneg by lia. apply wrap_i64_id.
  unfold in_i64. pose proof (Z.div_pos a b). pose proof (Z.div_le_upper_bound a b a). nia.
Qed.

(** The split. For sane reports and an invoice small enough not to overflow
    (100 x ticket bytes x sats below 2^63; the largest tier is a million times
    smaller), a session bills min(entry, exit, ticket) bytes at the invoice's
    rate, the hub keeps its margin, the entry and exit shares add up to the
    whole node pool, differ by at most one sat, and never exceed the billed
    fraction of the price. *)
Theorem session_bill_split marginPct s info
    (Hm : 0 <= marginPct <= 50)
    (He : 0 <= su_EntryBytes s) (Hx : 0 <= su_ExitBytes s)
    (Ht : 0 <= ti_TicketBytes info) (Ha : 0 <= ti_AmountSats info) (Hb : 0 < ti_BytesAllowed info)
    (Hfit : 100 * (ti_TicketBytes info * ti_AmountSats info) < 2 ^ 63) :
  let '(billable, entrySats, exitSats) := session_bill marginPct s info in
  billable = Z.min (Z.min (su_EntryBytes s) (su_ExitBytes s)) (ti_TicketBytes info) /\
  entrySats + exitSats
    = billable * ti_AmountSats info / ti_BytesAllowed info * (100 - marginPct) / 100 /\
  0 <= entrySats <= exitSats /\ exitSats <= entrySats + 1 /\
  100 * ti_BytesAllowed info * (entrySats + exitSats)
    <= billable * ti_AmountSats info * (100 - marginPct).
Proof.
  unfold session_bill, min64, computePayoutSats.
  rewrite (proj2 (Z.eqb_neq _ 0)) by lia.
  set (amt := ti_AmountSats info) in *. set (allowed := ti_BytesAllowed info) in *.
  set (b := if _ <? _ then ti_TicketBytes info else _).
  assert (b = Z.min (Z.min (su_EntryBytes s) (su_ExitBytes s)) (ti_TicketBytes info)) as Hbill.
  { unfold b. destruct (Z.ltb_spec (su_EntryBytes s) (su_ExitBytes s));
      destruct (Z.ltb_spec (ti_TicketBytes info) (su_EntryBytes s));
      destruct (Z.ltb_spec (ti_TicketBytes info) (su_ExitBytes s)); lia. }
  assert (0 <= b <= ti_TicketBytes info) as Hb0 by lia. clearbody b.
  assert (0 <= b * amt /\ 100 * (b * amt) < 2 ^ 63) as [Hp0 Hp1] by nia.
  assert (b *i amt = b * amt) as -> by (apply wrap_i64_id; unfold in_i64; lia).
  rewrite (quot_i64_div (b * amt)) by lia. set (T := b * amt / allowed).
  assert (0 <= T /\ T * allowed <= b * amt) as [HT0 HT1].
  { unfold T. pose proof (Z.div_pos (b * amt) allowed). pose proof (Z.mul_div_le (b * amt) allowed). lia. }
  assert (T <= b * amt) by nia.
  assert (T *i (100 - marginPct) = T * (100 - marginPct)) as ->
    by (apply wrap_i64_id; unfold in_i64; nia).
  rewrite (quot_i64_div (T * _)) by nia. set (P := T * (100 - marginPct) / 100).
  assert (0 <= P /\ 100 * P <= T * (100 - marginPct)) as [HP0 HP1].
  { unfold P. pose proof (Z.div_pos (T * (100 - marginPct)) 100).
    pose proof (Z.mul_div_le (T * (100 - marginPct)) 100). nia. }
  assert (P < 2 ^ 63) by nia.
  rewrite (quot_i64_div P 2) by lia.
  pose proof (Z.div_mod P 2). pose proof (Z.mod_pos_bound P 2). pose proof (Z.div_pos P 2).
  assert (P -i P / 2 = P - P / 2) as -> by (apply wrap_i64_id; unfold in_i64; lia).
  split_and!; try lia. replace (P / 2 + (P - P / 2)) with P by lia. nia.
Qed.

(** ** Running the same period again *)
Lemma pay_loop_only env now purchased entries : forall committed res db,
  only_payouts db (pay_loop env now purchased committed entries res db).1.2.
Proof.
  induction entries as [|entry rest IH]; simpl; intros committed res db; [apply only_payouts_refl|].
  destruct (purchased <? _); [apply only_payouts_refl|].
  pose proof (InsertPayout_cases now entry db) as Hcase.
  destruct (InsertPayout now _ _ _ db) as [[pid|e] db1]; [|by subst].
  destruct Hcase as (_ & -> & _). set (db1 := set_payouts db _).
  pose proof (sendPayout_only env now pid (s_node_pubkey entry) (s_amount_sats entry) db1) as Hs.
  destruct (sendPayout _ _ _ _ _ _) as [[r db2] cs]. simpl in Hs.
  specialize (IH (committed +i s_amount_sats entry) (count_payout (s_amount_sats entry) r res) db2).
  destruct (pay_loop _ _ _ _ _ _ _) as [[res2 db3] cs2]. simpl in *.
  eapply only_payouts_trans; [|eapply only_payouts_trans; [exact Hs|exact IH]]. done.
Qed.

Lemma RunSettlement_frame e env range now from to db :
  exists p, (RunSettlement e env range now from to db).1.2
    = set_payouts (create_entries e range now from to db).2 p.
Proof.
  unfold RunSettlement. destruct (create_entries _ _ _ _ _ _) as [res db1]. simpl.
  unfold executePayouts. destruct (TotalPurchasedSats db1); [|exists (payouts db1); by destruct db1].
  destruct (TotalCommittedPayoutSats db1); [|exists (payouts db1); by destruct db1].
  pose proof (pay_loop_only env now a (GetUnsettledEntries (minPayout e) db1) a0 res db1) as Ho.
  destruct (pay_loop _ _ _ _ _ _ _) as [[r db'] cs]. simpl in *. eauto.
Qed.

Lemma aggregate_ext m db db' ss : forall acc,
  invoices db = invoices db' -> tickets db = tickets db' ->
  aggregate m db ss acc = aggregate m db' ss acc.
Proof.
  intros acc Hi Ht. revert acc. induction ss as [|s ss IH]; simpl; intros [[aggs a] b]; [done|].
  assert (session_valid db s = session_valid db' s) as ->.
  { unfold session_valid, GetTicketSettlementInfo. by rewrite Hi, Ht. }
  destruct (session_valid db' s) as [info|]; [|apply IH].
  destruct (session_bill m s info) as [[? ?] ?]. apply IH.
Qed.

Definition entry_keys (db : DB) : list (string * string) :=
  (fun r => (s_period r, s_node_pubkey r)) <$> settlement_entries db.
Definition agg_fits (a : nodeAgg) : bool := (0 <=? na_billableBytes a) && (0 <=? na_billableSats a).

Lemma existsb_clash row t :
  existsb (settlement_clash row) t = true <->
  (s_period row, s_node_pubkey row) ∈ ((fun r => (s_period r, s_node_pubkey r)) <$> t).
Proof.
  rewrite existsb_exists, list_elem_of_fmap. unfold settlement_clash. split.
  - intros (r & Hr%list_elem_of_In & Hc). bprop. exists r. split; [congruence|done].
  - intros (r & Heq & Hr). simplify_eq. exists r. rewrite <-list_elem_of_In. split; [done|].
    by rewrite H, H0, !String.eqb_refl.
Qed.

Lemma entry_loop_present now period l : forall c db c' db',
  entry_loop now period l c db = (c', db') ->
  entry_keys db ⊆ entry_keys db' /\
  forall n a, (n, a) ∈ l -> agg_fits a = true -> (period, n) ∈ entry_keys db'.
Proof.
  induction l as [|[n a] l IH]; simpl; intros c db c' db' Hl.
  { simplify_eq. split; [done|]. intros n a Hin. by apply not_elem_of_nil in Hin. }
  unfold InsertSettlementEntry in Hl. set (row := mkSettlement _ period n _ _ _ _ _ now) in Hl.
  assert (exists t c2, entry_loop now period l c2 (set_settlement_entries db t) = (c', db') /\
    entry_keys db ⊆ entry_keys (set_settlement_entries db t) /\
    (agg_fits a = true -> (period, n) ∈ entry_keys (set_settlement_entries db t)))
    as (t & c2 & Hl2 & Hsub & Hin).
  { unfold sql_insert_ignore in Hl. change (settlement_check row) with (agg_fits a) in Hl.
    destruct (agg_fits a) eqn:Hfit; simpl in Hl; [|do 2 eexists; split; [exact Hl|done]].
    destruct (existsb _ _) eqn:He; do 2 eexists; (split; [exact Hl|]).
    - split; [done|]. intros _. by apply existsb_clash in He.
    - unfold entry_keys. simpl. rewrite fmap_app. split; [set_solver|]. intros _.
      apply elem_of_app. right. csimpl. by left. }
  apply IH in Hl2 as [Hsub2 Hall]. split; [by etrans|].
  intros n' a' [Heq|Hin']%elem_of_cons; [simplify_eq; auto|by eapply Hall].
Qed.

Lemma entry_loop_skip now period l c db :
  (forall n a, (n, a) ∈ l -> agg_fits a = true -> (period, n) ∈ entry_keys db) ->
  entry_loop now period l c db = (c, db).
Proof.
  revert c. induction l as [|[n a] l IH]; simpl; intros c Hall; [done|].
  unfold InsertSettlementEntry, sql_insert_ignore. set (row := mkSettlement _ period n _ _ _ _ _ now).
  change (settlement_check row) with (agg_fits a).
  assert (negb (agg_fits a) || existsb (settlement_clash row) (settlement_entries db) = true) as ->.
  { destruct (agg_fits a) eqn:Hf; [|done]. simpl. apply existsb_clash. simpl. apply (Hall n a); [by left|done]. }
  assert (set_settlement_entries db (settlement_entries db) = db) as -> by by destruct db.
  apply IH. intros n' a' Hin. apply Hall. by right.
Qed.

(** A period can be settled twice. Whatever order the aggregates come in,
    computing the entries of a period again after a run creates none and changes
    nothing. *)
Theorem settlement_idempotent e env range range' now now' from to db
    (Hfair : fair_order range) (Hfair' : fair_order range') :
  let db' := (RunSettlement e env range now from to db).1.2 in
  let '(res, db'') := create_entries e range' now' from to db' in
  db'' = db' /\ sr_EntriesCreated res = 0.
Proof.
  cbv zeta. destruct (RunSettlement_frame e env range now from to db) as [p ->].
  pose proof (create_entries_frame e range now from to db) as [_ Heq].
  unfold create_entries in *.
  destruct (aggregate (hubMarginPct e) db _ _) as [[aggs settled] skipped] eqn:Hagg.
  destruct (entry_loop now _ (range aggs) 0 db) as [created db1] eqn:Hl. simpl in *.
  set (db2 := set_payouts db1 p) in *.
  assert (GetSessionUsageSummaries from to db2 = GetSessionUsageSummaries from to db) as ->.
  { unfold db2. by rewrite Heq. }
  rewrite (aggregate_ext _ db2 db), Hagg by (unfold db2; by rewrite Heq).
  rewrite entry_loop_skip; [done|].
  intros n a Hin Hfit. apply entry_loop_present in Hl as [_ Hall].
  change (entry_keys db2) with (entry_keys db1). eapply Hall; [|done].
  unfold fair_order in *. rewrite Hfair. by rewrite Hfair' in Hin.
Qed.

(** ** A concrete hub

    One settled 1 GB invoice, one redeemed ticket, one session reported by both
    nodes. *)
Definition demo_ops : list op :=
  [ OInsertInvoice "t0" "ph" "lnbc1" 500 "1gb" 1000000000 "t9" "1.2.3.4";
    OSettleInvoice "t0" "ph";
    OInsertTicket "t0" "tkt" "ph" 100000000 "mac";
    ORedeemTicket "t0" "tkt" "gw";
    OInsertUsageReport "t1" "sess" "tkt" "alice" "entry" 100000000 "t1" "sig";
    OInsertUsageReport "t1" "sess" "tkt" "bob" "exit" 90000000 "t1" "sig" ].
Definition demo_hub : DB := run_ops demo_ops empty_db.
Definition demo_engine : SettlementEngine := SetMinPayout 10 NewSettlementEngine.
(** The first payout is delivered, the second fails. *)
Definition demo_env : pay_env :=
  mkEnv (fun _ => false)
    (fun id => if id =? 1 then KsResult (mkPayResult "h1" PaymentSucceeded 0 "")
               else KsError "no route").
Definition demo_range : map_order := fun m => map_to_list m.
Definition demo_run : outcome SettlementResult * DB * list call :=
  RunSettlement demo_engine demo_env demo_range "t2" "t0" "t5" demo_hub.
Definition demo_retry : Z * Z * DB * list call := RetryFailedPayouts demo_env "t3" demo_run.1.2.

(** Unfold the demonstration's names before the engine's when comparing. *)
Strategy expand [demo_ops demo_hub demo_run demo_retry].

Lemma demo_hub_wf : db_wf demo_hub.
Proof. apply (steps_wf empty_db); [apply run_ops_steps|apply empty_db_wf]. Qed.

Lemma store_run os db tr :
  Forall (fun o => forall d, payouts (run_op o d) = payouts d) os ->
  rtc engine_step (db, tr) (run_ops os db, tr).
Proof.
  revert db. induction os as [|o os IH]; intros db Hall; simpl; [done|].
  apply Forall_cons in Hall as [Ho Hall]. eapply rtc_l; [by apply es_store, Ho|]. by apply IH.
Qed.

Lemma eta3 {A B C} (x : A * B * C) : x = (x.1.1, x.1.2, x.2).
Proof. by destruct x as [[? ?] ?]. Qed.
Lemma eta4 {A B C D} (x : A * B * C * D) : x = (x.1.1.1, x.1.1.2, x.1.2, x.2).
Proof. by destruct x as [[[? ?] ?] ?]. Qed.

Lemma demo_ops_frame : Forall (fun o => forall d, payouts (run_op o d) = payouts d) demo_ops.
Proof.
  repeat constructor; intros d; simpl.
  - unfold InsertInvoice. by destruct (exec_insert _ _).
  - unfold SettleInvoice. destruct (sql_update _ _ _ _ _) as [t [[|n]|]]; simpl; try done.
    repeat case_match; done.
  - unfold InsertTicket. by destruct (exec_insert _ _).
  - unfold RedeemTicket. by destruct (sql_update _ _ _ _ _).
  - unfold InsertUsageReport. by destruct (exec_insert _ _).
  - unfold InsertUsageReport. by destruct (exec_insert _ _).
Qed.
Lemma demo_engine_run :
  rtc engine_step (empty_db, []) (demo_retry.1.2, ([] ++ demo_run.2) ++ demo_retry.2).
Proof.
  transitivity (demo_hub, @nil call).
  - apply store_run, demo_ops_frame.
  - eapply rtc_l; [|apply rtc_once].
    + exact (es_run demo_engine demo_env demo_range "t2" "t0" "t5" demo_hub [] _ _ _ (eta3 demo_run)).
    + exact (es_retry demo_env "t3" demo_run.1.2 _ _ _ _ _ (eta4 demo_retry)).
Qed.

Lemma keysend_never_repeated_witness :
  let tr := ([] ++ demo_run.2) ++ demo_retry.2 in
  length tr = 3%nat /\ (open_calls 1 tr <= 1)%nat /\ (failed_calls 2 tr <= 3)%nat.
Proof.
  cbv zeta. split; [vm_compute; reflexivity|].
  destruct (keysend_never_repeated _ _ demo_engine_run) as (_ & _ & Hn & _).
  split; [apply (Hn 1)|apply (Hn 2)].
Defined.


Definition demo_pending : DB :=
  run_ops (demo_ops ++ [OInsertSettlementEntry "t2" "p" "alice" 1 20 1 1 1;
                        OInsertPayout "t2" 1 "alice" 20]) empty_db.
Lemma send_payout_outcomes_witness :
  let '(res, db', cs) := sendPayout demo_env "t4" 1 "alice" 20 demo_pending in
  res = Ok tt /\ length cs = 1%nat /\ db' = set_payouts demo_pending (payouts db').
Proof.
  assert (payout_at 1 demo_pending = Some (mkPayout 1 1 "alice" 20 PPending None 0 None "t2" "t2"))
    as Hat by (vm_compute; reflexivity).
  assert (db_wf demo_pending) as Hwf.
  { apply (steps_wf empty_db); [apply run_ops_steps|apply empty_db_wf]. }
  pose proof (send_payout_outcomes demo_env "t4" 1 "alice" 20 _ _ Hwf Hat) as Hout.
  destruct (sendPayout demo_env "t4" 1 "alice" 20 demo_pending) as [[res db'] cs].
  destruct Hout as (Hdb & _ & -> & -> & _). split_and!; [reflexivity|reflexivity|exact Hdb].
Defined.

Lemma payouts_within_budget_witness :
  committed_sats demo_run.1.2 <= Z.max (committed_sats demo_hub) (purchased_sats demo_hub).
Proof.
  apply (payouts_within_budget demo_engine demo_env demo_range "t2" "t0" "t5" demo_hub).
  - apply demo_hub_wf.
  - apply Z.ltb_lt. vm_compute. reflexivity.
  - apply Z.ltb_lt. vm_compute. reflexivity.
  - assert (forallb (fun s => s_amount_sats s <? 2 ^ 62)
      (settlement_entries (create_entries demo_engine demo_range "t2" "t0" "t5" demo_hub).2) = true) as Hall
      by (vm_compute; reflexivity).
    apply Forall_forall. intros s Hs%list_elem_of_In. apply Z.ltb_lt.
    by apply (proj1 (forallb_forall _ _) Hall).
Defined.

Lemma session_bill_split_witness :
  let s := mkSummary "sess" "tkt" "alice" "bob" 100000000 90000000 in
  let info := mkInfo "tkt" TRedeemed 100000000 InvSettled 500 1000000000 "1gb" in
  session_bill 20 s info = (90000000, 18, 18) /\
  let '(billable, entrySats, exitSats) := session_bill 20 s info in exitSats <= entrySats + 1.
Proof.
  cbv zeta. split; [vm_compute; reflexivity|].
  pose proof (session_bill_split 20 (mkSummary "sess" "tkt" "alice" "bob" 100000000 90000000)
    (mkInfo "tkt" TRedeemed 100000000 InvSettled 500 1000000000 "1gb")
    ltac:(lia) ltac:(simpl; lia) ltac:(simpl; lia) ltac:(simpl; lia) ltac:(simpl; lia)
    ltac:(simpl; lia) ltac:(simpl; lia)) as Hs.
  destruct (session_bill _ _ _) as [[b en] ex]. exact (proj1 (proj2 (proj2 (proj2 Hs)))).
Defined.

Lemma settlement_idempotent_witness :
  let '(res, db'') := create_entries demo_engine demo_range "t9" "t0" "t5" demo_run.1.2 in
  db'' = demo_run.1.2 /\ sr_EntriesCreated res = 0.
Proof.
  apply (settlement_idempotent demo_engine demo_env demo_range demo_range "t2" "t9" "t0" "t5" demo_hub).
  - intros m. reflexivity.
  - intros m. reflexivity.
Defined.

(** ** What the guards do not cover

    One invoice of 10 sats, one ticket, and three sessions reported under that
    same ticket. *)
Definition crowd_ops : list op :=
  [ OInsertInvoice "t0" "ph" "lnbc1" 10 "custom" 100000000 "t9" "1.2.3.4";
    OSettleInvoice "t0" "ph";
    OInsertTicket "t0" "tkt" "ph" 100000000 "mac";
    ORedeemTicket "t0" "tkt" "gw";
    OInsertUsageReport "t1" "s1" "tkt" "alice" "entry" 100000000 "t1" "sig";
    OInsertUsageReport "t1" "s1" "tkt" "bob" "exit" 100000000 "t1" "sig";
    OInsertUsageReport "t2" "s2" "tkt" "carol" "entry" 100000000 "t2" "sig";
    OInsertUsageReport "t2" "s2" "tkt" "dave" "exit" 100000000 "t2" "sig" ].
Definition crowd_engine : SettlementEngine := SetMinPayout 1 NewSettlementEngine.
Definition crowd_env : pay_env :=
  mkEnv (fun _ => false)
    (fun id => if id =? 1 then KsError "no route" else KsResult (mkPayResult "h" PaymentSucceeded 0 "")).
Definition crowd_run1 : DB :=
  (RunSettlement crowd_engine crowd_env demo_range "t3" "t1" "t2" (run_ops crowd_ops empty_db)).1.2.
Definition crowd_run2 : DB :=
  (RunSettlement crowd_engine crowd_env demo_range "t4" "t2" "t3" crowd_run1).1.2.
Definition crowd_retry_env : pay_env :=
  mkEnv (fun _ => false) (fun _ => KsResult (mkPayResult "h" PaymentSucceeded 0 "")).
Definition crowd_retried : DB := (RetryFailedPayouts crowd_retry_env "t5" crowd_run2).1.2.

(** A ticket's bytes cap each session, not their sum: the nodes of two sessions
    reported under one ticket are owed more than the ticket's invoice paid. *)
Theorem ticket_billed_per_session :
  zsum_by s_amount_sats (settlement_entries crowd_run2) = 16 /\ purchased_sats crowd_run2 = 10.
Proof. split; vm_compute; reflexivity. Qed.

(** RetryFailedPayouts has no budget check, and a failed payout was not counted
    as committed while others were paid: within budget before the retry, beyond
    the purchases after it. *)
Theorem retry_exceeds_budget :
  committed_sats crowd_run2 = 8 /\ purchased_sats crowd_run2 = 10 /\ committed_sats crowd_retried = 12.
Proof. split_and!; vm_compute; reflexivity. Qed.
