(* ===== verification/Nostr.v ===== *)
(** * Nostr: signed events and raw signatures (src/internal/nostr/event.go)

    BIP-340 signatures (btcec/schnorr), SHA-256 and the JSON encoding of an
    event are the class [Schnorr]; [SchnorrLaws] is what the library documents
    and the round trips need. *)
From S2P Require Import Prelude.

Record Event := mkEvent {
  ev_ID : string;
  ev_Pubkey : string;
  ev_CreatedAt : Z;
  ev_Kind : Z;
  ev_Tags : list (list string);
  ev_Content : string;
  ev_Sig : string
}.

Class Schnorr := {
  SecKey : Type;
  PubKey : Type;
  Signature : Type;
  btcec_PrivKeyFromBytes : string -> SecKey;
  btcec_PubKey : SecKey -> PubKey;
  schnorr_SerializePubKey : PubKey -> string;
  schnorr_ParsePubKey : string -> option PubKey;
  schnorr_Sign : SecKey -> string -> option Signature;
  schnorr_Serialize : Signature -> string;
  schnorr_ParseSignature : string -> option Signature;
  schnorr_Verify : Signature -> string -> PubKey -> bool;
  sha256_Sum256 : string -> string;
  (** json.Marshal([0, pubkey, created_at, kind, tags, content]) *)
  json_Marshal : string -> Z -> Z -> list (list string) -> string -> option string
}.

Class SchnorrLaws `{Schnorr} := {
  law_pubkey_length pk : String.length (schnorr_SerializePubKey pk) = 32%nat;
  law_signature_roundtrip sg : schnorr_ParseSignature (schnorr_Serialize sg) = Some sg;
  (** a signature verifies under the x-only form of the signer's key *)
  law_sign_verify sk msg sg :
    schnorr_Sign sk msg = Some sg ->
    exists pk, schnorr_ParsePubKey (schnorr_SerializePubKey (btcec_PubKey sk)) = Some pk /\
               schnorr_Verify sg msg pk = true
}.

Inductive nostr_error :=
| NDecodeKey | NKeyLength | NParseKey | NMarshal | NSign | NDecodeID | NIDMismatch
| NDecodeSig | NParseSig | NInvalidSignature.
#[export] Instance nostr_error_eq_dec : EqDecision nostr_error.
Proof. solve_decision. Defined.

Section event.
Context `{Schnorr}.

Record KeyPair := mkKey { nk_PrivateKey : SecKey; nk_PublicKey : PubKey }.

Definition PubkeyHex (kp : KeyPair) : string := hex_encode (schnorr_SerializePubKey (nk_PublicKey kp)).

Definition KeyPairFromPrivHex (privHex : string) : result nostr_error KeyPair :=
  match hex_decode privHex with
  | None => Err NDecodeKey
  | Some b =>
      if negb (slen b =? 32) then Err NKeyLength
      else let k := btcec_PrivKeyFromBytes b in Ok (mkKey k (btcec_PubKey k))
  end.

Definition Serialize (e : Event) : option string :=
  json_Marshal (ev_Pubkey e) (ev_CreatedAt e) (ev_Kind e) (ev_Tags e) (ev_Content e).

Definition ComputeID (e : Event) : result nostr_error string :=
  match Serialize e with
  | None => Err NMarshal
  | Some s => Ok (hex_encode (sha256_Sum256 s))
  end.

(** Sign sets Pubkey, CreatedAt (when zero), ID and Sig. *)
Definition Sign (kp : KeyPair) (now : Z) (e : Event) : result nostr_error Event :=
  let created := if ev_CreatedAt e =? 0 then now else ev_CreatedAt e in
  let e1 := mkEvent (ev_ID e) (PubkeyHex kp) created (ev_Kind e) (ev_Tags e) (ev_Content e) (ev_Sig e) in
  id ← ComputeID e1;
  match hex_decode id with
  | None => Err NDecodeID
  | Some idBytes =>
      match schnorr_Sign (nk_PrivateKey kp) idBytes with
      | None => Err NSign
      | Some sg =>
          Ok (mkEvent id (PubkeyHex kp) created (ev_Kind e) (ev_Tags e) (ev_Content e)
                (hex_encode (schnorr_Serialize sg)))
      end
  end.

Definition parse_xonly (pubkeyHex : string) : result nostr_error PubKey :=
  match hex_decode pubkeyHex with
  | None => Err NDecodeKey
  | Some b =>
      if negb (slen b =? 32) then Err NKeyLength
      else match schnorr_ParsePubKey b with None => Err NParseKey | Some pk => Ok pk end
  end.

Definition Verify (e : Event) : result nostr_error unit :=
  computedID ← ComputeID e;
  if negb (String.eqb computedID (ev_ID e)) then Err NIDMismatch
  else
    pubKey ← parse_xonly (ev_Pubkey e);
    match hex_decode (ev_Sig e) with
    | None => Err NDecodeSig
    | Some sigBytes =>
        match schnorr_ParseSignature sigBytes with
        | None => Err NParseSig
        | Some sg =>
            match hex_decode (ev_ID e) with
            | None => Err NDecodeID
            | Some idBytes =>
                if schnorr_Verify sg idBytes pubKey then Ok tt else Err NInvalidSignature
            end
        end
    end.

Definition SignRaw (kp : KeyPair) (message : string) : option string :=
  schnorr_Serialize <$> schnorr_Sign (nk_PrivateKey kp) (sha256_Sum256 message).

Definition VerifyRaw (pubkeyHex message sigBytes : string) : result nostr_error unit :=
  pubKey ← parse_xonly pubkeyHex;
  match schnorr_ParseSignature sigBytes with
  | None => Err NParseSig
  | Some sg =>
      if schnorr_Verify sg (sha256_Sum256 message) pubKey then Ok tt else Err NInvalidSignature
  end.
End event.

Definition tag_matches (key : string) (tag : list string) : bool :=
  match tag with k :: _ :: _ => String.eqb k key | _ => false end.
Definition GetTagValue (key : string) (e : Event) : string :=
  match List.find (tag_matches key) (ev_Tags e) with
  | Some (_ :: v :: _) => v
  | _ => ""
  end.
Definition GetTagValues (key : string) (e : Event) : list string :=
  bfilter (tag_matches key) (ev_Tags e) ≫= tail.

(** ** Theorems *)
Section theorems.
Context `{SchnorrLaws}.

Definition own_key (kp : KeyPair) : Prop := nk_PublicKey kp = btcec_PubKey (nk_PrivateKey kp).

Lemma parse_own_key kp msg sg :
  own_key kp -> schnorr_Sign (nk_PrivateKey kp) msg = Some sg ->
  exists pk, parse_xonly (PubkeyHex kp) = Ok pk /\ schnorr_Verify sg msg pk = true.
Proof.
  intros Hown Hs. destruct (law_sign_verify _ _ _ Hs) as (pk & Hp & Hv). exists pk. split; [|done].
  unfold parse_xonly, PubkeyHex. rewrite hex_decode_encode.
  unfold slen. rewrite law_pubkey_length. simpl. by rewrite Hown, Hp.
Qed.

(** A raw signature verifies under the signer's hex key. *)
Lemma SignRaw_VerifyRaw kp msg sg :
  own_key kp -> SignRaw kp msg = Some sg -> VerifyRaw (PubkeyHex kp) msg sg = Ok tt.
Proof.
  intros Hown Hs. unfold SignRaw in Hs.
  destruct (schnorr_Sign _ _) as [s|] eqn:Hsig; simplify_eq/=.
  destruct (parse_own_key _ _ _ Hown Hsig) as (pk & Hp & Hv).
  unfold VerifyRaw. rewrite Hp. simpl. by rewrite law_signature_roundtrip, Hv.
Qed.

(** Sign then verify. An event signed with a key pair verifies, carries that
    key, and keeps kind, tags and content. *)
Theorem event_sign_verify kp now e e'
    (Hown : own_key kp) (Hsign : Sign kp now e = Ok e') :
  Verify e' = Ok tt /\ ev_Pubkey e' = PubkeyHex kp /\ ev_Kind e' = ev_Kind e /\
  ev_Tags e' = ev_Tags e /\ ev_Content e' = ev_Content e.
Proof.
  unfold Sign in Hsign.
  unfold ComputeID, Serialize in Hsign. simpl in Hsign.
  destruct (json_Marshal _ _ _ _ _) as [s|] eqn:Hj; simpl in Hsign; [|done].
  rewrite hex_decode_encode in Hsign.
  destruct (schnorr_Sign _ _) as [sg|] eqn:Hsg; simplify_eq. split; [|done].
  destruct (parse_own_key _ _ _ Hown Hsg) as (pk & Hp & Hv).
  unfold Verify, ComputeID, Serialize. simpl. rewrite Hj. simpl. rewrite String.eqb_refl. simpl.
  rewrite Hp. simpl. by rewrite hex_decode_encode, law_signature_roundtrip, hex_decode_encode, Hv.
Qed.

(** An accepted event is the one its ID names: Verify succeeds only when the
    ID is the hash of the event's own serialisation and the signature under the
    event's own key verifies over it. *)
Theorem verify_authentic e (Hv : Verify e = Ok tt) :
  exists s b pk sg, Serialize e = Some s /\ ev_ID e = hex_encode (sha256_Sum256 s) /\
    parse_xonly (ev_Pubkey e) = Ok pk /\ hex_decode (ev_Sig e) = Some b /\
    schnorr_ParseSignature b = Some sg /\ schnorr_Verify sg (sha256_Sum256 s) pk = true.
Proof.
  unfold Verify, ComputeID in Hv. destruct (Serialize e) as [s|]; simpl in Hv; [|done].
  destruct (String.eqb_spec (hex_encode (sha256_Sum256 s)) (ev_ID e)) as [Hid|]; simpl in Hv; [|done].
  destruct (parse_xonly _) as [pk|]; simpl in Hv; [|done].
  destruct (hex_decode (ev_Sig e)) as [b|]; [|done].
  destruct (schnorr_ParseSignature b) as [sg|] eqn:Hsg; [|done].
  rewrite <-Hid, hex_decode_encode in Hv. destruct (schnorr_Verify _ _ _) eqn:?; [|done].
  by exists s, b, pk, sg.
Qed.
End theorems.

(** ** A toy scheme: keys and hashes are text, a signature is key and message *)
Definition pad32 (s : string) : string :=
  String.substring 0 32 (s ++ "00000000000000000000000000000000").
#[export] Instance toy_schnorr : Schnorr := {|
  SecKey := unit;
  PubKey := unit;
  Signature := string;
  btcec_PrivKeyFromBytes := fun _ => tt;
  btcec_PubKey := fun _ => tt;
  schnorr_SerializePubKey := fun _ => pad32 "key";
  schnorr_ParsePubKey := fun s => if String.eqb s (pad32 "key") then Some tt else None;
  schnorr_Sign := fun _ msg => Some msg;
  schnorr_Serialize := fun s => s;
  schnorr_ParseSignature := fun s => Some s;
  schnorr_Verify := fun sg msg _ => String.eqb sg msg;
  sha256_Sum256 := pad32;
  json_Marshal := fun pk t k tags c => Some (pk ++ show_Z t ++ show_Z k ++ c)%string
|}.
#[export] Instance toy_schnorr_laws : SchnorrLaws.
Proof.
  split; [done|done|]. intros sk msg sg [= <-]. exists tt. split; [done|]. apply String.eqb_refl.
Qed.
Definition toy_key : KeyPair := mkKey tt tt.
Definition toy_event : Event := mkEvent "" "" 7 30078 [["d"; "node-1"]] "hello" "".
Definition toy_signed : Event :=
  match Sign toy_key 9 toy_event with Ok e => e | Err _ => toy_event end.

Lemma event_sign_verify_witness : Verify toy_signed = Ok tt /\ GetTagValue "d" toy_signed = "node-1"%string.
Proof.
  split; [|reflexivity].
  refine (proj1 (event_sign_verify toy_key 9 toy_event toy_signed _ _)); reflexivity.
Defined.

Lemma verify_authentic_witness : exists s, Serialize toy_signed = Some s.
Proof.
  destruct (verify_authentic toy_signed) as (s & _ & _ & _ & Hs & _); [reflexivity|].
  exists s. exact Hs.
Defined.
