(* ===== verification/Usage.v ===== *)
(** * Usage: signed usage reports (src/internal/payments/usage.go) *)
From S2P Require Import Prelude Nostr.

Definition usageReportDomain : string := "ARFL_USAGE_REPORT_V1".

Record UsageReport := mkReport {
  ur_SessionID : string;
  ur_TicketID : string;
  ur_NodePubkey : string;
  ur_NodeRole : string;
  ur_BytesReported : Z;
  ur_ReportedAt : string;
  ur_Signature : string
}.

Definition report_fields (r : UsageReport) : list string :=
  [ur_SessionID r; ur_TicketID r; ur_NodePubkey r; ur_NodeRole r; show_Z (ur_BytesReported r);
   ur_ReportedAt r].
(** fmt.Fprintf(&b, "|%d:%s", len(f), f) *)
Definition prefixed (f : string) : string := ("|" ++ show_Z (slen f) ++ ":" ++ f)%string.
Arguments prefixed f : simpl never.
Fixpoint write_fields (fs : list string) : string :=
  match fs with [] => "" | f :: r => (prefixed f ++ write_fields r)%string end.
Definition UsageReport_Payload (r : UsageReport) : string :=
  (usageReportDomain ++ write_fields (report_fields r))%string.

Inductive usage_error :=
| UEmpty (field : string) | URole | UNegative | UTime | UFuture | UHex | USignature (e : nostr_error).
#[export] Instance usage_error_eq_dec : EqDecision usage_error.
Proof. solve_decision. Defined.

Section report.
Context `{Schnorr}.
(** time.Parse(time.RFC3339, s), in nanoseconds *)
Context (parse_rfc3339 : string -> option Z).

Definition UsageReport_Sign (kp : KeyPair) (r : UsageReport) : option UsageReport :=
  let r1 := mkReport (ur_SessionID r) (ur_TicketID r) (PubkeyHex kp) (ur_NodeRole r)
              (ur_BytesReported r) (ur_ReportedAt r) (ur_Signature r) in
  match SignRaw kp (UsageReport_Payload r1) with
  | None => None
  | Some sg => Some (mkReport (ur_SessionID r) (ur_TicketID r) (PubkeyHex kp) (ur_NodeRole r)
                       (ur_BytesReported r) (ur_ReportedAt r) (hex_encode sg))
  end.

(** Everything checked before the signature. *)
Definition report_shape (now : Z) (r : UsageReport) : result usage_error unit :=
  if str_empty (ur_SessionID r) then Err (UEmpty "session_id")
  else if str_empty (ur_TicketID r) then Err (UEmpty "ticket_id")
  else if str_empty (ur_NodePubkey r) then Err (UEmpty "node_pubkey")
  else if negb (String.eqb (ur_NodeRole r) "entry") && negb (String.eqb (ur_NodeRole r) "exit")
    then Err URole
  else if ur_BytesReported r <? 0 then Err UNegative
  else if str_empty (ur_ReportedAt r) then Err (UEmpty "reported_at")
  else if str_empty (ur_Signature r) then Err (UEmpty "signature")
  else match parse_rfc3339 (ur_ReportedAt r) with
       | None => Err UTime
       | Some t => if now + 30 * 1000000000 <? t then Err UFuture else Ok tt
       end.

Definition UsageReport_Verify (now : Z) (r : UsageReport) : result usage_error unit :=
  _ ← report_shape now r;
  match hex_decode (ur_Signature r) with
  | None => Err UHex
  | Some sigBytes =>
      match VerifyRaw (ur_NodePubkey r) (UsageReport_Payload r) sigBytes with
      | Err e => Err (USignature e)
      | Ok _ => Ok tt
      end
  end.
End report.

(** ** Theorems *)
Lemma slen_inj a b : slen a = slen b -> String.length a = String.length b.
Proof. unfold slen. lia. Qed.

Lemma prefixed_inj f g x y : (prefixed f ++ x = prefixed g ++ y)%string -> f = g /\ x = y.
Proof.
  unfold prefixed. rewrite !str_app_assoc. intros Heq.
  apply app_len_inj in Heq as [_ Heq]; [|done].
  apply sep_inj in Heq as [Hlen Heq]; [|apply colon_free_Z..].
  apply show_Z_inj, slen_inj in Hlen. by apply app_len_inj in Heq.
Qed.

Lemma write_fields_inj fs gs :
  length fs = length gs -> write_fields fs = write_fields gs -> fs = gs.
Proof.
  revert gs. induction fs as [|f fs IH]; intros [|g gs] Hl Heq; [done..|].
  injection Hl as Hl. cbn [write_fields] in Heq.
  apply prefixed_inj in Heq as [-> Heq]. f_equal. by apply IH.
Qed.

(** The signed payload of a usage report determines every signed field,
    whatever bytes the fields contain: no delimiter injection. *)
Theorem usage_payload_injective r1 r2
    (Heq : UsageReport_Payload r1 = UsageReport_Payload r2) :
  ur_SessionID r1 = ur_SessionID r2 /\ ur_TicketID r1 = ur_TicketID r2 /\
  ur_NodePubkey r1 = ur_NodePubkey r2 /\ ur_NodeRole r1 = ur_NodeRole r2 /\
  ur_BytesReported r1 = ur_BytesReported r2 /\ ur_ReportedAt r1 = ur_ReportedAt r2.
Proof.
  unfold UsageReport_Payload in Heq. apply app_len_inj in Heq as [_ Heq]; [|done].
  apply write_fields_inj in Heq; [|done]. unfold report_fields in Heq.
  injection Heq as ? ? ? ? Hb ?. apply show_Z_inj in Hb. done.
Qed.

Section roundtrip.
Context `{SchnorrLaws} (parse_rfc3339 : string -> option Z).

(** A report a node signs is accepted by the hub when its fields are valid
    and its time is not more than 30 seconds ahead. *)
Theorem usage_sign_verify kp now r r'
    (Hown : own_key kp) (Hsign : UsageReport_Sign kp r = Some r')
    (Hshape : report_shape parse_rfc3339 now r' = Ok tt) :
  UsageReport_Verify parse_rfc3339 now r' = Ok tt /\ ur_NodePubkey r' = PubkeyHex kp.
Proof.
  unfold UsageReport_Verify. rewrite Hshape. simpl. unfold UsageReport_Sign in Hsign.
  destruct (SignRaw kp _) as [sg|] eqn:Hs; simplify_eq. simpl. split; [|done].
  rewrite hex_decode_encode. unfold UsageReport_Payload, report_fields in *. simpl in *.
  by rewrite (SignRaw_VerifyRaw kp _ sg Hown Hs).
Qed.
End roundtrip.

Definition toy_time (s : string) : option Z := if String.eqb s "" then None else Some (slen s).
Definition toy_report : UsageReport :=
  mkReport "sess" "tkt" "" "entry" 1000 "2026-01-01T00:00:00Z" "".

Lemma usage_payload_injective_witness :
  ur_SessionID toy_report = ur_SessionID toy_report.
Proof. exact (proj1 (usage_payload_injective toy_report toy_report eq_refl)). Defined.

Lemma usage_sign_verify_witness :
  exists r', UsageReport_Sign toy_key toy_report = Some r' /\ UsageReport_Verify toy_time 0 r' = Ok tt.
Proof.
  eexists. split; [reflexivity|].
  refine (proj1 (usage_sign_verify toy_time toy_key 0 toy_report _ _ _ _)); [reflexivity..|].
  vm_compute. reflexivity.
Defined.
