(* ===== verification/Payments.v ===== *)
(** * Payments: the purchase, report, redeem and spend endpoints
    (src/internal/payments/api.go and blind_api.go)

    A handler takes the request (its JSON body already decoded, [None] when
    decoding fails) and the state and returns the reply and the new state. The
    in-memory state is the rate limiter's table; everything else is the
    database. *)
From Stdlib Require Import Sorting.Sorted.
From S2P Require Import Prelude Sql Schema Credentials Repository Ledger Nostr Usage.

(** ** State and configuration *)
Record PurchaseAPI := mkAPI {
  api_store : DB;
  api_rateLimit : gmap string (list Z)
}.
Definition maxRequests : Z := 10.
Definition rateWindow : Z := 3600 * 1000000000.

(** A clock reading: nanoseconds, and strftime's text. *)
Record clock := mkClock { ck_ns : Z; ck_text : string }.

(** ** Requests and responses *)
Record PurchaseResponse := mkPurchase {
  pu_PaymentHash : string;
  pu_PaymentRequest : string;
  pu_AmountSats : Z;
  pu_Tier : string;
  pu_ExpiresAt : string
}.
Record PurchaseStatusResponse := mkStatus {
  ps_PaymentHash : string;
  ps_Status : InvStatus;
  ps_AmountSats : Z;
  ps_Tier : string;
  ps_Tickets : list Ticket
}.
Record RedeemRequest := mkRedeem {
  rq_PaymentPreimage : string;
  rq_KeyID : string;
  rq_BlindedMessages : list string;
  rq_Nonce : string
}.
Record RedeemResponse := mkRedeemed {
  rr_BlindSignatures : list string;
  rr_BytesPerToken : Z;
  rr_TokensRedeemed : Z;
  rr_TokensRemaining : Z
}.
Record SpendRequest := mkSpend {
  sq_KeyID : string;
  sq_TokenSecret : string;
  sq_Signature : string;
  sq_NodePubkey : string
}.
Record SpendResponse := mkSpendR { sp_FirstSpend : bool; sp_BytesPerToken : Z }.

(** ** Rate limiting *)
Definition checkRateLimit (now : Z) (clientIP : string) (rl : gmap string (list Z)) :
    bool * gmap string (list Z) :=
  let fresh := bfilter (fun ts => now - rateWindow <? ts) (default [] (rl !! clientIP)) in
  if maxRequests <=? Z.of_nat (length fresh) then (false, rl)
  else (true, <[clientIP := fresh ++ [now]]> rl).

(** ** POST /purchase *)

(** An invoice as lnd returns it. *)
Record LnInvoice := mkLnInvoice { ln_hash : string; ln_request : string; ln_expires : string }.

Definition handlePurchase (create : Z -> string -> option LnInvoice) (ck : clock)
    (method : http_method) (clientIP : string) (body : option string) (api : PurchaseAPI) :
    reply PurchaseResponse * PurchaseAPI :=
  if negb (bool_decide (method = POST)) then (Fault StatusMethodNotAllowed "method not allowed", api)
  else
    let '(allowed, rl) := checkRateLimit (ck_ns ck) clientIP (api_rateLimit api) in
    let api1 := mkAPI (api_store api) rl in
    if negb allowed then (Fault StatusTooManyRequests "rate limit exceeded", api1)
    else match body with
    | None => (Fault StatusBadRequest "invalid request body", api1)
    | Some tierID =>
        match LookupTier tierID with
        | Err _ => (Fault StatusBadRequest ("unknown tier: " ++ tierID), api1)
        | Ok tier =>
            match create (tier_PriceSats tier) ("ARFL " ++ tier_Name tier ++ " bandwidth")%string with
            | None => (Fault StatusInternalServerError "failed to create invoice", api1)
            | Some inv =>
                match InsertInvoice (ck_text ck) (ln_hash inv) (ln_request inv) (tier_PriceSats tier)
                        (tier_ID tier) (tier_Bytes tier) (ln_expires inv) clientIP (api_store api1) with
                | (Err _, db) => (Fault StatusInternalServerError "internal error", mkAPI db rl)
                | (Ok _, db) =>
                    (Reply StatusCreated
                       (mkPurchase (ln_hash inv) (ln_request inv) (tier_PriceSats tier) (tier_ID tier)
                          (ln_expires inv)), mkAPI db rl)
                end
            end
        end
    end.

(** ** GET /purchase/{hash} *)
Definition ticketRecordsToCredentials (records : list TicketRow) : list Ticket :=
  (fun r => mkTkt (t_id r) "" (t_bytes_value r) 0 0 (t_hmac r)) <$> records.

(** [paymentHash] is the path with its prefix and spaces trimmed. *)
Definition handlePurchaseStatus (method : http_method) (paymentHash : string) (db : DB) :
    reply PurchaseStatusResponse :=
  if negb (bool_decide (method = GET)) then Fault StatusMethodNotAllowed "method not allowed"
  else if str_empty paymentHash then Fault StatusBadRequest "missing payment hash"
  else match GetInvoice paymentHash db with
       | Err _ => Fault StatusNotFound "purchase not found"
       | Ok inv =>
           Reply StatusOK
             (mkStatus (i_payment_hash inv) (i_status inv) (i_amount_sats inv) (i_tier inv)
                (if bool_decide (i_status inv = InvSettled)
                 then ticketRecordsToCredentials (GetTicketsByPaymentHash paymentHash db) else []))
       end.

(** ** POST /report *)
Section report.
Context `{Schnorr} (parse_rfc3339 : string -> option Z).
Definition handleReport (ck : clock) (method : http_method) (body : option UsageReport) (db : DB) :
    reply unit * DB :=
  if negb (bool_decide (method = POST)) then (Fault StatusMethodNotAllowed "method not allowed", db)
  else match body with
  | None => (Fault StatusBadRequest "invalid request body", db)
  | Some r =>
      match UsageReport_Verify parse_rfc3339 (ck_ns ck) r with
      | Err _ => (Fault StatusBadRequest "report verification failed", db)
      | Ok _ =>
          match InsertUsageReport (ck_text ck) (ur_SessionID r) (ur_TicketID r) (ur_NodePubkey r)
                  (ur_NodeRole r) (ur_BytesReported r) (ur_ReportedAt r) (ur_Signature r) db with
          | (Err _, db') => (Fault StatusInternalServerError "internal error", db')
          | (Ok _, db') => (Reply StatusAccepted tt, db')
          end
      end
  end.
End report.

(** ** Invoice settlement *)
Inductive settle_error :=
| SettleStore (e : store_error)
| SettleTier (e : cred_error)
| SettleIssue (e : cred_error).

(** Steps 1 to 5 of onInvoiceSettled: [Ok None] when tickets exist already,
    [Ok (Some tier)] when they have just been issued. [issue] is the ticket
    issuer. *)
Definition settle_tickets (issue : string -> Z -> Z -> result cred_error (list Ticket))
    (now paymentHash : string) (db : DB) : result settle_error (option Tier) * DB :=
  if 0 <? CountTicketsByPaymentHash paymentHash db then (Ok None, db)
  else match SettleInvoice now paymentHash db with
  | (Err e, db1) => (Err (SettleStore e), db1)
  | (Ok _, db1) =>
      match GetInvoice paymentHash db1 with
      | Err e => (Err (SettleStore e), db1)
      | Ok record =>
          match LookupTier (i_tier record) with
          | Err e => (Err (SettleTier e), db1)
          | Ok tier =>
              match issue paymentHash (tier_TicketBytes tier) (tier_TicketCount tier) with
              | Err e => (Err (SettleIssue e), db1)
              | Ok tickets =>
                  match InsertTicketsBatch now paymentHash tickets db1 with
                  | (Err e, db2) => (Err (SettleStore e), db2)
                  | (Ok _, db2) => (Ok (Some tier), db2)
                  end
              end
          end
      end
  end.

(** Step 6: the entitlement, when blind signatures are enabled ([blindKeyID]
    is the key for new entitlements). *)
Definition settle_entitlement (blindKeyID : option string) (now paymentHash : string) (tier : Tier)
    (db : DB) : result settle_error unit * DB :=
  match blindKeyID with
  | None => (Ok tt, db)
  | Some key =>
      match InsertEntitlement now ("ent-" ++ paymentHash)%string paymentHash (tier_TicketCount tier)
              (tier_TicketBytes tier) key db with
      | (Ok _, db') => (Ok tt, db')
      | (Err e, db') =>
          match GetEntitlementByPaymentHash paymentHash db' with
          | Ok _ => (Ok tt, db')
          | Err _ => (Err (SettleStore e), db')
          end
      end
  end.

Definition onInvoiceSettled (issue : string -> Z -> Z -> result cred_error (list Ticket))
    (blindKeyID : option string) (now paymentHash : string) (db : DB) :
    result settle_error unit * DB :=
  match settle_tickets issue now paymentHash db with
  | (Err e, db1) => (Err e, db1)
  | (Ok None, db1) => (Ok tt, db1)
  | (Ok (Some tier), db1) => settle_entitlement blindKeyID now paymentHash tier db1
  end.

(** ** POST /redeem and POST /spend *)
Section blind.
Context `{BlindScheme}.
Implicit Types (keys : gmap string DenominationKey).

Definition computeRequestHash (keyID : string) (blindedMessages : list string) : string :=
  hex_encode (sha256 (keyID ++ "|" ++ join "|" blindedMessages)%string).

Fixpoint decode_all (l : list string) : option (list string) :=
  match l with
  | [] => Some []
  | x :: r =>
      match hex_decode x, decode_all r with
      | Some b, Some bs => Some (b :: bs)
      | _, _ => None
      end
  end.

(** The index of the first message that is not hex. *)
Fixpoint bad_index (l : list string) : Z :=
  match l with
  | [] => 0
  | x :: r => if hex_decode x then 1 + bad_index r else 0
  end.

(** The request's own fields: the payment hash the preimage proves. *)
Definition redeem_fields (req : RedeemRequest) : result string string :=
  if negb (slen (rq_PaymentPreimage req) =? 64) then Err "payment_preimage must be 64 hex characters (32 bytes)"%string
  else match hex_decode (rq_PaymentPreimage req) with
  | None => Err "payment_preimage must be valid hex"%string
  | Some preimage =>
      if str_empty (rq_Nonce req) then Err "nonce is required"%string
      else if 64 <? slen (rq_Nonce req) then Err "nonce too long (max 64 chars)"%string
      else if Z.of_nat (length (rq_BlindedMessages req)) =? 0
        then Err "blinded_messages must not be empty"%string
      else if MaxBlindMessagesPerRequest <? Z.of_nat (length (rq_BlindedMessages req))
        then Err ("too many messages: max " ++ show_Z MaxBlindMessagesPerRequest)%string
      else if str_empty (rq_KeyID req) then Err "key_id is required"%string
      else Ok (hex_encode (sha256 preimage))
  end.

(** A nonce seen before: the cached answer, or a conflict. *)
Definition redeem_replay keys (req : RedeemRequest) (paymentHash : string) (existing : RedemptionRow)
    (db : DB) : reply RedeemResponse :=
  if negb (String.eqb (r_request_hash existing)
             (computeRequestHash (rq_KeyID req) (rq_BlindedMessages req)))
  then Fault StatusConflict "nonce conflict: already used with different request"
  else match GetEntitlementByPaymentHash paymentHash db with
       | Err _ => Fault StatusInternalServerError "internal error"
       | Ok ent =>
           Reply StatusOK
             (mkRedeemed (r_blind_signatures existing) (default 0 (Denomination keys (rq_KeyID req)))
                (r_tokens_count existing) (e_tokens_remaining ent))
       end.

(** A new nonce: consume, sign, cache. *)
Definition redeem_fresh keys (now : string) (req : RedeemRequest) (paymentHash : string) (db : DB) :
    reply RedeemResponse * DB :=
  match GetEntitlementByPaymentHash paymentHash db with
  | Err _ => (Fault StatusNotFound "no entitlement found for this payment", db)
  | Ok ent =>
      if negb (String.eqb (e_key_id ent) (rq_KeyID req))
      then (Fault StatusBadRequest ("key_id mismatch: entitlement uses " ++ e_key_id ent), db)
      else match decode_all (rq_BlindedMessages req) with
      | None => (Fault StatusBadRequest
                   ("blinded_messages[" ++ show_Z (bad_index (rq_BlindedMessages req)) ++ "]: invalid hex"), db)
      | Some msgs =>
          let count := Z.of_nat (length msgs) in
          match ConsumeEntitlement (e_id ent) count db with
          | (Err _, db1) => (Fault StatusPaymentRequired "insufficient tokens remaining", db1)
          | (Ok _, db1) =>
              match SignBlinded keys (rq_KeyID req) msgs with
              | Err _ => (Fault StatusInternalServerError "signing failed (tokens consumed — contact support)", db1)
              | Ok sigs =>
                  let sigStrings := hex_encode <$> sigs in
                  let db2 := (InsertRedemption now (rq_Nonce req) (e_id ent)
                                (computeRequestHash (rq_KeyID req) (rq_BlindedMessages req))
                                count sigStrings db1).2 in
                  let remaining := match GetEntitlementByPaymentHash paymentHash db2 with
                                   | Ok e => e_tokens_remaining e
                                   | Err _ => 0
                                   end in
                  (Reply StatusOK
                     (mkRedeemed sigStrings (default 0 (Denomination keys (rq_KeyID req))) count
                        remaining), db2)
              end
          end
      end
  end.

Definition handleRedeem keys (now : string) (method : http_method) (body : option RedeemRequest)
    (db : DB) : reply RedeemResponse * DB :=
  if negb (bool_decide (method = POST)) then (Fault StatusMethodNotAllowed "method not allowed", db)
  else match body with
  | None => (Fault StatusBadRequest "invalid request body", db)
  | Some req =>
      match redeem_fields req with
      | Err msg => (Fault StatusBadRequest msg, db)
      | Ok paymentHash =>
          match GetRedemption (rq_Nonce req) db with
          | Some existing => (redeem_replay keys req paymentHash existing db, db)
          | None => redeem_fresh keys now req paymentHash db
          end
      end
  end.

Definition handleSpend keys (now : string) (method : http_method) (body : option SpendRequest)
    (db : DB) : reply SpendResponse * DB :=
  if negb (bool_decide (method = POST)) then (Fault StatusMethodNotAllowed "method not allowed", db)
  else match body with
  | None => (Fault StatusBadRequest "invalid request body", db)
  | Some req =>
      if str_empty (sq_KeyID req) then (Fault StatusBadRequest "key_id is required", db)
      else if str_empty (sq_TokenSecret req) then (Fault StatusBadRequest "token_secret is required", db)
      else if str_empty (sq_Signature req) then (Fault StatusBadRequest "signature is required", db)
      else if str_empty (sq_NodePubkey req) then (Fault StatusBadRequest "node_pubkey is required", db)
      else match hex_decode (sq_TokenSecret req), hex_decode (sq_Signature req) with
      | Some tokenSecret, Some sg =>
          let token := mkBlindToken BlindTokenVersion (sq_KeyID req) tokenSecret sg in
          match BlindVerifier_Verify keys (Some token) with
          | Err _ => (Fault StatusUnauthorized "invalid token signature", db)
          | Ok _ =>
              match MarkSpent now (TokenID token) (sq_KeyID req) (sq_NodePubkey req) db with
              | (Err _, db') => (Fault StatusInternalServerError "internal error", db')
              | (Ok firstSpend, db') =>
                  (Reply StatusOK (mkSpendR firstSpend (default 0 (Denomination keys (sq_KeyID req)))), db')
              end
          end
      | None, _ => (Fault StatusBadRequest "token_secret must be valid hex", db)
      | _, None => (Fault StatusBadRequest "signature must be valid hex", db)
      end
  end.
End blind.

(** ** Entitlements by payment hash *)
Lemma entitlement_by_id h db r :
  db_wf db -> GetEntitlementByPaymentHash h db = Ok r ->
  sql_find (ent_is (e_id r)) (entitlements db) = Some r /\ e_payment_hash r = h /\ r ∈ entitlements db.
Proof.
  intros [_ _ _ _ _ (Hnd & _ & _) _ _] Hg. unfold GetEntitlementByPaymentHash, of_row in Hg.
  destruct (sql_find _ _) as [x|] eqn:Hf; simplify_eq.
  apply sql_find_Some in Hf as [Hr Hh]. unfold entitlement_for in Hh. bprop.
  split_and!; [|done|done].
  destruct (find_key e_id (e_id r) (entitlements db)) as [x Hx]; [by apply list_elem_of_fmap_2|].
  change (sql_find (ent_is (e_id r)) (entitlements db) = Some x) in Hx. rewrite Hx. f_equal.
  apply sql_find_Some in Hx as [Hx Hid]. unfold ent_is in Hid. bprop.
  by eapply (unique_key e_id).
Qed.

Lemma ConsumeEntitlement_frame id n db :
  (ConsumeEntitlement id n db).2 = set_entitlements db (entitlements (ConsumeEntitlement id n db).2).
Proof. unfold ConsumeEntitlement. by destruct (sql_update _ _ _ _ _). Qed.

(** Taking [n] tokens of a payment: what its entitlement becomes. *)
Lemma consume_by_hash h n db r :
  db_wf db -> 0 <= n -> GetEntitlementByPaymentHash h db = Ok r ->
  let '(res, db1) := ConsumeEntitlement (e_id r) n db in
  db_wf db1 /\ db1 = set_entitlements db (entitlements db1) /\
  if n <=? e_tokens_remaining r
  then res = Ok tt /\ GetEntitlementByPaymentHash h db1 = Ok (consume_row n r)
  else res = Err ErrInsufficientEntitlement /\ db1 = db.
Proof.
  intros Hwf Hn Hg. destruct (entitlement_by_id _ _ _ Hwf Hg) as (Hid & Hh & Hr).
  pose proof (ConsumeEntitlement_spec _ n db r Hwf Hn Hid) as [Hres _].
  pose proof (ConsumeEntitlement_frame (e_id r) n db) as Hfr.
  pose proof (run_op_wf (OConsumeEntitlement (e_id r) (Z.to_nat n)) db Hwf) as Hwf1.
  simpl in Hwf1. rewrite Z2Nat.id in Hwf1 by done.
  pose proof Hwf as [_ _ _ _ _ (Hnd & _ & Hall) _ _].
  assert (Forall (fun x => entitlement_check x = true) (entitlements db)) as Hchk
    by (eapply Forall_impl; [exact Hall|naive_solver]).
  rewrite (ConsumeEntitlement_map _ _ _ Hchk Hn) in *. simpl in Hres.
  split; [done|]. split; [done|].
  destruct (n <=? e_tokens_remaining r) eqn:Hle; (split; [done|]).
  - unfold GetEntitlementByPaymentHash in *. simpl. rewrite find_fmap.
    + destruct (sql_find _ _) as [x|] eqn:Hf; simplify_eq/=.
      unfold entitlement_with. by rewrite String.eqb_refl, Hle.
    + intros x. by destruct (entitlement_with _ _ x).
  - unfold set_entitlements. destruct db; simpl in *. f_equal.
    rewrite <-(list_fmap_id entitlements) at 2. apply list_fmap_ext. intros i x Hx%list_elem_of_lookup_2.
    destruct (entitlement_with _ _ x) eqn:He; [|done]. exfalso.
    unfold entitlement_with in He. bprop.
    assert (x = r) as -> by (by eapply (unique_key e_id)). bprop. lia.
Qed.

Lemma InsertRedemption_fresh now nonce ent rh n sigs db :
  0 < n -> GetRedemption nonce db = None -> ent ∈ (e_id <$> entitlements db) ->
  (InsertRedemption now nonce ent rh n sigs db).2
    = set_redemptions db (redemptions db ++ [mkRedemption nonce ent rh n sigs now]).
Proof.
  intros Hn Hno Hent. unfold InsertRedemption. rewrite sql_insert_fits; [done| | |].
  - unfold redemption_check. simpl. by apply Z.ltb_lt.
  - intros r Hr. eapply sql_find_None in Hno; [|done].
    unfold redemption_clash. simpl. by rewrite String.eqb_sym.
  - unfold redemption_fk. simpl. apply existsb_exists.
    apply list_elem_of_fmap in Hent as (e & -> & He). exists e.
    rewrite <-list_elem_of_In. split; [done|]. apply String.eqb_refl.
Qed.

Section redeem.
Context `{BlindScheme}.
Implicit Types (keys : gmap string DenominationKey).

Lemma decode_all_length l bs : decode_all l = Some bs -> length bs = length l.
Proof.
  revert bs. induction l as [|x l IH]; simpl; intros bs Hd; [by simplify_eq|].
  destruct (hex_decode x); [|done]. destruct (decode_all l); [|done]. simplify_eq/=. f_equal. auto.
Qed.

Lemma SignBlinded_length keys k msgs sigs :
  SignBlinded keys k msgs = Ok sigs -> length sigs = length msgs.
Proof.
  unfold SignBlinded. intros Hs.
  destruct (_ =? 0); [done|]. destruct (_ <? _); [done|].
  destruct (keys !! k) as [dk|]; [|done]. destruct (dk_PrivateKey dk) as [sk|]; [|done].
  revert sigs Hs. induction msgs as [|m msgs IH]; simpl; intros sigs Hs; [by simplify_eq|].
  destruct (rsablind_BlindSign sk m); [|done].
  destruct (sign_loop sk msgs); simpl in Hs; simplify_eq/=. f_equal. auto.
Qed.

(** A redemption that goes through: what was checked, taken and recorded. *)
Definition redeemed keys (req : RedeemRequest) (h : string) (b : RedeemResponse) (now : string)
    (db db' : DB) : Prop :=
  exists ent sigs,
    GetEntitlementByPaymentHash h db = Ok ent /\ e_key_id ent = rq_KeyID req /\
    let n := Z.of_nat (length (rq_BlindedMessages req)) in
    n <= e_tokens_remaining ent /\
    length sigs = length (rq_BlindedMessages req) /\
    b = mkRedeemed (hex_encode <$> sigs) (default 0 (Denomination keys (rq_KeyID req))) n
          (e_tokens_remaining ent - n) /\
    GetEntitlementByPaymentHash h db' = Ok (consume_row n ent) /\
    GetRedemption (rq_Nonce req) db' =
      Some (mkRedemption (rq_Nonce req) (e_id ent)
              (computeRequestHash (rq_KeyID req) (rq_BlindedMessages req)) n
              (hex_encode <$> sigs) now) /\
    db' = set_redemptions (set_entitlements db (entitlements db')) (redemptions db').

Lemma redeem_fresh_cases keys now req h db :
  db_wf db -> GetRedemption (rq_Nonce req) db = None -> rq_BlindedMessages req <> [] ->
  match redeem_fresh keys now req h db with
  | (Reply code b, db') => code = StatusOK /\ redeemed keys req h b now db db'
  | (Fault code _, db') => code = StatusInternalServerError \/ db' = db
  end.
Proof.
  intros Hwf Hno Hne. unfold redeem_fresh.
  destruct (GetEntitlementByPaymentHash h db) as [ent|] eqn:Hg; [|by right].
  destruct (String.eqb_spec (e_key_id ent) (rq_KeyID req)) as [Hk|]; simpl; [|by right].
  destruct (decode_all _) as [msgs|] eqn:Hd; [|by right]. apply decode_all_length in Hd.
  pose proof (consume_by_hash h (Z.of_nat (length msgs)) db ent Hwf ltac:(lia) Hg) as Hcons.
  destruct (ConsumeEntitlement _ _ db) as [res db1]. destruct Hcons as (Hwf1 & Hfr & Hcase).
  destruct (_ <=? e_tokens_remaining ent) eqn:Hle; [|destruct Hcase as [-> ->]; by right].
  destruct Hcase as [-> Hg1]. bprop.
  destruct (SignBlinded keys _ msgs) as [sigs|] eqn:Hs; [|by left]. apply SignBlinded_length in Hs.
  destruct (entitlement_by_id _ _ _ Hwf1 Hg1) as (_ & _ & Hin).
  assert (0 < length msgs)%nat as Hpos.
  { rewrite Hd. destruct (rq_BlindedMessages req); [done|simpl; lia]. }
  assert (GetRedemption (rq_Nonce req) db1 = None) as Hno1 by by rewrite Hfr.
  rewrite InsertRedemption_fresh; [|lia|done|by apply (list_elem_of_fmap_2 e_id) in Hin].
  set (row := mkRedemption _ _ _ _ _ _).
  change (GetEntitlementByPaymentHash h (set_redemptions db1 (redemptions db1 ++ [row])))
    with (GetEntitlementByPaymentHash h db1). rewrite Hg1.
  split; [done|]. exists ent, sigs. cbv zeta. rewrite Hd in *. split_and!; try done; try congruence.
  - unfold GetRedemption in *. simpl. rewrite sql_find_snoc, Hno1. simpl.
    unfold row. by rewrite String.eqb_refl, Hd.
  - simpl. by rewrite Hfr at 1.
Qed.

Lemma redeem_fields_nonempty req h :
  redeem_fields req = Ok h -> rq_BlindedMessages req <> [] /\
  exists p, hex_decode (rq_PaymentPreimage req) = Some p /\ h = hex_encode (sha256 p).
Proof.
  unfold redeem_fields. intros Hf.
  destruct (negb _); [done|]. destruct (hex_decode _) as [p|]; [|done].
  destruct (str_empty _); [done|]. destruct (64 <? _); [done|].
  destruct (Z.eqb_spec (Z.of_nat (length (rq_BlindedMessages req))) 0) as [|Hne]; [done|].
  destruct (_ <? _); [done|]. destruct (str_empty _); simplify_eq.
  split; [|eauto]. intros Hnil. by rewrite Hnil in Hne.
Qed.

(** /redeem signs only what was paid for. A success is either the replay of
    a cached answer, which takes nothing and writes nothing, or it took exactly
    as many tokens as there are signatures from the entitlement of the payment
    whose preimage was shown, under that entitlement's key, and cached them. Any
    refusal other than an internal error writes nothing. *)
Theorem redeem_outcomes keys now method body db (Hwf : db_wf db) :
  match handleRedeem keys now method body db with
  | (Reply code b, db') =>
      exists req p, body = Some req /\ code = StatusOK /\
        hex_decode (rq_PaymentPreimage req) = Some p /\
        let h := hex_encode (sha256 p) in
        match GetRedemption (rq_Nonce req) db with
        | Some row => db' = db /\ rr_BlindSignatures b = r_blind_signatures row /\
            r_request_hash row = computeRequestHash (rq_KeyID req) (rq_BlindedMessages req)
        | None => redeemed keys req h b now db db'
        end
  | (Fault code _, db') => code = StatusInternalServerError \/ db' = db
  end.
Proof.
  unfold handleRedeem. destruct (negb _); [by right|]. destruct body as [req|]; [|by right].
  destruct (redeem_fields req) as [h|] eqn:Hf; [|by right].
  apply redeem_fields_nonempty in Hf as (Hne & p & Hp & ->).
  destruct (GetRedemption (rq_Nonce req) db) as [row|] eqn:Hg.
  - unfold redeem_replay. destruct (String.eqb_spec (r_request_hash row)
      (computeRequestHash (rq_KeyID req) (rq_BlindedMessages req))) as [Heq|]; simpl; [|by right].
    destruct (GetEntitlementByPaymentHash _ db) as [ent|]; [|by left].
    exists req, p. rewrite Hg. done.
  - pose proof (redeem_fresh_cases keys now req (hex_encode (sha256 p)) db Hwf Hg Hne) as Hc.
    destruct (redeem_fresh _ _ _ _ _) as [[code b|code msg] db']; [|done].
    destruct Hc as [-> Hc]. exists req, p. rewrite Hg. done.
Qed.

(** Crash recovery. Repeating a redeem request that succeeded, at any later
    moment the database is unchanged, gives the very same answer, takes no
    further token and writes nothing. *)
Theorem redeem_replay_same keys now now' req b db db'
    (Hwf : db_wf db)
    (Hrun : handleRedeem keys now POST (Some req) db = (Reply StatusOK b, db')) :
  handleRedeem keys now' POST (Some req) db' = (Reply StatusOK b, db').
Proof.
  unfold handleRedeem in *. simpl in *.
  destruct (redeem_fields req) as [h|] eqn:Hf; [|done].
  destruct (GetRedemption (rq_Nonce req) db) as [row|] eqn:Hg.
  { injection Hrun as Hb <-. by rewrite Hg, Hb. }
  apply redeem_fields_nonempty in Hf as (Hne & _).
  pose proof (redeem_fresh_cases keys now req h db Hwf Hg Hne) as Hc. rewrite Hrun in Hc.
  destruct Hc as (_ & ent & sigs & _ & _ & _ & _ & -> & Hg' & Hr' & _).
  rewrite Hr'. unfold redeem_replay. simpl. rewrite String.eqb_refl. simpl. by rewrite Hg'.
Qed.

(** The spend of a token: whether it was the first, and spent afterwards. *)
Lemma MarkSpent_first now id key node db :
  exists db', MarkSpent now id key node db = (Ok (negb (IsSpent id db)), db') /\
    IsSpent id db' = true /\ db' = set_spent_tokens db (spent_tokens db').
Proof.
  destruct (MarkSpent_spec now id key node db) as [Hs Hn]. destruct (IsSpent id db) eqn:Hsp.
  - exists db. rewrite Hs by by apply IsSpent_spec. by rewrite set_same_spent.
  - eexists. rewrite Hn by (rewrite <-IsSpent_spec; congruence). split_and!; [done| |done].
    apply IsSpent_spec. unfold spent_in. simpl. rewrite fmap_app. apply elem_of_app. right. by left.
Qed.

(** A complete request for a token: refused as invalid, or its verdict. *)
Lemma spend_complete keys now req secret sg db :
  str_empty (sq_KeyID req) = false -> str_empty (sq_TokenSecret req) = false ->
  str_empty (sq_Signature req) = false -> str_empty (sq_NodePubkey req) = false ->
  hex_decode (sq_TokenSecret req) = Some secret -> hex_decode (sq_Signature req) = Some sg ->
  let token := mkBlindToken BlindTokenVersion (sq_KeyID req) secret sg in
  (exists msg, handleSpend keys now POST (Some req) db = (Fault StatusUnauthorized msg, db)) \/
  (exists bytes db', BlindVerifier_Verify keys (Some token) = Ok tt /\
     handleSpend keys now POST (Some req) db =
       (Reply StatusOK (mkSpendR (negb (IsSpent (TokenID token) db)) bytes), db') /\
     IsSpent (TokenID token) db' = true /\ db' = set_spent_tokens db (spent_tokens db')).
Proof.
  intros Hk Ht Hs Hn Hd Hg token. unfold handleSpend. rewrite (bool_decide_true (POST = POST)) by done. cbn [negb].
  rewrite Hk, Ht, Hs, Hn, Hd, Hg. fold token.
  destruct (BlindVerifier_Verify keys (Some token)) as [[]|]; [|left; eauto].
  destruct (MarkSpent_first now (TokenID token) (sq_KeyID req) (sq_NodePubkey req) db)
    as (db1 & Hm & Hsp & Hdb).
  rewrite Hm. right. eexists _, db1. split_and!; [done|reflexivity|exact Hsp|exact Hdb].

Qed.

(** /spend. A success means the signature verified under a known key; the
    answer says whether this is the token's first spend, the token is spent
    afterwards and no other table changes. Any refusal writes nothing. *)
Theorem spend_outcomes keys now method body db :
  match handleSpend keys now method body db with
  | (Reply code b, db') =>
      exists req secret sg, body = Some req /\ code = StatusOK /\
        hex_decode (sq_TokenSecret req) = Some secret /\ hex_decode (sq_Signature req) = Some sg /\
        let token := mkBlindToken BlindTokenVersion (sq_KeyID req) secret sg in
        BlindVerifier_Verify keys (Some token) = Ok tt /\
        sp_FirstSpend b = negb (IsSpent (TokenID token) db) /\
        IsSpent (TokenID token) db' = true /\
        db' = set_spent_tokens db (spent_tokens db')
  | (Fault _ _, db') => db' = db
  end.
Proof.
  destruct (decide (method = POST)) as [->|Hm]; [|unfold handleSpend; by rewrite bool_decide_false].
  destruct body as [req|]; [|done].
  destruct (str_empty (sq_KeyID req)) eqn:Hk; [unfold handleSpend; by rewrite Hk|].
  destruct (str_empty (sq_TokenSecret req)) eqn:Ht; [unfold handleSpend; by rewrite Hk, Ht|].
  destruct (str_empty (sq_Signature req)) eqn:Hs; [unfold handleSpend; by rewrite Hk, Ht, Hs|].
  destruct (str_empty (sq_NodePubkey req)) eqn:Hn; [unfold handleSpend; by rewrite Hk, Ht, Hs, Hn|].
  destruct (hex_decode (sq_TokenSecret req)) as [secret|] eqn:Hd;
    [|unfold handleSpend; by rewrite Hk, Ht, Hs, Hn, Hd].
  destruct (hex_decode (sq_Signature req)) as [sg|] eqn:Hg;
    [|unfold handleSpend; by rewrite Hk, Ht, Hs, Hn, Hd, Hg].
  destruct (spend_complete keys now req secret sg db Hk Ht Hs Hn Hd Hg)
    as [[msg ->]|(bytes & db1 & Hv & -> & Hsp & Hdb)]; [done|].
  exists req, secret, sg. by split_and!.
Qed.
End redeem.

(** ** Settling a purchase *)
Lemma count_tickets_zero h db :
  CountTicketsByPaymentHash h db = 0 -> bfilter (ticket_for h) (tickets db) = [].
Proof.
  unfold CountTicketsByPaymentHash, sql_count. intros Hc.
  destruct (bfilter (ticket_for h) (tickets db)); [done|simpl in Hc; lia].
Qed.

Lemma ticket_rows_for now h ts : bfilter (ticket_for h) (ticket_row now h <$> ts) = ticket_row now h <$> ts.
Proof.
  induction ts as [|t ts IH]; [done|]. rewrite fmap_cons, bfilter_cons.
  unfold ticket_for at 1. simpl. by rewrite String.eqb_refl, IH.
Qed.

Lemma zsum_rows now h ts : zsum_by t_bytes_value (ticket_row now h <$> ts) = zsum_by tk_Bytes ts.
Proof. unfold zsum_by. by rewrite <-list_fmap_compose. Qed.

(** Steps 1 to 5, when they issue. *)
Lemma settle_tickets_issued issue now h db tier db1 :
  db_wf db -> settle_tickets issue now h db = (Ok (Some tier), db1) ->
  exists inv ts,
    GetInvoice h db = Ok inv /\ i_status inv <> InvExpired /\ LookupTier (i_tier inv) = Ok tier /\
    issue h (tier_TicketBytes tier) (tier_TicketCount tier) = Ok ts /\
    (exists inv', GetInvoice h db1 = Ok inv' /\ i_status inv' = InvSettled) /\
    tickets db1 = tickets db ++ (ticket_row now h <$> ts) /\
    bfilter (ticket_for h) (tickets db) = [] /\ entitlements db1 = entitlements db /\ db_wf db1.
Proof.
  intros Hwf Hrun. unfold settle_tickets in Hrun.
  destruct (0 <? CountTicketsByPaymentHash h db) eqn:Hc; [done|].
  assert (CountTicketsByPaymentHash h db = 0) as Hzero.
  { unfold CountTicketsByPaymentHash in *. bprop. lia. }
  apply count_tickets_zero in Hzero.
  pose proof (SettleInvoice_cases now h db Hwf) as Hset.
  pose proof (run_op_wf (OSettleInvoice now h) db Hwf) as Hwf0. simpl in Hwf0.
  destruct (SettleInvoice now h db) as [[[]|e] db0] eqn:Hsi; [|done]. simpl in Hwf0.
  assert (exists inv inv0, GetInvoice h db = Ok inv /\ i_status inv <> InvExpired /\
    GetInvoice h db0 = Ok inv0 /\ i_status inv0 = InvSettled /\ i_tier inv0 = i_tier inv /\
    tickets db0 = tickets db /\ entitlements db0 = entitlements db)
    as (inv & inv0 & Hg & Hst & Hg0 & Hst0 & Htier & Htk & Hent).
  { unfold GetInvoice, of_row. destruct (sql_find (hash_is h) (invoices db)) as [r|] eqn:Hf; [|done].
    destruct (i_status r) eqn:Hs; [|simplify_eq|done].
    - simpl in Hset. destruct Hset as (_ & Hf0 & ->). exists r, (settle_row now r).
      rewrite Hf0. repeat (split; [done || congruence|]). done.
    - exists r, r. rewrite Hf. repeat (split; [done || congruence|]). done. }
  rewrite Hg0, Htier in Hrun. destruct (LookupTier (i_tier inv)) as [tr|] eqn:Ht; [|done].
  destruct (issue h _ _) as [ts|] eqn:Hi; [|done].
  pose proof (insert_tickets_tx_cases now h ts db0) as Hb.
  pose proof (run_op_wf (OInsertTicketsBatch now h ts) db0 Hwf0) as Hwf1. simpl in Hwf1.
  unfold InsertTicketsBatch in *. destruct (insert_tickets_tx now h ts db0) as [d|]; simplify_eq.
  destruct Hb as [_ ->]. exists inv, ts. split_and!; try done.
  - by exists inv0.
  - simpl. by rewrite Htk.
Qed.

(** Once tickets exist, every later settlement event changes nothing. *)
Lemma settled_again issue blindKeyID now h db :
  bfilter (ticket_for h) (tickets db) <> [] -> onInvoiceSettled issue blindKeyID now h db = (Ok tt, db).
Proof.
  intros Hne. unfold onInvoiceSettled, settle_tickets.
  assert (0 <? CountTicketsByPaymentHash h db = true) as ->; [|done].
  unfold CountTicketsByPaymentHash, sql_count. apply Z.ltb_lt.
  destruct (bfilter (ticket_for h) (tickets db)); [done|simpl; lia].
Qed.

Lemma settle_entitlement_facts key now h tier db1 db' db :
  settle_entitlement (Some key) now h tier db1 = (Ok tt, db') ->
  entitlements db1 = entitlements db ->
  tier_TicketCount tier * tier_TicketBytes tier = tier_Bytes tier ->
  exists e, GetEntitlementByPaymentHash h db' = Ok e /\
    (is_ok (GetEntitlementByPaymentHash h db) = false ->
     e_key_id e = key /\ e_tokens_remaining e * e_bytes_per_token e = tier_Bytes tier).
Proof.
  unfold settle_entitlement, InsertEntitlement. intros Hrun Hent Hbytes.
  destruct (sql_insert _ _ _ _ (entitlements db1)) as [t|e] eqn:Hi; simpl in Hrun.
  - simplify_eq. apply sql_insert_Ok in Hi as (-> & _).
    unfold GetEntitlementByPaymentHash. simpl. rewrite Hent, sql_find_snoc.
    destruct (sql_find _ (entitlements db)) as [x|]; simpl.
    + by exists x.
    + unfold entitlement_for. simpl. rewrite String.eqb_refl. eexists. split; [done|]. done.
  - unfold GetEntitlementByPaymentHash in *. simpl in *.
    destruct (sql_find _ (entitlements db1)) as [x|] eqn:Hf; simpl in Hrun; simplify_eq.
    simpl. rewrite Hf. exists x. split; [done|]. rewrite <-Hent, Hf. done.
Qed.

(** A paid invoice. When the settlement callback succeeds on an invoice with
    no tickets yet, the invoice was open or settled and is settled, exactly its
    tier's tickets exist for it and their bytes add up to the bytes bought, an
    entitlement exists when blind signatures are on (worth the same bytes, when
    it is new), and any repetition of the event does nothing. *)
Theorem invoice_settled_outcome hmac hi rand now1 now2 blindKeyID now h db db'
    (Hwf : db_wf db) (Hnew : CountTicketsByPaymentHash h db = 0)
    (Hrun : onInvoiceSettled (Issue hmac hi rand now1 now2) blindKeyID now h db = (Ok tt, db')) :
  exists inv tier,
    GetInvoice h db = Ok inv /\ i_status inv <> InvExpired /\ LookupTier (i_tier inv) = Ok tier /\
    (exists inv', GetInvoice h db' = Ok inv' /\ i_status inv' = InvSettled) /\
    CountTicketsByPaymentHash h db' = tier_TicketCount tier /\
    zsum_by t_bytes_value (bfilter (ticket_for h) (tickets db')) = tier_Bytes tier /\
    (forall key, blindKeyID = Some key -> exists e, GetEntitlementByPaymentHash h db' = Ok e /\
       (is_ok (GetEntitlementByPaymentHash h db) = false ->
        e_key_id e = key /\ e_tokens_remaining e * e_bytes_per_token e = tier_Bytes tier)) /\
    forall issue bk now', onInvoiceSettled issue bk now' h db' = (Ok tt, db').
Proof.
  unfold onInvoiceSettled in Hrun.
  destruct (settle_tickets _ now h db) as [[[tier|]|e] db1] eqn:Hs; [| |done].
  2: { unfold settle_tickets in Hs. rewrite Hnew in Hs. simpl in Hs. repeat case_match; simplify_eq. }
  apply settle_tickets_issued in Hs as (inv & ts & Hg & Hst & Ht & Hi & Hinv & Htk & Hno & Hent & Hwf1); [|done].
  apply Issue_batch in Hi as (Hlen & Hsum & _ & _).
  destruct (tiers_consistent _ _ Ht) as (_ & Hbytes & [Hcount _] & _).
  assert (tickets db' = tickets db1 /\ invoices db' = invoices db1) as [Htk' Hinv'].
  { unfold settle_entitlement, InsertEntitlement in Hrun. destruct blindKeyID as [key|]; [|by simplify_eq].
    destruct (exec_insert _ _) as [[[]|] t]; [by simplify_eq|].
    destruct (GetEntitlementByPaymentHash h _); by simplify_eq. }
  assert (bfilter (ticket_for h) (tickets db') = ticket_row now h <$> ts) as Hrows.
  { by rewrite Htk', Htk, bfilter_app, Hno, ticket_rows_for. }
  exists inv, tier. split_and!; try done.
  - unfold GetInvoice in *. by rewrite Hinv'.
  - unfold CountTicketsByPaymentHash, sql_count. by rewrite Hrows, length_fmap.
  - rewrite Hrows, zsum_rows, Hsum. lia.
  - intros key ->. by eapply settle_entitlement_facts.
  - intros issue bk now'. apply settled_again. rewrite Hrows.
    destruct ts; [simpl in Hlen; lia|done].
Qed.

(** ** Rate limiting over time *)

(** Requests with their times and addresses; the ones let through. *)
Fixpoint rl_run (rl : gmap string (list Z)) (reqs : list (Z * string)) : list (Z * string) :=
  match reqs with
  | [] => []
  | (t, ip) :: rest =>
      let '(ok, rl') := checkRateLimit t ip rl in
      (if ok then [(t, ip)] else []) ++ rl_run rl' rest
  end.
Definition times_of (ip : string) (l : list (Z * string)) : list Z :=
  (bfilter (fun r => String.eqb (r.2) ip) l).*1.
(** Times in the window of length [rateWindow] that ends at [t]. *)
Definition in_window (t : Z) (l : list Z) : nat :=
  length (bfilter (fun x => (t - rateWindow <? x) && (x <=? t)) l).

(** The table remembers every acceptance that can still count. *)
Definition rl_inv (T : Z) (acc : list (Z * string)) (rl : gmap string (list Z)) : Prop :=
  forall ip,
    (exists d, times_of ip acc = d ++ default [] (rl !! ip) /\ Forall (fun x => x <= T - rateWindow) d) /\
    Forall (fun x => x <= T) (times_of ip acc) /\
    forall t, Z.of_nat (in_window t (times_of ip acc)) <= maxRequests.

Lemma times_of_app ip l l' : times_of ip (l ++ l') = times_of ip l ++ times_of ip l'.
Proof. unfold times_of. by rewrite bfilter_app, fmap_app. Qed.
Lemma in_window_app t l l' : in_window t (l ++ l') = (in_window t l + in_window t l')%nat.
Proof. unfold in_window. by rewrite bfilter_app, length_app. Qed.

Lemma bfilter_none {A} (p : A -> bool) l : Forall (fun x => p x = false) l -> bfilter p l = [].
Proof. induction 1 as [|x l Hx _ IH]; [done|]. by rewrite bfilter_cons, Hx. Qed.
Lemma bfilter_length_le {A} (p q : A -> bool) l :
  (forall x, x ∈ l -> p x = true -> q x = true) -> (length (bfilter p l) <= length (bfilter q l))%nat.
Proof.
  induction l as [|x l IH]; intros Himp; [done|]. rewrite !bfilter_cons.
  assert (length (bfilter p l) <= length (bfilter q l))%nat.
  { apply IH. intros y Hy. apply Himp. by right. }
  destruct (p x) eqn:Hp; [rewrite (Himp x) by (done || by left); simpl; lia|].
  destruct (q x); simpl; lia.
Qed.
Lemma bfilter_split_drop {A} (p : A -> bool) l :
  bfilter p l ⊆+ l.
Proof. apply sublist_submseteq. induction l as [|x l IH]; [done|]. rewrite bfilter_cons. destruct (p x); by constructor. Qed.

Lemma rl_inv_later T T' acc rl : T <= T' -> rl_inv T acc rl -> rl_inv T' acc rl.
Proof.
  intros HT Hinv ip. destruct (Hinv ip) as ((d & Hd & Hold) & Hle & Hw). split_and!; [|by eapply Forall_impl; [done|simpl; lia]|done].
  exists d. split; [done|]. eapply Forall_impl; [done|]. simpl. lia.
Qed.

(** Sorted histories keep the fresh part as a suffix. *)
Definition ascending (l : list Z) : Prop := StronglySorted Z.le l.

Lemma fresh_suffix cutoff l :
  ascending l -> exists d, l = d ++ bfilter (fun x => cutoff <? x) l /\ Forall (fun x => x <= cutoff) d.
Proof.
  induction 1 as [|x l Hs IH Hx]; [by exists []|]. rewrite bfilter_cons.
  destruct (Z.ltb_spec cutoff x) as [Hlt|Hge].
  - exists []. split; [|done]. simpl. f_equal. symmetry.
    clear -Hx Hlt. induction Hx as [|y l Hy _ IH]; [done|]. rewrite bfilter_cons.
    rewrite (proj2 (Z.ltb_lt cutoff y)) by lia. by f_equal.
  - destruct IH as (d & Hd & Hall). exists (x :: d). split; [simpl; by f_equal|by constructor].
Qed.

Lemma ascending_snoc l x : ascending l -> Forall (fun y => y <= x) l -> ascending (l ++ [x]).
Proof.
  intros Hs Hx. induction Hs as [|y l Hs IH Hy]; simpl; [by repeat constructor|].
  apply Forall_cons in Hx as [Hyx Hx]. constructor; [by apply IH|]. apply Forall_app. by repeat constructor.
Qed.

Lemma ascending_suffix d l : ascending (d ++ l) -> ascending l.
Proof. induction d as [|x d IH]; simpl; [done|]. intros Hs. inversion Hs; auto. Qed.

Lemma rl_step now ip T acc rl :
  T <= now -> rl_inv T acc rl -> (forall ip, ascending (times_of ip acc)) ->
  let '(ok, rl') := checkRateLimit now ip rl in
  let acc' := acc ++ (if ok then [(now, ip)] else []) in
  rl_inv now acc' rl' /\ forall ip, ascending (times_of ip acc').
Proof.
  intros HT Hinv Hasc. apply (rl_inv_later T now) in Hinv; [|done].
  unfold checkRateLimit. set (fresh := bfilter _ _).
  destruct (Z.leb_spec maxRequests (Z.of_nat (length fresh))) as [|Hroom]; [by rewrite app_nil_r|].
  assert (forall ip', times_of ip' [(now, ip)] = if String.eqb ip ip' then [now] else []) as Hnew.
  { intros ip'. unfold times_of. simpl. by destruct (String.eqb ip ip'). }
  split.
  - intros ip'. rewrite times_of_app, Hnew. destruct (Hinv ip') as ((d & Hd & Hold) & Hle & Hw).
    destruct (String.eqb_spec ip ip') as [<-|Hne].
    2: { rewrite app_nil_r, lookup_insert_ne by done. split_and!; [by exists d|done|done]. }
    rewrite lookup_insert_eq. simpl.
    destruct (fresh_suffix (now - rateWindow) (default [] (rl !! ip))) as (d2 & Hd2 & Hold2).
    { eapply ascending_suffix. rewrite <-Hd. apply Hasc. }
    fold fresh in Hd2.
    assert (times_of ip acc = (d ++ d2) ++ fresh) as Hsplit by (by rewrite <-app_assoc, <-Hd2).
    split_and!.
    + exists (d ++ d2). rewrite Hsplit, <-app_assoc. split; [done|]. by apply Forall_app.
    + apply Forall_app. split; [done|]. by repeat constructor.
    + intros t. rewrite in_window_app. destruct (Z.le_gt_cases now t) as [Hge|Hlt].
      * rewrite Hsplit, in_window_app.
        assert (in_window t (d ++ d2) = 0%nat) as ->.
        { unfold in_window. rewrite bfilter_none; [done|]. apply Forall_app.
          split; (eapply Forall_impl; [eassumption|]); simpl; intros x Hx; apply andb_false_iff; left;
            apply Z.ltb_ge; lia. }
        assert (in_window t fresh <= length fresh)%nat.
        { unfold in_window. apply submseteq_length, bfilter_split_drop. }
        assert (in_window t [now] <= 1)%nat.
        { unfold in_window. apply (submseteq_length _ [now]), bfilter_split_drop. }
        lia.
      * assert (in_window t [now] = 0%nat) as ->; [|rewrite Nat.add_0_r; apply Hw].
        unfold in_window. rewrite bfilter_cons, (proj2 (Z.leb_gt now t)), andb_false_r by lia. done.
  - intros ip'. rewrite times_of_app, Hnew. destruct (String.eqb_spec ip ip') as [<-|]; [|by rewrite app_nil_r].
    apply ascending_snoc; [done|]. by destruct (Hinv ip) as (_ & ? & _).
Qed.

(** The rate limit. Whatever requests arrive (with a clock that does not run
    backwards), no hour-long window contains more than ten accepted requests
    from one address. *)
Theorem rate_limit_window reqs ip t
    (Hclock : StronglySorted Z.le (reqs.*1)) :
  Z.of_nat (in_window t (times_of ip (rl_run ∅ reqs))) <= maxRequests.
Proof.
  assert (forall T acc rl, rl_inv T acc rl -> (forall ip, ascending (times_of ip acc)) ->
    Forall (fun x => T <= x) (reqs.*1) ->
    Z.of_nat (in_window t (times_of ip (acc ++ rl_run rl reqs))) <= maxRequests) as Hgen.
  { induction reqs as [|[now ip'] reqs IH]; simpl; intros T acc rl Hinv Hasc Hall.
    - rewrite app_nil_r. by destruct (Hinv ip) as (_ & _ & ?).
    - csimpl in *. inversion Hclock as [|? ? Hs Hnext]; subst. apply Forall_cons in Hall as [HT _].
      pose proof (rl_step now ip' T acc rl HT Hinv Hasc) as Hstep.
      destruct (checkRateLimit now ip' rl) as [ok rl']. destruct Hstep as [Hinv' Hasc'].
      rewrite app_assoc. by apply (IH Hs now). }
  destruct reqs as [|[now ip'] reqs]; [done|].
  apply (Hgen now [] ∅); [|intros; constructor|].
  - intros ip2. rewrite lookup_empty. split_and!; [by exists []|constructor|done].
  - csimpl in *. inversion Hclock; subst. by constructor.
Qed.

Lemma rate_limit_window_witness :
  let reqs := (fun i => (i, "1.2.3.4"%string)) <$> seqZ 0 12 in
  length (rl_run ∅ reqs) = 10%nat /\
  Z.of_nat (in_window 11 (times_of "1.2.3.4" (rl_run ∅ reqs))) <= maxRequests.
Proof.
  cbv zeta. split; [vm_compute; reflexivity|].
  apply rate_limit_window. vm_compute. repeat constructor; discriminate.
Defined.

(** ** What settlement and delivery do not achieve *)

(** The hub stopped after the tickets were committed and before the entitlement
    was: every later settlement event finds the tickets and returns without
    creating it, so /redeem answers 404 for the payment. *)
Theorem entitlement_lost_after_crash issue now h db tier db1
    (Hwf : db_wf db) (Hent : is_ok (GetEntitlementByPaymentHash h db) = false)
    (Hpos : 0 < tier_TicketCount tier)
    (Hissue : forall b n ts, issue h b n = Ok ts -> Z.of_nat (length ts) = n)
    (Hrun : settle_tickets issue now h db = (Ok (Some tier), db1)) :
  forall bk now', onInvoiceSettled issue bk now' h db1 = (Ok tt, db1) /\
                  is_ok (GetEntitlementByPaymentHash h db1) = false.
Proof.
  apply settle_tickets_issued in Hrun as (inv & ts & _ & _ & _ & Hi & _ & Htk & Hno & He & _); [|done].
  intros bk now'. split.
  - apply settled_again. rewrite Htk, bfilter_app, Hno, ticket_rows_for.
    apply Hissue in Hi. destruct ts; [simpl in Hi; lia|done].
  - unfold GetEntitlementByPaymentHash in *. by rewrite He.
Qed.

Lemma entitlement_lost_after_crash_witness :
  let db := run_ops [OInsertInvoice "t0" "ph" "lnbc1" 500 "1gb" 1000000000 "t1" "1.2.3.4"] empty_db in
  let rand := fun i => Some (String (ascii_of_nat i) "123456789abcdef") in
  let issue := Issue demo_hmac demo_issuer rand 1000000000 1000000000 in
  exists tier db1, settle_tickets issue "t1" "ph" db = (Ok (Some tier), db1) /\
    onInvoiceSettled issue (Some "k"%string) "t2" "ph" db1 = (Ok tt, db1).
Proof.
  cbv zeta. do 2 eexists. split; [vm_compute; reflexivity|].
  match goal with |- onInvoiceSettled ?f _ _ _ _ = _ =>
    refine (proj1 (entitlement_lost_after_crash f "t1" "ph"
      (run_ops [OInsertInvoice "t0" "ph" "lnbc1" 500 "1gb" 1000000000 "t1" "1.2.3.4"] empty_db)
      _ _ ?[wf] ?[ent] ?[pos] ?[iss] ?[run] (Some "k"%string) "t2")) end.
  [run]: { vm_compute. reflexivity. }
  [wf]: { apply (steps_wf empty_db); [apply run_ops_steps|apply empty_db_wf]. }
  [ent]: { vm_compute. reflexivity. }
  [pos]: { vm_compute. reflexivity. }
  [iss]: { intros b n ts Hi. apply Issue_batch in Hi as [Hi _]. exact Hi. }
Defined.

(** What GET /purchase delivers cannot be redeemed: the conversion from the
    ticket rows drops the key ID and both times the MAC covers, so every
    verifier refuses every delivered ticket. *)
Theorem delivered_tickets_rejected hmac keys now records t
    (Hin : t ∈ ticketRecordsToCredentials records) :
  is_ok (HMACVerifier_Verify hmac keys now (Some t)) = false.
Proof.
  apply list_elem_of_fmap in Hin as (r & -> & _). unfold HMACVerifier_Verify, ValidateStructure. simpl.
  by destruct (str_empty (t_id r)).
Qed.

Lemma delivered_tickets_rejected_witness :
  let row := mkTicket "a" "ph" 100 "mac" TActive "t0" None None in
  is_ok (HMACVerifier_Verify demo_hmac ∅ 5 (Some (mkTkt "a" "" 100 0 0 "mac"))) = false.
Proof.
  cbv zeta. apply (delivered_tickets_rejected demo_hmac ∅ 5
    [mkTicket "a" "ph" 100 "mac" TActive "t0" None None]). left.
Defined.

(** ** The request hash *)
Section request_hash.
Context `{BlindScheme}.

(** The idempotency hash binds the whole redeem request: when SHA-256 does
    not collide on the two inputs, equal hashes mean the same key and the same
    messages in the same order (neither contains the separator: messages are
    hex, key IDs are configured without it). *)
Theorem request_hash_binds k1 k2 l1 l2
    (Hk1 : char_free "|" k1 = true) (Hk2 : char_free "|" k2 = true)
    (Hl1 : l1 <> [] /\ forallb (char_free "|") l1 = true)
    (Hl2 : l2 <> [] /\ forallb (char_free "|") l2 = true)
    (Hcoll : forall a b, a ∈ [k1 ++ "|" ++ join "|" l1; k2 ++ "|" ++ join "|" l2]%string ->
                         b ∈ [k1 ++ "|" ++ join "|" l1; k2 ++ "|" ++ join "|" l2]%string ->
                         sha256 a = sha256 b -> a = b)
    (Heq : computeRequestHash k1 l1 = computeRequestHash k2 l2) :
  k1 = k2 /\ l1 = l2.
Proof.
  unfold computeRequestHash in Heq. apply (f_equal hex_decode) in Heq.
  rewrite !hex_decode_encode in Heq. simplify_eq.
  apply Hcoll in Heq; [|set_solver..].
  apply sep_inj in Heq as [-> Hj]; [|done..]. split; [done|].
  destruct Hl1, Hl2. rewrite <-(split_join "|" l1), <-(split_join "|" l2) by done.
  by rewrite Hj.
Qed.
End request_hash.

(** ** Concrete requests *)
#[export] Instance toy_blind : BlindScheme := {|
  PrivateKey := unit;
  PublicKey := unit;
  sha256 := fun s => pad32 s;
  fdh_Sum := fun s => s;
  rsablind_Blind := fun _ m r => Some (m, r);
  rsablind_BlindSign := fun _ m => Some m;
  rsablind_Unblind := fun _ s _ => s;
  rsablind_Verify := fun _ m s => String.eqb m s
|}.
Definition toy_denoms : gmap string DenominationKey :=
  key_map [mkDenomKey "key-1" 100000000 (Some tt) tt].
Definition toy_preimage : string := hex_encode (pad32 "preimage").
Definition toy_hash_of_preimage : string := hex_encode (pad32 (pad32 "preimage")).
Definition toy_entitled : DB :=
  run_ops [ OInsertInvoice "t0" toy_hash_of_preimage "lnbc1" 500 "1gb" 1000000000 "t1" "1.2.3.4";
            OSettleInvoice "t0" toy_hash_of_preimage;
            OInsertEntitlement "t0" "ent" toy_hash_of_preimage 5 100000000 "key-1" ] empty_db.
Definition toy_redeem : RedeemRequest := mkRedeem toy_preimage "key-1" ["aa"; "bb"] "nonce-1".

Lemma toy_entitled_wf : db_wf toy_entitled.
Proof. apply (steps_wf empty_db); [apply run_ops_steps|apply empty_db_wf]. Qed.

Definition toy_redeemed : reply RedeemResponse * DB :=
  handleRedeem toy_denoms "t5" POST (Some toy_redeem) toy_entitled.
Definition toy_body : RedeemResponse := mkRedeemed ["aa"; "bb"] 100000000 2 3.

Lemma redeem_outcomes_witness :
  exists db', handleRedeem toy_denoms "t5" POST (Some toy_redeem) toy_entitled = (Reply StatusOK toy_body, db') /\
    exists req p, Some toy_redeem = Some req /\ hex_decode (rq_PaymentPreimage req) = Some p.
Proof.
  eexists. assert (handleRedeem toy_denoms "t5" POST (Some toy_redeem) toy_entitled
    = (Reply StatusOK toy_body, toy_redeemed.2)) as Hrun by (vm_compute; reflexivity).
  split; [exact Hrun|].
  pose proof (redeem_outcomes toy_denoms "t5" POST (Some toy_redeem) toy_entitled toy_entitled_wf) as Ho.
  rewrite Hrun in Ho. destruct Ho as (req & p & Hreq & _ & Hp & _). exists req, p. split; [exact Hreq|exact Hp].
Defined.

Lemma redeem_replay_same_witness :
  handleRedeem toy_denoms "t9" POST (Some toy_redeem) toy_redeemed.2
    = (Reply StatusOK toy_body, toy_redeemed.2).
Proof.
  apply (redeem_replay_same toy_denoms "t5" "t9" toy_redeem toy_body toy_entitled toy_redeemed.2).
  - exact toy_entitled_wf.
  - vm_compute. reflexivity.
Defined.

Lemma request_hash_binds_witness :
  "key-1"%string = "key-1"%string /\ ["aa"; "bb"]%string = ["aa"; "bb"]%string.
Proof.
  apply request_hash_binds; try (vm_compute; (reflexivity || (split; [discriminate|reflexivity]))).
  intros a b Ha Hb _. apply elem_of_cons in Ha as [->|Ha%list_elem_of_singleton];
    apply elem_of_cons in Hb as [->|Hb%list_elem_of_singleton]; subst; reflexivity.
Defined.

Definition toy_invoice_db : DB :=
  run_ops [OInsertInvoice "t0" "ph" "lnbc1" 500 "1gb" 1000000000 "t1" "1.2.3.4"] empty_db.
Definition toy_rand (i : nat) : option string := Some (String (ascii_of_nat i) "123456789abcdef").

Lemma invoice_settled_outcome_witness :
  exists db', onInvoiceSettled (Issue demo_hmac demo_issuer toy_rand 1000000000 1000000000)
      (Some "key-1"%string) "t1" "ph" toy_invoice_db = (Ok tt, db') /\
    exists inv tier, GetInvoice "ph" toy_invoice_db = Ok inv /\ LookupTier (i_tier inv) = Ok tier /\
      CountTicketsByPaymentHash "ph" db' = tier_TicketCount tier.
Proof.
  eexists. assert (onInvoiceSettled (Issue demo_hmac demo_issuer toy_rand 1000000000 1000000000)
      (Some "key-1"%string) "t1" "ph" toy_invoice_db = (Ok tt, _)) as Hrun by (vm_compute; reflexivity).
  split; [exact Hrun|].
  edestruct (invoice_settled_outcome demo_hmac demo_issuer toy_rand 1000000000 1000000000
    (Some "key-1"%string) "t1" "ph" toy_invoice_db) as (inv & tier & Hg & _ & Ht & _ & Hc & _).
  - apply (steps_wf empty_db); [apply run_ops_steps|apply empty_db_wf].
  - vm_compute. reflexivity.
  - exact Hrun.
  - exists inv, tier. split; [exact Hg|]. split; [exact Ht|exact Hc].
Defined.
