(* ===== verification/Peers.v ===== *)
(** * Peers: what the node daemon controls
    (src/internal/wg/wg.go, wg/mock.go, quota/quota.go, quota/nftables_linux.go)

    The interfaces [wg.Manager] and [quota.Enforcer] as classes with the laws
    the control server relies on, and the implementations of them that are Go
    code of this repository: the in-memory MockManager, and the nftables
    enforcer over the [nft] command, which stays a parameter. *)
From S2P Require Import Prelude.

(** ** wg.Manager *)
Record PeerConfig := mkPeer {
  pc_PublicKey : string;
  pc_Endpoint : string;
  pc_AllowedIPs : list string;
  pc_Keepalive : Z
}.
(** Byte counters and the last handshake (nanoseconds; the zero time of a peer
    that never completed one). *)
Record PeerStats := mkStats {
  ps_PublicKey : string;
  ps_ReceiveBytes : Z;
  ps_TransmitBytes : Z;
  ps_TotalBytes : Z;
  ps_LastHandshake : Z
}.
Definition zero_time : Z := -62135596800 * 1000000000.

(** [wg_peers iface w] is what the device accepts: each peer's key with the
    addresses it may use. [GetPeerStats] reads the clock. *)
Class WgManager (W : Type) := {
  wg_AddPeer : string -> PeerConfig -> W -> result string unit * W;
  wg_RemovePeer : string -> string -> W -> result string unit * W;
  wg_GetPeerStats : Z -> string -> W -> result string (list PeerStats);
  wg_peers : string -> W -> gmap string (list string)
}.

(** A failed call changes nothing; adding a peer replaces its own addresses
    and gives none to the others (the kernel may take some from them). *)
Class WgManagerLaws (W : Type) `{WgManager W} := {
  law_add_err iface p w e w' :
    wg_AddPeer iface p w = (Err e, w') -> wg_peers iface w' = wg_peers iface w;
  law_add_self iface p w w' :
    wg_AddPeer iface p w = (Ok tt, w') ->
    wg_peers iface w' !! pc_PublicKey p = Some (pc_AllowedIPs p);
  law_add_others iface p w w' k l :
    wg_AddPeer iface p w = (Ok tt, w') -> k <> pc_PublicKey p ->
    wg_peers iface w' !! k = Some l ->
    exists l0, wg_peers iface w !! k = Some l0 /\ l ⊆ l0;
  law_add_keeps iface p w w' k :
    wg_AddPeer iface p w = (Ok tt, w') -> is_Some (wg_peers iface w !! k) ->
    is_Some (wg_peers iface w' !! k);
  law_remove_ok iface k w w' :
    wg_RemovePeer iface k w = (Ok tt, w') -> wg_peers iface w' = delete k (wg_peers iface w);
  law_remove_err iface k w e w' :
    wg_RemovePeer iface k w = (Err e, w') -> wg_peers iface w' = wg_peers iface w
}.

(** ** MockManager *)
Record mockPeer := mkMockPeer { mp_config : PeerConfig; mp_receive : Z; mp_transmit : Z }.
Definition MockManager : Type := gmap string (gmap string mockPeer).

Definition not_found (kind name : string) : string := (kind ++ " " ++ name ++ " not found")%string.

Definition NewMockManager : MockManager := ∅.

Definition Mock_CreateInterface (name : string) (m : MockManager) : result string unit * MockManager :=
  match m !! name with
  | Some _ => (Err ("interface " ++ name ++ " already exists")%string, m)
  | None => (Ok tt, <[name := ∅]> m)
  end.

Definition Mock_DeleteInterface (name : string) (m : MockManager) : result string unit * MockManager :=
  match m !! name with
  | None => (Err (not_found "interface" name), m)
  | Some _ => (Ok tt, delete name m)
  end.

Definition Mock_AddPeer (iface : string) (peer : PeerConfig) (m : MockManager) :
    result string unit * MockManager :=
  match m !! iface with
  | None => (Err (not_found "interface" iface), m)
  | Some peers => (Ok tt, <[iface := <[pc_PublicKey peer := mkMockPeer peer 0 0]> peers]> m)
  end.

Definition Mock_RemovePeer (iface pubkey : string) (m : MockManager) :
    result string unit * MockManager :=
  match m !! iface with
  | None => (Err (not_found "interface" iface), m)
  | Some peers =>
      match peers !! pubkey with
      | None => (Err (not_found "peer" pubkey), m)
      | Some _ => (Ok tt, <[iface := delete pubkey peers]> m)
      end
  end.

(** The mock reports a handshake just now for every peer. *)
Definition mock_stats (now : Z) (p : mockPeer) : PeerStats :=
  mkStats (pc_PublicKey (mp_config p)) (mp_receive p) (mp_transmit p)
    (mp_receive p +i mp_transmit p) now.
Definition Mock_GetPeerStats (now : Z) (iface : string) (m : MockManager) :
    result string (list PeerStats) :=
  match m !! iface with
  | None => Err (not_found "interface" iface)
  | Some peers => Ok (mock_stats now ∘ snd <$> map_to_list peers)
  end.

Definition SimulateTraffic (iface pubkey : string) (rx tx : Z) (m : MockManager) :
    result string unit * MockManager :=
  match m !! iface with
  | None => (Err (not_found "interface" iface), m)
  | Some peers =>
      match peers !! pubkey with
      | None => (Err (not_found "peer" pubkey), m)
      | Some p =>
          (Ok tt, <[iface := <[pubkey := mkMockPeer (mp_config p) (mp_receive p +i rx)
                                                    (mp_transmit p +i tx)]> peers]> m)
      end
  end.

Definition PeerCount (iface : string) (m : MockManager) : Z :=
  match m !! iface with None => 0 | Some peers => Z.of_nat (size peers) end.

#[export] Instance mock_manager : WgManager MockManager := {|
  wg_AddPeer := Mock_AddPeer;
  wg_RemovePeer := Mock_RemovePeer;
  wg_GetPeerStats := Mock_GetPeerStats;
  wg_peers := fun iface m => (pc_AllowedIPs ∘ mp_config) <$> default ∅ (m !! iface)
|}.

(** ** quota.Enforcer *)

(** [q_limit q ip]: the byte limit in force for a tunnel address; [None] means
    its traffic is not metered. *)
Class Enforcer (Q : Type) := {
  q_SetQuota : string -> Z -> Q -> result string unit * Q;
  q_RefreshQuota : string -> Z -> Q -> result string unit * Q;
  q_RemoveQuota : string -> Q -> result string unit * Q;
  q_limit : Q -> string -> option Z;
  (** what the implementation maintains between calls *)
  q_ok : Q -> Prop
}.

Definition plain_ip (ip : string) : bool := char_free "_" ip.

Class EnforcerLaws (Q : Type) `{Enforcer Q} := {
  law_set_quota ip bytes q r q' :
    plain_ip ip = true -> q_ok q -> q_SetQuota ip bytes q = (r, q') ->
    q_ok q' /\ (r = Ok tt -> q_limit q' ip = Some bytes) /\
    forall ip', plain_ip ip' = true -> ip' <> ip -> q_limit q' ip' = q_limit q ip';
  law_refresh_quota ip bytes q r q' :
    plain_ip ip = true -> q_ok q -> q_RefreshQuota ip bytes q = (r, q') ->
    q_ok q' /\ (r = Ok tt -> q_limit q' ip = Some bytes) /\
    forall ip', plain_ip ip' = true -> ip' <> ip -> q_limit q' ip' = q_limit q ip';
  law_remove_quota ip q r q' :
    plain_ip ip = true -> q_ok q -> q_RemoveQuota ip q = (r, q') ->
    q_ok q' /\ (r = Ok tt -> q_limit q' ip = None) /\
    forall ip', plain_ip ip' = true -> ip' <> ip -> q_limit q' ip' = q_limit q ip'
}.

(** ** NftablesEnforcer *)

(** The four nft commands the enforcer issues, and the kernel's named quota
    objects and address map they act on. *)
Inductive nft_command :=
| AddQuota (name : string) (bytes : Z)
| AddElement (tunnelIP name : string)
| DeleteElement (tunnelIP : string)
| DeleteQuota (name : string).

Class Nft (N : Type) := {
  nftCmd : nft_command -> N -> bool * N;
  nft_objects : N -> gmap string Z;
  nft_quotas : N -> gmap string string
}.

(** Documented nft behaviour: a command takes effect as a whole or fails and
    changes nothing; [add] of a quota that exists updates it. *)
Class NftLaws (N : Type) `{Nft N} := {
  law_nft_fail c n n' : nftCmd c n = (false, n') ->
    nft_objects n' = nft_objects n /\ nft_quotas n' = nft_quotas n;
  law_nft_done c n n' : nftCmd c n = (true, n') ->
    match c with
    | AddQuota name bytes =>
        nft_objects n' = <[name := bytes]> (nft_objects n) /\ nft_quotas n' = nft_quotas n
    | AddElement ip name =>
        nft_objects n' = nft_objects n /\ nft_quotas n' = <[ip := name]> (nft_quotas n)
    | DeleteElement ip =>
        nft_objects n' = nft_objects n /\ nft_quotas n' = delete ip (nft_quotas n)
    | DeleteQuota name =>
        nft_objects n' = delete name (nft_objects n) /\ nft_quotas n' = nft_quotas n
    end
}.

(** strings.ReplaceAll(tunnelIP, dot, underscore) *)
Fixpoint replace_dots (s : string) : string :=
  match s with
  | EmptyString => EmptyString
  | String c r => String (if Ascii.eqb c "." then "_"%char else c) (replace_dots r)
  end.
Definition quotaObjectName (tunnelIP : string) : string := ("q_" ++ replace_dots tunnelIP)%string.

Section nftables.
Context {N : Type} `{Nft N}.

Definition Nftables_RemoveQuota (tunnelIP : string) (n : N) : result string unit * N :=
  let '(elemOk, n1) := nftCmd (DeleteElement tunnelIP) n in
  let '(objOk, n2) := nftCmd (DeleteQuota (quotaObjectName tunnelIP)) n1 in
  (if negb elemOk then Err "nft delete element"%string
   else if objOk then Ok tt else Err "nft delete quota"%string, n2).

Definition Nftables_SetQuota (tunnelIP : string) (bytes : Z) (n : N) : result string unit * N :=
  let name := quotaObjectName tunnelIP in
  let '(_, n1) := Nftables_RemoveQuota tunnelIP n in
  match nftCmd (AddQuota name bytes) n1 with
  | (false, n2) => (Err "nft add quota"%string, n2)
  | (true, n2) =>
      match nftCmd (AddElement tunnelIP name) n2 with
      | (false, n3) => (Err "nft add element"%string, (nftCmd (DeleteQuota name) n3).2)
      | (true, n3) => (Ok tt, n3)
      end
  end.

Definition Nftables_RefreshQuota : string -> Z -> N -> result string unit * N := Nftables_SetQuota.

#[export] Instance nftables_enforcer : Enforcer N := {|
  q_SetQuota := Nftables_SetQuota;
  q_RefreshQuota := Nftables_RefreshQuota;
  q_RemoveQuota := Nftables_RemoveQuota;
  q_limit := fun n ip => nft_quotas n !! ip ≫= fun name => nft_objects n !! name;
  q_ok := fun n => forall ip name, plain_ip ip = true ->
            nft_quotas n !! ip = Some name -> name = quotaObjectName ip
|}.
End nftables.

(** ** The laws hold of the implementations *)
#[export] Instance mock_manager_laws : WgManagerLaws MockManager.
Proof.
  split; cbn [wg_AddPeer wg_RemovePeer wg_peers mock_manager]; unfold Mock_AddPeer, Mock_RemovePeer, MockManager.
  - intros iface p m e m' Hrun. destruct (m !! iface) eqn:Hm; [done|].
    simplify_eq. by rewrite Hm.
  - intros iface p m m' Hrun. destruct (m !! iface); simplify_eq.
    by rewrite lookup_insert_eq; simpl; rewrite lookup_fmap, lookup_insert_eq.
  - intros iface p m m' k l Hrun Hk. destruct (m !! iface) as [peers|] eqn:Hm; simplify_eq/=.
    rewrite lookup_insert_eq. simpl. rewrite !lookup_fmap, lookup_insert_ne by done.
    intros ->. by exists l.
  - intros iface p m m' k Hrun. destruct (m !! iface) as [peers|] eqn:Hm; simplify_eq/=.
    rewrite lookup_insert_eq. simpl. rewrite !lookup_fmap, !fmap_is_Some.
    intros Hk. apply lookup_insert_is_Some'. by right.
  - intros iface k m m'. destruct (m !! iface) as [peers|] eqn:Hm; [|done].
    destruct (peers !! k); [|done]. intros ?; simplify_eq/=.
    by rewrite lookup_insert_eq; simpl; rewrite fmap_delete.
  - intros iface k m e m' Hrun. destruct (m !! iface) as [peers|] eqn:Hm.
    + destruct (peers !! k); simplify_eq. by rewrite Hm.
    + simplify_eq. by rewrite Hm.
Qed.

Lemma replace_dots_inj a b :
  plain_ip a = true -> plain_ip b = true -> replace_dots a = replace_dots b -> a = b.
Proof.
  unfold plain_ip. revert b. induction a as [|c a IH]; intros [|d b]; simpl; try done.
  intros Ha Hb. injection 1 as Hc Hr. bprop. f_equal; [|by apply IH].
  destruct (Ascii.eqb_spec c "."), (Ascii.eqb_spec d "."); subst; try done; by simpl in *.
Qed.

Lemma quotaObjectName_inj a b :
  plain_ip a = true -> plain_ip b = true -> quotaObjectName a = quotaObjectName b -> a = b.
Proof. intros Ha Hb [=]. by apply replace_dots_inj. Qed.

Section nft_laws.
Context {N : Type} `{NftLaws N}.

(** A command naming only [ip]'s element or object keeps [q_ok] and the limits
    of the other addresses. *)
Definition about_ip (ip : string) (c : nft_command) : bool :=
  match c with
  | AddQuota name _ | DeleteQuota name => String.eqb name (quotaObjectName ip)
  | AddElement ip' name => String.eqb ip' ip && String.eqb name (quotaObjectName ip)
  | DeleteElement ip' => String.eqb ip' ip
  end.

Lemma about_ip_frame ip c n b n' :
  plain_ip ip = true -> q_ok n -> about_ip ip c = true -> nftCmd c n = (b, n') ->
  q_ok n' /\ forall ip', plain_ip ip' = true -> ip' <> ip -> q_limit n' ip' = q_limit n ip'.
Proof.
  intros Hip Hok Hc Hrun. cbn [q_ok q_limit nftables_enforcer] in *.
  destruct b; [apply law_nft_done in Hrun|apply law_nft_fail in Hrun; by destruct Hrun as [-> ->]].
  assert (forall ip' name, plain_ip ip' = true -> ip' <> ip -> nft_quotas n !! ip' = Some name ->
          name <> quotaObjectName ip) as Hne.
  { intros ip' name Hp Hi Hq ->. apply Hok in Hq; [|done]. by apply quotaObjectName_inj in Hq. }
  destruct c; simpl in Hc; bprop; subst; destruct Hrun as [-> ->]; (split; [intros ip' name Hp Hi|intros ip' Hp Hi]);
    try (by eapply Hok); try by (rewrite ?lookup_insert_ne, ?lookup_delete_ne by congruence).
  - destruct (nft_quotas n !! ip') eqn:Hq; [|done]. simpl.
    rewrite lookup_insert_ne; [done|]. intros <-. by eapply Hne.
  - destruct (decide (ip' = ip)) as [->|Hne']; [rewrite lookup_insert_eq in Hi; by simplify_eq|].
    rewrite lookup_insert_ne in Hi by congruence. by eapply Hok.
  - destruct (decide (ip' = ip)) as [->|Hne']; [by rewrite lookup_delete_eq in Hi|].
    rewrite lookup_delete_ne in Hi by congruence. by eapply Hok.
  - destruct (nft_quotas n !! ip') eqn:Hq; [|done]. simpl.
    rewrite lookup_delete_ne; [done|]. intros <-. by eapply Hne.
Qed.

Lemma nft_remove ip n r n' :
  plain_ip ip = true -> q_ok n -> Nftables_RemoveQuota ip n = (r, n') ->
  q_ok n' /\ (r = Ok tt -> q_limit n' ip = None) /\
  forall ip', plain_ip ip' = true -> ip' <> ip -> q_limit n' ip' = q_limit n ip'.
Proof.
  unfold Nftables_RemoveQuota. intros Hip Hok Hrun.
  destruct (nftCmd (DeleteElement ip) n) as [b1 n1] eqn:H1.
  destruct (nftCmd (DeleteQuota (quotaObjectName ip)) n1) as [b2 n2] eqn:H2.
  apply (about_ip_frame ip) in H1 as F1; [|done|done|by simpl; rewrite String.eqb_refl].
  destruct F1 as [Hok1 F1].
  apply (about_ip_frame ip) in H2 as F2; [|done|done|by simpl; rewrite String.eqb_refl].
  destruct F2 as [Hok2 F2]. simplify_eq. split_and!; [done| |intros; by rewrite F2, F1].
  destruct b1; [|done]. destruct b2; [|done]. intros _.
  apply law_nft_done in H1 as [_ Hq1]. apply law_nft_done in H2 as [_ Hq2].
  cbn. by rewrite Hq2, Hq1, lookup_delete_eq.
Qed.

Lemma nft_set ip bytes n r n' :
  plain_ip ip = true -> q_ok n -> Nftables_SetQuota ip bytes n = (r, n') ->
  q_ok n' /\ (r = Ok tt -> q_limit n' ip = Some bytes) /\
  forall ip', plain_ip ip' = true -> ip' <> ip -> q_limit n' ip' = q_limit n ip'.
Proof.
  unfold Nftables_SetQuota. intros Hip Hok Hrun.
  destruct (Nftables_RemoveQuota ip n) as [r0 n1] eqn:Hr0.
  apply nft_remove in Hr0 as (Hok1 & _ & F1); [|done..].
  destruct (nftCmd (AddQuota (quotaObjectName ip) bytes) n1) as [b2 n2] eqn:H2.
  apply (about_ip_frame ip) in H2 as F2; [|done|done|by simpl; rewrite String.eqb_refl].
  destruct F2 as [Hok2 F2]. destruct b2; [|simplify_eq; split_and!; [done|done|intros; by rewrite F2, F1]].
  destruct (nftCmd (AddElement ip (quotaObjectName ip)) n2) as [b3 n3] eqn:H3.
  apply (about_ip_frame ip) in H3 as F3; [|done|done|by simpl; rewrite !String.eqb_refl].
  destruct F3 as [Hok3 F3]. destruct b3.
  - simplify_eq. split_and!; [done| |intros; by rewrite F3, F2, F1]. intros _.
    apply law_nft_done in H2 as [Ho2 _]. apply law_nft_done in H3 as [Ho3 Hq3].
    cbn. rewrite Hq3, lookup_insert_eq. simpl. by rewrite Ho3, Ho2, lookup_insert_eq.
  - destruct (nftCmd (DeleteQuota (quotaObjectName ip)) n3) as [b4 n4] eqn:H4. cbn [snd] in Hrun. simplify_eq.
    apply (about_ip_frame ip) in H4 as F4; [|done|done|by simpl; rewrite String.eqb_refl].
    destruct F4 as [Hok4 F4]. split_and!; [done|done|intros; by rewrite F4, F3, F2, F1].
Qed.

#[export] Instance nftables_laws : EnforcerLaws N.
Proof. split; cbn [q_SetQuota q_RefreshQuota q_RemoveQuota nftables_enforcer]; eauto using nft_set, nft_remove. Qed.
End nft_laws.
