(* ===== verification/IPPool.v ===== *)
(** * IPPool: the node's pool of tunnel addresses
    (src/internal/control/api.go, tunnelIPPool)

    A /24 subnet's addresses 2 to 254, each held by at most one peer, with the
    map iteration order an argument. *)
From S2P Require Import Prelude Peers.

(** ** tunnelIPPool *)
Record tunnelIPPool := mkPool {
  subnet : string;
  allocated : gmap Z string;
  since : gmap Z Z
}.
Record poolEntry := mkEntry { pe_IP : string; pe_Pubkey : string; pe_Since : Z }.

Definition newTunnelIPPool (sub : string) : tunnelIPPool := mkPool sub ∅ ∅.

(** "subnet.N" *)
Definition addr (p : tunnelIPPool) (i : Z) : string := (subnet p ++ "." ++ show_Z i)%string.

(** fmt.Sscanf(s, "%d", &n) with n zero before *)
Definition digit (c : ascii) : option Z :=
  let d := Z.of_nat (nat_of_ascii c) - 48 in if (0 <=? d) && (d <=? 9) then Some d else None.
Fixpoint scan_digits (acc : option Z) (s : string) : option Z :=
  match s with
  | EmptyString => acc
  | String c r =>
      match digit c with
      | Some d => scan_digits (Some (default 0 acc * 10 + d)) r
      | None => acc
      end
  end.
Fixpoint skip_space (s : string) : string :=
  match s with
  | String " " r => skip_space r
  | _ => s
  end.
Definition sscanf_d (s : string) : Z :=
  let v := match skip_space s with
           | String "-" r => Z.opp <$> scan_digits None r
           | String "+" r => scan_digits None r
           | r => scan_digits None r
           end in
  match v with Some z => if in_i64b z then z else 0 | None => 0 end.

(** Go ranges over a map in any order: [range] is the order taken. *)
Definition pool_order := gmap Z string -> list (Z * string).
Definition fair (range : pool_order) : Prop := forall m, range m ≡ₚ map_to_list m.

Section pool.
Context (range : pool_order).

(** The first slot, in the order taken, that the peer holds. *)
Definition slot_of (peerPubkey : string) (p : tunnelIPPool) : option Z :=
  fst <$> List.find (fun e => String.eqb e.2 peerPubkey) (range (allocated p)).

Definition free_slot (p : tunnelIPPool) : option Z :=
  List.find (fun i => bool_decide (allocated p !! i = None)) (seqZ 2 253).

Definition Allocate (now : Z) (peerPubkey : string) (p : tunnelIPPool) :
    result string string * tunnelIPPool :=
  match slot_of peerPubkey p with
  | Some i => (Ok (addr p i), mkPool (subnet p) (allocated p) (<[i := now]> (since p)))
  | None =>
      match free_slot p with
      | Some i =>
          (Ok (addr p i), mkPool (subnet p) (<[i := peerPubkey]> (allocated p)) (<[i := now]> (since p)))
      | None => (Err "IP pool exhausted (253/253 allocated)"%string, p)
      end
  end.

Definition free (i : Z) (p : tunnelIPPool) : tunnelIPPool :=
  mkPool (subnet p) (delete i (allocated p)) (delete i (since p)).

Definition Release (ip : string) (p : tunnelIPPool) : tunnelIPPool :=
  match split_on "." ip with
  | [_; _; _; n] => free (sscanf_d n) p
  | _ => p
  end.

Definition ReleasePubkey (peerPubkey : string) (p : tunnelIPPool) : option string * tunnelIPPool :=
  match slot_of peerPubkey p with
  | Some i => (Some (addr p i), free i p)
  | None => (None, p)
  end.

Definition AllocationForPubkey (peerPubkey : string) (p : tunnelIPPool) : option string :=
  addr p <$> slot_of peerPubkey p.

(** A slot with no recorded time reads as the zero time. *)
Definition Entries (p : tunnelIPPool) : list poolEntry :=
  (fun e => mkEntry (addr p e.1) e.2 (default zero_time (since p !! e.1))) <$> range (allocated p).

Definition Count (p : tunnelIPPool) : Z := Z.of_nat (size (allocated p)).
End pool.

(** ** Lemmas on the pool *)
Record pool_ok (p : tunnelIPPool) : Prop := {
  pool_inj i j pk : allocated p !! i = Some pk -> allocated p !! j = Some pk -> i = j;
  pool_range i pk : allocated p !! i = Some pk -> 2 <= i <= 254;
  pool_subnet : length (split_on "." (subnet p)) = 3%nat;
  pool_plain : plain_ip (subnet p) = true
}.

Lemma split_on_app c a b : split_on c (a ++ String c b)%string = split_on c a ++ split_on c b.
Proof.
  induction a as [|d a IH]; simpl; [by rewrite Ascii.eqb_refl|].
  rewrite IH. destruct (Ascii.eqb c d); [done|].
  destruct (split_on c a) eqn:Ha; [by apply split_on_nonempty in Ha|done].
Qed.

Lemma str_app_inj (a b c : string) : (a ++ b)%string = (a ++ c)%string -> b = c.
Proof. induction a as [|x a IH]; simpl; [done|]. injection 1. done. Qed.

Lemma str_app_inj_r (a b c : string) : (a ++ c)%string = (b ++ c)%string -> a = b.
Proof.
  intros Heq. assert (String.length a = String.length b) as Hl.
  { apply (f_equal String.length) in Heq. rewrite !str_length_app in Heq. lia. }
  by apply app_len_inj in Heq as [? _].
Qed.

Lemma addr_inj p i j : addr p i = addr p j -> i = j.
Proof. unfold addr. intros Heq%str_app_inj. injection Heq as Heq. by apply show_Z_inj. Qed.

Lemma addr_plain p i : pool_ok p -> plain_ip (addr p i) = true.
Proof.
  intros Hp. unfold plain_ip, addr. rewrite char_free_app. apply andb_true_iff. split; [apply Hp|].
  apply (show_Z_free "_"); [by apply pretty_char_not|done].
Qed.

Lemma sscanf_show i : 2 <= i <= 254 -> sscanf_d (show_Z i) = i.
Proof.
  intros Hi.
  assert (forallb (fun i => sscanf_d (show_Z i) =? i) (seqZ 2 253) = true) as Hall by (vm_compute; done).
  rewrite forallb_forall in Hall. apply Z.eqb_eq, Hall, list_elem_of_In, elem_of_seqZ. lia.
Qed.

Lemma Release_addr p q i :
  pool_ok p -> subnet q = subnet p -> 2 <= i <= 254 -> Release (addr p i) q = free i q.
Proof.
  intros Hp Hs Hi. unfold Release, addr.
  change ("." ++ show_Z i)%string with (String "." (show_Z i)). rewrite split_on_app.
  rewrite (split_on_free "." (show_Z i)) by (apply show_Z_free; [by apply pretty_char_not|done]).
  pose proof (pool_subnet _ Hp) as Hl. destruct (split_on "." (subnet p)) as [|a [|b [|c [|]]]]; simplify_eq/=.
  by rewrite sscanf_show.
Qed.

Lemma NoDup_bfilter {A} (p : A -> bool) l : NoDup l -> NoDup (bfilter p l).
Proof. rewrite !NoDup_ListNoDup. apply List.NoDup_filter. Qed.

Lemma length_bfilter_fmap {A B} (p : B -> bool) (f : A -> B) l :
  length (bfilter p (f <$> l)) = length (bfilter (p ∘ f) l).
Proof.
  induction l as [|x l IH]; [done|]. rewrite fmap_cons, !bfilter_cons. simpl.
  destruct (p (f x)); simpl; by rewrite IH.
Qed.

Lemma length_bfilter_split {A} (p : A -> bool) l :
  (length (bfilter p l) + length (bfilter (negb ∘ p) l) = length l)%nat.
Proof.
  induction l as [|x l IH]; [done|]. rewrite !bfilter_cons. simpl.
  destruct (p x); simpl; lia.
Qed.

Lemma list_to_set_size_le (l : list string) : (size (list_to_set l : gset string) <= length l)%nat.
Proof.
  induction l as [|x l IH]; cbn [list_to_set length]; [done|].
  rewrite size_union_alt, size_singleton.
  assert (size (list_to_set l ∖ {[x]} : gset string) <= size (list_to_set l : gset string))%nat
    by (apply subseteq_size; set_solver). lia.
Qed.

Section pool_lemmas.
Context (range : pool_order) (Hrange : fair range).

Lemma in_range p i pk : (i, pk) ∈ range (allocated p) <-> allocated p !! i = Some pk.
Proof. rewrite (Hrange (allocated p)). apply elem_of_map_to_list. Qed.

Lemma slot_of_Some pk p i : pool_ok p -> slot_of range pk p = Some i <-> allocated p !! i = Some pk.
Proof.
  intros Hp. unfold slot_of. split.
  - destruct (List.find _ _) as [[j pk']|] eqn:Hf; simpl; [|done]. intros ?; simplify_eq.
    apply find_some in Hf as [Hin Heq]. simpl in Heq. bprop. subst.
    apply in_range, list_elem_of_In, Hin.
  - intros Hi. destruct (List.find _ _) as [[j pk']|] eqn:Hf; simpl.
    + apply find_some in Hf as [Hin Heq]. simpl in Heq. bprop. subst.
      apply list_elem_of_In, in_range in Hin. f_equal. by eapply pool_inj.
    + eapply find_none in Hf; [|by apply list_elem_of_In, in_range]. simpl in Hf.
      by rewrite String.eqb_refl in Hf.
Qed.

Lemma slot_of_None pk p : pool_ok p ->
  slot_of range pk p = None <-> forall i, allocated p !! i <> Some pk.
Proof.
  intros Hp. split.
  - intros Hn i Hi. apply (slot_of_Some _ _ _ Hp) in Hi. congruence.
  - intros Hn. destruct (slot_of range pk p) as [i|] eqn:Hs; [|done].
    apply (slot_of_Some _ _ _ Hp) in Hs. by apply Hn in Hs.
Qed.

Lemma free_slot_Some p i : free_slot p = Some i -> 2 <= i <= 254 /\ allocated p !! i = None.
Proof.
  intros [Hin Hb]%find_some. apply list_elem_of_In, elem_of_seqZ in Hin. bprop. split; [lia|done].
Qed.

Lemma free_slot_None p : pool_ok p -> free_slot p = None -> Count p = 253.
Proof.
  intros Hp Hn. unfold Count. rewrite <-(size_dom (D:=gset Z)).
  assert (dom (allocated p) = list_to_set (seqZ 2 253) :> gset Z) as ->.
  { apply set_eq. intros i. rewrite elem_of_dom, elem_of_list_to_set, elem_of_seqZ. split.
    - intros [pk Hi]. apply pool_range in Hi; [lia|done].
    - intros Hi. eapply find_none in Hn; [|by apply list_elem_of_In, elem_of_seqZ].
      bprop. by apply not_eq_None_Some. }
  rewrite size_list_to_set by apply NoDup_seqZ. by rewrite length_seqZ.
Qed.

Lemma free_ok i p : pool_ok p -> pool_ok (free i p).
Proof.
  intros Hp. split; cbn [free allocated subnet]; try apply Hp.
  - intros j k pk [_ Hj]%lookup_delete_Some [_ Hk]%lookup_delete_Some. by eapply pool_inj.
  - intros j pk [_ Hj]%lookup_delete_Some. by eapply pool_range.
Qed.

(** What Allocate does: a peer keeps its slot, a new one gets a free one, and
    it fails only with every slot taken by others. *)
Lemma Allocate_cases now pk p r p' :
  pool_ok p -> Allocate range now pk p = (r, p') ->
  match r with
  | Ok ip => exists i, ip = addr p i /\ subnet p' = subnet p /\ pool_ok p' /\
      2 <= i <= 254 /\ since p' !! i = Some now /\
      allocated p' = <[i := pk]> (allocated p) /\
      ((allocated p !! i = Some pk /\ allocated p' = allocated p) \/
       (allocated p !! i = None /\ forall j, allocated p !! j <> Some pk))
  | Err _ => p' = p /\ Count p = 253 /\ forall j, allocated p !! j <> Some pk
  end.
Proof.
  intros Hp. unfold Allocate. destruct (slot_of range pk p) as [i|] eqn:Hs.
  - apply (slot_of_Some _ _ _ Hp) in Hs. intros ?; simplify_eq. exists i.
    simpl. rewrite lookup_insert_eq, (insert_id (allocated p) i pk) by done.
    split_and!; try done; [|by eapply pool_range..|by left]. split; cbn; apply Hp.
  - pose proof (proj1 (slot_of_None _ _ Hp) Hs) as Hno.
    destruct (free_slot p) as [i|] eqn:Hf; intros ?; simplify_eq.
    + apply free_slot_Some in Hf as [Hi Hnone]. exists i. simpl.
      rewrite lookup_insert_eq. split_and!; try done; try lia; [|by right]. split; cbn; try apply Hp.
      * intros j k pk' [[? ?]|[? Hj]]%lookup_insert_Some [[? ?]|[? Hk]]%lookup_insert_Some;
          simplify_eq; try done; [by apply Hno in Hk|by apply Hno in Hj|by eapply pool_inj].
      * intros j pk' [[<- <-]|[? Hj]]%lookup_insert_Some; [done|]. by eapply pool_range.
    + split_and!; [done| |done]. by apply free_slot_None.
Qed.
End pool_lemmas.
