(* ===== verification/Control.v ===== *)
(** * Control: granting, removing and reaping peers
    (src/internal/control/peers.go)

    Over the interfaces of Peers.v: granting a peer its address and quota,
    removing it, reaping idle ones; the invariant that ties the address pool,
    the WireGuard device and the quotas together, kept by every step whatever
    call fails. *)
From S2P Require Import Prelude Peers IPPool.

(** ** Granting and removing peers (peers.go) *)
Definition DefaultPeerIdleTimeout : Z := 30 * 60 * 1000000000.

Section peers.
Context {W Q : Type} `{WgManager W} `{Enforcer Q}.
Context (range : pool_order) (iface : string).

(** What peerMu protects. *)
Record Peers := mkPeers { p_pool : tunnelIPPool; p_wg : W; p_quota : Q }.

Definition releasePeerResources (pubkey : string) (ps : Peers) : Peers :=
  match ReleasePubkey range pubkey (p_pool ps) with
  | (None, _) => ps
  | (Some ip, pool) => mkPeers pool (p_wg ps) (q_RemoveQuota ip (p_quota ps)).2
  end.

Definition grantPeer (now : Z) (wgPubkey : string) (quotaBytes : Z) (ps : Peers) :
    result (Z * string) string * Peers :=
  let hadAllocation := AllocationForPubkey range wgPubkey (p_pool ps) in
  match Allocate range now wgPubkey (p_pool ps) with
  | (Err e, _) => (Err (StatusServiceUnavailable, "no IPs available: " ++ e)%string, ps)
  | (Ok tunnelIP, pool) =>
      match wg_AddPeer iface (mkPeer wgPubkey "" [(tunnelIP ++ "/32")%string] 0) (p_wg ps) with
      | (Err e, wg1) =>
          let pool1 := match hadAllocation with Some _ => pool | None => Release tunnelIP pool end in
          (Err (StatusInternalServerError, "add peer: " ++ e)%string, mkPeers pool1 wg1 (p_quota ps))
      | (Ok _, wg1) =>
          match q_SetQuota tunnelIP quotaBytes (p_quota ps) with
          | (Err e, q1) =>
              let wg2 := (wg_RemovePeer iface wgPubkey wg1).2 in
              (Err (StatusInternalServerError, "set quota: " ++ e)%string,
               releasePeerResources wgPubkey (mkPeers pool wg2 q1))
          | (Ok _, q1) => (Ok tunnelIP, mkPeers pool wg1 q1)
          end
      end
  end.

(** What DELETE /peers/<key> does under the lock. *)
Definition removePeer (pubkey : string) (ps : Peers) : result string unit * Peers :=
  match wg_RemovePeer iface pubkey (p_wg ps) with
  | (Err e, wg1) => (Err ("remove peer: " ++ e)%string, mkPeers (p_pool ps) wg1 (p_quota ps))
  | (Ok _, wg1) => (Ok tt, releasePeerResources pubkey (mkPeers (p_pool ps) wg1 (p_quota ps)))
  end.

(** ** ReapIdle *)
Definition lastHandshake (stats : list PeerStats) : gmap string Z :=
  foldl (fun m st => <[ps_PublicKey st := ps_LastHandshake st]> m) ∅ stats.

(** How long the peer has been idle: since its last handshake, or since it was
    granted when that is later. *)
Definition idle_for (now : Z) (last : gmap string Z) (e : poolEntry) : Z :=
  let hs := default zero_time (last !! pe_Pubkey e) in
  time_sub now (if pe_Since e <? hs then hs else pe_Since e).

Definition is_idle (idle now : Z) (last : gmap string Z) (e : poolEntry) : bool :=
  negb (idle_for now last e <? idle).

Fixpoint reap_loop (idle now : Z) (last : gmap string Z) (es : list poolEntry) (reaped : Z)
    (ps : Peers) : Z * Peers :=
  match es with
  | [] => (reaped, ps)
  | e :: r =>
      if is_idle idle now last e then
        match removePeer (pe_Pubkey e) ps with
        | (Err _, ps1) => reap_loop idle now last r reaped ps1
        | (Ok _, ps1) => reap_loop idle now last r (reaped + 1) ps1
        end
      else reap_loop idle now last r reaped ps
  end.

(** [now1]: the clock GetPeerStats reads; [now]: the one ReapIdle reads. *)
Definition ReapIdle (idle now1 now : Z) (ps : Peers) : Z * Peers :=
  match wg_GetPeerStats now1 iface (p_wg ps) with
  | Err _ => (0, ps)
  | Ok stats => reap_loop idle now (lastHandshake stats) (Entries range (p_pool ps)) 0 ps
  end.
End peers.
Arguments Peers : clear implicits.

(** ** The invariant of granted peers *)
Section peers_lemmas.
Context {W Q : Type} `{WgManagerLaws W} `{EnforcerLaws Q}.
Context (range : pool_order) (Hrange : fair range) (iface : string).

(** Every device peer holds one slot and uses no other address; every slot's
    peer is on the device and metered. *)
Record peers_ok (ps : Peers W Q) : Prop := {
  po_pool : pool_ok (p_pool ps);
  po_quota : q_ok (p_quota ps);
  po_routes k l : wg_peers iface (p_wg ps) !! k = Some l ->
    exists i, allocated (p_pool ps) !! i = Some k /\ l ⊆ [(addr (p_pool ps) i ++ "/32")%string];
  po_present i k : allocated (p_pool ps) !! i = Some k -> is_Some (wg_peers iface (p_wg ps) !! k);
  po_metered i k : allocated (p_pool ps) !! i = Some k ->
    is_Some (q_limit (p_quota ps) (addr (p_pool ps) i))
}.

(** Removing a peer that is on the device succeeds. *)
Definition removable : Prop :=
  forall k w, is_Some (wg_peers iface w !! k) -> is_ok (wg_RemovePeer iface k w).1 = true.

Definition without (k : string) (ps ps' : Peers W Q) : Prop :=
  subnet (p_pool ps') = subnet (p_pool ps) /\
  wg_peers iface (p_wg ps') = delete k (wg_peers iface (p_wg ps)) /\
  forall i k', allocated (p_pool ps') !! i = Some k' <->
               allocated (p_pool ps) !! i = Some k' /\ k' <> k.

(** Freeing the slot of a peer that is off the device restores the invariant
    for the others. *)
Lemma release_ok k (ps : Peers W Q) :
  pool_ok (p_pool ps) -> q_ok (p_quota ps) ->
  (forall k' l, wg_peers iface (p_wg ps) !! k' = Some l -> k' <> k /\
    exists i, allocated (p_pool ps) !! i = Some k' /\ l ⊆ [(addr (p_pool ps) i ++ "/32")%string]) ->
  (forall i k', allocated (p_pool ps) !! i = Some k' -> k' <> k ->
    is_Some (wg_peers iface (p_wg ps) !! k') /\ is_Some (q_limit (p_quota ps) (addr (p_pool ps) i))) ->
  let ps' := releasePeerResources range k ps in
  peers_ok ps' /\ p_wg ps' = p_wg ps /\ subnet (p_pool ps') = subnet (p_pool ps) /\
  forall i k', allocated (p_pool ps') !! i = Some k' <->
               allocated (p_pool ps) !! i = Some k' /\ k' <> k.
Proof.
  intros Hp Hq Hroutes Hslots. unfold releasePeerResources, ReleasePubkey.
  destruct (slot_of range k (p_pool ps)) as [i|] eqn:Hs.
  - apply (slot_of_Some _ Hrange _ _ _ Hp) in Hs.
    destruct (q_RemoveQuota (addr (p_pool ps) i) (p_quota ps)) as [r q'] eqn:Hrq. simpl.
    apply law_remove_quota in Hrq as (Hq' & _ & Hframe); [|by apply addr_plain|done].
    assert (forall j k', delete i (allocated (p_pool ps)) !! j = Some k' <->
      allocated (p_pool ps) !! j = Some k' /\ k' <> k) as Hdel.
    { intros j k'. rewrite lookup_delete_Some. split; intros [? ?]; split; try done.
      - intros ->. by eapply pool_inj in Hs.
      - intros ->. congruence. }
    split_and!; [|done..|exact Hdel]. split; simpl; [by apply free_ok|done|..].
    + intros k' l Hl. apply Hroutes in Hl as (Hne & j & Hj & Hsub). exists j.
      split; [by apply Hdel|done].
    + intros j k' [Hj Hne]%Hdel. by apply (Hslots j k').
    + intros j k' [Hj Hne]%Hdel. change (addr (free i (p_pool ps)) j) with (addr (p_pool ps) j).
      rewrite Hframe; [by eapply Hslots|by apply addr_plain|].
      intros ->%addr_inj. congruence.
  - pose proof (proj1 (slot_of_None _ Hrange _ _ Hp) Hs) as Hno.
    assert (forall j k', allocated (p_pool ps) !! j = Some k' -> k' <> k) as Hne.
    { intros j k' Hj ->. by apply Hno in Hj. }
    split_and!; [|done..|naive_solver]. split; [done|done|..].
    + intros k' l Hl. by apply Hroutes in Hl as (_ & ?).
    + intros j k' Hj. by eapply Hslots; [|eapply Hne].
    + intros j k' Hj. by eapply Hslots; [|eapply Hne].
Qed.

Lemma removePeer_ok k (ps : Peers W Q) r ps' :
  peers_ok ps -> removePeer range iface k ps = (r, ps') ->
  peers_ok ps' /\ match r with
  | Ok _ => without k ps ps'
  | Err _ => p_pool ps' = p_pool ps /\ p_quota ps' = p_quota ps /\
             wg_peers iface (p_wg ps') = wg_peers iface (p_wg ps)
  end.
Proof.
  intros Hok. unfold removePeer. destruct (wg_RemovePeer iface k (p_wg ps)) as [[[]|e] wg1] eqn:Hrm.
  - intros ?; simplify_eq. apply law_remove_ok in Hrm.
    pose proof (release_ok k (mkPeers (p_pool ps) wg1 (p_quota ps))) as Hrel. simpl in Hrel.
    rewrite Hrm in Hrel. destruct Hrel as (Hok' & Hwg & Hsub & Hal); [apply Hok|apply Hok|..].
    + intros k' l [Hne Hl]%lookup_delete_Some. split; [done|]. by apply (po_routes _ Hok).
    + intros i k' Hi Hne. rewrite lookup_delete_ne by done.
      split; [by eapply po_present|by eapply po_metered].
    + split; [done|]. unfold without. by rewrite Hwg.
  - intros ?; simplify_eq. apply law_remove_err in Hrm. split; [|done].
    destruct Hok as [? ? Hr Hpr ?]. by split; simpl; try rewrite Hrm.
Qed.

(** The peer is gone and the other peers keep their slots. *)
Definition dropped (k : string) (ps ps' : Peers W Q) : Prop :=
  wg_peers iface (p_wg ps') !! k = None /\
  forall i k', allocated (p_pool ps') !! i = Some k' <->
               allocated (p_pool ps) !! i = Some k' /\ k' <> k.

(** The peer holds slot [i], its own if it had one, and nothing else moved. *)
Definition granted (k : string) (bytes : Z) (ip : string) (ps ps' : Peers W Q) : Prop :=
  exists i, ip = addr (p_pool ps') i /\ 2 <= i <= 254 /\
    allocated (p_pool ps') = <[i := k]> (allocated (p_pool ps)) /\
    (allocated (p_pool ps) !! i = Some k \/
     allocated (p_pool ps) !! i = None /\ forall j, allocated (p_pool ps) !! j <> Some k) /\
    wg_peers iface (p_wg ps') !! k = Some [(ip ++ "/32")%string] /\
    q_limit (p_quota ps') ip = Some bytes /\
    forall j k', allocated (p_pool ps) !! j = Some k' -> k' <> k ->
      q_limit (p_quota ps') (addr (p_pool ps) j) = q_limit (p_quota ps) (addr (p_pool ps) j).

Definition unchanged (ps ps' : Peers W Q) : Prop :=
  allocated (p_pool ps') = allocated (p_pool ps) /\ p_quota ps' = p_quota ps /\
  wg_peers iface (p_wg ps') = wg_peers iface (p_wg ps).

Lemma unchanged_ok (ps ps' : Peers W Q) :
  peers_ok ps -> unchanged ps ps' -> subnet (p_pool ps') = subnet (p_pool ps) -> peers_ok ps'.
Proof.
  intros Hok (Ha & Hq & Hw) Hs. destruct Hok as [[? ? ? ?] ? Hr ? Hm]. unfold addr in *.
  split; unfold addr; rewrite ?Ha, ?Hq, ?Hw, ?Hs; try done. by split; rewrite ?Ha, ?Hs.
Qed.

(** The steps of a grant, once a slot was found. *)
Section grant.
Context (ps : Peers W Q) (Hok : peers_ok ps) (k : string) (i : Z) (pool : tunnelIPPool).
Context (Hs : subnet pool = subnet (p_pool ps)) (Hpool : pool_ok pool) (Hi : 2 <= i <= 254).
Context (Ha : allocated pool = <[i := k]> (allocated (p_pool ps))).
Context (Hcase : (allocated (p_pool ps) !! i = Some k /\ allocated pool = allocated (p_pool ps)) \/
                 (allocated (p_pool ps) !! i = None /\ forall j, allocated (p_pool ps) !! j <> Some k)).

Lemma grant_addr j : addr pool j = addr (p_pool ps) j.
Proof. unfold addr. by rewrite Hs. Qed.

Lemma grant_slot j k' : allocated pool !! j = Some k' ->
  (j = i /\ k' = k) \/ (j <> i /\ k' <> k /\ allocated (p_pool ps) !! j = Some k').
Proof.
  intros Hj. rewrite Ha in Hj. apply lookup_insert_Some in Hj as [[<- <-]|[Hne Hj]]; [by left|right].
  split_and!; [done| |done]. intros ->. destruct Hcase as [[Hk _]|[_ Hno]]; [|by apply Hno in Hj].
  apply Hne. by eapply pool_inj; [apply Hok|exact Hk|].
Qed.

Lemma grant_other j k' : allocated (p_pool ps) !! j = Some k' -> k' <> k ->
  j <> i /\ allocated pool !! j = Some k'.
Proof.
  intros Hj Hne. assert (j <> i) as Hji by (intros ->; destruct Hcase as [[? _]|[? _]]; congruence).
  split; [done|]. by rewrite Ha, lookup_insert_ne.
Qed.

Lemma added_routes wg1 :
  wg_AddPeer iface (mkPeer k "" [(addr (p_pool ps) i ++ "/32")%string] 0) (p_wg ps) = (Ok tt, wg1) ->
  (forall k' l, wg_peers iface wg1 !! k' = Some l ->
     exists j, allocated pool !! j = Some k' /\ l ⊆ [(addr pool j ++ "/32")%string]) /\
  (forall j k', allocated pool !! j = Some k' -> is_Some (wg_peers iface wg1 !! k')) /\
  wg_peers iface wg1 !! k = Some [(addr pool i ++ "/32")%string].
Proof.
  intros Hadd. pose proof (law_add_self _ _ _ _ Hadd) as Hself. simpl in Hself.
  split_and!; [| |by rewrite grant_addr].
  - intros k' l Hl. destruct (decide (k' = k)) as [->|Hne].
    + rewrite Hself in Hl. simplify_eq. exists i. by rewrite Ha, lookup_insert_eq, grant_addr.
    + eapply law_add_others in Hadd as (l0 & Hl0 & Hsub); [|by simpl|exact Hl].
      apply (po_routes _ Hok) in Hl0 as (j & Hj & Hsub0). exists j. rewrite grant_addr.
      split; [by apply grant_other|by etrans].
  - intros j k' [[-> ->]|(_ & _ & Hj)]%grant_slot; [by rewrite Hself|].
    eapply law_add_keeps; [exact Hadd|]. by eapply po_present.
Qed.

(** The quotas of the others, whatever SetQuota did. *)
Lemma quota_frame bytes r q1 :
  q_SetQuota (addr (p_pool ps) i) bytes (p_quota ps) = (r, q1) ->
  q_ok q1 /\ (r = Ok tt -> q_limit q1 (addr pool i) = Some bytes) /\
  forall j k', allocated (p_pool ps) !! j = Some k' -> k' <> k ->
    q_limit q1 (addr (p_pool ps) j) = q_limit (p_quota ps) (addr (p_pool ps) j).
Proof.
  intros Hq. apply law_set_quota in Hq as (Hq1 & Hset & Hframe);
    [|by apply addr_plain, Hok|by apply Hok].
  rewrite grant_addr. split_and!; [done..|]. intros j k' Hj Hne.
  apply Hframe; [by apply addr_plain, Hok|]. intros ->%addr_inj. by eapply grant_other.
Qed.

Lemma grant_done bytes wg1 q1 :
  wg_AddPeer iface (mkPeer k "" [(addr (p_pool ps) i ++ "/32")%string] 0) (p_wg ps) = (Ok tt, wg1) ->
  q_SetQuota (addr (p_pool ps) i) bytes (p_quota ps) = (Ok tt, q1) ->
  peers_ok (mkPeers pool wg1 q1) /\ granted k bytes (addr (p_pool ps) i) ps (mkPeers pool wg1 q1).
Proof.
  intros (Hroutes & Hpresent & Hself)%added_routes (Hq1 & Hset & Hframe)%quota_frame. split.
  - split; simpl; [done..|]. intros j k' [[-> ->]|(_ & Hne & Hj)]%grant_slot; [by rewrite Hset|].
    rewrite grant_addr, (Hframe j k') by done. by eapply po_metered.
  - exists i. simpl. rewrite <-grant_addr. split_and!; try done; try lia; [naive_solver|by apply Hset].
Qed.

Lemma grant_fail_closed bytes wg1 e q1 :
  removable ->
  wg_AddPeer iface (mkPeer k "" [(addr (p_pool ps) i ++ "/32")%string] 0) (p_wg ps) = (Ok tt, wg1) ->
  q_SetQuota (addr (p_pool ps) i) bytes (p_quota ps) = (Err e, q1) ->
  let ps' := releasePeerResources range k (mkPeers pool (wg_RemovePeer iface k wg1).2 q1) in
  peers_ok ps' /\ dropped k ps ps'.
Proof.
  intros Hrem (Hroutes & Hpresent & Hself)%added_routes (Hq1 & _ & Hframe)%quota_frame.
  destruct (wg_RemovePeer iface k wg1) as [rr wg2] eqn:Hrm. cbn [snd].
  assert (wg_peers iface wg2 = delete k (wg_peers iface wg1)) as Hw2.
  { pose proof (Hrem k wg1 (mk_is_Some _ _ Hself)) as Hk. rewrite Hrm in Hk.
    destruct rr as [[]|]; [|done]. by apply law_remove_ok in Hrm. }
  destruct (release_ok k (mkPeers pool wg2 q1)) as (Hok' & Hwg & _ & Hal'); [done|done| | |].
  - simpl. rewrite Hw2. intros k' l [Hne Hl]%lookup_delete_Some. split; [done|by apply Hroutes].
  - simpl. rewrite Hw2. intros j k' Hj Hne. rewrite lookup_delete_ne by done.
    split; [by eapply Hpresent|]. apply grant_slot in Hj as [[_ ?]|(_ & _ & Hj)]; [done|].
    rewrite grant_addr, (Hframe j k') by done. by eapply po_metered.
  - split; [done|]. split; [rewrite Hwg; simpl; by rewrite Hw2, lookup_delete_eq|].
    intros j k'. rewrite Hal'. simpl. split; intros [Hj Hne]; split; try done.
    + apply grant_slot in Hj as [[_ ?]|(_ & _ & Hj)]; done.
    + by apply grant_other.
Qed.

Lemma grant_backed_out wg1 :
  wg_peers iface wg1 = wg_peers iface (p_wg ps) ->
  let pool1 := match AllocationForPubkey range k (p_pool ps) with
               | Some _ => pool | None => Release (addr (p_pool ps) i) pool end in
  peers_ok (mkPeers pool1 wg1 (p_quota ps)) /\ unchanged ps (mkPeers pool1 wg1 (p_quota ps)).
Proof.
  intros Hw pool1. assert (pool_ok (p_pool ps)) as Hp by apply Hok.
  assert (allocated pool1 = allocated (p_pool ps) /\ subnet pool1 = subnet (p_pool ps)) as [Hback Hsub].
  { unfold pool1, AllocationForPubkey. destruct (slot_of range k (p_pool ps)) as [j|] eqn:Hsl; simpl.
    - apply (slot_of_Some _ Hrange _ _ _ Hp) in Hsl. destruct Hcase as [[_ ?]|[_ Hno]]; [done|].
      by apply Hno in Hsl.
    - pose proof (proj1 (slot_of_None _ Hrange _ _ Hp) Hsl) as Hno.
      destruct Hcase as [[Hk _]|[Hn _]]; [by apply Hno in Hk|].
      rewrite (Release_addr (p_pool ps)) by done. simpl. by rewrite Ha, delete_insert_id. }
  assert (unchanged ps (mkPeers pool1 wg1 (p_quota ps))) as Hun by done.
  split; [by eapply unchanged_ok|done].
Qed.
End grant.

Lemma grantPeer_ok now k bytes (ps : Peers W Q) r ps' :
  removable -> peers_ok ps -> grantPeer range iface now k bytes ps = (r, ps') ->
  peers_ok ps' /\ match r with
  | Ok ip => granted k bytes ip ps ps'
  | Err (code, _) =>
      (code = StatusServiceUnavailable /\ ps' = ps /\ Count (p_pool ps) = 253 /\
       forall j, allocated (p_pool ps) !! j <> Some k) \/
      (code = StatusInternalServerError /\ (unchanged ps ps' \/ dropped k ps ps'))
  end.
Proof.
  intros Hrem Hok. unfold grantPeer.
  destruct (Allocate range now k (p_pool ps)) as [r0 pool] eqn:Hal.
  apply (Allocate_cases _ Hrange _ _ _ _ _ (po_pool _ Hok)) in Hal. destruct r0 as [ip|e].
  2:{ destruct Hal as (-> & Hc & Hno). intros ?; simplify_eq. split; [done|by left]. }
  destruct Hal as (i & -> & Hs & Hpool & Hi & _ & Ha & Hcase).
  destruct (wg_AddPeer _ _ _) as [[[]|e] wg1] eqn:Hadd.
  - destruct (q_SetQuota _ _ _) as [[[]|e] q1] eqn:Hq; intros ?; simplify_eq.
    + by apply grant_done.
    + edestruct grant_fail_closed as [? ?]; [done..|]. split; [done|]. right. split; [done|by right].
  - apply law_add_err in Hadd. intros ?; simplify_eq.
    edestruct grant_backed_out as [? ?]; [done..|]. split; [done|]. right. split; [done|by left].
Qed.

(** ReapIdle's loop removes the idle entries, each once. *)
Lemma reap_loop_ok idle now last es n (ps : Peers W Q) n' ps' :
  removable -> peers_ok ps -> NoDup (pe_Pubkey <$> es) ->
  (forall e, e ∈ es -> exists i, allocated (p_pool ps) !! i = Some (pe_Pubkey e)) ->
  reap_loop range iface idle now last es n ps = (n', ps') ->
  let gone := pe_Pubkey <$> bfilter (is_idle idle now last) es in
  peers_ok ps' /\ n' = n + Z.of_nat (length gone) /\
  (forall i k, allocated (p_pool ps') !! i = Some k <->
               allocated (p_pool ps) !! i = Some k /\ k ∉ gone) /\
  (forall k, is_Some (wg_peers iface (p_wg ps') !! k) <->
             is_Some (wg_peers iface (p_wg ps) !! k) /\ k ∉ gone).
Proof.
  intros Hrem. revert n ps. induction es as [|e es IH]; intros n ps Hok Hnd Hin Hrun; simpl in Hrun.
  - simplify_eq. simpl. split_and!; [done|lia|set_solver|set_solver].
  - rewrite fmap_cons in Hnd. apply NoDup_cons in Hnd as [Hnew Hnd]. rewrite bfilter_cons. cbv zeta.
    destruct (is_idle idle now last e); [|apply IH in Hrun; [done|done|done|set_solver]].
    destruct (removePeer range iface (pe_Pubkey e) ps) as [r1 ps1] eqn:Hrm.
    destruct (Hin e) as [i0 Hi0]; [by left|].
    pose proof (removePeer_ok _ _ _ _ Hok Hrm) as [Hok1 Hr1].
    assert (is_ok r1 = true) as Hr.
    { unfold removePeer in Hrm. pose proof (Hrem (pe_Pubkey e) (p_wg ps)) as Hx.
      destruct (wg_RemovePeer _ _ _) as [[|] ?]; simplify_eq; [done|]. simpl in Hx.
      apply Hx. by eapply po_present. }
    destruct r1 as [u|]; [|done]. destruct Hr1 as (_ & Hw & Ha).
    apply IH in Hrun as (Hok' & Hn & Ha' & Hw'); [|done|done|].
    + split_and!; [done|csimpl; lia| |].
      * intros i k. rewrite Ha', Ha. csimpl. set_solver.
      * intros k. rewrite Hw', Hw. csimpl. rewrite not_elem_of_cons.
        destruct (decide (k = pe_Pubkey e)) as [->|Hne].
        -- rewrite lookup_delete_eq. split; [by intros [[] _]|naive_solver].
        -- rewrite lookup_delete_ne by done. naive_solver.
    + intros e' He'. destruct (Hin e') as [j Hj]; [by right|]. exists j. apply Ha. split; [done|].
      intros Heq. apply Hnew. rewrite <-Heq. by apply list_elem_of_fmap_2.
Qed.

Lemma entries_keys p : pool_ok p -> NoDup (pe_Pubkey <$> Entries range p) /\
  forall e, e ∈ Entries range p <->
    exists i k, allocated p !! i = Some k /\ e = mkEntry (addr p i) k (default zero_time (since p !! i)).
Proof.
  intros Hp. split.
  - unfold Entries. rewrite <-list_fmap_compose.
    change (pe_Pubkey ∘ _) with (fun e : Z * string => e.2).
    apply NoDup_fmap_2_strong.
    + intros [i k] [j k'] Hi Hj Heq. simpl in Heq. subst.
      apply (in_range _ Hrange) in Hi, Hj. f_equal. by eapply pool_inj.
    + rewrite (Hrange (allocated p)). apply NoDup_map_to_list.
  - intros e. unfold Entries. rewrite list_elem_of_fmap. split.
    + intros ([i k] & -> & Hin). apply (in_range _ Hrange) in Hin. by exists i, k.
    + intros (i & k & Hi & ->). exists (i, k). split; [done|]. by apply (in_range _ Hrange).
Qed.

(** ** The granted peers as a transition system *)
Inductive peers_step : Peers W Q -> Peers W Q -> Prop :=
| ps_grant now k bytes ps r ps' :
    grantPeer range iface now k bytes ps = (r, ps') -> peers_step ps ps'
| ps_remove k ps r ps' :
    removePeer range iface k ps = (r, ps') -> peers_step ps ps'
| ps_reap idle now1 now ps n ps' :
    ReapIdle range iface idle now1 now ps = (n, ps') -> peers_step ps ps'.

(** A node that was just started. *)
Definition fresh_peers (sub : string) (ps : Peers W Q) : Prop :=
  p_pool ps = newTunnelIPPool sub /\ length (split_on "." sub) = 3%nat /\ plain_ip sub = true /\
  wg_peers iface (p_wg ps) = ∅ /\ q_ok (p_quota ps).

Lemma fresh_ok sub ps : fresh_peers sub ps -> peers_ok ps.
Proof.
  intros (Hp & Hl & Hs & Hw & Hq). split; rewrite ?Hp, ?Hw; try done.
Qed.

Lemma reap_ok idle now1 now (ps : Peers W Q) n ps' :
  removable -> peers_ok ps -> ReapIdle range iface idle now1 now ps = (n, ps') -> peers_ok ps'.
Proof.
  intros Hrem Hok. unfold ReapIdle. destruct (wg_GetPeerStats _ _ _) as [stats|]; [|by intros; simplify_eq].
  destruct (entries_keys _ (po_pool _ Hok)) as [Hnd Hes]. intros Hrun.
  eapply reap_loop_ok in Hrun as (? & _); try done. intros e (i & k & Hi & ->)%Hes. by exists i.
Qed.

Lemma peers_step_ok ps ps' : removable -> peers_step ps ps' -> peers_ok ps -> peers_ok ps'.
Proof.
  intros Hrem Hst Hok. destruct Hst as [now k bytes ps r ps' Hrun|k ps r ps' Hrun|? ? ? ? ? ? Hrun].
  - by eapply grantPeer_ok.
  - by eapply removePeer_ok.
  - by eapply reap_ok.
Qed.

Lemma peers_steps_ok ps ps' : removable -> rtc peers_step ps ps' -> peers_ok ps -> peers_ok ps'.
Proof. intros Hrem Hrun. induction Hrun; eauto using peers_step_ok. Qed.

(** C10: isolation and metering. Provided the device removes the peers it holds,
    after any grants, removals and reapings and any failures of AddPeer,
    SetQuota and RemoveQuota, no address is routed to two peers, every peer's address is metered, and there are at most 253. *)
Theorem peers_isolated sub ps ps'
    (Hrem : removable) (Hfresh : fresh_peers sub ps) (Hrun : rtc peers_step ps ps') :
  (forall k1 k2 l1 l2 ip, wg_peers iface (p_wg ps') !! k1 = Some l1 ->
     wg_peers iface (p_wg ps') !! k2 = Some l2 -> ip ∈ l1 -> ip ∈ l2 -> k1 = k2) /\
  (forall k l ip, wg_peers iface (p_wg ps') !! k = Some l -> ip ∈ l ->
     exists i, 2 <= i <= 254 /\ ip = (addr (p_pool ps') i ++ "/32")%string /\
       is_Some (q_limit (p_quota ps') (addr (p_pool ps') i))) /\
  Z.of_nat (size (wg_peers iface (p_wg ps'))) <= 253.
Proof.
  assert (peers_ok ps') as Hok.
  { apply fresh_ok in Hfresh. eauto using peers_steps_ok. }
  split_and!.
  - intros k1 k2 l1 l2 ip (i & Hi & Hs1)%(po_routes _ Hok) (j & Hj & Hs2)%(po_routes _ Hok) Hip1 Hip2.
    apply Hs1, list_elem_of_singleton in Hip1 as ->. apply Hs2, list_elem_of_singleton in Hip2.
    assert (i = j) as -> by (apply (addr_inj (p_pool ps')); by apply str_app_inj_r in Hip2).
    congruence.
  - intros k l ip (i & Hi & Hs)%(po_routes _ Hok) Hip. apply Hs, list_elem_of_singleton in Hip as ->.
    exists i. split; [by eapply pool_range; [apply Hok|]|]. split; [done|]. by eapply po_metered.
  - rewrite <-(size_dom (D:=gset string)).
    assert (dom (wg_peers iface (p_wg ps')) ⊆ (list_to_set ((fun i => default "" (allocated (p_pool ps') !! i)) <$> seqZ 2 253) : gset string)) as Hsub.
    { intros k [l Hl]%elem_of_dom. apply (po_routes _ Hok) in Hl as (i & Hi & _).
      apply elem_of_list_to_set, list_elem_of_fmap. exists i. rewrite Hi. split; [done|].
      apply elem_of_seqZ. apply pool_range in Hi; [lia|apply Hok]. }
    apply subseteq_size in Hsub. etrans; [apply Nat2Z.inj_le, Hsub|].
    etrans; [apply Nat2Z.inj_le, list_to_set_size_le|]. by rewrite length_fmap, length_seqZ.
Qed.
End peers_lemmas.

(** ** Reaping *)
Section reaping.
Context {W Q : Type} `{WgManagerLaws W} `{EnforcerLaws Q}.
Context (range : pool_order) (Hrange : fair range).

(** Reaping. With the statistics read, exactly the peers idle for at least
    the given time are removed from the device and lose their slot; the count
    returned is how many there were. *)
Theorem reap_idle_exact iface idle now1 now (ps ps' : Peers W Q) stats n
    (Hrem : removable iface) (Hok : peers_ok iface ps)
    (Hstats : wg_GetPeerStats now1 iface (p_wg ps) = Ok stats)
    (Hrun : ReapIdle range iface idle now1 now ps = (n, ps')) :
  let idle_slot i k := is_idle idle now (lastHandshake stats)
    (mkEntry (addr (p_pool ps) i) k (default zero_time (since (p_pool ps) !! i))) in
  (forall i k, allocated (p_pool ps') !! i = Some k <->
     allocated (p_pool ps) !! i = Some k /\ idle_slot i k = false) /\
  (forall k, is_Some (wg_peers iface (p_wg ps') !! k) <->
     exists i, allocated (p_pool ps) !! i = Some k /\ idle_slot i k = false) /\
  n = Count (p_pool ps) - Count (p_pool ps').
Proof.
  intros idle_slot. unfold ReapIdle in Hrun. rewrite Hstats in Hrun.
  destruct (entries_keys _ Hrange _ (po_pool _ _ Hok)) as [Hnd Hes].
  pose proof (reap_loop_ok _ Hrange _ _ _ _ _ _ _ _ _ Hrem Hok Hnd
    ltac:(intros e (i & k & Hi & ->)%Hes; by exists i) Hrun) as (Hok' & Hn & Ha & Hw).
  assert (forall i k, allocated (p_pool ps) !! i = Some k ->
    k ∉ pe_Pubkey <$> bfilter (is_idle idle now (lastHandshake stats)) (Entries range (p_pool ps)) <->
    idle_slot i k = false) as Hgone.
  { intros i k Hi. rewrite list_elem_of_fmap. split.
    - intros Hno. apply not_true_iff_false. intros Hidle. apply Hno. eexists. split; [|apply elem_of_bfilter;
        split; [exact Hidle|]; apply Hes; by exists i, k]. done.
    - intros Hf (e & -> & [Hidle (j & k' & Hj & ->)%Hes]%elem_of_bfilter). simpl in *.
      assert (i = j) as -> by (eapply pool_inj; [apply Hok|..]; done). unfold idle_slot in Hf. congruence. }
  assert (forall i k, allocated (p_pool ps') !! i = Some k <->
     allocated (p_pool ps) !! i = Some k /\ idle_slot i k = false) as Hslots.
  { intros i k. rewrite Ha. split; intros [Hi Hx]; (split; [done|]); by apply (Hgone i k Hi). }
  split_and!; [exact Hslots| |].
  - intros k. split.
    + intros [l Hl]. apply (po_routes _ _ Hok') in Hl as (i & Hi & _). exists i. by apply Hslots.
    + intros (i & Hi). apply Hslots in Hi. by eapply po_present.
  - assert (map_to_list (allocated (p_pool ps')) ≡ₚ
      bfilter (fun e => negb (idle_slot e.1 e.2)) (range (allocated (p_pool ps)))) as Hperm.
    { apply NoDup_Permutation; [apply NoDup_map_to_list| |].
      - apply NoDup_bfilter. rewrite (Hrange (allocated (p_pool ps))). apply NoDup_map_to_list.
      - intros [i k]. rewrite elem_of_map_to_list, Hslots, elem_of_bfilter, negb_true_iff. simpl.
        rewrite <-(in_range _ Hrange (p_pool ps) i k). tauto. }
    unfold Count. rewrite <-!length_map_to_list, Hperm, <-(Hrange (allocated (p_pool ps))).
    rewrite length_fmap in Hn. unfold Entries in Hn. rewrite length_bfilter_fmap in Hn.
    pose proof (length_bfilter_split (fun e => idle_slot e.1 e.2) (range (allocated (p_pool ps)))).
    change (n = 0 + Z.of_nat (length (bfilter (fun e => idle_slot e.1 e.2)
      (range (allocated (p_pool ps)))))) in Hn. unfold compose in *. lia.
Qed.
End reaping.

(** ** Concrete nodes *)
Definition toy_nft : Type := gmap string Z * gmap string string.
#[export] Instance toy_nft_cmd : Nft toy_nft := {|
  nftCmd := fun c n =>
    match c with
    | AddQuota name bytes => (true, (<[name := bytes]> n.1, n.2))
    | AddElement ip name => (true, (n.1, <[ip := name]> n.2))
    | DeleteElement ip => (true, (n.1, delete ip n.2))
    | DeleteQuota name => (true, (delete name n.1, n.2))
    end;
  nft_objects := fst;
  nft_quotas := snd
|}.
#[export] Instance toy_nft_laws : NftLaws toy_nft.
Proof. split; intros []; simpl; intros; by simplify_eq. Qed.

Definition toy_range : pool_order := fun m => map_to_list m.
Lemma toy_range_fair : fair toy_range.
Proof. by intros m. Qed.

Definition toy_wg : MockManager := {[ "wg0"%string := ∅ ]}.
Definition toy_peers : Peers MockManager toy_nft := mkPeers (newTunnelIPPool "10.100.0") toy_wg (∅, ∅).
Definition toy_alice : Peers MockManager toy_nft := (grantPeer toy_range "wg0" 0 "alice" 1000 toy_peers).2.
Definition toy_both : Peers MockManager toy_nft := (grantPeer toy_range "wg0" 80 "bob" 2000 toy_alice).2.

Lemma mock_removable iface : removable (W:=MockManager) iface.
Proof.
  intros k m. simpl. unfold Mock_RemovePeer. destruct (m !! iface) as [peers|]; simpl.
  - rewrite lookup_fmap, fmap_is_Some. by intros [p ->].
  - by intros [? ?].
Qed.

Lemma toy_fresh : fresh_peers "wg0" "10.100.0" toy_peers.
Proof. split_and!; [done|vm_compute; done|vm_compute; done|vm_compute; done|]. intros ip name _. vm_compute. done. Qed.

Lemma toy_steps : rtc (peers_step toy_range "wg0") toy_peers toy_both.
Proof.
  eapply rtc_l; [eapply (ps_grant _ _ 0 "alice" 1000); apply surjective_pairing|].
  eapply rtc_l; [eapply (ps_grant _ _ 80 "bob" 2000); apply surjective_pairing|]. apply rtc_refl.
Qed.

Lemma peers_isolated_witness :
  wg_peers "wg0" (p_wg toy_both) !! "bob"%string = Some ["10.100.0.3/32"%string] /\
  Z.of_nat (size (wg_peers "wg0" (p_wg toy_both))) <= 253.
Proof.
  split; [vm_compute; reflexivity|].
  refine (proj2 (proj2 (peers_isolated toy_range toy_range_fair "wg0" "10.100.0" toy_peers toy_both
    (mock_removable _) toy_fresh toy_steps))).
Defined.

Lemma toy_both_ok : peers_ok "wg0" toy_both.
Proof.
  eapply (peers_steps_ok toy_range toy_range_fair); [apply mock_removable|apply toy_steps|].
  eapply fresh_ok, toy_fresh.
Qed.

(** Alice was granted at 0 and Bob at 80; at 100, with handshakes at 10, a
    timeout of 50 reaps Alice alone. *)
Lemma reap_idle_exact_witness :
  exists stats ps', wg_GetPeerStats 10 "wg0" (p_wg toy_both) = Ok stats /\
    ReapIdle toy_range "wg0" 50 10 100 toy_both = (1, ps') /\
    1 = Count (p_pool toy_both) - Count (p_pool ps').
Proof.
  destruct (wg_GetPeerStats 10 "wg0" (p_wg toy_both)) as [stats|] eqn:Hs; [|by vm_compute in Hs].
  assert ((ReapIdle toy_range "wg0" 50 10 100 toy_both).1 = 1) as Hn by (vm_compute; reflexivity).
  exists stats, (ReapIdle toy_range "wg0" 50 10 100 toy_both).2.
  rewrite <-Hn, <-surjective_pairing. split_and!; [done|done|].
  refine (proj2 (proj2 (reap_idle_exact toy_range toy_range_fair "wg0" 50 10 100 toy_both _ stats _
    (mock_removable _) toy_both_ok Hs (surjective_pairing _)))).
Defined.

(** ** A double fault *)

(** A device that cannot remove peers, and a quota backend whose next calls
    fail as scripted. *)
Record flaky_wg := mkFlaky { fl_mock : MockManager }.
#[export] Instance flaky_manager : WgManager flaky_wg := {|
  wg_AddPeer := fun iface p w => let '(r, m) := Mock_AddPeer iface p (fl_mock w) in (r, mkFlaky m);
  wg_RemovePeer := fun iface k w => (Err "device busy"%string, w);
  wg_GetPeerStats := fun now iface w => Mock_GetPeerStats now iface (fl_mock w);
  wg_peers := fun iface w => wg_peers iface (fl_mock w)
|}.
Record scripted_quota := mkScripted { sq_script : list bool; sq_limits : gmap string Z }.
Definition scripted_set (ip : string) (bytes : Z) (q : scripted_quota) : result string unit * scripted_quota :=
  match sq_script q with
  | true :: r => (Err "nft add quota"%string, mkScripted r (sq_limits q))
  | false :: r => (Ok tt, mkScripted r (<[ip := bytes]> (sq_limits q)))
  | [] => (Ok tt, mkScripted [] (<[ip := bytes]> (sq_limits q)))
  end.
#[export] Instance scripted_enforcer : Enforcer scripted_quota := {|
  q_SetQuota := scripted_set;
  q_RefreshQuota := scripted_set;
  q_RemoveQuota := fun ip q => (Ok tt, mkScripted (sq_script q) (delete ip (sq_limits q)));
  q_limit := fun q ip => sq_limits q !! ip;
  q_ok := fun _ => True
|}.

(** AddPeer succeeds, then SetQuota and RemovePeer both fail. The slot is freed
    all the same, so the address of a peer still on the device goes to the next
    one: two peers are routed the same address. *)
Theorem double_fault_shares_address :
  let ps0 := mkPeers (newTunnelIPPool "10.100.0") (mkFlaky toy_wg) (mkScripted [true] ∅) in
  let '(r1, ps1) := grantPeer toy_range "wg0" 0 "alice" 1000 ps0 in
  let '(r2, ps2) := grantPeer toy_range "wg0" 1 "bob" 1000 ps1 in
  is_ok r1 = false /\ r2 = Ok "10.100.0.2"%string /\
  wg_peers "wg0" (p_wg ps2) !! "alice"%string = Some ["10.100.0.2/32"%string] /\
  wg_peers "wg0" (p_wg ps2) !! "bob"%string = Some ["10.100.0.2/32"%string].
Proof. vm_compute. done. Qed.
