(* ===== verification/Connect.v ===== *)
(** * Connect: the node's admin and connect server
    (src/internal/control/api.go, node/tokengate.go, node/hub_redeemer.go)

    The two payment gates and the HTTP handlers, over Control.v. The hub is
    reached over HTTP: what it answers is an argument, which the last theorem
    instantiates with the hub's own /spend handler of Payments.v. *)
From S2P Require Import Prelude Sql Schema Credentials Repository Ledger Ecash Mint Nostr Usage Payments Peers IPPool Control.

(** ** The payment gates (node/tokengate.go, node/hub_redeemer.go) *)

(** What an HTTP request to the hub comes back with: no answer, or a status
    and the body when it decodes. *)
Inductive hub_answer (A : Type) :=
| NoAnswer
| Answer (status : Z) (body : option A).
Arguments NoAnswer {A}.
Arguments Answer {A} status body.

Record SpendResult := mkSpendResult { sv_Valid : bool; sv_FirstSpend : bool; sv_BytesPerToken : Z }.
Definition invalid_token : SpendResult := mkSpendResult false false 0.

Record redeemResponse := mkRedeemResponse { rr_OK : bool; rr_BytesAllowed : Z; rr_SatsRedeemed : Z }.
Record CashuRedeemResult := mkCashuRedeem { cr_BytesAllowed : Z; cr_SatsRedeemed : Z }.
Record CashuConnectResult := mkCashuConnect { cc_TunnelIP : string; cc_NodeWGPubkey : string; cc_BytesAllowed : Z }.

Inductive redeem_error :=
| ErrRedeemInvalidProof
| ErrRedeemAlreadySpent
| ErrRedeemHubDown
| ErrRedeemRateLimited
| ErrRedeemCircuitOpen
| ErrRedeemOther (msg : string).

Section gates.
Context `{BlindScheme}.

Record TokenGate := mkGate { tg_verifier : gmap string DenominationKey; tg_nodePubkey : string }.

(** The request the gate sends to the hub's /spend. *)
Definition spend_request (g : TokenGate) (t : BlindToken) : SpendRequest :=
  mkSpend (bt_KeyID t) (hex_encode (bt_TokenSecret t)) (hex_encode (bt_Signature t)) (tg_nodePubkey g).

Definition VerifyAndSpend (g : TokenGate) (hub : SpendRequest -> hub_answer SpendResponse)
    (token : BlindToken) : result string SpendResult :=
  match BlindVerifier_Verify (tg_verifier g) (Some token) with
  | Err _ => Ok invalid_token
  | Ok _ =>
      match hub (spend_request g token) with
      | NoAnswer => Err "spend request failed (hub unreachable?)"%string
      | Answer status body =>
          if status =? StatusUnauthorized then Ok invalid_token
          else if negb (status =? StatusOK) then Err "hub API error"%string
          else match body with
               | None => Err "decode spend response"%string
               | Some r => Ok (mkSpendResult true (sp_FirstSpend r) (sp_BytesPerToken r))
               end
      end
  end.

Definition VerifyOnly (g : TokenGate) (token : BlindToken) : result string SpendResult :=
  match BlindVerifier_Verify (tg_verifier g) (Some token) with
  | Err _ => Ok invalid_token
  | Ok _ =>
      match Denomination (tg_verifier g) (bt_KeyID token) with
      | None => Err "denomination lookup"%string
      | Some denom => Ok (mkSpendResult true true denom)
      end
  end.
End gates.

(** The redeemer posts the proofs and the node's key to /v1/redeem. *)
Definition Redeem (hub : list Proof_ -> hub_answer redeemResponse) (proofs : list Proof_) :
    result redeem_error CashuRedeemResult :=
  match hub proofs with
  | NoAnswer => Err ErrRedeemHubDown
  | Answer status body =>
      if status =? StatusOK then
        match body with
        | None => Err (ErrRedeemOther "decode redeem response")
        | Some r =>
            if rr_OK r then Ok (mkCashuRedeem (rr_BytesAllowed r) (rr_SatsRedeemed r))
            else Err (ErrRedeemOther "hub returned ok=false")
        end
      else if status =? StatusBadRequest then Err ErrRedeemInvalidProof
      else if status =? StatusConflict then Err ErrRedeemAlreadySpent
      else if status =? StatusTooManyRequests then Err ErrRedeemRateLimited
      else if status =? StatusServiceUnavailable then Err ErrRedeemCircuitOpen
      else Err ErrRedeemHubDown
  end.

Definition RedeemErrorResponse (e : redeem_error) : option (Z * string) :=
  match e with
  | ErrRedeemAlreadySpent => Some (StatusConflict, "proofs already spent"%string)
  | ErrRedeemInvalidProof => Some (StatusUnauthorized, "invalid proofs"%string)
  | ErrRedeemRateLimited => Some (StatusTooManyRequests, "hub rate-limited — try later"%string)
  | ErrRedeemCircuitOpen =>
      Some (StatusServiceUnavailable, "hub payment system temporarily down"%string)
  | ErrRedeemHubDown | ErrRedeemOther _ => None
  end.

(** ** The server (api.go) *)
Record AddPeerRequest := mkAddPeer {
  ap_PublicKey : string;
  ap_Endpoint : string;
  ap_AllowedIPs : list string;
  ap_Keepalive : Z;
  ap_TunnelIP : string;
  ap_QuotaBytes : Z
}.
Record SetQuotaRequest := mkSetQuota { qr_TunnelIP : string; qr_Bytes : Z }.
Record ConnectToken := mkConnectToken {
  ct_Version : Z; ct_KeyID : string; ct_TokenSecret : string; ct_Signature : string
}.
Record ConnectRequest := mkConnect { co_Token : ConnectToken; co_WGPubkey : string }.
Record ConnectResponse := mkConnected {
  cn_Status : string;
  cn_TunnelIP : string;
  cn_NodeWGPubkey : string;
  cn_BytesAllowed : Z;
  cn_FirstSpend : bool
}.
Record CashuConnectRequest := mkCashuRequest { cq_Proofs : list Proof_; cq_WGPubkey : string }.
Definition maxCashuConnectProofs : Z := 64.

Definition parseConnectToken (ct : ConnectToken) : result string BlindToken :=
  if str_empty (ct_TokenSecret ct) || str_empty (ct_Signature ct) || str_empty (ct_KeyID ct)
  then Err "missing required token fields"%string
  else match hex_decode (ct_TokenSecret ct) with
  | None => Err "invalid token_secret hex"%string
  | Some secret =>
      match hex_decode (ct_Signature ct) with
      | None => Err "invalid signature hex"%string
      | Some sg => Ok (mkBlindToken (ct_Version ct) (ct_KeyID ct) secret sg)
      end
  end.

Section server.
Context {W Q : Type} `{WgManager W} `{Enforcer Q} `{BlindScheme}.
Context (range : pool_order).

(** [s_redeemer]: whether a Cashu redeemer was configured. *)
Record Server := mkServer {
  s_iface : string;
  s_gate : option TokenGate;
  s_redeemer : bool;
  s_wgPubkey : string;
  s_ipPool : option tunnelIPPool;
  s_wg : W;
  s_quota : Q
}.

Definition NewServer (wg : W) (quota : Q) (iface : string) : Server :=
  mkServer iface None false "" None wg quota.
Definition EnableTokenGate (gate : TokenGate) (wgPubkey sub : string) (s : Server) : Server :=
  mkServer (s_iface s) (Some gate) (s_redeemer s) wgPubkey (Some (newTunnelIPPool sub)) (s_wg s) (s_quota s).
Definition EnableCashuGate (wgPubkey sub : string) (s : Server) : Server :=
  mkServer (s_iface s) (s_gate s) true wgPubkey
    (Some (default (newTunnelIPPool sub) (s_ipPool s))) (s_wg s) (s_quota s).

Definition peers_of (pool : tunnelIPPool) (s : Server) : Peers W Q := mkPeers pool (s_wg s) (s_quota s).
Definition with_peers (ps : Peers W Q) (s : Server) : Server :=
  mkServer (s_iface s) (s_gate s) (s_redeemer s) (s_wgPubkey s) (Some (p_pool ps)) (p_wg ps) (p_quota ps).
Definition with_devices (wg : W) (quota : Q) (s : Server) : Server :=
  mkServer (s_iface s) (s_gate s) (s_redeemer s) (s_wgPubkey s) (s_ipPool s) wg quota.

(** A handler's reply; [None] is a panic. *)
Definition handled (A : Type) : Type := option (reply A) * Server.

Definition handleAddPeer (body : option AddPeerRequest) (s : Server) : handled unit :=
  match body with
  | None => (Some (Fault StatusBadRequest "invalid request body"), s)
  | Some req =>
      match wg_AddPeer (s_iface s)
              (mkPeer (ap_PublicKey req) (ap_Endpoint req) (ap_AllowedIPs req) (ap_Keepalive req))
              (s_wg s) with
      | (Err e, wg1) =>
          (Some (Fault StatusInternalServerError ("add peer: " ++ e)), with_devices wg1 (s_quota s) s)
      | (Ok _, wg1) =>
          let q1 := if (0 <? ap_QuotaBytes req) && negb (str_empty (ap_TunnelIP req))
                    then (q_SetQuota (ap_TunnelIP req) (ap_QuotaBytes req) (s_quota s)).2
                    else s_quota s in
          (** req.PublicKey[:16] *)
          if slen (ap_PublicKey req) <? 16 then (None, with_devices wg1 q1 s)
          else (Some (Reply StatusCreated tt), with_devices wg1 q1 s)
      end
  end.

(** strings.TrimPrefix(path, prefix) *)
Definition trim_prefix (prefix s : string) : string :=
  if String.prefix prefix s
  then String.substring (String.length prefix) (String.length s - String.length prefix) s else s.

Definition handleRemovePeer (path : string) (s : Server) : handled unit :=
  let pubkey := trim_prefix "/peers/" path in
  if str_empty pubkey then (Some (Fault StatusBadRequest "missing public key"), s)
  else match s_ipPool s with
  | Some pool =>
      match removePeer range (s_iface s) pubkey (peers_of pool s) with
      | (Err e, ps) => (Some (Fault StatusInternalServerError e), with_peers ps s)
      | (Ok _, ps) => (Some (Reply StatusOK tt), with_peers ps s)
      end
  | None =>
      match wg_RemovePeer (s_iface s) pubkey (s_wg s) with
      | (Err e, wg1) =>
          (Some (Fault StatusInternalServerError ("remove peer: " ++ e)), with_devices wg1 (s_quota s) s)
      | (Ok _, wg1) => (Some (Reply StatusOK tt), with_devices wg1 (s_quota s) s)
      end
  end.

Definition handleListPeers (now : Z) (s : Server) : reply (list PeerStats) :=
  match wg_GetPeerStats now (s_iface s) (s_wg s) with
  | Err e => Fault StatusInternalServerError ("get stats: " ++ e)
  | Ok stats => Reply StatusOK stats
  end.

Definition handleSetQuota (body : option SetQuotaRequest) (s : Server) : handled unit :=
  match body with
  | None => (Some (Fault StatusBadRequest "invalid request body"), s)
  | Some req =>
      match q_RefreshQuota (qr_TunnelIP req) (qr_Bytes req) (s_quota s) with
      | (Err e, q1) =>
          (Some (Fault StatusInternalServerError ("set quota: " ++ e)), with_devices (s_wg s) q1 s)
      | (Ok _, q1) => (Some (Reply StatusOK tt), with_devices (s_wg s) q1 s)
      end
  end.

(** What the token is worth: the hub's verdict or, when the hub gave none, the
    node's own check of the signature. *)
Definition spend_or_verify (g : TokenGate) (hub : SpendRequest -> hub_answer SpendResponse)
    (token : BlindToken) : result string SpendResult :=
  match VerifyAndSpend g hub token with
  | Ok spend => Ok spend
  | Err _ => VerifyOnly g token
  end.

(** Everything handleConnect checks before it grants: the bytes bought. *)
Definition connect_checks (g : TokenGate) (hub : SpendRequest -> hub_answer SpendResponse)
    (body : option ConnectRequest) : result (Z * string) (string * Z) :=
  match body with
  | None => Err (StatusBadRequest, "invalid request body"%string)
  | Some req =>
      if str_empty (co_WGPubkey req) then Err (StatusBadRequest, "missing wg_pubkey"%string)
      else match parseConnectToken (co_Token req) with
      | Err e => Err (StatusBadRequest, ("invalid token: " ++ e)%string)
      | Ok token =>
          match spend_or_verify g hub token with
          | Err _ => Err (StatusInternalServerError, "token verification failed"%string)
          | Ok spend =>
              if negb (sv_Valid spend) then Err (StatusUnauthorized, "invalid token"%string)
              else if negb (sv_FirstSpend spend) then Err (StatusConflict, "token already spent"%string)
              else Ok (co_WGPubkey req, sv_BytesPerToken spend)
          end
      end
  end.

Definition handleConnect (now : Z) (hub : SpendRequest -> hub_answer SpendResponse)
    (body : option ConnectRequest) (s : Server) : handled ConnectResponse :=
  match s_gate s with
  | None => (Some (Fault StatusServiceUnavailable "token verification not configured"), s)
  | Some g =>
      match connect_checks g hub body with
      | Err (code, msg) => (Some (Fault code msg), s)
      | Ok (wgPubkey, bytes) =>
          match s_ipPool s with
          | None => (None, s)
          | Some pool =>
              match grantPeer range (s_iface s) now wgPubkey bytes (peers_of pool s) with
              | (Err (code, msg), ps) => (Some (Fault code msg), with_peers ps s)
              | (Ok tunnelIP, ps) =>
                  (Some (Reply StatusOK
                     (mkConnected "connected" (tunnelIP ++ "/32") (s_wgPubkey s) bytes true)),
                   with_peers ps s)
              end
          end
      end
  end.

Definition GrantCashuPeer (now : Z) (wgPubkey : string) (quotaBytes : Z) (pool : tunnelIPPool)
    (s : Server) : result (Z * string) CashuConnectResult * Server :=
  match grantPeer range (s_iface s) now wgPubkey quotaBytes (peers_of pool s) with
  | (Err e, ps) => (Err e, with_peers ps s)
  | (Ok tunnelIP, ps) =>
      (Ok (mkCashuConnect (tunnelIP ++ "/32") (s_wgPubkey s) quotaBytes), with_peers ps s)
  end.

Definition cashu_checks (hub : list Proof_ -> hub_answer redeemResponse)
    (body : option CashuConnectRequest) : result (Z * string) (string * Z) :=
  match body with
  | None => Err (StatusBadRequest, "invalid request body"%string)
  | Some req =>
      if str_empty (cq_WGPubkey req) then Err (StatusBadRequest, "missing wg_pubkey"%string)
      else if Z.of_nat (length (cq_Proofs req)) =? 0
        then Err (StatusBadRequest, "no proofs provided"%string)
      else if maxCashuConnectProofs <? Z.of_nat (length (cq_Proofs req))
        then Err (StatusBadRequest, ("too many proofs (max " ++ show_Z maxCashuConnectProofs ++ ")")%string)
      else match Redeem hub (cq_Proofs req) with
      | Err e =>
          Err (default (StatusBadGateway, "hub verification failed"%string) (RedeemErrorResponse e))
      | Ok r => Ok (cq_WGPubkey req, cr_BytesAllowed r)
      end
  end.

Definition handleCashuConnect (now : Z) (hub : list Proof_ -> hub_answer redeemResponse)
    (body : option CashuConnectRequest) (s : Server) : handled ConnectResponse :=
  if negb (s_redeemer s)
  then (Some (Fault StatusServiceUnavailable "cashu verification not configured"), s)
  else match cashu_checks hub body with
  | Err (code, msg) => (Some (Fault code msg), s)
  | Ok (wgPubkey, bytes) =>
      match s_ipPool s with
      | None => (None, s)
      | Some pool =>
          match GrantCashuPeer now wgPubkey bytes pool s with
          | (Err (code, msg), s1) => (Some (Fault code msg), s1)
          | (Ok r, s1) =>
              (Some (Reply StatusOK (mkConnected "connected" (cc_TunnelIP r) (cc_NodeWGPubkey r)
                       (cc_BytesAllowed r) true)), s1)
          end
      end
  end.

(** A gate that is enabled has a pool. *)
Definition server_ready (s : Server) : Prop :=
  (is_Some (s_gate s) \/ s_redeemer s = true) -> is_Some (s_ipPool s).
End server.

(** ReapIdle on the server, and the idle time StartReaper uses. *)
Section reaper.
Context {W Q : Type} `{WgManager W} `{Enforcer Q} `{BlindScheme}.
Context (range : pool_order).

Definition Server_ReapIdle (idle now1 now : Z) (s : Server) : Z * Server :=
  match s_ipPool s with
  | None => (0, s)
  | Some pool =>
      let '(n, ps) := ReapIdle range (s_iface s) idle now1 now (peers_of pool s) in (n, with_peers ps s)
  end.

Definition StartReaper_idle (idle : Z) : Z := if idle <=? 0 then DefaultPeerIdleTimeout else idle.
End reaper.

(** ** Theorems on connecting *)
Section theorems.
Context {W Q : Type} `{WgManagerLaws W} `{EnforcerLaws Q} `{BlindScheme}.
Context (range : pool_order) (Hrange : fair range).

(** ** Connecting with a blind token *)
Lemma VerifyAndSpend_cases g hub token :
  match VerifyAndSpend g hub token with
  | Ok (mkSpendResult true first bytes) =>
      BlindVerifier_Verify (tg_verifier g) (Some token) = Ok tt /\
      hub (spend_request g token) = Answer StatusOK (Some (mkSpendR first bytes))
  | _ => True
  end.
Proof.
  unfold VerifyAndSpend. destruct (BlindVerifier_Verify _ _) as [[]|]; [|done].
  destruct (hub _) as [|status [[first bytes]|]]; [done|..];
    destruct (status =? StatusUnauthorized); try done; destruct (status =? StatusOK) eqn:Hs; try done.
  simpl. bprop. by rewrite Hs.
Qed.

Lemma VerifyOnly_cases g token :
  match VerifyOnly g token with
  | Ok (mkSpendResult true first bytes) =>
      BlindVerifier_Verify (tg_verifier g) (Some token) = Ok tt /\
      Denomination (tg_verifier g) (bt_KeyID token) = Some bytes
  | _ => True
  end.
Proof.
  unfold VerifyOnly. destruct (BlindVerifier_Verify _ _) as [[]|]; [|done].
  by destruct (Denomination _ _).
Qed.

(** What the checks establish about an accepted request. *)
Definition paid_connect (g : TokenGate) (hub : SpendRequest -> hub_answer SpendResponse)
    (body : option ConnectRequest) (k : string) (bytes : Z) : Prop :=
  exists req token, body = Some req /\ k = co_WGPubkey req /\ str_empty k = false /\
    parseConnectToken (co_Token req) = Ok token /\
    BlindVerifier_Verify (tg_verifier g) (Some token) = Ok tt /\
    (hub (spend_request g token) = Answer StatusOK (Some (mkSpendR true bytes)) \/
     (is_ok (VerifyAndSpend g hub token) = false /\
      Denomination (tg_verifier g) (bt_KeyID token) = Some bytes)).

Lemma connect_checks_paid g hub body k bytes :
  connect_checks g hub body = Ok (k, bytes) -> paid_connect g hub body k bytes.
Proof.
  unfold connect_checks. destruct body as [req|]; [|done].
  destruct (str_empty (co_WGPubkey req)) eqn:He; [done|].
  destruct (parseConnectToken (co_Token req)) as [token|] eqn:Hp; [|done].
  unfold spend_or_verify. pose proof (VerifyAndSpend_cases g hub token) as Hs.
  pose proof (VerifyOnly_cases g token) as Ho.
  destruct (VerifyAndSpend g hub token) as [[[] first b]|] eqn:Hv; simpl; [|done|].
  - destruct first; [|done]. intros ?; simplify_eq/=. destruct Hs. exists req, token.
    split_and!; try done. by left.
  - destruct (VerifyOnly g token) as [[[] first b]|]; [|done..]. simpl. destruct first; [|done].
    intros ?; simplify_eq/=. destruct Ho. exists req, token.
    split_and!; try done. right. by rewrite Hv.
Qed.

(** POST /connect. Access is granted only for a token whose signature this
    node verified and that the hub called a first spend, or that the hub did not
    judge; the peer then has its own slot, address and quota of exactly the
    bytes bought. A refusal before granting changes nothing, a full pool gives
    503, and a failed grant leaves the peers as they were or the peer removed. *)
Theorem connect_outcomes now hub body (s : Server) g pool
    (Hgate : s_gate s = Some g) (Hpool : s_ipPool s = Some pool)
    (Hok : peers_ok (s_iface s) (peers_of pool s)) (Hrem : removable (s_iface s)) :
  match handleConnect range now hub body s with
  | (Some (Reply code r), s') => code = StatusOK /\
      exists k bytes ip ps', paid_connect g hub body k bytes /\
        r = mkConnected "connected" (ip ++ "/32") (s_wgPubkey s) bytes true /\
        s' = with_peers ps' s /\ granted (s_iface s) k bytes ip (peers_of pool s) ps'
  | (Some (Fault code _), s') =>
      (exists msg, connect_checks g hub body = Err (code, msg) /\ s' = s) \/
      exists k bytes ps', paid_connect g hub body k bytes /\ s' = with_peers ps' s /\
        (code = StatusServiceUnavailable /\ ps' = peers_of pool s /\ Count pool = 253 \/
         code = StatusInternalServerError /\
           (unchanged (s_iface s) (peers_of pool s) ps' \/ dropped (s_iface s) k (peers_of pool s) ps'))
  | (None, _) => False
  end.
Proof.
  unfold handleConnect. rewrite Hgate, Hpool.
  destruct (connect_checks g hub body) as [[k bytes]|[code msg]] eqn:Hc; [|left; by exists msg].
  apply connect_checks_paid in Hc.
  destruct (grantPeer _ _ _ _ _ _) as [r ps'] eqn:Hg.
  apply (grantPeer_ok _ Hrange) in Hg as [_ Hg]; [|done..]. destruct r as [ip|[code msg]].
  - split; [done|]. by exists k, bytes, ip, ps'.
  - right. exists k, bytes, ps'. split; [done|]. split; [done|].
    destruct Hg as [(-> & -> & ? & _)|[-> ?]]; [by left|by right].
Qed.

(** ** One token, two nodes *)

(** The hub as the ledger of Repository.v behind /spend. *)
Definition hub_at (keys : gmap string DenominationKey) (now : string) (db : DB)
    (req : SpendRequest) : hub_answer SpendResponse :=
  match (handleSpend keys now POST (Some req) db).1 with
  | Reply code b => Answer code (Some b)
  | Fault code _ => Answer code None
  end.

(** For a token that passed the gate's own verification the hub always gives a
    verdict: invalid, or whether the token was unspent. *)
Lemma hub_verdict keys now db g token :
  str_empty (tg_nodePubkey g) = false ->
  BlindVerifier_Verify (tg_verifier g) (Some token) = Ok tt ->
  let id := TokenID (mkBlindToken BlindTokenVersion (bt_KeyID token) (bt_TokenSecret token) "") in
  VerifyAndSpend g (hub_at keys now db) token = Ok invalid_token \/
  (exists bytes, VerifyAndSpend g (hub_at keys now db) token =
     Ok (mkSpendResult true (negb (IsSpent id db)) bytes)) /\
  IsSpent id (handleSpend keys now POST (Some (spend_request g token)) db).2 = true.
Proof.
  intros Hnode Hv id. unfold VerifyAndSpend. rewrite Hv. unfold hub_at.
  unfold BlindVerifier_Verify in Hv. destruct (negb _); [done|].
  destruct (str_empty (bt_KeyID token)) eqn:Hk; [done|].
  destruct (str_empty (bt_TokenSecret token)) eqn:Hs; [done|].
  destruct (str_empty (bt_Signature token)) eqn:Hg; [done|]. clear Hv.
  assert (forall s, str_empty s = false -> str_empty (hex_encode s) = false) as Hhex.
  { intros [|c s]; [done|]. done. }
  destruct (spend_complete keys now (spend_request g token) (bt_TokenSecret token)
    (bt_Signature token) db) as [[msg ->]|(bytes & db' & _ & -> & Hsp & _)];
    [done|by apply Hhex|by apply Hhex|done|apply hex_decode_encode..| |].
  - by left.
  - right. by split; [exists bytes|].
Qed.

(** A token connects once. With the hub's ledger behind /spend, a token that
    got a client through one node's /connect is refused by every node, that one
    included, at any later time: nothing in between can make it unspent. *)
Theorem token_connects_once keys t1 t2 now1 now2 g1 g2 (s1 s2 s1' : Server) req1 req2 tok1 tok2 r db os
    (Hg1 : s_gate s1 = Some g1) (Hg2 : s_gate s2 = Some g2)
    (Hn1 : str_empty (tg_nodePubkey g1) = false) (Hn2 : str_empty (tg_nodePubkey g2) = false)
    (Hp1 : parseConnectToken (co_Token req1) = Ok tok1)
    (Hp2 : parseConnectToken (co_Token req2) = Ok tok2)
    (Hsame : bt_KeyID tok1 = bt_KeyID tok2 /\ bt_TokenSecret tok1 = bt_TokenSecret tok2)
    (Hrun : handleConnect range now1 (hub_at keys t1 db) (Some req1) s1 = (Some (Reply StatusOK r), s1')) :
  let db1 := (handleSpend keys t1 POST (Some (spend_request g1 tok1)) db).2 in
  exists code msg, 400 <= code <= 409 /\
    handleConnect range now2 (hub_at keys t2 (run_ops os db1)) (Some req2) s2
      = (Some (Fault code msg), s2).
Proof.
  intros db1. destruct Hsame as [Hk Hs].
  set (id := TokenID (mkBlindToken BlindTokenVersion (bt_KeyID tok1) (bt_TokenSecret tok1) "")).
  assert (IsSpent id db1 = true) as Hspent.
  { unfold handleConnect in Hrun. rewrite Hg1 in Hrun.
    destruct (connect_checks g1 _ _) as [[k bytes]|[]] eqn:Hc; [|done]. clear Hrun.
    unfold connect_checks in Hc. destruct (str_empty (co_WGPubkey req1)); [done|]. rewrite Hp1 in Hc.
    destruct (BlindVerifier_Verify (tg_verifier g1) (Some tok1)) as [[]|] eqn:Hv.
    - destruct (hub_verdict keys t1 db g1 tok1 Hn1 Hv) as [Hx|[_ Hx]]; [|done].
      unfold spend_or_verify in Hc. by rewrite Hx in Hc.
    - unfold spend_or_verify, VerifyAndSpend in Hc. by rewrite Hv in Hc. }
  apply (IsSpent_mono _ os) in Hspent. unfold id in Hspent. rewrite Hk, Hs in Hspent.
  unfold handleConnect. rewrite Hg2. unfold connect_checks.
  destruct (str_empty (co_WGPubkey req2)); [by exists StatusBadRequest; eexists|].
  rewrite Hp2. unfold spend_or_verify.
  destruct (BlindVerifier_Verify (tg_verifier g2) (Some tok2)) as [[]|] eqn:Hv.
  - destruct (hub_verdict keys t2 (run_ops os db1) g2 tok2 Hn2 Hv) as [->|[[bytes ->] _]]; simpl.
    + by exists StatusUnauthorized; eexists.
    + rewrite Hspent. simpl. by exists StatusConflict; eexists.
  - unfold VerifyAndSpend. rewrite Hv. simpl. by exists StatusUnauthorized; eexists.
Qed.
End theorems.

(** ** A concrete server *)
Definition toy_gate : TokenGate := mkGate toy_denoms "node-1".
Definition toy_quota : toy_nft := (∅, ∅).
Definition toy_server : Server :=
  EnableTokenGate toy_gate "node-key" "10.100.0" (NewServer toy_wg toy_quota "wg0").
Definition toy_connect (key : string) : ConnectRequest :=
  mkConnect (mkConnectToken 1 "key-1" (hex_encode "secret") (hex_encode "secret")) key.
Definition toy_token : BlindToken := mkBlindToken 1 "key-1" "secret" "secret".
Definition toy_hub : SpendRequest -> hub_answer SpendResponse := hub_at toy_denoms "t0" empty_db.
Definition toy_connected : handled ConnectResponse :=
  handleConnect toy_range 0 toy_hub (Some (toy_connect "alice")) toy_server.

Lemma connect_outcomes_witness :
  exists r, toy_connected.1 = Some (Reply StatusOK r) /\ cn_TunnelIP r = "10.100.0.2/32"%string /\
    exists k bytes, paid_connect toy_gate toy_hub (Some (toy_connect "alice")) k bytes.
Proof.
  exists (mkConnected "connected" "10.100.0.2/32" "node-key" 100000000 true).
  assert (toy_connected.1 = Some (Reply StatusOK
    (mkConnected "connected" "10.100.0.2/32" "node-key" 100000000 true))) as Hr by (vm_compute; reflexivity).
  split; [exact Hr|]. split; [reflexivity|].
  pose proof (connect_outcomes toy_range toy_range_fair 0 toy_hub (Some (toy_connect "alice"))
    toy_server toy_gate (newTunnelIPPool "10.100.0") eq_refl eq_refl
    (fresh_ok _ "10.100.0" toy_peers toy_fresh) (mock_removable _)) as Ho.
  fold toy_connected in Ho. destruct toy_connected as [reply s']. simpl in Hr. rewrite Hr in Ho.
  destruct Ho as (_ & k & bytes & _ & _ & Hp & _). exists k, bytes. exact Hp.
Defined.

Lemma token_connects_once_witness :
  let db1 := (handleSpend toy_denoms "t0" POST (Some (spend_request toy_gate toy_token)) empty_db).2 in
  exists code msg, 400 <= code <= 409 /\
    handleConnect toy_range 9 (hub_at toy_denoms "t1" (run_ops [] db1)) (Some (toy_connect "mallory"))
      toy_server = (Some (Fault code msg), toy_server).
Proof.
  assert (toy_connected.1 = Some (Reply StatusOK
    (mkConnected "connected" "10.100.0.2/32" "node-key" 100000000 true))) as Hr by (vm_compute; reflexivity).
  apply (token_connects_once toy_range toy_denoms "t0" "t1" 0 9 toy_gate toy_gate toy_server toy_server
    toy_connected.2 (toy_connect "alice") (toy_connect "mallory") toy_token toy_token
    (mkConnected "connected" "10.100.0.2/32" "node-key" 100000000 true) empty_db []);
    try reflexivity; try (split; reflexivity).
Defined.

(** POST /peers answers a short key by panicking, after the peer was added. *)
Theorem short_key_panics :
  let '(r, s) := handleAddPeer (Some (mkAddPeer "short" "" ["10.0.0.9/32"%string] 0 "" 0)) toy_server in
  r = None /\ wg_peers "wg0" (s_wg s) !! "short"%string = Some ["10.0.0.9/32"%string].
Proof. vm_compute. done. Qed.
