(* ===== verification/ProofVault.v ===== *)
(** * ProofVault: the client's store of unspent proofs
    (src/internal/wallet/store.go)

    [EncryptedProofStore] as the decrypted vault in memory and the one a later
    open would read from disk; whether a write of the vault succeeds is an
    argument. VaultFile has the encrypted file, and proves that it implements what
    is defined here. *)
From Stdlib Require Import Sorting.Sorted.
From S2P Require Import Prelude Sql Ecash Mint.

Record EncryptedProofStore := mkVault {
  v_hubs : gmap string (list Proof_);
  v_disk : gmap string (list Proof_)
}.

Inductive wallet_error :=
| ErrInsufficientBalance
| HubError (status : Z)
| WalletErr (msg : string).

Definition held (hubURL : string) (v : EncryptedProofStore) : list Proof_ := default [] (v_hubs v !! hubURL).

(** persist: a temporary file renamed over the vault, all or nothing. *)
Definition persist (ok : bool) (v : EncryptedProofStore) : result wallet_error unit * EncryptedProofStore :=
  if ok then (Ok tt, mkVault (v_hubs v) (v_hubs v)) else (Err (WalletErr "write proof store"), v).

Definition with_hub (hubURL : string) (ps : list Proof_) (v : EncryptedProofStore) : EncryptedProofStore :=
  mkVault (<[hubURL := ps]> (v_hubs v)) (v_disk v).

Definition List_ (hubURL : string) (v : EncryptedProofStore) : list Proof_ := held hubURL v.

(** ** Add *)

(** The loop over the new proofs: a secret already held is skipped. *)
Fixpoint add_loop (existing : gset string) (proofs : list Proof_) : list Proof_ :=
  match proofs with
  | [] => []
  | p :: r =>
      if bool_decide (p_Secret p ∈ existing) then add_loop existing r
      else p :: add_loop ({[p_Secret p]} ∪ existing) r
  end.

Definition Add (ok : bool) (hubURL : string) (proofs : list Proof_) (v : EncryptedProofStore) :
    result wallet_error unit * EncryptedProofStore :=
  if str_empty hubURL then (Err (WalletErr "hub URL is required"), v)
  else match proofs with
  | [] => (Ok tt, v)
  | _ =>
      let existing := list_to_set (p_Secret <$> held hubURL v) in
      let added := add_loop existing proofs in
      persist ok (match added with [] => v | _ => with_hub hubURL (held hubURL v ++ added) v end)
  end.

(** ** Take *)

(** sort.SliceStable of the indices, by descending amount *)
Definition amount_ge (a b : nat * Proof_) : bool := p_Amount b.2 <=? p_Amount a.2.
Definition by_amount (available : list Proof_) : list (nat * Proof_) :=
  order_by amount_ge (imap pair available).

(** The first pass: the largest proofs that still fit. uint64 throughout. *)
Fixpoint fill (amountSats : Z) (order : list (nat * Proof_)) (selected : gset nat) (collected : Z) :
    gset nat * Z :=
  match order with
  | [] => (selected, collected)
  | (idx, p) :: r =>
      if amountSats <=? collected then (selected, collected)
      else if p_Amount p <=? amountSats -u collected
      then fill amountSats r ({[idx]} ∪ selected) (collected +u p_Amount p)
      else fill amountSats r selected collected
  end.

(** The second pass: the smallest untaken proof that closes the shortfall. *)
Fixpoint cover (short : Z) (order : list (nat * Proof_)) (selected : gset nat)
    (best : option (nat * Proof_)) : option (nat * Proof_) :=
  match order with
  | [] => best
  | (idx, p) :: r =>
      if bool_decide (idx ∈ selected) then cover short r selected best
      else if p_Amount p <? short then cover short r selected best
      else match best with
           | None => cover short r selected (Some (idx, p))
           | Some b => cover short r selected (if p_Amount p <? p_Amount b.2 then Some (idx, p) else best)
           end
  end.

Definition select (available : list Proof_) (amountSats : Z) : option (gset nat) :=
  let '(selected, collected) := fill amountSats (by_amount available) ∅ 0 in
  if collected <? amountSats then
    match cover (amountSats -u collected) (by_amount available) selected None with
    | None => None
    | Some b => Some ({[b.1]} ∪ selected)
    end
  else Some selected.

(** The proofs whose index is selected, in the order held, or not selected. *)
Definition chosen (b : bool) (selected : gset nat) (available : list Proof_) : list Proof_ :=
  snd <$> bfilter (fun e => Bool.eqb b (bool_decide (e.1 ∈ selected))) (imap pair available).

Definition Take (ok : bool) (hubURL : string) (amountSats : Z) (v : EncryptedProofStore) :
    result wallet_error (list Proof_) * EncryptedProofStore :=
  if amountSats =? 0 then (Err (WalletErr "amount must be greater than zero"), v)
  else
    let available := held hubURL v in
    if usum_by p_Amount available <? amountSats then (Err ErrInsufficientBalance, v)
    else match select available amountSats with
    | None => (Err ErrInsufficientBalance, v)
    | Some selected =>
        match persist ok (with_hub hubURL (chosen false selected available) v) with
        | (Ok _, v1) => (Ok (chosen true selected available), v1)
        | (Err e, v1) => (Err e, with_hub hubURL available v1)
        end
    end.

(** ** Lemmas *)
Definition amt (e : nat * Proof_) : Z := p_Amount e.2.
Definition worth (ps : list Proof_) : Z := zsum_by p_Amount ps.

(** Amounts of proofs are uint64 and a wallet's total does not overflow. *)
Definition sane (ps : list Proof_) : Prop := Forall (fun p => 0 <= p_Amount p) ps /\ worth ps < 2 ^ 64.

Lemma ins_sorted_desc x l :
  StronglySorted (fun a b => amt b <= amt a) l ->
  StronglySorted (fun a b => amt b <= amt a) (ins_sorted amount_ge x l).
Proof.
  induction 1 as [|y l Hs IH Hy]; simpl; [by repeat constructor|].
  destruct (amount_ge x y) eqn:Hc; unfold amount_ge in Hc; bprop.
  - constructor; [by constructor|]. constructor; [done|].
    eapply Forall_impl; [exact Hy|]. unfold amt in *. intros e He. simpl in He. lia.
  - constructor; [done|]. rewrite ins_sorted_perm. constructor; [unfold amt; lia|done].
Qed.

Lemma by_amount_sorted ps : StronglySorted (fun a b => amt b <= amt a) (by_amount ps).
Proof.
  unfold by_amount, order_by. induction (imap pair ps) as [|e l IH]; simpl; [constructor|].
  by apply ins_sorted_desc.
Qed.

Lemma indexed_snd (ps : list Proof_) : (imap pair ps).*2 = ps.
Proof.
  rewrite fmap_imap. rewrite (imap_ext _ (const id)) by done.
  by rewrite imap_const, list_fmap_id.
Qed.

Lemma indexed_in (ps : list Proof_) e : e ∈ imap pair ps <-> ps !! e.1 = Some e.2.
Proof.
  rewrite elem_of_lookup_imap. split.
  - by intros (i & y & -> & Hi).
  - destruct e as [i y]. intros Hi. by exists i, y.
Qed.

Lemma indexed_NoDup (ps : list Proof_) : NoDup (imap pair ps).*1.
Proof.
  rewrite fmap_imap, (imap_ext _ (fun i _ => i)) by done.
  rewrite (imap_seq_0 ps (fun i => i)), list_fmap_id. apply NoDup_seq.
Qed.

Lemma by_amount_perm ps : by_amount ps ≡ₚ imap pair ps.
Proof. apply order_by_perm. Qed.

(** *** The first pass, on exact integers *)
Fixpoint greedy (short : Z) (l : list (nat * Proof_)) : list (nat * Proof_) :=
  match l with
  | [] => []
  | e :: r =>
      if short <=? 0 then []
      else if amt e <=? short then e :: greedy (short - amt e) r
      else greedy short r
  end.

Lemma greedy_sublist short l : greedy short l `sublist_of` l.
Proof.
  revert short. induction l as [|e l IH]; intros short; simpl; [done|].
  destruct (short <=? 0); [apply sublist_nil_l|]. destruct (amt e <=? short).
  - by apply sublist_skip.
  - by apply sublist_cons.
Qed.

Lemma greedy_le short l : 0 <= short -> Forall (fun e => 0 <= amt e) l ->
  0 <= zsum_by amt (greedy short l) <= short.
Proof.
  revert short. induction l as [|e l IH]; intros short Hs Hall; simpl; [by rewrite zsum_by_nil|].
  apply Forall_cons in Hall as [He Hall]. destruct (short <=? 0); [by rewrite zsum_by_nil|].
  destruct (amt e <=? short) eqn:Hle; bprop; [|by apply IH].
  rewrite zsum_by_cons. specialize (IH (short - amt e) ltac:(lia) Hall). lia.
Qed.

(** What is left out is larger than the shortfall. *)
Lemma greedy_rest short l e : Forall (fun e => 0 <= amt e) l -> e ∈ l ->
  0 <= short -> zsum_by amt (greedy short l) < short ->
  e ∈ greedy short l \/ short - zsum_by amt (greedy short l) < amt e.
Proof.
  revert short. induction l as [|x l IH]; intros short Hall Hin Hs; simpl; [by apply elem_of_nil in Hin|].
  apply Forall_cons in Hall as [Hx Hall]. destruct (short <=? 0) eqn:H0; bprop.
  { rewrite zsum_by_nil. lia. }
  destruct (amt x <=? short) eqn:Hle; bprop.
  - rewrite zsum_by_cons. intros Hlt. apply elem_of_cons in Hin as [->|Hin]; [left; by left|].
    destruct (IH (short - amt x)) as [?|?]; [done|done|lia|lia|left; by right|right; lia].
  - intros Hlt. apply elem_of_cons in Hin as [->|Hin]; [|by apply IH].
    right. pose proof (greedy_le short l Hs Hall). lia.
Qed.

Lemma fill_greedy amount l sel c :
  Forall (fun e => 0 <= amt e) l -> 0 <= c -> 0 <= amount < 2 ^ 64 -> c + zsum_by amt l < 2 ^ 64 ->
  fill amount l sel c
    = (list_to_set (greedy (amount - c) l).*1 ∪ sel, c + zsum_by amt (greedy (amount - c) l)).
Proof.
  revert sel c. induction l as [|[i p] l IH]; intros sel c Hall Hc Ha Hsum.
  { simpl. rewrite zsum_by_nil, Z.add_0_r. f_equal. set_solver. }
  apply Forall_cons in Hall as [Hp Hall]. rewrite zsum_by_cons in Hsum. cbn [fill greedy].
  pose proof (zsum_by_nonneg amt l Hall) as Hnn. change (p_Amount p) with (amt (i, p)).
  destruct (amount <=? c) eqn:Hac; bprop.
  { rewrite (proj2 (Z.leb_le (amount - c) 0)) by lia. rewrite zsum_by_nil, Z.add_0_r.
    f_equal. set_solver. }
  rewrite (proj2 (Z.leb_gt (amount - c) 0)) by lia.
  unfold sub_u64. rewrite wrap_u64_id by (unfold in_u64; lia).
  destruct (amt (i, p) <=? amount - c) eqn:Hle; bprop.
  - unfold add_u64. rewrite wrap_u64_id by (unfold in_u64; lia). rewrite IH by (done || lia).
    rewrite zsum_by_cons. replace (amount - (c + amt (i, p))) with (amount - c - amt (i, p)) by lia.
    f_equal; [|lia]. rewrite fmap_cons. simpl. set_solver.
  - by rewrite IH by (done || lia).
Qed.

(** *** The second pass *)
Lemma cover_Some short l sel best b :
  cover short l sel best = Some b ->
  best = Some b \/ (b ∈ l /\ b.1 ∉ sel /\ short <= amt b).
Proof.
  revert best. induction l as [|[i p] l IH]; simpl; intros best; [by left|].
  destruct (bool_decide (i ∈ sel)) eqn:Hi; bprop.
  { intros [?|(? & ? & ?)]%IH; [by left|right; by split_and!; [right|..]]. }
  destruct (p_Amount p <? short) eqn:Hlt; bprop.
  { intros [?|(? & ? & ?)]%IH; [by left|right; by split_and!; [right|..]]. }
  assert ((i, p) ∈ (i, p) :: l) as Hin by left.
  destruct best as [b0|]; [destruct (p_Amount p <? p_Amount b0.2)|];
    intros [?|(? & ? & ?)]%IH; simplify_eq; try (by left); right; split_and!; try done; by right.
Qed.

Lemma cover_None short l sel best e :
  cover short l sel best = None -> e ∈ l -> e.1 ∈ sel \/ amt e < short.
Proof.
  assert (forall l b, cover short l sel (Some b) <> None) as Hsome.
  { clear. induction l as [|[i p] l IH]; simpl; intros b; [done|].
    destruct (bool_decide _); [apply IH|]. destruct (_ <? _); [apply IH|].
    destruct (p_Amount p <? p_Amount b.2); apply IH. }
  revert best. induction l as [|[i p] l IH]; simpl; intros best Hc Hin; [by apply elem_of_nil in Hin|].
  destruct best as [b|].
  { destruct (bool_decide (i ∈ sel)); [by apply Hsome in Hc|].
    destruct (p_Amount p <? short); [by apply Hsome in Hc|].
    destruct (p_Amount p <? p_Amount b.2); by apply Hsome in Hc. }
  apply elem_of_cons in Hin as [->|Hin]; unfold amt; simpl.
  - destruct (bool_decide (i ∈ sel)) eqn:Hi; bprop; [by left|].
    destruct (p_Amount p <? short) eqn:Hlt; bprop; [by right|]. by apply Hsome in Hc.
  - destruct (bool_decide (i ∈ sel)); [by eapply IH|].
    destruct (p_Amount p <? short); [by eapply IH|]. by apply Hsome in Hc.
Qed.

(** *** The selection *)
Lemma zsum_by_positive {A} (f : A -> Z) l : 0 < zsum_by f l -> exists x, x ∈ l /\ 0 < f x.
Proof.
  induction l as [|x l IH]; [rewrite zsum_by_nil; lia|]. rewrite zsum_by_cons. intros Hs.
  destruct (decide (0 < f x)) as [?|?]; [exists x; split; [by left|done]|].
  destruct IH as (y & ? & ?); [lia|]. exists y. split; [by right|done].
Qed.
Lemma amounts_indexed ps : sane ps ->
  Forall (fun e => 0 <= amt e) (by_amount ps) /\ zsum_by amt (by_amount ps) = worth ps.
Proof.
  intros [Hp _]. split.
  - rewrite by_amount_perm. apply Forall_forall. intros e He%indexed_in.
    rewrite Forall_lookup in Hp. by eapply Hp.
  - rewrite (zsum_by_perm amt _ _ (by_amount_perm ps)). unfold worth, zsum_by, amt.
    by rewrite <-(indexed_snd ps) at 2; rewrite <-list_fmap_compose.
Qed.

(** What select picks, as entries: enough, and no more than needed; exactly
    the greedy fill when that reaches the amount. *)
Lemma select_spec ps amount : sane ps -> 0 < amount <= worth ps ->
  exists l, select ps amount = Some (list_to_set l.*1) /\ NoDup l.*1 /\
    (forall e, e ∈ l -> e ∈ by_amount ps) /\ amount <= zsum_by amt l /\
    (exists e, e ∈ l /\ zsum_by amt l - amt e < amount) /\
    (zsum_by amt (greedy amount (by_amount ps)) = amount -> l = greedy amount (by_amount ps)).
Proof.
  intros Hsane Ha. destruct (amounts_indexed ps Hsane) as [Hnn Hsum]. destruct Hsane as [_ Hlt].
  unfold select. rewrite fill_greedy by (done || lia). rewrite Z.sub_0_r, Z.add_0_l, union_empty_r_L.
  set (g := greedy amount (by_amount ps)).
  pose proof (greedy_le amount (by_amount ps) ltac:(lia) Hnn) as Hle. fold g in Hle.
  pose proof (greedy_sublist amount (by_amount ps)) as Hsub. fold g in Hsub.
  assert (NoDup g.*1) as Hnd.
  { eapply sublist_NoDup; [|by apply fmap_sublist]. rewrite by_amount_perm. apply indexed_NoDup. }
  destruct (zsum_by amt g <? amount) eqn:Hshort; bprop.
  - unfold sub_u64. rewrite wrap_u64_id by (unfold in_u64; lia).
    destruct (cover _ _ _ _) as [b|] eqn:Hc.
    + apply cover_Some in Hc as [?|(Hin & Hnot & Hb)]; [done|].
      exists (b :: g). rewrite fmap_cons, zsum_by_cons. split_and!; try done.
      * constructor; [|done]. intros Hx. apply Hnot. by apply elem_of_list_to_set.
      * intros e [->|He]%elem_of_cons; [done|]. by eapply sublist_subseteq.
      * lia.
      * exists b. split; [by left|lia].
      * lia.
    + exfalso. assert (forall e, e ∈ by_amount ps -> e ∈ g) as Hall.
      { intros e He. destruct (greedy_rest amount (by_amount ps) e Hnn He) as [?|Hbig]; [lia|done|done|].
        fold g in Hbig. destruct (cover_None _ _ _ _ _ Hc He) as [Hi|?]; [|lia].
        apply elem_of_list_to_set, list_elem_of_fmap in Hi as (e' & Heq & He').
        assert (e' ∈ by_amount ps) as He2 by by eapply sublist_subseteq.
        rewrite by_amount_perm in He, He2. apply indexed_in in He, He2. rewrite Heq in He.
        destruct e as [i1 p1], e' as [i2 p2]. simpl in *. congruence. }
      assert (g ≡ₚ by_amount ps) as Hperm.
      { apply NoDup_Permutation; [by eapply NoDup_fmap_1|eapply NoDup_fmap_1; rewrite by_amount_perm; apply indexed_NoDup|].
        intros e. split; [by eapply sublist_subseteq|apply Hall]. }
      rewrite (zsum_by_perm amt _ _ Hperm) in Hshort. lia.
  - exists g. split_and!; try done.
    + intros e He. by eapply sublist_subseteq.
    + destruct (zsum_by_positive amt g) as (e & He & Hpos); [lia|]. exists e. split; [done|lia].
Qed.

Lemma chosen_split selected ps : chosen true selected ps ++ chosen false selected ps ≡ₚ ps.
Proof.
  rewrite <-(indexed_snd ps) at 3. unfold chosen. rewrite <-fmap_app. apply Permutation_map.
  induction (imap pair ps) as [|e l IH]; [done|]. rewrite !bfilter_cons.
  destruct (bool_decide (e.1 ∈ selected)); simpl; [by apply Permutation_skip|].
  rewrite <-Permutation_middle. by apply Permutation_skip.
Qed.

(** The proofs of a list of entries of the vault. *)
Lemma chosen_entries l ps : NoDup l.*1 -> (forall e, e ∈ l -> e ∈ by_amount ps) ->
  chosen true (list_to_set l.*1) ps ≡ₚ l.*2.
Proof.
  intros Hnd Hin. unfold chosen. apply Permutation_map, NoDup_Permutation.
  - apply NoDup_ListNoDup, List.NoDup_filter, NoDup_ListNoDup. eapply NoDup_fmap_1, indexed_NoDup.
  - by eapply NoDup_fmap_1.
  - intros e. rewrite elem_of_bfilter, eqb_true_iff. split.
    + intros [Hb He]. symmetry in Hb. bprop. apply elem_of_list_to_set, list_elem_of_fmap in Hb as (e' & Heq & He').
      pose proof (Hin _ He') as Hi. rewrite by_amount_perm in Hi. apply indexed_in in Hi, He.
      rewrite Heq in He. destruct e as [i1 p1], e' as [i2 p2]. simpl in *. by simplify_eq.
    + intros He. split; [|rewrite <-by_amount_perm; by apply Hin]. symmetry. apply bool_decide_eq_true.
      apply elem_of_list_to_set. by apply list_elem_of_fmap_2.
Qed.

Lemma chosen_worth l ps : NoDup l.*1 -> (forall e, e ∈ l -> e ∈ by_amount ps) ->
  worth (chosen true (list_to_set l.*1) ps) = zsum_by amt l.
Proof.
  intros Hnd Hin. unfold worth. rewrite (zsum_by_perm _ _ _ (chosen_entries l ps Hnd Hin)).
  unfold zsum_by, amt. by rewrite <-list_fmap_compose.
Qed.

(** ** Theorems on Take *)

(** Every outcome of Take. *)
Lemma Take_cases ok hub amount v (Hsane : sane (held hub v)) (Hamount : 0 <= amount < 2 ^ 64) :
  match Take ok hub amount v with
  | (Ok taken, v') => ok = true /\ 0 < amount /\
      v_hubs v' = <[hub := held hub v']> (v_hubs v) /\ v_disk v' = v_hubs v' /\
      taken ++ held hub v' ≡ₚ held hub v /\ amount <= worth taken /\
      exists p, p ∈ taken /\ worth taken - p_Amount p < amount
  | (Err e, v') => v' = v /\
      (amount = 0 \/ (worth (held hub v) < amount /\ e = ErrInsufficientBalance) \/ ok = false)
  end.
Proof.
  unfold Take. destruct (amount =? 0) eqn:H0; bprop; [split; [done|by left]|].
  pose proof (zsum_by_nonneg p_Amount _ (proj1 Hsane)) as Hnn.
  rewrite usum_by_exact by (unfold in_u64; unfold sane, worth in Hsane; lia). fold (worth (held hub v)).
  destruct (worth (held hub v) <? amount) eqn:Hb; bprop; [split; [done|right; by left]|].
  destruct (select_spec (held hub v) amount Hsane) as (l & -> & Hnd & Hin & Hge & (e & He & Hmin) & _); [lia|].
  destruct ok; simpl.
  - split_and!; [done|lia| |done| |by rewrite chosen_worth|].
    + unfold held at 2. simpl. by rewrite lookup_insert_eq.
    + unfold held at 2. simpl. rewrite lookup_insert_eq. apply chosen_split.
    + exists e.2. rewrite chosen_worth by done. split; [|done].
      rewrite chosen_entries by done. by apply list_elem_of_fmap_2.
  - split; [|right; by right]. unfold with_hub. simpl. rewrite insert_insert_eq.
    unfold held in *. destruct (v_hubs v !! hub) as [ps|] eqn:Hh; simpl in *.
    + rewrite insert_id by done. by destruct v.
    + unfold worth in Hb. rewrite zsum_by_nil in Hb. lia.
Qed.

(** Taking proofs. Take succeeds exactly when the amount is positive and
    within the balance and the vault can be written. What it returns and what it
    keeps are then together what was held, memory and disk agree, the proofs
    returned are worth at least the amount, and without one of them they would
    not be. When it fails the vault is as before. *)
Theorem take_outcomes ok hub amount v (Hsane : sane (held hub v)) (Hamount : 0 <= amount < 2 ^ 64) :
  let '(r, v') := Take ok hub amount v in
  (is_ok r = true <-> ok = true /\ 0 < amount <= worth (held hub v)) /\
  match r with
  | Ok taken => v_disk v' = v_hubs v' /\ v_hubs v' = <[hub := held hub v']> (v_hubs v) /\
      taken ++ held hub v' ≡ₚ held hub v /\ amount <= worth taken /\
      exists p, p ∈ taken /\ worth taken - p_Amount p < amount
  | Err _ => v' = v
  end.
Proof.
  pose proof (Take_cases ok hub amount v Hsane Hamount) as Hc.
  destruct (Take ok hub amount v) as [[taken|e] v'].
  - destruct Hc as (-> & Hpos & Hm & Hd & Hperm & Hge & Hmin). split; [|by split_and!].
    split; [intros _; split; [done|]|done]. split; [done|].
    apply (zsum_by_perm p_Amount) in Hperm as Hw. rewrite zsum_by_app in Hw.
    pose proof (proj1 Hsane) as Hall. rewrite <-Hperm in Hall. apply Forall_app in Hall as [_ Hall].
    pose proof (zsum_by_nonneg p_Amount _ Hall). unfold worth in *. lia.
  - destruct Hc as [-> Hwhy]. split; [|done]. split; [done|]. intros [-> ?].
    destruct Hwhy as [?|[[? _]|?]]; [lia|lia|done].
Qed.

(** Among amounts each of which divides the next larger, the greedy fill is the
    best one: no choice of proofs within the amount is worth more. *)
Definition chain (l : list Z) : Prop := StronglySorted (fun a b => 0 < b /\ (b | a)) l.

Lemma chain_prefix a l p :
  chain l -> Forall (fun b => 0 < b /\ (b | a) /\ (b | p)) l -> p <= a <= p + zsum l ->
  exists l1 l2, l = l1 ++ l2 /\ p + zsum l1 = a.
Proof.
  intros Hc. revert p. induction Hc as [|b l Hc IH Hb]; intros p Hall Ha.
  - exists [], []. unfold zsum in *. simpl in *. split; [done|lia].
  - destruct (decide (p = a)) as [->|Hne].
    { exists [], (b :: l). unfold zsum. simpl. split; [done|lia]. }
    apply Forall_cons in Hall as [(Hpos & Hda & Hdp) Hall].
    assert (b <= a - p) as Hle.
    { apply Z.divide_pos_le; [lia|]. by apply Z.divide_sub_r. }
    destruct (IH (p + b)) as (l1 & l2 & -> & Heq).
    + rewrite Forall_forall in *. intros x Hx. destruct (Hall x Hx) as (? & ? & ?).
      destruct (Hb x Hx) as [_ Hdx]. split_and!; try done. by apply Z.divide_add_r.
    + unfold zsum in *. simpl in Ha. lia.
    + exists (b :: l1), l2. split; [done|]. unfold zsum in *. simpl. lia.
Qed.

Lemma chain_sublist l1 l2 : l1 `sublist_of` l2 -> chain l2 -> chain l1.
Proof.
  unfold chain. induction 1 as [|x l1 l2 Hsub IH|x l1 l2 Hsub IH]; intros Hc; [constructor| |].
  - inversion Hc as [|? ? Hc' Hx]; subst. constructor; [by apply IH|].
    rewrite Forall_forall in *. intros y Hy. apply Hx. by eapply sublist_subseteq.
  - inversion Hc; subst. by apply IH.
Qed.

Lemma greedy_best l s t :
  chain (amt <$> l) -> Forall (fun e => 0 < amt e) l -> s `sublist_of` l ->
  zsum_by amt s <= t -> zsum_by amt s <= zsum_by amt (greedy t l).
Proof.
  revert s t. induction l as [|e l IH]; intros s t Hc Hall Hsub Ht.
  { apply sublist_nil_r in Hsub as ->. simpl. lia. }
  inversion Hc as [|? ? Hc' Hdiv]; subst. apply Forall_cons in Hall as [He Hall]. simpl.
  assert (Forall (fun e => 0 <= amt e) s) as Hs.
  { apply Forall_forall. intros x Hx. apply (sublist_subseteq _ _ Hsub) in Hx.
    apply elem_of_cons in Hx as [->|Hx]; [lia|]. rewrite Forall_forall in Hall. apply Hall in Hx. lia. }
  pose proof (zsum_by_nonneg amt s Hs) as Hs0.
  destruct (t <=? 0) eqn:H0; bprop; [rewrite zsum_by_nil; lia|].
  apply sublist_cons_r in Hsub as [Hsub|(s' & -> & Hsub)].
  - destruct (amt e <=? t) eqn:Hle; bprop; [|by apply IH]. rewrite zsum_by_cons.
    destruct (decide (zsum_by amt s < amt e)) as [Hlt|Hge].
    { pose proof (greedy_le (t - amt e) l ltac:(lia)
        ltac:(eapply Forall_impl; [exact Hall|]; intros; simpl in *; lia)). lia. }
    destruct (chain_prefix (amt e) (amt <$> s) 0) as (l1 & l2 & Hsplit & Hl1).
    + by eapply chain_sublist; [apply fmap_sublist|].
    + apply Forall_fmap, Forall_forall. intros x Hx. apply (sublist_subseteq _ _ Hsub) in Hx.
      rewrite Forall_forall in Hdiv. destruct (Hdiv (amt x)) as [? ?]; [by apply list_elem_of_fmap_2|].
      split_and!; try done. apply Z.divide_0_r.
    + unfold zsum_by in Hge. lia.
    + apply fmap_app_inv in Hsplit as (s1 & s2 & -> & -> & ->).
      change (0 + zsum_by amt s1 = amt e) in Hl1. rewrite zsum_by_app in *.
      specialize (IH s2 (t - amt e) Hc' Hall). apply sublist_app_l in Hsub as (k1 & k2 & -> & _ & Hsub2).
      assert (s2 `sublist_of` k1 ++ k2) as Hsub' by by apply sublist_inserts_l. specialize (IH Hsub'). lia.
  - rewrite zsum_by_cons in *. rewrite (proj2 (Z.leb_le (amt e) t)).
    + rewrite zsum_by_cons. specialize (IH s' (t - amt e) Hc' Hall Hsub). lia.
    + pose proof (zsum_by_nonneg amt s'). apply Forall_cons in Hs as [_ Hs]. specialize (H Hs). lia.
Qed.

Lemma sublist_of_fmap {A B} (f : A -> B) l k :
  k `sublist_of` (f <$> l) -> exists k', k' `sublist_of` l /\ k = f <$> k'.
Proof.
  revert k. induction l as [|x l IH]; intros k Hk.
  - apply sublist_nil_r in Hk as ->. by exists [].
  - rewrite fmap_cons in Hk. apply sublist_cons_r in Hk as [Hk|(k1 & -> & Hk)];
      destruct (IH _ Hk) as (k' & Hsub & ->).
    + exists k'. split; [by apply sublist_cons|done].
    + exists (x :: k'). split; [by apply sublist_skip|done].
Qed.

(** Any part of the vault is a choice of entries of the same worth. *)
Lemma entries_of s ps : s ⊆+ ps -> exists l, l `sublist_of` by_amount ps /\ zsum_by amt l = worth s.
Proof.
  assert ((by_amount ps).*2 ≡ₚ ps) as Hperm.
  { rewrite <-(indexed_snd ps) at 2. apply Permutation_map, by_amount_perm. }
  rewrite <-Hperm at 1. intros (k & Hk & (l & Hl & ->)%sublist_of_fmap)%submseteq_sublist_r.
  exists l. split; [done|]. unfold worth. rewrite (zsum_by_perm _ _ _ Hk).
  unfold zsum_by, amt. by rewrite <-list_fmap_compose.
Qed.

Definition power_of_two (z : Z) : Prop := exists k, 0 <= k /\ z = 2 ^ k.

Lemma powers_chain ps :
  Forall (fun p => power_of_two (p_Amount p)) ps ->
  chain (amt <$> by_amount ps) /\ Forall (fun e => 0 < amt e) (by_amount ps).
Proof.
  intros Hp. assert (Forall (fun e => power_of_two (amt e)) (by_amount ps)) as Hall.
  { rewrite by_amount_perm. apply Forall_forall. intros e He%indexed_in.
    rewrite Forall_lookup in Hp. by eapply Hp. }
  split.
  - pose proof (by_amount_sorted ps) as Hs. unfold chain.
    induction Hs as [|e l Hs IH He]; [constructor|]. apply Forall_cons in Hall as [(k & Hk & Hek) Hall].
    rewrite fmap_cons. constructor; [by apply IH|]. apply Forall_fmap, Forall_forall. intros x Hx.
    rewrite Forall_forall in Hall, He. destruct (Hall x Hx) as (j & Hj & Hxj). specialize (He x Hx).
    simpl. rewrite Hxj. split; [by apply Z.pow_pos_nonneg|]. rewrite Hek, Hxj in *.
    apply Z.pow_le_mono_r_iff in He; [|lia|lia]. exists (2 ^ (k - j)). rewrite <-Z.pow_add_r by lia.
    f_equal. lia.
  - eapply Forall_impl; [exact Hall|]. intros e (k & Hk & ->). by apply Z.pow_pos_nonneg.
Qed.

(** Exact change. With power-of-two denominations, the ones the mint issues,
    Take returns exactly the amount whenever some of the proofs held add up to
    it; it never overpays while an exact choice exists. *)
Theorem take_exact_fit hub amount v s (Hsane : sane (held hub v)) (Hamount : 0 < amount < 2 ^ 64)
    (Hpow : Forall (fun p => power_of_two (p_Amount p)) (held hub v))
    (Hsub : s ⊆+ held hub v) (Hexact : worth s = amount) :
  exists taken v', Take true hub amount v = (Ok taken, v') /\ worth taken = amount.
Proof.
  destruct (powers_chain _ Hpow) as [Hc Hpos].
  destruct (amounts_indexed _ Hsane) as [Hnn Hsum].
  assert (zsum_by amt (greedy amount (by_amount (held hub v))) = amount) as Hg.
  { destruct (entries_of _ _ Hsub) as (l & Hl & Hw). rewrite Hexact in Hw.
    pose proof (greedy_best _ l amount Hc Hpos Hl ltac:(lia)).
    pose proof (greedy_le amount _ ltac:(lia) Hnn). lia. }
  assert (amount <= worth (held hub v)) as Hle.
  { apply submseteq_Permutation in Hsub as [k Hk]. unfold worth in *. rewrite (zsum_by_perm _ _ _ Hk), zsum_by_app.
    pose proof (proj1 Hsane) as Hall. rewrite Hk in Hall. apply Forall_app in Hall as [_ Hall].
    pose proof (zsum_by_nonneg p_Amount k Hall). lia. }
  destruct (select_spec (held hub v) amount Hsane) as (l & Hsel & Hnd & Hin & _ & _ & Hl); [lia|].
  specialize (Hl Hg). subst l. unfold Take. rewrite (proj2 (Z.eqb_neq _ _)) by lia.
  rewrite usum_by_exact by (pose proof (zsum_by_nonneg p_Amount _ (proj1 Hsane)); unfold in_u64, sane, worth in *; lia).
  fold (worth (held hub v)). rewrite (proj2 (Z.ltb_ge _ _)) by lia. rewrite Hsel. simpl.
  eexists _, _. split; [reflexivity|]. by rewrite chosen_worth.
Qed.

(** ** A concrete vault *)
Definition demo_vault : EncryptedProofStore :=
  let ps := (fun a => mkProof a "00" (show_Z a) "c") <$> [1; 4; 8; 2] in
  mkVault {[ "hub"%string := ps ]} {[ "hub"%string := ps ]}.
Lemma demo_vault_sane : sane (held "hub" demo_vault).
Proof.
  assert (forallb (fun p => 0 <=? p_Amount p) (held "hub" demo_vault) = true) as Hb by (vm_compute; done).
  split; [|vm_compute; done]. apply Forall_forall. intros p Hp.
  rewrite forallb_forall in Hb. apply Z.leb_le, Hb. by apply list_elem_of_In.
Qed.

Lemma take_outcomes_witness :
  is_ok (Take true "hub" 6 demo_vault).1 = true <-> true = true /\ 0 < 6 <= worth (held "hub" demo_vault).
Proof.
  pose proof (take_outcomes true "hub" 6 demo_vault demo_vault_sane ltac:(lia)) as Ho.
  destruct (Take true "hub" 6 demo_vault) as [r v']. exact (proj1 Ho).
Defined.

Lemma take_exact_fit_witness :
  exists taken v', Take true "hub" 5 demo_vault = (Ok taken, v') /\ worth taken = 5.
Proof.
  apply (take_exact_fit "hub" 5 demo_vault [mkProof 1 "00" "1" "c"; mkProof 4 "00" "4" "c"]).
  - exact demo_vault_sane.
  - lia.
  - repeat constructor; [exists 0|exists 2|exists 3|exists 1]; vm_compute; split; (done || discriminate).
  - apply submseteq_skip, submseteq_skip. apply submseteq_nil_l.
  - vm_compute. reflexivity.
Defined.

(** ** Facts on Add *)
Lemma add_loop_new existing ps :
  NoDup (p_Secret <$> ps) -> (forall p, p ∈ ps -> p_Secret p ∉ existing) -> add_loop existing ps = ps.
Proof.
  revert existing. induction ps as [|p ps IH]; simpl; intros existing Hnd Hnew; [done|].
  apply NoDup_cons in Hnd as [Hp Hnd]. rewrite bool_decide_false by (apply Hnew; by left).
  f_equal. apply IH; [done|]. intros q Hq. apply not_elem_of_union. split.
  - intros Heq%elem_of_singleton. apply Hp. rewrite <-Heq. by apply list_elem_of_fmap_2.
  - apply Hnew. by right.
Qed.

(** Proofs with new secrets are appended, in memory even when the write fails. *)
Lemma Add_new ok hub ps v r v' :
  str_empty hub = false -> NoDup (p_Secret <$> ps) ->
  (forall p q, p ∈ ps -> q ∈ held hub v -> p_Secret p <> p_Secret q) ->
  Add ok hub ps v = (r, v') ->
  held hub v' = held hub v ++ ps /\
  (forall hub', hub' <> hub -> held hub' v' = held hub' v) /\
  (is_ok r = true <-> ok = true \/ ps = []).
Proof.
  intros Hh Hnd Hnew. unfold Add. rewrite Hh. destruct ps as [|p ps].
  { intros ?; simplify_eq. rewrite app_nil_r. split_and!; try done. split; [by right|done]. }
  rewrite add_loop_new; [|done|].
  2:{ intros q Hq Hin. apply elem_of_list_to_set, list_elem_of_fmap in Hin as (q' & Heq & Hq').
      by eapply Hnew. }
  unfold persist, held. destruct ok; intros ?; simplify_eq/=; rewrite lookup_insert_eq; split_and!; try done.
  - intros hub' Hne. by rewrite lookup_insert_ne.
  - split; [by left|done].
  - intros hub' Hne. by rewrite lookup_insert_ne.
  - split; [done|]. by intros [|].
Qed.

(** Proofs whose secrets are held already are dropped. *)
Lemma Add_secrets ok hub ps v :
  NoDup (p_Secret <$> held hub v) -> NoDup (p_Secret <$> held hub (Add ok hub ps v).2).
Proof.
  intros Hnd. unfold Add. destruct (str_empty hub); [done|]. destruct ps as [|p ps]; [done|].
  assert (forall l ex, NoDup (p_Secret <$> add_loop ex l) /\ forall p, p ∈ add_loop ex l -> p_Secret p ∉ ex) as Hloop.
  { induction l as [|q l IH]; intros ex; simpl; [split; [constructor|by intros ? ?%elem_of_nil]|].
    destruct (bool_decide (p_Secret q ∈ ex)) eqn:Hb; [apply IH|]. bprop.
    destruct (IH ({[p_Secret q]} ∪ ex)) as [Hn Hex]. split.
    - rewrite fmap_cons. constructor; [|done]. intros (q' & Heq & Hq')%list_elem_of_fmap.
      apply Hex in Hq'. rewrite <-Heq in Hq'. set_solver.
    - intros p' [->|Hp']%elem_of_cons; [done|]. apply Hex in Hp'. set_solver. }
  set (ex := list_to_set _). destruct (Hloop (p :: ps) ex) as [Hn Hex].
  destruct (add_loop ex (p :: ps)) as [|q l] eqn:Ha; [by destruct ok|].
  assert (held hub (persist ok (with_hub hub (held hub v ++ q :: l) v)).2 = held hub v ++ q :: l) as ->.
  { unfold persist, held. destruct ok; simpl; by rewrite lookup_insert_eq. }
  rewrite fmap_app. apply NoDup_app. split_and!; [done| |done].
  intros x Hx (q' & -> & Hq')%list_elem_of_fmap. apply Hex in Hq'. apply Hq'. by apply elem_of_list_to_set.
Qed.
