(* ===== verification/Wallet.v ===== *)
(** * Wallet: minting and spending ecash on the client
    (src/internal/wallet/wallet.go, wallet/mintclient.go)

    Blinding and unblinding, and the wallet over the proof vault of ProofVault.v. A
    hub is its replies: a [HubApi] on a state type, which the last theorem
    instantiates with the mint of Mint.v, and MintClient with the hub's HTTP
    endpoints. *)
From S2P Require Import Prelude Sql Ecash EcashStore Mint ProofVault.

(** The client half of gonuts/crypto and gonuts/cashu. *)
Class WalletCrypto `{Bdhke} := {
  PubOf : Scalar -> Point;
  gcrypto_BlindMessage : string -> Scalar -> option Point;
  gcrypto_UnblindSignature : Point -> Scalar -> Point -> Point;
  AmountSplit : Z -> list Z
}.

(** Documented behaviour: compressed keys round-trip, blinding then signing then
    unblinding gives the mint's own signature on the secret, and an amount is
    split into powers of two that add up to it. *)
Class WalletCryptoLaws `{WalletCrypto} := {
  on_curve : Point -> Prop;
  law_parse_serialize p : on_curve p ->
    ParsePubKey (SerializeCompressed p) = Some p /\ slen (SerializeCompressed p) = 33;
  law_blind_on_curve secret r B : gcrypto_BlindMessage secret r = Some B -> on_curve B;
  law_sign_on_curve B k : on_curve B -> on_curve (SignBlindedMessage B k);
  law_unblind_on_curve C r K : on_curve C -> on_curve (gcrypto_UnblindSignature C r K);
  law_unblind secret r B k : gcrypto_BlindMessage secret r = Some B ->
    exists Y, HashToCurve secret = Some Y /\
      gcrypto_UnblindSignature (SignBlindedMessage B k) r (PubOf k) = ScalarMult k Y;
  law_outputs_amount outs : in_u64 (zsum_by bm_Amount outs) ->
    OutputsAmount outs = zsum_by bm_Amount outs;
  law_split n : 0 <= n < 2 ^ 64 -> zsum (AmountSplit n) = n /\ Forall power_of_two (AmountSplit n)
}.

Record Keyset := mkKeysetInfo { ki_ID : string; ki_Unit : string; ki_Keys : gmap Z string }.

(** ** MintClient: the hub's replies to GET /v1/keys, POST /v1/mint/bolt11 and
    POST /v1/swap (an error is a transport failure or a status) *)
Record HubApi (Hub : Type) := mkHubApi {
  api_keys : Hub -> result wallet_error (list Keyset) * Hub;
  api_mint : string -> list BlindedMessage -> Hub -> result wallet_error (list BlindedSignature) * Hub;
  api_swap : list Proof_ -> list BlindedMessage -> Hub -> result wallet_error (list BlindedSignature) * Hub
}.
Arguments mkHubApi {Hub} _ _ _.
Arguments api_keys {Hub} _ _. Arguments api_mint {Hub} _ _ _ _. Arguments api_swap {Hub} _ _ _ _.

(** The quote as the wallet received it: its ID and amount are used. *)
Record WalletQuote := mkWalletQuote { wq_ID : string; wq_Amount : Z }.

Section wallet.
Context `{WalletCrypto}.

Record blindState := mkBlindState { bl_secret : string; bl_r : Scalar; bl_amount : Z }.

(** crypto/rand: the i-th secret and the i-th blinding factor drawn *)
Record entropy := mkEntropy { ent_secret : nat -> option string; ent_r : nat -> option Scalar }.

Definition generateSecret (e : entropy) (i : nat) : result wallet_error string :=
  match ent_secret e i with
  | None => Err (WalletErr "generate secret")
  | Some buf => Ok (hex_encode buf)
  end.

Fixpoint blind_loop (keysetID : string) (e : entropy) (i : nat) (amounts : list Z) :
    result wallet_error (list BlindedMessage * list blindState) :=
  match amounts with
  | [] => Ok ([], [])
  | amount :: rest =>
      secret ← generateSecret e i;
      match ent_r e i with
      | None => Err (WalletErr "generate blinding factor")
      | Some r =>
          match gcrypto_BlindMessage secret r with
          | None => Err (WalletErr "blind message")
          | Some B =>
              '(msgs, states) ← blind_loop keysetID e (S i) rest;
              Ok (mkBM amount (hex_encode (SerializeCompressed B)) keysetID :: msgs,
                  mkBlindState secret r amount :: states)
          end
      end
  end.
Definition blindAmounts (keysetID : string) (e : entropy) (amounts : list Z) :
    result wallet_error (list BlindedMessage * list blindState) :=
  if str_empty keysetID then Err (WalletErr "keyset ID is required")
  else blind_loop keysetID e 0 amounts.

Definition parsePubkeyHex (value : string) : option Point :=
  match hex_decode value with Some raw => ParsePubKey raw | None => None end.

Definition unblind_one (keyset : Keyset) (sig : BlindedSignature) (state : blindState) :
    result wallet_error Proof_ :=
  if negb (bs_Amount sig =? bl_amount state) then Err (WalletErr "signature has wrong amount")
  else match parsePubkeyHex (bs_C_ sig) with
  | None => Err (WalletErr "parse signature (C_)")
  | Some blindedSig =>
      match ki_Keys keyset !! bl_amount state with
      | None => Err (WalletErr "keyset has no key for denomination")
      | Some mintKeyHex =>
          match parsePubkeyHex mintKeyHex with
          | None => Err (WalletErr "parse mint key for denomination")
          | Some mintKey =>
              let C := gcrypto_UnblindSignature blindedSig (bl_r state) mintKey in
              Ok (mkProof (bl_amount state) (ki_ID keyset) (bl_secret state)
                    (hex_encode (SerializeCompressed C)))
          end
      end
  end.
Fixpoint unblind_loop (keyset : Keyset) (sigs : list BlindedSignature) (states : list blindState) :
    result wallet_error (list Proof_) :=
  match sigs, states with
  | sig :: sigs', state :: states' =>
      p ← unblind_one keyset sig state;
      ps ← unblind_loop keyset sigs' states';
      Ok (p :: ps)
  | _, _ => Ok []
  end.
Definition unblindSignatures (sigs : list BlindedSignature) (states : list blindState)
    (keyset : Keyset) : result wallet_error (list Proof_) :=
  if negb (length sigs =? length states)%nat then Err (WalletErr "wrong number of signatures")
  else unblind_loop keyset sigs states.

Section client.
Context {Hub : Type} (api : HubApi Hub).

Definition ActiveKeyset (h : Hub) : result wallet_error Keyset * Hub :=
  let '(r, h0) := api_keys api h in
  (match r with
   | Err e => Err e
   | Ok [] => Err (WalletErr "hub returned no keysets")
   | Ok (ks :: rest) =>
       Ok (default ks (List.find (fun k => String.eqb (ki_Unit k) "sat") (ks :: rest)))
   end, h0).

Definition checked_length (outputs : list BlindedMessage)
    (r : result wallet_error (list BlindedSignature)) : result wallet_error (list BlindedSignature) :=
  sigs ← r;
  if (length sigs =? length outputs)%nat then Ok sigs
  else Err (WalletErr "hub returned the wrong number of signatures").

Definition Client_MintTokens (quoteID : string) (outputs : list BlindedMessage) (h : Hub) :
    result wallet_error (list BlindedSignature) * Hub :=
  if str_empty quoteID then (Err (WalletErr "quote ID is required"), h)
  else match outputs with
  | [] => (Err (WalletErr "at least one output is required"), h)
  | _ => let '(r, h') := api_mint api quoteID outputs h in (checked_length outputs r, h')
  end.

Definition Client_Swap (inputs : list Proof_) (outputs : list BlindedMessage) (h : Hub) :
    result wallet_error (list BlindedSignature) * Hub :=
  match inputs, outputs with
  | [], _ => (Err (WalletErr "at least one input is required"), h)
  | _, [] => (Err (WalletErr "at least one output is required"), h)
  | _, _ => let '(r, h') := api_swap api inputs outputs h in (checked_length outputs r, h')
  end.

(** ** Wallet *)
Definition Wallet_Mint (e : entropy) (ok : bool) (hubURL : string) (quote : option WalletQuote)
    (v : EncryptedProofStore) (h : Hub) : result wallet_error (list Proof_) * EncryptedProofStore * Hub :=
  match quote with
  | None => (Err (WalletErr "quote is required"), v, h)
  | Some q =>
      if wq_Amount q =? 0 then (Err (WalletErr "quote has zero amount"), v, h)
      else match ActiveKeyset h with
      | (Err er, h0) => (Err er, v, h0)
      | (Ok keyset, h0) =>
          match blindAmounts (ki_ID keyset) e (AmountSplit (wq_Amount q)) with
          | Err er => (Err er, v, h0)
          | Ok (outputs, states) =>
              match Client_MintTokens (wq_ID q) outputs h0 with
              | (Err er, h1) => (Err er, v, h1)
              | (Ok sigs, h1) =>
                  match unblindSignatures sigs states keyset with
                  | Err er => (Err er, v, h1)
                  | Ok proofs =>
                      match Add ok hubURL proofs v with
                      | (Err er, v1) => (Err er, v1, h1)
                      | (Ok _, v1) => (Ok proofs, v1, h1)
                      end
                  end
              end
          end
      end
  end.

Definition Balance (hubURL : string) (v : EncryptedProofStore) : Z := usum_by p_Amount (List_ hubURL v).
Definition Proofs (hubURL : string) (v : EncryptedProofStore) : list Proof_ := List_ hubURL v.

Definition swapForChange (e : entropy) (inputs : list Proof_) (amountSats : Z) (h : Hub) :
    result wallet_error (list Proof_ * list Proof_) * Hub :=
  let total := usum_by p_Amount inputs in
  if total <? amountSats then (Err (WalletErr "inputs cannot cover amount"), h)
  else match ActiveKeyset h with
  | (Err er, h0) => (Err er, h0)
  | (Ok keyset, h0) =>
      let paymentAmounts := AmountSplit amountSats in
      let changeAmounts := AmountSplit (total -u amountSats) in
      match blindAmounts (ki_ID keyset) e (paymentAmounts ++ changeAmounts) with
      | Err er => (Err er, h0)
      | Ok (outputs, states) =>
          match Client_Swap inputs outputs h0 with
          | (Err er, h1) => (Err er, h1)
          | (Ok sigs, h1) =>
              match unblindSignatures sigs states keyset with
              | Err er => (Err er, h1)
              | Ok proofs =>
                  if negb (length proofs =? length outputs)%nat
                  then (Err (WalletErr "hub returned the wrong number of proofs"), h1)
                  else (Ok (take (length paymentAmounts) proofs, drop (length paymentAmounts) proofs), h1)
              end
          end
      end
  end.

(** [ok1]: the write in Take succeeds; [ok2]: the one in Add does. *)
Definition Reserve (e : entropy) (ok1 ok2 : bool) (hubURL : string) (amountSats : Z)
    (v : EncryptedProofStore) (h : Hub) : result wallet_error (list Proof_) * EncryptedProofStore * Hub :=
  if amountSats =? 0 then (Err (WalletErr "amount must be greater than zero"), v, h)
  else match Take ok1 hubURL amountSats v with
  | (Err er, v1) => (Err er, v1, h)
  | (Ok taken, v1) =>
      if usum_by p_Amount taken =? amountSats then (Ok taken, v1, h)
      else match swapForChange e taken amountSats h with
      | (Err (HubError status), h1) =>
          if status =? StatusConflict then (Err (HubError status), v1, h1)
          else (Err (HubError status), (Add ok2 hubURL taken v1).2, h1)
      | (Err er, h1) => (Err er, (Add ok2 hubURL taken v1).2, h1)
      | (Ok (payment, change), h1) =>
          match change with
          | [] => (Ok payment, v1, h1)
          | _ =>
              match Add ok2 hubURL change v1 with
              | (Err er, v2) => (Err er, v2, h1)
              | (Ok _, v2) => (Ok payment, v2, h1)
              end
          end
      end
  end.

Definition Release_ (ok : bool) (hubURL : string) (proofs : list Proof_) (v : EncryptedProofStore) :
    result wallet_error unit * EncryptedProofStore :=
  match proofs with [] => (Ok tt, v) | _ => Add ok hubURL proofs v end.

(** AwaitPayment's loop over the polls the context allowed: each is the state
    the hub reported, or an error. *)
Fixpoint AwaitPayment (polls : list (result wallet_error QuoteState)) : result wallet_error QuoteState :=
  match polls with
  | [] => Err (WalletErr "context done")
  | Err er :: _ => Err er
  | Ok st :: rest =>
      match st with
      | QuotePaid | QuoteIssued => Ok st
      | QuoteExpired => Err (WalletErr "mint quote expired before payment")
      | QuoteUnpaid => AwaitPayment rest
      end
  end.
End client.
End wallet.

(** ** The vault on disk *)
(** What a restart would find of the hub's proofs. *)
Definition on_disk (hub : string) (v : EncryptedProofStore) : list Proof_ := default [] (v_disk v !! hub).

Lemma Add_disk ok hub ps v : str_empty hub = false -> ps <> [] ->
  v_disk (Add ok hub ps v).2 = if ok then v_hubs (Add ok hub ps v).2 else v_disk v.
Proof.
  intros Hh Hps. unfold Add. rewrite Hh. destruct ps as [|p ps]; [done|].
  unfold persist. destruct ok; [done|]. simpl. by case_match.
Qed.

Lemma Add_result ok hub ps v : str_empty hub = false -> ps <> [] ->
  (Add ok hub ps v).1 = if ok then Ok tt else Err (WalletErr "write proof store").
Proof. intros Hh Hps. unfold Add. rewrite Hh. destruct ps as [|p ps]; [done|]. by destruct ok. Qed.

(** ** Lemmas on blinding *)
Section wallet_lemmas.
Context `{WalletCryptoLaws}.

(** The message the i-th state was blinded into. *)
Definition blinds (keysetID : string) (msg : BlindedMessage) (st : blindState) : Prop :=
  exists B, gcrypto_BlindMessage (bl_secret st) (bl_r st) = Some B /\
    msg = mkBM (bl_amount st) (hex_encode (SerializeCompressed B)) keysetID.

Lemma blind_loop_facts k e i amounts msgs states :
  blind_loop k e i amounts = Ok (msgs, states) ->
  bl_amount <$> states = amounts /\ Forall2 (blinds k) msgs states /\
  forall j st, states !! j = Some st ->
    exists s, ent_secret e (i + j)%nat = Some s /\ bl_secret st = hex_encode s.
Proof.
  revert i msgs states. induction amounts as [|a amounts IH]; simpl; intros i msgs states Hb.
  { simplify_eq. split_and!; [done|constructor|done]. }
  unfold generateSecret in Hb. destruct (ent_secret e i) as [s|] eqn:Hs; simplify_eq/=.
  destruct (ent_r e i) as [r|]; simplify_eq/=.
  destruct (gcrypto_BlindMessage (hex_encode s) r) as [B|] eqn:HB; simplify_eq/=.
  destruct (blind_loop k e (S i) amounts) as [[ms sts]|] eqn:Hl; simplify_eq/=.
  apply IH in Hl as (<- & Hf & Hsec). split_and!; [done| |].
  - constructor; [|done]. by exists B.
  - intros [|j] st Hst; simplify_eq/=.
    + rewrite Nat.add_0_r. eauto.
    + replace (i + S j)%nat with (S i + j)%nat by lia. by apply Hsec.
Qed.

Lemma unblind_one_facts ks sig st p : unblind_one ks sig st = Ok p ->
  p_Amount p = bl_amount st /\ p_Secret p = bl_secret st /\ p_Id p = ki_ID ks.
Proof. unfold unblind_one. intros. crush. Qed.

Lemma unblind_facts ks sigs states ps : unblindSignatures sigs states ks = Ok ps ->
  p_Amount <$> ps = bl_amount <$> states /\ p_Secret <$> ps = bl_secret <$> states /\
  Forall (fun p => p_Id p = ki_ID ks) ps /\ length ps = length sigs.
Proof.
  unfold unblindSignatures. destruct (negb _) eqn:Hn; [done|].
  apply negb_false_iff, Nat.eqb_eq in Hn. revert states ps Hn.
  induction sigs as [|sig sigs IH]; intros [|st states] ps Hn; simplify_eq/=; intros Hu; [by simplify_eq|].
  destruct (unblind_one ks sig st) as [p|] eqn:Hu1; simplify_eq/=.
  destruct (unblind_loop ks sigs states) as [ps'|] eqn:Hu2; simplify_eq/=.
  apply unblind_one_facts in Hu1 as (Ha & Hs & Hi). apply IH in Hu2 as (Ha' & Hs' & Hi' & Hl); [|done].
  csimpl. rewrite Ha, Hs, Ha', Hs', Hl. split_and!; try done. by constructor.
Qed.

(** Fresh randomness: no secret drawn twice, none held already. *)
Definition fresh_entropy (e : entropy) (ps : list Proof_) : Prop :=
  (forall i j s, ent_secret e i = Some s -> ent_secret e j = Some s -> i = j) /\
  (forall i s p, ent_secret e i = Some s -> p ∈ ps -> p_Secret p <> hex_encode s).

Lemma hex_encode_inj a b : hex_encode a = hex_encode b -> a = b.
Proof. intros Heq%(f_equal hex_decode). rewrite !hex_decode_encode in Heq. by simplify_eq. Qed.

Lemma fresh_states k e amounts msgs states ps :
  fresh_entropy e ps -> blind_loop k e 0 amounts = Ok (msgs, states) ->
  NoDup (bl_secret <$> states) /\
  forall st p, st ∈ states -> p ∈ ps -> p_Secret p <> bl_secret st.
Proof.
  intros [Hinj Hnew] (_ & _ & Hsec)%blind_loop_facts. simpl in Hsec. split.
  - apply NoDup_alt. intros i j x Hi Hj. rewrite list_lookup_fmap in Hi, Hj.
    destruct (states !! i) as [s1|] eqn:Hu1; simplify_eq/=. destruct (states !! j) as [s2|] eqn:Hu2; simplify_eq/=.
    apply Hsec in Hu1 as (x1 & Hx1 & E1), Hu2 as (x2 & Hx2 & E2). rewrite E1, E2 in Hj.
    apply hex_encode_inj in Hj as ->. by eapply Hinj.
  - intros st p [i Hi]%list_elem_of_lookup Hp. apply Hsec in Hi as (s & Hs & ->). by eapply Hnew.
Qed.

Lemma worth_of_amounts ps : worth ps = zsum (p_Amount <$> ps).
Proof. done. Qed.

Section reserve.
Context {Hub : Type} (api : HubApi Hub).

(** The two halves of a swap for change. *)
Lemma swapForChange_Ok e taken amount h pay change h' keep :
  0 < amount -> amount <= worth taken < 2 ^ 64 -> 0 <= worth taken -> fresh_entropy e keep ->
  swapForChange api e taken amount h = (Ok (pay, change), h') ->
  worth pay = amount /\ worth change = worth taken - amount /\ NoDup (p_Secret <$> change) /\
  forall p q, p ∈ change -> q ∈ keep -> p_Secret p <> p_Secret q.
Proof.
  intros Hpos Hle Hnn Hfresh. unfold swapForChange.
  rewrite usum_by_exact by (unfold in_u64, worth in *; lia). fold (worth taken).
  rewrite (proj2 (Z.ltb_ge _ _)) by lia. unfold sub_u64. rewrite wrap_u64_id by (unfold in_u64; lia).
  destruct (ActiveKeyset api h) as [[ks|] h0]; [|done]. unfold blindAmounts.
  destruct (str_empty (ki_ID ks)); [done|].
  destruct (blind_loop _ e 0 _) as [[outs sts]|] eqn:Hb; [|done].
  destruct (Client_Swap api taken outs h0) as [[sigs|] h1]; [|done].
  destruct (unblindSignatures sigs sts ks) as [ps|] eqn:Hu; [|done].
  destruct (negb _) eqn:Hlen; [done|]. intros ?; simplify_eq.
  pose proof (fresh_states _ _ _ _ _ _ Hfresh Hb) as [Hnd Hnew].
  apply blind_loop_facts in Hb as (Ham & _ & _). apply unblind_facts in Hu as (Ha & Hs & _ & _).
  rewrite Ham in Ha. destruct (law_split amount) as [Hp _]; [lia|].
  destruct (law_split (worth taken - amount)) as [Hc _]; [lia|].
  split_and!.
  - rewrite worth_of_amounts, fmap_take, Ha, take_app_length. done.
  - rewrite worth_of_amounts, fmap_drop, Ha, drop_app_length. done.
  - rewrite fmap_drop, Hs. eapply sublist_NoDup; [exact Hnd|apply sublist_drop].
  - intros p q Hp' Hq. assert (p_Secret p ∈ bl_secret <$> sts) as Hin.
    { rewrite <-Hs. apply list_elem_of_fmap_2. eapply elem_of_sublist; [exact Hp'|apply sublist_drop]. }
    apply list_elem_of_fmap in Hin as (st & -> & Hst). intros Heq. by eapply Hnew.
Qed.

(** C11: paying an exact amount. Reserve returns proofs worth exactly the amount
    asked, the balance drops by exactly that, whatever change the hub had to
    make, and the disk has what memory has. When it fails, either nothing at all
    changed (no request was made), or proofs were taken for a swap, worth more
    than the amount, and one of three things happened. (1) The hub answered 409:
    the proofs taken are dropped, from memory and disk. (2) The swap failed
    otherwise: memory holds what it held, and so does the disk if they could be
    written back; if not, the disk lacks the proofs taken and a restart loses
    them. Held is not spendable: if the swap's answer was lost, the hub has
    burned them ([lost_swap_answer]). (3) The swap succeeded but its change could
    not be written: the payment is lost, memory has the change, and the disk has
    neither. *)
Theorem reserve_outcomes e ok1 ok2 hub amount v h
    (Hsane : sane (held hub v)) (Hamount : 0 <= amount < 2 ^ 64) (Hhub : str_empty hub = false)
    (Hnd : NoDup (p_Secret <$> held hub v)) (Hfresh : fresh_entropy e (held hub v)) :
  let '(r, v', h') := Reserve api e ok1 ok2 hub amount v h in
  match r with
  | Ok payment => worth payment = amount /\ worth (held hub v') = worth (held hub v) - amount /\
                  v_disk v' = v_hubs v'
  | Err er =>
      (v' = v /\ h' = h) \/
      exists taken, amount < worth taken /\
        let swap := swapForChange api e taken amount h in
        (swap = (Err er, h') /\ er = HubError StatusConflict /\
         taken ++ held hub v' ≡ₚ held hub v /\ v_disk v' = v_hubs v') \/
        (swap = (Err er, h') /\ er <> HubError StatusConflict /\ held hub v' ≡ₚ held hub v /\
         (if ok2 then v_disk v' = v_hubs v' else taken ++ on_disk hub v' ≡ₚ held hub v)) \/
        (ok2 = false /\ exists pay change, swap = (Ok (pay, change), h') /\ worth pay = amount /\
         worth (held hub v') = worth (held hub v) - amount /\ taken ++ on_disk hub v' ≡ₚ held hub v)
  end.
Proof.
  unfold Reserve. destruct (amount =? 0) eqn:Hz; bprop; [by left|].
  pose proof (Take_cases ok1 hub amount v Hsane Hamount) as Ht.
  destruct (Take ok1 hub amount v) as [[taken|er] v1]; [|destruct Ht as [-> _]; by left].
  destruct Ht as (_ & Hpos & _ & Hdisk1 & Hperm & Hge & _).
  pose proof (zsum_by_perm p_Amount _ _ Hperm) as Hw. rewrite zsum_by_app in Hw.
  assert (sane taken) as [Htn Htl].
  { destruct Hsane as [Hn Hl]. rewrite <-Hperm in Hn. apply Forall_app in Hn as [Hn1 Hn2].
    split; [done|]. pose proof (zsum_by_nonneg p_Amount _ Hn2). unfold worth in *. lia. }
  pose proof (zsum_by_nonneg p_Amount _ Htn) as Ht0.
  assert (forall p q, p ∈ taken -> q ∈ held hub v1 -> p_Secret p <> p_Secret q) as Hdisj.
  { rewrite <-Hperm, fmap_app in Hnd. apply NoDup_app in Hnd as (_ & Hd & _). intros p q Hp Hq Heq.
    eapply Hd; [by apply list_elem_of_fmap_2|]. rewrite Heq. by apply list_elem_of_fmap_2. }
  assert (NoDup (p_Secret <$> taken)) as Hndt.
  { rewrite <-Hperm, fmap_app in Hnd. by apply NoDup_app in Hnd as (? & _ & _). }
  rewrite usum_by_exact by (unfold in_u64, worth in *; lia). fold (worth taken).
  destruct (worth taken =? amount) eqn:Heq; bprop; [unfold worth in *; split_and!; [lia|lia|done]|].
  assert (taken <> []) as Hne by (intros ->; unfold worth in *; rewrite zsum_by_nil in *; lia).
  assert (taken ++ on_disk hub v1 ≡ₚ held hub v) as Hd1 by (unfold on_disk; by rewrite Hdisk1).
  pose proof (Add_disk ok2 hub taken v1 Hhub Hne) as Hback_disk.
  assert (held hub (Add ok2 hub taken v1).2 ≡ₚ held hub v) as Hback.
  { destruct (Add ok2 hub taken v1) as [r2 v2] eqn:Ha. apply Add_new in Ha as (Hh & _ & _); [|done..].
    simpl. rewrite Hh, Permutation_app_comm. exact Hperm. }
  assert (if ok2 then v_disk (Add ok2 hub taken v1).2 = v_hubs (Add ok2 hub taken v1).2
          else taken ++ on_disk hub (Add ok2 hub taken v1).2 ≡ₚ held hub v) as Hput.
  { destruct ok2; [done|]. unfold on_disk. by rewrite Hback_disk. }
  destruct (swapForChange api e taken amount h) as [[[pay change]|er] h1] eqn:Hsw.
  - pose proof Hsw as Hswap. assert (fresh_entropy e (held hub v1)) as Hfresh1.
    { destruct Hfresh as [? Hnew]. split; [done|]. intros i s p Hs Hp. apply (Hnew i s p Hs).
      rewrite <-Hperm. apply elem_of_app. by right. }
    eapply swapForChange_Ok in Hsw as (Hp & Hc & Hndc & Hnewc); [|lia|lia|done|exact Hfresh1].
    destruct change as [|c change]; [unfold worth in *; rewrite zsum_by_nil in Hc; lia|].
    pose proof (Add_disk ok2 hub (c :: change) v1 Hhub ltac:(done)) as Hd2.
    destruct (Add ok2 hub (c :: change) v1) as [r2 v2] eqn:Ha. simpl in Hd2.
    apply Add_new in Ha as (Hh & _ & Hr); [|done..].
    assert (worth (held hub v2) = worth (held hub v) - amount) as Hbal.
    { rewrite Hh. unfold worth in *. rewrite zsum_by_app. lia. }
    assert (is_ok r2 = ok2) as Hok2.
    { destruct ok2; [by apply Hr; left|]. destruct r2; [|done]. by destruct (proj1 Hr eq_refl). }
    destruct r2 as [[]|er2]; destruct ok2; try done.
    right. exists taken. split; [lia|]. right; right. split; [done|]. exists pay, (c :: change).
    split_and!; [done..|]. unfold on_disk. by rewrite Hd2.
  - destruct er as [|status|msg]; [|destruct (status =? StatusConflict) eqn:Hst; bprop|].
    2: { right. exists taken. split; [lia|]. left. subst. done. }
    all: right; exists taken; split; [lia|]; right; left; split_and!; [done|congruence|done|done].
Qed.
End reserve.
End wallet_lemmas.

(** ** The wallet against the mint *)
Section round_trip.
Context `{WalletCryptoLaws} {S : Type} `{MintStore S}.
Context (as_error : mint_error -> wallet_error).

Definition answer {A} (r : mresult A) : result wallet_error A :=
  match r with Ok a => Ok a | Err e => Err (as_error e) end.

(** The mint of Mint.v behind the hub's API. *)
Definition mint_api (m : Mint) : HubApi S := {|
  api_keys := fun s =>
    (match ActiveKeysetID m with
     | Err e => Err (as_error e)
     | Ok id => (fun keys => [mkKeysetInfo id "sat" keys]) <$> answer (KeysetPublicKeys m id)
     end, s);
  api_mint := fun id outs s => let '(r, s') := MintTokens m id outs s in (answer r, s');
  api_swap := fun ins outs s => let '(r, s') := Swap m "" ins outs s in (answer r, s')
|}.

(** The mint accepts the proof as long as it is unspent. *)
Definition redeemable (m : Mint) (p : Proof_) : Prop :=
  exists Y, HashToCurve (p_Secret p) = Some Y /\
    forall read now, read (hex_encode (SerializeCompressed Y)) = Ok false ->
      is_ok (verify_one m read now p) = true.

Lemma parse_hex_point p : on_curve p ->
  parsePubkeyHex (hex_encode (SerializeCompressed p)) = Some p /\
  parsePublicKey (hex_encode (SerializeCompressed p)) = Some p.
Proof.
  intros Hp. unfold parsePubkeyHex, parsePublicKey. rewrite hex_decode_encode.
  by destruct (law_parse_serialize p Hp) as [-> _].
Qed.

Lemma blind_loop_total k e i amounts :
  (forall i, exists buf r B, ent_secret e i = Some buf /\ ent_r e i = Some r /\
     gcrypto_BlindMessage (hex_encode buf) r = Some B) ->
  exists msgs states, blind_loop k e i amounts = Ok (msgs, states).
Proof.
  intros He. revert i. induction amounts as [|a amounts IH]; intros i; simpl; [eauto|].
  destruct (He i) as (buf & r & B & Hs & Hr & HB). unfold generateSecret. rewrite Hs. simpl. rewrite Hr, HB.
  destruct (IH (Datatypes.S i)) as (msgs & states & ->). simpl. eauto.
Qed.

Section keyset.
Context (m : Mint) (ks : MintKeyset).
Context (Hknown : m_keysets m !! mk_Id ks = Some ks) (Hactive : mk_Active ks = true).
Context (Hkeys : forall a kp, mk_Keys ks !! a = Some kp ->
  kp_PublicKey kp = PubOf (kp_PrivateKey kp) /\ on_curve (kp_PublicKey kp)).

(** The mint's signature on what the state blinded. *)
Definition signs (sig : BlindedSignature) (st : blindState) : Prop :=
  exists kp B, mk_Keys ks !! bl_amount st = Some kp /\
    gcrypto_BlindMessage (bl_secret st) (bl_r st) = Some B /\
    sig = mkBS (bl_amount st) (hex_encode (SerializeCompressed (SignBlindedMessage B (kp_PrivateKey kp))))
            (mk_Id ks).

Lemma sign_total msgs states :
  Forall2 (blinds (mk_Id ks)) msgs states ->
  (forall a, a ∈ bl_amount <$> states -> is_Some (mk_Keys ks !! a)) ->
  exists sigs, SignBlindedMessages m msgs = Ok sigs /\ Forall2 signs sigs states.
Proof.
  induction 1 as [|msg st msgs states (B & HB & ->) _ IH]; intros Hd; [by exists []|].
  destruct (Hd (bl_amount st)) as [kp Hkp]; [by left|].
  destruct IH as (sigs & Hs & Hf); [intros a Ha; apply Hd; by right|].
  cbn [SignBlindedMessages]. unfold sign_one. simpl. rewrite Hknown, Hactive. simpl. rewrite Hkp.
  destruct (parse_hex_point B) as [_ ->]; [by eapply law_blind_on_curve|]. simpl. rewrite Hs. simpl.
  eexists. split; [done|]. constructor; [|done]. by exists kp, B.
Qed.

Lemma unblind_total sigs states :
  Forall2 signs sigs states ->
  exists ps, unblindSignatures sigs states (mkKeysetInfo (mk_Id ks) "sat" (keysetPublicKeys ks)) = Ok ps /\
    Forall (redeemable m) ps.
Proof.
  intros Hf. unfold unblindSignatures. rewrite (Forall2_length _ _ _ Hf), Nat.eqb_refl. simpl.
  induction Hf as [|sig st sigs states (kp & B & Hkp & HB & ->) _ (ps & Hu & Hr)]; [by exists []|].
  destruct (Hkeys _ _ Hkp) as [Hpub Hcurve]. simpl. unfold unblind_one. simpl. rewrite Z.eqb_refl. simpl.
  assert (on_curve (SignBlindedMessage B (kp_PrivateKey kp))) as Hsc
    by (apply law_sign_on_curve; by eapply law_blind_on_curve).
  destruct (parse_hex_point _ Hsc) as [-> _]. unfold keysetPublicKeys. rewrite lookup_fmap, Hkp. simpl.
  destruct (parse_hex_point _ Hcurve) as [-> _]. simpl. unfold keysetPublicKeys in Hu. rewrite Hu. simpl.
  eexists. split; [done|]. constructor; [|done].
  destruct (law_unblind _ _ _ (kp_PrivateKey kp) HB) as (Y & HY & HC). exists Y. split; [done|].
  intros read now Hread. unfold verify_one. simpl. rewrite Hknown, Hkp, Hpub, HC.
  assert (on_curve (ScalarMult (kp_PrivateKey kp) Y)) as Hyc by (rewrite <-HC; by apply law_unblind_on_curve).
  destruct (law_parse_serialize _ Hyc) as [Hp Hl].
  rewrite hex_decode_buf_encode, (proj2 (Nat.leb_le _ _)) by (unfold slen in Hl; lia).
  rewrite Hl. simpl. rewrite Hp, HY, bool_decide_true by done. simpl. by rewrite Hread.
Qed.
(** Mint once the keys are known: what becomes of it is what becomes of the request,
    and the mint's own signatures give tokens worth the quote. *)
Lemma Wallet_Mint_cases {Hub} (api : HubApi Hub) e ok hub id n v h h0
    (Hne : str_empty (mk_Id ks) = false) (Hdenoms : forall a, a ∈ AmountSplit n -> is_Some (mk_Keys ks !! a))
    (Hn : 0 < n < 2 ^ 64) (Hid : str_empty id = false) (Hhub : str_empty hub = false)
    (Hent : forall i, exists buf r B, ent_secret e i = Some buf /\ ent_r e i = Some r /\
       gcrypto_BlindMessage (hex_encode buf) r = Some B)
    (Hfresh : fresh_entropy e (held hub v)) :
  ActiveKeyset api h = (Ok (mkKeysetInfo (mk_Id ks) "sat" (keysetPublicKeys ks)), h0) ->
  exists msgs sigs, msgs <> [] /\ zsum_by bm_Amount msgs = n /\ SignBlindedMessages m msgs = Ok sigs /\
    forall r h1, api_mint api id msgs h0 = (r, h1) ->
    match r with
    | Err er => Wallet_Mint api e ok hub (Some (mkWalletQuote id n)) v h = (Err er, v, h1)
    | Ok sigs' => sigs' = sigs ->
        exists proofs v',
          Wallet_Mint api e ok hub (Some (mkWalletQuote id n)) v h =
            (if ok then Ok proofs else Err (WalletErr "write proof store"), v', h1) /\
          worth proofs = n /\ held hub v' = held hub v ++ proofs /\ Forall (redeemable m) proofs /\
          v_disk v' = if ok then v_hubs v' else v_disk v
    end.
Proof.
  intros Hactive'. destruct (law_split n) as [Hsum _]; [lia|].
  destruct (blind_loop_total (mk_Id ks) e 0 (AmountSplit n) Hent) as (msgs & states & Hb).
  pose proof (blind_loop_facts _ _ _ _ _ _ Hb) as (Ham & Hf & _).
  pose proof (fresh_states _ _ _ _ _ _ Hfresh Hb) as [Hnd Hnew].
  destruct (sign_total msgs states Hf) as (sigs & Hs & Hsg); [by rewrite Ham|].
  destruct (unblind_total sigs states Hsg) as (ps & Hu & Hr).
  pose proof (unblind_facts _ _ _ _ Hu) as (Hpa & Hps & _ & _).
  assert (bm_Amount <$> msgs = AmountSplit n) as Hma.
  { rewrite <-Ham. clear -Hf. induction Hf as [|? ? ? ? (B & _ & ->) _ IH]; [done|]. csimpl. by rewrite IH. }
  assert (zsum_by bm_Amount msgs = n) as Hout by (unfold zsum_by; by rewrite Hma).
  assert (length sigs = length msgs) as Hlen
    by (rewrite (Forall2_length _ _ _ Hsg); symmetry; eapply Forall2_length, Hf).
  assert (msgs <> []) as Hmsgs by (intros ->; rewrite zsum_by_nil in Hout; lia).
  exists msgs, sigs. split_and!; [done..|]. intros r h1 Hapi.
  unfold Wallet_Mint. cbn [wq_Amount wq_ID]. rewrite (proj2 (Z.eqb_neq _ _)) by lia. rewrite Hactive'.
  unfold blindAmounts. cbn [ki_ID]. rewrite Hne, Hb. unfold Client_MintTokens. rewrite Hid.
  destruct msgs as [|msg msgs]; [done|]. rewrite Hapi. destruct r as [sigs'|er]; [intros ->|done].
  unfold checked_length. cbn [mbind result_mbind]. rewrite Hlen, Nat.eqb_refl, Hu.
  assert (ps <> []) as Hps0.
  { intros ->. rewrite Ham in Hpa. simpl in Hpa. rewrite <-Hpa in Hsum. unfold zsum in Hsum. simpl in Hsum. lia. }
  pose proof (Add_disk ok hub ps v Hhub Hps0) as Hdisk. pose proof (Add_result ok hub ps v Hhub Hps0) as Hres.
  destruct (Add ok hub ps v) as [r v'] eqn:Hadd. apply Add_new in Hadd as (Hh & _ & _); [|done|by rewrite Hps|].
  2:{ intros p p' Hp Hp'. assert (p_Secret p ∈ bl_secret <$> states) as Hin
        by (rewrite <-Hps; by apply list_elem_of_fmap_2).
      apply list_elem_of_fmap in Hin as (st & -> & Hst'). intros Heq. by eapply Hnew. }
  simpl in Hres, Hdisk. subst r. exists ps, v'. split_and!; [by destruct ok| |done|done|done].
  rewrite worth_of_amounts, Hpa, Ham. exact Hsum.
Qed.
End keyset.

(** C12: minting, end to end. The wallet against the mint, over a paid quote and
    with randomness, keys for the denominations needed and a writable vault:
    Mint succeeds, the quote is claimed, the proofs are worth exactly the quote
    and added to the vault, and the mint accepts each of them while unspent. *)
Theorem wallet_mint_round_trip (m : Mint) (ks : MintKeyset) e hub id n q v s s1
    (Hm : m_activeKeyset m = Some ks /\ m_keysets m !! mk_Id ks = Some ks /\
          mk_Active ks = true /\ str_empty (mk_Id ks) = false)
    (Hkeys : forall a kp, mk_Keys ks !! a = Some kp ->
       kp_PublicKey kp = PubOf (kp_PrivateKey kp) /\ on_curve (kp_PublicKey kp))
    (Hdenoms : forall a, a ∈ AmountSplit n -> is_Some (mk_Keys ks !! a))
    (Hn : 0 < n < 2 ^ 64) (Hid : str_empty id = false) (Hhub : str_empty hub = false)
    (Hquote : GetMintQuote id s = Ok q /\ q_State q = QuotePaid /\ q_Amount q = n)
    (Hclaim : TransitionMintQuoteState id QuotePaid QuoteIssued s = (Ok true, s1))
    (Hent : forall i, exists buf r B, ent_secret e i = Some buf /\ ent_r e i = Some r /\
       gcrypto_BlindMessage (hex_encode buf) r = Some B)
    (Hfresh : fresh_entropy e (held hub v)) :
  exists proofs v',
    Wallet_Mint (mint_api m) e true hub (Some (mkWalletQuote id n)) v s = (Ok proofs, v', s1) /\
    worth proofs = n /\ held hub v' = held hub v ++ proofs /\ Forall (redeemable m) proofs.
Proof.
  destruct Hm as (Ha & Hk & Hact & Hne), Hquote as (Hget & Hst & Hamt).
  destruct (Wallet_Mint_cases m ks Hk Hact Hkeys (mint_api m) e true hub id n v s s Hne Hdenoms Hn Hid Hhub Hent Hfresh)
    as (msgs & sigs & _ & Hout & Hs & Hcases).
  { unfold ActiveKeyset, mint_api, ActiveKeysetID, KeysetPublicKeys. simpl. by rewrite Ha, Hk. }
  assert (api_mint (mint_api m) id msgs s = (Ok sigs, s1)) as Hapi; [|destruct (Hcases (Ok sigs) s1 Hapi eq_refl)
    as (proofs & v' & Hrun & Hw & Hh & Hr & _); by exists proofs, v'].
  cbn [api_mint mint_api]. unfold MintTokens. rewrite Hget. unfold mint_guard. rewrite Hst.
  rewrite law_outputs_amount by (unfold in_u64; lia). rewrite Hout, Hamt, Z.leb_refl. simpl.
  by rewrite Hclaim, Hs.
Qed.
End round_trip.

(** ** A concrete wallet and hub *)
Fixpoint bits (k : nat) (n : Z) : list Z :=
  match k with
  | O => []
  | S k' => bits k' n ++ (if Z.testbit n (Z.of_nat k') then [2 ^ Z.of_nat k'] else [])
  end.

Lemma bits_sum k n : zsum (bits k n) = n mod 2 ^ Z.of_nat k.
Proof.
  induction k as [|k IH]; [by rewrite Z.mod_1_r|]. cbn [bits]. rewrite zsum_app, IH.
  rewrite Nat2Z.inj_succ, Z.pow_succ_r by lia. rewrite Z.mul_comm, Z.rem_mul_r by lia.
  rewrite <-Z.testbit_spec' by lia. destruct (Z.testbit n (Z.of_nat k)); unfold zsum; simpl; lia.
Qed.

Lemma bits_powers k n : Forall power_of_two (bits k n).
Proof.
  induction k as [|k IH]; [constructor|]. cbn [bits]. apply Forall_app. split; [done|].
  destruct (Z.testbit n (Z.of_nat k)); repeat constructor. exists (Z.of_nat k). split; [lia|done].
Qed.

#[export] Instance toy_wallet : WalletCrypto := {|
  PubOf := (fun k => k mod 251) : Scalar -> Point;
  gcrypto_BlindMessage := (fun secret r => Some ((toy_hash secret + r) mod 251)) : string -> Scalar -> option Point;
  gcrypto_UnblindSignature := (fun C r K => (C - r * K) mod 251) : Point -> Scalar -> Point -> Point;
  AmountSplit := bits 64
|}.

#[export] Instance toy_wallet_laws : WalletCryptoLaws.
Proof.
  refine {| on_curve := (fun p => 0 <= p < 251) : Point -> Prop |}.
  - cbn. intros p Hp. rewrite nat_ascii_embedding by lia. by rewrite Z2Nat.id by lia.
  - cbn. intros secret r B [= <-]. apply Z.mod_pos_bound. lia.
  - cbn. intros B k _. apply Z.mod_pos_bound. lia.
  - cbn. intros C r K _. apply Z.mod_pos_bound. lia.
  - cbn. intros secret r B k [= <-]. eexists. split; [done|].
    set (Y := toy_hash secret). rewrite Zminus_mod_idemp_l.
    rewrite (Z.mod_eq (Y + r)), (Z.mod_eq k) by lia. set (q1 := (Y + r) / 251). set (q2 := k / 251).
    replace (k * (Y + r - 251 * q1) - r * (k - 251 * q2)) with (k * Y + (r * q2 - k * q1) * 251) by ring.
    apply Z_mod_plus_full.
  - intros outs Ho. by apply usum_by_exact.
  - intros n Hn. change (AmountSplit n) with (bits 64 n). split; [|apply bits_powers]. rewrite bits_sum. apply Z.mod_small. done.
Defined.

Definition toy_entropy : entropy :=
  mkEntropy (fun i => Some (show_Z (Z.of_nat i))) ((fun i => Some (Z.of_nat i + 3)) : nat -> option Scalar).
Definition toy_proofs : list Proof_ := [toy_proof 8 "a"].
Definition toy_vault : EncryptedProofStore := mkVault {[ "hub"%string := toy_proofs ]} {[ "hub"%string := toy_proofs ]}.
Definition toy_as_error (e : mint_error) : wallet_error := HubError 400.

Lemma toy_fresh_entropy : fresh_entropy toy_entropy (held "hub" toy_vault).
Proof.
  split.
  - intros i j s [= <-] [= Heq]. apply show_Z_inj in Heq. lia.
  - intros i s p [= <-] Hp. change (held "hub" toy_vault) with toy_proofs in Hp.
    apply list_elem_of_singleton in Hp as ->. simpl. intros Heq.
    apply (f_equal String.length) in Heq. rewrite hex_encode_length in Heq. simpl in Heq. lia.
Qed.

(** Paying 3 from a single proof of 8: the hub makes the change. *)
Lemma reserve_outcomes_witness :
  let '(r, v', _) := Reserve (mint_api toy_as_error toy_mint) toy_entropy true true "hub" 3 toy_vault toy_db in
  exists payment, r = Ok payment /\ worth payment = 3 /\
    worth (held "hub" v') = worth (held "hub" toy_vault) - 3 /\ v_disk v' = v_hubs v'.
Proof.
  assert (is_ok (Reserve (mint_api toy_as_error toy_mint) toy_entropy true true "hub" 3 toy_vault toy_db).1.1
    = true) as Hok by (vm_compute; reflexivity).
  pose proof (reserve_outcomes (mint_api toy_as_error toy_mint) toy_entropy true true "hub" 3 toy_vault toy_db)
    as Ho.
  destruct (Reserve _ _ _ _ _ _ _ _) as [[[payment|er] v'] h']; [|discriminate]. exists payment.
  split; [reflexivity|]. apply Ho.
  - split; [repeat constructor; discriminate|reflexivity].
  - lia.
  - reflexivity.
  - apply NoDup_singleton.
  - exact toy_fresh_entropy.
Defined.

(** The hub swaps and its answer is lost: the proof of 8 is held again, and spent
    at the mint. *)
Definition lossy_api : HubApi EDB :=
  let api := mint_api toy_as_error toy_mint in
  mkHubApi (api_keys api) (api_mint api)
    (fun ins outs s => (Err (WalletErr "connection reset by peer"), (api_swap api ins outs s).2)).
Example lost_swap_answer :
  let '(r, v', s') := Reserve lossy_api toy_entropy true true "hub" 3 toy_vault toy_db in
  is_ok r = false /\ held "hub" v' = toy_proofs /\
  VerifyProofs toy_mint s' "t2" toy_proofs = Err ErrProofAlreadySpent.
Proof. by vm_compute. Qed.

(** A 409 is taken as the swap's wherever it comes from: one to the request for
    the keys drops proofs that no one burned. *)
Definition conflicting_api : HubApi EDB :=
  let api := mint_api toy_as_error toy_mint in
  mkHubApi (fun s => (Err (HubError StatusConflict), s)) (api_mint api) (api_swap api).
Example keys_conflict_drops :
  let '(r, v', s') := Reserve conflicting_api toy_entropy true true "hub" 3 toy_vault toy_db in
  is_ok r = false /\ held "hub" v' = [] /\ on_disk "hub" v' = [] /\ s' = toy_db.
Proof. by vm_compute. Qed.

(** The key pair of the denomination 8. *)
Definition toy_key8 : KeyPair := mkKeyPair (17 + 3 + 0) ((17 + 3 + 0) mod 251).

Lemma toy_keys_ok a kp : toy_keys 0 !! a = Some kp ->
  kp_PublicKey kp = PubOf (kp_PrivateKey kp) /\ on_curve (kp_PublicKey kp).
Proof.
  intros Hkp. apply elem_of_list_to_map_2, list_elem_of_fmap in Hkp as (i & [= -> ->] & _). simpl.
  split; [done|]. apply Z.mod_pos_bound. lia.
Qed.

Lemma wallet_mint_round_trip_witness :
  exists proofs v' s', Wallet_Mint (mint_api toy_as_error toy_mint) toy_entropy true "hub"
      (Some (mkWalletQuote "q" 8)) toy_vault toy_paid = (Ok proofs, v', s') /\
    worth proofs = 8 /\ Forall (redeemable toy_mint) proofs.
Proof.
  pose (ks := mkKeyset "000" "sat" true (toy_keys 0) 0).
  assert (m_activeKeyset toy_mint = Some ks) as Ha by (vm_cast_no_check (eq_refl (Some ks))).
  assert (m_keysets toy_mint !! "000"%string = Some ks) as Hk by (vm_cast_no_check (eq_refl (Some ks))).
  assert ((TransitionMintQuoteState "q" QuotePaid QuoteIssued toy_paid).1 = Ok true) as Hclaim
    by (vm_compute; reflexivity).
  destruct (TransitionMintQuoteState "q" QuotePaid QuoteIssued toy_paid) as [r s1] eqn:Ht.
  simpl in Hclaim. subst r.
  destruct (wallet_mint_round_trip toy_as_error toy_mint ks toy_entropy "hub" "q" 8
    (toy_quote QuotePaid) toy_vault toy_paid s1) as (proofs & v' & Hrun & Hw & _ & Hr).
  - split_and!; [exact Ha|exact Hk|reflexivity|reflexivity].
  - exact toy_keys_ok.
  - intros a Hin. vm_compute in Hin.
    apply list_elem_of_singleton in Hin as ->. exists toy_key8. vm_cast_no_check (eq_refl (Some toy_key8)).
  - lia.
  - reflexivity.
  - reflexivity.
  - split_and!; vm_compute; reflexivity.
  - exact Ht.
  - intros i. simpl. eauto 10.
  - exact toy_fresh_entropy.
  - exists proofs, v', s1. split; [exact Hrun|]. split; [exact Hw|exact Hr].
Defined.
