(* ===== verification/Selector.v ===== *)
(** * Selector: the client's choice of entry and exit node
    (src/internal/client/selector.go, src/pkg/types/types.go)

    What the hub lists is decoded by FetchNodes; pairing happens on the client,
    with crypto/rand's answer an argument. *)
From S2P Require Import Prelude.

(** ** types.go *)
Definition Transport := string.
Definition TransportWireGuard : Transport := "wireguard".
Definition TransportHysteria2 : Transport := "hysteria2".
Definition TransportAmneziaWG : Transport := "amneziawg".

Record TransportCapability := mkCapability {
  tc_Transport : Transport;
  tc_Endpoint : string;
  tc_ConnectURL : string
}.
(** The JSON string is the role; any other value is [RoleOther]. *)
Inductive NodeRole := RoleEntry | RoleExit | RoleBoth | RoleOther (s : string).

Record NodeInfo := mkNode {
  n_ID : string;
  n_NostrPubkey : string;
  n_WGPubkey : string;
  n_Endpoint : string;
  n_ConnectURL : string;
  n_Transports : list TransportCapability;
  n_LNURL : string;
  n_DepositSats : Z;
  n_UploadMbps : Z;
  n_DownloadMbps : Z;
  n_Load : Z;
  n_Capacity : Z;
  n_Role : NodeRole;
  n_Version : string;
  n_OperatorID : string;
  n_PreferredTransport : Transport
}.
Definition with_operator (op : string) (n : NodeInfo) : NodeInfo :=
  mkNode (n_ID n) (n_NostrPubkey n) (n_WGPubkey n) (n_Endpoint n) (n_ConnectURL n) (n_Transports n)
    (n_LNURL n) (n_DepositSats n) (n_UploadMbps n) (n_DownloadMbps n) (n_Load n) (n_Capacity n)
    (n_Role n) (n_Version n) op (n_PreferredTransport n).
Definition with_endpoint (endpoint connectURL : string) (n : NodeInfo) : NodeInfo :=
  mkNode (n_ID n) (n_NostrPubkey n) (n_WGPubkey n) endpoint connectURL (n_Transports n)
    (n_LNURL n) (n_DepositSats n) (n_UploadMbps n) (n_DownloadMbps n) (n_Load n) (n_Capacity n)
    (n_Role n) (n_Version n) (n_OperatorID n) (n_PreferredTransport n).

(** ** selector.go *)
Inductive select_error :=
| ErrNoEntryNodes
| ErrNoExitNodes
| ErrNoCompatiblePair
| ErrFetchFailed
| ErrDecodingResponse
| ErrRandom.
#[export] Instance select_error_eq_dec : EqDecision select_error.
Proof. solve_decision. Defined.

Record NodePair := mkPair { np_Entry : NodeInfo; np_Exit : NodeInfo; np_Transport : Transport }.
Record discoveryNode := mkDiscovery { dn_Info : NodeInfo; dn_Online : bool; dn_Attestation : option string }.
Record pairCandidate := mkCandidate { pc_entry : NodeInfo; pc_exit : NodeInfo; pc_transport : Transport }.

Record NodeSelector := mkSelector { ns_preferred : list Transport; ns_allowed : gset Transport }.
Definition NewNodeSelectorWithPolicy (preferred allowed : list Transport) : NodeSelector :=
  mkSelector (match preferred with [] => [TransportWireGuard] | _ => preferred end) (list_to_set allowed).
Definition all_transports : list Transport := [TransportWireGuard; TransportHysteria2; TransportAmneziaWG].
Definition NewNodeSelector : NodeSelector := NewNodeSelectorWithPolicy [TransportWireGuard] all_transports.
Definition NewNodeSelectorWithPreferred (preferred : list Transport) : NodeSelector :=
  NewNodeSelectorWithPolicy preferred all_transports.

(** The hub's answer to GET /nodes: none or another status, a body that does
    not decode, or the (non-null) nodes. *)
Inductive nodes_reply := ReplyFailed | ReplyMalformed | ReplyNodes (nodes : list discoveryNode).

(** The online nodes, with the operator the attestation in the answer names
    and never the one the node announces. *)
Definition FetchNodes (reply : nodes_reply) : result select_error (list NodeInfo) :=
  match reply with
  | ReplyFailed => Err ErrFetchFailed
  | ReplyMalformed => Err ErrDecodingResponse
  | ReplyNodes nodes =>
      Ok ((fun d => with_operator (default "" (dn_Attestation d)) (dn_Info d)) <$> bfilter dn_Online nodes)
  end.

Definition is_entry (n : NodeInfo) : bool := match n_Role n with RoleEntry | RoleBoth => true | _ => false end.
Definition is_exit (n : NodeInfo) : bool := match n_Role n with RoleExit | RoleBoth => true | _ => false end.
Definition nodesByRole (nodes : list NodeInfo) : list NodeInfo * list NodeInfo :=
  (bfilter is_entry nodes, bfilter is_exit nodes).

Fixpoint capabilities_loop (seen : gset Transport) (cs : list TransportCapability) : list TransportCapability :=
  match cs with
  | [] => []
  | c :: r =>
      if str_empty (tc_Transport c) || str_empty (tc_Endpoint c) then capabilities_loop seen r
      else if bool_decide (tc_Transport c ∈ seen) then capabilities_loop seen r
      else c :: capabilities_loop ({[tc_Transport c]} ∪ seen) r
  end.
Definition capabilities (node : NodeInfo) : list TransportCapability :=
  match n_Transports node with
  | [] => if str_empty (n_Endpoint node) then []
          else [mkCapability TransportWireGuard (n_Endpoint node) (n_ConnectURL node)]
  | cs => capabilities_loop ∅ cs
  end.

Definition projectNodeForTransportWithConnectURL (node : NodeInfo) (transport : Transport)
    (requireConnectURL : bool) : option NodeInfo :=
  if str_empty transport then None
  else match n_Transports node with
  | [] =>
      if negb (String.eqb transport TransportWireGuard) || str_empty (n_Endpoint node) then None
      else if requireConnectURL && str_empty (n_ConnectURL node) then None
      else Some node
  | _ =>
      match List.find (fun c => String.eqb (tc_Transport c) transport) (capabilities node) with
      | None => None
      | Some c =>
          if str_empty (tc_Endpoint c) then None
          else if requireConnectURL && str_empty (tc_ConnectURL c) then None
          else Some (with_endpoint (tc_Endpoint c) (tc_ConnectURL c) node)
      end
  end.

Definition collectOperatorCandidates (entries exits : list NodeInfo) (transport : Transport)
    (requireConnectURL allowSameOperator : bool) : list pairCandidate :=
  entries ≫= fun entry =>
    match projectNodeForTransportWithConnectURL entry transport requireConnectURL with
    | None => []
    | Some e =>
        exits ≫= fun exit =>
          if String.eqb (n_NostrPubkey entry) (n_NostrPubkey exit) ||
             (negb allowSameOperator && negb (str_empty (n_OperatorID entry)) &&
              String.eqb (n_OperatorID entry) (n_OperatorID exit))
          then []
          else match projectNodeForTransportWithConnectURL exit transport requireConnectURL with
               | None => []
               | Some x => [mkCandidate e x transport]
               end
    end.

(** The looser collection of pairNodesWithPolicy: a node may be paired with
    itself when no distinct exit is compatible with it. *)
Definition collectCandidatesForTransport (entryNodes exitNodes : list NodeInfo) (transport : Transport)
    (requireConnectURL : bool) : list pairCandidate :=
  entryNodes ≫= fun entry =>
    match projectNodeForTransportWithConnectURL entry transport requireConnectURL with
    | None => []
    | Some e =>
        let compatibleDistinct := existsb (fun exit =>
          negb (String.eqb (n_NostrPubkey exit) (n_NostrPubkey entry)) &&
          match projectNodeForTransportWithConnectURL exit transport requireConnectURL with
          | Some _ => true | None => false
          end) exitNodes in
        exitNodes ≫= fun exit =>
          if compatibleDistinct && String.eqb (n_NostrPubkey exit) (n_NostrPubkey entry) then []
          else match projectNodeForTransportWithConnectURL exit transport requireConnectURL with
               | None => []
               | Some x => [mkCandidate e x transport]
               end
    end.

(** crypto/rand.Int(n): an index below n, or an error. Not called for one
    candidate. *)
Definition randomPickCandidate (rnd : nat -> option nat) (candidates : list pairCandidate) :
    result select_error pairCandidate :=
  match candidates with
  | [c] => Ok c
  | _ =>
      match rnd (length candidates) with
      | None => Err ErrRandom
      | Some i => match candidates !! i with Some c => Ok c | None => Err ErrRandom end
      end
  end.

(** The loop over the preferred transports, [collect] giving the candidates. *)
Fixpoint pair_loop (rnd : nat -> option nat) (permitted : Transport -> bool)
    (collect : Transport -> list pairCandidate) (preferred : list Transport) : result select_error NodePair :=
  match preferred with
  | [] => Err ErrNoCompatiblePair
  | transport :: rest =>
      if negb (permitted transport) then pair_loop rnd permitted collect rest
      else match collect transport with
      | [] => pair_loop rnd permitted collect rest
      | candidates =>
          match randomPickCandidate rnd candidates with
          | Err e => Err e
          | Ok c => Ok (mkPair (pc_entry c) (pc_exit c) (pc_transport c))
          end
      end
  end.

Definition pair_nodes (rnd : nat -> option nat) (nodes : list NodeInfo) (permitted : Transport -> bool)
    (collect : list NodeInfo -> list NodeInfo -> Transport -> list pairCandidate)
    (preferred : list Transport) : result select_error NodePair :=
  let '(entryNodes, exitNodes) := nodesByRole nodes in
  match entryNodes, exitNodes with
  | [], _ => Err ErrNoEntryNodes
  | _, [] => Err ErrNoExitNodes
  | _, _ => pair_loop rnd permitted (collect entryNodes exitNodes) preferred
  end.

Definition pairNodesWithPolicy (rnd : nat -> option nat) (nodes : list NodeInfo)
    (preferred : list Transport) (allowed : gset Transport) (requireConnectURL : bool) :=
  pair_nodes rnd nodes (fun t => bool_decide (allowed = ∅) || bool_decide (t ∈ allowed))
    (fun en ex t => collectCandidatesForTransport en ex t requireConnectURL) preferred.

Definition pairNodesWithOperatorPolicy (rnd : nat -> option nat) (nodes : list NodeInfo)
    (preferred : list Transport) (allowed : gset Transport) (requireConnectURL allowSameOperator : bool) :=
  pair_nodes rnd nodes (fun t => bool_decide (t ∈ allowed))
    (fun en ex t => collectOperatorCandidates en ex t requireConnectURL allowSameOperator) preferred.

Inductive TokenDeliveryMode := TokenDeliveryHTTP | TokenDeliveryNIP44.
Definition requires_url (d : TokenDeliveryMode) : bool :=
  match d with TokenDeliveryNIP44 => false | TokenDeliveryHTTP => true end.

Definition PairIndependentNodesForDelivery (rnd : nat -> option nat) (nodes : list NodeInfo)
    (preferred : list Transport) (allowed : gset Transport) (delivery : TokenDeliveryMode) :
    result select_error NodePair :=
  match pairNodesWithOperatorPolicy rnd nodes preferred allowed (requires_url delivery) false with
  | Err ErrNoCompatiblePair =>
      pairNodesWithOperatorPolicy rnd nodes preferred allowed (requires_url delivery) true
  | r => r
  end.

Definition PairNodesWithPolicyForDelivery rnd nodes preferred allowed (delivery : TokenDeliveryMode) :=
  pairNodesWithPolicy rnd nodes preferred allowed (requires_url delivery).
Definition PairNodesWithPolicy rnd nodes preferred allowed :=
  pairNodesWithPolicy rnd nodes preferred allowed true.
Definition PairNodesWithPreferred rnd nodes preferred :=
  PairNodesWithPolicy rnd nodes preferred (list_to_set all_transports).
Definition PairNodes rnd nodes := PairNodesWithPolicy rnd nodes [TransportWireGuard] {[TransportWireGuard]}.

Definition SelectPair (rnd : nat -> option nat) (s : NodeSelector) (reply : nodes_reply) :
    result select_error NodePair :=
  nodes ← FetchNodes reply;
  PairIndependentNodesForDelivery rnd nodes (ns_preferred s) (ns_allowed s) TokenDeliveryHTTP.

(** ** Lemmas *)

(** What a projection keeps and guarantees. *)
Lemma project_facts n t req n' : projectNodeForTransportWithConnectURL n t req = Some n' ->
  n_NostrPubkey n' = n_NostrPubkey n /\ n_WGPubkey n' = n_WGPubkey n /\
  n_OperatorID n' = n_OperatorID n /\ n_Role n' = n_Role n /\
  str_empty (n_Endpoint n') = false /\ (req = true -> str_empty (n_ConnectURL n') = false).
Proof.
  unfold projectNodeForTransportWithConnectURL. destruct (str_empty t); [done|].
  destruct (n_Transports n).
  - destruct (negb _ || str_empty (n_Endpoint n)) eqn:He; [done|].
    destruct (req && str_empty (n_ConnectURL n)) eqn:Hu; [done|]. intros ?; simplify_eq. bprop.
    split_and!; try done. intros ->. by simpl in Hu.
  - destruct (List.find _ _) as [c|]; [|done]. destruct (str_empty (tc_Endpoint c)) eqn:He; [done|].
    destruct (req && str_empty (tc_ConnectURL c)) eqn:Hu; [done|]. intros ?; simplify_eq.
    split_and!; try done. intros ->. by simpl in Hu.
Qed.

(** Two nodes that may be paired over a transport, and what they project to. *)
Definition can_pair (same req : bool) (t : Transport) (e x e' x' : NodeInfo) : Prop :=
  n_NostrPubkey e <> n_NostrPubkey x /\
  (same = true \/ n_OperatorID e = ""%string \/ n_OperatorID e <> n_OperatorID x) /\
  projectNodeForTransportWithConnectURL e t req = Some e' /\
  projectNodeForTransportWithConnectURL x t req = Some x'.

Lemma collect_spec entries exits t req same c :
  c ∈ collectOperatorCandidates entries exits t req same <->
  exists e x e' x', e ∈ entries /\ x ∈ exits /\ can_pair same req t e x e' x' /\ c = mkCandidate e' x' t.
Proof.
  unfold collectOperatorCandidates. rewrite list_elem_of_bind. split.
  - intros (e & Hc & He). destruct (projectNodeForTransportWithConnectURL e t req) as [e'|] eqn:Hpe;
      [|by apply elem_of_nil in Hc].
    apply list_elem_of_bind in Hc as (x & Hc & Hx). destruct (_ || _) eqn:Hg; [by apply elem_of_nil in Hc|].
    destruct (projectNodeForTransportWithConnectURL x t req) as [x'|] eqn:Hpx; [|by apply elem_of_nil in Hc].
    apply list_elem_of_singleton in Hc as ->. bprop. exists e, x, e', x'. split_and!; try done.
    unfold can_pair. split_and!; try done. destruct same; [by left|right]. simpl in *.
    destruct (str_empty (n_OperatorID e)) eqn:Ho; unfold str_empty in Ho; bprop; [by left|right].
    simpl in *. by bprop.
  - intros (e & x & e' & x' & He & Hx & (Hne & Hop & Hpe & Hpx) & ->). exists e. rewrite Hpe.
    split; [|done]. apply list_elem_of_bind. exists x. split; [|done].
    rewrite (proj2 (String.eqb_neq _ _)) by done. simpl. rewrite Hpx.
    destruct Hop as [->|[Hop|Hop]]; simpl; [by left| |].
    + rewrite Hop. simpl. rewrite andb_false_r. by left.
    + rewrite (proj2 (String.eqb_neq (n_OperatorID e) _)) by done. rewrite andb_false_r. by left.
Qed.

(** The random source answers with an index in range. *)
Definition fair_random (rnd : nat -> option nat) : Prop :=
  forall n, (1 < n)%nat -> exists i, rnd n = Some i /\ (i < n)%nat.

Lemma randomPick_Ok rnd cs : fair_random rnd -> cs <> [] ->
  exists c, randomPickCandidate rnd cs = Ok c /\ c ∈ cs.
Proof.
  intros Hr Hne. destruct cs as [|c [|d cs]]; [done| |].
  - exists c. split; [done|by left].
  - destruct (Hr (length (c :: d :: cs))) as (i & Hi & Hlt); [simpl; lia|].
    unfold randomPickCandidate. rewrite Hi. apply lookup_lt_is_Some_2 in Hlt as [k Hk]. rewrite Hk.
    exists k. split; [done|]. by eapply list_elem_of_lookup_2.
Qed.

(** Every candidate is some source's pick. *)
Lemma randomPick_any cs c : c ∈ cs -> exists rnd, fair_random rnd /\ randomPickCandidate rnd cs = Ok c.
Proof.
  intros [i Hi]%list_elem_of_lookup. pose proof (lookup_lt_Some _ _ _ Hi) as Hlt.
  exists (fun n => if (i <? n)%nat then Some i else Some 0%nat). split.
  - intros n Hn. destruct (i <? n)%nat eqn:Hb; [apply Nat.ltb_lt in Hb; by exists i|].
    exists 0%nat. split; [done|lia].
  - destruct cs as [|d [|d2 cs]]; [done| |].
    + destruct i as [|i]; [by simplify_eq/=|done].
    + unfold randomPickCandidate. rewrite (proj2 (Nat.ltb_lt _ _)) by done. by rewrite Hi.
Qed.

Section pair_loop_lemmas.
Context (permitted : Transport -> bool) (collect : Transport -> list pairCandidate).

(** The transport the loop settles on: the first permitted one with candidates. *)
Definition settles (preferred : list Transport) (t : Transport) : Prop :=
  exists before after, preferred = before ++ t :: after /\ permitted t = true /\ collect t <> [] /\
    forall t', t' ∈ before -> permitted t' = true -> collect t' = [].

Lemma settles_skip t rest t' :
  permitted t = false \/ collect t = [] -> settles rest t' -> settles (t :: rest) t'.
Proof.
  intros Hno (b & a & -> & Hp & Hc & Hb). exists (t :: b), a. split_and!; try done.
  intros u [->|Hu]%elem_of_cons Hpu; [destruct Hno; [congruence|done]|by apply Hb].
Qed.

Lemma none_skip t rest : permitted t = false \/ collect t = [] ->
  (forall u, u ∈ rest -> permitted u = true -> collect u = []) ->
  forall u, u ∈ t :: rest -> permitted u = true -> collect u = [].
Proof.
  intros Hno Hrest u [->|Hu]%elem_of_cons Hpu; [destruct Hno; [congruence|done]|by apply Hrest].
Qed.

Definition picked (rnd : nat -> option nat) (cs : list pairCandidate) : result select_error NodePair :=
  match randomPickCandidate rnd cs with
  | Err e => Err e
  | Ok c => Ok (mkPair (pc_entry c) (pc_exit c) (pc_transport c))
  end.

Lemma pair_loop_settles preferred :
  (exists t, settles preferred t /\
     forall rnd, pair_loop rnd permitted collect preferred = picked rnd (collect t)) \/
  ((forall rnd, pair_loop rnd permitted collect preferred = Err ErrNoCompatiblePair) /\
   forall t, t ∈ preferred -> permitted t = true -> collect t = []).
Proof.
  induction preferred as [|t rest IH]; simpl.
  { right. split; [done|]. by intros t ?%elem_of_nil. }
  destruct (permitted t) eqn:Hp; simpl.
  - destruct (collect t) as [|c cs] eqn:Hc.
    + destruct IH as [(t' & Hs & Heq)|[Heq Hn]].
      * left. exists t'. split; [by apply settles_skip; [right|]|done].
      * right. split; [done|]. by apply none_skip; [right|].
    + left. exists t. rewrite Hc. split; [|done]. exists [], rest. rewrite Hc. split_and!; try done.
      by intros t' ?%elem_of_nil.
  - destruct IH as [(t' & Hs & Heq)|[Heq Hn]].
    + left. exists t'. split; [by apply settles_skip; [left|]|done].
    + right. split; [done|]. by apply none_skip; [left|].
Qed.
End pair_loop_lemmas.

(** ** Pairing independent nodes *)
Section pairing.
Context (nodes : list NodeInfo) (preferred : list Transport) (allowed : gset Transport)
  (delivery : TokenDeliveryMode).

(** A compatible pair of listed nodes over a transport; [same] admits two nodes
    of one operator. *)
Definition compatible (same : bool) (t : Transport) (e' x' : NodeInfo) : Prop :=
  exists e x, e ∈ nodes /\ is_entry e = true /\ x ∈ nodes /\ is_exit x = true /\
    can_pair same (requires_url delivery) t e x e' x'.

(** The first preferred and allowed transport over which a pair is compatible. *)
Definition first_transport (same : bool) (t : Transport) : Prop :=
  exists before after, preferred = before ++ t :: after /\ t ∈ allowed /\
    forall t', t' ∈ before -> t' ∈ allowed -> forall e x, ~ compatible same t' e x.

Definition candidates_at (same : bool) (t : Transport) : list pairCandidate :=
  collectOperatorCandidates (bfilter is_entry nodes) (bfilter is_exit nodes) t (requires_url delivery) same.

Lemma candidates_spec same t c :
  c ∈ candidates_at same t <-> exists e' x', compatible same t e' x' /\ c = mkCandidate e' x' t.
Proof.
  unfold candidates_at. rewrite collect_spec. split.
  - intros (e & x & e' & x' & [? ?]%elem_of_bfilter & [? ?]%elem_of_bfilter & Hc & ->).
    exists e', x'. split; [by exists e, x|done].
  - intros (e' & x' & (e & x & ? & ? & ? & ? & Hc) & ->). exists e, x, e', x'.
    rewrite !elem_of_bfilter. by split_and!.
Qed.

Lemma no_candidates same t : candidates_at same t = [] <-> forall e x, ~ compatible same t e x.
Proof.
  split.
  - intros Hn e x Hc. assert (mkCandidate e x t ∈ candidates_at same t) as Hin
      by (apply candidates_spec; by exists e, x). rewrite Hn in Hin. by apply elem_of_nil in Hin.
  - intros Hno. destruct (candidates_at same t) as [|c cs] eqn:Hc; [done|]. exfalso.
    assert (c ∈ candidates_at same t) as Hin by (rewrite Hc; by left).
    apply candidates_spec in Hin as (e & x & Hx & _). by eapply Hno.
Qed.

(** One pass, with or without pairs of one operator. *)
Lemma operator_pass same :
  bfilter is_entry nodes <> [] -> bfilter is_exit nodes <> [] ->
  (exists t, first_transport same t /\ candidates_at same t <> [] /\
     forall rnd, pairNodesWithOperatorPolicy rnd nodes preferred allowed (requires_url delivery) same
       = picked rnd (candidates_at same t)) \/
  ((forall rnd, pairNodesWithOperatorPolicy rnd nodes preferred allowed (requires_url delivery) same
     = Err ErrNoCompatiblePair) /\
   forall t, t ∈ preferred -> t ∈ allowed -> forall e x, ~ compatible same t e x).
Proof.
  intros Hen Hex. unfold pairNodesWithOperatorPolicy, pair_nodes, nodesByRole.
  destruct (bfilter is_entry nodes) as [|e0 es] eqn:He; [done|].
  destruct (bfilter is_exit nodes) as [|x0 xs] eqn:Hx; [done|]. rewrite <-He, <-Hx.
  change (fun t => collectOperatorCandidates _ _ t _ same) with (candidates_at same).
  destruct (pair_loop_settles (fun t => bool_decide (t ∈ allowed)) (candidates_at same) preferred)
    as [(t & (b & a & Hp & Ha & Hc & Hb) & Heq)|[Heq Hn]].
  - left. exists t. split_and!; try done. bprop. exists b, a. split_and!; try done.
    intros t' Ht' Ha'. apply no_candidates, Hb; [done|by apply bool_decide_eq_true].
  - right. split; [done|]. intros t Ht Ha. apply no_candidates, Hn; [done|by apply bool_decide_eq_true].
Qed.

(** Drawing from the candidates of a transport. *)
Lemma picked_pair rnd same t : fair_random rnd -> candidates_at same t <> [] ->
  exists p, picked rnd (candidates_at same t) = Ok p /\ np_Transport p = t /\
    compatible same (np_Transport p) (np_Entry p) (np_Exit p) /\
    forall e x, compatible same (np_Transport p) e x -> exists rnd', fair_random rnd' /\
      picked rnd' (candidates_at same t) = Ok (mkPair e x (np_Transport p)).
Proof.
  intros Hr Hne. destruct (randomPick_Ok rnd _ Hr Hne) as (c & Hc & Hin). unfold picked. rewrite Hc.
  apply candidates_spec in Hin as (e & x & Hex & ->). eexists. split_and!; [done..|].
  intros e' x' He. cbn in He.
  destruct (randomPick_any (candidates_at same t) (mkCandidate e' x' t)) as (rnd' & Hr' & Hp').
  { apply candidates_spec. by exists e', x'. }
  exists rnd'. by rewrite Hp'.
Qed.

(** Pairing. Given a working random source, the client gets a pair whenever
    one exists: two distinct listed nodes with the right roles, both reachable
    over the first preferred and allowed transport that has a pair, and of
    different operators unless no such pair exists over any transport. Every
    such pair can be the one drawn. The errors name what is missing. *)
Theorem pairing_outcomes rnd (Hrnd : fair_random rnd) :
  match PairIndependentNodesForDelivery rnd nodes preferred allowed delivery with
  | Ok p => exists same,
      first_transport same (np_Transport p) /\
      compatible same (np_Transport p) (np_Entry p) (np_Exit p) /\
      (same = true -> forall t, t ∈ preferred -> t ∈ allowed -> forall e x, ~ compatible false t e x) /\
      (forall e x, compatible same (np_Transport p) e x -> exists rnd', fair_random rnd' /\
         PairIndependentNodesForDelivery rnd' nodes preferred allowed delivery
           = Ok (mkPair e x (np_Transport p)))
  | Err ErrNoEntryNodes => bfilter is_entry nodes = []
  | Err ErrNoExitNodes => bfilter is_exit nodes = []
  | Err ErrNoCompatiblePair =>
      forall t, t ∈ preferred -> t ∈ allowed -> forall e x, ~ compatible true t e x
  | Err _ => False
  end.
Proof.
  unfold PairIndependentNodesForDelivery.
  destruct (decide (bfilter is_entry nodes = [])) as [Hen|Hen].
  { unfold pairNodesWithOperatorPolicy, pair_nodes, nodesByRole. by rewrite Hen. }
  destruct (decide (bfilter is_exit nodes = [])) as [Hex|Hex].
  { unfold pairNodesWithOperatorPolicy, pair_nodes, nodesByRole. rewrite Hex.
    by destruct (bfilter is_entry nodes). }
  destruct (operator_pass false Hen Hex) as [(t & Hf & Hc & Heq)|[Heq Hn]].
  - destruct (picked_pair rnd false t Hrnd Hc) as (p & Hp & <- & Hcp & Hany).
    rewrite Heq, Hp. exists false. split_and!; try done. intros e x He.
    destruct (Hany e x He) as (rnd' & Hr' & Hp'). exists rnd'. by rewrite Heq, Hp'.
  - rewrite Heq. destruct (operator_pass true Hen Hex) as [(t & Hf & Hc & Heq')|[Heq' Hn']];
      [|by rewrite Heq'].
    destruct (picked_pair rnd true t Hrnd Hc) as (p & Hp & <- & Hcp & Hany).
    rewrite Heq', Hp. exists true. split_and!; try done. intros e x He.
    destruct (Hany e x He) as (rnd' & Hr' & Hp'). exists rnd'. by rewrite Heq, Heq', Hp'.
Qed.
End pairing.

(** Two operators' nodes and a draw: the pair of different operators is taken. *)
Section pairing_example.
Definition ex_node (id op : string) (role : NodeRole) : NodeInfo :=
  mkNode id id "wg" "1.2.3.4:51820" "http://n" [] "" 0 0 0 0 0 role "1" op "".
Definition ex_nodes : list NodeInfo :=
  [ex_node "a" "op1" RoleBoth; ex_node "b" "op1" RoleExit; ex_node "c" "op2" RoleExit].
Definition ex_allowed : gset Transport := {[TransportWireGuard]}.

Lemma pairing_outcomes_witness :
  PairIndependentNodesForDelivery (fun _ => Some 0%nat) ex_nodes [TransportHysteria2; TransportWireGuard]
    ex_allowed TokenDeliveryHTTP
    = Ok (mkPair (ex_node "a" "op1" RoleBoth) (ex_node "c" "op2" RoleExit) TransportWireGuard) /\
  exists same, first_transport ex_nodes [TransportHysteria2; TransportWireGuard] ex_allowed
    TokenDeliveryHTTP same TransportWireGuard.
Proof.
  assert (fair_random (fun _ => Some 0%nat)) as Hr by (intros n Hn; exists 0%nat; split; [done|lia]).
  pose proof (pairing_outcomes ex_nodes [TransportHysteria2; TransportWireGuard] ex_allowed
    TokenDeliveryHTTP _ Hr) as Ho.
  split; [by vm_compute|].
  replace (PairIndependentNodesForDelivery _ _ _ _ _)
    with (Ok (E := select_error) (mkPair (ex_node "a" "op1" RoleBoth) (ex_node "c" "op2" RoleExit) TransportWireGuard))
    in Ho by (by vm_compute).
  destruct Ho as (same & Hf & _). by exists same.
Defined.
End pairing_example.

