(* ===== verification/CashuApi.v ===== *)
(** * CashuApi: the hub's public ecash endpoints
    (src/internal/discovery/cashu_api.go, discovery/api.go checkRateLimit)

    The handlers of /v1/keys, /v1/keysets, /v1/mint, /v1/swap, /v1/checkstate
    and /v1/redeem over the mint of Mint.v and any lawful store. A handler takes
    the decoded body ([None]: it did not decode), what the Lightning client
    answers and whether a worker slot was free, and returns the answer ([None]:
    a panic, the connection is dropped) and the new state. *)
From S2P Require Import Prelude Sql Credentials Payments Ecash EcashStore Mint WorkerPool Peers IPPool Control Connect.

Definition maxCheckStateYs : Z := 100.
Definition maxSwapInputs : Z := 64.
Definition maxSwapOutputs : Z := 64.
Definition maxMintOutputs : Z := 64.
Definition maxQuoteAmount : Z := 1000000.

(** ** The Lightning client's answers *)
Inductive InvoiceStatus := InvoiceOpen | InvoiceSettled | InvoiceExpired.
#[export] Instance InvoiceStatus_eq_dec : EqDecision InvoiceStatus.
Proof. solve_decision. Defined.
Record Invoice := mkInvoice_ {
  inv_PaymentHash : string;
  inv_PaymentRequest : string;
  inv_Status : InvoiceStatus;
  inv_ExpiresAt : Z
}.
(** An error is [true] when it is the circuit breaker's. *)
Record ln_answers := mkLn {
  ln_CreateInvoice : Z -> result bool Invoice;
  ln_LookupInvoice : string -> result bool Invoice
}.

(** ** Requests and answers *)
Record call := mkCallCtx {
  cx_ns : Z;          (* time.Now() *)
  cx_text : string;   (* the same, as stored *)
  cx_ip : string;     (* the client address *)
  cx_slot : bool      (* a worker slot came free before the timeout *)
}.
Record QuoteRequest := mkQuoteReq { qq_Amount : Z; qq_Unit : string }.
Record MintRequest := mkMintReq { mq_Quote : string; mq_Outputs : list BlindedMessage }.
Record SwapRequest := mkSwapReq { wq_Inputs : list Proof_; wq_Outputs : list BlindedMessage }.
Record RedeemProofs := mkRedeemReq { rp_Proofs : list Proof_; rp_NodePubkey : string }.
Record keysetKeys := mkKeysetKeys { kk_ID : string; kk_Unit : string; kk_Keys : gmap Z string; kk_InputFeePpk : Z }.
Record KeysetInfo := mkInfo { in_ID : string; in_Unit : string; in_Active : bool; in_InputFeePpk : Z }.

(** The sliding window of discovery/api.go; [rl_max <= 0] disables it. *)
Record rate_config := mkRate { rl_max : Z; rl_window : Z }.

Section cashu_api.
Context `{Bdhke} {S : Type} `{!MintStore S}.
Context (limits : rate_config) (m : Mint).

Record DiscoveryAPI := mkApi { da_rate : gmap string (list Z); da_store : S }.
Implicit Types (api : DiscoveryAPI) (c : call) (lnc : option ln_answers).

Definition checkRateLimit c (rl : gmap string (list Z)) : bool * gmap string (list Z) :=
  if rl_max limits <=? 0 then (true, rl)
  else
    let fresh := bfilter (fun ts => cx_ns c - rl_window limits <? ts) (default [] (rl !! cx_ip c)) in
    if rl_max limits <=? Z.of_nat (length fresh) then (false, rl)
    else (true, <[cx_ip c := fresh ++ [cx_ns c]]> rl).

(** cashuRateCheck, and the handler's body when it passes. *)
Definition rate_checked {A} c api (body : DiscoveryAPI -> option (reply A) * DiscoveryAPI) :
    option (reply A) * DiscoveryAPI :=
  let '(allowed, rl) := checkRateLimit c (da_rate api) in
  let api1 := mkApi rl (da_store api) in
  if allowed then body api1 else (Some (Fault StatusTooManyRequests "rate limit exceeded"), api1).

(** A handler for one method. *)
Definition for_method {A} (want method : http_method) c api
    (body : DiscoveryAPI -> option (reply A) * DiscoveryAPI) : option (reply A) * DiscoveryAPI :=
  if negb (bool_decide (method = want)) then (Some (Fault StatusMethodNotAllowed "method not allowed"), api)
  else rate_checked c api body.

(** *** Keys *)
Definition PublicKeys : mresult (gmap Z string) :=
  match m_activeKeyset m with Some ks => Ok (keysetPublicKeys ks) | None => Err Panicked end.
Definition handleKeys (method : http_method) c api : option (reply (list keysetKeys)) * DiscoveryAPI :=
  for_method GET method c api (fun api =>
    match PublicKeys, ActiveKeysetID m with
    | Ok pks, Ok id => (Some (Reply StatusOK [mkKeysetKeys id "sat" pks 0]), api)
    | _, _ => (None, api)
    end).

(** [range] lists the map in the order Go happens to iterate it. *)
Definition KeysetInfos (range : gmap string MintKeyset -> list (string * MintKeyset)) : list KeysetInfo :=
  (fun e => mkInfo (mk_Id e.2) (mk_Unit e.2) (mk_Active e.2) (mk_InputFeePpk e.2)) <$> range (m_keysets m).
Definition handleKeysets range (method : http_method) c api : option (reply (list KeysetInfo)) * DiscoveryAPI :=
  for_method GET method c api (fun api => (Some (Reply StatusOK (KeysetInfos range)), api)).

(** *** Quotes *)
Definition quote_request_ok (body : option QuoteRequest) : result string Z :=
  match body with
  | None => Err "invalid request body"%string
  | Some req =>
      if qq_Amount req =? 0 then Err "amount must be > 0"%string
      else if maxQuoteAmount <? qq_Amount req then Err "amount exceeds maximum (1M sats)"%string
      else if negb (str_empty (qq_Unit req)) && negb (String.eqb (qq_Unit req) "sat")
        then Err "only 'sat' unit supported"%string
      else Ok (qq_Amount req)
  end.

(** [newID]: what GenerateQuoteID returns. *)
Definition handleCreateMintQuote lnc (newID : option string) (body : option QuoteRequest) c api :
    option (reply MintQuote) * DiscoveryAPI :=
  rate_checked c api (fun api =>
    match quote_request_ok body with
    | Err msg => (Some (Fault StatusBadRequest msg), api)
    | Ok amount =>
        match lnc with
        | None => (Some (Fault StatusServiceUnavailable "lightning not configured"), api)
        | Some ln =>
            match ln_CreateInvoice ln amount with
            | Err true => (Some (Fault StatusServiceUnavailable
                            "lightning temporarily unavailable — try again shortly"), api)
            | Err false => (Some (Fault StatusInternalServerError "failed to create invoice"), api)
            | Ok invoice =>
                match newID with
                | None => (Some (Fault StatusInternalServerError "failed to generate quote ID"), api)
                | Some quoteID =>
                    let quote := mkQuote quoteID amount (inv_PaymentRequest invoice)
                                   (inv_PaymentHash invoice) QuoteUnpaid (inv_ExpiresAt invoice) (cx_text c) in
                    match SaveMintQuote quote (da_store api) with
                    | (Err _, s) => (Some (Fault StatusInternalServerError "failed to save quote"),
                                     mkApi (da_rate api) s)
                    | (Ok _, s) => (Some (Reply StatusCreated quote), mkApi (da_rate api) s)
                    end
                end
            end
        end
    end).

(** The Lightning lookup of an unpaid quote: whether its invoice is settled. *)
Definition lookup_settled lnc (quote : MintQuote) : bool :=
  match lnc with
  | None => false
  | Some ln =>
      bool_decide (q_State quote = QuoteUnpaid) &&
      match ln_LookupInvoice ln (q_PaymentHash quote) with
      | Ok inv => bool_decide (inv_Status inv = InvoiceSettled)
      | Err _ => false
      end
  end.
Definition mark_paid (quoteID : string) (s : S) : S := (UpdateMintQuoteState quoteID QuotePaid s).2.

Definition handleGetMintQuote lnc (path : string) c api : option (reply MintQuote) * DiscoveryAPI :=
  rate_checked c api (fun api =>
    let quoteID := trim_prefix "/v1/mint/quote/bolt11/" path in
    if str_empty quoteID || String.eqb quoteID path
    then (Some (Fault StatusBadRequest "quote ID required"), api)
    else if 64 <? slen quoteID then (Some (Fault StatusBadRequest "invalid quote ID"), api)
    else match GetMintQuote quoteID (da_store api) with
    | Err _ => (Some (Fault StatusNotFound "quote not found"), api)
    | Ok quote =>
        if lookup_settled lnc quote
        then (Some (Reply StatusOK (quote_with quote QuotePaid)),
              mkApi (da_rate api) (mark_paid quoteID (da_store api)))
        else (Some (Reply StatusOK quote), api)
    end).

Definition handleMintQuote lnc newID (body : option QuoteRequest) (path : string) (method : http_method)
    c api : option (reply MintQuote) * DiscoveryAPI :=
  match method with
  | POST => handleCreateMintQuote lnc newID body c api
  | GET => handleGetMintQuote lnc path c api
  | _ => (Some (Fault StatusMethodNotAllowed "method not allowed"), api)
  end.

(** *** Minting. The switch compares errors with [==], so a wrapped one is 500. *)
Definition mint_fault {A} (e : mint_error) : option (reply A) :=
  match e with
  | Panicked => None
  | ErrQuoteNotFound => Some (Fault StatusNotFound "mint quote not found")
  | ErrQuoteNotPaid => Some (Fault StatusPaymentRequired "mint quote not yet paid")
  | ErrQuoteAlreadyUsed => Some (Fault StatusConflict "mint quote already issued")
  | ErrOutputOverQuote => Some (Fault StatusBadRequest "output amount exceeds quote")
  | _ => Some (Fault StatusInternalServerError "mint error")
  end.

Definition mint_request_ok (body : option MintRequest) : result string MintRequest :=
  match body with
  | None => Err "invalid request body"%string
  | Some req =>
      if str_empty (mq_Quote req) then Err "quote ID required"%string
      else match mq_Outputs req with
      | [] => Err "outputs required"%string
      | outs => if maxMintOutputs <? Z.of_nat (length outs) then Err "too many outputs (max 64)"%string
                else Ok req
      end
  end.

Definition handleMintTokens lnc (body : option MintRequest) (method : http_method) c api :
    option (reply (list BlindedSignature)) * DiscoveryAPI :=
  for_method POST method c api (fun api =>
    match mint_request_ok body with
    | Err msg => (Some (Fault StatusBadRequest msg), api)
    | Ok req =>
        match GetMintQuote (mq_Quote req) (da_store api) with
        | Err _ => (Some (Fault StatusNotFound "quote not found"), api)
        | Ok quote =>
            let s1 := if lookup_settled lnc quote then mark_paid (mq_Quote req) (da_store api)
                      else da_store api in
            match Pool_MintTokens (cx_slot c) m (mq_Quote req) (mq_Outputs req) s1 with
            | (Err e, s2) => (mint_fault e, mkApi (da_rate api) s2)
            | (Ok sigs, s2) => (Some (Reply StatusOK sigs), mkApi (da_rate api) s2)
            end
        end
    end).

(** *** Swapping *)
Definition swap_fault {A} (e : mint_error) : option (reply A) :=
  if errors_is e Panicked then None
  else if errors_is e ErrInvalidProof then Some (Fault StatusBadRequest "invalid proof")
  else if errors_is e ErrProofAlreadySpent then Some (Fault StatusConflict "proof already spent")
  else if errors_is e ErrDuplicateProofs then Some (Fault StatusBadRequest "duplicate proofs in request")
  else if errors_is e ErrAmountMismatch then Some (Fault StatusBadRequest "input/output amount mismatch")
  else Some (Fault StatusInternalServerError "swap error").

Definition swap_request_ok (body : option SwapRequest) : result string SwapRequest :=
  match body with
  | None => Err "invalid request body"%string
  | Some req =>
      match wq_Inputs req, wq_Outputs req with
      | [], _ => Err "inputs required"%string
      | _, [] => Err "outputs required"%string
      | ins, outs =>
          if maxSwapInputs <? Z.of_nat (length ins) then Err "too many inputs (max 64)"%string
          else if maxSwapOutputs <? Z.of_nat (length outs) then Err "too many outputs (max 64)"%string
          else Ok req
      end
  end.

Definition handleSwap (body : option SwapRequest) (method : http_method) c api :
    option (reply (list BlindedSignature)) * DiscoveryAPI :=
  for_method POST method c api (fun api =>
    match swap_request_ok body with
    | Err msg => (Some (Fault StatusBadRequest msg), api)
    | Ok req =>
        match Pool_Swap (cx_slot c) m (cx_text c) (wq_Inputs req) (wq_Outputs req) (da_store api) with
        | (Err e, s) => (swap_fault e, mkApi (da_rate api) s)
        | (Ok sigs, s) => (Some (Reply StatusOK sigs), mkApi (da_rate api) s)
        end
    end).

(** *** Checking states *)
Definition handleCheckState (body : option (list string)) (method : http_method) c api :
    option (reply (list (string * ProofStateEnum))) * DiscoveryAPI :=
  for_method POST method c api (fun api =>
    match body with
    | None => (Some (Fault StatusBadRequest "invalid request body"), api)
    | Some [] => (Some (Fault StatusBadRequest "Ys required"), api)
    | Some Ys =>
        if maxCheckStateYs <? Z.of_nat (length Ys)
        then (Some (Fault StatusBadRequest "too many Ys (max 100)"), api)
        else match CheckProofsState (da_store api) Ys with
        | Err _ => (Some (Fault StatusInternalServerError "check state error"), api)
        | Ok states => (Some (Reply StatusOK states), api)
        end
    end).

(** *** Redeeming *)
Definition redeem_fault {A} (e : mint_error) : option (reply A) :=
  if errors_is e Panicked then None
  else if errors_is e ErrInvalidProof then Some (Fault StatusBadRequest "invalid proof")
  else if errors_is e ErrProofAlreadySpent then Some (Fault StatusConflict "proof already spent")
  else if errors_is e ErrDuplicateProofs then Some (Fault StatusBadRequest "duplicate proofs")
  else if errors_is e ErrUnknownKeyset then Some (Fault StatusBadRequest "unknown keyset")
  else Some (Fault StatusInternalServerError "verification failed").

Definition redeem_request_ok (body : option RedeemProofs) : result string RedeemProofs :=
  match body with
  | None => Err "invalid request body"%string
  | Some req =>
      match rp_Proofs req with
      | [] => Err "proofs required"%string
      | ps => if maxSwapInputs <? Z.of_nat (length ps) then Err "too many proofs (max 64)"%string
              else if str_empty (rp_NodePubkey req) then Err "node_pubkey required"%string
              else Ok req
      end
  end.

(** 1 sat buys 1 MB; the sum is uint64, the product int64. *)
Definition bytes_for (proofs : list Proof_) : Z := wrap_i64 (usum_by p_Amount proofs) *i 1000000.

Definition handleRedeem (body : option RedeemProofs) (method : http_method) c api :
    option (reply redeemResponse) * DiscoveryAPI :=
  for_method POST method c api (fun api =>
    match redeem_request_ok body with
    | Err msg => (Some (Fault StatusBadRequest msg), api)
    | Ok req =>
        match Pool_VerifyAndMarkSpent (cx_slot c) m (cx_text c) (rp_Proofs req) (da_store api) with
        | (Err e, s) => (redeem_fault e, mkApi (da_rate api) s)
        | (Ok _, s) =>
            (Some (Reply StatusOK (mkRedeemResponse true (bytes_for (rp_Proofs req))
                     (usum_by p_Amount (rp_Proofs req)))), mkApi (da_rate api) s)
        end
    end).
End cashu_api.

(** ** Sequences of requests *)
Section traces.
Context `{Bdhke} {S : Type} `{MintStoreLaws S}.
Context (limits : rate_config) (m : Mint).

(** The payment hashes of invoices that have been paid. A Lightning client that
    reports an invoice settled is right about it. *)
Context (settled : string -> Prop).
Definition honest (lnc : option ln_answers) : Prop :=
  forall ln h inv, lnc = Some ln -> ln_LookupInvoice ln h = Ok inv -> inv_Status inv = InvoiceSettled -> settled h.

(** What the hub gives away: signatures against a quote, or value for proofs. *)
Inductive api_event := Issued (id : string) (sigs : list BlindedSignature) | Burned (proofs : list Proof_).

Definition issued_by (body : option MintRequest) (r : option (reply (list BlindedSignature))) : list api_event :=
  match body, r with
  | Some req, Some (Reply _ sigs) => [Issued (mq_Quote req) sigs]
  | _, _ => []
  end.
Definition swapped_by (body : option SwapRequest) (r : option (reply (list BlindedSignature))) : list api_event :=
  match body, r with Some req, Some (Reply _ _) => [Burned (wq_Inputs req)] | _, _ => [] end.
Definition redeemed_by (body : option RedeemProofs) (r : option (reply redeemResponse)) : list api_event :=
  match body, r with Some req, Some (Reply _ _) => [Burned (rp_Proofs req)] | _, _ => [] end.

(** One request, handled to its end. *)
Inductive api_step : DiscoveryAPI -> list api_event -> DiscoveryAPI -> Prop :=
| as_quote lnc newID body path meth c api r api' :
    honest lnc -> handleMintQuote limits lnc newID body path meth c api = (r, api') -> api_step api [] api'
| as_mint lnc body meth c api r api' :
    honest lnc -> handleMintTokens limits m lnc body meth c api = (r, api') ->
    api_step api (issued_by body r) api'
| as_swap body meth c api r api' :
    handleSwap limits m body meth c api = (r, api') -> api_step api (swapped_by body r) api'
| as_redeem body meth c api r api' :
    handleRedeem limits m body meth c api = (r, api') -> api_step api (redeemed_by body r) api'
| as_check body meth c api r api' :
    handleCheckState limits body meth c api = (r, api') -> api_step api [] api'
| as_keys meth c api r api' : handleKeys limits m meth c api = (r, api') -> api_step api [] api'
| as_keysets range meth c api r api' :
    handleKeysets limits m range meth c api = (r, api') -> api_step api [] api'.

Inductive api_run (api : DiscoveryAPI) : list api_event -> DiscoveryAPI -> Prop :=
| ar_nil : api_run api [] api
| ar_snoc log api1 ev api2 : api_run api log api1 -> api_step api1 ev api2 -> api_run api (log ++ ev) api2.

Definition issues (log : list api_event) : list (string * list BlindedSignature) :=
  log ≫= fun e => match e with Issued id n => [(id, n)] | Burned _ => [] end.
Definition burns (log : list api_event) : list Proof_ :=
  log ≫= fun e => match e with Issued _ _ => [] | Burned ps => ps end.

(** ** The invariant, on the store *)
Definition funded (s : S) : Prop :=
  forall id q, quotes s !! id = Some q -> q_State q = QuotePaid \/ q_State q = QuoteIssued -> settled (q_PaymentHash q).
Record ledger_ok (s : S) (iss : list (string * list BlindedSignature)) (brn : list Proof_) : Prop := {
  lo_store : store_ok s;
  lo_funded : funded s;
  lo_once : NoDup iss.*1;
  lo_issued : forall id n, (id, n) ∈ iss ->
    exists q, quotes s !! id = Some q /\ q_State q = QuoteIssued /\ usum_by bs_Amount n <= q_Amount q;
  lo_burned : exists Ys, proof_Y <$> brn = Some <$> Ys /\ NoDup Ys /\ list_to_set Ys ⊆ spent_set s
}.

Lemma ledger_same s s' iss brn :
  store_ok s' -> quotes s' = quotes s -> spent_set s ⊆ spent_set s' ->
  ledger_ok s iss brn -> ledger_ok s' iss brn.
Proof.
  intros Hok Hq Hs [? Hf ? Hi (Ys & ? & ? & ?)]. split; try done.
  - unfold funded. by rewrite Hq.
  - by rewrite Hq.
  - exists Ys. split_and!; [done|done|set_solver].
Qed.

(** A quote whose entry changes state, to one that is funded if it must be. *)
Lemma ledger_quote s s' id q st iss brn :
  store_ok s' -> spent_set s' = spent_set s -> quotes s !! id = Some q ->
  quotes s' = <[id := quote_with q st]> (quotes s) ->
  (st = QuotePaid \/ st = QuoteIssued -> settled (q_PaymentHash q)) ->
  (st = QuoteIssued \/ q_State q <> QuoteIssued) ->
  ledger_ok s iss brn -> ledger_ok s' iss brn.
Proof.
  intros Hok Hs Hq Hq' Hset Hst [? Hf ? Hi (Ys & ? & ? & ?)]. split; try done.
  - intros i q1. rewrite Hq', lookup_insert_Some. intros [[<- <-]|[_ Hl]]; simpl; [done|by eapply Hf].
  - intros i n Hin. destruct (Hi i n Hin) as (q1 & Hl & Hst1 & Hn). rewrite Hq'.
    destruct (decide (i = id)) as [->|Hne]; [|exists q1; by rewrite lookup_insert_ne].
    rewrite Hq in Hl. simplify_eq. destruct Hst as [->|]; [|done].
    exists (quote_with q1 QuoteIssued). by rewrite lookup_insert_eq.
  - exists Ys. split_and!; [done|done|]. by rewrite Hs.
Qed.

Lemma ledger_burn s s' ps Ys iss brn :
  store_ok s' -> quotes s' = quotes s -> proof_Y <$> ps = Some <$> Ys -> NoDup Ys ->
  (forall y, y ∈ Ys -> y ∉ spent_set s) -> spent_set s' = spent_set s ∪ list_to_set Ys ->
  ledger_ok s iss brn -> ledger_ok s' iss (brn ++ ps).
Proof.
  intros Hok Hq Hps Hnd Hnew Hs [? Hf ? Hi (Ys0 & HY & Hnd0 & Hsub)]. split; try done.
  - unfold funded. by rewrite Hq.
  - by rewrite Hq.
  - exists (Ys0 ++ Ys). rewrite !fmap_app, HY, Hps. split_and!; [done| |].
    + apply NoDup_app. split_and!; [done| |done]. intros y Hy Hy'. apply (Hnew y Hy'). set_solver.
    + rewrite Hs, list_to_set_app_L. set_solver.
Qed.

Lemma mark_paid_ok s lnc id q iss brn : honest lnc -> GetMintQuote id s = Ok q ->
  ledger_ok s iss brn -> lookup_settled lnc q = true -> ledger_ok (mark_paid id s) iss brn.
Proof.
  intros Hh Hq Hok Hl. apply law_GetMintQuote in Hq; [|apply Hok]. unfold mark_paid.
  unfold lookup_settled in Hl. destruct lnc as [ln|]; [|done]. bprop.
  destruct (ln_LookupInvoice ln (q_PaymentHash q)) as [inv|] eqn:Hinv; [|done]. bprop.
  destruct (UpdateMintQuoteState id QuotePaid s) as [r s'] eqn:Hu. simpl.
  apply law_Update in Hu as (Hok' & Hs & Hr); [|apply Hok]. destruct r as [[]|e].
  - destruct Hr as (q' & Hq' & Hq''). rewrite Hq in Hq'. simplify_eq.
    eapply ledger_quote; try done; [by intros _; eapply Hh|right; congruence].
  - eapply ledger_same; try done. by rewrite Hs.
Qed.

(** Wrappers around a handler's body. *)
Lemma rate_checked_inv {A} (c : call) api (body : DiscoveryAPI -> option (reply A) * DiscoveryAPI) r api'
    (P : option (reply A) -> S -> Prop) :
  rate_checked limits c api body = (r, api') ->
  (forall code msg, P (Some (Fault code msg)) (da_store api)) ->
  (forall rl r1 api1, body (mkApi rl (da_store api)) = (r1, api1) -> P r1 (da_store api1)) ->
  P r (da_store api').
Proof.
  unfold rate_checked. intros Hrun Hf Hb. destruct (checkRateLimit _ _ _) as [[] rl].
  - by eapply Hb.
  - simplify_eq. apply Hf.
Qed.
Lemma for_method_inv {A} want meth (c : call) api (body : DiscoveryAPI -> option (reply A) * DiscoveryAPI) r api'
    (P : option (reply A) -> S -> Prop) :
  for_method limits want meth c api body = (r, api') ->
  (forall code msg, P (Some (Fault code msg)) (da_store api)) ->
  (forall rl r1 api1, body (mkApi rl (da_store api)) = (r1, api1) -> P r1 (da_store api1)) ->
  P r (da_store api').
Proof.
  unfold for_method. intros Hrun Hf Hb. destruct (negb _); [simplify_eq; apply Hf|].
  by eapply rate_checked_inv.
Qed.

Lemma quote_step lnc newID body path meth c api r api' iss brn :
  honest lnc -> handleMintQuote limits lnc newID body path meth c api = (r, api') ->
  ledger_ok (da_store api) iss brn -> ledger_ok (da_store api') iss brn.
Proof.
  intros Hh Hrun Hok. unfold handleMintQuote in Hrun. destruct meth; try by simplify_eq.
  - (* GET *) eapply (rate_checked_inv _ _ _ _ _ (fun _ s => ledger_ok s iss brn)); [exact Hrun|done|].
    intros rl r1 api1 Hb. simpl in Hb. destruct (str_empty _ || _); [by simplify_eq|].
    destruct (64 <? _); [by simplify_eq|]. destruct (GetMintQuote _ _) as [q|] eqn:Hq; [|by simplify_eq].
    destruct (lookup_settled lnc q) eqn:Hl; simplify_eq; [|done]. by eapply mark_paid_ok.
  - (* POST *) eapply (rate_checked_inv _ _ _ _ _ (fun _ s => ledger_ok s iss brn)); [exact Hrun|done|].
    intros rl r1 api1 Hb. simpl in Hb. destruct (quote_request_ok body) as [amount|]; [|by simplify_eq].
    destruct lnc as [ln|]; [|by simplify_eq].
    destruct (ln_CreateInvoice ln amount) as [inv|[]]; [|by simplify_eq..].
    destruct newID as [id|]; [|by simplify_eq].
    destruct (SaveMintQuote _ _) as [r2 s2] eqn:Hs. apply law_SaveMintQuote in Hs as (Hok' & Hsp & Hr2);
      [|apply Hok]. assert (ledger_ok s2 iss brn) as Hok2; [|by destruct r2; simplify_eq].
    destruct r2 as [[]|e]; [|by eapply ledger_same; try done; rewrite Hsp]. simpl in Hr2.
    destruct Hr2 as [Hnone Hq], Hok as [? Hf ? Hi (Ys & ? & ? & ?)]. split; try done.
    + intros i q. rewrite Hq, lookup_insert_Some. intros [[<- <-]|[_ Hl]]; [by intros []|by eapply Hf].
    + intros i n Hin. destruct (Hi i n Hin) as (q & Hl & Hst). rewrite Hq.
      rewrite lookup_insert_ne by congruence. by exists q.
    + exists Ys. by rewrite Hsp.
Qed.

(** An answer that gives nothing away. *)
Definition refused {A} (r : option (reply A)) : bool := match r with Some (Reply _ _) => false | _ => true end.
Lemma mint_fault_refused {A} e : refused (@mint_fault A e) = true.
Proof. by destruct e. Qed.
Lemma swap_fault_refused {A} e : refused (@swap_fault A e) = true.
Proof. unfold swap_fault. by repeat case_match. Qed.
Lemma redeem_fault_refused {A} e : refused (@redeem_fault A e) = true.
Proof. unfold redeem_fault. by repeat case_match. Qed.
Hint Resolve mint_fault_refused swap_fault_refused redeem_fault_refused : arfl.

Lemma issue_none body r s iss brn :
  refused r = true -> ledger_ok s iss brn -> ledger_ok s (iss ++ issues (issued_by body r)) brn.
Proof. intros Hr Hs. destruct body, r as [[]|]; try done; by rewrite app_nil_r. Qed.
Lemma swap_none body r s iss brn :
  refused r = true -> ledger_ok s iss brn -> ledger_ok s iss (brn ++ burns (swapped_by body r)).
Proof. intros Hr Hs. destruct body, r as [[]|]; try done; by rewrite app_nil_r. Qed.
Lemma redeem_none body r s iss brn :
  refused r = true -> ledger_ok s iss brn -> ledger_ok s iss (brn ++ burns (redeemed_by body r)).
Proof. intros Hr Hs. destruct body, r as [[]|]; try done; by rewrite app_nil_r. Qed.
Hint Resolve issue_none swap_none redeem_none : arfl.

Lemma mint_step lnc body meth c api r api' iss brn :
  honest lnc -> handleMintTokens limits m lnc body meth c api = (r, api') ->
  ledger_ok (da_store api) iss brn ->
  ledger_ok (da_store api') (iss ++ issues (issued_by body r)) brn.
Proof.
  intros Hh Hrun Hok. eapply (for_method_inv _ _ _ _ _ _ _
    (fun r s => ledger_ok s (iss ++ issues (issued_by body r)) brn)); [exact Hrun|auto with arfl|].
  intros rl r1 api1 Hb. simpl in Hb.
  destruct (mint_request_ok body) as [req|] eqn:Hreq; [|simplify_eq; auto with arfl].
  assert (body = Some req) as -> by (unfold mint_request_ok in Hreq; crush).
  destruct (GetMintQuote _ _) as [q0|] eqn:Hq0; [|simplify_eq; by apply issue_none].
  set (s1 := if lookup_settled lnc q0 then _ else _) in Hb.
  assert (ledger_ok s1 iss brn) as Hok1.
  { unfold s1. destruct (lookup_settled lnc q0) eqn:Hl; [|done]. by eapply mark_paid_ok. }
  unfold Pool_MintTokens, pooled in Hb. destruct (cx_slot c); [|simplify_eq; by apply issue_none].
  destruct (MintTokens m _ _ s1) as [res s2] eqn:Hmt.
  apply MintTokens_spec in Hmt as (Hok2 & Hsp & Hr); [|apply Hok1]. destruct res as [sigs|e].
  - destruct Hr as (q & Hq & Hst & Hle & Ham & Hq2). simplify_eq. simpl.
    rewrite law_OutputsAmount, <-(usum_by_same _ _ _ _ Ham) in Hle.
    pose proof (lo_funded _ _ _ Hok1 _ _ Hq (or_introl Hst)) as Hpaid.
    assert (mq_Quote req ∉ iss.*1) as Hnew.
    { intros ([i n] & Hid & Hin)%list_elem_of_fmap. simpl in Hid. subst i.
      destruct (lo_issued _ _ _ Hok1 _ _ Hin) as (q' & Hq' & Hst' & _). congruence. }
    assert (ledger_ok s2 iss brn) as [? ? ? Hi ?]
      by (eapply ledger_quote; try done; by left). split; try done.
    + rewrite fmap_app. apply NoDup_app. split_and!; [done| |apply NoDup_singleton].
      by intros x Hx ->%list_elem_of_singleton.
    + intros i n [Hin|Hin]%elem_of_app; [by apply Hi|]. apply list_elem_of_singleton in Hin. simplify_eq.
      exists (quote_with q QuoteIssued). rewrite Hq2, lookup_insert_eq. by split_and!.
  - assert (ledger_ok s2 iss brn) as Hok3.
    { destruct Hr as [Hr|(rerr & q & _ & Hq & Hst & Hq2)]; [eapply ledger_same; try done; by rewrite Hsp|].
      eapply ledger_quote; try done; [|by left]. intros _.
      by apply (lo_funded _ _ _ Hok1 _ _ Hq); left. }
    simplify_eq. auto with arfl.
Qed.

(** A request that either changes nothing relevant or burns the proofs it reports. *)
Lemma VerifyAndMarkSpent_ledger now ps s res s' iss brn :
  VerifyAndMarkSpent m now ps s = (res, s') -> ledger_ok s iss brn ->
  ledger_ok s' iss (brn ++ if is_ok res then ps else []).
Proof.
  intros Hv Hok. apply VerifyAndMarkSpent_spec in Hv as (Hok' & Hq & Hr); [|apply Hok].
  destruct res as [sps|e]; simpl.
  - destruct Hr as (Hf & Hnd & Hnew & Hs). apply verified_all_Y in Hf.
    eapply ledger_burn; try done. intros y (sp & -> & Hsp)%list_elem_of_fmap. auto.
  - rewrite app_nil_r. eapply ledger_same; try done. by rewrite Hr.
Qed.

Lemma ledger_forget s iss brn ps : ledger_ok s iss (brn ++ ps) -> ledger_ok s iss brn.
Proof.
  intros [? ? ? ? (Ys & HY & Hnd & Hs)]. split; try done.
  rewrite fmap_app in HY. symmetry in HY. apply fmap_app_inv in HY as (Y1 & Y2 & Hy1 & Hy2 & ->).
  apply NoDup_app in Hnd as (? & _ & _). exists Y1. split_and!; [done|done|].
  rewrite list_to_set_app_L in Hs. set_solver.
Qed.

Lemma swap_step body meth c api r api' iss brn :
  handleSwap limits m body meth c api = (r, api') -> ledger_ok (da_store api) iss brn ->
  ledger_ok (da_store api') iss (brn ++ burns (swapped_by body r)).
Proof.
  intros Hrun Hok. eapply (for_method_inv _ _ _ _ _ _ _
    (fun r s => ledger_ok s iss (brn ++ burns (swapped_by body r)))); [exact Hrun|auto with arfl|].
  intros rl r1 api1 Hb. simpl in Hb.
  destruct (swap_request_ok body) as [req|] eqn:Hreq; [|simplify_eq; auto with arfl].
  assert (body = Some req) as -> by (unfold swap_request_ok in Hreq; crush).
  unfold Pool_Swap, pooled in Hb. destruct (cx_slot c); [|simplify_eq; auto with arfl].
  unfold Swap in Hb. destruct (negb _); [simplify_eq; auto with arfl|].
  destruct (VerifyAndMarkSpent _ _ _ _) as [res s1] eqn:Hv.
  apply (VerifyAndMarkSpent_ledger _ _ _ _ _ iss brn) in Hv; [|done].
  destruct res as [sps|e]; simpl in Hv; [|rewrite app_nil_r in Hv; simplify_eq; auto with arfl].
  destruct (SignBlindedMessages m _) as [sigs|e]; simplify_eq.
  - simpl. unfold burns. simpl. by rewrite app_nil_r.
  - apply ledger_forget in Hv. auto with arfl.
Qed.

Lemma redeem_step body meth c api r api' iss brn :
  handleRedeem limits m body meth c api = (r, api') -> ledger_ok (da_store api) iss brn ->
  ledger_ok (da_store api') iss (brn ++ burns (redeemed_by body r)).
Proof.
  intros Hrun Hok. eapply (for_method_inv _ _ _ _ _ _ _
    (fun r s => ledger_ok s iss (brn ++ burns (redeemed_by body r)))); [exact Hrun|auto with arfl|].
  intros rl r1 api1 Hb. simpl in Hb.
  destruct (redeem_request_ok body) as [req|] eqn:Hreq; [|simplify_eq; auto with arfl].
  assert (body = Some req) as -> by (unfold redeem_request_ok in Hreq; crush).
  unfold Pool_VerifyAndMarkSpent, pooled in Hb. destruct (cx_slot c); [|simplify_eq; auto with arfl].
  destruct (VerifyAndMarkSpent _ _ _ _) as [res s1] eqn:Hv.
  apply (VerifyAndMarkSpent_ledger _ _ _ _ _ iss brn) in Hv; [|done].
  destruct res as [sps|e]; simpl in Hv; [|rewrite app_nil_r in Hv; simplify_eq; auto with arfl].
  simplify_eq. simpl. unfold burns. simpl. by rewrite app_nil_r.
Qed.

Lemma issues_app l1 l2 : issues (l1 ++ l2) = issues l1 ++ issues l2.
Proof. apply bind_app. Qed.
Lemma burns_app l1 l2 : burns (l1 ++ l2) = burns l1 ++ burns l2.
Proof. apply bind_app. Qed.

Lemma step_inv api ev api' iss brn :
  api_step api ev api' -> ledger_ok (da_store api) iss brn ->
  ledger_ok (da_store api') (iss ++ issues ev) (brn ++ burns ev).
Proof.
  assert (forall s, ledger_ok s iss brn -> ledger_ok s (iss ++ []) (brn ++ [])) as Hnil
    by (intros s; by rewrite !app_nil_r).
  intros Hstep Hok.
  destruct Hstep as [lnc newID body path meth c api r api' Hh Hrun|lnc body meth c api r api' Hh Hrun
    |body meth c api r api' Hrun|body meth c api r api' Hrun|body meth c api r api' Hrun
    |meth c api r api' Hrun|range meth c api r api' Hrun].
  - apply Hnil. by eapply quote_step.
  - eapply mint_step in Hrun; [|done..].
    assert (burns (issued_by body r) = []) as -> by (by destruct body, r as [[]|]). by rewrite app_nil_r.
  - eapply swap_step in Hrun; [|done..].
    assert (issues (swapped_by body r) = []) as -> by (by destruct body, r as [[]|]). by rewrite app_nil_r.
  - eapply redeem_step in Hrun; [|done..].
    assert (issues (redeemed_by body r) = []) as -> by (by destruct body, r as [[]|]). by rewrite app_nil_r.
  - apply Hnil. eapply (for_method_inv _ _ _ _ _ _ _ (fun _ s => ledger_ok s iss brn)); [exact Hrun|done|].
    intros rl r1 api1 Hb. simpl in Hb. by repeat (case_match; simplify_eq).
  - apply Hnil. eapply (for_method_inv _ _ _ _ _ _ _ (fun _ s => ledger_ok s iss brn)); [exact Hrun|done|].
    intros rl r1 api1 Hb. simpl in Hb. by repeat (case_match; simplify_eq).
  - apply Hnil. eapply (for_method_inv _ _ _ _ _ _ _ (fun _ s => ledger_ok s iss brn)); [exact Hrun|done|].
    intros rl r1 api1 Hb. by simplify_eq/=.
Qed.

Lemma run_inv api log api' iss brn : api_run api log api' ->
  ledger_ok (da_store api) iss brn -> ledger_ok (da_store api') (iss ++ issues log) (brn ++ burns log).
Proof.
  intros Hrun Hok. induction Hrun as [|log api1 ev api2 Hrun IH Hstep]; [by rewrite !app_nil_r|].
  rewrite issues_app, burns_app, !app_assoc. by eapply step_inv.
Qed.

Lemma ledger_start s : store_ok s -> funded s -> ledger_ok s [] [].
Proof.
  intros Hok Hf. split; try done; [constructor|by intros id n ?%elem_of_nil|].
  exists []. split_and!; [done|constructor|set_solver].
Qed.

Lemma ledger_with s p y : store_ok s -> funded s -> proof_Y p = Some y -> y ∈ spent_set s -> ledger_ok s [] [p].
Proof.
  intros Hok Hf Hy Hin. destruct (ledger_start s Hok Hf). split; try done.
  exists [y]. simpl. rewrite Hy. split_and!; [done|apply NoDup_singleton|set_solver].
Qed.

(** C21: funded issuance. However the requests to the ecash endpoints follow one
    another, every quote against which signatures were returned had its invoice
    paid and no quote was used twice. The signatures returned are worth at most
    what the quote's invoice asked for as the mint adds them up, in a uint64 that
    wraps around: so their true worth is at most that too whenever it fits 64
    bits (and only then, see [wrapped_outputs_issued]). *)
Theorem ecash_funded api log api'
    (Hstore : store_ok (da_store api)) (Hfunded : funded (da_store api)) (Hrun : api_run api log api') :
  NoDup (issues log).*1 /\
  forall id sigs, (id, sigs) ∈ issues log ->
    exists q, quotes (da_store api') !! id = Some q /\ settled (q_PaymentHash q) /\
      q_State q = QuoteIssued /\ wrap_u64 (zsum_by bs_Amount sigs) <= q_Amount q /\
      (in_u64 (zsum_by bs_Amount sigs) -> zsum_by bs_Amount sigs <= q_Amount q).
Proof.
  destruct (run_inv _ _ _ [] [] Hrun) as [? Hf Hnd Hi ?]; [by apply ledger_start|]. split; [done|].
  intros id n Hin. destruct (Hi _ _ Hin) as (q & Hq & Hst & Hn). exists q.
  rewrite usum_by_wrap in Hn. split_and!; [done|by eapply Hf; eauto|done|done|].
  intros Hin64. rewrite wrap_u64_id in Hn by done. exact Hn.
Qed.
End traces.

(** ** The hub behind the nodes' /connect/cashu *)

(** What a node's redeemer gets from /v1/redeem. *)
Definition hub_redeem `{Bdhke} {S} `{!MintStore S} (limits : rate_config) (m : Mint) (node : string) (c : call)
    (api : DiscoveryAPI) (proofs : list Proof_) : hub_answer redeemResponse :=
  match (handleRedeem limits m (Some (mkRedeemReq proofs node)) POST c api).1 with
  | None => NoAnswer
  | Some (Reply code b) => Answer code (Some b)
  | Some (Fault code _) => Answer code None
  end.
(** The hub after it was asked. *)
Definition hub_after `{Bdhke} {S} `{!MintStore S} (limits : rate_config) (m : Mint) (node : string) (c : call)
    (api : DiscoveryAPI) (proofs : list Proof_) : DiscoveryAPI :=
  (handleRedeem limits m (Some (mkRedeemReq proofs node)) POST c api).2.

Section nodes.
Context `{Bdhke} {S : Type} `{MintStoreLaws S}.
Context (limits : rate_config) (m : Mint).

(** The redeem endpoint either accepts the proofs or burns none of them. *)
Lemma hub_redeem_cases node c (api : DiscoveryAPI) proofs :
  store_ok (da_store api) ->
  (exists Ys, hub_redeem limits m node c api proofs =
       Answer StatusOK (Some (mkRedeemResponse true (bytes_for proofs) (usum_by p_Amount proofs))) /\
     proof_Y <$> proofs = Some <$> Ys /\ NoDup Ys /\ (forall y, y ∈ Ys -> y ∉ spent_set (da_store api)) /\
     spent_set (da_store (hub_after limits m node c api proofs)) = spent_set (da_store api) ∪ list_to_set Ys) \/
  (match hub_redeem limits m node c api proofs with
   | Answer code (Some _) => False
   | Answer code None => code <> StatusOK
   | NoAnswer => True
   end /\ spent_set (da_store (hub_after limits m node c api proofs)) = spent_set (da_store api)).
Proof.
  intros Hok. unfold hub_redeem, hub_after, handleRedeem, for_method.
  rewrite bool_decide_eq_true_2 by done. cbn [negb]. unfold rate_checked.
  destruct (checkRateLimit _ _ _) as [[] rl]; [|by right]. cbn [da_store da_rate].
  destruct (redeem_request_ok _) as [req|] eqn:Hreq; [|by right].
  assert (rp_Proofs req = proofs) as -> by (unfold redeem_request_ok in Hreq; crush).
  unfold Pool_VerifyAndMarkSpent, pooled. destruct (cx_slot c); [|by right].
  destruct (VerifyAndMarkSpent _ _ _ _) as [res s1] eqn:Hv.
  apply VerifyAndMarkSpent_spec in Hv as (Hok' & Hq & Hr); [|done]. destruct res as [sps|e].
  - left. destruct Hr as (Hf & Hnd & Hnew & Hs). apply verified_all_Y in Hf. exists (sp_Y <$> sps).
    split_and!; try done. intros y (sp & -> & Hsp)%list_elem_of_fmap. auto.
  - right. split; [|done]. unfold redeem_fault. cbn [fst]. by repeat (destruct (errors_is _ _); [done|]).
Qed.

Lemma hub_after_ok node c (api : DiscoveryAPI) proofs :
  store_ok (da_store api) -> store_ok (da_store (hub_after limits m node c api proofs)).
Proof.
  intros Hok. unfold hub_after. destruct (handleRedeem _ _ _ _ _ _) as [r api'] eqn:Hrun.
  apply (redeem_step limits m (fun _ => True) _ _ _ _ _ _ [] []) in Hrun; [apply Hrun|].
  by apply ledger_start.
Qed.
End nodes.

Section connecting.
Context {W Q : Type} `{WgManagerLaws W} `{EnforcerLaws Q} `{BlindScheme}.
Context `{Bdhke} {S : Type} `{MintStoreLaws S}.
Context (limits : rate_config) (m : Mint).

(** What the node checks against this hub: it lets a client through exactly
    with proofs the hub burned for it, for the bytes they are worth. *)
Lemma cashu_checks_hub node c (api : DiscoveryAPI) body :
  store_ok (da_store api) ->
  match cashu_checks (hub_redeem limits m node c api) body with
  | Ok (key, bytes) => exists req Ys, body = Some req /\ key = cq_WGPubkey req /\
      bytes = bytes_for (cq_Proofs req) /\ proof_Y <$> cq_Proofs req = Some <$> Ys /\ NoDup Ys /\
      (forall y, y ∈ Ys -> y ∉ spent_set (da_store api)) /\
      spent_set (da_store (hub_after limits m node c api (cq_Proofs req)))
        = spent_set (da_store api) ∪ list_to_set Ys
  | Err _ => forall req, body = Some req ->
      Z.of_nat (length (cq_Proofs req)) = 0 \/ maxCashuConnectProofs < Z.of_nat (length (cq_Proofs req)) \/
      str_empty (cq_WGPubkey req) = true \/
      spent_set (da_store (hub_after limits m node c api (cq_Proofs req))) = spent_set (da_store api)
  end.
Proof.
  intros Hok. unfold cashu_checks. destruct body as [req|]; [|by intros ? [=]].
  destruct (str_empty (cq_WGPubkey req)) eqn:Hk; [intros ? [= <-]; auto|].
  destruct (_ =? 0) eqn:Hl; [intros ? [= <-]; bprop; auto|].
  destruct (maxCashuConnectProofs <? _) eqn:Hm; [intros ? [= <-]; bprop; auto|]. unfold Redeem.
  destruct (hub_redeem_cases limits m node c api (cq_Proofs req) Hok)
    as [(Ys & -> & HY & Hnd & Hnew & Hs)|[Hr Hs]].
  - simpl. exists req, Ys. by split_and!.
  - destruct (hub_redeem limits m node c api (cq_Proofs req)) as [|code [b|]]; [|done|].
    + intros ? [= <-]. auto.
    + rewrite (proj2 (Z.eqb_neq code StatusOK)) by done.
      repeat (destruct (code =? _); [intros ? [= <-]; auto|]). intros ? [= <-]; auto.
Qed.

Context (range : pool_order) (Hrange : fair range).

(** Ecash connects. POST /connect/cashu on a node, against this hub: the
    client is let in only when the hub burned its proofs, fresh ones, for the
    bytes they are worth, and then has its own slot, address and quota of that.
    A refusal leaves the peers as they were and burns nothing, unless the hub
    had accepted and only the grant failed: that burn is not undone. *)
Theorem cashu_connect_outcomes now node c (api : DiscoveryAPI) req (s : Server) pool
    (Hstore : store_ok (da_store api)) (Hred : s_redeemer s = true) (Hpool : s_ipPool s = Some pool)
    (Hok : peers_ok (s_iface s) (peers_of pool s)) (Hrem : removable (s_iface s)) :
  let hub := hub_redeem limits m node c api in
  let api' := hub_after limits m node c api (cq_Proofs req) in
  let burned := exists Ys, proof_Y <$> cq_Proofs req = Some <$> Ys /\ NoDup Ys /\
    (forall y, y ∈ Ys -> y ∉ spent_set (da_store api)) /\
    spent_set (da_store api') = spent_set (da_store api) ∪ list_to_set Ys in
  match handleCashuConnect range now hub (Some req) s with
  | (Some (Reply code r), s') => code = StatusOK /\ burned /\
      exists ip ps', r = mkConnected "connected" (ip ++ "/32") (s_wgPubkey s) (bytes_for (cq_Proofs req)) true /\
        s' = with_peers ps' s /\
        granted (s_iface s) (cq_WGPubkey req) (bytes_for (cq_Proofs req)) ip (peers_of pool s) ps'
  | (Some (Fault code msg), s') =>
      (cashu_checks hub (Some req) = Err (code, msg) /\ s' = s) \/
      (burned /\ exists ps', s' = with_peers ps' s /\
        (code = StatusServiceUnavailable /\ ps' = peers_of pool s /\ Count pool = 253 \/
         code = StatusInternalServerError /\
           (unchanged (s_iface s) (peers_of pool s) ps' \/
            dropped (s_iface s) (cq_WGPubkey req) (peers_of pool s) ps')))
  | (None, _) => False
  end.
Proof.
  cbv zeta. unfold handleCashuConnect. rewrite Hred, Hpool. cbn [negb].
  pose proof (cashu_checks_hub node c api (Some req) Hstore) as Hc.
  destruct (cashu_checks _ _) as [[k bytes]|[code msg]]; [|by left].
  destruct Hc as (req' & Ys & Heq & -> & -> & HY & Hnd & Hnew & Hs). injection Heq as <-.
  unfold GrantCashuPeer. destruct (grantPeer _ _ _ _ _ _) as [r ps'] eqn:Hg.
  apply (grantPeer_ok _ Hrange) in Hg as [_ Hg]; [|done..]. destruct r as [ip|[code msg]].
  - split; [done|]. split; [by exists Ys|]. by exists ip, ps'.
  - right. split; [by exists Ys|]. exists ps'. split; [done|].
    destruct Hg as [(-> & -> & ? & _)|[-> ?]]; [by left|by right].
Qed.
End connecting.

Section connect_twice.
Context {W Q : Type} `{WgManager W} `{Enforcer Q} `{BlindScheme}.
Context `{Bdhke} {S : Type} `{MintStoreLaws S}.
Context (limits : rate_config) (m : Mint) (range : pool_order).

(** No second connection. A proof that connected a client to one node is
    refused by every node, this one included, after any further requests to the
    hub and whatever its Lightning client answers. *)
Theorem ecash_connects_once now1 now2 node1 node2 c1 c2 (api1 api2 : DiscoveryAPI) log
    req1 req2 (s1 s1' s2 : Server) r p1 p2
    (Hstore : store_ok (da_store api1))
    (Hfirst : handleCashuConnect range now1 (hub_redeem limits m node1 c1 api1) (Some req1) s1
                = (Some (Reply StatusOK r), s1'))
    (Hrun : api_run limits m (fun _ => True) (hub_after limits m node1 c1 api1 (cq_Proofs req1)) log api2)
    (Hp1 : p1 ∈ cq_Proofs req1) (Hp2 : p2 ∈ cq_Proofs req2) (Hsame : proof_Y p1 = proof_Y p2) :
  exists code msg, handleCashuConnect range now2 (hub_redeem limits m node2 c2 api2) (Some req2) s2
                     = (Some (Fault code msg), s2).
Proof.
  assert (exists y, proof_Y p1 = Some y /\
    y ∈ spent_set (da_store (hub_after limits m node1 c1 api1 (cq_Proofs req1)))) as (y & Hy & Hin).
  { unfold handleCashuConnect in Hfirst. destruct (negb _); [done|].
    pose proof (cashu_checks_hub limits m node1 c1 api1 (Some req1) Hstore) as Hc.
    destruct (cashu_checks _ _) as [[k bytes]|[]]; [|done].
    destruct Hc as (req' & Ys & [= <-] & _ & _ & HY & _ & _ & ->).
    assert (proof_Y p1 ∈ Some <$> Ys) as (y & Hy & HyY)%list_elem_of_fmap
      by (rewrite <-HY; by apply list_elem_of_fmap_2).
    exists y. split; [done|]. set_solver. }
  assert (ledger_ok (fun _ => True) (da_store (hub_after limits m node1 c1 api1 (cq_Proofs req1))) [] [p1]) as Hled.
  { by eapply ledger_with; [apply hub_after_ok|..]. }
  eapply run_inv in Hled as [Hstore2 _ _ _ (Ys2 & HY2 & _ & Hin2)]; [|exact Hrun].
  unfold handleCashuConnect. destruct (negb (s_redeemer s2)); [by eexists _, _|].
  pose proof (cashu_checks_hub limits m node2 c2 api2 (Some req2) Hstore2) as Hc.
  destruct (cashu_checks _ _) as [[k bytes]|[code msg]]; [|by exists code, msg]. exfalso.
  destruct Hc as (req' & Ys & [= <-] & _ & _ & HY & _ & Hnew & _).
  assert (proof_Y p2 ∈ Some <$> Ys) as (y' & Hy' & HyY)%list_elem_of_fmap
    by (rewrite <-HY; by apply list_elem_of_fmap_2).
  apply (Hnew y'); [done|]. apply Hin2. destruct Ys2 as [|y2 Ys2]; simplify_eq/=.
  assert (y' = y) as -> by congruence. set_solver.
Qed.
End connect_twice.

(** ** A concrete hub *)
Definition no_limit : rate_config := mkRate 0 0.
Definition toy_call : call := mkCallCtx 0 "t1" "1.2.3.4" true.
Definition toy_invoice (st : InvoiceStatus) : Invoice := mkInvoice_ "ph" "lnbc" st 100.
Definition toy_ln (st : InvoiceStatus) : option ln_answers :=
  Some (mkLn (fun _ => Ok (toy_invoice InvoiceOpen)) (fun _ => Ok (toy_invoice st))).
Definition toy_api : DiscoveryAPI := mkApi ∅ toy_db.
Definition toy_quote_call := handleMintQuote no_limit (toy_ln InvoiceOpen) (Some "q"%string)
  (Some (mkQuoteReq 8 "sat")) "" POST toy_call toy_api.
Definition toy_mint_body : option MintRequest := Some (mkMintReq "q" [toy_output 8 5]).
Definition toy_mint_call := handleMintTokens no_limit toy_mint (toy_ln InvoiceSettled) toy_mint_body POST
  toy_call toy_quote_call.2.

Lemma toy_api_ok : store_ok (da_store toy_api).
Proof. apply edb_ok_dec. vm_compute. reflexivity. Qed.

Lemma ecash_funded_witness :
  exists q, quotes (da_store toy_mint_call.2) !! "q"%string = Some q /\ q_PaymentHash q = "ph"%string /\
    q_State q = QuoteIssued /\ 8 <= q_Amount q.
Proof.
  assert (api_run no_limit toy_mint (fun _ => True) toy_api
    (([] ++ []) ++ issued_by toy_mint_body toy_mint_call.1) toy_mint_call.2) as Hrun.
  { assert (honest (fun _ => True) (toy_ln InvoiceOpen) /\ honest (fun _ => True) (toy_ln InvoiceSettled))
      as [Hh1 Hh2] by done.
    refine (ar_snoc _ _ _ _ _ toy_quote_call.2 _ _ (ar_snoc _ _ _ _ [] _ [] _ (ar_nil _ _ _ _) _) _).
    - exact (as_quote no_limit toy_mint _ (toy_ln InvoiceOpen) (Some "q"%string) (Some (mkQuoteReq 8 "sat")) ""
        POST toy_call toy_api toy_quote_call.1 toy_quote_call.2 Hh1 (surjective_pairing toy_quote_call)).
    - exact (as_mint no_limit toy_mint _ (toy_ln InvoiceSettled) toy_mint_body POST toy_call toy_quote_call.2
        toy_mint_call.1 toy_mint_call.2 Hh2 (surjective_pairing toy_mint_call)). }
  destruct (ecash_funded no_limit toy_mint (fun _ => True) toy_api _ _ toy_api_ok (fun _ _ _ _ => I) Hrun) as [_ Hall].
  set (sigs := match toy_mint_call.1 with Some (Reply _ l) => l | _ => [] end).
  assert (("q"%string, sigs) ∈ issues (([] ++ []) ++ issued_by toy_mint_body toy_mint_call.1)) as Hin.
  { replace (issues _) with [("q"%string, sigs)] by (vm_compute; reflexivity). by left. }
  destruct (Hall _ _ Hin) as (q & Hq & _ & Hst & Hle & _).
  replace (wrap_u64 _) with 8 in Hle by (vm_compute; reflexivity).
  exists q. split; [exact Hq|]. split; [|by split].
  assert ((fun q => q_PaymentHash q) <$> (quotes (da_store toy_mint_call.2) !! "q"%string) = Some "ph"%string) as Hp
    by (vm_compute; reflexivity).
  rewrite Hq in Hp. by injection Hp.
Defined.

(** 33 outputs, within the limit of 64: a paid quote of 8 sats is answered with
    signatures worth 2^64 + 8, because their uint64 sum is 8. *)
Example wrapped_outputs_issued :
  match (handleMintTokens no_limit toy_mint (toy_ln InvoiceSettled) (Some (mkMintReq "q" overflowing)) POST
           toy_call toy_quote_call.2).1 with
  | Some (Reply code sigs) => code = StatusOK /\ zsum_by bs_Amount sigs = 2 ^ 64 + 8
  | _ => False
  end.
Proof. by vm_compute. Qed.

(** A node and a client with two proofs. *)
Definition toy_cashu_server : Server :=
  EnableCashuGate "node-key" "10.100.0" (NewServer toy_wg toy_quota "wg0").
Definition toy_cashu_request : CashuConnectRequest := mkCashuRequest [toy_proof 4 "a"; toy_proof 2 "b"] "alice".
Definition toy_redeemer (api : DiscoveryAPI) := hub_redeem no_limit toy_mint "node-1" toy_call api.
Definition toy_cashu_connected : handled ConnectResponse :=
  handleCashuConnect toy_range 0 (toy_redeemer toy_api) (Some toy_cashu_request) toy_cashu_server.
Definition toy_granted : ConnectResponse := mkConnected "connected" "10.100.0.2/32" "node-key" 6000000 true.

Lemma toy_cashu_ok : toy_cashu_connected.1 = Some (Reply StatusOK toy_granted).
Proof. vm_compute. reflexivity. Qed.

Lemma cashu_connect_outcomes_witness :
  toy_cashu_connected.1 = Some (Reply StatusOK toy_granted) /\
  exists Ys, proof_Y <$> cq_Proofs toy_cashu_request = Some <$> Ys /\ NoDup Ys.
Proof.
  split; [exact toy_cashu_ok|].
  pose proof (cashu_connect_outcomes no_limit toy_mint toy_range toy_range_fair 0 "node-1" toy_call toy_api
    toy_cashu_request toy_cashu_server (newTunnelIPPool "10.100.0") toy_api_ok eq_refl eq_refl
    (fresh_ok _ "10.100.0" toy_peers toy_fresh) (mock_removable _)) as Ho.
  cbv zeta in Ho. fold (toy_redeemer toy_api) in Ho. fold toy_cashu_connected in Ho.
  pose proof toy_cashu_ok as Hr. destruct toy_cashu_connected as [reply s']. simpl in Hr. rewrite Hr in Ho.
  destruct Ho as (_ & (Ys & HY & Hnd & _) & _). by exists Ys.
Defined.

Lemma ecash_connects_once_witness :
  let api1 := hub_after no_limit toy_mint "node-1" toy_call toy_api (cq_Proofs toy_cashu_request) in
  exists code msg, handleCashuConnect toy_range 9 (toy_redeemer api1)
    (Some (mkCashuRequest [toy_proof 4 "a"] "mallory")) toy_cashu_server = (Some (Fault code msg), toy_cashu_server).
Proof.
  cbv zeta.
  refine (ecash_connects_once no_limit toy_mint toy_range 0 9 "node-1" "node-1" toy_call toy_call toy_api _ []
    toy_cashu_request _ toy_cashu_server toy_cashu_connected.2 toy_cashu_server toy_granted
    (toy_proof 4 "a") (toy_proof 4 "a") toy_api_ok _ (ar_nil _ _ _ _) _ _ eq_refl).
  - rewrite <-toy_cashu_ok. apply surjective_pairing.
  - left.
  - left.
Defined.

(** The two halves of the status check are not one step. A request that read
    the unpaid quote and found its invoice settled writes PAID later; a mint
    request in between issues the quote, and then it is issued again. *)
Theorem late_mark_reissues :
  let s0 := da_store toy_quote_call.2 in
  let s1 := da_store toy_mint_call.2 in
  let again := handleMintTokens no_limit toy_mint (toy_ln InvoiceSettled) toy_mint_body POST toy_call
                 (mkApi ∅ (mark_paid "q" s1)) in
  match GetMintQuote "q" s0 with Ok q => lookup_settled (toy_ln InvoiceSettled) q = true | Err _ => False end /\
  refused toy_mint_call.1 = false /\ refused again.1 = false.
Proof. vm_compute. done. Qed.
