(* ===== verification/Attestation.v ===== *)
(** * Attestation: the hub's signed vouchers for nodes
    (src/internal/nostr/attestation.go)

    Over the BIP-340 class of Nostr.v; the JSON encodings of an attestation and
    of its signable content are the class [AttestationJson]. Times are Unix
    seconds. *)
From S2P Require Import Prelude Nostr.

Definition AttestationTTL : Z := 6 * 3600.
Definition attestation_protocol : string := "arfl-node-attestation-v1".

Record Attestation := mkAttestation {
  at_Protocol : string;
  at_HubPubkey : string;
  at_NodePubkey : string;
  at_NodeWGPubkey : string;
  at_OperatorID : string;
  at_AllowedRoles : list string;
  at_IssuedAt : Z;
  at_ExpiresAt : Z;
  at_ID : string;
  at_Signature : string
}.
#[export] Instance Attestation_eq_dec : EqDecision Attestation.
Proof. solve_decision. Defined.

Definition with_seal (id sig : string) (a : Attestation) : Attestation :=
  mkAttestation (at_Protocol a) (at_HubPubkey a) (at_NodePubkey a) (at_NodeWGPubkey a) (at_OperatorID a)
    (at_AllowedRoles a) (at_IssuedAt a) (at_ExpiresAt a) id sig.

(** encoding/json on attestations: the array that is signed, the object that
    is embedded in tags, and its decoder. *)
Class AttestationJson := {
  marshal_content : Attestation -> option string;
  json_Encode : Attestation -> option string;
  json_Decode : string -> option Attestation
}.
Class AttestationJsonLaws `{AttestationJson} := {
  (** neither the ID nor the signature is part of what is signed *)
  law_content_unsealed a id sig : marshal_content (with_seal id sig a) = marshal_content a;
  law_encode_decode a s : json_Encode a = Some s -> json_Decode s = Some a
}.

Inductive att_error :=
| AProtocol | AExpired | AUntrusted | AHubMismatch | AMarshal | AIDMismatch
| ADecodeKey | AParseKey | ADecodeSig | AParseSig | ADecodeID | AInvalidSignature | ASign
| ANodeMismatch | AWGMismatch | ARole
| ATimestamp.
#[export] Instance att_error_eq_dec : EqDecision att_error.
Proof. solve_decision. Defined.

Section attestation.
Context `{Schnorr} `{AttestationJson}.

Definition computeID (a : Attestation) : result att_error string :=
  match marshal_content a with
  | None => Err AMarshal
  | Some data => Ok (hex_encode (sha256_Sum256 data))
  end.

Definition CreateAttestation (hubKP : KeyPair) (now : Z)
    (nodePubkey nodeWGPubkey operatorID : string) (allowedRoles : list string) : result att_error Attestation :=
  let att := mkAttestation attestation_protocol (PubkeyHex hubKP) nodePubkey nodeWGPubkey operatorID
               allowedRoles now (now + AttestationTTL) "" "" in
  id ← computeID att;
  match hex_decode id with
  | None => Err ADecodeID
  | Some idBytes =>
      match schnorr_Sign (nk_PrivateKey hubKP) idBytes with
      | None => Err ASign
      | Some sg => Ok (with_seal id (hex_encode (schnorr_Serialize sg)) att)
      end
  end.

(** The key and signature checks that end both verifications and the refresh
    check; [message] is decoded last. *)
Definition parse_key (pubkeyHex : string) : result att_error PubKey :=
  match hex_decode pubkeyHex with
  | None => Err ADecodeKey
  | Some b => match schnorr_ParsePubKey b with None => Err AParseKey | Some pk => Ok pk end
  end.
Definition parse_sig (sigHex : string) : result att_error Signature :=
  match hex_decode sigHex with
  | None => Err ADecodeSig
  | Some b => match schnorr_ParseSignature b with None => Err AParseSig | Some sg => Ok sg end
  end.
Definition check_seal (pubkeyHex sigHex : string) (message : option string) : result att_error unit :=
  pubKey ← parse_key pubkeyHex;
  sg ← parse_sig sigHex;
  match message with
  | None => Err ADecodeID
  | Some msg => if schnorr_Verify sg msg pubKey then Ok tt else Err AInvalidSignature
  end.

Definition sealed (a : Attestation) : result att_error unit :=
  id ← computeID a;
  if negb (String.eqb id (at_ID a)) then Err AIDMismatch
  else check_seal (at_HubPubkey a) (at_Signature a) (hex_decode (at_ID a)).

Definition VerifySignature (hubPubkeyHex : string) (a : Attestation) : result att_error unit :=
  if negb (String.eqb (at_Protocol a) attestation_protocol) then Err AProtocol
  else if negb (String.eqb (at_HubPubkey a) hubPubkeyHex) then Err AHubMismatch
  else sealed a.

Definition VerifyAttestation (trustedHubPubkeys : list string) (now : Z) (a : Attestation) :
    result att_error unit :=
  if negb (String.eqb (at_Protocol a) attestation_protocol) then Err AProtocol
  else if at_ExpiresAt a <? now then Err AExpired
  else if negb (existsb (fun pk => String.eqb pk (at_HubPubkey a)) trustedHubPubkeys) then Err AUntrusted
  else sealed a.

Definition VerifyNodeBinding (eventPubkey wgPubkey role : string) (a : Attestation) : result att_error unit :=
  if negb (String.eqb eventPubkey (at_NodePubkey a)) then Err ANodeMismatch
  else if negb (String.eqb wgPubkey (at_NodeWGPubkey a)) then Err AWGMismatch
  else if existsb (fun allowed => String.eqb allowed role || String.eqb allowed "both") (at_AllowedRoles a)
  then Ok tt else Err ARole.

(** *** Refresh requests. int64 throughout. *)
Definition refresh_message (attJSON : string) (timestamp : Z) : string := attJSON ++ show_Z timestamp.
Definition SignRefreshRequest (nodeKP : KeyPair) (attJSON : string) (timestamp : Z) : option string :=
  (fun sg => hex_encode (schnorr_Serialize sg)) <$>
  schnorr_Sign (nk_PrivateKey nodeKP) (sha256_Sum256 (refresh_message attJSON timestamp)).

Definition abs_i64 (x : Z) : Z := if x <? 0 then 0 -i x else x.

Definition VerifyRefreshRequest (now : Z) (nodePubkeyHex attJSON : string) (timestamp : Z)
    (signatureHex : string) : result att_error unit :=
  if 300 <? abs_i64 (now -i timestamp) then Err ATimestamp
  else check_seal nodePubkeyHex signatureHex (Some (sha256_Sum256 (refresh_message attJSON timestamp))).
End attestation.

(** ** Facts *)
Section facts.
Context `{SchnorrLaws} `{AttestationJsonLaws}.

(** What a valid seal says. *)
Definition signed_by (pubkeyHex sigHex msg : string) : Prop :=
  exists pk sg, parse_key pubkeyHex = Ok pk /\ parse_sig sigHex = Ok sg /\ schnorr_Verify sg msg pk = true.

Lemma check_seal_Ok pub sg m : check_seal pub sg m = Ok tt <-> exists msg, m = Some msg /\ signed_by pub sg msg.
Proof.
  unfold check_seal, signed_by. split.
  - destruct (parse_key pub) as [pk|]; simpl; [|done]. destruct (parse_sig sg) as [s|]; simpl; [|done].
    destruct m as [msg|]; [|done]. destruct (schnorr_Verify s msg pk) eqn:Hv; [|done]. intros _. eauto 10.
  - intros (msg & -> & pk & s & -> & -> & Hv). simpl. by rewrite Hv.
Qed.

Lemma sealed_Ok a : sealed a = Ok tt <->
  exists data, marshal_content a = Some data /\ at_ID a = hex_encode (sha256_Sum256 data) /\
    signed_by (at_HubPubkey a) (at_Signature a) (sha256_Sum256 data).
Proof.
  unfold sealed, computeID. destruct (marshal_content a) as [data|]; simpl;
    [|by split; [|intros (? & ? & _)]].
  destruct (String.eqb_spec (hex_encode (sha256_Sum256 data)) (at_ID a)) as [Hid|Hid]; simpl.
  - rewrite check_seal_Ok, <-Hid, hex_decode_encode. split; [intros (msg & [= <-] & ?)|intros (? & [= <-] & _ & ?)]; eauto.
  - split; [done|]. by intros (? & [= <-] & ? & _).
Qed.

Lemma VerifyAttestation_Ok trusted now a : VerifyAttestation trusted now a = Ok tt <->
  at_Protocol a = attestation_protocol /\ now <= at_ExpiresAt a /\ at_HubPubkey a ∈ trusted /\ sealed a = Ok tt.
Proof.
  unfold VerifyAttestation. destruct (String.eqb_spec (at_Protocol a) attestation_protocol); cbn [negb]; [|naive_solver].
  destruct (Z.ltb_spec (at_ExpiresAt a) now); [split; [done|lia]|].
  destruct (existsb _ trusted) eqn:Hex; cbn [negb].
  - apply existsb_exists in Hex as (pk & Hin & ->%String.eqb_eq). apply list_elem_of_In in Hin. naive_solver.
  - split; [done|]. intros (_ & _ & Hin & _). exfalso. apply not_true_iff_false in Hex. apply Hex, existsb_exists.
    exists (at_HubPubkey a). split; [by apply list_elem_of_In|apply String.eqb_refl].
Qed.

Lemma own_key_signs kp msg sg : own_key kp -> schnorr_Sign (nk_PrivateKey kp) msg = Some sg ->
  signed_by (PubkeyHex kp) (hex_encode (schnorr_Serialize sg)) msg.
Proof.
  intros Hown Hs. destruct (law_sign_verify _ _ _ Hs) as (pk & Hp & Hv). exists pk, sg.
  unfold parse_key, parse_sig, PubkeyHex. rewrite !hex_decode_encode, law_signature_roundtrip, Hown, Hp. by split_and!.
Qed.

Lemma CreateAttestation_Ok kp now node wg op roles a :
  own_key kp -> CreateAttestation kp now node wg op roles = Ok a ->
  at_Protocol a = attestation_protocol /\ at_HubPubkey a = PubkeyHex kp /\ at_NodePubkey a = node /\
  at_NodeWGPubkey a = wg /\ at_OperatorID a = op /\ at_AllowedRoles a = roles /\
  at_IssuedAt a = now /\ at_ExpiresAt a = now + AttestationTTL /\ sealed a = Ok tt.
Proof.
  intros Hown. unfold CreateAttestation, computeID. set (a0 := mkAttestation _ _ _ _ _ _ _ _ _ _).
  destruct (marshal_content a0) as [data|] eqn:Hm; simpl; [|done]. rewrite hex_decode_encode.
  destruct (schnorr_Sign _ _) as [sg|] eqn:Hs; [|done]. intros [= <-]. split_and!; try done.
  apply sealed_Ok. exists data. split_and!; [by rewrite law_content_unsealed|done|].
  by apply own_key_signs.
Qed.

(** Vouchers. An attestation the hub creates is accepted by exactly the
    parties that trust the hub, until and including the second it expires, and
    binds exactly the node's two keys and the roles it lists ("both" standing
    for any). *)
Theorem attestation_lifecycle kp now node wg op roles a trusted now' pubkey wgkey role
    (Hown : own_key kp) (Hcreate : CreateAttestation kp now node wg op roles = Ok a) :
  (VerifyAttestation trusted now' a = Ok tt <-> PubkeyHex kp ∈ trusted /\ now' <= now + AttestationTTL) /\
  (VerifyNodeBinding pubkey wgkey role a = Ok tt <->
     pubkey = node /\ wgkey = wg /\ (role ∈ roles \/ "both"%string ∈ roles)).
Proof.
  destruct (CreateAttestation_Ok _ _ _ _ _ _ _ Hown Hcreate) as (Hp & Hh & Hn & Hw & _ & Hr & _ & He & Hs).
  split.
  - rewrite VerifyAttestation_Ok, He, Hh. naive_solver.
  - unfold VerifyNodeBinding. rewrite Hn, Hw, Hr.
    destruct (String.eqb_spec pubkey node) as [->|]; simpl; [|naive_solver].
    destruct (String.eqb_spec wgkey wg) as [->|]; simpl; [|naive_solver].
    destruct (existsb _ roles) eqn:Hex.
    + split; [|done]. intros _. split_and!; try done.
      apply existsb_exists in Hex as (x & Hin%list_elem_of_In & Hx). apply orb_true_iff in Hx as [Hx|Hx];
        apply String.eqb_eq in Hx as ->; auto.
    + split; [done|]. intros (_ & _ & Hin). exfalso. apply not_true_iff_false in Hex. apply Hex, existsb_exists.
      destruct Hin as [Hin|Hin]; apply list_elem_of_In in Hin; eexists; (split; [exact Hin|]);
        rewrite String.eqb_refl; auto using orb_true_r.
Qed.

(** The five-minute window in machine arithmetic. *)
Lemma abs_window now ts : 0 <= now < 2 ^ 62 -> in_i64 ts ->
  abs_i64 (now -i ts) <= 300 <-> Z.abs (now - ts) <= 300 \/ ts = now - 2 ^ 63.
Proof.
  intros Hnow Hts. unfold abs_i64, sub_i64. set (d := now - ts).
  assert (- 2 ^ 63 < d <= 2 ^ 63 + 2 ^ 62) as Hd by (unfold d, in_i64 in *; lia).
  assert (ts = now - 2 ^ 63 <-> d = 2 ^ 63) as -> by (unfold d; lia). clearbody d. clear Hnow Hts.
  destruct (Z.lt_trichotomy d (2 ^ 63)) as [Hlt|[->|Hgt]].
  - assert (wrap_i64 d = d) as -> by (apply wrap_i64_id; unfold in_i64; lia).
    assert (d < 0 -> wrap_i64 (0 - d) = - d) as Hneg
      by (intros; rewrite wrap_i64_id by (unfold in_i64; lia); lia).
    destruct (Z.ltb_spec d 0); [rewrite Hneg by done|]; lia.
  - split; [by right|]. intros _. by vm_compute.
  - assert (wrap_i64 d = d - 2 ^ 64) as ->.
    { unfold wrap_i64. rewrite <-(Z.mod_unique (d + 2 ^ 63) (2 ^ 64) 1 (d - 2 ^ 63)); lia. }
    rewrite (proj2 (Z.ltb_lt (d - 2 ^ 64) 0)) by lia.
    assert (wrap_i64 (0 - (d - 2 ^ 64)) = 2 ^ 64 - d) as -> by (rewrite wrap_i64_id by (unfold in_i64; lia); lia).
    lia.
Qed.

(** Refresh requests. A request signed by the node's key is accepted within
    five minutes of its timestamp and at no other time, except in the one second
    at which the subtraction overflows. *)
Theorem refresh_window kp now attJSON ts sg
    (Hown : own_key kp) (Hnow : 0 <= now < 2 ^ 62) (Hts : in_i64 ts)
    (Hsign : SignRefreshRequest kp attJSON ts = Some sg) :
  VerifyRefreshRequest now (PubkeyHex kp) attJSON ts sg = Ok tt <->
  Z.abs (now - ts) <= 300 \/ ts = now - 2 ^ 63.
Proof.
  unfold VerifyRefreshRequest, SignRefreshRequest in *.
  destruct (schnorr_Sign _ _) as [s|] eqn:Hs; simplify_eq/=.
  assert (check_seal (PubkeyHex kp) (hex_encode (schnorr_Serialize s))
    (Some (sha256_Sum256 (refresh_message attJSON ts))) = Ok tt) as ->
    by (apply check_seal_Ok; eexists; split; [done|by apply own_key_signs]).
  assert (300 <? abs_i64 (now -i ts) = false <-> Z.abs (now - ts) <= 300 \/ ts = now - 2 ^ 63) as <-.
  { rewrite Z.ltb_ge. apply abs_window; [lia|done]. }
  destruct (300 <? _); split; done.
Qed.
End facts.

(** ** A concrete hub *)
Definition toy_content (a : Attestation) : string :=
  (at_Protocol a ++ at_HubPubkey a ++ at_NodePubkey a ++ at_NodeWGPubkey a ++ at_OperatorID a ++
   join "," (at_AllowedRoles a) ++ show_Z (at_IssuedAt a) ++ show_Z (at_ExpiresAt a))%string.
(** Attestations "made in this file" are named, others have no encoding. *)
Definition toy_made (now : Z) : Attestation :=
  with_seal (hex_encode (pad32 (attestation_protocol ++ PubkeyHex toy_key)))
    (hex_encode (pad32 (attestation_protocol ++ PubkeyHex toy_key)))
    (mkAttestation attestation_protocol (PubkeyHex toy_key) (PubkeyHex toy_key) "wg-1" "op-1" ["entry"; "exit"]
       now (now + AttestationTTL) "" "").
#[export] Instance toy_attestation_json : AttestationJson := {|
  marshal_content := fun a => Some (toy_content a);
  json_Encode := fun a => if decide (a = toy_made (at_IssuedAt a) /\ at_IssuedAt a = 1000) then Some "old"%string
                          else if decide (a = toy_made (at_IssuedAt a) /\ at_IssuedAt a = 9000) then Some "new"%string
                          else None;
  json_Decode := fun s => if String.eqb s "old" then Some (toy_made 1000)
                          else if String.eqb s "new" then Some (toy_made 9000) else None
|}.
#[export] Instance toy_attestation_laws : AttestationJsonLaws.
Proof.
  split; [done|]. intros a s. simpl. case_decide as Ha.
  - destruct Ha as [Ha Ht]. rewrite Ht in Ha. rewrite Ha. by intros [= <-].
  - case_decide as Hb; [|done]. destruct Hb as [Hb Ht]. rewrite Ht in Hb. rewrite Hb. by intros [= <-].
Qed.

Lemma toy_created now : CreateAttestation toy_key now (PubkeyHex toy_key) "wg-1" "op-1" ["entry"; "exit"] = Ok (toy_made now).
Proof. reflexivity. Qed.

Lemma attestation_lifecycle_witness :
  VerifyAttestation [PubkeyHex toy_key] 22600 (toy_made 1000) = Ok tt /\
  VerifyAttestation [PubkeyHex toy_key] 22601 (toy_made 1000) <> Ok tt /\
  VerifyNodeBinding (PubkeyHex toy_key) "wg-1" "exit" (toy_made 1000) = Ok tt.
Proof.
  pose proof (attestation_lifecycle toy_key 1000 (PubkeyHex toy_key) "wg-1" "op-1" ["entry"; "exit"] (toy_made 1000)
    [PubkeyHex toy_key] 22600 (PubkeyHex toy_key) "wg-1" "exit" eq_refl (toy_created 1000)) as [H1 H2].
  pose proof (attestation_lifecycle toy_key 1000 (PubkeyHex toy_key) "wg-1" "op-1" ["entry"; "exit"] (toy_made 1000)
    [PubkeyHex toy_key] 22601 (PubkeyHex toy_key) "wg-1" "exit" eq_refl (toy_created 1000)) as [H3 _].
  split_and!.
  - apply H1. split; [by left|]. by vm_compute.
  - intros [_ Hle]%H3. by vm_compute in Hle.
  - apply H2. split_and!; [done|done|]. left. right. left.
Defined.

Lemma refresh_window_witness : exists sg,
  SignRefreshRequest toy_key "old" 1000 = Some sg /\
  VerifyRefreshRequest 1300 (PubkeyHex toy_key) "old" 1000 sg = Ok tt /\
  VerifyRefreshRequest 1301 (PubkeyHex toy_key) "old" 1000 sg <> Ok tt.
Proof.
  exists (hex_encode (pad32 "old1000")). split; [reflexivity|].
  assert (in_i64 1000) as Hi by (unfold in_i64; lia). split.
  - apply (refresh_window toy_key 1300 "old" 1000 _ eq_refl ltac:(lia) Hi eq_refl). lia.
  - intros Hv. apply (refresh_window toy_key 1301 "old" 1000 _ eq_refl ltac:(lia) Hi eq_refl) in Hv. lia.
Defined.
