(* ===== verification/Discovery.v ===== *)
(** * Discovery: the hub's node index and its HTTP API
    (src/internal/discovery/index.go, discovery/api.go)

    ProcessEvent and the index it fills, the lists clients are given, the
    refresh of attestations and the withdrawal of earnings. The JSON decoder of
    a node's content and net.ParseIP are the class [NodeCodec]; the order in
    which Go iterates the index is an argument. Times are nanoseconds since the
    epoch, [unix_ns] those of a Unix second as time.Unix keeps it. *)
From S2P Require Import Prelude Sql Schema Credentials Repository Settlement Nostr Attestation Selector Control CashuApi.

Definition OnlineTTL : Z := 5 * 60 * 1000000000.
Definition MinBandwidthMbps : Z := 50.
Definition NostrKindNodeAnnouncement : Z := 30078.

(** The internal seconds of time.Unix start at year 1 and wrap. *)
Definition unix_ns (sec : Z) : Z := (wrap_i64 (sec + 62135596800) - 62135596800) * 1000000000.

Class NodeCodec := {
  (** json.Unmarshal into types.NodeInfo *)
  json_NodeInfo : string -> option NodeInfo;
  (** net.ParseIP: the 16 bytes of the address *)
  net_ParseIP : string -> option (list Z)
}.

(** ** net.SplitHostPort and the address classes *)
Fixpoint index_byte (c : ascii) (s : string) : option nat :=
  match s with
  | EmptyString => None
  | String a r => if Ascii.eqb a c then Some O else Datatypes.S <$> index_byte c r
  end.
Fixpoint last_byte (c : ascii) (s : string) : option nat :=
  match s with
  | EmptyString => None
  | String a r =>
      match last_byte c r with
      | Some i => Some (Datatypes.S i)
      | None => if Ascii.eqb a c then Some O else None
      end
  end.
Definition drop_bytes (n : nat) (s : string) : string := String.substring n (String.length s - n) s.
Definition has_byte (c : ascii) (s : string) : bool := match index_byte c s with Some _ => true | None => false end.

(** The host part, when the address splits. *)
Definition SplitHostPort (hostport : string) : option (string * string) :=
  match last_byte ":" hostport with
  | None => None
  | Some i =>
      let port := drop_bytes (i + 1) hostport in
      let finish (host : string) (j k : nat) :=
        if has_byte "[" (drop_bytes j hostport) || has_byte "]" (drop_bytes k hostport) then None
        else Some (host, port) in
      if String.prefix "[" hostport then
        match index_byte "]" hostport with
        | None => None
        | Some e =>
            if negb (e + 1 =? i)%nat then None
            else finish (String.substring 1 (e - 1) hostport) 1%nat (e + 1)%nat
        end
      else
        let host := String.substring 0 i hostport in
        if has_byte ":" host then None else finish host O O
  end.

Definition is_ip4 (ip : list Z) : bool := bool_decide (take 12 ip = replicate 10 0 ++ [255; 255]).
Definition ip_byte (ip : list Z) (i : nat) : Z := default 0 (ip !! i).
Definition IsLoopback (ip : list Z) : bool :=
  if is_ip4 ip then ip_byte ip 12 =? 127 else bool_decide (ip = replicate 15 0 ++ [1]).
Definition IsLinkLocalUnicast (ip : list Z) : bool :=
  if is_ip4 ip then (ip_byte ip 12 =? 169) && (ip_byte ip 13 =? 254)
  else (ip_byte ip 0 =? 254) && (Z.land (ip_byte ip 1) 192 =? 128).
Definition IsLinkLocalMulticast (ip : list Z) : bool :=
  if is_ip4 ip then (ip_byte ip 12 =? 224) && (ip_byte ip 13 =? 0) && (ip_byte ip 14 =? 0)
  else (ip_byte ip 0 =? 255) && (Z.land (ip_byte ip 1) 15 =? 2).

(** ** The index *)
Record IndexedNode := mkIndexed {
  ix_Info : NodeInfo;
  ix_Event : option Event;
  ix_Attestation : option Attestation;
  ix_LastSeen : Z;
  ix_Online : bool
}.
Inductive index_error :=
| IXKind | IXSignature (e : nostr_error) | IXNoAttestation | IXDecode
| IXAttestation (e : att_error) | IXContent | IXBinding (e : att_error)
| IXInfo (why : string) | IXStale.

Definition role_string (r : NodeRole) : string :=
  match r with RoleEntry => "entry" | RoleExit => "exit" | RoleBoth => "both" | RoleOther s => s end.

Section index.
Context `{Schnorr} `{AttestationJson} `{NodeCodec}.

Record NodeIndex := mkIndex { nx_nodes : gmap string IndexedNode; nx_trustedHubs : list string }.
Definition NewNodeIndex (trustedHubPubkeys : list string) : NodeIndex := mkIndex ∅ trustedHubPubkeys.

Definition nonroutable (host : string) : bool :=
  match net_ParseIP host with
  | Some ip => IsLoopback ip || IsLinkLocalUnicast ip || IsLinkLocalMulticast ip
  | None => false
  end.

Definition validateNodeInfo (info : NodeInfo) : result index_error unit :=
  if negb (slen (n_WGPubkey info) =? 44) then Err (IXInfo "invalid WG pubkey length")
  else match SplitHostPort (n_Endpoint info) with
  | None => Err (IXInfo "invalid endpoint")
  | Some (host, _) =>
      if nonroutable host then Err (IXInfo "endpoint uses non-routable IP")
      else if n_UploadMbps info <? MinBandwidthMbps then Err (IXInfo "upload below minimum")
      else if n_DownloadMbps info <? MinBandwidthMbps then Err (IXInfo "download below minimum")
      else if n_Capacity info <=? 0 then Err (IXInfo "capacity must be positive")
      else if (n_Load info <? 0) || (n_Capacity info <? n_Load info) then Err (IXInfo "load out of bounds")
      else match n_Role info with
           | RoleEntry | RoleExit | RoleBoth => Ok tt
           | RoleOther _ => Err (IXInfo "invalid role")
           end
  end.

Definition wrap_err {A E E'} (f : E -> E') (r : result E A) : result E' A :=
  match r with Ok a => Ok a | Err e => Err (f e) end.

(** The checks of ProcessEvent; the clock is read for the attestation and for
    the age of the event. *)
Definition vet (trusted : list string) (now : Z) (event : Event) : result index_error (NodeInfo * Attestation) :=
  if negb (ev_Kind event =? NostrKindNodeAnnouncement) then Err IXKind
  else
    _ ← wrap_err IXSignature (Verify event);
    let attJSON := GetTagValue "attestation" event in
    if str_empty attJSON then Err IXNoAttestation
    else match json_Decode attJSON with
    | None => Err IXDecode
    | Some att =>
        _ ← wrap_err IXAttestation (VerifyAttestation trusted (now / 1000000000) att);
        match json_NodeInfo (ev_Content event) with
        | None => Err IXContent
        | Some info =>
            _ ← wrap_err IXBinding (VerifyNodeBinding (ev_Pubkey event) (n_WGPubkey info) (role_string (n_Role info)) att);
            _ ← validateNodeInfo info;
            if OnlineTTL <? time_sub now (unix_ns (ev_CreatedAt event)) then Err IXStale
            else Ok (info, att)
        end
    end.

Definition ProcessEvent (now : Z) (event : Event) (idx : NodeIndex) : result index_error unit * NodeIndex :=
  match vet (nx_trustedHubs idx) now event with
  | Err e => (Err e, idx)
  | Ok (info, att) =>
      (Ok tt, mkIndex (<[ev_Pubkey event := mkIndexed info (Some event) (Some att) now true]> (nx_nodes idx))
                (nx_trustedHubs idx))
  end.

Definition expired (now : Z) (n : IndexedNode) : bool :=
  ix_Online n && (OnlineTTL <? time_sub now (ix_LastSeen n)).
Definition take_offline (n : IndexedNode) : IndexedNode :=
  mkIndexed (ix_Info n) (ix_Event n) (ix_Attestation n) (ix_LastSeen n) false.

Definition PruneOffline (now : Z) (idx : NodeIndex) : Z * NodeIndex :=
  (Z.of_nat (size (filter (fun kn => expired now kn.2 = true) (nx_nodes idx))),
   mkIndex ((fun n => if expired now n then take_offline n else n) <$> nx_nodes idx) (nx_trustedHubs idx)).

(** Map iteration: the entries in some order. *)
Definition map_order : Type := gmap string IndexedNode -> list (string * IndexedNode).
Definition fair_order (range : map_order) : Prop := forall g, range g ≡ₚ map_to_list g.
Context (range : map_order).

Definition ListOnline (idx : NodeIndex) : list IndexedNode :=
  bfilter ix_Online ((range (nx_nodes idx)).*2).
Definition plays (role : NodeRole) (n : IndexedNode) : bool :=
  String.eqb (role_string (n_Role (ix_Info n))) (role_string role) ||
  match n_Role (ix_Info n) with RoleBoth => true | _ => false end.
Definition ListByRole (role : NodeRole) (idx : NodeIndex) : list IndexedNode :=
  bfilter (fun n => ix_Online n && plays role n) ((range (nx_nodes idx)).*2).
Definition GetNode (pubkey : string) (idx : NodeIndex) : option IndexedNode := nx_nodes idx !! pubkey.
Definition NodeCount (idx : NodeIndex) : Z * Z :=
  (Z.of_nat (size (nx_nodes idx)), Z.of_nat (length (ListOnline idx))).
End index.

(** ** What the index holds *)
Section index_facts.
Context `{Schnorr} `{AttestationJson} `{NodeCodec}.

(** A node that satisfied every check at the time it was last seen. *)
Record vetted (trusted : list string) (key : string) (n : IndexedNode) (ev : Event) (att : Attestation) : Prop := {
  vt_event : ix_Event n = Some ev;
  vt_attestation : ix_Attestation n = Some att;
  vt_key : ev_Pubkey ev = key;
  vt_kind : ev_Kind ev = NostrKindNodeAnnouncement;
  vt_signed : Verify ev = Ok tt;
  vt_voucher : json_Decode (GetTagValue "attestation" ev) = Some att;
  vt_trusted : VerifyAttestation trusted (ix_LastSeen n / 1000000000) att = Ok tt;
  vt_info : json_NodeInfo (ev_Content ev) = Some (ix_Info n);
  vt_bound : VerifyNodeBinding key (n_WGPubkey (ix_Info n)) (role_string (n_Role (ix_Info n))) att = Ok tt;
  vt_valid : validateNodeInfo (ix_Info n) = Ok tt;
  vt_fresh : time_sub (ix_LastSeen n) (unix_ns (ev_CreatedAt ev)) <= OnlineTTL
}.

Lemma vet_Ok trusted now ev info att : vet trusted now ev = Ok (info, att) ->
  vetted trusted (ev_Pubkey ev) (mkIndexed info (Some ev) (Some att) now true) ev att.
Proof.
  unfold vet. destruct (ev_Kind ev =? _) eqn:Hk; simpl; [|done]. bprop.
  destruct (Verify ev) as [[]|] eqn:Hv; simpl; [|done].
  destruct (str_empty _); [done|]. destruct (json_Decode _) as [a|] eqn:Hd; [|done].
  destruct (VerifyAttestation _ _ _) as [[]|] eqn:Ha; simpl; [|done].
  destruct (json_NodeInfo _) as [i|] eqn:Hi; [|done].
  destruct (VerifyNodeBinding _ _ _ _) as [[]|] eqn:Hb; simpl; [|done].
  destruct (validateNodeInfo i) as [[]|] eqn:Hval; simpl; [|done].
  destruct (Z.ltb_spec OnlineTTL (time_sub now (unix_ns (ev_CreatedAt ev)))) as [|Hf]; [done|].
  intros ?; simplify_eq. by split.
Qed.

Lemma valid_info info : validateNodeInfo info = Ok tt ->
  slen (n_WGPubkey info) = 44 /\ is_Some (SplitHostPort (n_Endpoint info)) /\
  MinBandwidthMbps <= n_UploadMbps info /\ MinBandwidthMbps <= n_DownloadMbps info /\
  0 < n_Capacity info /\ 0 <= n_Load info <= n_Capacity info /\
  (n_Role info = RoleEntry \/ n_Role info = RoleExit \/ n_Role info = RoleBoth).
Proof.
  unfold validateNodeInfo. destruct (slen _ =? 44) eqn:Hl; simpl; [|done].
  destruct (SplitHostPort _) as [[host port]|] eqn:Hs; [|done]. destruct (nonroutable host); [done|].
  destruct (_ <? MinBandwidthMbps) eqn:Hu; [done|]. destruct (n_DownloadMbps info <? _) eqn:Hd; [done|].
  destruct (_ <=? 0) eqn:Hc; [done|]. destruct (_ || _) eqn:Hload; [done|]. bprop.
  destruct (n_Role info) eqn:Hr; intros ?; simplify_eq; split_and!; eauto; lia.
Qed.

(** The index over time: announcements from anyone, and prunings. *)
Inductive index_step (trusted : list string) : NodeIndex -> NodeIndex -> Prop :=
| is_event now ev idx r idx' : ProcessEvent now ev idx = (r, idx') -> index_step trusted idx idx'
| is_prune now idx n idx' : PruneOffline now idx = (n, idx') -> index_step trusted idx idx'.

Definition index_ok (trusted : list string) (idx : NodeIndex) : Prop :=
  nx_trustedHubs idx = trusted /\
  forall key n, nx_nodes idx !! key = Some n -> exists ev att, vetted trusted key n ev att.

Lemma vetted_offline trusted key n ev att : vetted trusted key n ev att -> vetted trusted key (take_offline n) ev att.
Proof. intros []. by split. Qed.

Lemma index_step_ok trusted idx idx' : index_step trusted idx idx' -> index_ok trusted idx -> index_ok trusted idx'.
Proof.
  intros Hstep [Ht Hok]. destruct Hstep as [now ev idx r idx' Hrun|now idx n idx' Hrun].
  - unfold ProcessEvent in Hrun. destruct (vet _ now ev) as [[info att]|e] eqn:Hv; simplify_eq; [|done].
    apply vet_Ok in Hv. split; [done|]. intros key n. simpl. rewrite lookup_insert_Some.
    intros [[<- <-]|[_ Hn]]; [by exists ev, att|by apply Hok].
  - unfold PruneOffline in Hrun. simplify_eq. split; [done|]. intros key n0. simpl.
    rewrite lookup_fmap, fmap_Some. intros (n1 & Hn & ->). destruct (Hok _ _ Hn) as (ev & att & Hvt).
    exists ev, att. destruct (expired now n1); [by apply vetted_offline|done].
Qed.

Lemma index_run_ok trusted idx :
  rtc (index_step trusted) (NewNodeIndex trusted) idx -> index_ok trusted idx.
Proof.
  assert (index_ok trusted (NewNodeIndex trusted)) as Hnew by (split; [done|]; by intros key n Hn).
  intros Hrun. revert Hnew. induction Hrun; eauto using index_step_ok.
Qed.

Lemma elem_of_range range (g : gmap string IndexedNode) n :
  fair_order range -> n ∈ (range g).*2 <-> exists k, g !! k = Some n.
Proof.
  intros Hr. rewrite (Hr g), list_elem_of_fmap. split.
  - intros ([k m] & -> & Hin%elem_of_map_to_list). by exists k.
  - intros (k & Hk). exists (k, n). split; [done|]. by apply elem_of_map_to_list.
Qed.

(** C23: the list is vetted. Every node the hub lists, by role or not, was
    announced by an event signed with its own key, with the voucher of a trusted
    hub for that key, WireGuard key and role, unexpired when last seen, and
    metadata within bounds; right after a pruning it was accepted within the
    last five minutes. *)
Theorem index_lists_vetted range trusted idx now
    (Hrange : fair_order range) (Hrun : rtc (index_step trusted) (NewNodeIndex trusted) idx) :
  let idx' := (PruneOffline now idx).2 in
  forall n, n ∈ ListOnline range idx' <->
    exists key ev att, nx_nodes idx !! key = Some n /\ ix_Online n = true /\
      time_sub now (ix_LastSeen n) <= OnlineTTL /\ vetted trusted key n ev att /\
      50 <= n_UploadMbps (ix_Info n) /\ 50 <= n_DownloadMbps (ix_Info n) /\
      0 <= n_Load (ix_Info n) <= n_Capacity (ix_Info n) /\
      (forall role, n ∈ ListByRole range role idx' <-> plays role n = true).
Proof.
  intros idx' n. pose proof (index_run_ok _ _ Hrun) as [_ Hok].
  assert (n ∈ ListOnline range idx' <-> exists key, nx_nodes idx !! key = Some n /\ ix_Online n = true /\
    time_sub now (ix_LastSeen n) <= OnlineTTL) as Hlist.
  { unfold ListOnline. rewrite elem_of_bfilter, elem_of_range by done. unfold idx'. simpl. split.
    - intros (Hon & key & Hn). rewrite lookup_fmap, fmap_Some in Hn. destruct Hn as (n1 & Hn & ->).
      destruct (expired now n1) eqn:He; [done|]. exists key. split_and!; [done|done|].
      unfold expired in He. rewrite Hon in He. simpl in He. by bprop.
    - intros (key & Hn & Hon & Ht). split; [done|]. exists key. rewrite lookup_fmap, Hn. simpl.
      assert (expired now n = false) as ->; [|done]. unfold expired. rewrite Hon. simpl. bprop. lia. }
  rewrite Hlist. split.
  - intros (key & Hn & Hon & Ht). destruct (Hok _ _ Hn) as (ev & att & Hvt).
    destruct (valid_info _ (vt_valid _ _ _ _ _ Hvt)) as (_ & _ & ? & ? & _ & ? & _).
    exists key, ev, att. split_and!; try done; try lia. intros role. unfold ListByRole.
    rewrite elem_of_bfilter, elem_of_range by done. unfold ListOnline in Hlist.
    rewrite elem_of_bfilter, elem_of_range in Hlist by done. rewrite Hon. simpl. naive_solver.
  - intros (key & ev & att & Hn & Hon & Ht & _). by exists key.
Qed.
End index_facts.

(** ** A concrete index *)
Definition toy_wgkey : string := pad32 "wg-1" ++ "000000000000".
Definition toy_voucher : Attestation :=
  with_seal (hex_encode (pad32 (attestation_protocol ++ PubkeyHex toy_key)))
    (hex_encode (pad32 (attestation_protocol ++ PubkeyHex toy_key)))
    (mkAttestation attestation_protocol (PubkeyHex toy_key) (PubkeyHex toy_key) toy_wgkey "op-1" ["exit"] 1000 22600 "" "").
Definition toy_listed : NodeInfo :=
  mkNode "n1" (PubkeyHex toy_key) toy_wgkey "[2001:db8::1]:51820" "http://n1" [] "" 0 100 80 3 10 RoleExit "1" "" "".
Definition voucher_json : AttestationJson := {|
  marshal_content := fun a => Some (toy_content a);
  json_Encode := fun a => if decide (a = toy_voucher) then Some "voucher"%string else None;
  json_Decode := fun s => if String.eqb s "voucher" then Some toy_voucher else None
|}.
#[export] Instance toy_codec : NodeCodec := {|
  json_NodeInfo := fun s => if String.eqb s "info" then Some toy_listed else None;
  net_ParseIP := fun _ => None
|}.
Definition toy_announcement : Event :=
  match Sign toy_key 1010 (mkEvent "" "" 0 NostrKindNodeAnnouncement [["attestation"; "voucher"]] "info" "") with
  | Ok e => e
  | Err _ => toy_event
  end.
Definition toy_now : Z := 1020 * 1000000000.
Definition toy_hubs : list string := [PubkeyHex toy_key].
Definition toy_indexed : NodeIndex :=
  (@ProcessEvent _ voucher_json _ toy_now toy_announcement (NewNodeIndex toy_hubs)).2.
Definition toy_order : map_order := map_to_list.

Lemma index_lists_vetted_witness :
  exists n ev att, n ∈ ListOnline toy_order (PruneOffline (toy_now + OnlineTTL) toy_indexed).2 /\
    @vetted _ voucher_json _ toy_hubs (PubkeyHex toy_key) n ev att /\ ix_Info n = toy_listed.
Proof.
  pose proof (index_lists_vetted (H0 := voucher_json) toy_order toy_hubs toy_indexed (toy_now + OnlineTTL)
    (fun g => reflexivity _) (rtc_once _ _ (is_event toy_hubs toy_now toy_announcement _ _ _ (surjective_pairing _)))) as Hall.
  cbv zeta in Hall.
  set (n := mkIndexed toy_listed (Some toy_announcement) (Some toy_voucher) toy_now true).
  assert (ListOnline toy_order (PruneOffline (toy_now + OnlineTTL) toy_indexed).2 = [n]) as Hl by (vm_compute; reflexivity).
  assert (n ∈ ListOnline toy_order (PruneOffline (toy_now + OnlineTTL) toy_indexed).2) as Hin by (rewrite Hl; left).
  pose proof Hin as Hin'. apply Hall in Hin' as (key & ev & att & Hn & _ & _ & Hv & _).
  exists n, ev, att. split; [exact Hin|]. split; [|reflexivity].
  pose proof (vt_key _ _ _ _ _ Hv) as <-. pose proof (vt_event _ _ _ _ _ Hv) as He. injection He as <-. exact Hv.
Defined.
