(* ===== verification/HubApi.v ===== *)
(** * HubApi: the hub's discovery, attestation and earnings endpoints
    (src/internal/discovery/api.go)

    Handlers over the index of Discovery.v and the ledger of Repository.v. The
    configuration set at start-up is [hub_config]; what changes is the index,
    the rate table and the database. A [None] answer is a panic. *)
From S2P Require Import Prelude Sql Schema Credentials Repository Ledger Settlement Nostr Attestation Selector Control CashuApi Discovery.

(** What a request brings besides its body. *)
Record visit := mkVisit { vs_call : CashuApi.call; vs_method : http_method }.

Record HubInfo := mkHubInfo {
  hi_Name : string;
  hi_Version : string;
  hi_NodeCount : Z;
  hi_HubMarginPct : Z;
  hi_Tiers : gmap string Tier
}.
Record DiscoveryResponse := mkListing { dr_Nodes : list IndexedNode; dr_Timestamp : Z; dr_Count : Z }.
Record AttestRefreshRequest := mkRefresh { rf_Attestation : string; rf_Timestamp : Z; rf_Signature : string }.
Record WalletRequest := mkWalletReq { nwr_Pubkey : string; nwr_LNAddress : string }.
Record WithdrawRequest := mkWithdrawReq { wr_Pubkey : string; wr_AmountSats : Z }.
(** Answers of /node/withdraw: paid, or the balance that did not suffice. *)
Inductive WithdrawAnswer :=
| WithdrawPaid (amount : Z) (payment_hash : string)
| WithdrawShort (available requested : Z).

Section api.
Context `{Schnorr} `{AttestationJson} `{NodeCodec}.

Record hub_config := mkHubConfig {
  hc_limits : rate_config;
  hc_hubKP : option KeyPair;
  hc_leases : bool;        (* a lease store was given *)
  hc_hubInfo : option HubInfo;
  hc_earnings : bool;      (* an earnings store was given *)
  hc_lightning : bool      (* a Lightning client was given *)
}.
Definition NewDiscoveryAPI_limits : rate_config := mkRate 30 (60 * 1000000000).
Record hub_state := mkHub { hb_index : NodeIndex; hb_rate : gmap string (list Z); hb_db : DB }.
Definition with_index (idx : NodeIndex) (h : hub_state) : hub_state := mkHub idx (hb_rate h) (hb_db h).
Definition with_db (db : DB) (h : hub_state) : hub_state := mkHub (hb_index h) (hb_rate h) db.

Context (cfg : hub_config).
Implicit Types (v : visit) (h : hub_state).

Definition only {A} (want : http_method) v h (body : option (reply A) * hub_state) : option (reply A) * hub_state :=
  if negb (bool_decide (vs_method v = want)) then (Some (Fault StatusMethodNotAllowed "method not allowed"), h)
  else body.

(** *** Listings *)
Section listings.
Context (range : map_order).

Definition default_info : HubInfo := mkHubInfo "ARFL Hub" "0.1.0" 0 20 DefaultTiers.
Definition handleInfo v h : option (reply HubInfo) * hub_state :=
  only GET v h
    (let info := default default_info (hc_hubInfo cfg) in
     (Some (Reply StatusOK (mkHubInfo (hi_Name info) (hi_Version info) (NodeCount range (hb_index h)).2
              (hi_HubMarginPct info) (hi_Tiers info))), h)).

Definition nodes_for (roleFilter : string) (idx : NodeIndex) : list IndexedNode :=
  if String.eqb roleFilter "entry" then ListByRole range RoleEntry idx
  else if String.eqb roleFilter "exit" then ListByRole range RoleExit idx
  else if String.eqb roleFilter "both" then ListByRole range RoleBoth idx
  else ListOnline range idx.
Definition handleNodes (roleFilter : string) v h : option (reply DiscoveryResponse) * hub_state :=
  only GET v h
    (let '(allowed, rl) := checkRateLimit (hc_limits cfg) (vs_call v) (hb_rate h) in
     let h1 := mkHub (hb_index h) rl (hb_db h) in
     if negb allowed then (Some (Fault StatusTooManyRequests "rate limit exceeded"), h1)
     else
       let nodes := nodes_for roleFilter (hb_index h) in
       (Some (Reply StatusOK (mkListing nodes (cx_ns (vs_call v) / 1000000000) (Z.of_nat (length nodes)))), h1)).

Definition handleHealth h : Z * Z := NodeCount range (hb_index h).
End listings.

Definition handleAnnounce (body : option Event) v h : option (reply unit) * hub_state :=
  only POST v h
    match body with
    | None => (Some (Fault StatusBadRequest "invalid event JSON"), h)
    | Some event =>
        match ProcessEvent (cx_ns (vs_call v)) event (hb_index h) with
        | (Err _, idx) => (Some (Fault StatusForbidden "rejected"), with_index idx h)
        | (Ok _, idx) => (Some (Reply StatusOK tt), with_index idx h)
        end
    end.

(** *** Earnings *)
(** "/node/{pubkey}/earnings", split at the first slash after the prefix. *)
Definition earnings_path (path : string) : option string :=
  let p := Connect.trim_prefix "/node/" path in
  match index_byte "/" p with
  | None => None
  | Some i =>
      let pubkey := String.substring 0 i p in
      if String.eqb (drop_bytes (i + 1) p) "earnings" && (slen pubkey =? 64) then Some pubkey else None
  end.
Definition handleNodeEarnings (path : string) v h : option (reply NodeEarnings) * hub_state :=
  only GET v h
    match earnings_path path with
    | None => (Some (Fault StatusBadRequest "expected /node/{64-char-pubkey}/earnings"), h)
    | Some pubkey =>
        if negb (hc_earnings cfg) then (Some (Fault StatusServiceUnavailable "earnings not available"), h)
        else match GetNodeEarnings pubkey (hb_db h) with
        | Err _ => (Some (Fault StatusInternalServerError "internal error"), h)
        | Ok e => (Some (Reply StatusOK e), h)
        end
    end.

Definition handleNodeWallet (body : option WalletRequest) (query : string) v h :
    option (reply (option string)) * hub_state :=
  if negb (hc_earnings cfg) then (Some (Fault StatusServiceUnavailable "not available"), h)
  else match vs_method v with
  | POST =>
      match body with
      | None => (Some (Fault StatusBadRequest "invalid JSON"), h)
      | Some req =>
          if negb (slen (nwr_Pubkey req) =? 64) || str_empty (nwr_LNAddress req)
          then (Some (Fault StatusBadRequest "pubkey (64 hex chars) and ln_address required"), h)
          else match SetNodeWallet (cx_text (vs_call v)) (nwr_Pubkey req) (nwr_LNAddress req) (hb_db h) with
          | (Err _, db) => (Some (Fault StatusInternalServerError "internal error"), with_db db h)
          | (Ok _, db) => (Some (Reply StatusOK None), with_db db h)
          end
      end
  | GET =>
      if negb (slen query =? 64) then (Some (Fault StatusBadRequest "pubkey query param required (64 hex chars)"), h)
      else match GetNodeWallet query (hb_db h) with
      | Err _ => (Some (Fault StatusNotFound "wallet not registered"), h)
      | Ok addr => (Some (Reply StatusOK (Some addr)), h)
      end
  | _ => (Some (Fault StatusMethodNotAllowed "method not allowed"), h)
  end.

(** *** Withdrawals *)
(** Keysend as this handler sees it: an error's text, or a result. *)
Definition keysend : Type := string -> Z -> result string PaymentResult.

(** The balance that may be withdrawn; int64. *)
Definition available_sats (pubkey : string) (db : DB) : outcome Z :=
  earnings ← GetNodeEarnings pubkey db;
  withdrawn ← TotalWithdrawnSats pubkey db;
  let available := ne_TotalEarnedSats earnings -i ne_PaidSats earnings -i withdrawn in
  Ok (if available <? 0 then 0 else available).

(** From the balance check on; [now] stamps the record. *)
Definition pay_withdrawal (send : keysend) (now pubkey : string) (amount : Z) (db : DB) :
    reply WithdrawAnswer * DB * list (string * Z) :=
  match GetNodeWallet pubkey db with
  | Err _ => (Fault StatusBadRequest "no Lightning address registered — POST /node/wallet first", db, [])
  | Ok _ =>
      match InsertWithdrawal now pubkey amount db with
      | (Err _, db1) => (Fault StatusInternalServerError "internal error", db1, [])
      | (Ok wdID, db1) =>
          match send pubkey amount with
          | Err msg =>
              (Fault StatusBadGateway ("payment failed: " ++ msg), (MarkWithdrawalFailed now wdID msg db1).2,
               [(pubkey, amount)])
          | Ok r =>
              match pr_Status r with
              | PaymentSucceeded =>
                  (Reply StatusOK (WithdrawPaid amount (pr_PaymentHash r)),
                   (MarkWithdrawalPaid now wdID (pr_PaymentHash r) db1).2, [(pubkey, amount)])
              | _ =>
                  let msg := if str_empty (pr_Error r) then "payment did not succeed"%string else pr_Error r in
                  (Fault StatusBadGateway ("payment failed: " ++ msg), (MarkWithdrawalFailed now wdID msg db1).2,
                   [(pubkey, amount)])
              end
          end
      end
  end.

(** The keysends issued are returned beside the answer. *)
Definition handleNodeWithdraw (send : keysend) (body : option WithdrawRequest) v h :
    option (reply WithdrawAnswer) * hub_state * list (string * Z) :=
  if negb (bool_decide (vs_method v = POST)) then (Some (Fault StatusMethodNotAllowed "method not allowed"), h, [])
  else if negb (hc_earnings cfg) || negb (hc_lightning cfg)
  then (Some (Fault StatusServiceUnavailable "withdrawals not available"), h, [])
  else match body with
  | None => (Some (Fault StatusBadRequest "invalid JSON"), h, [])
  | Some req =>
      if negb (slen (wr_Pubkey req) =? 64) || (wr_AmountSats req <=? 0)
      then (Some (Fault StatusBadRequest "pubkey (64 hex chars) and positive amount_sats required"), h, [])
      else match available_sats (wr_Pubkey req) (hb_db h) with
      | Err _ => (Some (Fault StatusInternalServerError "internal error"), h, [])
      | Ok available =>
          if available <? wr_AmountSats req
          then (Some (Reply StatusPaymentRequired (WithdrawShort available (wr_AmountSats req))), h, [])
          else
            let '(r, db, sent) := pay_withdrawal send (cx_text (vs_call v)) (wr_Pubkey req) (wr_AmountSats req) (hb_db h) in
            (Some r, with_db db h, sent)
      end
  end.

(** *** Attestation refresh *)
(** [att.NodePubkey[:16]] in the log lines panics on a shorter key. *)
Definition logged {A} (key : string) (r : reply A) : option (reply A) := if slen key <? 16 then None else Some r.
Definition handleAttestRefresh (body : option AttestRefreshRequest) v h : option (reply string) * hub_state :=
  only POST v h
    (match hc_hubKP cfg with
     | None => Some (Fault StatusServiceUnavailable "attestation refresh not enabled")
     | Some hubKP =>
         match body with
         | None => Some (Fault StatusBadRequest "invalid request body")
         | Some req =>
             match json_Decode (rf_Attestation req) with
             | None => Some (Fault StatusBadRequest "invalid attestation")
             | Some att =>
                 let now := cx_ns (vs_call v) in
                 if negb (is_ok (VerifySignature (PubkeyHex hubKP) att))
                 then Some (Fault StatusForbidden "attestation verification failed")
                 else if negb (is_ok (VerifyRefreshRequest (now / 1000000000) (at_NodePubkey att)
                                        (rf_Attestation req) (rf_Timestamp req) (rf_Signature req)))
                 then Some (Fault StatusForbidden "invalid signature")
                 else if hc_leases cfg && negb (IsLeaseActive now (at_NodePubkey att) (hb_db h))
                 then logged (at_NodePubkey att) (Fault StatusForbidden "lease expired or revoked")
                 else match CreateAttestation hubKP (now / 1000000000) (at_NodePubkey att) (at_NodeWGPubkey att)
                              (at_OperatorID att) (at_AllowedRoles att) with
                 | Err _ => Some (Fault StatusInternalServerError "internal error")
                 | Ok newAtt =>
                     match json_Encode newAtt with
                     | None => Some (Fault StatusInternalServerError "internal error")
                     | Some encoded => logged (at_NodePubkey att) (Reply StatusOK encoded)
                     end
                 end
             end
         end
     end, h).
End api.

(** ** What the endpoints promise *)
Section withdrawals.
Context `{Schnorr} (cfg : hub_config).
Implicit Types (db : DB) (k : string).

Definition earned_sats k db : Z :=
  zsum_by s_amount_sats (bfilter (fun r => String.eqb (s_node_pubkey r) k) (settlement_entries db)).
Definition paid_sats k db : Z :=
  zsum_by p_amount_sats (bfilter (fun p => String.eqb (p_node_pubkey p) k && paid_payout p) (payouts db)).
Definition withdrawn_row k (r : WithdrawalRow) : bool :=
  String.eqb (wd_node_pubkey r) k && bool_decide (wd_status r = WPaid).
Definition withdrawn_sats k db : Z := zsum_by wd_amount_sats (bfilter (withdrawn_row k) (withdrawals db)).
(** A node has not been given more than it earned. *)
Definition covered k db : Prop :=
  0 <= paid_sats k db /\ 0 <= withdrawn_sats k db /\ paid_sats k db + withdrawn_sats k db <= earned_sats k db.

Lemma available_exact k db a : covered k db -> available_sats k db = Ok a ->
  a = earned_sats k db - paid_sats k db - withdrawn_sats k db.
Proof.
  intros (Hp & Hw & Hle) Ha. unfold available_sats, GetNodeEarnings, TotalWithdrawnSats in Ha.
  assert (in_i64 0) as H0 by (unfold in_i64; lia).
  destruct (sql_sum (s_amount_sats <$> _) 0) as [e|] eqn:He; [|done]. cbn [of_sql mbind result_mbind] in Ha.
  destruct (sql_sum (s_tickets_redeemed <$> _) 0) as [n|]; [|done]. cbn [of_sql mbind result_mbind] in Ha.
  destruct (sql_sum (p_amount_sats <$> _) 0) as [p|] eqn:Hpd; [|done]. cbn [of_sql mbind result_mbind] in Ha.
  destruct (sql_sum (wd_amount_sats <$> _) 0) as [w|] eqn:Hwd; [|done].
  cbn [of_sql mbind result_mbind ne_TotalEarnedSats ne_PaidSats] in Ha.
  pose proof (sql_sum_range _ _ _ H0 He) as Hr.
  apply sql_sum_exact in He, Hpd, Hwd. change (0 + zsum (s_amount_sats <$> _)) with (earned_sats k db) in He.
  change (0 + zsum (p_amount_sats <$> _)) with (paid_sats k db) in Hpd.
  change (0 + zsum (wd_amount_sats <$> _)) with (withdrawn_sats k db) in Hwd. subst e p w.
  unfold sub_i64 in Ha. unfold in_i64 in Hr.
  rewrite (wrap_i64_id (earned_sats k db - paid_sats k db)), wrap_i64_id in Ha by (unfold in_i64; lia).
  destruct (Z.ltb_spec (earned_sats k db - paid_sats k db - withdrawn_sats k db) 0); simplify_eq; lia.
Qed.

(** The record of a keysend, once it is answered. *)
Definition withdrawal_outcome (send : keysend) (now k : string) (amount : Z) :
    reply WithdrawAnswer * (Z -> WithdrawalRow) :=
  let row st hash err id := mkWithdrawal id k amount st hash err now now in
  let failed msg := (Fault StatusBadGateway ("payment failed: " ++ msg), row WFailed None (Some msg)) in
  match send k amount with
  | Err msg => failed msg
  | Ok r =>
      match pr_Status r with
      | PaymentSucceeded => (Reply StatusOK (WithdrawPaid amount (pr_PaymentHash r)), row WPaid (Some (pr_PaymentHash r)) None)
      | _ => failed (if str_empty (pr_Error r) then "payment did not succeed"%string else pr_Error r)
      end
  end.

Lemma mark_new_withdrawal db k amount now st hash err (f : WithdrawalRow -> WithdrawalRow) :
  0 < amount -> let id := next_rowid (wd_id <$> withdrawals db) in
  let row := mkWithdrawal id k amount WPending None None now now in
  f row = mkWithdrawal id k amount st hash err now now ->
  sql_update (pending_withdrawal id) (fun _ _ => false) withdrawal_check f (withdrawals db ++ [row]) =
    (withdrawals db ++ [mkWithdrawal id k amount st hash err now now], Ok 1%nat).
Proof.
  intros Ha id row Hf. rewrite <-Hf. apply sql_update_snoc.
  - intros x Hx. unfold pending_withdrawal. destruct (Z.eqb_spec (wd_id x) id) as [He|]; [|done].
    exfalso. apply (next_rowid_fresh (wd_id <$> withdrawals db)). fold id. rewrite <-He.
    apply list_elem_of_fmap. eauto.
  - unfold pending_withdrawal. simpl. by rewrite Z.eqb_refl.
  - rewrite Hf. unfold withdrawal_check. simpl. bprop. by apply Z.ltb_lt.
Qed.

Lemma pay_withdrawal_spec send now k amount db : 0 < amount ->
  pay_withdrawal send now k amount db =
    match GetNodeWallet k db with
    | Err _ => (Fault StatusBadRequest "no Lightning address registered — POST /node/wallet first", db, [])
    | Ok _ =>
        let '(r, row) := withdrawal_outcome send now k amount in
        (r, set_withdrawals db (withdrawals db ++ [row (next_rowid (wd_id <$> withdrawals db))]), [(k, amount)])
    end.
Proof.
  intros Ha. unfold pay_withdrawal. destruct (GetNodeWallet k db); [|done].
  unfold InsertWithdrawal. rewrite sql_insert_fits; [|unfold withdrawal_check; simpl; by apply Z.ltb_lt|done..].
  unfold withdrawal_outcome, MarkWithdrawalPaid, MarkWithdrawalFailed.
  destruct (send k amount) as [r|msg]; [destruct (pr_Status r)|]; cbn [withdrawals set_withdrawals];
    (erewrite mark_new_withdrawal; [|done|reflexivity]; reflexivity).
Qed.

Lemma withdraw_answers send body v h h' sent : handleNodeWithdraw cfg send body v h <> (None, h', sent).
Proof.
  unfold handleNodeWithdraw. destruct (negb _); [done|]. destruct (_ || _); [done|]. destruct body; [|done].
  destruct (_ || _); [done|]. destruct (available_sats _ _); [|done]. destruct (_ <? _); [done|].
  by destruct (pay_withdrawal _ _ _ _ _) as [[? ?] ?].
Qed.

(** Withdrawals. Every branch of POST /node/withdraw: a request that is
    refused names its reason and leaves the hub and the Lightning wallet alone;
    otherwise exactly one keysend is made, for the amount asked and at most the
    balance, and one row keeps its outcome. *)
Theorem withdraw_outcomes send body v h r h' sent
    (Hrun : handleNodeWithdraw cfg send body v h = (Some r, h', sent)) :
  (h' = h /\ sent = [] /\
    (reply_code r = 405 /\ vs_method v <> POST \/
     reply_code r = 503 /\ (hc_earnings cfg && hc_lightning cfg = false) \/
     reply_code r = 400 /\ (forall req, body = Some req ->
        slen (wr_Pubkey req) <> 64 \/ wr_AmountSats req <= 0 \/ is_ok (GetNodeWallet (wr_Pubkey req) (hb_db h)) = false) \/
     (exists req, body = Some req /\
        (reply_code r = 500 /\ is_ok (available_sats (wr_Pubkey req) (hb_db h)) = false \/
         exists a, available_sats (wr_Pubkey req) (hb_db h) = Ok a /\ a < wr_AmountSats req /\
           r = Reply 402 (WithdrawShort a (wr_AmountSats req)))))) \/
  (exists req a row, body = Some req /\ vs_method v = POST /\ slen (wr_Pubkey req) = 64 /\
    available_sats (wr_Pubkey req) (hb_db h) = Ok a /\ 0 < wr_AmountSats req <= a /\
    is_ok (GetNodeWallet (wr_Pubkey req) (hb_db h)) = true /\
    sent = [(wr_Pubkey req, wr_AmountSats req)] /\
    (r, row) = withdrawal_outcome send (cx_text (vs_call v)) (wr_Pubkey req) (wr_AmountSats req) /\
    h' = with_db (set_withdrawals (hb_db h) (withdrawals (hb_db h) ++ [row (next_rowid (wd_id <$> withdrawals (hb_db h)))])) h).
Proof.
  unfold handleNodeWithdraw in Hrun. case_bool_decide as Hm; simpl in Hrun; [|simplify_eq; left; auto 10].
  destruct (hc_earnings cfg) eqn:He; simpl in Hrun; [|simplify_eq; left; auto 10].
  destruct (hc_lightning cfg) eqn:Hl; simpl in Hrun; [|simplify_eq; left; auto 10].
  destruct body as [req|]; [|simplify_eq; left; split_and!; [done..|]; right; right; left; done].
  destruct (slen (wr_Pubkey req) =? 64) eqn:H64; simpl in Hrun; bprop;
    [|simplify_eq; left; split_and!; [done..|]; right; right; left; split; [done|]; intros ? [= <-]; auto].
  destruct (wr_AmountSats req <=? 0) eqn:Hamt; bprop;
    [simplify_eq; left; split_and!; [done..|]; right; right; left; split; [done|]; intros ? [= <-]; auto|].
  destruct (available_sats (wr_Pubkey req) (hb_db h)) as [a|e] eqn:Ha;
    [|simplify_eq; left; split_and!; [done..|]; right; right; right; exists req; rewrite Ha; auto].
  destruct (Z.ltb_spec a (wr_AmountSats req));
    [simplify_eq; left; split_and!; [done..|]; right; right; right; exists req; rewrite Ha; eauto 10|].
  rewrite pay_withdrawal_spec in Hrun by done. destruct (GetNodeWallet _ _) as [addr|e] eqn:Hw.
  - destruct (withdrawal_outcome _ _ _ _) as [r0 row] eqn:Ho. simplify_eq. right.
    exists req, a, row. rewrite Hw, Ho. split_and!; try done; lia.
  - simplify_eq. left. split_and!; [by destruct h|done|]. right; right; left. split; [done|].
    intros ? [= <-]. rewrite Hw. auto.
Qed.

(** *** Withdrawals one after another *)
Inductive wallet_call :=
| WithdrawCall (send : keysend) (body : option WithdrawRequest) (v : visit)
| WalletCall (body : option WalletRequest) (query : string) (v : visit).
Definition confirmed (send : keysend) (sent : list (string * Z)) : list (string * Z) :=
  bfilter (fun ka => match send ka.1 ka.2 with
                     | Ok r => match pr_Status r with PaymentSucceeded => true | _ => false end
                     | Err _ => false
                     end) sent.
(** The hub afterwards, and the keysends the Lightning client confirmed. *)
Definition wallet_call_run (c : wallet_call) (h : hub_state) : hub_state * list (string * Z) :=
  match c with
  | WithdrawCall send body v => let '(_, h', sent) := handleNodeWithdraw cfg send body v h in (h', confirmed send sent)
  | WalletCall body query v => ((handleNodeWallet cfg body query v h).2, [])
  end.
Fixpoint wallet_calls_run (cs : list wallet_call) (h : hub_state) : hub_state * list (string * Z) :=
  match cs with
  | [] => (h, [])
  | c :: r =>
      let '(h1, paid) := wallet_call_run c h in
      let '(h2, more) := wallet_calls_run r h1 in (h2, paid ++ more)
  end.
Definition paid_to k (paid : list (string * Z)) : Z := zsum_by snd (bfilter (fun ka => String.eqb ka.1 k) paid).

Lemma paid_to_app k l1 l2 : paid_to k (l1 ++ l2) = paid_to k l1 + paid_to k l2.
Proof. unfold paid_to, bfilter. by rewrite List.filter_app, zsum_by_app. Qed.

Lemma paid_to_one send k k' amount : 0 < amount ->
  let p := paid_to k' (confirmed send [(k, amount)]) in 0 <= p /\ (k <> k' -> p = 0) /\ p <= amount.
Proof.
  intros Ha. unfold paid_to, confirmed. cbn [bfilter List.filter fst snd].
  assert (forall b : bool, let p := zsum_by snd (bfilter (fun ka : string * Z => String.eqb ka.1 k') (if b then [(k, amount)] else [])) in
    0 <= p /\ (k <> k' -> p = 0) /\ p <= amount) as Hb; [|apply Hb].
  intros [|]; cbn [bfilter List.filter fst snd]; [destruct (String.eqb_spec k k')|];
    rewrite ?zsum_by_cons, ?zsum_by_nil; cbn [snd]; split_and!; try done; lia.
Qed.

(** One keysend: the row it leaves counts as withdrawn when it was confirmed. *)
Lemma outcome_withdrawn send now k k' amount r row id :
  (r, row) = withdrawal_outcome send now k amount ->
  zsum_by wd_amount_sats (bfilter (withdrawn_row k') [row id]) = paid_to k' (confirmed send [(k, amount)]).
Proof.
  unfold withdrawal_outcome, confirmed, paid_to. intros Ho. cbn [bfilter List.filter fst snd].
  destruct (send k amount) as [p|msg]; [destruct (pr_Status p)|]; simplify_eq;
    cbn [bfilter List.filter fst snd]; unfold withdrawn_row; cbn [wd_node_pubkey wd_status];
    destruct (String.eqb k k'); reflexivity.
Qed.

Lemma wallet_call_covered c h h' paid : wallet_call_run c h = (h', paid) ->
  (forall k, covered k (hb_db h)) ->
  forall k, covered k (hb_db h') /\ withdrawn_sats k (hb_db h') = withdrawn_sats k (hb_db h) + paid_to k paid /\
    earned_sats k (hb_db h') = earned_sats k (hb_db h) /\ paid_sats k (hb_db h') = paid_sats k (hb_db h).
Proof.
  intros Hrun Hcov k. destruct c as [send body v|body query v]; simpl in Hrun.
  - destruct (handleNodeWithdraw _ _ _ _ _) as [[r h1] sent] eqn:Hw. simplify_eq.
    destruct r as [r|]; [|by apply withdraw_answers in Hw].
    apply withdraw_outcomes in Hw as [(-> & -> & _)|(req & a & row & _ & _ & _ & Ha & Hle & _ & -> & Ho & ->)];
      [unfold paid_to; simpl; rewrite zsum_by_nil; split_and!; [done|lia|done..]|].
    apply available_exact in Ha; [|done].
    destruct (Hcov k) as (Hp & Hwd & Hc). pose proof (outcome_withdrawn _ _ _ k _ _ _ (next_rowid (wd_id <$> withdrawals (hb_db h))) Ho) as Hrow.
    assert (0 <= paid_to k (confirmed send [(wr_Pubkey req, wr_AmountSats req)]) /\
      (wr_Pubkey req <> k -> paid_to k (confirmed send [(wr_Pubkey req, wr_AmountSats req)]) = 0) /\
      paid_to k (confirmed send [(wr_Pubkey req, wr_AmountSats req)]) <= wr_AmountSats req) as (Hn & Hother & Hmost).
    { apply paid_to_one. lia. }
    assert (withdrawn_sats k (hb_db (with_db (set_withdrawals (hb_db h) (withdrawals (hb_db h) ++
      [row (next_rowid (wd_id <$> withdrawals (hb_db h)))])) h)) =
      withdrawn_sats k (hb_db h) + paid_to k (confirmed send [(wr_Pubkey req, wr_AmountSats req)])) as Hwd'.
    { rewrite <-Hrow. unfold withdrawn_sats, bfilter. cbn [hb_db with_db withdrawals set_withdrawals].
      by rewrite List.filter_app, zsum_by_app. }
    unfold covered. rewrite Hwd'. change (earned_sats k (hb_db (with_db _ h))) with (earned_sats k (hb_db h)).
    change (paid_sats k (hb_db (with_db _ h))) with (paid_sats k (hb_db h)). split_and!; try lia.
    destruct (String.eqb_spec (wr_Pubkey req) k) as [Heq|Hne]; [rewrite Heq in *; lia|]. specialize (Hother Hne). lia.
  - simplify_eq. unfold paid_to. simpl. rewrite zsum_by_nil, Z.add_0_r. specialize (Hcov k).
    unfold handleNodeWallet. destruct (negb (hc_earnings cfg)); [done|]. destruct (vs_method v); [| |done..].
    + destruct (negb _); [done|]. by destruct (GetNodeWallet _ _).
    + destruct body as [req|]; [|done]. by destruct (_ || _).
Qed.

(** C22: withdrawals never exceed earnings. However withdrawal and wallet requests
    follow one another and whatever the Lightning client answers, the keysends it
    confirmed to a node add up to the growth of its recorded withdrawals, and
    never to more than the node had earned and not been paid. *)
Theorem withdrawals_covered cs h h' paid
    (Hcov : forall k, covered k (hb_db h)) (Hrun : wallet_calls_run cs h = (h', paid)) :
  forall k, covered k (hb_db h') /\ withdrawn_sats k (hb_db h') = withdrawn_sats k (hb_db h) + paid_to k paid /\
    paid_to k paid <= earned_sats k (hb_db h) - paid_sats k (hb_db h) - withdrawn_sats k (hb_db h).
Proof.
  assert (forall k, covered k (hb_db h') /\ withdrawn_sats k (hb_db h') = withdrawn_sats k (hb_db h) + paid_to k paid /\
    earned_sats k (hb_db h') = earned_sats k (hb_db h) /\ paid_sats k (hb_db h') = paid_sats k (hb_db h)) as Hall.
  { revert h paid Hcov Hrun. induction cs as [|c cs IH]; simpl; intros h paid Hcov Hrun k.
    - simplify_eq. unfold paid_to. simpl. rewrite zsum_by_nil. split_and!; [done|lia|done..].
    - destruct (wallet_call_run c h) as [h1 p1] eqn:H1. destruct (wallet_calls_run cs h1) as [h2 p2] eqn:H2.
      simplify_eq. pose proof (wallet_call_covered _ _ _ _ H1 Hcov) as Hone.
      destruct (Hone k) as (_ & Hw1 & He1 & Hp1).
      destruct (IH _ _ (fun k => proj1 (Hone k)) H2 k) as (Hc2 & Hw2 & He2 & Hp2).
      rewrite paid_to_app. split_and!; [done|lia|lia|lia]. }
  intros k. destruct (Hall k) as (Hc & Hw & He & Hp). split_and!; [done..|]. destruct Hc as (_ & _ & Hc). lia.
Qed.
End withdrawals.

(** *** Vouchers over time *)
Section refresh.
Context `{SchnorrLaws} `{AttestationJsonLaws} (cfg : hub_config).
Implicit Types (v : visit) (h : hub_state) (att new : Attestation).

(** The request of a node's key for the voucher it holds. *)
Definition refresh_visit (ns : Z) : visit := mkVisit (mkCallCtx ns "" "" true) POST.
Definition refresh_request (nodeKP : KeyPair) (voucher : string) (ts : Z) : option AttestRefreshRequest :=
  mkRefresh voucher ts <$> SignRefreshRequest nodeKP voucher ts.

(** Everything the answer to a refresh request rests on. *)
Record renewed (kp : KeyPair) (now_ns : Z) h (req : AttestRefreshRequest) att new (encoded : string) : Prop := {
  rn_old : json_Decode (rf_Attestation req) = Some att;
  rn_issuer : VerifySignature (PubkeyHex kp) att = Ok tt;
  rn_owner : VerifyRefreshRequest (now_ns / 1000000000) (at_NodePubkey att) (rf_Attestation req) (rf_Timestamp req)
               (rf_Signature req) = Ok tt;
  rn_lease : hc_leases cfg = true -> IsLeaseActive now_ns (at_NodePubkey att) (hb_db h) = true;
  rn_key : 16 <= slen (at_NodePubkey att);
  rn_new : CreateAttestation kp (now_ns / 1000000000) (at_NodePubkey att) (at_NodeWGPubkey att) (at_OperatorID att)
             (at_AllowedRoles att) = Ok new;
  rn_encoded : json_Encode new = Some encoded
}.

Lemma refresh_answer kp req v h encoded : hc_hubKP cfg = Some kp ->
  (handleAttestRefresh cfg (Some req) v h).1 = Some (Reply StatusOK encoded) <->
  vs_method v = POST /\ exists att new, renewed kp (cx_ns (vs_call v)) h req att new encoded.
Proof.
  intros Hkp. unfold handleAttestRefresh, only. rewrite Hkp. case_bool_decide as Hm; simpl; [|naive_solver].
  split.
  - intros Hr. split; [done|]. destruct (json_Decode _) as [att|] eqn:Hd; [|done].
    destruct (VerifySignature _ att) as [[]|] eqn:Hv; simpl in Hr; [|done].
    destruct (VerifyRefreshRequest _ _ _ _ _) as [[]|] eqn:Hq; simpl in Hr; [|done].
    destruct (hc_leases cfg && _) eqn:Hl; [unfold logged in Hr; by destruct (_ <? _)|].
    destruct (CreateAttestation _ _ _ _ _ _) as [new|] eqn:Hc; [|done].
    destruct (json_Encode new) as [e|] eqn:He; [|done].
    unfold logged in Hr. destruct (Z.ltb_spec (slen (at_NodePubkey att)) 16); simplify_eq.
    exists att, new. split; try done. intros Hon. rewrite Hon in Hl. simpl in Hl. by bprop.
  - intros (_ & att & new & []). rewrite rn_old0, rn_issuer0, rn_owner0, rn_new0, rn_encoded0. simpl.
    assert (hc_leases cfg && negb (IsLeaseActive (cx_ns (vs_call v)) (at_NodePubkey att) (hb_db h)) = false) as ->.
    { destruct (hc_leases cfg) eqn:Hl; [|done]. by rewrite rn_lease0. }
    unfold logged. by destruct (Z.ltb_spec (slen (at_NodePubkey att)) 16); [lia|].
Qed.

Lemma VerifySignature_Ok hub att : VerifySignature hub att = Ok tt <->
  at_Protocol att = attestation_protocol /\ at_HubPubkey att = hub /\ sealed att = Ok tt.
Proof.
  unfold VerifySignature. destruct (String.eqb_spec (at_Protocol att) attestation_protocol); simpl; [|naive_solver].
  destruct (String.eqb_spec (at_HubPubkey att) hub); simpl; naive_solver.
Qed.

(** Refreshing a voucher. The hub's answer to a refresh is a voucher it signed
    for the same node, WireGuard key, operator and roles, valid six hours from
    now; it answers only a request carrying a voucher this hub signed, expired or
    not, and a signature of it by the node's own key, from the last five minutes
    or the one overflowing second, while the node's lease runs. Nothing changes
    at the hub. *)
Theorem attest_refresh_outcomes kp body v h encoded
    (Hkp : hc_hubKP cfg = Some kp) (Hown : own_key kp)
    (Hnow : 0 <= cx_ns (vs_call v) / 1000000000 < 2 ^ 62)
    (Hrun : (handleAttestRefresh cfg body v h).1 = Some (Reply StatusOK encoded)) :
  let now := cx_ns (vs_call v) / 1000000000 in
  exists req att new, body = Some req /\ json_Decode (rf_Attestation req) = Some att /\
    at_HubPubkey att = PubkeyHex kp /\ sealed att = Ok tt /\
    signed_by (at_NodePubkey att) (rf_Signature req)
      (sha256_Sum256 (refresh_message (rf_Attestation req) (rf_Timestamp req))) /\
    (in_i64 (rf_Timestamp req) -> Z.abs (now - rf_Timestamp req) <= 300 \/ rf_Timestamp req = now - 2 ^ 63) /\
    (hc_leases cfg = true -> IsLeaseActive (cx_ns (vs_call v)) (at_NodePubkey att) (hb_db h) = true) /\
    json_Decode encoded = Some new /\ VerifySignature (PubkeyHex kp) new = Ok tt /\
    at_OperatorID new = at_OperatorID att /\
    (forall trusted t, VerifyAttestation trusted t new = Ok tt <-> PubkeyHex kp ∈ trusted /\ t <= now + AttestationTTL) /\
    (forall pubkey wg role, VerifyNodeBinding pubkey wg role new = VerifyNodeBinding pubkey wg role att) /\
    (handleAttestRefresh cfg body v h).2 = h.
Proof.
  intros now. destruct body as [req|]; [|unfold handleAttestRefresh, only in Hrun; rewrite Hkp in Hrun;
    by destruct (negb _)].
  apply (refresh_answer kp) in Hrun as (_ & att & new & []); [|done].
  pose proof (CreateAttestation_Ok _ _ _ _ _ _ _ Hown rn_new0) as (Hp & Hh & Hn & Hw & Ho & Hr & Hi & He & Hs).
  apply VerifySignature_Ok in rn_issuer0 as (_ & Hhub & Hseal).
  assert (300 <? abs_i64 (now -i rf_Timestamp req) = false /\ signed_by (at_NodePubkey att) (rf_Signature req)
    (sha256_Sum256 (refresh_message (rf_Attestation req) (rf_Timestamp req)))) as [Hwin Hsig].
  { unfold VerifyRefreshRequest in rn_owner0. fold now in rn_owner0. destruct (300 <? _); [done|].
    apply check_seal_Ok in rn_owner0 as (? & [= <-] & ?). done. }
  exists req, att, new. split_and!; try done.
  - intros Hts. apply abs_window; [done..|]. by bprop.
  - by apply law_encode_decode.
  - by apply VerifySignature_Ok.
  - intros trusted t. by apply (attestation_lifecycle kp now (at_NodePubkey att) (at_NodeWGPubkey att) (at_OperatorID att)
      (at_AllowedRoles att) new trusted t "" "" "").
  - intros pubkey wg role. unfold VerifyNodeBinding. by rewrite Hn, Hw, Hr.
  - unfold handleAttestRefresh, only. by destruct (negb _).
Qed.
(** A node that refreshes whenever it likes. *)
Fixpoint refresh_run (nodeKP : KeyPair) h (times : list Z) (voucher : string) : option string :=
  match times with
  | [] => Some voucher
  | ns :: r =>
      req ← refresh_request nodeKP voucher (ns / 1000000000);
      match (handleAttestRefresh cfg (Some req) (refresh_visit ns) h).1 with
      | Some (Reply _ encoded) => refresh_run nodeKP h r encoded
      | _ => None
      end
  end.

(** A voucher of this hub for this node. *)
Definition held (kp nodeKP : KeyPair) (wg op : string) (roles : list string) (voucher : string) : Prop :=
  exists att, json_Decode voucher = Some att /\ VerifySignature (PubkeyHex kp) att = Ok tt /\
    at_NodePubkey att = PubkeyHex nodeKP /\ at_NodeWGPubkey att = wg /\ at_OperatorID att = op /\ at_AllowedRoles att = roles.

Lemma refresh_held kp nodeKP wg op roles h ns voucher
    (Hkp : hc_hubKP cfg = Some kp) (Hown : own_key kp) (Hnode : own_key nodeKP)
    (Hsigns : forall msg, is_Some (schnorr_Sign (nk_PrivateKey nodeKP) msg))
    (Hlease : IsLeaseActive ns (PubkeyHex nodeKP) (hb_db h) = true)
    (Hissue : exists new enc, CreateAttestation kp (ns / 1000000000) (PubkeyHex nodeKP) wg op roles = Ok new /\ json_Encode new = Some enc) :
  held kp nodeKP wg op roles voucher ->
  exists req new enc, refresh_request nodeKP voucher (ns / 1000000000) = Some req /\
    (handleAttestRefresh cfg (Some req) (refresh_visit ns) h).1 = Some (Reply StatusOK enc) /\
    CreateAttestation kp (ns / 1000000000) (PubkeyHex nodeKP) wg op roles = Ok new /\
    json_Decode enc = Some new /\ held kp nodeKP wg op roles enc.
Proof.
  intros (att & Hd & Hv & Hn & Hw & Ho & Hr). destruct Hissue as (new & enc & Hc & He).
  unfold refresh_request, SignRefreshRequest.
  destruct (Hsigns (sha256_Sum256 (refresh_message voucher (ns / 1000000000)))) as [sg Hs]. rewrite Hs.
  cbn [fmap option_fmap option_map]. eexists _, new, enc. split; [done|]. apply law_encode_decode in He as Hdec.
  assert (held kp nodeKP wg op roles enc) as Hheld.
  { destruct (CreateAttestation_Ok _ _ _ _ _ _ _ Hown Hc) as (? & ? & ? & ? & ? & ? & ? & ? & ?).
    exists new. split_and!; try done. by apply VerifySignature_Ok. }
  split_and!; try done. apply (refresh_answer kp); [done|]. split; [done|]. exists att, new. split; simpl; try done.
  - unfold VerifyRefreshRequest, sub_i64. rewrite Z.sub_diag. simpl. apply check_seal_Ok. eexists. split; [done|].
    rewrite Hn. by apply own_key_signs.
  - by rewrite Hn.
  - rewrite Hn. unfold slen, PubkeyHex. rewrite hex_encode_length, law_pubkey_length. lia.
  - by rewrite Hn, Hw, Ho, Hr.
Qed.

(** A node is never stranded. As long as its lease runs, a node holding a
    voucher of the hub, expired or not, gets a fresh one every time it asks,
    any number of times, and ends with one that is valid six hours after the
    last. *)
Theorem node_stays_vouched kp nodeKP wg op roles h times last voucher
    (Hkp : hc_hubKP cfg = Some kp) (Hown : own_key kp) (Hnode : own_key nodeKP)
    (Hsigns : forall msg, is_Some (schnorr_Sign (nk_PrivateKey nodeKP) msg))
    (Hissue : forall ns, ns ∈ times ++ [last] -> exists new enc,
       CreateAttestation kp (ns / 1000000000) (PubkeyHex nodeKP) wg op roles = Ok new /\ json_Encode new = Some enc)
    (Hlease : forall ns, ns ∈ times ++ [last] -> IsLeaseActive ns (PubkeyHex nodeKP) (hb_db h) = true)
    (Hheld : held kp nodeKP wg op roles voucher) :
  exists enc new, refresh_run nodeKP h (times ++ [last]) voucher = Some enc /\ json_Decode enc = Some new /\
    (forall trusted t, VerifyAttestation trusted t new = Ok tt <->
       PubkeyHex kp ∈ trusted /\ t <= last / 1000000000 + AttestationTTL) /\
    forall role, role ∈ roles -> VerifyNodeBinding (PubkeyHex nodeKP) wg role new = Ok tt.
Proof.
  revert voucher Hheld. induction times as [|ns times IH]; intros voucher Hheld; cbn [app refresh_run] in *.
  - assert (last ∈ [last]) as Hin by left.
    destruct (refresh_held kp nodeKP wg op roles h last voucher Hkp Hown Hnode Hsigns (Hlease _ Hin) (Hissue _ Hin) Hheld)
      as (req & new & enc & Hreq & Hans & Hc & Hd & _).
    exists enc, new. rewrite Hreq. cbn [mbind option_bind]. rewrite Hans. split_and!; try done.
    + intros trusted t. by apply (attestation_lifecycle kp _ _ _ _ _ new trusted t "" "" "" Hown Hc).
    + intros role Hrole. apply (attestation_lifecycle kp _ _ _ _ _ new [] 0 _ _ role Hown Hc). auto.
  - assert (ns ∈ ns :: times ++ [last]) as Hin by left.
    destruct (refresh_held kp nodeKP wg op roles h ns voucher Hkp Hown Hnode Hsigns (Hlease _ Hin) (Hissue _ Hin) Hheld)
      as (req & new & enc & Hreq & Hans & _ & _ & Hheld').
    rewrite Hreq. cbn [mbind option_bind]. rewrite Hans. apply IH; [|by intros; apply Hlease; right|done].
    intros; apply Hissue. by right.
Qed.
End refresh.

(** ** A node that withdraws *)
Definition node_key : string := PubkeyHex toy_key.
Definition earning_ops : list op :=
  [ OInsertInvoice "t0" "ph" "lnbc1" 500 "1gb" 1000000000 "t9" "1.2.3.4";
    OSettleInvoice "t0" "ph";
    OInsertTicket "t0" "tkt" "ph" 100000000 "mac";
    ORedeemTicket "t0" "tkt" "gw";
    OInsertUsageReport "t1" "sess" "tkt" node_key "entry" 100000000 "t1" "sig";
    OInsertUsageReport "t1" "sess" "tkt" "bob" "exit" 90000000 "t1" "sig" ].
(** The settlement's payout to the node fails for want of a route. *)
Definition failed_env : pay_env := mkEnv (fun _ => false) (fun _ => KsError "no route").
Definition earned_db : DB :=
  (RunSettlement demo_engine failed_env demo_range "t2" "t0" "t5" (run_ops earning_ops empty_db)).1.2.
Definition node_cfg : hub_config := mkHubConfig NewDiscoveryAPI_limits None false None true true.
Definition node_hub : hub_state := mkHub (NewNodeIndex []) ∅ earned_db.
Definition node_visit (m : http_method) : visit := mkVisit (mkCallCtx 0 "t3" "1.2.3.4" true) m.
Definition register : wallet_call := WalletCall (Some (mkWalletReq node_key "n@ln")) "" (node_visit POST).
Definition withdraw (send : keysend) (amount : Z) : wallet_call :=
  WithdrawCall send (Some (mkWithdrawReq node_key amount)) (node_visit POST).
Definition pays : keysend := fun _ _ => Ok (mkPayResult "h7" PaymentSucceeded 0 "").
Definition pending_keysend : keysend := fun _ _ => Ok (mkPayResult "h7" PaymentInFlight 0 "").

Lemma node_hub_covered k : covered k (hb_db node_hub).
Proof.
  assert (Forall (fun p => paid_payout p = false) (payouts earned_db)) as Hp by (vm_compute; repeat constructor).
  assert (Forall (fun s => 0 <= s_amount_sats s) (settlement_entries earned_db)) as Hs
    by (vm_compute; repeat constructor; done).
  assert (withdrawals earned_db = []) as Hw by (vm_compute; reflexivity).
  assert (paid_sats k earned_db = 0) as Hpaid.
  { unfold paid_sats. induction Hp as [|p l Hp1 _ IH]; [done|]. cbn [bfilter List.filter].
    by rewrite Hp1, andb_false_r. }
  unfold covered, withdrawn_sats. cbn [hb_db node_hub]. rewrite Hpaid, Hw. cbn [bfilter List.filter]. rewrite zsum_by_nil.
  split_and!; [lia|lia|]. apply zsum_by_nonneg, Forall_forall. intros s [_ Hin]%elem_of_bfilter.
  by eapply Forall_forall in Hs.
Qed.

Lemma withdraw_outcomes_witness : exists r h' row,
  handleNodeWithdraw node_cfg pays (Some (mkWithdrawReq node_key 1)) (node_visit POST) (wallet_calls_run node_cfg [register] node_hub).1
    = (Some r, h', [(node_key, 1)]) /\
  withdrawals (hb_db h') = [row] /\ r = Reply 200 (WithdrawPaid 1 "h7").
Proof.
  destruct (handleNodeWithdraw node_cfg pays (Some (mkWithdrawReq node_key 1)) (node_visit POST)
    (wallet_calls_run node_cfg [register] node_hub).1) as [[ro h'] sent] eqn:Hrun.
  assert (ro = Some (Reply 200 (WithdrawPaid 1 "h7")) /\ sent = [(node_key, 1)]) as [-> ->].
  { revert Hrun. vm_compute. by intros [= <- _ <-]. }
  destruct (withdraw_outcomes _ _ _ _ _ _ _ _ Hrun)
    as [(_ & Hs & _)|(req & a & row & Hb & _ & _ & _ & _ & _ & _ & Hrow & ->)]; [discriminate|].
  injection Hb as <-. exists (Reply 200 (WithdrawPaid 1 "h7")). eexists _, (row 1). split_and!; [reflexivity| |reflexivity].
  reflexivity.
Defined.

Lemma withdrawals_covered_witness :
  let '(_, paid) := wallet_calls_run node_cfg [register; withdraw pays 1; withdraw pending_keysend 1; withdraw pays 1000] node_hub in
  paid = [(node_key, 1)] /\ paid_to node_key paid <= earned_sats node_key earned_db.
Proof.
  destruct (wallet_calls_run node_cfg [register; withdraw pays 1; withdraw pending_keysend 1; withdraw pays 1000] node_hub)
    as [h' paid] eqn:Hrun.
  destruct (withdrawals_covered _ _ _ _ _ node_hub_covered Hrun node_key) as (_ & _ & Hle).
  split; [|vm_compute in Hle |- *; exact Hle].
  revert Hrun. vm_compute. by intros [= _ <-].
Defined.

(** The settlement engine and the withdrawal endpoint do not know of each other:
    the balance of a failed payout is withdrawn, and the retry pays it again. *)
Theorem withdrawn_then_retried :
  let amount := earned_sats node_key earned_db in
  let '(h, paid) := wallet_calls_run node_cfg [register; withdraw pays amount] node_hub in
  let '(_, _, db, calls) := RetryFailedPayouts crowd_retry_env "t5" (hb_db h) in
  0 < amount /\ paid = [(node_key, amount)] /\
  withdrawn_sats node_key db + paid_sats node_key db = 2 * earned_sats node_key db.
Proof. vm_compute. done. Qed.

(** A withdrawal whose payment is still in flight is recorded as failed, so the
    same balance can be asked for, and sent, again. *)
Theorem in_flight_withdrawn_again :
  let amount := earned_sats node_key earned_db in
  let h := (wallet_calls_run node_cfg [register; withdraw pending_keysend amount] node_hub).1 in
  available_sats node_key (hb_db h) = Ok amount /\
  (handleNodeWithdraw node_cfg pays (Some (mkWithdrawReq node_key amount)) (node_visit POST) h).2 = [(node_key, amount)].
Proof. vm_compute. done. Qed.

(** A hub that leased the node for a day, and the voucher it gave at second 1000. *)
Definition voucher_cfg : hub_config := mkHubConfig NewDiscoveryAPI_limits (Some toy_key) true None false false.
Definition leased_db : DB :=
  (UpsertNodeLease "t0" (mkNodeLease node_key "wg-1" "op-1" ["entry"; "exit"] 0 (86400 * 1000000000) false) empty_db).2.
Definition lease_hub : hub_state := mkHub (NewNodeIndex []) ∅ leased_db.
Definition late : Z := 9000 * 1000000000.

Lemma old_held : held toy_key toy_key "wg-1" "op-1" ["entry"; "exit"] "old".
Proof. exists (toy_made 1000). split_and!; reflexivity. Qed.

Lemma node_stays_vouched_witness : exists enc new,
  refresh_run voucher_cfg toy_key lease_hub [late; late] "old" = Some enc /\ json_Decode enc = Some new /\
  VerifyAttestation [PubkeyHex toy_key] 30600 new = Ok tt /\ VerifyAttestation [PubkeyHex toy_key] 30600 (toy_made 1000) <> Ok tt.
Proof.
  destruct (node_stays_vouched voucher_cfg toy_key toy_key "wg-1" "op-1" ["entry"; "exit"] lease_hub [late] late "old"
    eq_refl eq_refl eq_refl) as (enc & new & Hrun & Hd & Hv & _).
  - intros msg. by eexists.
  - intros ns Hns. assert (ns = late) as -> by (by repeat (apply elem_of_cons in Hns as [->|Hns]; [done|]); apply not_elem_of_nil in Hns).
    exists (toy_made 9000), "new"%string. split; reflexivity.
  - intros ns Hns. assert (ns = late) as -> by (by repeat (apply elem_of_cons in Hns as [->|Hns]; [done|]); apply not_elem_of_nil in Hns).
    vm_compute. reflexivity.
  - exact old_held.
  - exists enc, new. split; [exact Hrun|]. split; [exact Hd|]. split.
    + apply Hv. split; [left|]. vm_compute. discriminate.
    + vm_compute. discriminate.
Defined.

Lemma attest_refresh_outcomes_witness : exists req new,
  refresh_request toy_key "old" 9000 = Some req /\ json_Decode "new" = Some new /\
  (forall trusted t, VerifyAttestation trusted t new = Ok tt <-> PubkeyHex toy_key ∈ trusted /\ t <= 9000 + AttestationTTL) /\
  new = toy_made 9000.
Proof.
  destruct (refresh_request toy_key "old" 9000) as [req|] eqn:Hreq; [|discriminate].
  assert ((handleAttestRefresh voucher_cfg (Some req) (refresh_visit late) lease_hub).1 = Some (Reply StatusOK "new"%string)) as Hrun
    by (injection Hreq as <-; vm_compute; reflexivity).
  assert (0 <= cx_ns (vs_call (refresh_visit late)) / 1000000000 < 2 ^ 62) as Hnow
    by (vm_compute; split; [discriminate|reflexivity]).
  assert (hc_hubKP voucher_cfg = Some toy_key) as Hkp by reflexivity.
  assert (own_key toy_key) as Hown by reflexivity.
  destruct (attest_refresh_outcomes voucher_cfg toy_key (Some req) (refresh_visit late) lease_hub "new" Hkp Hown Hnow Hrun)
    as (req' & att & new & Hb & _ & _ & _ & _ & _ & _ & Hd & _ & _ & Hv & _ & _).
  exists req, new. split; [reflexivity|]. split; [exact Hd|]. split; [|by injection Hd as <-].
  intros trusted t. rewrite (Hv trusted t). change (cx_ns (vs_call (refresh_visit late)) / 1000000000) with (late / 1000000000).
  assert (late / 1000000000 = 9000) as -> by (vm_compute; reflexivity). reflexivity.
Defined.
