(* ===== verification/HubSelector.v ===== *)
(** * HubSelector: verifying the hub's list and drawing a pair
    (src/internal/discovery/selector.go)

    What a client of the discovery API does with the answer to GET /nodes:
    check every signature, split by role, and draw an entry by free capacity and
    an exit of another operator. math/rand is an argument: [shuffle] permutes,
    [intn] answers Intn. A [None] result is a panic. Go's int has 64 bits; the
    clock is read once per request here. *)
From S2P Require Import Prelude Nostr Attestation Selector Discovery.

Inductive pick_error :=
| PFetch | PStatus | PDecode | PNoneVerified | PNoEntries | PNoExits | PNoEntry | PNoExit
| PSameOperator (operator : string).
#[export] Instance pick_error_eq_dec : EqDecision pick_error.
Proof. solve_decision. Defined.

Record NodePair := mkHubPair { hp_Entry : IndexedNode; hp_Exit : IndexedNode }.

(** The answer to GET /nodes; an element of the JSON array may be null. *)
Inductive hub_reply := HubUnreachable | HubStatus | HubMalformed | HubNodes (nodes : list (option IndexedNode)).

Section select.
Context `{Schnorr} `{AttestationJson}.

Record NodeSelector := mkNodeSelector { sl_hubURL : string; sl_trustedHubs : list string }.
Definition NewNodeSelector (hubURL : string) (trustedHubPubkeys : list string) : NodeSelector :=
  mkNodeSelector hubURL trustedHubPubkeys.

(** The checks on one listed node. *)
Definition verified_node (trusted : list string) (now : Z) (node : IndexedNode) : bool :=
  match ix_Event node, ix_Attestation node with
  | Some ev, Some att =>
      is_ok (Verify ev) && is_ok (VerifyAttestation trusted now att) &&
      is_ok (VerifyNodeBinding (ev_Pubkey ev) (n_WGPubkey (ix_Info node)) (role_string (n_Role (ix_Info node))) att)
  | _, _ => false
  end.

(** The loop dereferences every element. *)
Fixpoint verify_loop (trusted : list string) (now : Z) (nodes : list (option IndexedNode)) : option (list IndexedNode) :=
  match nodes with
  | [] => Some []
  | None :: _ => None
  | Some node :: r =>
      verified ← verify_loop trusted now r;
      Some (if verified_node trusted now node then node :: verified else verified)
  end.

Definition fetchAndVerify (s : NodeSelector) (now : Z) (reply : hub_reply) : option (result pick_error (list IndexedNode)) :=
  match reply with
  | HubUnreachable => Some (Err PFetch)
  | HubStatus => Some (Err PStatus)
  | HubMalformed => Some (Err PDecode)
  | HubNodes nodes =>
      verified ← verify_loop (sl_trustedHubs s) now nodes;
      Some (match verified with [] => Err PNoneVerified | _ => Ok verified end)
  end.
Definition FetchNodeList (hubURL : string) (trustedHubs : list string) := fetchAndVerify (NewNodeSelector hubURL trustedHubs).
Definition ParseEventNodeInfo `{NodeCodec} (event : Event) : option NodeInfo := json_NodeInfo (ev_Content event).

(** *** Drawing *)
Definition weight (n : IndexedNode) : Z :=
  let w := n_Capacity (ix_Info n) -i n_Load (ix_Info n) in if w <=? 0 then 1 else w.
Definition totalWeight (nodes : list IndexedNode) : Z := foldl (fun t n => t +i weight n) 0 nodes.

Fixpoint pick_loop (pick : Z) (nodes : list IndexedNode) : option IndexedNode :=
  match nodes with
  | [] => None
  | n :: r => let pick' := pick -i weight n in if pick' <? 0 then Some n else pick_loop pick' r
  end.

(** The node, or nil. Intn panics unless its argument is positive; the fallback
    indexes the first node. *)
Definition weightedSelect (intn : Z -> Z) (nodes : list IndexedNode) : option (option IndexedNode) :=
  let total := totalWeight nodes in
  if total =? 0 then Some None
  else if total <=? 0 then None
  else match pick_loop (intn total) nodes with
       | Some n => Some (Some n)
       | None => match nodes with [] => None | n :: _ => Some (Some n) end
       end.

Definition operator_of (n : IndexedNode) : option string := at_OperatorID <$> ix_Attestation n.

Definition selectDiversePair (shuffle1 shuffle2 : list IndexedNode -> list IndexedNode) (intn1 intn2 : Z -> Z)
    (entries exits : list IndexedNode) : option (result pick_error NodePair) :=
  let entries := shuffle1 entries in
  let exits := shuffle2 exits in
  picked ← weightedSelect intn1 entries;
  match picked with
  | None => Some (Err PNoEntry)
  | Some entry =>
      match bfilter (fun e => negb (bool_decide (operator_of e = operator_of entry))) exits with
      | [] => Some (Err (PSameOperator (default "" (operator_of entry))))
      | exitCandidates =>
          picked2 ← weightedSelect intn2 exitCandidates;
          Some (match picked2 with None => Err PNoExit | Some exit => Ok (mkHubPair entry exit) end)
      end
  end.

Definition entry_capable (n : IndexedNode) : bool := match n_Role (ix_Info n) with RoleEntry | RoleBoth => true | _ => false end.
Definition exit_capable (n : IndexedNode) : bool := match n_Role (ix_Info n) with RoleExit | RoleBoth => true | _ => false end.

Definition SelectPair (shuffle1 shuffle2 : list IndexedNode -> list IndexedNode) (intn1 intn2 : Z -> Z)
    (s : NodeSelector) (now : Z) (reply : hub_reply) : option (result pick_error NodePair) :=
  fetched ← fetchAndVerify s now reply;
  match fetched with
  | Err e => Some (Err e)
  | Ok nodes =>
      let entries := bfilter entry_capable nodes in
      let exits := bfilter exit_capable nodes in
      match entries, exits with
      | [], _ => Some (Err PNoEntries)
      | _, [] => Some (Err PNoExits)
      | _, _ => selectDiversePair shuffle1 shuffle2 intn1 intn2 entries exits
      end
  end.
End select.

(** ** The draw is a raffle *)
#[export] Instance capability_eq_dec : EqDecision TransportCapability.
Proof. solve_decision. Defined.
#[export] Instance role_eq_dec : EqDecision NodeRole.
Proof. solve_decision. Defined.
#[export] Instance nodeinfo_eq_dec : EqDecision NodeInfo.
Proof. solve_decision. Defined.
#[export] Instance event_eq_dec : EqDecision Event.
Proof. solve_decision. Defined.
#[export] Instance indexed_eq_dec : EqDecision IndexedNode.
Proof. solve_decision. Defined.

Section raffle.
Implicit Types (nodes : list IndexedNode).

(** A ticket per unit of free capacity, one for a full node. *)
Definition raffle nodes : list IndexedNode := nodes ≫= fun n => replicate (Z.to_nat (weight n)) n.
Definition occurrences (m : IndexedNode) nodes : nat := length (bfilter (fun n => bool_decide (n = m)) nodes).

Lemma weight_pos n : 0 < weight n.
Proof. unfold weight. destruct (Z.leb_spec (n_Capacity (ix_Info n) -i n_Load (ix_Info n)) 0); lia. Qed.

Lemma weights_nonneg nodes : 0 <= zsum_by weight nodes.
Proof. apply zsum_by_nonneg, Forall_forall. intros n _. pose proof (weight_pos n). lia. Qed.

Lemma raffle_length nodes : Z.of_nat (length (raffle nodes)) = zsum_by weight nodes.
Proof.
  induction nodes as [|n r IH]; [done|]. pose proof (weight_pos n). unfold raffle in *.
  cbn [mbind list_bind]. rewrite length_app, length_replicate, zsum_by_cons. lia.
Qed.

Lemma totalWeight_exact nodes : zsum_by weight nodes < 2 ^ 63 -> totalWeight nodes = zsum_by weight nodes.
Proof.
  intros Hlt. unfold totalWeight.
  assert (forall acc, 0 <= acc -> acc + zsum_by weight nodes < 2 ^ 63 ->
    foldl (fun t n => t +i weight n) acc nodes = acc + zsum_by weight nodes) as Hfold.
  { clear Hlt. induction nodes as [|n r IH]; intros acc Hacc Hlt; simpl; [rewrite zsum_by_nil; lia|].
    rewrite zsum_by_cons in *. pose proof (weight_pos n). pose proof (weights_nonneg r).
    assert (acc +i weight n = acc + weight n) as -> by (apply wrap_i64_id; unfold in_i64; lia).
    rewrite IH; lia. }
  rewrite Hfold; lia.
Qed.

Lemma pick_loop_raffle pick nodes : 0 <= pick < zsum_by weight nodes -> zsum_by weight nodes < 2 ^ 63 ->
  pick_loop pick nodes = raffle nodes !! Z.to_nat pick.
Proof.
  revert pick. induction nodes as [|n r IH]; intros pick Hp Hlt; [rewrite zsum_by_nil in Hp; lia|].
  rewrite zsum_by_cons in *. pose proof (weight_pos n). pose proof (weights_nonneg r).
  unfold raffle. cbn [mbind list_bind pick_loop].
  assert (pick -i weight n = pick - weight n) as -> by (apply wrap_i64_id; unfold in_i64; lia).
  destruct (Z.ltb_spec (pick - weight n) 0).
  - rewrite lookup_app_l by (rewrite length_replicate; lia). symmetry. apply lookup_replicate. split; [done|lia].
  - rewrite IH by lia. rewrite lookup_app_r by (rewrite length_replicate; lia). unfold raffle. f_equal.
    rewrite length_replicate. lia.
Qed.

Lemma raffle_nonempty nodes : nodes <> [] -> 0 < zsum_by weight nodes.
Proof.
  destruct nodes as [|n r]; [done|]. rewrite zsum_by_cons. pose proof (weight_pos n). pose proof (weights_nonneg r). lia.
Qed.

Lemma raffle_occurrences m nodes : Z.of_nat (occurrences m (raffle nodes)) = weight m * Z.of_nat (occurrences m nodes).
Proof.
  unfold occurrences, raffle, bfilter. induction nodes as [|n r IH]; [simpl; lia|]. cbn [mbind list_bind].
  rewrite List.filter_app, length_app, Nat2Z.inj_add, IH. cbn [List.filter]. pose proof (weight_pos n).
  assert (Z.of_nat (length (List.filter (fun x => bool_decide (x = m)) (replicate (Z.to_nat (weight n)) n))) =
    if bool_decide (n = m) then weight n else 0) as ->.
  { rewrite <-(Z2Nat.id (weight n)) at 2 by lia. induction (Z.to_nat (weight n)) as [|k IHk]; simpl; [by case_bool_decide|].
    case_bool_decide; simpl; lia. }
  case_bool_decide as Heq; [subst; cbn [length]|]; lia.
Qed.

(** The weighted draw. weightedSelect is a raffle in which each listed node
    holds as many tickets as it has free capacity, and a full node one: it
    returns the node holding the ticket Intn draws, so a node's chance is its
    share of the free capacity, unless the total leaves int. *)
Theorem weightedSelect_raffle intn nodes
    (Hne : nodes <> []) (Hfit : zsum_by weight nodes < 2 ^ 63)
    (Hintn : forall n, 0 < n -> 0 <= intn n < n) :
  let tickets := raffle nodes in
  (exists n, weightedSelect intn nodes = Some (Some n) /\ n ∈ nodes /\
    tickets !! Z.to_nat (intn (Z.of_nat (length tickets))) = Some n) /\
  forall m, Z.of_nat (occurrences m tickets) = weight m * Z.of_nat (occurrences m nodes) /\
    (0 <= n_Load (ix_Info m) <= n_Capacity (ix_Info m) -> n_Capacity (ix_Info m) < 2 ^ 63 ->
     weight m = Z.max 1 (n_Capacity (ix_Info m) - n_Load (ix_Info m))).
Proof.
  intros tickets. split.
  - pose proof (raffle_nonempty _ Hne) as Hpos. pose proof (Hintn _ Hpos) as Hpick.
    unfold weightedSelect. rewrite totalWeight_exact by done.
    destruct (Z.eqb_spec (zsum_by weight nodes) 0); [lia|]. destruct (Z.leb_spec (zsum_by weight nodes) 0); [lia|].
    rewrite pick_loop_raffle by done. unfold tickets. rewrite raffle_length.
    destruct (lookup_lt_is_Some_2 (raffle nodes) (Z.to_nat (intn (zsum_by weight nodes)))) as [x Hx];
      [pose proof (raffle_length nodes); lia|].
    rewrite Hx. exists x. split_and!; [done| |done].
    apply list_elem_of_lookup_2, list_elem_of_bind in Hx as (n' & Hin & Hn').
    by apply elem_of_replicate in Hin as [<- _].
  - intros m. split; [apply raffle_occurrences|]. intros Hload Hcap. unfold weight.
    assert (n_Capacity (ix_Info m) -i n_Load (ix_Info m) = n_Capacity (ix_Info m) - n_Load (ix_Info m)) as ->
      by (apply wrap_i64_id; unfold in_i64; lia).
    destruct (Z.leb_spec (n_Capacity (ix_Info m) - n_Load (ix_Info m)) 0); lia.
Qed.
End raffle.

(** ** What a client ends up with *)
Section pairs.
Context `{Schnorr} `{AttestationJson}.
Implicit Types (nodes : list IndexedNode).

Lemma verify_loop_filter trusted now nodes :
  verify_loop trusted now (Some <$> nodes) = Some (bfilter (verified_node trusted now) nodes).
Proof. induction nodes as [|n r IH]; [done|]. csimpl. rewrite IH. simpl. by destruct (verified_node _ _ n). Qed.

Lemma weights_bfilter (p : IndexedNode -> bool) nodes : zsum_by weight (bfilter p nodes) <= zsum_by weight nodes.
Proof.
  unfold bfilter. induction nodes as [|n r IH]; [done|]. simpl. pose proof (weight_pos n).
  destruct (p n); rewrite ?zsum_by_cons; lia.
Qed.

Lemma weightedSelect_in intn nodes : nodes <> [] -> zsum_by weight nodes < 2 ^ 63 ->
  (forall n, 0 < n -> 0 <= intn n < n) -> exists n, weightedSelect intn nodes = Some (Some n) /\ n ∈ nodes.
Proof. intros Hne Hfit Hi. destruct (weightedSelect_raffle intn nodes Hne Hfit Hi) as [(n & ? & ? & _) _]. eauto. Qed.

(** A node whose proofs the client has checked. *)
Definition checked trusted now nodes (n : IndexedNode) : Prop := n ∈ nodes /\ verified_node trusted now n = true.

Lemma elem_of_checked trusted now nodes n p :
  n ∈ bfilter p (bfilter (verified_node trusted now) nodes) <-> checked trusted now nodes n /\ p n = true.
Proof. unfold checked. rewrite !elem_of_bfilter. tauto. Qed.

Lemma bfilter_nil p nodes : bfilter p nodes = [] <-> forall n, n ∈ nodes -> p n = false.
Proof.
  split.
  - intros Hnil n Hn. apply not_true_iff_false. intros Hp. assert (n ∈ bfilter p nodes) as Hin by by apply elem_of_bfilter.
    rewrite Hnil in Hin. by apply not_elem_of_nil in Hin.
  - intros Hall. destruct (bfilter p nodes) as [|n l] eqn:Hf; [done|].
    assert (n ∈ bfilter p nodes) as [Hp Hin]%elem_of_bfilter by (rewrite Hf; left). by rewrite Hall in Hp.
Qed.

Section draws.
Context (shuffle1 shuffle2 : list IndexedNode -> list IndexedNode) (intn1 intn2 : Z -> Z).
Context (Hs1 : forall l, shuffle1 l ≡ₚ l) (Hs2 : forall l, shuffle2 l ≡ₚ l).
Context (Hi1 : forall n, 0 < n -> 0 <= intn1 n < n) (Hi2 : forall n, 0 < n -> 0 <= intn2 n < n).

Lemma diverse_pair entries exits :
  entries <> [] -> zsum_by weight entries < 2 ^ 63 -> zsum_by weight exits < 2 ^ 63 ->
  exists entry, entry ∈ entries /\
    ((exists exit, exit ∈ exits /\ operator_of exit <> operator_of entry /\
        selectDiversePair shuffle1 shuffle2 intn1 intn2 entries exits = Some (Ok (mkHubPair entry exit))) \/
     (forall exit, exit ∈ exits -> operator_of exit = operator_of entry) /\
        selectDiversePair shuffle1 shuffle2 intn1 intn2 entries exits = Some (Err (PSameOperator (default "" (operator_of entry))))).
Proof.
  intros Hne Hfit1 Hfit2. unfold selectDiversePair.
  destruct (weightedSelect_in intn1 (shuffle1 entries)) as (entry & Hpick & Hin); [|by rewrite Hs1|done|].
  { intros Hnil. apply Hne. apply Permutation_nil. rewrite <-Hnil. apply Hs1. }
  rewrite Hpick. rewrite Hs1 in Hin. exists entry. split; [done|]. cbn [mbind option_bind].
  set (p := fun e => negb (bool_decide (operator_of e = operator_of entry))).
  destruct (bfilter p (shuffle2 exits)) as [|c cs] eqn:Hc; [right|left].
  - split; [|done]. intros exit Hexit. rewrite bfilter_nil in Hc. specialize (Hc exit). rewrite Hs2 in Hc.
    apply Hc in Hexit. unfold p in Hexit. by bprop.
  - destruct (weightedSelect_in intn2 (c :: cs)) as (exit & Hpick2 & Hin2); [done| |done|].
    { rewrite <-Hc. eapply Z.le_lt_trans; [apply weights_bfilter|]. by rewrite Hs2. }
    exists exit. rewrite Hpick2. rewrite <-Hc, elem_of_bfilter, Hs2 in Hin2. destruct Hin2 as [Hp Hexit].
    unfold p in Hp. bprop. done.
Qed.

(** Choosing over the hub's list. Given a list of nodes whose free capacities
    fit an int, SelectPair does not panic. A pair it returns is an entry and an
    exit of different operators, both listed with an event, a voucher of a
    trusted hub and a binding that check out; it fails exactly when no listed
    node checks out, none is entry-capable, none is exit-capable, or every exit
    is of the operator of the entry it drew. *)
Theorem select_pair_outcomes s now nodes (Hfit : zsum_by weight nodes < 2 ^ 63) :
  let ok := checked (sl_trustedHubs s) now nodes in
  exists r, SelectPair shuffle1 shuffle2 intn1 intn2 s now (HubNodes (Some <$> nodes)) = Some r /\
  match r with
  | Ok chosen =>
      ok (hp_Entry chosen) /\ ok (hp_Exit chosen) /\
      entry_capable (hp_Entry chosen) = true /\ exit_capable (hp_Exit chosen) = true /\
      operator_of (hp_Entry chosen) <> operator_of (hp_Exit chosen)
  | Err PNoneVerified => forall n, ~ ok n
  | Err PNoEntries => (exists n, ok n) /\ forall n, ok n -> entry_capable n = false
  | Err PNoExits => (exists n, ok n /\ entry_capable n = true) /\ forall n, ok n -> exit_capable n = false
  | Err (PSameOperator op) =>
      exists entry, ok entry /\ entry_capable entry = true /\ op = default ""%string (operator_of entry) /\
        forall n, ok n -> exit_capable n = true -> operator_of n = operator_of entry
  | Err _ => False
  end.
Proof.
  intros ok. unfold SelectPair, fetchAndVerify. rewrite verify_loop_filter. cbn [mbind option_bind].
  set (l := bfilter (verified_node (sl_trustedHubs s) now) nodes).
  assert (forall n, ok n <-> n ∈ l) as Hok by (intros n; unfold ok, checked, l; rewrite elem_of_bfilter; tauto).
  destruct l as [|n0 l0] eqn:Hl.
  { eexists. split; [done|]. intros n. rewrite Hok. apply not_elem_of_nil. }
  rewrite <-Hl in *. assert (ok n0) as Hn0 by (apply Hok; rewrite Hl; left).
  assert (zsum_by weight l <= zsum_by weight nodes) as Hw by apply weights_bfilter.
  destruct (bfilter entry_capable l) as [|e es] eqn:He.
  { rewrite bfilter_nil in He. eexists. split; [done|]. split; [by exists n0|]. intros n ?%Hok. auto. }
  assert (e ∈ bfilter entry_capable l) as [Hec Hel]%elem_of_bfilter by (rewrite He; left).
  destruct (bfilter exit_capable l) as [|x xs] eqn:Hx.
  { rewrite bfilter_nil in Hx. eexists. split; [done|]. split; [exists e; by rewrite Hok|]. intros n ?%Hok. auto. }
  rewrite <-He, <-Hx.
  destruct (diverse_pair (bfilter entry_capable l) (bfilter exit_capable l)) as (entry & Hin & Hcase).
  { by rewrite He. }
  { pose proof (weights_bfilter entry_capable l). lia. }
  { pose proof (weights_bfilter exit_capable l). lia. }
  apply elem_of_bfilter in Hin as [Hcap Hin%Hok].
  destruct Hcase as [(exit & [Hxc Hxin%Hok]%elem_of_bfilter & Hop & Hrun)|[Hall Hrun]].
  - eexists. split; [exact Hrun|]. simpl. split_and!; try done.
  - eexists. split; [exact Hrun|]. simpl. exists entry. split_and!; try done.
    intros n ?%Hok ?. apply Hall. by apply elem_of_bfilter.
Qed.
End draws.

(** Everything a hub lists from its own index passes the check of a client that
    trusts the hubs the index trusts, until its voucher expires. *)
Theorem hub_list_checks `{NodeCodec} range trusted idx now t trusted' n
    (Hrange : fair_order range) (Hrun : rtc (index_step trusted) (NewNodeIndex trusted) idx)
    (Htrust : forall hub, hub ∈ trusted -> hub ∈ trusted')
    (Hlisted : n ∈ ListOnline range (PruneOffline now idx).2) :
  exists att, ix_Attestation n = Some att /\
    (verified_node trusted' t n = true <-> t <= at_ExpiresAt att).
Proof.
  pose proof (index_run_ok _ _ Hrun) as [_ Hok].
  unfold ListOnline in Hlisted. rewrite elem_of_bfilter, elem_of_range in Hlisted by done.
  destruct Hlisted as (_ & key & Hn). simpl in Hn. rewrite lookup_fmap, fmap_Some in Hn. destruct Hn as (n0 & Hn0 & ->).
  destruct (Hok _ _ Hn0) as (ev & att & Hv).
  assert (vetted trusted key (if expired now n0 then take_offline n0 else n0) ev att) as Hv'
    by (destruct (expired now n0); [by apply vetted_offline|done]).
  set (n := if expired now n0 then take_offline n0 else n0) in *. clearbody n.
  destruct Hv' as [Hev Hatt Hkey _ Hsig _ Htr _ Hbnd _ _].
  exists att. split; [done|]. unfold verified_node. rewrite Hev, Hatt, Hsig, Hkey, Hbnd.
  apply VerifyAttestation_Ok in Htr as (Hp & _ & Hh & Hs). simpl. rewrite andb_true_r.
  assert (is_ok (VerifyAttestation trusted' t att) = true <-> VerifyAttestation trusted' t att = Ok tt) as ->
    by (destruct (VerifyAttestation trusted' t att) as [[]|]; simpl; naive_solver).
  rewrite VerifyAttestation_Ok. naive_solver.
Qed.

(** The checks bind a node's key, WireGuard key and role, and nothing else the
    hub sends about it: any endpoint and connect URL pass. *)
Theorem endpoint_not_bound trusted now n endpoint url :
  verified_node trusted now (mkIndexed (with_endpoint endpoint url (ix_Info n)) (ix_Event n) (ix_Attestation n)
    (ix_LastSeen n) (ix_Online n)) = verified_node trusted now n.
Proof. reflexivity. Qed.
End pairs.

(** ** Two nodes *)
Definition listed_as (role : NodeRole) (op : string) (capacity : Z) : IndexedNode :=
  mkIndexed (mkNode op op op "192.0.2.1:51820" "" [] "" 0 100 100 0 capacity role "1" "" "") None
    (Some (mkAttestation attestation_protocol "hub" op op op ["both"] 0 100 "" "")) 0 true.

Lemma weightedSelect_raffle_witness : exists n,
  weightedSelect (fun _ => 10) [listed_as RoleEntry "a" 10; listed_as RoleEntry "b" 5] = Some (Some n) /\
  n = listed_as RoleEntry "b" 5.
Proof.
  destruct (weightedSelect_raffle (fun t => if 10 <? t then 10 else 0) [listed_as RoleEntry "a" 10; listed_as RoleEntry "b" 5])
    as [(n & Hw & _ & Ht) _]; [done|by vm_compute|intros n Hn; destruct (Z.ltb_spec 10 n); lia|].
  exists n. split; [exact Hw|]. vm_compute in Ht. by injection Ht as <-.
Defined.

(** Capacities are announced by the nodes and only bounded below: two of 2^62
    make the total negative, and Intn panics in every client. *)
Theorem capacity_overflow_panics intn :
  weightedSelect intn [listed_as RoleEntry "a" (2 ^ 62); listed_as RoleEntry "b" (2 ^ 62)] = None.
Proof. reflexivity. Qed.

(** Entry "a" and exits "a" and "b" can be paired, not from entry "b". *)
Theorem pair_given_up :
  selectDiversePair (fun l => l) (fun l => l) (fun _ => 1) (fun _ => 0)
    [listed_as RoleEntry "a" 1; listed_as RoleBoth "b" 1] [listed_as RoleBoth "b" 1] = Some (Err (PSameOperator "b")) /\
  selectDiversePair (fun l => l) (fun l => l) (fun _ => 0) (fun _ => 0)
    [listed_as RoleEntry "a" 1; listed_as RoleBoth "b" 1] [listed_as RoleBoth "b" 1] =
  Some (Ok (mkHubPair (listed_as RoleEntry "a" 1) (listed_as RoleBoth "b" 1))).
Proof. split; reflexivity. Qed.

(** Two nodes of one key, vouched for under two operators. *)
Definition proven (role : NodeRole) (op : string) : IndexedNode :=
  mkIndexed (mkNode op (PubkeyHex toy_key) toy_wgkey "192.0.2.1:51820" "" [] "" 0 100 100 3 10 role "1" "" "")
    (Some toy_announcement)
    (Some (with_seal (at_ID toy_voucher) (at_Signature toy_voucher)
      (mkAttestation attestation_protocol (PubkeyHex toy_key) (PubkeyHex toy_key) toy_wgkey op ["both"] 1000 22600 "" "")))
    toy_now true.
Definition toy_list : list IndexedNode := [proven RoleEntry "op-1"; proven RoleExit "op-2"].
Definition toy_selector : NodeSelector := NewNodeSelector "http://hub" toy_hubs.

Lemma select_pair_outcomes_witness : exists chosen,
  @SelectPair _ voucher_json (fun l => l) (fun l => l) (fun _ => 0) (fun _ => 0) toy_selector 2000 (HubNodes (Some <$> toy_list)) =
    Some (Ok chosen) /\ operator_of (hp_Entry chosen) <> operator_of (hp_Exit chosen).
Proof.
  destruct (@select_pair_outcomes _ voucher_json (fun l => l) (fun l => l) (fun _ => 0) (fun _ => 0)
    (fun _ => reflexivity _) (fun _ => reflexivity _) ltac:(lia) ltac:(lia) toy_selector 2000 toy_list) as (r & Hrun & Hr);
    [by vm_compute|].
  destruct r as [chosen|e].
  - exists chosen. split; [exact Hrun|]. apply Hr.
  - exfalso. vm_compute in Hrun. discriminate.
Defined.

Lemma hub_list_checks_witness : exists n att, ix_Attestation n = Some att /\
  n ∈ ListOnline toy_order (PruneOffline (toy_now + OnlineTTL) toy_indexed).2 /\
  @verified_node _ voucher_json toy_hubs 22600 n = true.
Proof.
  set (n := mkIndexed toy_listed (Some toy_announcement) (Some toy_voucher) toy_now true).
  assert (ListOnline toy_order (PruneOffline (toy_now + OnlineTTL) toy_indexed).2 = [n]) as Hl by (vm_compute; reflexivity).
  assert (n ∈ ListOnline toy_order (PruneOffline (toy_now + OnlineTTL) toy_indexed).2) as Hin by (rewrite Hl; left).
  destruct (hub_list_checks (H0 := voucher_json) toy_order toy_hubs toy_indexed (toy_now + OnlineTTL) 22600 toy_hubs n
    (fun g => reflexivity _) (rtc_once _ _ (is_event toy_hubs toy_now toy_announcement _ _ _ (surjective_pairing _)))
    (fun _ Hhub => Hhub) Hin) as (att & Hatt & Hv).
  exists n, att. split; [exact Hatt|]. split; [exact Hin|]. apply Hv. injection Hatt as <-. vm_compute. discriminate.
Defined.
