(* ===== verification/Breaker.v ===== *)
(** * Breaker: the circuit breaker around the Lightning client
    (src/internal/lightning/circuit_breaker.go)

    allowRequest and recordResult run between other goroutines' steps: the state
    is an atomic word, the counters are behind a mutex, and each of their
    critical sections is one step here. The background probe is a loop that
    ticks. Times are nanoseconds; the wrapped client's answers are arguments. *)
From S2P Require Import Prelude.

Inductive CircuitState := CircuitClosed | CircuitOpen | CircuitHalfOpen.
#[export] Instance CircuitState_eq_dec : EqDecision CircuitState.
Proof. solve_decision. Defined.

Record CircuitBreakerConfig := mkBreakerConfig {
  bc_FailureThreshold : Z;
  bc_OpenTimeout : Z;
  bc_ProbeInterval : Z;
  bc_HalfOpenMax : Z
}.
Definition defaultCBConfig : CircuitBreakerConfig := mkBreakerConfig 3 (30 * 1000000000) (15 * 1000000000) 1.

(** A probe goroutine holds the stop channel it was started with, and is either
    in its select or waiting for the client. *)
Record probe := mkProbe { pb_chan : nat; pb_asking : bool }.

Record CircuitBreaker := mkBreaker {
  cb_state : CircuitState;
  cb_failCount : Z;
  cb_lastFailure : Z;
  cb_lastStateChange : Z;
  cb_halfOpenCount : Z;
  cb_stopProbe : nat;      (* the current channel *)
  cb_probeOnce : bool;     (* probeOnce has run *)
  cb_probes : list probe   (* the goroutines running *)
}.

(** Non-positive settings fall back to the defaults. *)
Definition NewCircuitBreaker (cfgs : option CircuitBreakerConfig) (now : Z) : CircuitBreakerConfig * CircuitBreaker :=
  let positive v d := if v <=? 0 then d else v in
  let cfg := match cfgs with
             | None => defaultCBConfig
             | Some c =>
                 mkBreakerConfig (positive (bc_FailureThreshold c) 3) (positive (bc_OpenTimeout c) (30 * 1000000000))
                   (positive (bc_ProbeInterval c) (15 * 1000000000)) (positive (bc_HalfOpenMax c) 1)
             end in
  (cfg, mkBreaker CircuitClosed 0 (-62135596800 * 1000000000) now 0 0 false []).

Section breaker.
Context (cfg : CircuitBreakerConfig).
Implicit Types (cb : CircuitBreaker) (now : Z).

Definition set_state st cb := mkBreaker st (cb_failCount cb) (cb_lastFailure cb) (cb_lastStateChange cb)
  (cb_halfOpenCount cb) (cb_stopProbe cb) (cb_probeOnce cb) (cb_probes cb).
Definition set_fails n cb := mkBreaker (cb_state cb) n (cb_lastFailure cb) (cb_lastStateChange cb)
  (cb_halfOpenCount cb) (cb_stopProbe cb) (cb_probeOnce cb) (cb_probes cb).
Definition set_failed_at t cb := mkBreaker (cb_state cb) (cb_failCount cb) t (cb_lastStateChange cb)
  (cb_halfOpenCount cb) (cb_stopProbe cb) (cb_probeOnce cb) (cb_probes cb).
Definition set_changed_at t cb := mkBreaker (cb_state cb) (cb_failCount cb) (cb_lastFailure cb) t
  (cb_halfOpenCount cb) (cb_stopProbe cb) (cb_probeOnce cb) (cb_probes cb).
Definition set_half_open n cb := mkBreaker (cb_state cb) (cb_failCount cb) (cb_lastFailure cb) (cb_lastStateChange cb)
  n (cb_stopProbe cb) (cb_probeOnce cb) (cb_probes cb).
Definition set_probing ch once ps cb := mkBreaker (cb_state cb) (cb_failCount cb) (cb_lastFailure cb)
  (cb_lastStateChange cb) (cb_halfOpenCount cb) ch once ps.

(** *** The probe goroutine's life *)
Definition startProbe cb : CircuitBreaker :=
  if cb_probeOnce cb then cb
  else set_probing (cb_stopProbe cb) true (cb_probes cb ++ [mkProbe (cb_stopProbe cb) false]) cb.

(** The send is received by a goroutine that waits in select on this channel. *)
Fixpoint stop_one (ch : nat) (ps : list probe) : list probe :=
  match ps with
  | [] => []
  | p :: r => if (pb_chan p =? ch)%nat && negb (pb_asking p) then r else p :: stop_one ch r
  end.
Definition stopProbing cb : CircuitBreaker :=
  set_probing (S (cb_stopProbe cb)) false (stop_one (cb_stopProbe cb) (cb_probes cb)) cb.
Definition Stop cb : CircuitBreaker := stopProbing cb.

(** A tick of goroutine [i]: it ends when the circuit is closed and asks the
    client for an invoice otherwise. *)
Definition probe_tick (i : nat) cb : CircuitBreaker :=
  match cb_probes cb !! i with
  | Some p =>
      if pb_asking p then cb
      else if bool_decide (cb_state cb = CircuitClosed)
      then set_probing (cb_stopProbe cb) (cb_probeOnce cb) (delete i (cb_probes cb)) cb
      else set_probing (cb_stopProbe cb) (cb_probeOnce cb) (<[i := mkProbe (pb_chan p) true]> (cb_probes cb)) cb
  | None => cb
  end.
(** The client's answer to it. *)
Definition probe_answer (now : Z) (ok : bool) (i : nat) cb : CircuitBreaker :=
  match cb_probes cb !! i with
  | Some p =>
      if negb (pb_asking p) then cb
      else if ok
      then set_probing (cb_stopProbe cb) (cb_probeOnce cb) (delete i (cb_probes cb))
             (set_changed_at now (set_fails 0 (set_state CircuitClosed cb)))
      else set_probing (cb_stopProbe cb) (cb_probeOnce cb) (<[i := mkProbe (pb_chan p) false]> (cb_probes cb))
             (set_failed_at now cb)
  | None => cb
  end.

(** *** A request *)
(** Where allowRequest is: it has loaded the state, is about to swap it, has
    swapped it and is about to reset the count, or has answered. *)
Inductive phase := Loaded (st : CircuitState) | Swapping | Resetting | LetThrough | Rejected.
Definition allow_step (now : Z) (p : phase) cb : phase * CircuitBreaker :=
  match p with
  | Loaded CircuitClosed => (LetThrough, cb)
  | Loaded CircuitOpen =>
      if bc_OpenTimeout cfg <=? time_sub now (cb_lastFailure cb) then (Swapping, cb) else (Rejected, cb)
  | Loaded CircuitHalfOpen =>
      if bc_HalfOpenMax cfg <=? cb_halfOpenCount cb then (Rejected, cb)
      else (LetThrough, set_half_open (cb_halfOpenCount cb +i 1) cb)
  | Swapping =>
      match cb_state cb with
      | CircuitOpen => (Resetting, set_state CircuitHalfOpen cb)
      | _ => (LetThrough, cb)
      end
  | Resetting => (LetThrough, set_changed_at now (set_half_open 0 cb))
  | LetThrough | Rejected => (p, cb)
  end.

(** Undisturbed, it is over after at most three steps. *)
Definition allowRequest (now : Z) cb : bool * CircuitBreaker :=
  let '(p1, cb1) := allow_step now (Loaded (cb_state cb)) cb in
  let '(p2, cb2) := allow_step now p1 cb1 in
  let '(p3, cb3) := allow_step now p2 cb2 in
  (match p3 with LetThrough => true | _ => false end, cb3).

Definition recordResult (now : Z) (ok : bool) cb : CircuitBreaker :=
  if ok then
    match cb_state cb with
    | CircuitHalfOpen =>
        stopProbing (set_changed_at now (set_half_open 0 (set_fails 0 (set_state CircuitClosed cb))))
    | CircuitClosed => set_fails 0 cb
    | CircuitOpen => cb
    end
  else
    let cb1 := set_failed_at now (set_fails (cb_failCount cb +i 1) cb) in
    match cb_state cb with
    | CircuitClosed =>
        if bc_FailureThreshold cfg <=? cb_failCount cb1
        then startProbe (set_changed_at now (set_state CircuitOpen cb1)) else cb1
    | CircuitHalfOpen => set_changed_at now (set_state CircuitOpen cb1)
    | CircuitOpen => cb1
    end.

(** CreateInvoice, LookupInvoice, SendPayment and Keysend: admitted at [now],
    answered at [later]. The boolean says whether the client was called. *)
Inductive call_error (E : Type) := ErrCircuitOpen | ErrInner (e : E).
Arguments ErrCircuitOpen {E}.
Arguments ErrInner {E} e.
Definition guarded {E A} (now later : Z) (inner : result E A) cb : result (call_error E) A * bool * CircuitBreaker :=
  let '(allowed, cb1) := allowRequest now cb in
  if negb allowed then (Err ErrCircuitOpen, false, cb1)
  else (match inner with Ok a => Ok a | Err e => Err (ErrInner e) end, true, recordResult later (is_ok inner) cb1).

(** *** Goroutines together: the requests under way, at their phases *)
Inductive breaker_step : CircuitBreaker * list phase -> CircuitBreaker * list phase -> Prop :=
| bs_arrive cb ts : breaker_step (cb, ts) (cb, ts ++ [Loaded (cb_state cb)])
| bs_allow now cb ts1 p ts2 p' cb' : allow_step now p cb = (p', cb') ->
    breaker_step (cb, ts1 ++ p :: ts2) (cb', ts1 ++ p' :: ts2)
| bs_refused cb ts1 ts2 : breaker_step (cb, ts1 ++ Rejected :: ts2) (cb, ts1 ++ ts2)
| bs_result now ok cb ts1 ts2 : breaker_step (cb, ts1 ++ LetThrough :: ts2) (recordResult now ok cb, ts1 ++ ts2)
| bs_tick i cb ts : breaker_step (cb, ts) (probe_tick i cb, ts)
| bs_answer now ok i cb ts : breaker_step (cb, ts) (probe_answer now ok i cb, ts)
| bs_stop cb ts : breaker_step (cb, ts) (Stop cb, ts).

(** ** Under any interleaving *)
Definition positive_config : Prop := 0 < bc_FailureThreshold cfg /\ 0 < bc_OpenTimeout cfg /\
  0 < bc_HalfOpenMax cfg < 2 ^ 63 /\ bc_FailureThreshold cfg < 2 ^ 63.
(** A request that has been, or is about to be, let through. *)
Definition under_way (p : phase) : Prop := p = Resetting \/ p = LetThrough.

Record breaker_ok cb (ts : list phase) : Prop := {
  bk_fails : cb_state cb = CircuitClosed -> 0 <= cb_failCount cb < bc_FailureThreshold cfg;
  bk_count : 0 <= cb_halfOpenCount cb <= bc_HalfOpenMax cfg;
  bk_half : cb_state cb = CircuitHalfOpen -> exists p, p ∈ ts /\ under_way p
}.
Lemma elem_of_swap (ts1 ts2 : list phase) p p' q : q ∈ ts1 ++ p :: ts2 -> q <> p -> q ∈ ts1 ++ p' :: ts2.
Proof. rewrite !elem_of_app, !elem_of_cons. tauto. Qed.
Lemma elem_of_drop (ts1 ts2 : list phase) p q : q ∈ ts1 ++ p :: ts2 -> q <> p -> q ∈ ts1 ++ ts2.
Proof. rewrite !elem_of_app, elem_of_cons. tauto. Qed.

Lemma recordResult_ok now ok cb : 0 < bc_FailureThreshold cfg < 2 ^ 63 ->
  (cb_state cb = CircuitClosed -> 0 <= cb_failCount cb < bc_FailureThreshold cfg) ->
  0 <= cb_halfOpenCount cb <= bc_HalfOpenMax cfg ->
  let cb' := recordResult now ok cb in
  cb_state cb' <> CircuitHalfOpen /\
  (cb_state cb' = CircuitClosed -> 0 <= cb_failCount cb' < bc_FailureThreshold cfg) /\
  0 <= cb_halfOpenCount cb' <= bc_HalfOpenMax cfg.
Proof.
  intros Hthr Hf Hc. unfold recordResult.
  destruct ok; destruct (cb_state cb) eqn:Hst; cbn -[add_i64]; rewrite ?Hst; try (split_and!; intros; first [done|lia]).
  - assert (cb_failCount cb +i 1 = cb_failCount cb + 1) as ->
      by (specialize (Hf eq_refl); apply wrap_i64_id; unfold in_i64; lia).
    specialize (Hf eq_refl). destruct (Z.leb_spec (bc_FailureThreshold cfg) (cb_failCount cb + 1)).
    + unfold startProbe. cbn. destruct (cb_probeOnce cb); cbn; split_and!; intros; first [done|lia].
    + cbn. rewrite Hst. split_and!; intros; first [done|lia].
Qed.

Lemma probe_tick_keeps i cb : let cb' := probe_tick i cb in
  cb_state cb' = cb_state cb /\ cb_failCount cb' = cb_failCount cb /\ cb_halfOpenCount cb' = cb_halfOpenCount cb.
Proof. unfold probe_tick. destruct (cb_probes cb !! i) as [p|]; [|done]. destruct (pb_asking p); [done|]. by case_bool_decide. Qed.

Lemma probe_answer_keeps now ok i cb : let cb' := probe_answer now ok i cb in
  (cb_state cb' = cb_state cb /\ cb_failCount cb' = cb_failCount cb /\ cb_halfOpenCount cb' = cb_halfOpenCount cb) \/
  (cb_state cb' = CircuitClosed /\ cb_failCount cb' = 0 /\ cb_halfOpenCount cb' = cb_halfOpenCount cb).
Proof.
  unfold probe_answer. destruct (cb_probes cb !! i) as [p|]; [|by left]. destruct (negb (pb_asking p)); [by left|].
  destruct ok; [by right|by left].
Qed.

Lemma breaker_step_ok (Hcfg : positive_config) cb ts cb' ts' :
  breaker_step (cb, ts) (cb', ts') -> breaker_ok cb ts -> breaker_ok cb' ts'.
Proof.
  destruct Hcfg as (Hthr & _ & Hmax & Hthr2). intros Hstep [Hf Hc Hh].
  inversion Hstep as [cb0 ts0|now cb0 ts1 p ts2 p' cb1 Hallow|cb0 ts1 ts2|now ok cb0 ts1 ts2|i cb0 ts0|now ok i cb0 ts0|cb0 ts0];
    subst.
  - split; [done..|]. intros Hst. destruct (Hh Hst) as (p & Hp & Hu). exists p. rewrite elem_of_app. auto.
  - assert (cb_state cb' = CircuitHalfOpen -> under_way p' \/ (cb_state cb = CircuitHalfOpen /\ ~ under_way p)) as Hpre.
    { intros Hst. destruct p as [[]| | | |]; simpl in Hallow; unfold under_way;
        repeat case_match; simplify_eq/=; naive_solver. }
    split.
    + intros Hst. destruct p as [[]| | | |]; simpl in Hallow; repeat case_match; simplify_eq/=; auto; congruence.
    + destruct p as [[]| | | |]; simpl in Hallow; repeat case_match; simplify_eq/=; auto; try lia.
      bprop. assert (cb_halfOpenCount cb +i 1 = cb_halfOpenCount cb + 1) as ->
        by (apply wrap_i64_id; unfold in_i64; lia). lia.
    + intros Hst. destruct (Hpre Hst) as [Hu|[Hst' Hu]]; [exists p'; rewrite elem_of_app; auto using list_elem_of_here|].
      destruct (Hh Hst') as (q & Hq & Hqu). exists q. split; [|done]. eapply elem_of_swap; [done|]. by intros ->.
  - split; [done..|]. intros Hst. destruct (Hh Hst) as (q & Hq & Hqu). exists q. split; [|done].
    eapply elem_of_drop; [done|]. intros ->. by destruct Hqu.
  - destruct (recordResult_ok now ok cb (conj Hthr Hthr2) Hf Hc) as (Hn & Hf' & Hc'). split; [done..|]. by intros ?%Hn.
  - destruct (probe_tick_keeps i cb) as (Hs & Hn & Hk). by split; rewrite ?Hs, ?Hn, ?Hk.
  - destruct (probe_answer_keeps now ok i cb) as [(Hs & Hn & Hk)|(Hs & Hn & Hk)]; split; rewrite ?Hs, ?Hn, ?Hk; try done; lia.
  - by split.
Qed.
(** *** One request at a time *)
Lemma allowRequest_spec now cb : allowRequest now cb =
  match cb_state cb with
  | CircuitClosed => (true, cb)
  | CircuitOpen =>
      if bc_OpenTimeout cfg <=? time_sub now (cb_lastFailure cb)
      then (true, set_changed_at now (set_half_open 0 (set_state CircuitHalfOpen cb))) else (false, cb)
  | CircuitHalfOpen =>
      if bc_HalfOpenMax cfg <=? cb_halfOpenCount cb then (false, cb)
      else (true, set_half_open (cb_halfOpenCount cb +i 1) cb)
  end.
Proof.
  unfold allowRequest. destruct (cb_state cb) eqn:Hst; cbn -[time_sub add_i64]; [done| |].
  - destruct (_ <=? _); cbn -[time_sub]; [|done]. by rewrite Hst.
  - by destruct (_ <=? _).
Qed.

(** What the breaker is meant to be: healthy with so many failures in a row, or
    down since the last one. *)
Inductive health := Healthy (fails : Z) | Down (since : Z).
Definition health_call (now later : Z) (ok : bool) (h : health) : bool * health :=
  match h with
  | Healthy k =>
      (true, if ok then Healthy 0 else if bc_FailureThreshold cfg <=? k + 1 then Down later else Healthy (k + 1))
  | Down since =>
      if bc_OpenTimeout cfg <=? time_sub now since then (true, if ok then Healthy 0 else Down later) else (false, h)
  end.

(** What can happen to a breaker that is called by one goroutine. *)
Inductive event := Call (now later : Z) (ok : bool) | ProbeTick (i : nat) | ProbeAnswer (now : Z) (ok : bool) (i : nat) | StopCall.
Definition event_run (e : event) cb : bool * CircuitBreaker :=
  match e with
  | Call now later ok =>
      let '(allowed, cb1) := allowRequest now cb in
      if allowed then (true, recordResult later ok cb1) else (false, cb1)
  | ProbeTick i => (false, probe_tick i cb)
  | ProbeAnswer now ok i => (false, probe_answer now ok i cb)
  | StopCall => (false, Stop cb)
  end.
Inductive health_step : health -> event -> bool -> health -> Prop :=
| hs_call now later ok h b h' : health_call now later ok h = (b, h') -> health_step h (Call now later ok) b h'
| hs_idle e h : (forall now later ok, e <> Call now later ok) -> health_step h e false h
| hs_recovered now i h : health_step h (ProbeAnswer now true i) false (Healthy 0)
| hs_still_down now i since : health_step (Down since) (ProbeAnswer now false i) false (Down now).
Inductive health_run : health -> list event -> list bool -> health -> Prop :=
| hr_nil h : health_run h [] [] h
| hr_cons h e b h1 es bs h2 : health_step h e b h1 -> health_run h1 es bs h2 -> health_run h (e :: es) (b :: bs) h2.
Fixpoint events_run (es : list event) cb : list bool * CircuitBreaker :=
  match es with
  | [] => ([], cb)
  | e :: r => let '(b, cb1) := event_run e cb in let '(bs, cb2) := events_run r cb1 in (b :: bs, cb2)
  end.

Definition implements cb (h : health) : Prop :=
  match h with
  | Healthy k => cb_state cb = CircuitClosed /\ cb_failCount cb = k /\ 0 <= k < bc_FailureThreshold cfg
  | Down since => cb_state cb = CircuitOpen /\ cb_lastFailure cb = since
  end.

Lemma call_implements (Hcfg : positive_config) now later ok cb h : implements cb h ->
  let '(b, cb') := event_run (Call now later ok) cb in
  let '(b', h') := health_call now later ok h in b = b' /\ implements cb' h'.
Proof.
  destruct Hcfg as (Hthr & _ & _ & Hthr2). intros Himp. cbn [event_run]. rewrite allowRequest_spec.
  destruct h as [k|since]; destruct Himp as [Hst Hrest]; rewrite Hst; cbn [health_call].
  - destruct Hrest as [Hk Hr]. unfold recordResult. destruct ok; rewrite Hst; cbn -[add_i64]; [split_and!; (done || lia)|].
    assert (cb_failCount cb +i 1 = k + 1) as -> by (rewrite Hk; apply wrap_i64_id; unfold in_i64; lia).
    destruct (Z.leb_spec (bc_FailureThreshold cfg) (k + 1)).
    + unfold startProbe. cbn. by destruct (cb_probeOnce cb).
    + cbn. split_and!; (done || lia).
  - rewrite Hrest. destruct (_ <=? _); [|done]. unfold recordResult. destruct ok; cbn; split_and!; (done || lia).
Qed.

Lemma probe_implements e b cb cb1 h : 0 < bc_FailureThreshold cfg -> implements cb h ->
  (forall now later ok, e <> Call now later ok) -> event_run e cb = (b, cb1) ->
  exists h1, health_step h e b h1 /\ implements cb1 h1.
Proof.
  intros Hthr Himp Hnc He. destruct e as [now later ok|i|now ok i|]; cbn [event_run] in He; simplify_eq.
  - by destruct (Hnc now later ok).
  - exists h. split; [by constructor|]. unfold probe_tick. destruct (cb_probes cb !! i) as [p|]; [|done].
    destruct (pb_asking p); [done|]. by case_bool_decide.
  - unfold probe_answer. destruct (cb_probes cb !! i) as [p|]; [|exists h; split; [by constructor|done]].
    destruct (negb (pb_asking p)); [exists h; split; [by constructor|done]|].
    destruct ok; [exists (Healthy 0); split; [constructor|]; split_and!; cbn; (done || lia)|].
    destruct h as [k|since]; [exists (Healthy k)|exists (Down now)]; (split; [by constructor|]); [done|].
    by destruct Himp.
  - exists h. split; [by constructor|]. destruct h; exact Himp.
Qed.

(** The breaker as one goroutine sees it. Called, probed and stopped in any
    order it admits exactly the calls the health automaton admits: while healthy
    every call goes through until so many fail in a row; while down none does
    before the timeout, and then one decides. *)
Theorem breaker_refines (Hcfg : positive_config) es cb h bs cb'
    (Himp : implements cb h) (Hrun : events_run es cb = (bs, cb')) :
  exists h', health_run h es bs h' /\ implements cb' h'.
Proof.
  revert cb h bs Himp Hrun. induction es as [|e es IH]; intros cb h bs Himp Hrun; cbn [events_run] in Hrun.
  { simplify_eq. eexists. split; [constructor|done]. }
  destruct (event_run e cb) as [b cb1] eqn:He. destruct (events_run es cb1) as [bs1 cb2] eqn:Hes. simplify_eq.
  assert (exists h1, health_step h e b h1 /\ implements cb1 h1) as (h1 & Hs & Himp1).
  { destruct e as [now later ok|i|now ok i|]; [|by eapply probe_implements; [apply Hcfg|..]..].
    pose proof (call_implements Hcfg now later ok cb h Himp) as Hc. rewrite He in Hc.
    destruct (health_call now later ok h) as [b' h'] eqn:Hh. destruct Hc as [-> Hc]. exists h'. split; [by constructor|done]. }
  destruct (IH _ _ _ Himp1 Hes) as (h2 & Hr & Himp2). exists h2. split; [by econstructor|done].
Qed.

Lemma guarded_event {E A} now later (inner : result E A) cb :
  guarded now later inner cb =
    let '(called, cb') := event_run (Call now later (is_ok inner)) cb in
    (if called then match inner with Ok a => Ok a | Err e => Err (ErrInner e) end else Err ErrCircuitOpen, called, cb').
Proof. unfold guarded. cbn [event_run]. by destruct (allowRequest now cb) as [[] cb1]. Qed.

Lemma breaker_run_ok (Hcfg : positive_config) cb ts cb' ts' :
  rtc breaker_step (cb, ts) (cb', ts') -> breaker_ok cb ts -> breaker_ok cb' ts'.
Proof.
  intros Hrun. remember (cb, ts) as s eqn:Hs. remember (cb', ts') as s' eqn:Hs'. revert cb ts Hs.
  induction Hrun as [s|s [cb1 ts1] s' Hstep _ IH]; intros cb ts -> Hok; [by simplify_eq|].
  eapply (IH Hs' _ _ eq_refl), breaker_step_ok; done.
Qed.

(** The breaker lets go. However its requests, probes and stops interleaved,
    once no request is between admission and result, a call that the client
    answers goes through and closes the circuit, at once or when OpenTimeout has
    passed since the last failure; before that it fails without reaching the
    client. It is never left half open. *)
Theorem breaker_recovers {A} (Hcfg : positive_config) cb0 cb ts now later (a : A)
    (Hnew : breaker_ok cb0 []) (Hrun : rtc breaker_step (cb0, []) (cb, ts))
    (Hquiet : forall p, p ∈ ts -> ~ under_way p) :
  cb_state cb <> CircuitHalfOpen /\
  let '(r, called, cb') := guarded now later (Ok a : result string A) cb in
  if bool_decide (cb_state cb = CircuitOpen) && (time_sub now (cb_lastFailure cb) <? bc_OpenTimeout cfg)
  then r = Err ErrCircuitOpen /\ called = false /\ cb' = cb
  else r = Ok a /\ called = true /\ cb_state cb' = CircuitClosed /\ cb_failCount cb' = 0.
Proof.
  pose proof (breaker_run_ok Hcfg _ _ _ _ Hrun Hnew) as [_ _ Hhalf].
  assert (cb_state cb <> CircuitHalfOpen) as Hst.
  { intros Hst. destruct (Hhalf Hst) as (p & Hp & Hu). by apply (Hquiet p). }
  split; [done|]. unfold guarded. rewrite allowRequest_spec. destruct (cb_state cb) eqn:Hcb; [| |done].
  - cbn. by rewrite Hcb.
  - rewrite bool_decide_eq_true_2 by done. cbn [andb]. rewrite Z.ltb_antisym.
    by destruct (_ <=? _).
Qed.

(** Counters under any interleaving. The circuit is open once the threshold of
    failures is reached, the half-open count respects its limit, and a half-open
    circuit has a request under way that will decide it. *)
Theorem breaker_interleavings (Hcfg : positive_config) cb0 cb ts
    (Hnew : breaker_ok cb0 []) (Hrun : rtc breaker_step (cb0, []) (cb, ts)) :
  (bc_FailureThreshold cfg <= cb_failCount cb -> cb_state cb <> CircuitClosed) /\
  0 <= cb_halfOpenCount cb <= bc_HalfOpenMax cfg /\
  (cb_state cb = CircuitHalfOpen -> exists p, p ∈ ts /\ under_way p).
Proof.
  destruct (breaker_run_ok Hcfg _ _ _ _ Hrun Hnew) as [Hf Hc Hh]. split_and!; try done; try lia.
  intros Hle Hst. specialize (Hf Hst). lia.
Qed.
End breaker.

(** ** The constructor *)
Lemma new_breaker_ok cfgs now : let '(cfg, cb) := NewCircuitBreaker cfgs now in
  (forall c, cfgs = Some c -> bc_FailureThreshold c < 2 ^ 63 /\ bc_HalfOpenMax c < 2 ^ 63) ->
  positive_config cfg /\ breaker_ok cfg cb [] /\ implements cfg cb (Healthy 0).
Proof.
  unfold NewCircuitBreaker. intros Hc. unfold positive_config.
  destruct cfgs as [c|]; cbn.
  - destruct (Hc c eq_refl) as [Ht Hm].
    destruct (Z.leb_spec (bc_FailureThreshold c) 0), (Z.leb_spec (bc_OpenTimeout c) 0), (Z.leb_spec (bc_HalfOpenMax c) 0);
      (split; [lia|]); (split; [split; cbn; (lia || done)|]); split_and!; cbn; (done || lia).
  - split; [lia|]. split; [split; cbn; (lia || done)|]. split_and!; cbn; (done || lia).
Qed.

Definition fresh_breaker : CircuitBreaker := (NewCircuitBreaker None 0).2.
Lemma fresh_breaker_ok : positive_config defaultCBConfig /\ breaker_ok defaultCBConfig fresh_breaker [] /\
  implements defaultCBConfig fresh_breaker (Healthy 0).
Proof. apply (new_breaker_ok None 0). done. Qed.

Definition sec (n : Z) : Z := n * 1000000000.
(** Three failures, a call too early, one after the timeout. *)
Definition outage : list event :=
  [Call (sec 1) (sec 1) false; Call (sec 2) (sec 2) false; Call (sec 3) (sec 3) false; Call (sec 4) (sec 4) true;
   ProbeTick 0; ProbeAnswer (sec 18) false 0; Call (sec 47) (sec 47) true; Call (sec 48) (sec 48) true].

Lemma breaker_refines_witness : exists h, health_run defaultCBConfig (Healthy 0) outage
  [true; true; true; false; false; false; false; true] h /\ h = Healthy 0.
Proof.
  destruct fresh_breaker_ok as (Hcfg & _ & Himp).
  destruct (events_run defaultCBConfig outage fresh_breaker) as [bs cb'] eqn:Hrun.
  destruct (breaker_refines defaultCBConfig Hcfg outage fresh_breaker (Healthy 0) bs cb' Himp Hrun) as (h & Hh & Himp').
  vm_compute in Hrun. injection Hrun as <- <-. exists h. split; [exact Hh|].
  destruct h as [k|since]; [destruct Himp' as (_ & <- & _); reflexivity|destruct Himp' as [Hbad _]; discriminate].
Defined.

(** A breaker that opens at the first failure, and one request that fails. *)
Definition touchy : CircuitBreakerConfig := mkBreakerConfig 1 (sec 30) (sec 15) 1.
Definition one_failure : CircuitBreaker := recordResult touchy (sec 1) false fresh_breaker.
Lemma touchy_ok : positive_config touchy /\ breaker_ok touchy fresh_breaker [].
Proof.
  split; [unfold positive_config; cbn; unfold sec; lia|]. split; [|done|done].
  intros _. cbn. lia.
Qed.
Lemma touchy_run : rtc (breaker_step touchy) (fresh_breaker, []) (one_failure, []).
Proof.
  eapply rtc_l; [apply bs_arrive|]. eapply rtc_l; [apply (bs_allow touchy 0 _ [] _ []); reflexivity|].
  eapply rtc_l; [apply (bs_result touchy (sec 1) false _ [] [])|]. apply rtc_refl.
Qed.

Lemma breaker_recovers_witness :
  let '(r, called, cb) := guarded touchy (sec 31) (sec 32) (Ok 7 : result string Z) one_failure in
  r = Ok 7 /\ called = true /\ cb_state cb = CircuitClosed /\ cb_failCount cb = 0.
Proof.
  destruct touchy_ok as [Hcfg Hnew].
  apply (breaker_recovers touchy Hcfg fresh_breaker one_failure [] (sec 31) (sec 32) 7 Hnew touchy_run).
  intros p Hp. by apply not_elem_of_nil in Hp.
Defined.

Lemma breaker_interleavings_witness : cb_failCount one_failure = 1 /\ cb_state one_failure <> CircuitClosed.
Proof.
  destruct touchy_ok as [Hcfg Hnew]. split; [reflexivity|].
  apply (breaker_interleavings touchy Hcfg fresh_breaker one_failure [] Hnew touchy_run). vm_compute. discriminate.
Defined.

(** HalfOpenMax is one, and two requests in a row are let through before either
    has its result: the one that swaps the state is not counted. *)
Theorem half_open_admits_two :
  let '(first, cb1) := allowRequest touchy (sec 31) one_failure in
  let '(second, cb2) := allowRequest touchy (sec 31) cb1 in
  let '(third, _) := allowRequest touchy (sec 31) cb2 in
  bc_HalfOpenMax touchy = 1 /\ first = true /\ second = true /\ third = false.
Proof. vm_compute. done. Qed.

(** A recovery found by the background probe does not reset probeOnce: when the
    circuit opens again no probe is started. *)
Theorem probe_not_restarted :
  let '(_, cb1) := events_run touchy [ProbeTick 0; ProbeAnswer (sec 16) true 0] one_failure in
  let '(_, cb2) := events_run touchy [Call (sec 20) (sec 20) false] cb1 in
  length (cb_probes one_failure) = 1%nat /\ cb_state cb1 = CircuitClosed /\
  cb_state cb2 = CircuitOpen /\ cb_probes cb2 = [].
Proof. vm_compute. done. Qed.
