(* ===== verification/Announcer.v ===== *)
(** * Announcer: how a node stays listed (src/internal/discovery/announcer.go)

    The announcement a node signs, its refreshing of the voucher before it
    expires, and the loop that does both, against the hub of HubApi.v. The relays
    and the HTTP transport are arguments; encoding/json of NodeInfo is the class
    [NodeEncoder]. *)
From S2P Require Import Prelude Sql Schema Repository Nostr Attestation Selector CashuApi Discovery HubApi HubSelector.

Definition PingIntervalSeconds : Z := 60.

Class NodeEncoder := json_MarshalNodeInfo : NodeInfo -> option string.

Inductive announce_error :=
| NMarshalInfo | NEncodeAttestation | NSignEvent (e : nostr_error)
| NRelays | NDirect (status : option Z).
Inductive refresh_error := FEncode | FSign | FRequest | FStatus (code : Z) | FResponse | FNewAttestation.

(** The hub's answer to a refresh request. *)
Inductive refresh_reply := RefreshFailed | RefreshStatus (code : Z) | RefreshMalformed | RefreshAnswer (encoded : string).
(** What announce sends out. *)
Inductive sent_event := ToRelays (ev : Event) | ToHub (ev : Event).

Section announcer.
Context `{Schnorr} `{AttestationJson} `{NodeEncoder}.

Record Announcer := mkAnnouncer {
  an_nodeKP : KeyPair;
  an_attestation : option Attestation;
  an_interval : Z;
  an_hubURL : string
}.
Definition NewAnnouncer (nodeKP : KeyPair) (att : option Attestation) : Announcer :=
  mkAnnouncer nodeKP att (PingIntervalSeconds * 1000000000) "".
Definition SetHubURL (hubURL : string) (a : Announcer) : Announcer :=
  mkAnnouncer (an_nodeKP a) (an_attestation a) (an_interval a) hubURL.
Definition with_attestation (att : Attestation) (a : Announcer) : Announcer :=
  mkAnnouncer (an_nodeKP a) (Some att) (an_interval a) (an_hubURL a).

Definition announcement_tags (nodeKP : KeyPair) (info : NodeInfo) (att : option (Attestation * string)) : list (list string) :=
  [["d"; PubkeyHex nodeKP]; ["wg_pubkey"; n_WGPubkey info]; ["role"; role_string (n_Role info)]]%string ++
  match att with
  | Some (a, attJSON) => [["hub"; at_HubPubkey a]; ["attestation"; attJSON]; ["operator"; at_OperatorID a]]%string
  | None => []
  end.

(** [now] is the time in seconds. *)
Definition BuildAnnouncementEvent (nodeKP : KeyPair) (now : Z) (info : NodeInfo) (att : option Attestation) :
    result announce_error Event :=
  match json_MarshalNodeInfo info with
  | None => Err NMarshalInfo
  | Some content =>
      att ← match att with
            | None => Ok None
            | Some a => match json_Encode a with Some s => Ok (Some (a, s)) | None => Err NEncodeAttestation end
            end;
      match Sign nodeKP now (mkEvent "" "" now NostrKindNodeAnnouncement (announcement_tags nodeKP info att) content "") with
      | Ok ev => Ok ev
      | Err e => Err (NSignEvent e)
      end
  end.

(** announce: [publish] answers how many relays accepted, or an error; [post]
    the status of POST /announce. *)
Definition announce (publish : Event -> option Z) (post : Event -> option Z) (now : Z) (info : NodeInfo) (a : Announcer) :
    result announce_error unit * list sent_event :=
  match BuildAnnouncementEvent (an_nodeKP a) now info (an_attestation a) with
  | Err e => (Err e, [])
  | Ok ev =>
      let relayed := publish ev in
      if match relayed with Some n => 0 <? n | None => false end then (Ok tt, [ToRelays ev])
      else if negb (str_empty (an_hubURL a)) then
        match post ev with
        | Some code => if code =? StatusOK then (Ok tt, [ToRelays ev; ToHub ev])
                       else (Err (NDirect (Some code)), [ToRelays ev; ToHub ev])
        | None => (Err (NDirect None), [ToRelays ev; ToHub ev])
        end
      else match relayed with
           | None => (Err NRelays, [ToRelays ev])
           | Some _ => (Ok tt, [ToRelays ev])
           end
  end.

Definition refreshAttestation (hub : AttestRefreshRequest -> refresh_reply) (now : Z) (nodeKP : KeyPair) (att : Attestation) :
    result refresh_error Attestation :=
  match json_Encode att with
  | None => Err FEncode
  | Some attJSON =>
      match SignRefreshRequest nodeKP attJSON now with
      | None => Err FSign
      | Some sig =>
          match hub (mkRefresh attJSON now sig) with
          | RefreshFailed => Err FRequest
          | RefreshStatus code => Err (FStatus code)
          | RefreshMalformed => Err FResponse
          | RefreshAnswer encoded =>
              match json_Decode encoded with None => Err FNewAttestation | Some new => Ok new end
          end
      end
  end.

(** [now_ns]: the clock. *)
Definition refreshIfNeeded (hub : AttestRefreshRequest -> refresh_reply) (now_ns : Z) (a : Announcer) : Announcer :=
  match an_attestation a with
  | None => a
  | Some att =>
      if str_empty (an_hubURL a) then a
      else if 3600 * 1000000000 <? time_sub (unix_ns (at_ExpiresAt att)) now_ns then a
      else match refreshAttestation hub (now_ns / 1000000000) (an_nodeKP a) att with
           | Err _ => a
           | Ok new => with_attestation new a
           end
  end.

(** One round of Run. *)
Definition round (hub : AttestRefreshRequest -> refresh_reply) (publish post : Event -> option Z) (now_ns : Z)
    (info : NodeInfo) (a : Announcer) : result announce_error unit * list sent_event * Announcer :=
  let a1 := refreshIfNeeded hub now_ns a in
  let '(r, sent) := announce publish post (now_ns / 1000000000) info a1 in (r, sent, a1).
(** Run: a round at start and one per tick, until the context ends. [rounds] is
    what each finds: the time, the node's info, the hub and the relays. *)
Record surroundings := mkSurroundings {
  sr_ns : Z;
  sr_info : NodeInfo;
  sr_hub : AttestRefreshRequest -> refresh_reply;
  sr_publish : Event -> option Z;
  sr_post : Event -> option Z
}.
Fixpoint Run (rounds : list surroundings) (a : Announcer) : list (result announce_error unit * list sent_event) * Announcer :=
  match rounds with
  | [] => ([], a)
  | s :: rest =>
      let '(r, sent, a1) := round (sr_hub s) (sr_publish s) (sr_post s) (sr_ns s) (sr_info s) a in
      let '(out, a2) := Run rest a1 in ((r, sent) :: out, a2)
  end.
End announcer.

(** ** A node and its hub *)
Section lifecycle.
Context `{SchnorrLaws} `{AttestationJsonLaws} `{NodeCodec} `{NodeEncoder} (cfg : hub_config).
Implicit Types (h : hub_state) (ns : Z).

(** The hub's endpoints as the node reaches them. *)
Definition hub_refresh h ns (req : AttestRefreshRequest) : refresh_reply :=
  match (handleAttestRefresh cfg (Some req) (refresh_visit ns) h).1 with
  | Some (Reply _ encoded) => RefreshAnswer encoded
  | Some (Fault code _) => RefreshStatus code
  | None => RefreshFailed
  end.
Definition hub_post h ns (ev : Event) : option Z :=
  reply_code <$> (handleAnnounce (Some ev) (refresh_visit ns) h).1.
Definition received ns (s : sent_event) h : hub_state :=
  match s with
  | ToHub ev => (handleAnnounce (Some ev) (refresh_visit ns) h).2
  | ToRelays _ => h
  end.
(** A round while no relay can be reached. *)
Definition round_at_hub (info : NodeInfo) ns (a : Announcer) h : result announce_error unit * Announcer * hub_state :=
  let '(r, sent, a1) := round (hub_refresh h ns) (fun _ => None) (hub_post h ns) ns info a in
  (r, a1, foldr (received ns) h sent).
Fixpoint rounds_at_hub (info : NodeInfo) (times : list Z) (a : Announcer) h : list (result announce_error unit) * Announcer * hub_state :=
  match times with
  | [] => ([], a, h)
  | ns :: rest =>
      let '(r, a1, h1) := round_at_hub info ns a h in
      let '(rs, a2, h2) := rounds_at_hub info rest a1 h1 in (r :: rs, a2, h2)
  end.

Context (kp nodeKP : KeyPair) (wg op : string) (roles : list string) (info : NodeInfo) (content : string).
Context (Hkp : hc_hubKP cfg = Some kp) (Hown : own_key kp) (Hnode : own_key nodeKP).
(** Signing and encoding do not fail. *)
Context (Hsigns : forall msg, is_Some (schnorr_Sign (nk_PrivateKey nodeKP) msg)).
Context (Hmarshal : forall pk t k tags c, is_Some (json_Marshal pk t k tags c)).
Context (Hcontent : json_MarshalNodeInfo info = Some content) (Hinfo : json_NodeInfo content = Some info).
Context (Hempty : json_Decode "" = None).
(** The node is one the hub would list. *)
Context (Hvalid : validateNodeInfo info = Ok tt) (Hwg : n_WGPubkey info = wg) (Hrole : role_string (n_Role info) ∈ roles).

(** A time at which the hub can renew the voucher. *)
Definition good_time h ns : Prop :=
  0 <= ns / 1000000000 < 2 ^ 61 /\ IsLeaseActive ns (PubkeyHex nodeKP) (hb_db h) = true /\
  exists new enc, CreateAttestation kp (ns / 1000000000) (PubkeyHex nodeKP) wg op roles = Ok new /\ json_Encode new = Some enc.

(** An announcer that holds a voucher of the hub, however old. *)
Definition vouched (a : Announcer) (att : Attestation) : Prop :=
  an_nodeKP a = nodeKP /\ str_empty (an_hubURL a) = false /\ an_attestation a = Some att /\
  0 <= at_ExpiresAt att < 2 ^ 62 /\
  exists voucher, json_Encode att = Some voucher /\ held kp nodeKP wg op roles voucher.

Lemma held_att att voucher : json_Encode att = Some voucher -> held kp nodeKP wg op roles voucher ->
  VerifySignature (PubkeyHex kp) att = Ok tt /\ at_NodePubkey att = PubkeyHex nodeKP /\ at_NodeWGPubkey att = wg /\
  at_OperatorID att = op /\ at_AllowedRoles att = roles.
Proof. intros He (att' & Hd & Hrest). apply law_encode_decode in He. rewrite He in Hd. by injection Hd as <-. Qed.

Lemma node_bound att voucher : json_Encode att = Some voucher -> held kp nodeKP wg op roles voucher ->
  VerifyNodeBinding (PubkeyHex nodeKP) (n_WGPubkey info) (role_string (n_Role info)) att = Ok tt.
Proof.
  intros He Hheld. destruct (held_att _ _ He Hheld) as (_ & Hn & Hw & _ & Hr).
  unfold VerifyNodeBinding. rewrite Hn, Hw, Hr, Hwg, !String.eqb_refl. cbn [negb].
  assert (existsb (fun allowed => String.eqb allowed (role_string (n_Role info)) || String.eqb allowed "both") roles = true) as ->; [|done].
  apply existsb_exists. exists (role_string (n_Role info)). split; [by apply list_elem_of_In|]. by rewrite String.eqb_refl.
Qed.

Lemma unix_ns_exact s : 0 <= s < 2 ^ 62 -> unix_ns s = s * 1000000000.
Proof. intros Hs. unfold unix_ns. rewrite wrap_i64_id; [lia|unfold in_i64; lia]. Qed.

Lemma div_ns ns : ns / 1000000000 * 1000000000 <= ns < (ns / 1000000000 + 1) * 1000000000.
Proof. pose proof (Z.div_mod ns 1000000000 ltac:(lia)). pose proof (Z.mod_pos_bound ns 1000000000 ltac:(lia)). lia. Qed.

(** After refreshIfNeeded the voucher is good for an hour more. *)
Lemma refreshed_voucher a att h ns : vouched a att -> good_time h ns ->
  exists att', vouched (refreshIfNeeded (hub_refresh h ns) ns a) att' /\ ns / 1000000000 + 3600 <= at_ExpiresAt att'.
Proof.
  intros (Hkey & Hurl & Hatt & Hexp & voucher & Henc & Hheld) (Hns & Hlease & Hissue).
  unfold refreshIfNeeded. rewrite Hatt, Hurl. rewrite unix_ns_exact by done. pose proof (div_ns ns) as Hdiv.
  destruct (Z.ltb_spec (3600 * 1000000000) (time_sub (at_ExpiresAt att * 1000000000) ns)) as [Hlt|_].
  - exists att. split; [unfold vouched; eauto 10|]. unfold time_sub in Hlt. lia.
  - unfold refreshAttestation. rewrite Henc, Hkey.
    destruct (refresh_held cfg kp nodeKP wg op roles h ns voucher Hkp Hown Hnode Hsigns Hlease Hissue Hheld)
      as (req & new & enc & Hreq & Hans & Hc & Hd & Hheld').
    unfold refresh_request in Hreq. destruct (SignRefreshRequest nodeKP voucher (ns / 1000000000)) as [sig|]; [|done].
    cbn in Hreq. injection Hreq as <-. unfold hub_refresh. rewrite Hans. cbn. rewrite Hd.
    pose proof (CreateAttestation_Ok _ _ _ _ _ _ _ Hown Hc) as (_ & _ & _ & _ & _ & _ & _ & He & _).
    exists new. unfold AttestationTTL in He. split; [|lia].
    unfold vouched. cbn. split_and!; try done; try lia.
    destruct Hissue as (new' & enc' & Hc' & Henc'). rewrite Hc in Hc'. injection Hc' as <-. exists enc'.
    split; [done|]. destruct Hheld' as (x & Hx & Hx'). exists x. apply law_encode_decode in Henc'.
    rewrite Hd in Hx. injection Hx as <-. by rewrite Henc'.
Qed.

Lemma announcement_built att voucher s : json_Encode att = Some voucher ->
  exists ev, BuildAnnouncementEvent nodeKP s info (Some att) = Ok ev /\ Verify ev = Ok tt /\
    ev_Pubkey ev = PubkeyHex nodeKP /\ ev_Kind ev = NostrKindNodeAnnouncement /\ ev_CreatedAt ev = s /\
    ev_Content ev = content /\ GetTagValue "attestation" ev = voucher.
Proof.
  intros He. unfold BuildAnnouncementEvent. rewrite Hcontent, He. cbn [mbind result_mbind].
  set (e0 := mkEvent _ _ _ _ _ _ _). destruct (Sign nodeKP s e0) as [ev|e] eqn:Hs.
  - exists ev. split; [done|].
    destruct (event_sign_verify nodeKP s e0 ev Hnode Hs) as (Hv & Hpk & Hk & Ht & Hc).
    split_and!; try done.
    + unfold Sign in Hs. destruct (ComputeID _) as [id|]; cbn in Hs; [|done]. destruct (hex_decode id); [|done].
      destruct (schnorr_Sign _ _); [|done]. injection Hs as <-. cbn. by destruct (Z.eqb_spec s 0).
    + unfold GetTagValue. by rewrite Ht.
  - exfalso. unfold Sign, ComputeID, Serialize in Hs. cbn [ev_ID ev_Pubkey ev_CreatedAt ev_Kind ev_Tags ev_Content] in Hs.
    destruct (Hmarshal (PubkeyHex nodeKP) (if ev_CreatedAt e0 =? 0 then s else ev_CreatedAt e0) (ev_Kind e0) (ev_Tags e0) (ev_Content e0))
      as [x Hx]. rewrite Hx in Hs. cbn [mbind result_mbind] in Hs. rewrite hex_decode_encode in Hs.
    destruct (Hsigns (sha256_Sum256 x)) as [sg Hsg]. by rewrite Hsg in Hs.
Qed.

(** The hub accepts an announcement with an unexpired voucher of its own. *)
Lemma announcement_vetted trusted att voucher ns ev :
  PubkeyHex kp ∈ trusted -> 0 <= ns / 1000000000 < 2 ^ 61 -> ns / 1000000000 <= at_ExpiresAt att ->
  json_Encode att = Some voucher -> held kp nodeKP wg op roles voucher ->
  BuildAnnouncementEvent nodeKP (ns / 1000000000) info (Some att) = Ok ev ->
  vet trusted ns ev = Ok (info, att).
Proof.
  intros Htr Hns Hexp He Hheld Hev.
  destruct (announcement_built att voucher (ns / 1000000000) He) as (ev' & Hev' & Hv & Hpk & Hk & Hc & Hco & Htag).
  rewrite Hev in Hev'. injection Hev' as <-.
  destruct (held_att _ _ He Hheld) as (Hsig & Hn & Hw & Ho & Hr). apply VerifySignature_Ok in Hsig as (Hp & Hh & Hs).
  apply law_encode_decode in He as Hd.
  unfold vet. rewrite Hk, Z.eqb_refl, Hv, Htag. cbn [negb wrap_err mbind result_mbind].
  destruct (str_empty voucher) eqn:Hemp; [apply String.eqb_eq in Hemp as ->; by rewrite Hempty in Hd|].
  rewrite Hd. assert (VerifyAttestation trusted (ns / 1000000000) att = Ok tt) as ->
    by (apply VerifyAttestation_Ok; by rewrite Hh).
  rewrite Hco, Hinfo. cbn [wrap_err mbind result_mbind].
  rewrite Hpk, (node_bound att voucher He Hheld).
  rewrite Hvalid. cbn [wrap_err mbind result_mbind]. rewrite Hc, unix_ns_exact by lia.
  pose proof (div_ns ns). assert (OnlineTTL <? time_sub ns (ns / 1000000000 * 1000000000) = false) as ->; [|done].
  apply Z.ltb_ge. unfold OnlineTTL, time_sub. lia.
Qed.

(** The entry a round leaves in the hub's index. *)
Definition listed_at ns att (n : IndexedNode) : Prop :=
  exists ev, n = mkIndexed info (Some ev) (Some att) ns true /\
    Verify ev = Ok tt /\ ev_Pubkey ev = PubkeyHex nodeKP.

Lemma round_accepted a att h ns : vouched a att -> good_time h ns -> PubkeyHex kp ∈ nx_trustedHubs (hb_index h) ->
  exists a1 att1 n h1, round_at_hub info ns a h = (Ok tt, a1, h1) /\ vouched a1 att1 /\
    ns / 1000000000 + 3600 <= at_ExpiresAt att1 /\ hb_db h1 = hb_db h /\
    nx_trustedHubs (hb_index h1) = nx_trustedHubs (hb_index h) /\
    nx_nodes (hb_index h1) !! PubkeyHex nodeKP = Some n /\ listed_at ns att1 n.
Proof.
  intros Hv Hgood Htr. destruct (refreshed_voucher _ _ _ _ Hv Hgood) as (att1 & Hv1 & Hexp).
  unfold round_at_hub, round. set (a1 := refreshIfNeeded _ ns a) in *.
  destruct Hv1 as (Hkey & Hurl & Hatt & Hb & voucher & He & Hheld).
  unfold announce. rewrite Hkey, Hatt.
  destruct (announcement_built att1 voucher (ns / 1000000000) He) as (ev & Hev & Hver & Hpk & _).
  assert (vet (nx_trustedHubs (hb_index h)) ns ev = Ok (info, att1)) as Hvet
    by (eapply announcement_vetted; [done|apply Hgood|lia|done..]).
  rewrite Hev, Hurl. cbn [negb].
  assert (handleAnnounce (Some ev) (refresh_visit ns) h =
    (Some (Reply StatusOK tt), with_index (mkIndex (<[ev_Pubkey ev := mkIndexed info (Some ev) (Some att1) ns true]>
      (nx_nodes (hb_index h))) (nx_trustedHubs (hb_index h))) h)) as Hans
    by (unfold handleAnnounce, only, ProcessEvent, refresh_visit; cbn [vs_method vs_call cx_ns]; by rewrite Hvet).
  unfold hub_post. rewrite Hans. cbn [fst fmap option_fmap option_map reply_code].
  rewrite Z.eqb_refl. cbn [foldr received]. rewrite Hans.
  eexists a1, att1, _, _. split; [done|]. split_and!; try done; try (by unfold vouched; eauto 10).
  - cbn. rewrite Hpk. apply lookup_insert_eq.
  - exists ev. done.
Qed.

(** A node and its hub. With every relay down, an announcer holding a voucher
    of the hub, expired or not, is accepted by the hub at every round while its
    lease runs: it renews the voucher in time, its announcement is signed, bound
    and fresh, and from the last round on the hub lists it for five minutes with
    what it announced, in a form every client that trusts the hub accepts for at
    least an hour. *)
Theorem node_stays_listed range trusted' times ns a att h t now'
    (Hrange : fair_order range) (Hv : vouched a att) (Htr : PubkeyHex kp ∈ nx_trustedHubs (hb_index h))
    (Hgood : forall ns', ns' ∈ times ++ [ns] -> good_time h ns')
    (Hclient : PubkeyHex kp ∈ trusted') (Ht : ns <= t <= ns + OnlineTTL) (Hnow : now' <= ns / 1000000000 + 3600) :
  let '(rs, a', h') := rounds_at_hub info (times ++ [ns]) a h in
  Forall (fun r => r = Ok tt) rs /\
  exists n, n ∈ ListOnline range (PruneOffline t (hb_index h')).2 /\ ix_Info n = info /\
    verified_node trusted' now' n = true.
Proof.
  revert a att h Hv Htr Hgood. induction times as [|ns0 times IH]; intros a att h Hv Htr Hgood; cbn [app rounds_at_hub].
  - destruct (round_accepted a att h ns Hv (Hgood ns ltac:(left)) Htr)
      as (a1 & att1 & n & h1 & Hrun & Hv1 & Hexp & _ & _ & Hn & Hl).
    rewrite Hrun. split; [by repeat constructor|]. exists n. destruct Hl as (ev & -> & Hver & Hpk).
    split_and!; [|done|].
    + unfold ListOnline. rewrite elem_of_bfilter, elem_of_range by done. split; [done|].
      exists (PubkeyHex nodeKP). cbn. rewrite lookup_fmap, Hn. cbn.
      unfold expired. cbn. assert (OnlineTTL <? time_sub t ns = false) as ->; [|done].
      apply Z.ltb_ge. unfold OnlineTTL, time_sub in *. lia.
    + destruct Hv1 as (_ & _ & _ & _ & voucher & He & Hheld).
      destruct (held_att _ _ He Hheld) as (Hsig & Hno & Hw & Ho & Hr). apply VerifySignature_Ok in Hsig as (Hp & Hh & Hs).
      unfold verified_node. cbn. rewrite Hver. cbn.
      assert (VerifyAttestation trusted' now' att1 = Ok tt) as -> by (apply VerifyAttestation_Ok; rewrite Hh; split_and!; (done || lia)).
      cbn. by rewrite Hpk, (node_bound att1 voucher He Hheld).
  - destruct (round_accepted a att h ns0 Hv (Hgood ns0 ltac:(left)) Htr)
      as (a1 & att1 & n & h1 & Hrun & Hv1 & _ & Hdb & Htr1 & _).
    rewrite Hrun. destruct (rounds_at_hub info (times ++ [ns]) a1 h1) as [[rs a2] h2] eqn:Hrest.
    assert (forall ns', ns' ∈ times ++ [ns] -> good_time h1 ns') as Hgood1.
    { intros ns' Hin. unfold good_time. rewrite Hdb. apply Hgood. by right. }
    specialize (IH a1 att1 h1 Hv1 ltac:(by rewrite Htr1) Hgood1). rewrite Hrest in IH.
    destruct IH as [Hall Hlisted]. split; [by constructor|done].
Qed.
End lifecycle.

(** ** A node announcing itself *)
Definition made_at (s : Z) : Attestation :=
  with_seal (at_ID toy_voucher) (at_Signature toy_voucher)
    (mkAttestation attestation_protocol (PubkeyHex toy_key) (PubkeyHex toy_key) toy_wgkey "op-1" ["exit"] s (s + AttestationTTL) "" "").
(** The seconds at which vouchers are made here, and their encoding. *)
Definition made_times : list Z := [1000; 22000; 22060].
Definition clock_json : AttestationJson := {|
  marshal_content := fun a => Some (toy_content a);
  json_Encode := fun a => if decide (a = made_at (at_IssuedAt a) /\ at_IssuedAt a ∈ made_times) then Some (show_Z (at_IssuedAt a)) else None;
  json_Decode := fun s => made_at <$> List.find (fun t => String.eqb (show_Z t) s) made_times
|}.
Lemma clock_json_laws : @AttestationJsonLaws clock_json.
Proof.
  split; [done|]. intros a s. cbn [json_Encode json_Decode clock_json]. case_decide as Ha; [|done]. destruct Ha as [Ha Hin].
  intros [= <-]. destruct (List.find (fun t => String.eqb (show_Z t) (show_Z (at_IssuedAt a))) made_times) as [t|] eqn:Hf.
  - apply List.find_some in Hf as [_ Ht%String.eqb_eq%show_Z_inj]. cbn. by rewrite Ht, <-Ha.
  - apply list_elem_of_In in Hin. pose proof (List.find_none _ _ Hf _ Hin) as Hx. cbn in Hx. by rewrite String.eqb_refl in Hx.
Qed.
Definition toy_marshal : NodeEncoder := fun _ => Some "info"%string.
Definition hub_cfg : hub_config := mkHubConfig NewDiscoveryAPI_limits (Some toy_key) true None false false.
Definition leasing_hub : hub_state := mkHub (NewNodeIndex toy_hubs) ∅ leased_db.
Definition old_announcer : Announcer := SetHubURL "http://hub" (NewAnnouncer toy_key (Some (made_at 1000))).

Lemma old_announcer_vouched :
  @vouched _ clock_json toy_key toy_key toy_wgkey "op-1" ["exit"] old_announcer (made_at 1000).
Proof.
  split_and!; try reflexivity; [vm_compute; discriminate|]. exists "1000"%string. split; [vm_compute; reflexivity|].
  exists (made_at 1000). split_and!; vm_compute; reflexivity.
Qed.

Lemma toy_good_time s : s ∈ [22000; 22060] ->
  @good_time _ clock_json toy_key toy_key toy_wgkey "op-1" ["exit"] leasing_hub (s * 1000000000).
Proof.
  intros Hs. assert (s = 22000 \/ s = 22060) as Hcase.
  { apply elem_of_cons in Hs as [->|Hs]; [by left|]. apply elem_of_cons in Hs as [->|Hs]; [by right|].
    by apply not_elem_of_nil in Hs. }
  destruct Hcase as [-> | ->]; (split; [vm_compute; split; [discriminate|reflexivity]|]); (split; [vm_compute; reflexivity|]).
  - exists (made_at 22000), "22000"%string. split; vm_compute; reflexivity.
  - exists (made_at 22060), "22060"%string. split; vm_compute; reflexivity.
Qed.

Lemma node_stays_listed_witness :
  let run := @rounds_at_hub _ clock_json _ toy_marshal hub_cfg toy_listed
    ([22000 * 1000000000] ++ [22060 * 1000000000]) old_announcer leasing_hub in
  run.1.1 = [Ok tt; Ok tt] /\
  exists n, n ∈ ListOnline toy_order (PruneOffline (22060 * 1000000000 + OnlineTTL) (hb_index run.2)).2 /\ ix_Info n = toy_listed /\
    @verified_node _ clock_json toy_hubs 25000 n = true.
Proof.
  pose proof (@node_stays_listed _ _ clock_json clock_json_laws _ toy_marshal hub_cfg toy_key toy_key toy_wgkey "op-1" ["exit"]
    toy_listed "info" eq_refl eq_refl eq_refl (fun msg => ex_intro _ msg eq_refl) (fun pk t k tags c => ex_intro _ _ eq_refl)
    eq_refl eq_refl eq_refl eq_refl eq_refl (list_elem_of_here _ _)
    toy_order toy_hubs [22000 * 1000000000] (22060 * 1000000000) old_announcer (made_at 1000) leasing_hub
    (22060 * 1000000000 + OnlineTTL) 25000 (fun g => reflexivity _) old_announcer_vouched (list_elem_of_here _ _)) as Hall.
  cbv zeta. split; [vm_compute; reflexivity|].
  destruct (rounds_at_hub _ _ _ _ _) as [[rs a'] h'].
  destruct Hall as [_ Hn]; [|left|unfold OnlineTTL; lia|vm_compute; discriminate|exact Hn].
  intros ns Hns. apply elem_of_cons in Hns as [->|Hns]; [apply toy_good_time; left|].
  apply elem_of_cons in Hns as [->|Hns]; [apply toy_good_time; right; left|]. by apply not_elem_of_nil in Hns.
Defined.
