(* ===== verification/Nip44.v ===== *)
(** * Nip44: NIP-44 v2 payloads (src/internal/nostr/nip44.go)

    Padding, framing, base64 and the order of the checks are modelled; the
    primitives under them (scalar multiplication, HKDF, ChaCha20, HMAC-SHA256)
    are the class [Nip44Crypto]. A byte slice is a [string]. hkdf.Expand gives 76
    bytes and NewUnauthenticatedCipher is given 32 and 12, so neither fails.
    math.Log2 of an integer below 2^32 rounds down to its exact logarithm. *)
From S2P Require Import Prelude Nostr.

(** ** Bytes *)
Definition byte_of (z : Z) : ascii := ascii_of_N (Z.to_N z).
Definition byte_val (c : ascii) : Z := Z.of_N (N_of_ascii c).
Fixpoint str_take (n : nat) (s : string) : string :=
  match n, s with
  | S m, String c r => String c (str_take m r)
  | _, _ => ""
  end.
Fixpoint str_drop (n : nat) (s : string) : string :=
  match n, s with
  | S m, String _ r => str_drop m r
  | _, _ => s
  end.
Fixpoint zeros (n : nat) : string := match n with O => "" | S m => String "000" (zeros m) end.

(** ** encoding/base64, StdEncoding *)
Definition b64_char (n : Z) : ascii :=
  byte_of (if n <? 26 then n + 65 else if n <? 52 then n + 71 else if n <? 62 then n - 4 else if n =? 62 then 43 else 47).
Definition b64_value (c : ascii) : option Z :=
  let n := byte_val c in
  if (65 <=? n) && (n <=? 90) then Some (n - 65)
  else if (97 <=? n) && (n <=? 122) then Some (n - 71)
  else if (48 <=? n) && (n <=? 57) then Some (n + 4)
  else if n =? 43 then Some 62 else if n =? 47 then Some 63 else None.

Fixpoint base64_EncodeToString (s : string) : string :=
  match s with
  | String a (String b (String c r)) =>
      let x := byte_val a * 65536 + byte_val b * 256 + byte_val c in
      String (b64_char (x / 262144)) (String (b64_char (x / 4096 mod 64))
        (String (b64_char (x / 64 mod 64)) (String (b64_char (x mod 64)) (base64_EncodeToString r))))
  | String a (String b EmptyString) =>
      let x := byte_val a * 65536 + byte_val b * 256 in
      String (b64_char (x / 262144)) (String (b64_char (x / 4096 mod 64)) (String (b64_char (x / 64 mod 64)) "="))
  | String a EmptyString =>
      let x := byte_val a * 65536 in
      String (b64_char (x / 262144)) (String (b64_char (x / 4096 mod 64)) "==")
  | EmptyString => ""
  end.

(** The decoder skips line breaks, wants the padding, and does not look at the
    bits the padding leaves over. *)
Fixpoint strip_newlines (s : string) : string :=
  match s with
  | EmptyString => ""
  | String c r => if (byte_val c =? 10) || (byte_val c =? 13) then strip_newlines r else String c (strip_newlines r)
  end.
Fixpoint decode_quads (s : string) : option string :=
  match s with
  | EmptyString => Some ""%string
  | String a (String b (String c (String d r))) =>
      va ← b64_value a; vb ← b64_value b;
      let x := va * 262144 + vb * 4096 in
      if byte_val c =? 61
      then if (byte_val d =? 61) && str_empty r then Some (String (byte_of (x / 65536)) "") else None
      else
        vc ← b64_value c;
        let y := x + vc * 64 in
        if byte_val d =? 61
        then if str_empty r then Some (String (byte_of (y / 65536)) (String (byte_of (y / 256 mod 256)) "")) else None
        else
          vd ← b64_value d;
          let z := y + vd in
          rest ← decode_quads r;
          Some (String (byte_of (z / 65536)) (String (byte_of (z / 256 mod 256)) (String (byte_of (z mod 256)) rest)))
  | _ => None
  end.
Definition base64_DecodeString (s : string) : option string := decode_quads (strip_newlines s).

(** ** Padding *)
(** int is 64 bits wide; lengths stay far below it. *)
Definition calcPaddedLen (unpaddedLen : Z) : Z :=
  if unpaddedLen <=? 32 then 32
  else
    let nextPower := Z.shiftl 1 (Z.log2 (unpaddedLen - 1) + 1) in
    let chunk := if nextPower <=? 256 then 32 else nextPower / 8 in
    chunk * ((unpaddedLen - 1) / chunk + 1).

(** binary.BigEndian.PutUint16 of uint16(n), Uint16 and Uint32. *)
Definition put_u16 (n : Z) : string := String (byte_of (n / 256 mod 256)) (String (byte_of (n mod 256)) "").
Definition get_u16 (s : string) : Z :=
  match s with String a (String b _) => byte_val a * 256 + byte_val b | _ => 0 end.
Definition get_u32 (s : string) : Z := get_u16 s * 65536 + get_u16 (str_drop 2 s).

Definition pad (plaintext : string) : string :=
  put_u16 (slen plaintext) ++
  plaintext ++ zeros (Z.to_nat (calcPaddedLen (slen plaintext)) - String.length plaintext).

Inductive nip44_error :=
| NIP44UnknownVersion | NIP44InvalidPayload | NIP44DecryptFailed | NIP44InvalidPadding
| NIP44KeySize | NIP44PlaintextLength | NIP44Nonce | NIP44Base64.
#[export] Instance nip44_error_eq_dec : EqDecision nip44_error.
Proof. solve_decision. Defined.

Definition unpad (padded : string) : result nip44_error string :=
  if slen padded <? 2 then Err NIP44InvalidPadding
  else
    let firstTwo := get_u16 padded in
    lens ← (if firstTwo =? 0 then
              if slen padded <? 6 then Err NIP44InvalidPadding
              else let n := get_u32 (str_drop 2 padded) in
                   if n <? 65536 then Err NIP44InvalidPadding else Ok (n, 6)
            else Ok (firstTwo, 2));
    let '(unpaddedLen, prefixLen) := lens in
    if unpaddedLen =? 0 then Err NIP44InvalidPadding
    else if slen padded <? prefixLen + unpaddedLen then Err NIP44InvalidPadding
    else if negb (slen padded =? prefixLen + calcPaddedLen unpaddedLen) then Err NIP44InvalidPadding
    else Ok (str_take (Z.to_nat unpaddedLen) (str_drop (Z.to_nat prefixLen) padded)).

(** ** Encryption *)
Class Nip44Crypto `{Schnorr} := {
  PointKey : Type;
  (** btcec.ParsePubKey of a compressed key *)
  btcec_ParsePubKey : string -> option PointKey;
  (** the x coordinate of the product, 32 bytes *)
  ecdh_x : SecKey -> PointKey -> string;
  (** hkdf.Extract(secret, salt) and 76 bytes of hkdf.Expand(key, info), SHA-256 *)
  hkdf_Extract : string -> string -> string;
  hkdf_Expand76 : string -> string -> string;
  (** XORKeyStream under a key and a nonce *)
  chacha20_XOR : string -> string -> string -> string;
  hmac_SHA256 : string -> string -> string
}.
Class Nip44Laws `{Nip44Crypto} := {
  law_extract_length secret salt : String.length (hkdf_Extract secret salt) = 32%nat;
  law_expand_length key info : String.length (hkdf_Expand76 key info) = 76%nat;
  law_chacha_length key nonce s : String.length (chacha20_XOR key nonce s) = String.length s;
  law_chacha_involutive key nonce s : chacha20_XOR key nonce (chacha20_XOR key nonce s) = s;
  law_hmac_length key s : String.length (hmac_SHA256 key s) = 32%nat;
  (** Diffie-Hellman, each side lifting the other's x-only key *)
  law_ecdh a b : exists pa pb,
    btcec_ParsePubKey (String "002" (schnorr_SerializePubKey (btcec_PubKey a))) = Some pa /\
    btcec_ParsePubKey (String "002" (schnorr_SerializePubKey (btcec_PubKey b))) = Some pb /\
    ecdh_x a pb = ecdh_x b pa
}.

Definition nip44MinPayloadLen : Z := 132.
Definition nip44MinDecodedLen : Z := 99.
Definition nip44MaxPlaintextSize : Z := 65535.
Definition nip44Salt : string := "nip44-v2".

Section nip44.
Context `{Nip44Crypto}.

Definition GetConversationKey (privKey : SecKey) (pubKey : PointKey) : string :=
  hkdf_Extract (ecdh_x privKey pubKey) nip44Salt.
Definition getMessageKeys (conversationKey nonce : string) : string * string * string :=
  let keys := hkdf_Expand76 conversationKey nonce in
  (str_take 32 keys, str_take 12 (str_drop 32 keys), str_take 32 (str_drop 44 keys)).
Definition hmacAAD (key message aad : string) : string := hmac_SHA256 key (aad ++ message).

Definition encryptWithNonce (plaintext conversationKey nonce : string) : string :=
  let padded := pad plaintext in
  let '(chachaKey, chaChaNonce, hmacKey) := getMessageKeys conversationKey nonce in
  let ciphertext := chacha20_XOR chachaKey chaChaNonce padded in
  let mac := hmacAAD hmacKey ciphertext nonce in
  base64_EncodeToString (String "002" (nonce ++ ciphertext ++ mac)).

(** [nonce]: 32 bytes of crypto/rand, or its error. *)
Definition Encrypt (nonce : option string) (plaintext conversationKey : string) : result nip44_error string :=
  if negb (slen conversationKey =? 32) then Err NIP44KeySize
  else if (slen plaintext <? 1) || (nip44MaxPlaintextSize <? slen plaintext) then Err NIP44PlaintextLength
  else match nonce with
       | None => Err NIP44Nonce
       | Some n => Ok (encryptWithNonce plaintext conversationKey n)
       end.

Definition Decrypt (payload conversationKey : string) : result nip44_error string :=
  if negb (slen conversationKey =? 32) then Err NIP44KeySize
  else match payload with
  | EmptyString => Err NIP44InvalidPayload
  | String first _ =>
      if byte_val first =? 35 then Err NIP44UnknownVersion
      else if slen payload <? nip44MinPayloadLen then Err NIP44InvalidPayload
      else match base64_DecodeString payload with
      | None => Err NIP44Base64
      | Some data =>
          if slen data <? nip44MinDecodedLen then Err NIP44InvalidPayload
          else if negb (String.eqb (str_take 1 data) (String "002" "")) then Err NIP44UnknownVersion
          else
            let nonce := str_take 32 (str_drop 1 data) in
            let ciphertext := str_take (String.length data - 65) (str_drop 33 data) in
            let mac := str_drop (String.length data - 32) data in
            let '(chachaKey, chaChaNonce, hmacKey) := getMessageKeys conversationKey nonce in
            if negb (String.eqb mac (hmacAAD hmacKey ciphertext nonce)) then Err NIP44DecryptFailed
            else unpad (chacha20_XOR chachaKey chaChaNonce ciphertext)
      end
  end.
End nip44.

(** ** Facts about bytes and slices *)
Lemma byte_val_range c : 0 <= byte_val c < 256.
Proof. unfold byte_val. pose proof (N_ascii_bounded c). lia. Qed.
Lemma byte_val_of z : 0 <= z < 256 -> byte_val (byte_of z) = z.
Proof. intros Hz. unfold byte_val, byte_of. rewrite N_ascii_embedding by lia. lia. Qed.
Lemma byte_of_val c : byte_of (byte_val c) = c.
Proof. unfold byte_val, byte_of. by rewrite N2Z.id, ascii_N_embedding. Qed.

Lemma str_take_app a b n : String.length a = n -> str_take n (a ++ b) = a.
Proof. intros <-. induction a as [|c a IH]; [by destruct b|exact (f_equal (String c) IH)]. Qed.
Lemma str_drop_app a b n : String.length a = n -> str_drop n (a ++ b) = b.
Proof. intros <-. induction a as [|c a IH]; [by destruct b|exact IH]. Qed.
Lemma str_take_all n s : String.length s = n -> str_take n s = s.
Proof. intros <-. induction s as [|c s IH]; simpl; [done|by rewrite IH]. Qed.
Lemma zeros_length n : String.length (zeros n) = n.
Proof. induction n; simpl; lia. Qed.
Lemma str_take_length n s : (n <= String.length s)%nat -> String.length (str_take n s) = n.
Proof. revert s. induction n as [|n IH]; intros [|c s] Hn; simpl in *; try lia. rewrite IH; lia. Qed.
Lemma str_drop_length n s : String.length (str_drop n s) = (String.length s - n)%nat.
Proof. revert s. by induction n as [|n IH]; intros [|c s]; simpl. Qed.
Lemma take_drop_str n s : (str_take n s ++ str_drop n s)%string = s.
Proof. revert s. induction n as [|n IH]; intros [|c s]; [done..|]. exact (f_equal (String c) (IH s)). Qed.
Lemma str_drop_drop n m s : str_drop m (str_drop n s) = str_drop (n + m) s.
Proof. revert s. induction n as [|n IH]; intros [|c s]; [done| |by destruct m|apply IH]. done. Qed.

(** ** base64 *)
Lemma b64_char_ok n : 0 <= n < 64 ->
  b64_value (b64_char n) = Some n /\ byte_val (b64_char n) ∉ [10; 13; 35; 61].
Proof.
  intros Hn.
  assert (forallb (fun k => bool_decide (b64_value (b64_char k) = Some k) &&
    bool_decide (byte_val (b64_char k) ∉ [10; 13; 35; 61])) (Z.of_nat <$> seq 0 64) = true) as Hall by (vm_compute; reflexivity).
  rewrite forallb_forall in Hall. specialize (Hall n).
  assert (n ∈ Z.of_nat <$> seq 0 64) as Hin by (apply list_elem_of_fmap; exists (Z.to_nat n); split; [lia|apply elem_of_seq; lia]).
  apply list_elem_of_In, Hall in Hin. by bprop.
Qed.

Lemma b64_value_char n : 0 <= n < 64 -> b64_value (b64_char n) = Some n.
Proof. intros Hn. by destruct (b64_char_ok n Hn). Qed.
Lemma b64_eq_sign n : 0 <= n < 64 -> (byte_val (b64_char n) =? 61) = false.
Proof. intros Hn. apply Z.eqb_neq. intros He. apply (b64_char_ok n Hn). rewrite He. by repeat (left || right). Qed.
Lemma strip_char n r : 0 <= n < 64 -> strip_newlines (String (b64_char n) r) = String (b64_char n) (strip_newlines r).
Proof.
  intros Hn. simpl. destruct (b64_char_ok n Hn) as [_ Hnot].
  destruct (Z.eqb_spec (byte_val (b64_char n)) 10) as [He|]; [rewrite He in Hnot; by destruct Hnot; left|].
  destruct (Z.eqb_spec (byte_val (b64_char n)) 13) as [He|]; [rewrite He in Hnot; by destruct Hnot; right; left|done].
Qed.

Ltac sextets x := assert (0 <= x / 262144 < 64 /\ 0 <= x / 4096 mod 64 < 64 /\ 0 <= x / 64 mod 64 < 64 /\ 0 <= x mod 64 < 64)
  as (? & ? & ? & ?) by (Z.to_euclidean_division_equations; lia).

Lemma strip_base64 : forall s, strip_newlines (base64_EncodeToString s) = base64_EncodeToString s.
Proof.
  fix IH 1. intros [|a [|b [|c r]]]; [done|..]; cbn [base64_EncodeToString];
    pose proof (byte_val_range a); try pose proof (byte_val_range b); try pose proof (byte_val_range c).
  - sextets (byte_val a * 65536). by rewrite !strip_char.
  - sextets (byte_val a * 65536 + byte_val b * 256). by rewrite !strip_char.
  - sextets (byte_val a * 65536 + byte_val b * 256 + byte_val c). by rewrite !strip_char, IH.
Qed.

Lemma decode_encode : forall s, decode_quads (base64_EncodeToString s) = Some s.
Proof.
  fix IH 1. intros [|a [|b [|c r]]]; [done|..]; cbn [base64_EncodeToString];
    pose proof (byte_val_range a) as Ha; try pose proof (byte_val_range b) as Hb; try pose proof (byte_val_range c) as Hc.
  - set (x := byte_val a * 65536) in *. sextets x. cbn [decode_quads].
    rewrite !b64_value_char by done. cbn [mbind option_bind].
    assert ((x / 262144 * 262144 + x / 4096 mod 64 * 4096) / 65536 = byte_val a) as ->
      by (unfold x in *; Z.to_euclidean_division_equations; lia).
    by rewrite byte_of_val.
  - set (x := byte_val a * 65536 + byte_val b * 256) in *. sextets x. cbn [decode_quads].
    rewrite !b64_value_char, b64_eq_sign by done. cbn [mbind option_bind].
    assert (x / 262144 * 262144 + x / 4096 mod 64 * 4096 + x / 64 mod 64 * 64 = x) as ->
      by (unfold x in *; Z.to_euclidean_division_equations; lia).
    assert (x / 65536 = byte_val a) as -> by (unfold x; Z.to_euclidean_division_equations; lia).
    assert (x / 256 mod 256 = byte_val b) as -> by (unfold x; Z.to_euclidean_division_equations; lia).
    by rewrite !byte_of_val.
  - set (x := byte_val a * 65536 + byte_val b * 256 + byte_val c) in *. sextets x. cbn [decode_quads].
    rewrite !b64_value_char, !b64_eq_sign by done. cbn [mbind option_bind].
    rewrite IH. cbn [mbind option_bind].
    assert (x / 262144 * 262144 + x / 4096 mod 64 * 4096 + x / 64 mod 64 * 64 + x mod 64 = x) as ->
      by (Z.to_euclidean_division_equations; lia).
    assert (x / 65536 = byte_val a) as -> by (unfold x; Z.to_euclidean_division_equations; lia).
    assert (x / 256 mod 256 = byte_val b) as -> by (unfold x; Z.to_euclidean_division_equations; lia).
    assert (x mod 256 = byte_val c) as -> by (unfold x; Z.to_euclidean_division_equations; lia).
    by rewrite !byte_of_val.
Qed.

Lemma base64_roundtrip s : base64_DecodeString (base64_EncodeToString s) = Some s.
Proof. unfold base64_DecodeString. rewrite strip_base64. apply decode_encode. Qed.

Lemma base64_length : forall s, (3 * String.length (base64_EncodeToString s) >= 4 * String.length s)%nat.
Proof. fix IH 1. intros [|a [|b [|c r]]]; cbn -[Nat.mul]; try lia. pose proof (IH r). lia. Qed.

Lemma base64_head s : s <> ""%string -> exists n r, 0 <= n < 64 /\ base64_EncodeToString s = String (b64_char n) r.
Proof.
  destruct s as [|a [|b [|c r]]]; [done|..]; intros _; cbn [base64_EncodeToString];
    pose proof (byte_val_range a); try pose proof (byte_val_range b); try pose proof (byte_val_range c);
    (eexists _, _; split; [|done]); Z.to_euclidean_division_equations; lia.
Qed.

(** ** Padding *)
Lemma chunk_facts n : 32 < n ->
  let k := Z.log2 (n - 1) in
  let nextPower := Z.shiftl 1 (k + 1) in
  let chunk := if nextPower <=? 256 then 32 else nextPower / 8 in
  0 < chunk /\ chunk mod 32 = 0 /\ chunk <= Z.max 32 ((n - 1) / 4).
Proof.
  intros Hn k nextPower chunk. destruct (Z.log2_spec (n - 1)) as [Hlo Hhi]; [lia|]. fold k in Hlo, Hhi.
  assert (5 <= k) as Hk by (apply (Z.log2_le_mono 32 (n - 1)); lia).
  assert (nextPower = 2 ^ (k + 1)) as Hnp by (unfold nextPower; rewrite Z.shiftl_1_l; done).
  unfold chunk. destruct (Z.leb_spec nextPower 256) as [|Hbig]; [split_and!; [lia|done|lia]|].
  assert (8 <= k) as Hk8.
  { destruct (Z.le_gt_cases 8 k); [done|]. assert (2 ^ (k + 1) <= 2 ^ 8) by (apply Z.pow_le_mono_r; lia). lia. }
  assert (nextPower / 8 = 2 ^ (k - 2)) as ->.
  { rewrite Hnp. replace (k + 1) with (k - 2 + 3) by lia. rewrite Z.pow_add_r by lia. apply Z.div_mul. lia. }
  assert (2 ^ k = 2 ^ (k - 2) * 4) as Hpow by (replace k with (k - 2 + 2) at 1 by lia; rewrite Z.pow_add_r by lia; lia).
  pose proof (Z.pow_pos_nonneg 2 (k - 2) ltac:(lia) ltac:(lia)). split_and!; [lia| |].
  - replace (k - 2) with (k - 7 + 5) by lia. rewrite Z.pow_add_r by lia. apply Z.mod_mul. lia.
  - apply Z.max_le_iff. right. apply Z.div_le_lower_bound; lia.
Qed.

Lemma calcPaddedLen_bounds n : 1 <= n ->
  let p := calcPaddedLen n in n <= p /\ 32 <= p /\ p mod 32 = 0 /\ p < n + Z.max 32 ((n - 1) / 4).
Proof.
  intros Hn. unfold calcPaddedLen. destruct (Z.leb_spec n 32) as [|Hbig]; [split_and!; (done || lia)|].
  destruct (chunk_facts n Hbig) as (Hc & Hmod & Hle). cbv zeta in *. set (chunk := if _ <=? 256 then _ else _) in *.
  assert (n - 1 < chunk * ((n - 1) / chunk + 1) <= n - 1 + chunk) as Hp
    by (pose proof (Z.div_mod (n - 1) chunk ltac:(lia)); pose proof (Z.mod_pos_bound (n - 1) chunk Hc); nia).
  split_and!; try lia. rewrite Z.mul_comm, Z.mul_mod, Hmod, Z.mul_0_r by lia. done.
Qed.

Lemma put_u16_get n s : 0 <= n < 65536 -> get_u16 (put_u16 n ++ s) = n.
Proof.
  intros Hn. unfold put_u16. change (get_u16 (String ?a (String ?b "") ++ s)) with (byte_val a * 256 + byte_val b).
  rewrite !byte_val_of by (Z.to_euclidean_division_equations; lia). Z.to_euclidean_division_equations; lia.
Qed.

Lemma pad_length s : 1 <= slen s -> String.length (pad s) = Z.to_nat (2 + calcPaddedLen (slen s)).
Proof.
  intros Hs. destruct (calcPaddedLen_bounds _ Hs) as (Hle & _). unfold pad. rewrite !str_length_app, zeros_length.
  unfold slen in *. cbn [String.length put_u16]. lia.
Qed.

Lemma unpad_pad s : 1 <= slen s <= nip44MaxPlaintextSize -> unpad (pad s) = Ok s.
Proof.
  intros Hs. unfold nip44MaxPlaintextSize in Hs. destruct (calcPaddedLen_bounds (slen s)) as (Hle & H32 & _); [lia|].
  assert (slen (pad s) = 2 + calcPaddedLen (slen s)) as Hlen by (unfold slen at 1; rewrite pad_length; lia).
  unfold unpad. rewrite Hlen. destruct (Z.ltb_spec (2 + calcPaddedLen (slen s)) 2); [lia|].
  assert (get_u16 (pad s) = slen s) as -> by (apply put_u16_get; lia).
  destruct (Z.eqb_spec (slen s) 0); [lia|]. cbn [mbind result_mbind].
  destruct (Z.eqb_spec (slen s) 0); [lia|]. destruct (Z.ltb_spec (2 + calcPaddedLen (slen s)) (2 + slen s)); [lia|].
  rewrite Z.eqb_refl. cbn [negb]. f_equal. unfold pad. change (Z.to_nat 2) with 2%nat.
  rewrite (str_drop_app (put_u16 (slen s))) by done. apply str_take_app. unfold slen. lia.
Qed.

(** ** What is decrypted *)
Section correct.
Context `{Nip44Laws}.

Lemma message_keys_sizes k nonce : let '(a, b, c) := getMessageKeys k nonce in
  String.length a = 32%nat /\ String.length b = 12%nat /\ String.length c = 32%nat.
Proof.
  unfold getMessageKeys. pose proof (law_expand_length k nonce).
  split_and!; apply str_take_length; rewrite ?str_drop_length; lia.
Qed.

(** The parts of a frame. *)
Lemma frame_parts nonce c mac : String.length nonce = 32%nat -> String.length mac = 32%nat ->
  let data := String "002" (nonce ++ c ++ mac) in
  str_take 32 (str_drop 1 data) = nonce /\ str_take (String.length data - 65) (str_drop 33 data) = c /\
  str_drop (String.length data - 32) data = mac /\ String.length data = (65 + String.length c)%nat.
Proof.
  intros Hn Hm data.
  assert (String.length data = (65 + String.length c)%nat) as Hlen
    by (unfold data; cbn [String.length]; rewrite !str_length_app; lia).
  rewrite Hlen. split_and!; [by apply str_take_app| | |done].
  - change (str_drop 33 data) with (str_drop 32 (nonce ++ c ++ mac)). rewrite (str_drop_app nonce) by done. apply str_take_app. lia.
  - replace (65 + String.length c - 32)%nat with (S (String.length (nonce ++ c))) by (rewrite str_length_app; lia).
    change (str_drop (S (String.length (nonce ++ c))) data) with (str_drop (String.length (nonce ++ c)) (nonce ++ c ++ mac)).
    rewrite <-str_app_assoc. by apply str_drop_app.
Qed.

Lemma encrypt_inv plaintext key nonce payload : Encrypt (Some nonce) plaintext key = Ok payload ->
  (slen key =? 32) = true /\ 1 <= slen plaintext <= nip44MaxPlaintextSize /\ payload = encryptWithNonce plaintext key nonce.
Proof.
  unfold Encrypt. destruct (slen key =? 32); [|done]. destruct (_ || _) eqn:Hlen; [done|]. simpl.
  intros [= <-]. bprop. split_and!; done.
Qed.

(** The frame of an encryption. *)
Lemma encrypt_frame plaintext key nonce : String.length nonce = 32%nat -> 1 <= slen plaintext ->
  let '(ck, cn, hk) := getMessageKeys key nonce in
  let c := chacha20_XOR ck cn (pad plaintext) in
  let data := String "002" (nonce ++ c ++ hmacAAD hk c nonce) in
  encryptWithNonce plaintext key nonce = base64_EncodeToString data /\
  str_take 32 (str_drop 1 data) = nonce /\ str_take (String.length data - 65) (str_drop 33 data) = c /\
  str_drop (String.length data - 32) data = hmacAAD hk c nonce /\ slen data = 67 + calcPaddedLen (slen plaintext).
Proof.
  intros Hnonce Hmin. unfold encryptWithNonce. destruct (getMessageKeys key nonce) as [[ck cn] hk].
  set (c := chacha20_XOR ck cn (pad plaintext)).
  assert (String.length c = Z.to_nat (2 + calcPaddedLen (slen plaintext))) as Hc
    by (unfold c; rewrite law_chacha_length; by apply pad_length).
  destruct (calcPaddedLen_bounds (slen plaintext) Hmin) as (? & ? & _).
  destruct (frame_parts nonce c (hmacAAD hk c nonce) Hnonce (law_hmac_length _ _)) as (Hn & Hct & Hm & Hdlen).
  split_and!; [done..|]. unfold slen at 1. lia.
Qed.

Lemma decrypt_encrypt plaintext key nonce payload : String.length nonce = 32%nat ->
  Encrypt (Some nonce) plaintext key = Ok payload -> Decrypt payload key = Ok plaintext.
Proof.
  intros Hnonce Henc. destruct (encrypt_inv _ _ _ _ Henc) as (Hkey & [Hmin Hmax] & ->).
  destruct (calcPaddedLen_bounds (slen plaintext) Hmin) as (_ & H32 & _).
  pose proof (encrypt_frame plaintext key nonce Hnonce Hmin) as Hframe.
  destruct (getMessageKeys key nonce) as [[ck cn] hk] eqn:Hkeys. cbv zeta in Hframe.
  set (data := String "002" _) in *. destruct Hframe as (-> & Hn & Hct & Hm & Hdlen).
  destruct (base64_head data) as (n0 & r0 & Hn0 & Hhead); [done|].
  unfold Decrypt. rewrite Hkey. cbn [negb]. rewrite Hhead.
  assert (byte_val (b64_char n0) =? 35 = false) as ->
    by (apply Z.eqb_neq; intros He; apply (b64_char_ok n0 Hn0); rewrite He; right; right; left).
  rewrite <-Hhead. assert (slen (base64_EncodeToString data) <? nip44MinPayloadLen = false) as ->.
  { apply Z.ltb_ge. unfold slen, nip44MinPayloadLen in *. pose proof (base64_length data). lia. }
  rewrite base64_roundtrip. assert (slen data <? nip44MinDecodedLen = false) as ->
    by (apply Z.ltb_ge; unfold nip44MinDecodedLen; lia).
  change (String.eqb (str_take 1 data) (String "002" "")) with true. cbn [negb]. rewrite Hn, Hct, Hm, Hkeys.
  rewrite String.eqb_refl. cbn [negb]. rewrite law_chacha_involutive. by apply unpad_pad.
Qed.

(** C13: a message comes back. What Encrypt produced for a plaintext of 1 to 65535
    bytes, Decrypt returns under the same conversation key, and the frame hides
    its length up to the padding: a multiple of 32 bytes, at most a quarter or 32
    bytes more. *)
Theorem nip44_roundtrip plaintext key nonce payload
    (Hnonce : String.length nonce = 32%nat) (Henc : Encrypt (Some nonce) plaintext key = Ok payload) :
  Decrypt payload key = Ok plaintext /\
  exists data, base64_DecodeString payload = Some data /\
    slen data = 67 + calcPaddedLen (slen plaintext) /\ calcPaddedLen (slen plaintext) mod 32 = 0 /\
    calcPaddedLen (slen plaintext) < slen plaintext + Z.max 32 ((slen plaintext - 1) / 4).
Proof.
  split; [by eapply decrypt_encrypt|]. destruct (encrypt_inv _ _ _ _ Henc) as (_ & [Hmin _] & ->).
  destruct (calcPaddedLen_bounds (slen plaintext) Hmin) as (_ & _ & Hmod & Hp).
  pose proof (encrypt_frame plaintext key nonce Hnonce Hmin) as Hframe.
  destruct (getMessageKeys key nonce) as [[ck cn] hk]. destruct Hframe as (-> & _ & _ & _ & Hdlen).
  eexists. split; [apply base64_roundtrip|done].
Qed.

(** Nothing unauthenticated is decrypted. When Decrypt succeeds the payload is
    a version 2 frame whose MAC, under a key only the two parties derive, covers
    the nonce and the ciphertext; a payload with any other MAC is refused. *)
Theorem nip44_authentic payload key plaintext (Hdec : Decrypt payload key = Ok plaintext) :
  exists nonce c ck cn hk, base64_DecodeString payload = Some (String "002" (nonce ++ c ++ hmac_SHA256 hk (nonce ++ c))) /\
    String.length nonce = 32%nat /\ getMessageKeys key nonce = (ck, cn, hk) /\
    unpad (chacha20_XOR ck cn c) = Ok plaintext.
Proof.
  unfold Decrypt in Hdec. destruct (slen key =? 32); [|done]. cbn [negb] in Hdec.
  destruct payload as [|first rest]; [done|]. destruct (byte_val first =? 35); [done|].
  destruct (slen _ <? nip44MinPayloadLen); [done|].
  destruct (base64_DecodeString _) as [data|]; [|done].
  destruct (Z.ltb_spec (slen data) nip44MinDecodedLen) as [|Hlen]; [done|]. unfold nip44MinDecodedLen, slen in Hlen.
  destruct (String.eqb_spec (str_take 1 data) (String "002" "")) as [Hv|]; [|done]. cbn [negb] in Hdec.
  destruct (getMessageKeys _ _) as [[ck cn] hk] eqn:Hkeys.
  destruct (String.eqb_spec (str_drop (String.length data - 32) data)
    (hmacAAD hk (str_take (String.length data - 65) (str_drop 33 data)) (str_take 32 (str_drop 1 data)))) as [Hmac|]; [|done].
  cbn [negb] in Hdec. exists (str_take 32 (str_drop 1 data)), (str_take (String.length data - 65) (str_drop 33 data)), ck, cn, hk.
  unfold hmacAAD in Hmac. rewrite <-Hmac. split_and!; [|apply str_take_length; rewrite str_drop_length; lia|done|done].
  f_equal. destruct data as [|v data]; [done|]. cbn [str_take] in Hv. assert (v = "002"%char) as -> by congruence.
  f_equal. cbn [str_drop String.length] in *.
  replace (S (String.length data) - 32)%nat with (S (String.length data - 32)) by lia. cbn [str_drop].
  rewrite <-(take_drop_str 32 data) at 1. f_equal.
  rewrite <-(take_drop_str (S (String.length data) - 65) (str_drop 32 data)) at 1. f_equal.
  rewrite str_drop_drop. f_equal. lia.
Qed.
End correct.

(** ** A toy cipher *)
#[export] Instance toy_nip44 : Nip44Crypto := {|
  PointKey := unit;
  btcec_ParsePubKey := fun _ => Some tt;
  ecdh_x := fun _ _ => pad32 "x";
  hkdf_Extract := fun secret salt => pad32 (secret ++ salt);
  hkdf_Expand76 := fun key info => (pad32 key ++ pad32 info ++ "000000000000")%string;
  chacha20_XOR := fun _ _ s => s;
  hmac_SHA256 := fun key s => pad32 (s ++ key)
|}.
Lemma pad32_length s : String.length (pad32 s) = 32%nat.
Proof.
  unfold pad32. set (t := "00000000000000000000000000000000"%string).
  assert (forall n a, (n <= String.length a)%nat -> String.length (String.substring 0 n a) = n) as Hsub.
  { induction n as [|n IH]; intros [|c a] Hn; simpl in *; try lia. rewrite IH; lia. }
  apply Hsub. rewrite str_length_app. simpl. lia.
Qed.
#[export] Instance toy_nip44_laws : Nip44Laws.
Proof.
  split; try done; intros; try apply pad32_length.
  - cbn. rewrite !str_length_app, !pad32_length. done.
  - by exists tt, tt.
Qed.
Definition toy_conv : string := GetConversationKey tt tt.

Lemma nip44_roundtrip_witness : exists payload,
  Encrypt (Some (pad32 "nonce")) "hello" toy_conv = Ok payload /\ Decrypt payload toy_conv = Ok "hello"%string.
Proof.
  destruct (Encrypt (Some (pad32 "nonce")) "hello" toy_conv) as [payload|] eqn:Henc; [|discriminate].
  exists payload. split; [reflexivity|]. by destruct (nip44_roundtrip "hello" toy_conv (pad32 "nonce") payload eq_refl Henc).
Defined.

Lemma nip44_authentic_witness : exists payload nonce c hk,
  base64_DecodeString payload = Some (String "002" (nonce ++ c ++ hmac_SHA256 hk (nonce ++ c))) /\ payload <> ""%string.
Proof.
  set (payload := encryptWithNonce "hello" toy_conv (pad32 "nonce")).
  assert (Decrypt payload toy_conv = Ok "hello"%string) as Hdec by (vm_compute; reflexivity).
  destruct (nip44_authentic payload toy_conv "hello" Hdec) as (nonce & c & ck & cn & hk & Hd & _).
  exists payload, nonce, c, hk. split; [exact Hd|]. vm_compute. discriminate.
Defined.
