(* ===== verification/Envelope.v ===== *)
(** * Envelope: encrypted token delivery (src/internal/nostr/token_envelope.go)

    A payload is encrypted for its recipient with Nip44.v inside a signed event
    of Nostr.v. encoding/json of the two payloads is the class [EnvelopeJson]. *)
From S2P Require Import Prelude Mint Nostr Nip44.

Definition TokenEnvelopeKind : Z := 21000.
Definition TokenReplyEnvelopeKind : Z := 21001.

Record TokenPayload := mkPayload {
  tp_Proofs : list Proof_;
  tp_WGPubkey : string;
  tp_Role : string;
  tp_RequestID : string;
  tp_Version : Z
}.
Record TokenReplyPayload := mkReplyPayload {
  tr_RequestID : string;
  tr_OK : bool;
  tr_Error : string;
  tr_StatusCode : Z;
  tr_TunnelIP : string;
  tr_NodeWGPubkey : string;
  tr_BytesAllowed : Z;
  tr_Version : Z
}.

Class EnvelopeJson := {
  marshal_payload : TokenPayload -> option string;
  unmarshal_payload : string -> option TokenPayload;
  marshal_reply : TokenReplyPayload -> option string;
  unmarshal_reply : string -> option TokenReplyPayload
}.

(** ** Hex *)
Definition unhex (c : ascii) : Z :=
  let n := byte_val c in
  if (48 <=? n) && (n <=? 57) then n - 48
  else if (97 <=? n) && (n <=? 102) then n - 97 + 10
  else if (65 <=? n) && (n <=? 70) then n - 65 + 10
  else 255.
Fixpoint unhex_loop (src : string) : option string :=
  match src with
  | String a (String b r) =>
      let hi := unhex a in
      let lo := unhex b in
      if (hi =? 255) || (lo =? 255) then None
      else (fun t => String (byte_of (Z.lor (Z.shiftl hi 4 mod 256) lo)) t) <$> unhex_loop r
  | _ => Some ""%string
  end.
(** [room] is len(dst). *)
Definition hexDecode (src : string) (room : nat) : option string :=
  if negb (slen src mod 2 =? 0) then None
  else if (room <? String.length src / 2)%nat then None
  else unhex_loop src.

Inductive envelope_error :=
| EnvMarshal | EnvKeyLength | EnvKeyHex | EnvKeyParse | EnvEncrypt (e : nip44_error) | EnvSign (e : nostr_error)
| EnvKind | EnvDecrypt (e : nip44_error) | EnvUnmarshal.

Section envelope.
Context `{Nip44Crypto} `{EnvelopeJson}.

(** The even lift of a 32-byte x-only key. *)
Definition PubkeyFromHex (hexStr : string) : result envelope_error PointKey :=
  if negb (slen hexStr =? 64) then Err EnvKeyLength
  else match hexDecode hexStr 32 with
  | None => Err EnvKeyHex
  | Some b =>
      if negb (String.length b =? 32)%nat then Err EnvKeyHex
      else match btcec_ParsePubKey (String "002" b) with None => Err EnvKeyParse | Some p => Ok p end
  end.

Definition wrap_error {A E E'} (f : E -> E') (r : result E A) : result E' A :=
  match r with Ok a => Ok a | Err e => Err (f e) end.

(** [payloadJSON]: the marshalled payload; [nonce]: of crypto/rand; [now]: seconds. *)
Definition sealEnvelope (senderKP : KeyPair) (recipientPubkeyHex : string) (kind : Z) (payloadJSON : option string)
    (nonce : option string) (now : Z) : result envelope_error Event :=
  match payloadJSON with
  | None => Err EnvMarshal
  | Some json =>
      recipientPub ← PubkeyFromHex recipientPubkeyHex;
      let convKey := GetConversationKey (nk_PrivateKey senderKP) recipientPub in
      encrypted ← wrap_error EnvEncrypt (Encrypt nonce json convKey);
      wrap_error EnvSign
        (Sign senderKP now (mkEvent "" (PubkeyHex senderKP) now kind [["p"; recipientPubkeyHex]]%string encrypted ""))
  end.
Definition SealTokenEnvelope (senderKP : KeyPair) (recipient : string) (payload : TokenPayload) (nonce : option string) (now : Z) :=
  sealEnvelope senderKP recipient TokenEnvelopeKind (marshal_payload payload) nonce now.
Definition SealTokenReplyEnvelope (senderKP : KeyPair) (recipient : string) (payload : TokenReplyPayload) (nonce : option string) (now : Z) :=
  sealEnvelope senderKP recipient TokenReplyEnvelopeKind (marshal_reply payload) nonce now.

(** The decrypted text; [event] need not have been verified. *)
Definition openEnvelope {A} (event : Event) (recipientKP : KeyPair) (expectedKind : Z) (unmarshal : string -> option A) :
    result envelope_error A :=
  if negb (ev_Kind event =? expectedKind) then Err EnvKind
  else
    senderPub ← PubkeyFromHex (ev_Pubkey event);
    decrypted ← wrap_error EnvDecrypt (Decrypt (ev_Content event) (GetConversationKey (nk_PrivateKey recipientKP) senderPub));
    match unmarshal decrypted with None => Err EnvUnmarshal | Some p => Ok p end.
Definition OpenTokenEnvelope (event : Event) (recipientKP : KeyPair) : result envelope_error TokenPayload :=
  openEnvelope event recipientKP TokenEnvelopeKind unmarshal_payload.
Definition OpenTokenReplyEnvelope (event : Event) (recipientKP : KeyPair) : result envelope_error TokenReplyPayload :=
  openEnvelope event recipientKP TokenReplyEnvelopeKind unmarshal_reply.
End envelope.

(** ** The package's own hex decoder is encoding/hex's *)
Lemma unhex_hex_value c : unhex c = match hex_value c with Some n => Z.of_nat n | None => 255 end.
Proof. destruct c as [[] [] [] [] [] [] [] []]; vm_compute; reflexivity. Qed.
Lemma hex_value_small c n : hex_value c = Some n -> (n < 16)%nat.
Proof. destruct c as [[] [] [] [] [] [] [] []]; vm_compute; intros [= <-]; lia. Qed.

Lemma nibbles x y : (x < 16)%nat -> (y < 16)%nat ->
  byte_of (Z.lor (Z.shiftl (Z.of_nat x) 4 mod 256) (Z.of_nat y)) = ascii_of_nat (16 * x + y).
Proof.
  intros Hx Hy.
  assert (forallb (fun x => forallb (fun y => Ascii.eqb (byte_of (Z.lor (Z.shiftl (Z.of_nat x) 4 mod 256) (Z.of_nat y)))
    (ascii_of_nat (16 * x + y))) (seq 0 16)) (seq 0 16) = true) as Hall by (vm_compute; reflexivity).
  rewrite forallb_forall in Hall. specialize (Hall x ltac:(apply in_seq; lia)).
  rewrite forallb_forall in Hall. specialize (Hall y ltac:(apply in_seq; lia)). by apply Ascii.eqb_eq.
Qed.

Lemma unhex_loop_ok s : Nat.even (String.length s) = true -> unhex_loop s = hex_decode s.
Proof.
  revert s. fix IH 1. intros [|a [|b r]] He; [done..|]. cbn [unhex_loop hex_decode].
  rewrite !unhex_hex_value, (IH r He).
  destruct (hex_value a) as [x|] eqn:Hx; [|done]. apply hex_value_small in Hx.
  destruct (Z.eqb_spec (Z.of_nat x) 255); [lia|].
  destruct (hex_value b) as [y|] eqn:Hy; [|done]. apply hex_value_small in Hy.
  destruct (Z.eqb_spec (Z.of_nat y) 255); [lia|]. cbn [orb]. rewrite nibbles by done.
  by destruct (hex_decode r).
Qed.

Section correct.
Context `{Nip44Laws} `{!SchnorrLaws} `{EnvelopeJson}.

Lemma PubkeyFromHex_own kp : own_key kp ->
  PubkeyFromHex (PubkeyHex kp) =
  match btcec_ParsePubKey (String "002" (schnorr_SerializePubKey (btcec_PubKey (nk_PrivateKey kp)))) with
  | None => Err EnvKeyParse
  | Some p => Ok p
  end.
Proof.
  unfold own_key. intros Hown. unfold PubkeyFromHex, PubkeyHex, hexDecode. rewrite !Hown.
  set (key := schnorr_SerializePubKey _). assert (String.length key = 32%nat) as Hk by apply law_pubkey_length.
  pose proof (hex_encode_length key) as Hlen. rewrite Hk in Hlen. unfold slen. rewrite Hlen.
  rewrite unhex_loop_ok, hex_decode_encode by (by rewrite Hlen).
  change (negb (Z.of_nat (2 * 32) =? 64)) with false. change (negb (Z.of_nat (2 * 32) mod 2 =? 0)) with false.
  cbv iota. change (32 <? 2 * 32 / 2)%nat with false. cbv iota. by rewrite Hk.
Qed.

(** What sealEnvelope makes, openEnvelope undoes at the addressee. *)
Lemma open_seal {A} sender recipient kind json nonce now event (unmarshal : string -> option A) payload :
  own_key sender -> own_key recipient -> String.length nonce = 32%nat -> unmarshal json = Some payload ->
  sealEnvelope sender (PubkeyHex recipient) kind (Some json) (Some nonce) now = Ok event ->
  openEnvelope event recipient kind unmarshal = Ok payload /\ Verify event = Ok tt /\
  ev_Pubkey event = PubkeyHex sender /\ ev_Kind event = kind /\ GetTagValue "p" event = PubkeyHex recipient.
Proof.
  intros Hs Hr Hn Hu Hseal. unfold sealEnvelope in Hseal. rewrite PubkeyFromHex_own in Hseal by done.
  destruct (law_ecdh (nk_PrivateKey sender) (nk_PrivateKey recipient)) as (ps & pr & Hps & Hpr & Hdh).
  rewrite Hpr in Hseal. cbn [mbind result_mbind] in Hseal.
  destruct (Encrypt _ _ _) as [encrypted|] eqn:Henc; [|done]. cbn [wrap_error mbind result_mbind] in Hseal.
  destruct (Sign _ _ _) as [e|] eqn:Hsign; [|done]. injection Hseal as <-.
  destruct (event_sign_verify _ _ _ _ Hs Hsign) as (Hv & Hpk & Hk & Ht & Hc). cbn in Hk, Ht, Hc.
  split_and!; [|done|done|done|by unfold GetTagValue; rewrite Ht].
  unfold openEnvelope. rewrite Hk, Z.eqb_refl, Hpk, PubkeyFromHex_own, Hps by done. cbn [negb mbind result_mbind].
  rewrite Hc. unfold GetConversationKey in *. rewrite <-Hdh.
  by rewrite (decrypt_encrypt _ _ _ _ Hn Henc); cbn [wrap_error mbind result_mbind]; rewrite Hu.
Qed.

(** A token delivery and its reply reach who they are meant for. The event a
    client seals for a node verifies, names the client, is addressed to the node,
    and opens there to the payload; the reply the node seals for the key the
    request came from opens at the client to the node's answer. *)
Theorem envelope_exchange client node request request_json reply reply_json nonce nonce' now now' event answer
    (Hclient : own_key client) (Hnode : own_key node)
    (Hnonce : String.length nonce = 32%nat) (Hnonce' : String.length nonce' = 32%nat)
    (Hrequest : marshal_payload request = Some request_json) (Hparse : unmarshal_payload request_json = Some request)
    (Hreply : marshal_reply reply = Some reply_json) (Hparse' : unmarshal_reply reply_json = Some reply)
    (Hseal : SealTokenEnvelope client (PubkeyHex node) request (Some nonce) now = Ok event)
    (Hanswer : SealTokenReplyEnvelope node (ev_Pubkey event) reply (Some nonce') now' = Ok answer) :
  Verify event = Ok tt /\ ev_Pubkey event = PubkeyHex client /\ GetTagValue "p" event = PubkeyHex node /\
  OpenTokenEnvelope event node = Ok request /\
  Verify answer = Ok tt /\ ev_Pubkey answer = PubkeyHex node /\ GetTagValue "p" answer = PubkeyHex client /\
  OpenTokenReplyEnvelope answer client = Ok reply /\
  OpenTokenEnvelope answer node = Err EnvKind /\ OpenTokenReplyEnvelope event client = Err EnvKind.
Proof.
  unfold SealTokenEnvelope, SealTokenReplyEnvelope in *. rewrite Hrequest in Hseal. rewrite Hreply in Hanswer.
  destruct (open_seal _ _ _ _ _ _ _ unmarshal_payload _ Hclient Hnode Hnonce Hparse Hseal) as (Hopen & Hv & Hpk & Hk & Hp).
  rewrite Hpk in Hanswer.
  destruct (open_seal _ _ _ _ _ _ _ unmarshal_reply _ Hnode Hclient Hnonce' Hparse' Hanswer) as (Hopen' & Hv' & Hpk' & Hk' & Hp').
  split_and!; try done.
  - unfold OpenTokenEnvelope, openEnvelope. by rewrite Hk'.
  - unfold OpenTokenReplyEnvelope, openEnvelope. by rewrite Hk.
Qed.
End correct.

(** ** A toy encoder of the fields *)
#[export] Instance toy_envelope_json : EnvelopeJson := {|
  marshal_payload := fun p => Some ("request " ++ tp_RequestID p)%string;
  unmarshal_payload := fun s => Some (mkPayload [] "wg" "entry" (String.substring 8 (String.length s) s) 1);
  marshal_reply := fun r => Some ("reply " ++ tr_RequestID r)%string;
  unmarshal_reply := fun s => Some (mkReplyPayload (String.substring 6 (String.length s) s) true "" 0 "10.0.0.2" "node-wg" 1000 1)
|}.
Definition toy_request : TokenPayload := mkPayload [] "wg" "entry" "r-1" 1.
Definition toy_reply : TokenReplyPayload := mkReplyPayload "r-1" true "" 0 "10.0.0.2" "node-wg" 1000 1.

Lemma envelope_exchange_witness : exists event answer,
  SealTokenEnvelope toy_key (PubkeyHex toy_key) toy_request (Some (pad32 "n")) 7 = Ok event /\
  SealTokenReplyEnvelope toy_key (ev_Pubkey event) toy_reply (Some (pad32 "m")) 8 = Ok answer /\
  OpenTokenEnvelope event toy_key = Ok toy_request /\ OpenTokenReplyEnvelope answer toy_key = Ok toy_reply.
Proof.
  destruct (SealTokenEnvelope toy_key (PubkeyHex toy_key) toy_request (Some (pad32 "n")) 7) as [event|] eqn:Hseal; [|discriminate].
  assert (exists a, SealTokenReplyEnvelope toy_key (ev_Pubkey event) toy_reply (Some (pad32 "m")) 8 = Ok a) as (answer & Hanswer).
  { injection Hseal as <-. eexists. vm_compute. reflexivity. }
  exists event, answer.
  destruct (envelope_exchange toy_key toy_key toy_request "request r-1" toy_reply "reply r-1" (pad32 "n") (pad32 "m") 7 8 event answer)
    as (_ & _ & _ & Hopen & _ & _ & _ & Hopen' & _); try reflexivity; try assumption.
  repeat split; assumption.
Defined.
