(* ===== verification/Relay.v ===== *)
(** * Relay: connections to Nostr relays (src/internal/nostr/relay.go)

    A pool of connections, each with its subscriptions; a subscription is one
    channel of 64 events for the whole pool. The critical sections of
    connect, close, Subscribe, handleMessage and the end of a readLoop are steps
    that interleave; dialling, writing to a socket and JSON are arguments. *)
From S2P Require Import Prelude Nostr.

Record Relay := mkRelay {
  re_URL : string;
  (** the connection, by the number of the dial that made it *)
  re_conn : option nat;
  re_connected : bool;
  (** subscription id to channel *)
  re_subs : gmap string nat
}.
Record RelayPool := mkRelayPool {
  po_relays : list Relay;
  po_chans : gmap nat (list Event);
  (** running read loops: relay and connection *)
  po_loops : list (nat * nat);
  po_dials : nat
}.

Definition NewRelayPool (urls : list string) : RelayPool :=
  mkRelayPool ((fun url => mkRelay url None false ∅) <$> urls) ∅ [] 0.

Definition with_relay (i : nat) (f : Relay -> Relay) (p : RelayPool) : RelayPool :=
  mkRelayPool (alter f i (po_relays p)) (po_chans p) (po_loops p) (po_dials p).

(** ** One connection *)
(** [dialled]: whether websocket.Dial succeeded. *)
Definition connect (dialled : bool) (i : nat) (p : RelayPool) : bool * RelayPool :=
  if dialled then
    let c := po_dials p in
    let p1 := with_relay i (fun r => mkRelay (re_URL r) (Some c) true (re_subs r)) p in
    (true, mkRelayPool (po_relays p1) (po_chans p) ((i, c) :: po_loops p) (S c))
  else (false, p).

Definition close (i : nat) : RelayPool -> RelayPool :=
  with_relay i (fun r => mkRelay (re_URL r) None false (re_subs r)).

(** readLoop's deferred update, when a read failed or its context ended. *)
Definition readLoop_exit (i c : nat) (p : RelayPool) : RelayPool :=
  let p1 := with_relay i (fun r => if bool_decide (re_conn r = Some c)
                                   then mkRelay (re_URL r) None false (re_subs r) else r) p in
  mkRelayPool (po_relays p1) (po_chans p) (bfilter (fun l => negb (bool_decide (l = (i, c)))) (po_loops p)) (po_dials p).

(** [write c]: whether writing to connection c succeeded. *)
Definition send (write : nat -> bool) (r : Relay) : bool :=
  match re_conn r with None => false | Some c => write c end.

(** ** The pool *)
Fixpoint connect_loop (dialled : list bool) (i : nat) (p : RelayPool) : Z * RelayPool :=
  match dialled with
  | [] => (0, p)
  | d :: ds =>
      let '(ok, p1) := connect d i p in
      let '(n, p2) := connect_loop ds (S i) p1 in
      ((if ok then 1 else 0) + n, p2)
  end.
(** [dialled] has an answer for each relay. *)
Definition Connect (dialled : list bool) (p : RelayPool) : bool * RelayPool :=
  let '(connectedCount, p1) := connect_loop dialled 0 p in (negb (connectedCount =? 0), p1).

Fixpoint publish_loop (write : nat -> bool) (rs : list Relay) (accepted : Z) : Z :=
  match rs with
  | [] => accepted
  | r :: rest => publish_loop write rest (if re_connected r then if send write r then accepted + 1 else accepted else accepted)
  end.
(** [marshalled]: whether the event could be encoded. *)
Definition Publish (marshalled : bool) (write : nat -> bool) (p : RelayPool) : result string Z :=
  if negb marshalled then Err "marshal event message"%string
  else let accepted := publish_loop write (po_relays p) 0 in
       if accepted =? 0 then Err "event not accepted by any relay"%string else Ok accepted.

(** The channel is registered whether or not the REQ could be sent. *)
Definition fresh_chan (p : RelayPool) : nat := fresh (dom (po_chans p) : gset nat).
Definition Subscribe (subID : string) (p : RelayPool) : nat * RelayPool :=
  let ch := fresh_chan p in
  (ch, mkRelayPool ((fun r => if re_connected r then mkRelay (re_URL r) (re_conn r) (re_connected r) (<[subID := ch]> (re_subs r)) else r)
                      <$> po_relays p)
         (<[ch := []]> (po_chans p)) (po_loops p) (po_dials p)).

Definition Close (p : RelayPool) : RelayPool :=
  mkRelayPool ((fun r => mkRelay (re_URL r) None false (re_subs r)) <$> po_relays p) (po_chans p) (po_loops p) (po_dials p).

(** What a message of the relay decodes to; the others are only logged. *)
Inductive relay_message := MEvent (subID : string) (event : Event) | MOther.
Definition chan_cap : nat := 64.

Definition offer (ch : nat) (event : Event) (p : RelayPool) : RelayPool :=
  mkRelayPool (po_relays p)
    (alter (fun buf => if (length buf <? chan_cap)%nat then buf ++ [event] else buf) ch (po_chans p)) (po_loops p) (po_dials p).
Definition sub_chan (i : nat) (subID : string) (p : RelayPool) : option nat :=
  r ← po_relays p !! i; re_subs r !! subID.
Definition handleMessage (i : nat) (msg : relay_message) (p : RelayPool) : RelayPool :=
  match msg with
  | MEvent subID event => match sub_chan i subID p with Some ch => offer ch event p | None => p end
  | MOther => p
  end.

(** A receive of the channel's reader. *)
Definition take_event (ch : nat) (p : RelayPool) : option (Event * RelayPool) :=
  match po_chans p !! ch with
  | Some (e :: buf) => Some (e, mkRelayPool (po_relays p) (<[ch := buf]> (po_chans p)) (po_loops p) (po_dials p))
  | _ => None
  end.

(** truncateID *)
Definition truncateID (id : string) : string := if 8 <? slen id then String.substring 0 8 id else id.

(** ** Everything that can happen to a pool *)
Inductive pool_event := Arrived (ch : nat) (e : Event) | Taken (ch : nat) (e : Event).
Inductive pool_step (p : RelayPool) : list pool_event -> RelayPool -> Prop :=
| ps_connect d i : (i < length (po_relays p))%nat -> pool_step p [] (connect d i p).2
| ps_close i : pool_step p [] (close i p)
| ps_exit i c : (i, c) ∈ po_loops p -> pool_step p [] (readLoop_exit i c p)
| ps_close_all : pool_step p [] (Close p)
| ps_subscribe subID : pool_step p [] (Subscribe subID p).2
(** A read loop gets a message of its relay. *)
| ps_event i c subID e ch : (i, c) ∈ po_loops p -> sub_chan i subID p = Some ch ->
    pool_step p [Arrived ch e] (handleMessage i (MEvent subID e) p)
| ps_ignored i c msg : (i, c) ∈ po_loops p -> handleMessage i msg p = p -> pool_step p [] p
| ps_take ch e p' : take_event ch p = Some (e, p') -> pool_step p [Taken ch e] p'.

Inductive pool_run : RelayPool -> list pool_event -> RelayPool -> Prop :=
| pr_nil p : pool_run p [] p
| pr_snoc p log p1 evs p2 : pool_run p log p1 -> pool_step p1 evs p2 -> pool_run p (log ++ evs) p2.

Definition arrived_on (ch : nat) (log : list pool_event) : list Event :=
  omap (fun ev => match ev with Arrived c e => if bool_decide (c = ch) then Some e else None | Taken _ _ => None end) log.
Definition taken_from (ch : nat) (log : list pool_event) : list Event :=
  omap (fun ev => match ev with Taken c e => if bool_decide (c = ch) then Some e else None | Arrived _ _ => None end) log.

(** ** What holds of every pool *)
Record pool_ok (log : list pool_event) (p : RelayPool) : Prop := {
  pk_connected i r : po_relays p !! i = Some r -> re_connected r = bool_decide (is_Some (re_conn r));
  pk_reader i r c : po_relays p !! i = Some r -> re_conn r = Some c -> (i, c) ∈ po_loops p;
  pk_dialled i c : (i, c) ∈ po_loops p -> (c < po_dials p)%nat;
  pk_subs i r s ch : po_relays p !! i = Some r -> re_subs r !! s = Some ch -> is_Some (po_chans p !! ch);
  pk_cap ch buf : po_chans p !! ch = Some buf -> (length buf <= chan_cap)%nat;
  pk_order ch : sublist (taken_from ch log ++ default [] (po_chans p !! ch)) (arrived_on ch log)
}.

Lemma arrived_app ch l1 l2 : arrived_on ch (l1 ++ l2) = arrived_on ch l1 ++ arrived_on ch l2.
Proof. apply omap_app. Qed.
Lemma taken_app ch l1 l2 : taken_from ch (l1 ++ l2) = taken_from ch l1 ++ taken_from ch l2.
Proof. apply omap_app. Qed.

Lemma pool_ok_new urls : pool_ok [] (NewRelayPool urls).
Proof.
  split; simpl; try set_solver.
  - intros i r. rewrite list_lookup_fmap. by intros (url & _ & ->)%fmap_Some.
  - intros i r c. rewrite list_lookup_fmap. by intros (url & _ & ->)%fmap_Some.
  - intros i r s ch. rewrite list_lookup_fmap. by intros (url & _ & ->)%fmap_Some.
Qed.

(** Steps that only touch relays and read loops. *)
Lemma relays_step log p rs loops n : pool_ok log p ->
  (forall i r, rs !! i = Some r -> re_connected r = bool_decide (is_Some (re_conn r))) ->
  (forall i r c, rs !! i = Some r -> re_conn r = Some c -> (i, c) ∈ loops) ->
  (forall i c, (i, c) ∈ loops -> (c < n)%nat) ->
  (forall i r s ch, rs !! i = Some r -> re_subs r !! s = Some ch -> exists r', po_relays p !! i = Some r' /\ re_subs r' !! s = Some ch) ->
  pool_ok log (mkRelayPool rs (po_chans p) loops n).
Proof.
  intros Hok H1 H2 H3 H4. split; simpl; try done; [|by apply Hok..].
  intros i r s ch Hr Hs. destruct (H4 _ _ _ _ Hr Hs) as (r' & Hr' & Hs'). by eapply (pk_subs _ _ Hok).
Qed.

Lemma lookup_alter_inv {A} (f : A -> A) (l : list A) i j y : alter f i l !! j = Some y ->
  exists x, l !! j = Some x /\ (y = x /\ i <> j \/ y = f x /\ i = j).
Proof.
  destruct (decide (i = j)) as [<-|Hne].
  - rewrite list_lookup_alter_eq. intros (x & Hx & ->)%fmap_Some. eauto.
  - rewrite list_lookup_alter_ne by done. eauto.
Qed.

Lemma connect_ok log d i p : pool_ok log p -> pool_ok log (connect d i p).2.
Proof.
  intros Hok. destruct d; [|done]. cbn. apply relays_step; [done|..].
  - intros j r (x & Hx & [[-> _]|[-> _]])%lookup_alter_inv; [by eapply (pk_connected _ _ Hok)|done].
  - intros j r c (x & Hx & [[-> _]|[-> <-]])%lookup_alter_inv.
    + intros Hc. right. by eapply (pk_reader _ _ Hok).
    + intros [= <-]. left.
  - intros j c [[= -> ->]|Hin]%elem_of_cons; [lia|]. apply (pk_dialled _ _ Hok) in Hin. lia.
  - intros j r s ch (x & Hx & [[-> _]|[-> _]])%lookup_alter_inv; eauto.
Qed.

Lemma close_ok log i p : pool_ok log p -> pool_ok log (close i p).
Proof.
  intros Hok. apply relays_step; [done|..].
  - intros j r (x & Hx & [[-> _]|[-> _]])%lookup_alter_inv; [by eapply (pk_connected _ _ Hok)|done].
  - intros j r c (x & Hx & [[-> _]|[-> <-]])%lookup_alter_inv; [by eapply (pk_reader _ _ Hok)|done].
  - apply Hok.
  - intros j r s ch (x & Hx & [[-> _]|[-> _]])%lookup_alter_inv; eauto.
Qed.

Lemma exit_ok log i c p : pool_ok log p -> pool_ok log (readLoop_exit i c p).
Proof.
  intros Hok. apply relays_step; [done|..].
  - intros j r (x & Hx & [[-> _]|[-> _]])%lookup_alter_inv; [by eapply (pk_connected _ _ Hok)|].
    case_bool_decide; [done|by eapply (pk_connected _ _ Hok)].
  - intros j r c' (x & Hx & [[-> Hne]|[-> <-]])%lookup_alter_inv.
    + intros Hc. apply elem_of_bfilter. split; [|by eapply (pk_reader _ _ Hok)]. rewrite bool_decide_eq_false_2 by congruence. done.
    + case_bool_decide as Hd; [done|]. intros Hc. apply elem_of_bfilter. split; [|by eapply (pk_reader _ _ Hok)].
      rewrite bool_decide_eq_false_2 by congruence. done.
  - intros j c' [_ Hin]%elem_of_bfilter. by eapply (pk_dialled _ _ Hok).
  - intros j r s ch (x & Hx & [[-> _]|[-> _]])%lookup_alter_inv; [eauto|]. case_bool_decide; eauto.
Qed.

Lemma close_all_ok log p : pool_ok log p -> pool_ok log (Close p).
Proof.
  intros Hok. apply relays_step; [done|..]; try apply Hok; intros j r;
    [intros Hr|intros c Hr|intros s ch Hr]; rewrite list_lookup_fmap in Hr; apply fmap_Some in Hr as (x & Hx & ->); eauto; done.
Qed.

Lemma subscribe_ok log s p : pool_ok log p -> pool_ok log (Subscribe s p).2.
Proof.
  intros Hok. set (ch := fresh_chan p).
  assert (po_chans p !! ch = None) as Hnew
    by (unfold ch, fresh_chan; apply (not_elem_of_dom (D:=gset nat)); apply is_fresh).
  split; simpl; fold ch.
  - intros i r Hr. rewrite list_lookup_fmap in Hr. apply fmap_Some in Hr as (x & Hx & ->).
    pose proof (pk_connected _ _ Hok _ _ Hx) as Hc. destruct (re_connected x) eqn:He; simpl; congruence.
  - intros i r c Hr. rewrite list_lookup_fmap in Hr. apply fmap_Some in Hr as (x & Hx & ->).
    intros Hc. eapply (pk_reader _ _ Hok); [done|]. by case_match.
  - apply Hok.
  - intros i r s' ch' Hr. rewrite list_lookup_fmap in Hr. apply fmap_Some in Hr as (x & Hx & ->). intros Hs.
    rewrite lookup_insert_is_Some'. case_match; [simpl in Hs; apply lookup_insert_Some in Hs as [[_ <-]|[_ Hs]]; [by left|]|];
      right; by eapply (pk_subs _ _ Hok).
  - intros ch' buf [[_ <-]|[_ Hb]]%lookup_insert_Some; [simpl; lia|by eapply (pk_cap _ _ Hok)].
  - intros ch'. pose proof (pk_order _ _ Hok ch') as Ho. destruct (decide (ch = ch')) as [<-|Hne].
    + rewrite lookup_insert_eq. simpl. by rewrite Hnew in Ho.
    + by rewrite lookup_insert_ne.
Qed.

Lemma offer_ok log ch e p : pool_ok log p -> is_Some (po_chans p !! ch) -> pool_ok (log ++ [Arrived ch e]) (offer ch e p).
Proof.
  intros Hok [buf Hbuf]. split; simpl; [by apply Hok..| | |].
  - intros i r s c Hr Hs. apply lookup_alter_is_Some. by eapply (pk_subs _ _ Hok).
  - intros c b [[<- (b' & Hb & ->)]|[_ Hb]]%lookup_alter_Some; [|by eapply (pk_cap _ _ Hok)].
    destruct (Nat.ltb_spec (length b') chan_cap); [rewrite length_app; simpl; lia|by eapply (pk_cap _ _ Hok)].
  - intros c. pose proof (pk_order _ _ Hok c) as Ho. rewrite arrived_app, taken_app. simpl.
    rewrite app_nil_r. destruct (decide (ch = c)) as [<-|Hne].
    + rewrite bool_decide_eq_true_2 by done. rewrite lookup_alter_eq, Hbuf. rewrite Hbuf in Ho. simpl in *.
      case_match; [rewrite app_assoc; by apply sublist_app|]. by apply sublist_inserts_r.
    + rewrite bool_decide_eq_false_2 by done. simpl. rewrite app_nil_r. by rewrite lookup_alter_ne.
Qed.

Lemma take_ok log ch e p p' : pool_ok log p -> take_event ch p = Some (e, p') -> pool_ok (log ++ [Taken ch e]) p'.
Proof.
  intros Hok. unfold take_event. destruct (po_chans p !! ch) as [[|e' buf]|] eqn:Hbuf; [done| |done].
  intros [= -> <-]. split; simpl; [by apply Hok..| | |].
  - intros i r s c Hr Hs. rewrite lookup_insert_is_Some'. right. by eapply (pk_subs _ _ Hok).
  - intros c b [[<- <-]|[_ Hb]]%lookup_insert_Some; [|by eapply (pk_cap _ _ Hok)].
    apply (pk_cap _ _ Hok) in Hbuf. simpl in Hbuf. lia.
  - intros c. pose proof (pk_order _ _ Hok c) as Ho. rewrite arrived_app, taken_app. simpl. rewrite app_nil_r.
    destruct (decide (ch = c)) as [<-|Hne].
    + rewrite bool_decide_eq_true_2, lookup_insert_eq by done. rewrite Hbuf in Ho. simpl in *. by rewrite <-app_assoc.
    + rewrite bool_decide_eq_false_2 by done. simpl. rewrite app_nil_r. by rewrite lookup_insert_ne.
Qed.

Lemma relay_pool_step_ok log p evs p' : pool_ok log p -> pool_step p evs p' -> pool_ok (log ++ evs) p'.
Proof.
  intros Hok Hstep. destruct Hstep as [d i _|i|i c _| |s|i c s e ch _ Hs|i c msg _ _|ch e p' Ht]; rewrite ?app_nil_r;
    auto using connect_ok, close_ok, exit_ok, close_all_ok, subscribe_ok; [|by eapply take_ok].
  unfold handleMessage. rewrite Hs. apply offer_ok; [done|]. unfold sub_chan in Hs.
  destruct (po_relays p !! i) as [r|] eqn:Hr; [|done]. by eapply (pk_subs _ _ Hok).
Qed.

(** The relay pool under any interleaving of connecting, closing, reconnecting,
    reading and subscribing. A relay counts as connected exactly while it has a
    connection, and a read loop of that very connection runs; another loop that
    ends leaves the relay alone. A channel never holds more than 64 events, and its
    reader gets events that arrived for it, in order, each as often as it arrived. *)
Theorem pool_invariant urls log p (Hrun : pool_run (NewRelayPool urls) log p) :
  (forall i r, po_relays p !! i = Some r ->
     (re_connected r = true <-> exists c, re_conn r = Some c /\ (i, c) ∈ po_loops p) /\
     forall c, re_conn r <> Some c -> po_relays (readLoop_exit i c p) !! i = Some r) /\
  (forall ch buf, po_chans p !! ch = Some buf -> (length buf <= chan_cap)%nat) /\
  (forall ch, sublist (taken_from ch log) (arrived_on ch log)).
Proof.
  remember (NewRelayPool urls) as p0 eqn:Hp0.
  assert (pool_ok log p) as Hok.
  { induction Hrun as [p|p log p1 evs p2 _ IH Hstep]; [subst; apply pool_ok_new|]. eapply relay_pool_step_ok; eauto. }
  split_and!.
  - intros i r Hr. split.
    + rewrite (pk_connected _ _ Hok _ _ Hr), bool_decide_eq_true. split.
      * intros [c Hc]. exists c. split; [done|]. by eapply (pk_reader _ _ Hok).
      * by intros (c & -> & _).
    + intros c Hc. simpl. rewrite list_lookup_alter_eq, Hr. simpl. by rewrite bool_decide_eq_false_2.
  - apply Hok.
  - intros ch. etrans; [|apply (pk_order _ _ Hok)]. by apply sublist_inserts_r.
Qed.

(** Publish counts the connected relays that took the write. *)
Lemma publish_loop_count write rs n : publish_loop write rs n =
  n + Z.of_nat (length (bfilter (fun r => re_connected r && send write r) rs)).
Proof.
  revert n. induction rs as [|r rs IH]; intros n; cbn [publish_loop]; [simpl; lia|]. rewrite IH, bfilter_cons.
  destruct (re_connected r), (send write r); cbn [andb length]; lia.
Qed.

(** ** Two relays *)
Definition toy_pool0 : RelayPool := NewRelayPool ["wss://a"; "wss://b"]%string.
Definition toy_pool1 : RelayPool := (Connect [true; true] toy_pool0).2.
Definition toy_pool2 : RelayPool := (Subscribe "s" toy_pool1).2.
Definition toy_pool3 : RelayPool := handleMessage 1 (MEvent "s" toy_event) (handleMessage 0 (MEvent "s" toy_event) toy_pool2).
Definition toy_log : list pool_event := ((((([] ++ []) ++ []) ++ []) ++ [Arrived 0 toy_event]) ++ [Arrived 0 toy_event]).

Lemma toy_pool_run : pool_run toy_pool0 toy_log toy_pool3.
Proof.
  unfold toy_log. eapply pr_snoc; [eapply pr_snoc; [eapply pr_snoc; [eapply pr_snoc; [eapply pr_snoc; [apply pr_nil|]|]|]|]|].
  - apply (ps_connect _ true 0). simpl. lia.
  - apply (ps_connect _ true 1). simpl. lia.
  - apply (ps_subscribe _ "s"%string).
  - apply (ps_event _ 0 0 "s"%string toy_event 0); [right; left|vm_compute; reflexivity].
  - apply (ps_event _ 1 1 "s"%string toy_event 0); [left|vm_compute; reflexivity].
Qed.

Lemma pool_invariant_witness :
  exists r c, po_relays toy_pool3 !! 0%nat = Some r /\ re_conn r = Some c /\ (0%nat, c) ∈ po_loops toy_pool3.
Proof.
  destruct (pool_invariant ["wss://a"; "wss://b"]%string toy_log toy_pool3 toy_pool_run) as (Hr & _).
  assert (exists r, po_relays toy_pool3 !! 0%nat = Some r /\ re_connected r = true) as (r & Hl & Hc)
    by (eexists; split; reflexivity).
  destruct (Hr _ _ Hl) as [Hi _]. destruct (proj1 Hi Hc) as (c & Hrc & Hin). by exists r, c.
Defined.

(** The pool does not deduplicate: one event from two relays is read twice. *)
Theorem duplicates_delivered : po_chans toy_pool3 !! 0%nat = Some [toy_event; toy_event].
Proof. vm_compute. reflexivity. Qed.
