(* ===== verification/TokenReceiver.v ===== *)
(** * TokenReceiver: token deliveries at a node (src/internal/node/token_receiver.go)

    Listen takes one event at a time from the relays; handleEvent opens it,
    redeems its proofs, grants the peer and replies, and keeps the reply so that
    a redelivered request is answered again without a second redemption. The
    redeemer and the connect callback act on a state of their own, and the order
    in which a map is ranged over is an argument. *)
From S2P Require Import Prelude Ecash Mint Nostr Peers Connect Nip44 Envelope.

Definition maxRequestIDLength : Z := 128.
Definition maxCachedReplies : nat := 1024.
Definition replyCacheTTL : Z := 10 * 60 * 1000000000.

Record cachedTokenReply := mkCached { cr_reply : TokenReplyPayload; cr_createdAt : Z }.
Abbreviation reply_cache := (gmap string cachedTokenReply).
(** One order of iteration over the cache. *)
Definition reply_order : Type := reply_cache -> list (string * cachedTokenReply).
Definition fair_order (range : reply_order) : Prop := forall m, range m ≡ₚ map_to_list m.

(** What the receiver does to the outside: redeem, connect, and reply to a key
    (the event is what is published, when the reply could be sealed). *)
Inductive receiver_action :=
| Redeemed (proofs : list Proof_)
| Connected (wgPubkey : string) (bytesAllowed : Z)
| Replied (recipient : string) (reply : TokenReplyPayload) (event : option Event).

Definition replyCacheKey (senderPubkey requestID : string) : string := senderPubkey ++ ":" ++ requestID.

Definition expireReplies (now : Z) (m : reply_cache) : reply_cache :=
  filter (fun kc => now < cr_createdAt kc.2 + replyCacheTTL) m.

Definition cachedReply (now : Z) (key : string) (m : reply_cache) : option TokenReplyPayload * reply_cache :=
  let m' := expireReplies now m in
  (cr_reply <$> m' !! key, m').

Fixpoint oldest_loop (l : list (string * cachedTokenReply)) (oldestKey : string) (oldestAt : Z) : string :=
  match l with
  | [] => oldestKey
  | (k, cached) :: r =>
      if str_empty oldestKey || (cr_createdAt cached <? oldestAt)
      then oldest_loop r k (cr_createdAt cached)
      else oldest_loop r oldestKey oldestAt
  end.

Definition cache_reply (range : reply_order) (now : Z) (key : string) (reply : TokenReplyPayload) (m : reply_cache) : reply_cache :=
  let m1 := expireReplies now m in
  let m2 := if bool_decide (m1 !! key = None) && (maxCachedReplies <=? size m1)%nat
            then delete (oldest_loop (range m1) "" zero_time) m1 else m1 in
  <[key := mkCached reply now]> m2.

Section receiver.
Context `{Nip44Crypto} `{EnvelopeJson}.
Context {World : Type}.
Context (redeem : list Proof_ -> World -> result redeem_error CashuRedeemResult * World).
(** The status is 0 when the callback gave none. *)
Context (onConnect : string -> Z -> World -> result (Z * string) CashuConnectResult * World).
Context (range : reply_order) (nodeKP : KeyPair).

(** The clock when the cache is looked up and when the reply is kept, the
    seconds and the nonce of the reply's event. *)
Record moment := mkMoment { mo_lookup : Z; mo_store : Z; mo_seal : Z; mo_nonce : option string }.
Definition receiver_state : Type := reply_cache * World.

Definition sendReply (mo : moment) (recipientPubkey : string) (reply : TokenReplyPayload) : receiver_action :=
  Replied recipientPubkey reply
    match SealTokenReplyEnvelope nodeKP recipientPubkey reply (mo_nonce mo) (mo_seal mo) with Ok e => Some e | Err _ => None end.

Definition rejected (requestID error : string) (status : Z) : TokenReplyPayload :=
  mkReplyPayload requestID false error status "" "" 0 1.

(** The reply to a request that is not in the cache. *)
Definition fresh_reply (payload : TokenPayload) (w : World) : list receiver_action * TokenReplyPayload * World :=
  let id := tp_RequestID payload in
  if (length (tp_Proofs payload) =? 0)%nat || str_empty (tp_WGPubkey payload) ||
     negb (String.eqb (tp_Role payload) "entry") && negb (String.eqb (tp_Role payload) "exit")
  then ([], rejected id "invalid token payload" StatusBadRequest, w)
  else
    match redeem (tp_Proofs payload) w with
    | (Err e, w1) =>
        let '(status, msg) := default (StatusBadGateway, "hub verification failed"%string) (RedeemErrorResponse e) in
        ([Redeemed (tp_Proofs payload)], rejected id msg status, w1)
    | (Ok r, w1) =>
        let done := [Redeemed (tp_Proofs payload); Connected (tp_WGPubkey payload) (cr_BytesAllowed r)] in
        match onConnect (tp_WGPubkey payload) (cr_BytesAllowed r) w1 with
        | (Err (status, msg), w2) =>
            (done, rejected id msg (if status =? 0 then StatusInternalServerError else status), w2)
        | (Ok c, w2) =>
            (done, mkReplyPayload id true "" 0 (cc_TunnelIP c) (cc_NodeWGPubkey c) (cc_BytesAllowed c) 1, w2)
        end
    end.

(** The request an event carries, when it is one to answer. *)
Definition request_of (event : Event) : option TokenPayload :=
  match Verify event with
  | Err _ => None
  | Ok _ =>
      match OpenTokenEnvelope event nodeKP with
      | Err _ => None
      | Ok payload =>
          if negb (tp_Version payload =? 1) then None
          else if str_empty (tp_RequestID payload) then None
          else if maxRequestIDLength <? slen (tp_RequestID payload) then None
          else Some payload
      end
  end.

Definition sendReplyAndCache (mo : moment) (recipient key : string) (reply : TokenReplyPayload) (m : reply_cache) :
    receiver_action * reply_cache :=
  (sendReply mo recipient reply, cache_reply range (mo_store mo) key reply m).

Definition handleEvent (mo : moment) (event : Event) (st : receiver_state) : list receiver_action * receiver_state :=
  let '(m, w) := st in
  match request_of event with
  | None => ([], st)
  | Some payload =>
      let requestKey := replyCacheKey (ev_Pubkey event) (tp_RequestID payload) in
      match cachedReply (mo_lookup mo) requestKey m with
      | (Some cached, m1) => ([sendReply mo (ev_Pubkey event) cached], (m1, w))
      | (None, m1) =>
          let '(acts, reply, w1) := fresh_reply payload w in
          let '(act, m2) := sendReplyAndCache mo (ev_Pubkey event) requestKey reply m1 in
          (acts ++ [act], (m2, w1))
      end
  end.

(** Listen over the events the subscription delivers. *)
Fixpoint Listen (ds : list (moment * Event)) (st : receiver_state) : list (list receiver_action) * receiver_state :=
  match ds with
  | [] => ([], st)
  | (mo, event) :: r =>
      let '(acts, st1) := handleEvent mo event st in
      let '(rest, st2) := Listen r st1 in
      (acts :: rest, st2)
  end.
End receiver.

(** ** The cache *)
Lemma replyCacheKey_inj a b x y : String.length a = String.length b ->
  replyCacheKey a x = replyCacheKey b y -> a = b /\ x = y.
Proof.
  unfold replyCacheKey. intros Hlen Heq.
  assert (a = b) as -> by (rewrite <-(str_take_app a (":" ++ x) _ Hlen), Heq; by apply str_take_app).
  split; [done|]. apply (f_equal (str_drop (String.length b))) in Heq. rewrite !str_drop_app in Heq by done.
  exact (f_equal (str_drop 1) Heq).
Qed.
Lemma replyCacheKey_nonempty a x : replyCacheKey a x <> ""%string.
Proof. by destruct a. Qed.

Lemma lookup_expire now m k c : expireReplies now m !! k = Some c <-> m !! k = Some c /\ now < cr_createdAt c + replyCacheTTL.
Proof. unfold expireReplies. by rewrite map_lookup_filter_Some. Qed.
Lemma size_expire now m : (size (expireReplies now m) <= size m)%nat.
Proof. apply map_subseteq_size, map_filter_subseteq. Qed.

(** The loop picks an entry none of the others is older than. *)
Lemma oldest_loop_min l k0 t0 : (forall k c, (k, c) ∈ l -> k <> ""%string) -> k0 <> ""%string ->
  (oldest_loop l k0 t0 = k0 /\ (forall k c, (k, c) ∈ l -> t0 <= cr_createdAt c)) \/
  exists c, (oldest_loop l k0 t0, c) ∈ l /\ cr_createdAt c < t0 /\ forall k c', (k, c') ∈ l -> cr_createdAt c <= cr_createdAt c'.
Proof.
  revert k0 t0. induction l as [|[k c] l IH]; intros k0 t0 Hne Hk0; simpl; [left; split; [done|set_solver]|].
  assert (str_empty k0 = false) as -> by (destruct k0; done). cbn [orb].
  destruct (Z.ltb_spec (cr_createdAt c) t0) as [Hlt|Hge].
  - right. destruct (IH k (cr_createdAt c)) as [[-> Hmin]|(c1 & Hin & Hlt' & Hmin)]; [set_solver..| |].
    + exists c. split_and!; [by left|done|]. intros k' c' [[= -> ->]|Hin]%elem_of_cons; [lia|by eapply Hmin].
    + exists c1. split_and!; [by right|lia|]. intros k' c' [[= -> ->]|Hin']%elem_of_cons; [lia|by eapply Hmin].
  - destruct (IH k0 t0) as [[-> Hmin]|(c1 & Hin & Hlt' & Hmin)]; [set_solver|done| |].
    + left. split; [done|]. intros k' c' [[= -> ->]|Hin]%elem_of_cons; [lia|by eapply Hmin].
    + right. exists c1. split_and!; [by right|done|]. intros k' c' [[= -> ->]|Hin']%elem_of_cons; [lia|by eapply Hmin].
Qed.

Lemma oldest_min l : l <> [] -> (forall k c, (k, c) ∈ l -> k <> ""%string) ->
  exists c, (oldest_loop l "" zero_time, c) ∈ l /\ forall k c', (k, c') ∈ l -> cr_createdAt c <= cr_createdAt c'.
Proof.
  destruct l as [|[k c] l]; [done|]. intros _ Hne. simpl.
  destruct (oldest_loop_min l k (cr_createdAt c)) as [[-> Hmin]|(c1 & Hin & Hlt & Hmin)]; [set_solver|eapply Hne; by left| |].
  - exists c. split; [by left|]. intros k' c' [[= -> ->]|Hin]%elem_of_cons; [lia|by eapply Hmin].
  - exists c1. split; [by right|]. intros k' c' [[= -> ->]|Hin']%elem_of_cons; [lia|by eapply Hmin].
Qed.

(** What is kept: at most [maxCachedReplies] replies, none kept after [now],
    each under the key of its request. *)
Definition keyed (k : string) (reply : TokenReplyPayload) : Prop :=
  tr_Version reply = 1 /\ exists sender, slen sender = 64 /\ k = replyCacheKey sender (tr_RequestID reply).
Record cache_ok (now : Z) (m : reply_cache) : Prop := {
  co_size : (size m <= maxCachedReplies)%nat;
  co_keyed k c : m !! k = Some c -> keyed k (cr_reply c);
  co_past k c : m !! k = Some c -> cr_createdAt c <= now
}.

Lemma cache_ok_later now now' m : cache_ok now m -> now <= now' -> cache_ok now' m.
Proof. intros [Hs Hk Hp] Hle. split; [done|done|]. intros k c Hc. specialize (Hp k c Hc). lia. Qed.
Lemma expire_ok now t m : cache_ok now m -> cache_ok now (expireReplies t m).
Proof.
  intros [Hs Hk Hp]. split; [pose proof (size_expire t m); lia|..]; intros k c [Hc _]%lookup_expire; eauto.
Qed.

Lemma evict_in (range : reply_order) m : fair_order range -> m <> ∅ -> (forall k c, m !! k = Some c -> k <> ""%string) ->
  exists c, m !! oldest_loop (range m) "" zero_time = Some c /\
    forall k c', m !! k = Some c' -> cr_createdAt c <= cr_createdAt c'.
Proof.
  intros Hfair Hne Hkeys.
  assert (forall k c, (k, c) ∈ range m <-> m !! k = Some c) as Hin by (intros k c; rewrite (Hfair m); apply elem_of_map_to_list).
  destruct (oldest_min (range m)) as (c & Hc & Hmin).
  - intros Hnil. apply Hne, map_empty. intros k. destruct (m !! k) as [c|] eqn:Hc; [|done].
    apply Hin in Hc. rewrite Hnil in Hc. set_solver.
  - intros k c Hc. by eapply Hkeys, Hin.
  - exists c. split; [by apply Hin|]. intros k c' Hc'. by eapply Hmin, Hin.
Qed.

Lemma cache_reply_ok range now t key reply m : fair_order range -> cache_ok now m -> now <= t -> keyed key reply ->
  cache_ok t (cache_reply range t key reply m).
Proof.
  intros Hfair Hok Hle Hkey. unfold cache_reply.
  pose proof (cache_ok_later _ t _ (expire_ok _ t _ Hok) Hle) as Hok1. set (m1 := expireReplies t m) in *.
  assert (forall m2, m2 ⊆ m1 -> (size (<[key := mkCached reply t]> m2) <= maxCachedReplies)%nat ->
    cache_ok t (<[key := mkCached reply t]> m2)) as Hgo.
  { intros m2 Hsub Hsize. split; [done|..]; intros k c [[<- <-]|[? Hc]]%lookup_insert_Some; simpl; try done;
      eapply lookup_weaken in Hc; try done; [by eapply (co_keyed _ _ Hok1)|by eapply (co_past _ _ Hok1)]. }
  destruct (bool_decide (m1 !! key = None)) eqn:Hnew; bprop; cbn [andb].
  2:{ apply Hgo; [done|]. destruct (m1 !! key) as [c|] eqn:Hc; [|done].
      rewrite map_size_insert_Some by eauto. apply Hok1. }
  destruct (maxCachedReplies <=? size m1)%nat eqn:Hfull.
  - apply Nat.leb_le in Hfull. destruct (evict_in range m1 Hfair) as (c & Hc & _).
    + intros He. rewrite He in Hfull. vm_compute in Hfull. lia.
    + intros k c Hc%(co_keyed _ _ Hok1). destruct Hc as (_ & sender & _ & ->). apply replyCacheKey_nonempty.
    + apply Hgo; [apply delete_subseteq|]. rewrite map_size_insert_None by (by apply lookup_delete_None; right).
      rewrite map_size_delete_Some by eauto. pose proof (co_size _ _ Hok1).
      assert (0 < maxCachedReplies)%nat by (apply Nat.ltb_lt; reflexivity). lia.
  - apply Nat.leb_gt in Hfull. apply Hgo; [done|]. rewrite map_size_insert_None by done. lia.
Qed.

Lemma hex_decode_length : forall s b, hex_decode s = Some b -> String.length s = (2 * String.length b)%nat.
Proof.
  fix IH 1. intros [|a [|c r]] b; cbn [hex_decode]; [by intros [= <-]|done|].
  destruct (hex_value a), (hex_value c), (hex_decode r) as [t|] eqn:Ht; try done.
  intros [= <-]. cbn [String.length]. rewrite (IH r t Ht). lia.
Qed.

(** ** Deliveries *)
Section correct.
Context `{Nip44Crypto} `{EnvelopeJson}.
Context {World : Type}.
Context (redeem : list Proof_ -> World -> result redeem_error CashuRedeemResult * World).
Context (onConnect : string -> Z -> World -> result (Z * string) CashuConnectResult * World).
Context (range : reply_order) (Hrange : fair_order range) (nodeKP : KeyPair).
Abbreviation receive_event := (handleEvent redeem onConnect range nodeKP).
Abbreviation listen := (Listen redeem onConnect range nodeKP).

Lemma request_of_ok event p : request_of nodeKP event = Some p ->
  slen (ev_Pubkey event) = 64 /\ OpenTokenEnvelope event nodeKP = Ok p.
Proof.
  unfold request_of. destruct (Verify event) as [[]|] eqn:Hv; [|done].
  destruct (OpenTokenEnvelope event nodeKP) as [q|]; [|done].
  repeat (case_match; [done|]). intros [= <-]. split; [|done].
  apply verify_authentic in Hv as (_ & _ & pk & _ & _ & _ & Hp & _). unfold parse_xonly in Hp.
  destruct (hex_decode (ev_Pubkey event)) as [b|] eqn:Hb; [|done]. apply hex_decode_length in Hb.
  destruct (slen b =? 32) eqn:Hlen; [|done]. bprop. unfold slen in *. lia.
Qed.

(** A fresh reply: the request's own proofs are redeemed at most once, a peer is
    granted only for what the redemption gave, and the reply says so. *)
Definition answers (p : TokenPayload) (acts : list receiver_action) (reply : TokenReplyPayload) : Prop :=
  tr_RequestID reply = tp_RequestID p /\ tr_Version reply = 1 /\
  ((acts = [] /\ tr_OK reply = false /\ tr_StatusCode reply = StatusBadRequest) \/
   (acts = [Redeemed (tp_Proofs p)] /\ tp_Proofs p <> [] /\ tr_OK reply = false /\ 400 <= tr_StatusCode reply) \/
   exists bytes, acts = [Redeemed (tp_Proofs p); Connected (tp_WGPubkey p) bytes] /\ tp_Proofs p <> [] /\
     (tr_OK reply = true \/ tr_StatusCode reply <> 0)).

Lemma fresh_reply_ok p w acts reply w' : fresh_reply redeem onConnect p w = (acts, reply, w') -> answers p acts reply.
Proof.
  unfold fresh_reply, answers. destruct (_ || _) eqn:Hbad; [intros [= <- <- <-]; cbn; split_and!; [done|done|by left]|].
  assert (tp_Proofs p <> []) as Hne by (intros He; rewrite He in Hbad; discriminate Hbad).
  destruct (redeem (tp_Proofs p) w) as [[r|e] w1].
  - destruct (onConnect _ _ w1) as [[c|[status msg]] w2]; intros [= <- <- <-]; cbn.
    + split_and!; [done..|]. right. right. eexists. eauto.
    + split_and!; [done..|]. right. right. eexists. split_and!; [done..|]. right.
      destruct (Z.eqb_spec status 0); [discriminate|done].
  - destruct e; intros [= <- <- <-]; cbn; split_and!; try done; right; left; split_and!; try done; vm_compute; discriminate.
Qed.

Lemma cachedReply_ok now t key m c m1 : cache_ok now m -> cachedReply t key m = (c, m1) -> cache_ok now m1.
Proof. intros Hok [= <- <-]. by apply expire_ok. Qed.

(** One delivery. *)
Lemma handle_ok now mo event m w acts m' w' : cache_ok now m -> now <= mo_lookup mo <= mo_store mo ->
  receive_event mo event (m, w) = (acts, (m', w')) ->
  cache_ok (mo_store mo) m' /\
  match request_of nodeKP event with
  | None => acts = [] /\ m' = m /\ w' = w
  | Some p => exists before reply, acts = before ++ [sendReply nodeKP mo (ev_Pubkey event) reply] /\
      tr_RequestID reply = tp_RequestID p /\ tr_Version reply = 1 /\
      let key := replyCacheKey (ev_Pubkey event) (tp_RequestID p) in
      match expireReplies (mo_lookup mo) m !! key with
      | Some c => before = [] /\ reply = cr_reply c /\ w' = w /\ m' = expireReplies (mo_lookup mo) m
      | None => answers p before reply /\ m' = cache_reply range (mo_store mo) key reply (expireReplies (mo_lookup mo) m)
      end
  end.
Proof.
  intros Hok Hmo. unfold handleEvent. destruct (request_of nodeKP event) as [p|] eqn:Hreq.
  2:{ intros [= <- <- <-]. split; [|done]. eapply cache_ok_later; [done|lia]. }
  apply request_of_ok in Hreq as [Hlen _]. unfold cachedReply.
  pose proof (expire_ok _ (mo_lookup mo) _ Hok) as Hok1. set (m1 := expireReplies _ m) in *.
  set (key := replyCacheKey _ _). destruct (m1 !! key) as [c|] eqn:Hc; cbn [fmap option_fmap option_map].
  - intros [= <- <- <-]. split; [eapply cache_ok_later; [done|lia]|].
    destruct (co_keyed _ _ Hok1 _ _ Hc) as (Hv & sender & Hs & Hk).
    apply replyCacheKey_inj in Hk as [_ Hid]; [|unfold slen in *; lia].
    by exists [], (cr_reply c).
  - destruct (fresh_reply _ _ p w) as [[acts0 reply] w1] eqn:Hf. apply fresh_reply_ok in Hf as Ha.
    intros [= <- <- <-]. pose proof Ha as (Hid & Hv & _). split.
    + eapply cache_reply_ok; [done|done|lia|]. split; [done|]. exists (ev_Pubkey event). by rewrite Hid.
    + by exists acts0, reply.
Qed.

(** ** A reply stays while its request can be redelivered *)
(** The reply to [k], kept at [t], is there, and at most [n] requests were
    answered since. *)
Definition fresh_for (k : string) (t : Z) (reply : TokenReplyPayload) (n : nat) (m : reply_cache) : Prop :=
  m !! k = Some (mkCached reply t) /\
  exists later : gset string, (size later <= n)%nat /\
    forall k' c', m !! k' = Some c' -> k' <> k -> t <= cr_createdAt c' -> k' ∈ later.

Lemma fresh_expire k t reply n m now : fresh_for k t reply n m -> now < t + replyCacheTTL -> fresh_for k t reply n (expireReplies now m).
Proof.
  intros (Hk & later & Hs & Hl) Ht. split; [by apply lookup_expire|]. exists later. split; [done|].
  intros k' c' [Hc _]%lookup_expire. eauto.
Qed.

Lemma not_oldest k t reply n m now : cache_ok now m -> fresh_for k t reply n m -> (S n < maxCachedReplies <= size m)%nat ->
  oldest_loop (range m) "" zero_time <> k.
Proof.
  intros Hok (Hk & later & Hs & Hl) Hn He. destruct (evict_in range m Hrange) as (c & Hc & Hmin).
  - intros ->. by rewrite lookup_empty in Hk.
  - intros k' c (_ & sender & _ & ->)%(co_keyed _ _ Hok). apply replyCacheKey_nonempty.
  - rewrite He, Hk in Hc. injection Hc as <-.
    assert (dom m ⊆ {[k]} ∪ later) as Hsub.
    { intros k' [c' Hc']%elem_of_dom. destruct (decide (k' = k)) as [->|Hne]; [set_solver|].
      apply elem_of_union_r. eapply Hl; [done..|]. apply (Hmin _ _ Hc'). }
    apply subseteq_size in Hsub. rewrite size_dom, size_union_alt, size_singleton in Hsub.
    assert (size (later ∖ {[k]}) <= size later)%nat by (apply subseteq_size; set_solver). lia.
Qed.

Lemma fresh_insert k t reply n m m0 key r now : fresh_for k t reply n m -> key <> k -> m0 ⊆ m -> m0 !! k = m !! k ->
  fresh_for k t reply (S n) (<[key := mkCached r now]> m0).
Proof.
  intros (Hk & later & Hs & Hl) Hne Hsub Hm0. split; [by rewrite lookup_insert_ne, Hm0|].
  exists ({[key]} ∪ later). split.
  - rewrite size_union_alt, size_singleton.
    assert (size (later ∖ {[key]}) <= size later)%nat by (apply subseteq_size; set_solver). lia.
  - intros k' c' [[<- _]|[_ Hc]]%lookup_insert_Some Hk' Ht; [set_solver|].
    apply elem_of_union_r. eapply Hl; [by eapply lookup_weaken|done..].
Qed.

Lemma fresh_cache_reply k t reply n m now now' key r : cache_ok now m -> now' < t + replyCacheTTL ->
  fresh_for k t reply n m -> key <> k -> (S n < maxCachedReplies)%nat ->
  fresh_for k t reply (S n) (cache_reply range now' key r m).
Proof.
  intros Hok Ht Hf Hne Hn. unfold cache_reply. apply (expire_ok _ now') in Hok. apply (fresh_expire _ _ _ _ _ now') in Hf; [|done].
  set (m1 := expireReplies now' m) in *. apply fresh_insert with (m := m1); [done|done|..].
  - case_match; [apply delete_subseteq|done].
  - destruct (bool_decide (m1 !! key = None)); [|done]. destruct (maxCachedReplies <=? size m1)%nat eqn:Hfull; [|done].
    apply Nat.leb_le in Hfull. apply lookup_delete_ne. by eapply not_oldest.
Qed.

(** The clock runs, and the handler reads it as it goes. *)
Fixpoint clocked (now : Z) (ds : list (moment * Event)) : Prop :=
  match ds with
  | [] => True
  | (mo, _) :: r => now < mo_lookup mo /\ mo_lookup mo <= mo_store mo /\ clocked (mo_store mo) r
  end.
Fixpoint last_time (now : Z) (ds : list (moment * Event)) : Z :=
  match ds with [] => now | (mo, _) :: r => last_time (mo_store mo) r end.

Lemma last_time_ge now ds : clocked now ds -> now <= last_time now ds.
Proof. revert now. induction ds as [|[mo e] ds IH]; intros now; simpl; [lia|]. intros (? & ? & ?%IH). lia. Qed.
Lemma clocked_app now ds1 ds2 : clocked now (ds1 ++ ds2) <-> clocked now ds1 /\ clocked (last_time now ds1) ds2.
Proof. revert now. induction ds1 as [|[mo e] ds IH]; intros now; simpl; [tauto|]. rewrite IH. tauto. Qed.
Lemma cache_empty_ok now : cache_ok now ∅.
Proof. split; [|done|done]. change (size (∅ : reply_cache)) with 0%nat. lia. Qed.

Lemma listen_ok now ds m w acts m' w' : cache_ok now m -> clocked now ds -> listen ds (m, w) = (acts, (m', w')) ->
  cache_ok (last_time now ds) m' /\
  Forall2 (fun d a => match request_of nodeKP d.2 with
    | None => a = []
    | Some p => exists before reply, a = before ++ [sendReply nodeKP d.1 (ev_Pubkey d.2) reply] /\
        tr_RequestID reply = tp_RequestID p /\ tr_Version reply = 1 /\ (before = [] \/ answers p before reply)
    end) ds acts.
Proof.
  revert now m w acts. induction ds as [|[mo event] ds IH]; intros now m w acts Hok Hc; cbn [Listen].
  - intros [= <- <- <-]. by split.
  - destruct Hc as (Ht & Hmo & Hc). destruct (receive_event mo event (m, w)) as [a [m1 w1]] eqn:Hh.
    destruct (listen ds (m1, w1)) as [rest st2] eqn:Hl. intros [= <- ->].
    apply (handle_ok now) in Hh as [Hok1 Hh]; [|done|lia]. apply (IH _ _ _ _ Hok1 Hc) in Hl as [Hok2 Hl].
    split; [done|]. constructor; [|done]. cbn [fst snd]. destruct (request_of nodeKP event) as [p|]; [|tauto].
    destruct Hh as (before & reply & -> & Hid & Hv & Hb). exists before, reply. split_and!; [done..|]. cbv zeta in Hb.
    case_match; [left; tauto|right; tauto].
Qed.

Lemma listen_fresh now ds m w acts m' w' k t reply n : cache_ok now m -> clocked now ds -> t <= now ->
  last_time now ds < t + replyCacheTTL -> (n + length ds < maxCachedReplies)%nat ->
  fresh_for k t reply n m -> listen ds (m, w) = (acts, (m', w')) -> fresh_for k t reply (n + length ds) m'.
Proof.
  revert now m w acts n. induction ds as [|[mo event] ds IH]; intros now m w acts n Hok Hc Ht Hlast Hn Hf; cbn [Listen].
  - intros [= <- <- <-]. by rewrite Nat.add_0_r.
  - destruct Hc as (Hlt & Hmo & Hc). destruct (receive_event mo event (m, w)) as [a [m1 w1]] eqn:Hh.
    destruct (listen ds (m1, w1)) as [rest st2] eqn:Hl. intros [= <- ->]. cbn [length last_time] in *.
    pose proof (last_time_ge _ _ Hc) as Hmono.
    apply (handle_ok now) in Hh as [Hok1 Hh]; [|done|lia].
    replace (n + S (length ds))%nat with (S n + length ds)%nat by lia.
    eapply (IH (mo_store mo)); [done|done|lia|done|lia| |done].
    assert (forall m2, fresh_for k t reply n m2 -> fresh_for k t reply (S n) m2) as Hweak
      by (intros m2 (? & later & ? & ?); split; [done|]; exists later; split; [lia|done]).
    destruct (request_of nodeKP event) as [p|]; [|destruct Hh as (_ & -> & _); auto].
    destruct Hh as (before & r & _ & _ & _ & Hh). cbv zeta in Hh.
    set (key := replyCacheKey _ _) in *. pose proof (fresh_expire _ _ _ _ _ (mo_lookup mo) Hf ltac:(lia)) as Hf1.
    destruct (expireReplies (mo_lookup mo) m !! key) as [c|] eqn:Hkey; [destruct Hh as (_ & _ & _ & ->); auto|].
    destruct Hh as [_ ->]. apply (fresh_cache_reply _ _ _ _ _ now); [by apply expire_ok|lia|done| |lia].
    intros ->. by rewrite (proj1 Hf1) in Hkey.
Qed.

(** Every request is answered, once and to its sender. Over any sequence of
    deliveries the receiver keeps at most 1024 replies; an event that is no
    request gets nothing; a request gets one reply, sealed for the key that signed
    it and carrying its id, after at most one redemption, of its own proofs, and
    at most one grant, for what the redemption gave. *)
Theorem deliveries_answered now ds w acts m w'
    (Hclock : clocked now ds) (Hrun : listen ds (∅, w) = (acts, (m, w'))) :
  (size m <= maxCachedReplies)%nat /\
  Forall2 (fun d a => match request_of nodeKP d.2 with
    | None => a = []
    | Some p => exists before reply, a = before ++ [sendReply nodeKP d.1 (ev_Pubkey d.2) reply] /\
        tr_RequestID reply = tp_RequestID p /\ tr_Version reply = 1 /\ (before = [] \/ answers p before reply)
    end) ds acts.
Proof.
  apply (listen_ok now) in Hrun as [Hok Hall]; [|apply cache_empty_ok|done]. split; [by eapply co_size|done].
Qed.

(** C14: proofs are redeemed once per request. When the receiver has redeemed a
    request's proofs, the same request delivered again within ten minutes, by any
    relay and in any event of that sender, with at most 1023 deliveries between,
    is answered with the same reply; nothing is redeemed or granted again. *)
Theorem request_served_once now pre mo1 e1 mid mo2 e2 w0 w1 w2 w3 w4 m1 m2 m3 m4 a0 a1 am a2 p1 p2 proofs
    (Hclock : clocked now (pre ++ (mo1, e1) :: mid ++ [(mo2, e2)]))
    (Hpre : listen pre (∅, w0) = (a0, (m1, w1)))
    (Hfirst : receive_event mo1 e1 (m1, w1) = (a1, (m2, w2)))
    (Hmid : listen mid (m2, w2) = (am, (m3, w3)))
    (Hagain : receive_event mo2 e2 (m3, w3) = (a2, (m4, w4)))
    (Hreq1 : request_of nodeKP e1 = Some p1) (Hreq2 : request_of nodeKP e2 = Some p2)
    (Hsender : ev_Pubkey e2 = ev_Pubkey e1) (Hid : tp_RequestID p2 = tp_RequestID p1)
    (Hredeemed : Redeemed proofs ∈ a1)
    (Hfew : (length mid < maxCachedReplies)%nat) (Hsoon : mo_lookup mo2 < mo_store mo1 + replyCacheTTL) :
  exists before reply, a1 = before ++ [sendReply nodeKP mo1 (ev_Pubkey e1) reply] /\
    a2 = [sendReply nodeKP mo2 (ev_Pubkey e1) reply] /\ w4 = w3.
Proof.
  apply clocked_app in Hclock as [Hc0 (Ht1 & Hmo1 & Hc)]. apply clocked_app in Hc as [Hcm (Ht2 & Hmo2 & _)].
  apply (listen_ok now) in Hpre as [Hok1 _]; [|apply cache_empty_ok|done].
  pose proof Hfirst as Hh. apply (handle_ok (last_time now pre)) in Hh as [Hok2 Hh]; [|done|lia]. rewrite Hreq1 in Hh.
  destruct Hh as (before & reply & -> & Hid1 & _ & Hh). cbv zeta in Hh. set (key := replyCacheKey _ _) in Hh.
  destruct (expireReplies (mo_lookup mo1) m1 !! key) as [c|] eqn:Hkey.
  { destruct Hh as [-> _]. apply list_elem_of_singleton in Hredeemed. discriminate. }
  destruct Hh as [_ ->]. exists before, reply. split; [done|].
  apply (expire_ok _ (mo_lookup mo1)) in Hok1. set (m1' := expireReplies (mo_lookup mo1) m1) in *.
  assert (fresh_for key (mo_store mo1) reply 0 (cache_reply range (mo_store mo1) key reply m1')) as Hf.
  { unfold cache_reply. split; [by rewrite lookup_insert_eq|]. exists ∅. split; [done|]. set (m1'' := expireReplies _ m1').
    intros k' c' [[<- <-]|[Hne Hc']]%lookup_insert_Some Hk' Hold; [done|]. exfalso.
    assert (m1'' !! k' = Some c') as Hc'' by (revert Hc'; case_match; [by intros [_ ?]%lookup_delete_Some|done]).
    apply lookup_expire in Hc'' as [Hc'' _]. apply (co_past _ _ Hok1) in Hc''. lia. }
  pose proof (last_time_ge _ _ Hcm) as Hge.
  assert (fresh_for key (mo_store mo1) reply (0 + length mid) m3) as Hf3
    by (eapply (listen_fresh (mo_store mo1)); [done|done|lia|lia|lia|done|done]).
  apply (listen_ok (mo_store mo1)) in Hmid as [Hok3 _]; [|done|done].
  apply (handle_ok (last_time (mo_store mo1) mid)) in Hagain as [_ Hh]; [|done|lia]. rewrite Hreq2 in Hh.
  destruct Hh as (before' & reply' & -> & _ & _ & Hh). rewrite Hsender, Hid in Hh. fold key in Hh. cbv zeta in Hh.
  apply (fresh_expire _ _ _ _ _ (mo_lookup mo2)) in Hf3 as [Hf3 _]; [|done]. rewrite Hf3 in Hh.
  destruct Hh as (-> & -> & -> & _). by rewrite Hsender.
Qed.
End correct.

(** ** A toy node *)
Definition toy_order : reply_order := fun m => map_to_list m.
Definition toy_redeem (proofs : list Proof_) (n : nat) : result redeem_error CashuRedeemResult * nat :=
  (Ok (mkCashuRedeem 1000 1), S n).
Definition toy_onConnect (key : string) (bytes : Z) (n : nat) : result (Z * string) CashuConnectResult * nat :=
  (Ok (mkCashuConnect "10.0.0.2/32" "node-wg" bytes), n).
#[export] Instance receiver_json : EnvelopeJson := {|
  marshal_payload := fun p => Some ("request " ++ tp_RequestID p)%string;
  unmarshal_payload := fun s => Some (mkPayload [mkProof 1 "k" "s" "c"] "wg" "entry" (String.substring 8 (String.length s) s) 1);
  marshal_reply := fun r => Some ("reply " ++ tr_RequestID r)%string;
  unmarshal_reply := fun s => Some (mkReplyPayload (String.substring 6 (String.length s) s) true "" 0 "10.0.0.2" "node-wg" 1000 1)
|}.
Definition toy_delivery : Event :=
  match SealTokenEnvelope toy_key (PubkeyHex toy_key) (mkPayload [] "wg" "entry" "r-1" 1) (Some (pad32 "n")) 7 with
  | Ok e => e
  | Err _ => toy_event
  end.
Definition toy_moment (t : Z) : moment := mkMoment t (t + 1) 7 (Some (pad32 "m")).

Lemma toy_order_fair : fair_order toy_order.
Proof. by intros m. Qed.

Lemma deliveries_answered_witness : exists acts m n,
  Listen toy_redeem toy_onConnect toy_order toy_key [(toy_moment 10, toy_delivery); (toy_moment 20, toy_delivery)] (∅, 0%nat)
    = (acts, (m, n)) /\ n = 1%nat /\ (size m <= maxCachedReplies)%nat.
Proof.
  destruct (Listen toy_redeem toy_onConnect toy_order toy_key [(toy_moment 10, toy_delivery); (toy_moment 20, toy_delivery)] (∅, 0%nat))
    as [acts [m n]] eqn:Hrun.
  exists acts, m, n. split; [reflexivity|]. split.
  - apply (f_equal (fun x => x.2.2)) in Hrun. refine (eq_trans (eq_sym Hrun) _). vm_compute. reflexivity.
  - refine (proj1 (deliveries_answered toy_redeem toy_onConnect toy_order toy_order_fair toy_key 0 _ 0%nat acts m n _ Hrun)).
    cbn. lia.
Defined.

Definition toy_first := handleEvent toy_redeem toy_onConnect toy_order toy_key (toy_moment 10) toy_delivery (∅, 0%nat).
Definition toy_again := handleEvent toy_redeem toy_onConnect toy_order toy_key (toy_moment 20) toy_delivery toy_first.2.


Lemma request_served_once_witness : toy_first.2.2 = 1%nat /\ toy_again.2.2 = 1%nat /\ length toy_again.1 = 1%nat.
Proof.
  split; [vm_compute; reflexivity|].
  destruct (request_served_once toy_redeem toy_onConnect toy_order toy_order_fair toy_key 0 [] (toy_moment 10) toy_delivery []
    (toy_moment 20) toy_delivery 0%nat 0%nat toy_first.2.2 toy_first.2.2 toy_again.2.2 ∅ toy_first.2.1 toy_first.2.1 toy_again.2.1
    [] toy_first.1 [] toy_again.1 (mkPayload [mkProof 1 "k" "s" "c"] "wg" "entry" "r-1" 1)
    (mkPayload [mkProof 1 "k" "s" "c"] "wg" "entry" "r-1" 1) [mkProof 1 "k" "s" "c"]) as (before & reply & _ & Ha & Hw).
  - cbn. lia.
  - reflexivity.
  - by rewrite <-!surjective_pairing.
  - cbn. by rewrite <-!surjective_pairing.
  - unfold toy_again. by rewrite <-!surjective_pairing.
  - vm_compute. reflexivity.
  - vm_compute. reflexivity.
  - reflexivity.
  - reflexivity.
  - assert (toy_first.1 !! 0%nat = Some (Redeemed [mkProof 1 "k" "s" "c"])) as Hl by (vm_compute; reflexivity).
    by apply list_elem_of_lookup_2 in Hl.
  - apply Nat.ltb_lt. reflexivity.
  - vm_compute. reflexivity.
  - rewrite Hw, Ha. split; [vm_compute; reflexivity|reflexivity].
Defined.
