(* ===== verification/ClientConnect.v ===== *)
(** * ClientConnect: presenting credentials to nodes
    (src/internal/client/token_sender.go, cashu_connector.go, connector.go)

    Proofs go to a node over HTTP or in an encrypted event; either way the
    answer says whether they may be used again. HTTP and the relays are
    arguments: what a request brings back, what a published event brings into
    the reply inbox. *)
From S2P Require Import Prelude Sql Schema Credentials Repository Ledger Ecash EcashStore Mint WorkerPool Nostr Usage Payments Peers IPPool Control Connect Selector CashuApi Nip44 Envelope TokenReceiver.

(** strings.ToLower and strings.Contains, of ASCII text *)
Definition lower_char (c : ascii) : ascii :=
  let n := nat_of_ascii c in if ((65 <=? n) && (n <=? 90))%nat then ascii_of_nat (n + 32) else c.
Fixpoint ToLower (s : string) : string :=
  match s with EmptyString => "" | String c r => String (lower_char c) (ToLower r) end.
Fixpoint Contains (s substr : string) : bool :=
  String.prefix substr s || match s with EmptyString => false | String _ r => Contains r substr end.

Record ConnectResult := mkResult { re_TunnelIP : string; re_NodeWGPubkey : string; re_BytesAllowed : Z }.

(** The errors callers tell apart; a wrapped error is still found by errors.As. *)
Inductive connect_error :=
| NodeRejectedError (StatusCode : Z) (Message : string)
| ProofSpendUncertainError (Reason : string)
| OtherError (msg : string)
| Wrapped (context : string) (e : connect_error).

Definition ProofsBurned (StatusCode : Z) (Message : string) : bool :=
  if StatusCode =? StatusConflict then true
  else if StatusCode =? StatusInternalServerError then true
  else if StatusCode =? StatusServiceUnavailable then Contains (ToLower Message) "no ips available"
  else false.

Definition wrap_pair (context : string) {A} (r : result connect_error A) : result connect_error A :=
  match r with Ok a => Ok a | Err e => Err (Wrapped context e) end.

(** ** HTTP *)
(** No answer, or a status with what the body decodes to: the error and detail
    of an error body, the result of another. *)
Inductive http_answer :=
| NoHTTPAnswer
| HTTPAnswer (status : Z) (error_body : option (string * string)) (result_body : option ConnectResult).

(** The answer to a 200: the body decodes and names the tunnel. *)
Definition decode_result (body : option ConnectResult) : result connect_error ConnectResult :=
  match body with
  | None => Err (OtherError "decode connect response")
  | Some r =>
      if str_empty (re_TunnelIP r) || str_empty (re_NodeWGPubkey r)
      then Err (OtherError "node returned incomplete response (missing tunnel_ip or wg_pubkey)") else Ok r
  end.

Definition sendProofs (post : CashuConnectRequest -> http_answer) (proofs : list Proof_) (clientWGPubkey : string) :
    result connect_error ConnectResult :=
  if (length proofs =? 0)%nat then Err (OtherError "no proofs provided")
  else if str_empty clientWGPubkey then Err (OtherError "wg_pubkey required")
  else match post (mkCashuRequest proofs clientWGPubkey) with
  | NoHTTPAnswer => Err (OtherError "connect request")
  | HTTPAnswer status error_body result_body =>
      if negb (status =? StatusOK) then
        match error_body with
        | Some (error, detail) =>
            let msg := if str_empty error then detail else error in
            if str_empty msg then Err (OtherError "node connect error") else Err (NodeRejectedError status msg)
        | None => Err (OtherError "node connect error")
        end
      else decode_result result_body
  end.

(** [post url] is the default client's POST to url/cashu-connect. *)
Definition CashuConnector_ConnectWithProofs (post : string -> CashuConnectRequest -> http_answer) (connectURL : string)
    (proofs : list Proof_) (clientWGPubkey : string) : result connect_error ConnectResult :=
  sendProofs (post (connectURL ++ "/cashu-connect")%string) proofs clientWGPubkey.

(** Both hops in turn; what the entry granted comes back even when the exit
    fails. *)
Definition connect_both (entry : result connect_error ConnectResult) (exit_ : unit -> result connect_error ConnectResult)
    (entry_context exit_context : string) : option ConnectResult * option ConnectResult * option connect_error :=
  match wrap_pair entry_context entry with
  | Err e => (None, None, Some e)
  | Ok r =>
      match wrap_pair exit_context (exit_ tt) with
      | Err e => (Some r, None, Some e)
      | Ok r' => (Some r, Some r', None)
      end
  end.
Definition CashuConnector_ConnectPair (post : string -> CashuConnectRequest -> http_answer) (pair : NodePair)
    (entryProofs exitProofs : list Proof_) (clientWGPubkey : string) :=
  connect_both (CashuConnector_ConnectWithProofs post (n_ConnectURL (np_Entry pair)) entryProofs clientWGPubkey)
    (fun _ => CashuConnector_ConnectWithProofs post (n_ConnectURL (np_Exit pair)) exitProofs clientWGPubkey)
    "entry node connect" "exit node connect (entry succeeded)".

(** *** The pinned connector *)
Record URL := mkURL {
  url_Scheme : string;
  url_Host : string;
  url_Hostname : string;
  url_Port : string;
  url_User : bool;
  url_RawQuery : string;
  url_Fragment : string
}.

Section pinned.
(** url.Parse, net.ParseIP(s).To4() as text, and net.JoinHostPort *)
Context (url_Parse : string -> option URL) (ParseIPv4 : string -> option string) (JoinHostPort : string -> string -> string).

(** The address the transport may be asked for and the one it dials. *)
Definition pinned_target (connectURL pinnedIP : string) : result connect_error (string * string) :=
  match ParseIPv4 pinnedIP with
  | None => Err (OtherError "invalid pinned IPv4 address")
  | Some ip =>
      match url_Parse connectURL with
      | None => Err (OtherError "invalid pinned connect URL")
      | Some u =>
          if negb (String.eqb (url_Scheme u) "https") && negb (String.eqb (url_Scheme u) "http") ||
             str_empty (url_Hostname u) || url_User u
          then Err (OtherError "invalid pinned connect URL")
          else
            let port := if str_empty (url_Port u) then if String.eqb (url_Scheme u) "https" then "443"%string else "80"%string
                        else url_Port u in
            Ok (JoinHostPort (url_Hostname u) port, JoinHostPort ip port)
      end
  end.
Definition DialContext (expected target network address : string) : result string (string * string) :=
  if negb (String.eqb network "tcp") || negb (String.eqb address expected)
  then Err "refusing unpinned connection"%string else Ok ("tcp4"%string, target).

(** [post dial] is a client whose transport dials with [dial] and follows no
    redirect. *)
Definition ConnectWithProofsPinned (post : (string -> string -> result string (string * string)) -> string -> CashuConnectRequest -> http_answer)
    (connectURL pinnedIP : string) (proofs : list Proof_) (clientWGPubkey : string) : result connect_error ConnectResult :=
  '(expected, target) ← pinned_target connectURL pinnedIP;
  sendProofs (post (DialContext expected target) (connectURL ++ "/cashu-connect")%string) proofs clientWGPubkey.
End pinned.

(** ** Blind tokens (connector.go) *)
Section blind.
Context `{BlindScheme}.
Definition Connect (post : ConnectRequest -> http_answer) (token : BlindToken) (clientWGPubkey : string) :
    result connect_error ConnectResult :=
  match post (mkConnect (mkConnectToken (bt_Version token) (bt_KeyID token) (hex_encode (bt_TokenSecret token))
                          (hex_encode (bt_Signature token))) clientWGPubkey) with
  | NoHTTPAnswer => Err (OtherError "connect request")
  | HTTPAnswer status error_body result_body =>
      if negb (status =? StatusOK) then
        match error_body with
        | Some (error, _) => if str_empty error then Err (OtherError "node connect error") else Err (OtherError "node rejected token")
        | None => Err (OtherError "node connect error")
        end
      else decode_result result_body
  end.
End blind.

(** ** Encrypted events (token_sender.go) *)
(** What ends the wait for a reply. *)
Inductive wait_end := ContextDone | SubscriptionClosed.

Section sender.
Context `{Nip44Crypto} `{EnvelopeJson}.

Definition role_ok (role : string) : bool := String.eqb role "entry" || String.eqb role "exit".
Definition random_failed {A} (what : string) : result connect_error A := Err (OtherError what).

(** [publish] gives the number of relays that accepted the event. The key, the
    16 random bytes in hex, the nonce and the time are arguments; the randomness
    may fail. *)
Definition SendTokens (publish : Event -> result string Z) (senderKP : KeyPair) (nodePubkeyHex : string) (proofs : list Proof_)
    (clientWGPubkey role : string) (requestID nonce : option string) (now : Z) : result connect_error unit :=
  if (length proofs =? 0)%nat then Err (OtherError "no proofs to send")
  else if str_empty clientWGPubkey then Err (OtherError "wg_pubkey required")
  else if negb (role_ok role) then Err (OtherError "role must be 'entry' or 'exit'")
  else match requestID with
  | None => random_failed "generate request ID"
  | Some id =>
      match SealTokenEnvelope senderKP nodePubkeyHex (mkPayload proofs clientWGPubkey role id 1) nonce now with
      | Err _ => Err (OtherError "seal token envelope")
      | Ok event =>
          match publish event with
          | Err _ => Err (OtherError "publish to relays")
          | Ok published => if published =? 0 then Err (OtherError "no relays accepted the event") else Ok tt
          end
      end
  end.

(** A hop's randomness: a key of its own, a request id, a nonce. *)
Record hop_random := mkHop { hr_key : option KeyPair; hr_requestID : option string; hr_nonce : option string; hr_now : Z }.

Definition SendToNodePair (publish : Event -> result string Z) (pair : NodePair) (entryProofs exitProofs : list Proof_)
    (entryClientWGPubkey exitClientWGPubkey : string) (entry exit_ : hop_random) : result connect_error unit :=
  if str_empty entryClientWGPubkey || str_empty exitClientWGPubkey then Err (OtherError "both entry and exit wg_pubkeys are required")
  else match hr_key entry with
  | None => random_failed "generate entry sender keypair"
  | Some entryKP =>
      _ ← wrap_pair "send to entry node" (SendTokens publish entryKP (n_NostrPubkey (np_Entry pair)) entryProofs
            entryClientWGPubkey "entry" (hr_requestID entry) (hr_nonce entry) (hr_now entry));
      match hr_key exit_ with
      | None => random_failed "generate exit sender keypair"
      | Some exitKP =>
          wrap_pair "send to exit node" (SendTokens publish exitKP (n_NostrPubkey (np_Exit pair)) exitProofs
            exitClientWGPubkey "exit" (hr_requestID exit_) (hr_nonce exit_) (hr_now exit_))
      end
  end.

(** What the reply to this request says. *)
Definition read_reply (reply : TokenReplyPayload) : result connect_error ConnectResult :=
  if negb (tr_Version reply =? 1) then Err (ProofSpendUncertainError "unsupported token reply version")
  else if negb (tr_OK reply) then
    if 0 <? tr_StatusCode reply then Err (NodeRejectedError (tr_StatusCode reply) (tr_Error reply))
    else Err (ProofSpendUncertainError "node rejected proofs without status")
  else if str_empty (tr_TunnelIP reply) || str_empty (tr_NodeWGPubkey reply)
  then Err (ProofSpendUncertainError "node reply missing tunnel_ip or node_wg_pubkey")
  else Ok (mkResult (tr_TunnelIP reply) (tr_NodeWGPubkey reply) (tr_BytesAllowed reply)).

(** The reply an event of the inbox carries, when it is the one waited for. *)
Definition reply_in (senderKP : KeyPair) (nodePubkeyHex requestID : string) (event : option Event) : option TokenReplyPayload :=
  match event with
  | None => None
  | Some e =>
      if negb (ev_Kind e =? TokenReplyEnvelopeKind) || negb (String.eqb (ev_Pubkey e) nodePubkeyHex) then None
      else match Verify e with
      | Err _ => None
      | Ok _ =>
          match OpenTokenReplyEnvelope e senderKP with
          | Err _ => None
          | Ok reply => if negb (String.eqb (tr_RequestID reply) requestID) then None else Some reply
          end
      end
  end.

(** The events of the subscription, in order, until the wait ends. *)
Fixpoint wait_reply (senderKP : KeyPair) (nodePubkeyHex requestID : string) (inbox : list (option Event)) (ending : wait_end) :
    result connect_error ConnectResult :=
  match inbox with
  | [] =>
      Err (ProofSpendUncertainError match ending with
        | ContextDone => "connect outcome unknown"
        | SubscriptionClosed => "reply subscription closed before outcome"
        end)
  | event :: rest =>
      match reply_in senderKP nodePubkeyHex requestID event with
      | None => wait_reply senderKP nodePubkeyHex requestID rest ending
      | Some reply => read_reply reply
      end
  end.

(** [inbox event]: what the subscription delivers once [event] is published. *)
Definition ConnectWithProofs (subscribe : string -> result string unit) (publish : Event -> result string Z)
    (inbox : Event -> list (option Event)) (ending : wait_end) (nodePubkeyHex : string) (proofs : list Proof_)
    (clientWGPubkey role : string) (hop : hop_random) : result connect_error ConnectResult :=
  if str_empty nodePubkeyHex then Err (OtherError "node pubkey required")
  else if (length proofs =? 0)%nat then Err (OtherError "no proofs to send")
  else if str_empty clientWGPubkey then Err (OtherError "wg_pubkey required")
  else if negb (role_ok role) then Err (OtherError "role must be 'entry' or 'exit'")
  else match hr_key hop with
  | None => random_failed "generate sender keypair"
  | Some senderKP =>
      match hr_requestID hop with
      | None => random_failed "generate request ID"
      | Some requestID =>
          match subscribe ("arfl-token-reply-" ++ requestID)%string with
          | Err _ => Err (OtherError "subscribe for token reply")
          | Ok _ =>
              match SealTokenEnvelope senderKP nodePubkeyHex (mkPayload proofs clientWGPubkey role requestID 1) (hr_nonce hop) (hr_now hop) with
              | Err _ => Err (OtherError "seal token envelope")
              | Ok event =>
                  match publish event with
                  | Err _ => Err (OtherError "publish token envelope")
                  | Ok accepted =>
                      if accepted =? 0 then Err (OtherError "no relays accepted token envelope")
                      else wait_reply senderKP nodePubkeyHex requestID (inbox event) ending
                  end
              end
          end
      end
  end.

(** [connect]: ConnectWithProofs of one hop. *)
Definition ConnectPair (connect : string -> list Proof_ -> string -> string -> hop_random -> result connect_error ConnectResult)
    (pair : NodePair) (entryProofs exitProofs : list Proof_) (entryClientWGPubkey exitClientWGPubkey : string)
    (entry exit_ : hop_random) : option ConnectResult * option ConnectResult * option connect_error :=
  connect_both (connect (n_NostrPubkey (np_Entry pair)) entryProofs entryClientWGPubkey "entry" entry)
    (fun _ => connect (n_NostrPubkey (np_Exit pair)) exitProofs exitClientWGPubkey "exit" exit_)
    "entry node connect via Nostr" "exit node connect via Nostr (entry succeeded)".
End sender.

(** ** A node of this hub *)
(** The answer of the node's handler on the wire. *)
Definition http_of (r : option (reply ConnectResponse)) : http_answer :=
  match r with
  | None => NoHTTPAnswer
  | Some (Fault code msg) => HTTPAnswer code (Some (msg, ""%string)) None
  | Some (Reply code c) => HTTPAnswer code None (Some (mkResult (cn_TunnelIP c) (cn_NodeWGPubkey c) (cn_BytesAllowed c)))
  end.

Lemma str_empty_false s : s <> ""%string -> str_empty s = false.
Proof. by destruct s. Qed.
Lemma Contains_prefix s t : String.prefix t s = true -> Contains s t = true.
Proof. by destruct s as [|c s]; cbn [Contains]; intros ->. Qed.

(** A refusal of the hub is passed on with a status that does not read as
    burned, unless the hub said the proofs were spent. *)
Lemma redeem_status e : let '(status, msg) := default (StatusBadGateway, "hub verification failed"%string) (RedeemErrorResponse e) in
  0 < status /\ status <> StatusOK /\ msg <> ""%string /\ (ProofsBurned status msg = true -> status = StatusConflict).
Proof. destruct e; repeat split; discriminate. Qed.

Section accounting.
Context {W Q : Type} `{WgManagerLaws W} `{EnforcerLaws Q} `{BlindScheme}.
Context `{Bdhke} {S : Type} `{MintStoreLaws S}.
Context (limits : rate_config) (m : Mint).
Context (range : pool_order) (Hrange : fair range).

(** A failed grant reads as burned. *)
Lemma grant_status iface now key bytes (ps : Peers W Q) code msg ps' :
  grantPeer range iface now key bytes ps = (Err (code, msg), ps') -> 0 < code /\ code <> StatusOK /\ msg <> ""%string /\ ProofsBurned code msg = true.
Proof.
  unfold grantPeer. destruct (Allocate _ _ _ _) as [[ip|e] pool].
  - destruct (wg_AddPeer _ _ _) as [[[]|e] wg1].
    + destruct (q_SetQuota _ _ _) as [[[]|e] q1]; [done|]. intros [= <- <- <-]. repeat split; discriminate.
    + intros [= <- <- <-]. repeat split; discriminate.
  - intros [= <- <- <-]. split_and!; [done|done|discriminate|]. by apply Contains_prefix.
Qed.

Definition burned (api api' : DiscoveryAPI) (proofs : list Proof_) : Prop :=
  exists Ys, proof_Y <$> proofs = Some <$> Ys /\ NoDup Ys /\ (forall y, y ∈ Ys -> y ∉ spent_set (da_store api)) /\
    spent_set (da_store api') = spent_set (da_store api) ∪ list_to_set Ys.

(** The client's view of an attempt agrees with the hub's and the node's. *)
Definition accounted (proofs : list Proof_) (key : string) (pool : tunnelIPPool) (api api' : DiscoveryAPI) (s s' : Server)
    (r : result connect_error ConnectResult) : Prop :=
  match r with
  | Ok res => burned api api' proofs /\ exists ip ps',
      res = mkResult (ip ++ "/32") (s_wgPubkey s) (bytes_for proofs) /\ s' = with_peers ps' s /\
      granted (s_iface s) key (bytes_for proofs) ip (peers_of pool s) ps'
  | Err (NodeRejectedError status msg) =>
      (ProofsBurned status msg = true /\ burned api api' proofs /\ exists ps', s' = with_peers ps' s /\
         (unchanged (s_iface s) (peers_of pool s) ps' \/ dropped (s_iface s) key (peers_of pool s) ps')) \/
      (spent_set (da_store api') = spent_set (da_store api) /\ s' = s /\ (ProofsBurned status msg = true -> status = StatusConflict))
  | Err _ => False
  end.

(** Redeeming at this hub. *)
Lemma redeem_hub node c (api : DiscoveryAPI) proofs : store_ok (da_store api) ->
  match Redeem (hub_redeem limits m node c api) proofs with
  | Ok r => cr_BytesAllowed r = bytes_for proofs /\ burned api (hub_after limits m node c api proofs) proofs
  | Err _ => spent_set (da_store (hub_after limits m node c api proofs)) = spent_set (da_store api)
  end.
Proof.
  intros Hok. unfold Redeem.
  destruct (hub_redeem_cases limits m node c api proofs Hok) as [(Ys & -> & HY & Hnd & Hnew & Hs)|[Hr Hs]].
  - cbn. split; [done|]. by exists Ys.
  - destruct (hub_redeem limits m node c api proofs) as [|code [b|]]; [done|done|].
    rewrite (proj2 (Z.eqb_neq code StatusOK)) by done. by repeat case_match.
Qed.

Lemma unchanged_refl iface (ps : Peers W Q) : unchanged iface ps ps.
Proof. unfold unchanged. naive_solver. Qed.

(** A grant after the hub accepted. *)
Lemma granted_accounted now key proofs pool (api api' : DiscoveryAPI) (s : Server) :
  peers_ok (s_iface s) (peers_of pool s) -> removable (s_iface s) -> burned api api' proofs ->
  match GrantCashuPeer range now key (bytes_for proofs) pool s with
  | (Ok c, s') => accounted proofs key pool api api' s s' (Ok (mkResult (cc_TunnelIP c) (cc_NodeWGPubkey c) (cc_BytesAllowed c))) /\
      cc_TunnelIP c <> ""%string /\ cc_NodeWGPubkey c = s_wgPubkey s
  | (Err (code, msg), s') => 0 < code /\ code <> StatusOK /\ msg <> ""%string /\
      accounted proofs key pool api api' s s' (Err (NodeRejectedError code msg))
  end.
Proof.
  intros Hok Hrem Hb. unfold GrantCashuPeer. destruct (grantPeer _ _ _ _ _ _) as [[ip|[code msg]] ps'] eqn:Hg.
  - apply (grantPeer_ok _ Hrange) in Hg as [_ Hg]; [|done..]. cbn. split_and!; [done| |by destruct ip|done]. by exists ip, ps'.
  - pose proof (grant_status _ _ _ _ _ _ _ _ Hg) as (Hpos & Hne & Hm & HB). split_and!; [done..|].
    apply (grantPeer_ok _ Hrange) in Hg as [_ Hg]; [|done..]. left. split_and!; [done..|]. exists ps'. split; [done|].
    destruct Hg as [(_ & -> & _)|[_ Hg]]; [left; apply unchanged_refl|done].
Qed.

(** C15: over HTTP, when every answer arrives, the client books its proofs as the
    hub did. Presenting proofs to a node of this hub, with the hub's answer
    reaching the node and the node's the client, gives a tunnel exactly when the
    hub burned them and the node granted a peer for the bytes they are worth;
    otherwise a rejection, which reads as burned whenever the hub did burn them,
    and when nothing was burned only if the hub had seen one of them before. (A
    lost answer breaks this: see [lost_answer_refunded].) *)
Theorem http_connect_accounted now node c (api : DiscoveryAPI) proofs key (s : Server) pool
    (Hstore : store_ok (da_store api)) (Hred : s_redeemer s = true) (Hpool : s_ipPool s = Some pool)
    (Hok : peers_ok (s_iface s) (peers_of pool s)) (Hrem : removable (s_iface s))
    (Hproofs : proofs <> []) (Hkey : key <> ""%string) (Hwg : s_wgPubkey s <> ""%string) :
  let node_at := fun req => handleCashuConnect range now (hub_redeem limits m node c api) (Some req) s in
  let req := mkCashuRequest proofs key in
  let api' := if maxCashuConnectProofs <? Z.of_nat (length proofs) then api else hub_after limits m node c api proofs in
  accounted proofs key pool api api' s (node_at req).2 (sendProofs (fun req => http_of (node_at req).1) proofs key).
Proof.
  cbv zeta. unfold sendProofs. assert (length proofs =? 0 = false)%nat as Hlen by (by destruct proofs).
  rewrite Hlen, (str_empty_false key) by done. unfold handleCashuConnect. rewrite Hred. cbn [negb].
  unfold cashu_checks. cbn [cq_Proofs cq_WGPubkey]. rewrite (str_empty_false key) by done.
  assert (Z.of_nat (length proofs) =? 0 = false) as -> by (destruct proofs; done).
  destruct (maxCashuConnectProofs <? _).
  { cbn -[show_Z]. right. split_and!; [done|done|]. discriminate. }
  pose proof (redeem_hub node c api proofs Hstore) as Hr. destruct (Redeem _ _) as [r|e].
  - destruct Hr as [-> Hb]. rewrite Hpool. pose proof (granted_accounted now key _ _ _ _ _ Hok Hrem Hb) as Hg.
    destruct (GrantCashuPeer _ _ _ _ _ _) as [[res|[code msg]] s'].
    + destruct Hg as (Ha & Hip & Hkw). cbn [fst snd http_of cn_TunnelIP cn_NodeWGPubkey cn_BytesAllowed].
      change (negb (StatusOK =? StatusOK)) with false. cbv iota. unfold decode_result. cbn [re_TunnelIP re_NodeWGPubkey].
      rewrite !str_empty_false by congruence. exact Ha.
    + destruct Hg as (_ & Hne & Hm & Ha). cbn [fst snd http_of]. rewrite (proj2 (Z.eqb_neq code StatusOK)) by done.
      cbn [negb]. rewrite !(str_empty_false msg) by done. exact Ha.
  - pose proof (redeem_status e) as Hs. destruct (default _ _) as [status msg]. destruct Hs as (_ & Hne & Hm & HB).
    cbn [fst snd http_of]. rewrite (proj2 (Z.eqb_neq status StatusOK)) by done. cbn [negb].
    rewrite !(str_empty_false msg) by done. right. by split_and!.
Qed.

(** *** The same node behind its token receiver *)
(** The receiver's callbacks (cmd/arfl-node/main.go:246-253); the pool is made
    with the redeemer. *)
Abbreviation node_world := (DiscoveryAPI (S:=S) * @Server W Q _)%type.
Definition node_redeem (node : string) (c : call) (proofs : list Proof_) (w : node_world) :
    result redeem_error CashuRedeemResult * (node_world) :=
  (Redeem (hub_redeem limits m node c w.1) proofs, (hub_after limits m node c w.1 proofs, w.2)).
Definition node_connect (now : Z) (key : string) (bytes : Z) (w : node_world) :
    result (Z * string) CashuConnectResult * (node_world) :=
  let '(r, s') := GrantCashuPeer range now key bytes (default (newTunnelIPPool "") (s_ipPool w.2)) w.2 in (r, (w.1, s')).

(** The receiver's reply says what happened. *)
Lemma reply_accounted node c now p (api : DiscoveryAPI) (s : Server) pool acts reply (api' : DiscoveryAPI) (s' : Server) :
  store_ok (da_store api) -> s_ipPool s = Some pool -> peers_ok (s_iface s) (peers_of pool s) -> removable (s_iface s) ->
  tp_Proofs p <> [] -> tp_WGPubkey p <> ""%string -> role_ok (tp_Role p) = true -> s_wgPubkey s <> ""%string ->
  fresh_reply (node_redeem node c) (node_connect now) p (api, s) = (acts, reply, (api', s')) ->
  accounted (tp_Proofs p) (tp_WGPubkey p) pool api api' s s' (read_reply reply).
Proof.
  intros Hstore Hpool Hok Hrem Hproofs Hkey Hrole Hwg. unfold fresh_reply.
  assert (length (tp_Proofs p) =? 0 = false)%nat as -> by (by destruct (tp_Proofs p)).
  rewrite str_empty_false by done. unfold role_ok in Hrole.
  assert (negb (String.eqb (tp_Role p) "entry") && negb (String.eqb (tp_Role p) "exit") = false) as ->
    by (rewrite <-negb_orb, Hrole; done).
  cbn [orb]. unfold node_redeem at 1. cbn [fst snd].
  pose proof (redeem_hub node c api (tp_Proofs p) Hstore) as Hr. destruct (Redeem _ _) as [r|e].
  - destruct Hr as [-> Hb]. unfold node_connect. cbn [fst snd]. rewrite Hpool. cbn [default].
    pose proof (granted_accounted now (tp_WGPubkey p) _ _ _ _ _ Hok Hrem Hb) as Hg. unfold default, id.
    destruct (GrantCashuPeer _ _ _ _ _ _) as [[res|[code msg]] s1].
    + destruct Hg as (Ha & Hip & Hkw). intros [= <- <- <- <-]. unfold read_reply, rejected.
      cbn [tr_Version tr_OK tr_StatusCode tr_TunnelIP tr_NodeWGPubkey tr_BytesAllowed tr_Error]. change (negb (1 =? 1)) with false. cbn [negb].
      rewrite !str_empty_false by congruence. exact Ha.
    + destruct Hg as (Hpos & Hne & Hm & Ha). rewrite (proj2 (Z.eqb_neq code 0)) by lia.
      intros [= <- <- <- <-]. unfold read_reply, rejected.
      cbn [tr_Version tr_OK tr_StatusCode tr_Error]. change (negb (1 =? 1)) with false. cbn [negb]. rewrite (proj2 (Z.ltb_lt 0 code)) by done. exact Ha.
  - pose proof (redeem_status e) as Hs. destruct (default _ _) as [status msg]. destruct Hs as (Hpos & Hne & Hm & HB).
    intros [= <- <- <- <-]. unfold read_reply, rejected.
      cbn [tr_Version tr_OK tr_StatusCode tr_Error]. change (negb (1 =? 1)) with false. cbn [negb]. rewrite (proj2 (Z.ltb_lt 0 status)) by done. right. by split_and!.
Qed.
End accounting.

Section delivery.
Context {W Q : Type} `{WgManagerLaws W} `{EnforcerLaws Q} `{BlindScheme}.
Context `{Bdhke} {S : Type} `{MintStoreLaws S}.
Context `{Nip44Laws} `{!SchnorrLaws} `{EnvelopeJson}.
Context (limits : rate_config) (m : Mint).
Context (range : pool_order) (Hrange : fair range) (order : reply_order).

Lemma wait_reply_found sender node id noise e more ending reply :
  Forall (fun x => reply_in sender node id x = None) noise -> reply_in sender node id (Some e) = Some reply ->
  wait_reply sender node id (noise ++ Some e :: more) ending = read_reply reply.
Proof.
  intros Hn Hr. induction Hn as [|x l Hx _ IH]; cbn [app wait_reply]; [by rewrite Hr|]. by rewrite Hx.
Qed.

(** The request the node sees is the one the client sealed. *)
Lemma sealed_request client node proofs key role id json nonce now event :
  own_key client -> own_key node -> String.length nonce = 32%nat ->
  0 < slen id <= maxRequestIDLength ->
  let p := mkPayload proofs key role id 1 in
  marshal_payload p = Some json -> unmarshal_payload json = Some p ->
  SealTokenEnvelope client (PubkeyHex node) p (Some nonce) now = Ok event ->
  request_of node event = Some p /\ ev_Pubkey event = PubkeyHex client.
Proof.
  intros Hc Hn Hnonce Hid p Hj Hu Hseal. unfold SealTokenEnvelope in Hseal. rewrite Hj in Hseal.
  destruct (open_seal _ _ _ _ _ _ _ unmarshal_payload _ Hc Hn Hnonce Hu Hseal) as (Hopen & Hv & Hpk & _).
  split; [|done]. unfold request_of, OpenTokenEnvelope. rewrite Hv, Hopen. cbn [tp_Version tp_RequestID p].
  change (negb (1 =? 1)) with false. cbv iota. rewrite str_empty_false by (intros ->; by destruct Hid).
  by rewrite (proj2 (Z.ltb_ge _ _)) by lia.
Qed.

(** The private path books proofs like the open one. A client that publishes
    its sealed request, and whose node - behind its receiver, at this hub - answers
    it, reads from that answer what the hub and the node did, whatever else the
    relays deliver before or after it. *)
Theorem nip44_connect_accounted (api api' : DiscoveryAPI) (s s' : Server) pool cnode c now cache cache' mo acts
    client node proofs key role id json nonce seal_time event reply sealed noise more subscribe publish accepted ending
    (Hstore : store_ok (da_store api)) (Hpool : s_ipPool s = Some pool)
    (Hok : peers_ok (s_iface s) (peers_of pool s)) (Hrem : removable (s_iface s)) (Hwg : s_wgPubkey s <> ""%string)
    (Hclient : own_key client) (Hnode : own_key node) (Hkeyhex : PubkeyHex node <> ""%string)
    (Hproofs : proofs <> []) (Hkey : key <> ""%string) (Hrole : role_ok role = true)
    (Hid : 0 < slen id <= maxRequestIDLength) (Hnonce : String.length nonce = 32%nat)
    (Hmarshal : marshal_payload (mkPayload proofs key role id 1) = Some json)
    (Hparse : unmarshal_payload json = Some (mkPayload proofs key role id 1))
    (Hsubscribe : subscribe ("arfl-token-reply-" ++ id)%string = Ok tt)
    (Hseal : SealTokenEnvelope client (PubkeyHex node) (mkPayload proofs key role id 1) (Some nonce) seal_time = Ok event)
    (Hpublish : publish event = Ok accepted) (Haccepted : 0 < accepted)
    (Hfresh : expireReplies (mo_lookup mo) cache !! replyCacheKey (PubkeyHex client) id = None)
    (Hhandle : handleEvent (node_redeem limits m cnode c) (node_connect range now) order node mo event (cache, (api, s))
                 = (acts, (cache', (api', s'))))
    (Hreply : Replied (PubkeyHex client) reply (Some sealed) ∈ acts)
    (Hmononce : forall n, mo_nonce mo = Some n -> String.length n = 32%nat)
    (Hjson : forall j, marshal_reply reply = Some j -> unmarshal_reply j = Some reply)
    (Hnoise : Forall (fun x => reply_in client (PubkeyHex node) id x = None) noise) :
  accounted proofs key pool api api' s s'
    (ConnectWithProofs subscribe publish (fun _ => noise ++ Some sealed :: more) ending (PubkeyHex node) proofs key role
       (mkHop (Some client) (Some id) (Some nonce) seal_time)).
Proof.
  destruct (sealed_request _ _ _ _ _ _ _ _ _ _ Hclient Hnode Hnonce Hid Hmarshal Hparse Hseal) as [Hreq Hpk].
  unfold ConnectWithProofs. cbn [hr_key hr_requestID hr_nonce hr_now]. rewrite (str_empty_false (PubkeyHex node)) by done.
  assert (length proofs =? 0 = false)%nat as -> by (by destruct proofs).
  rewrite (str_empty_false key), Hrole, Hsubscribe, Hseal, Hpublish by done. cbn [negb].
  rewrite (proj2 (Z.eqb_neq accepted 0)) by lia.
  unfold handleEvent in Hhandle. rewrite Hreq, Hpk in Hhandle. unfold cachedReply in Hhandle. cbn [tp_RequestID] in Hhandle.
  rewrite Hfresh in Hhandle. cbn [fmap option_fmap option_map] in Hhandle.
  destruct (fresh_reply _ _ _ _) as [[before r] [api1 s1]] eqn:Hf. pose proof (fresh_reply_ok _ _ _ _ _ _ _ Hf) as (Hrid & _ & Hb).
  cbn [sendReplyAndCache] in Hhandle. injection Hhandle as <- _ <- <-. cbn [tp_RequestID] in Hrid.
  assert (reply = r /\ SealTokenReplyEnvelope node (PubkeyHex client) r (mo_nonce mo) (mo_seal mo) = Ok sealed) as [-> Hs].
  { apply elem_of_app in Hreply as [Hin|Hin%list_elem_of_singleton].
    - destruct Hb as [(-> & _)|[(-> & _)|(bytes & -> & _)]]; set_solver.
    - unfold sendReply in Hin. injection Hin as -> Hin. split; [done|]. case_match; congruence. }
  apply (reply_accounted limits m range Hrange cnode c now _ _ _ pool) in Hf; [|done..].
  rewrite (wait_reply_found _ _ _ _ _ _ _ r); [done|done|].
  unfold SealTokenReplyEnvelope in Hs. destruct (marshal_reply r) as [j|] eqn:Hj; [|done].
  destruct (mo_nonce mo) as [n|] eqn:Hn.
  2:{ unfold sealEnvelope in Hs. destruct (PubkeyFromHex _); [|done]. cbn [mbind result_mbind] in Hs.
      unfold Encrypt in Hs. destruct (negb _); [done|]. destruct (_ || _); done. }
  destruct (open_seal _ _ _ _ _ _ _ unmarshal_reply _ Hnode Hclient (Hmononce _ eq_refl) (Hjson _ eq_refl) Hs)
    as (Hopen & Hv & Hpk' & Hk & _).
  unfold reply_in, OpenTokenReplyEnvelope. rewrite Hk, Hpk', Z.eqb_refl, String.eqb_refl, Hv, Hopen. cbn [negb orb].
  by rewrite Hrid, String.eqb_refl.
Qed.
End delivery.

(** ** A client, a node and a hub *)
Definition toy_proofs : list Proof_ := cq_Proofs toy_cashu_request.
Definition toy_pool : tunnelIPPool := newTunnelIPPool "10.100.0".
Definition toy_hub_after : DiscoveryAPI := hub_after no_limit toy_mint "node-1" toy_call toy_api toy_proofs.
Definition toy_tunnel : ConnectResult := mkResult "10.100.0.2/32" "node-key" 6000000.
Definition toy_http (api : DiscoveryAPI) (req : CashuConnectRequest) : http_answer :=
  http_of (handleCashuConnect toy_range 0 (toy_redeemer api) (Some req) toy_cashu_server).1.

Lemma toy_peers_ok : peers_ok (s_iface toy_cashu_server) (peers_of toy_pool toy_cashu_server).
Proof. exact (fresh_ok _ "10.100.0" toy_peers toy_fresh). Qed.

Lemma http_connect_accounted_witness :
  sendProofs (toy_http toy_api) toy_proofs "alice" = Ok toy_tunnel /\ burned toy_api toy_hub_after toy_proofs.
Proof.
  assert (sendProofs (toy_http toy_api) toy_proofs "alice" = Ok toy_tunnel) as Hr by (vm_compute; reflexivity).
  split; [exact Hr|].
  pose proof (http_connect_accounted no_limit toy_mint toy_range toy_range_fair 0 "node-1" toy_call toy_api toy_proofs "alice"
    toy_cashu_server toy_pool toy_api_ok eq_refl eq_refl toy_peers_ok (mock_removable _) ltac:(discriminate)
    ltac:(discriminate) ltac:(discriminate)) as Ha.
  cbv zeta in Ha. change (sendProofs _ toy_proofs "alice") with (sendProofs (toy_http toy_api) toy_proofs "alice") in Ha.
  rewrite Hr in Ha. exact (proj1 Ha).
Defined.

Definition toy_sealed_payload : TokenPayload := mkPayload toy_proofs "alice" "entry" "r-1" 1.
#[local] Instance delivery_json : EnvelopeJson := {|
  marshal_payload := fun p => Some (tp_RequestID p);
  unmarshal_payload := fun s => Some (mkPayload toy_proofs "alice" "entry" s 1);
  marshal_reply := fun r => Some (tr_RequestID r);
  unmarshal_reply := fun s => Some (mkReplyPayload s true "" 0 "10.100.0.2/32" "node-key" 6000000 1)
|}.
Definition toy_sent : Event :=
  match SealTokenEnvelope toy_key (PubkeyHex toy_key) toy_sealed_payload (Some (pad32 "n")) 7 with Ok e => e | Err _ => toy_event end.
Definition toy_handled :=
  handleEvent (node_redeem no_limit toy_mint "node-1" toy_call) (node_connect toy_range 0) toy_order toy_key (toy_moment 10) toy_sent
    (∅, (toy_api, toy_cashu_server)).
Definition toy_answer : TokenReplyPayload := mkReplyPayload "r-1" true "" 0 "10.100.0.2/32" "node-key" 6000000 1.
Definition toy_answer_event : Event :=
  match SealTokenReplyEnvelope toy_key (PubkeyHex toy_key) toy_answer (Some (pad32 "m")) 7 with Ok e => e | Err _ => toy_event end.
(** A stray event of the node comes first. *)
Definition toy_inbox (_ : Event) : list (option Event) := [None; Some toy_sent; Some toy_answer_event].
Definition toy_connect := ConnectWithProofs (fun _ => Ok tt) (fun _ => Ok 2) toy_inbox ContextDone (PubkeyHex toy_key) toy_proofs
  "alice" "entry" (mkHop (Some toy_key) (Some "r-1"%string) (Some (pad32 "n")) 7).

Lemma nip44_connect_accounted_witness : toy_connect = Ok toy_tunnel /\ burned toy_api toy_handled.2.2.1 toy_proofs.
Proof.
  assert (toy_connect = Ok toy_tunnel) as Hr by (vm_compute; reflexivity).
  split; [exact Hr|].
  pose proof (nip44_connect_accounted no_limit toy_mint toy_range toy_range_fair toy_order toy_api toy_handled.2.2.1
    toy_cashu_server toy_handled.2.2.2 toy_pool "node-1" toy_call 0 ∅ toy_handled.2.1 (toy_moment 10) toy_handled.1 toy_key toy_key
    toy_proofs "alice" "entry" "r-1" "r-1" (pad32 "n") 7 toy_sent toy_answer toy_answer_event [None; Some toy_sent] []
    (fun _ => Ok tt) (fun _ => Ok 2) 2 ContextDone toy_api_ok eq_refl toy_peers_ok (mock_removable _)) as Ha.
  assert (accounted toy_proofs "alice" toy_pool toy_api toy_handled.2.2.1 toy_cashu_server toy_handled.2.2.2 toy_connect) as Ha'.
  { apply Ha; clear Ha.
    - discriminate.
    - reflexivity.
    - reflexivity.
    - discriminate.
    - discriminate.
    - discriminate.
    - reflexivity.
    - split; [reflexivity|discriminate].
    - reflexivity.
    - reflexivity.
    - reflexivity.
    - reflexivity.
    - vm_compute. reflexivity.
    - reflexivity.
    - reflexivity.
    - reflexivity.
    - unfold toy_handled. by rewrite <-!surjective_pairing.
    - assert (toy_handled.1 !! 2%nat = Some (Replied (PubkeyHex toy_key) toy_answer (Some toy_answer_event))) as Hl
        by (vm_compute; reflexivity).
      by apply list_elem_of_lookup_2 in Hl.
    - intros n [= <-]. reflexivity.
    - intros j [= <-]. reflexivity.
    - repeat constructor; vm_compute; reflexivity. }
  rewrite Hr in Ha'. exact (proj1 Ha').
Defined.

(** An answer lost between hub and node. The hub has burned the proofs, the node
    calls it unreachable, and the client takes them for unspent. *)
Theorem lost_answer_refunded :
  let node_at := fun req => handleCashuConnect toy_range 0 (fun _ => NoAnswer) (Some req) toy_cashu_server in
  burned toy_api toy_hub_after toy_proofs /\
  sendProofs (fun req => http_of (node_at req).1) toy_proofs "alice"
    = Err (NodeRejectedError StatusBadGateway "hub verification failed") /\
  ProofsBurned StatusBadGateway "hub verification failed" = false.
Proof.
  cbv zeta. split; [|split; vm_compute; reflexivity].
  exact (proj2 (redeem_hub no_limit toy_mint "node-1" toy_call toy_api toy_proofs toy_api_ok)).
Qed.

(** One spent proof condemns the others. A conflict reads as all proofs burned,
    but the hub has spent only the one it knew. *)
Theorem conflict_forfeits_unspent :
  let proofs := [toy_proof 4 "a"; toy_proof 1 "c"] in
  sendProofs (toy_http toy_hub_after) proofs "bob" = Err (NodeRejectedError StatusConflict "proofs already spent") /\
  ProofsBurned StatusConflict "proofs already spent" = true /\
  match proof_Y (toy_proof 1 "c") with
  | Some y => bool_decide (y ∈ spent_set (da_store (hub_after no_limit toy_mint "node-1" toy_call toy_hub_after proofs))) = false
  | None => False
  end.
Proof. vm_compute. done. Qed.
