(* ===== verification/ServiceNodes.v ===== *)
(** * ServiceNodes: how the client is configured and chooses its nodes
    (src/internal/app/service.go)

    New with its checks, the node list from the hub or from the relays, and the
    pair: drawn, pinned by the user, or planned. Opening the proof store and
    what the hub or the relays deliver are arguments. Spaces are ASCII. *)
From S2P Require Import Prelude Sql Schema Credentials Repository Settlement Nostr Attestation Selector Control CashuApi Discovery ProofVault Nip44 Envelope ClientConnect.

Inductive service_error :=
| ErrNoHub | ErrAlreadyOn | ErrNotConnected | ErrAmountTooSmall | ErrTransportUnsupported
| ErrPinnedNodeOffline | ErrPinnedSameNode | ErrExtendMovedTunnel
| ErrSelect (e : select_error) | ErrWallet (e : wallet_error) | ErrNode (e : connect_error)
| ServiceErr (msg : string)
(** the error, and proofs that could not be returned to the store *)
| ErrNotReturned (e : service_error).

(** ** Configuration *)
Definition is_space (c : ascii) : bool :=
  let n := nat_of_ascii c in ((9 <=? n) && (n <=? 13) || (n =? 32))%nat.
Fixpoint trim_left (s : string) : string :=
  match s with String c r => if is_space c then trim_left r else s | EmptyString => "" end.
Fixpoint trim_right (s : string) : string :=
  match s with
  | EmptyString => ""
  | String c r => match trim_right r with EmptyString => if is_space c then "" else String c "" | r' => String c r' end
  end.
Definition TrimSpace (s : string) : string := trim_right (trim_left s).

Fixpoint sanitize_loop (seen : gset string) (l : list string) : list string :=
  match l with
  | [] => []
  | x :: r =>
      let trimmed := TrimSpace x in
      if str_empty trimmed then sanitize_loop seen r
      else if bool_decide (trimmed ∈ seen) then sanitize_loop seen r
      else trimmed :: sanitize_loop ({[trimmed]} ∪ seen) r
  end.
Definition sanitizeRelays : list string -> list string := sanitize_loop ∅.
Definition sanitizeHubPubkeys : list string -> list string := sanitize_loop ∅.

Definition known_transport (t : Transport) : bool := bool_decide (t ∈ all_transports).
Fixpoint preferred_loop (seen : gset Transport) (l : list Transport) : list Transport :=
  match l with
  | [] => []
  | t :: r =>
      if negb (known_transport t) then preferred_loop seen r
      else if bool_decide (t ∈ seen) then preferred_loop seen r
      else t :: preferred_loop ({[t]} ∪ seen) r
  end.
Definition sanitizePreferredTransports (l : list Transport) : list Transport :=
  match preferred_loop ∅ l with [] => [TransportWireGuard] | out => out end.
Definition sanitizeAllowedTransports (l : list Transport) : gset Transport :=
  match l with [] => list_to_set all_transports | _ => list_to_set (bfilter known_transport l) end.
(** In some order. *)
Definition mapKeys (s : gset Transport) : list Transport :=
  match elements s with [] => [TransportWireGuard] | out => out end.

Definition DiscoverySourceHub : string := "hub".
Definition DiscoverySourceNostr : string := "nostr".

Record Config := mkConfig {
  cf_StorePath : string;
  cf_Passphrase : string;
  cf_PollInterval : Z;
  cf_PreferredTransports : list Transport;
  cf_AllowedTransports : list Transport;
  cf_NostrRelays : list string;
  cf_TokenDelivery : string;
  cf_DiscoverySource : string;
  cf_TrustedHubPubkeys : list string;
  cf_DiscoveryWindow : Z
}.
(** What New fixes for the life of the service. *)
Record settings := mkSettings {
  st_pollInterval : Z;
  st_preferred : list Transport;
  st_allowed : gset Transport;
  st_nostrRelays : list string;
  st_delivery : TokenDeliveryMode;
  st_discoverySrc : string;
  st_trustedHubs : list string;
  st_discoveryTTL : Z
}.

(** The delivery modes are the strings "http" and "nip44". *)
Definition parse_delivery (s : string) : option TokenDeliveryMode :=
  if str_empty s || String.eqb s "http" then Some TokenDeliveryHTTP
  else if String.eqb s "nip44" then Some TokenDeliveryNIP44 else None.
Definition is_nip44 (d : TokenDeliveryMode) : bool := match d with TokenDeliveryNIP44 => true | TokenDeliveryHTTP => false end.

(** [default_path]: the default store path, when the home directory is known;
    [open]: whether the store opens. *)
Definition New (default_path : option string) (open : string -> string -> option EncryptedProofStore) (cfg : Config) :
    result service_error (EncryptedProofStore * settings) :=
  if str_empty (cf_Passphrase cfg) then Err (ServiceErr "passphrase is required to encrypt the proof store")
  else match (if str_empty (cf_StorePath cfg) then default_path else Some (cf_StorePath cfg)) with
  | None => Err (ServiceErr "resolve store path")
  | Some path =>
      match open path (cf_Passphrase cfg) with
      | None => Err (ServiceErr "open proof store")
      | Some store =>
          let interval := if cf_PollInterval cfg <=? 0 then 2000000000 else cf_PollInterval cfg in
          match parse_delivery (cf_TokenDelivery cfg) with
          | None => Err (ServiceErr "unsupported token delivery mode")
          | Some delivery =>
              let nostrRelays := sanitizeRelays (cf_NostrRelays cfg) in
              if is_nip44 delivery && (length nostrRelays =? 0)%nat
              then Err (ServiceErr "token delivery mode requires at least one relay URL")
              else
                let src := ToLower (TrimSpace (cf_DiscoverySource cfg)) in
                let discoverySrc := if str_empty src then DiscoverySourceHub else src in
                if negb (String.eqb discoverySrc DiscoverySourceHub) && negb (String.eqb discoverySrc DiscoverySourceNostr)
                then Err (ServiceErr "unsupported discovery source")
                else if is_nip44 delivery && negb (String.eqb discoverySrc DiscoverySourceNostr)
                then Err (ServiceErr "token delivery mode requires discovery_source to verify node identities")
                else
                  let trustedHubs := sanitizeHubPubkeys (cf_TrustedHubPubkeys cfg) in
                  if String.eqb discoverySrc DiscoverySourceNostr && (length nostrRelays =? 0)%nat
                  then Err (ServiceErr "discovery source requires at least one relay URL")
                  else if String.eqb discoverySrc DiscoverySourceNostr && (length trustedHubs =? 0)%nat
                  then Err (ServiceErr "discovery source requires at least one trusted hub pubkey")
                  else Ok (store, mkSettings interval (sanitizePreferredTransports (cf_PreferredTransports cfg))
                             (sanitizeAllowedTransports (cf_AllowedTransports cfg)) nostrRelays delivery discoverySrc trustedHubs
                             (if cf_DiscoveryWindow cfg <=? 0 then 2000000000 else cf_DiscoveryWindow cfg))
          end
      end
  end.

(** ** The node list *)
Definition with_id (id : string) (n : NodeInfo) : NodeInfo :=
  mkNode id (n_NostrPubkey n) (n_WGPubkey n) (n_Endpoint n) (n_ConnectURL n) (n_Transports n) (n_LNURL n) (n_DepositSats n)
    (n_UploadMbps n) (n_DownloadMbps n) (n_Load n) (n_Capacity n) (n_Role n) (n_Version n) (n_OperatorID n) (n_PreferredTransport n).
Definition with_pubkey (key : string) (n : NodeInfo) : NodeInfo :=
  mkNode (n_ID n) key (n_WGPubkey n) (n_Endpoint n) (n_ConnectURL n) (n_Transports n) (n_LNURL n) (n_DepositSats n)
    (n_UploadMbps n) (n_DownloadMbps n) (n_Load n) (n_Capacity n) (n_Role n) (n_Version n) (n_OperatorID n) (n_PreferredTransport n).
Definition with_role (role : NodeRole) (n : NodeInfo) : NodeInfo :=
  mkNode (n_ID n) (n_NostrPubkey n) (n_WGPubkey n) (n_Endpoint n) (n_ConnectURL n) (n_Transports n) (n_LNURL n) (n_DepositSats n)
    (n_UploadMbps n) (n_DownloadMbps n) (n_Load n) (n_Capacity n) role (n_Version n) (n_OperatorID n) (n_PreferredTransport n).

(** fetchNodes' last loop: a node without an ID goes by its key. *)
Fixpoint fill_ids (nodes : list NodeInfo) : result service_error (list NodeInfo) :=
  match nodes with
  | [] => Ok []
  | n :: r =>
      if str_empty (n_ID n) then
        if str_empty (n_NostrPubkey n) then Err (ServiceErr "node missing both ID and Nostr public key")
        else rest ← fill_ids r; Ok (with_id (n_NostrPubkey n) n :: rest)
      else rest ← fill_ids r; Ok (n :: rest)
  end.

Definition wrap_select {A} (r : result select_error A) : result service_error A :=
  match r with Ok a => Ok a | Err e => Err (ErrSelect e) end.

Section relays.
Context `{Schnorr} `{AttestationJson} `{NodeCodec}.
Context (range : map_order).

Definition indexed_info (n : IndexedNode) : option NodeInfo :=
  match ix_Event n with
  | None => None
  | Some ev =>
      Some (with_operator match ix_Attestation n with Some att => at_OperatorID att | None => "" end
              (with_pubkey (ev_Pubkey ev) (ix_Info n)))
  end.
Definition indexedToNodeInfos (l : list IndexedNode) : list NodeInfo := omap indexed_info l.

(** What ends the sampling of the relays. *)
Inductive sampling_end := SampleTimer | SampleClosed | SampleCancelled.

(** The events of the window, each with the clock at which it is processed;
    nil events are skipped. *)
Fixpoint sample (events : list (Z * option Event)) (index : NodeIndex) : NodeIndex :=
  match events with
  | [] => index
  | (now, Some ev) :: r => sample r (ProcessEvent now ev index).2
  | (_, None) :: r => sample r index
  end.

(** [hub]: whether a hub is connected; [connected] and [subscribed]: whether the
    relays could be reached and subscribed to. *)
Definition fetchNodesFromRelays (hub : bool) (st : settings) (connected subscribed : bool) (events : list (Z * option Event))
    (ending : sampling_end) : result service_error (list NodeInfo) :=
  if negb hub then Err ErrNoHub
  else if (length (st_nostrRelays st) =? 0)%nat then Err (ServiceErr "no relays configured for nostr discovery")
  else if (length (st_trustedHubs st) =? 0)%nat then Err (ServiceErr "no trusted hub pubkeys configured for nostr discovery")
  else if negb connected || negb subscribed then Err (ErrSelect ErrFetchFailed)
  else match indexedToNodeInfos (ListOnline range (sample events (NewNodeIndex (st_trustedHubs st)))) with
       | [] => Err (ErrSelect ErrFetchFailed)
       | nodes => Ok nodes
       end.

(** [reply]: the hub's answer to GET /nodes. *)
Definition fetchNodes (hub : bool) (st : settings) (reply : nodes_reply) (connected subscribed : bool)
    (events : list (Z * option Event)) (ending : sampling_end) : result service_error (list NodeInfo) :=
  nodes ← (if String.eqb (st_discoverySrc st) DiscoverySourceNostr
           then fetchNodesFromRelays hub st connected subscribed events ending
           else if negb hub then Err ErrNoHub
           else wrap_select (FetchNodes reply));
  fill_ids nodes.
End relays.

(** ** The pair *)
Record PinnedPair := mkPin { pn_EntryID : string; pn_ExitID : string }.
#[export] Instance PinnedPair_eq_dec : EqDecision PinnedPair.
Proof. solve_decision. Defined.

(** The loop keeps the last node of each ID and role. *)
Fixpoint pin_loop (pin : PinnedPair) (nodes : list NodeInfo) (entry exit_ : option NodeInfo) :
    option NodeInfo * option NodeInfo :=
  match nodes with
  | [] => (entry, exit_)
  | n :: r =>
      pin_loop pin r (if String.eqb (n_ID n) (pn_EntryID pin) && is_entry n then Some n else entry)
        (if String.eqb (n_ID n) (pn_ExitID pin) && is_exit n then Some n else exit_)
  end.
Definition restrictToPinned (nodes : list NodeInfo) (pin : PinnedPair) : result service_error (list NodeInfo) :=
  match pin_loop pin nodes None None with
  | (Some entry, Some exit_) =>
      if String.eqb (n_NostrPubkey entry) (n_NostrPubkey exit_) || String.eqb (n_ID entry) (n_ID exit_)
      then Err ErrPinnedSameNode
      else Ok [with_role RoleEntry entry; with_role RoleExit exit_]
  | _ => Err ErrPinnedNodeOffline
  end.

Definition pairFromNodes (rnd : nat -> option nat) (st : settings) (nodes : list NodeInfo) : result service_error NodePair :=
  if bool_decide (st_allowed st = ∅) then Err (ErrSelect ErrNoCompatiblePair)
  else wrap_select (PairIndependentNodesForDelivery rnd nodes (st_preferred st) (st_allowed st) (st_delivery st)).

Definition planned_gone {A} (r : result service_error A) : result service_error A :=
  match r with Ok a => Ok a | Err _ => Err (ServiceErr "the displayed pair is no longer available; choose a new pair") end.

(** SelectPair, once the nodes are fetched and the two choices read. *)
Definition choose_pair (rnd : nat -> option nat) (st : settings) (pinned planned : option PinnedPair) (nodes : list NodeInfo) :
    result service_error NodePair :=
  nodes' ← match pinned, planned with
           | Some pin, _ => restrictToPinned nodes pin
           | None, Some plan => planned_gone (restrictToPinned nodes plan)
           | None, None => Ok nodes
           end;
  pairFromNodes rnd st nodes'.

Definition check_pin (pin : option PinnedPair) : result service_error unit :=
  match pin with
  | None => Ok tt
  | Some p =>
      if str_empty (pn_EntryID p) || str_empty (pn_ExitID p) then Err (ServiceErr "both an entry and an exit node are required")
      else if String.eqb (pn_EntryID p) (pn_ExitID p) then Err ErrPinnedSameNode else Ok tt
  end.

(** ** Settings *)
Lemma sanitize_loop_spec seen l : NoDup (sanitize_loop seen l) /\
  forall x, x ∈ sanitize_loop seen l <-> x <> ""%string /\ x ∉ seen /\ exists y, y ∈ l /\ TrimSpace y = x.
Proof.
  revert seen. induction l as [|y l IH]; intros seen; cbn [sanitize_loop]; [split; [constructor|set_solver]|].
  assert (forall x, (exists z, z ∈ y :: l /\ TrimSpace z = x) <-> x = TrimSpace y \/ exists z, z ∈ l /\ TrimSpace z = x) as Hcons
    by set_solver.
  setoid_rewrite Hcons. unfold str_empty. destruct (String.eqb_spec (TrimSpace y) "") as [He|Hne].
  { destruct (IH seen) as [Hn Hx]. split; [done|]. intros x. rewrite Hx. naive_solver congruence. }
  case_bool_decide as Hin.
  { destruct (IH seen) as [Hn Hx]. split; [done|]. intros x. rewrite Hx. naive_solver congruence. }
  destruct (IH ({[TrimSpace y]} ∪ seen)) as [Hn Hx]. split.
  - constructor; [rewrite Hx; set_solver|done].
  - intros x. rewrite elem_of_cons, Hx. destruct (decide (x = TrimSpace y)) as [->|]; set_solver.
Qed.

Lemma preferred_loop_spec seen l : NoDup (preferred_loop seen l) /\
  forall t, t ∈ preferred_loop seen l <-> known_transport t = true /\ t ∉ seen /\ t ∈ l.
Proof.
  revert seen. induction l as [|u l IH]; intros seen; cbn [preferred_loop]; [split; [constructor|set_solver]|].
  destruct (known_transport u) eqn:Hk; cbn [negb].
  2:{ destruct (IH seen) as [Hn Hx]. split; [done|]. intros t. rewrite Hx, elem_of_cons. naive_solver congruence. }
  case_bool_decide as Hin.
  { destruct (IH seen) as [Hn Hx]. split; [done|]. intros t. rewrite Hx, elem_of_cons. naive_solver congruence. }
  destruct (IH ({[u]} ∪ seen)) as [Hn Hx]. split.
  - constructor; [rewrite Hx; set_solver|done].
  - intros t. rewrite !elem_of_cons, Hx. destruct (decide (t = u)) as [->|]; set_solver.
Qed.

(** Settings a service can work with. *)
Record settings_ok (cfg : Config) (st : settings) : Prop := {
  so_poll : 0 < st_pollInterval st;
  so_window : 0 < st_discoveryTTL st;
  so_preferred : st_preferred st <> [] /\ NoDup (st_preferred st) /\ Forall (fun t => t ∈ all_transports) (st_preferred st);
  so_allowed : forall t, t ∈ st_allowed st <-> t ∈ all_transports /\ (cf_AllowedTransports cfg = [] \/ t ∈ cf_AllowedTransports cfg);
  so_relays : NoDup (st_nostrRelays st) /\
    forall r, r ∈ st_nostrRelays st <-> r <> ""%string /\ exists y, y ∈ cf_NostrRelays cfg /\ TrimSpace y = r;
  so_hubs : NoDup (st_trustedHubs st) /\
    forall k, k ∈ st_trustedHubs st <-> k <> ""%string /\ exists y, y ∈ cf_TrustedHubPubkeys cfg /\ TrimSpace y = k;
  so_source : st_discoverySrc st = DiscoverySourceHub \/ st_discoverySrc st = DiscoverySourceNostr;
  (** what the encrypted path and relay discovery need is there *)
  so_nip44 : st_delivery st = TokenDeliveryNIP44 -> st_discoverySrc st = DiscoverySourceNostr;
  so_nostr : st_discoverySrc st = DiscoverySourceNostr -> st_nostrRelays st <> [] /\ st_trustedHubs st <> []
}.

Lemma default_positive z d : 0 < d -> 0 < (if z <=? 0 then d else z).
Proof. intros Hd. destruct (Z.leb_spec z 0); lia. Qed.

Lemma preferred_ok l : let p := sanitizePreferredTransports l in
  p <> [] /\ NoDup p /\ Forall (fun t => t ∈ all_transports) p.
Proof.
  unfold sanitizePreferredTransports. destruct (preferred_loop_spec ∅ l) as [Hn Hx].
  destruct (preferred_loop ∅ l) as [|t r] eqn:Hp.
  - split; [done|]. split; [by apply NoDup_singleton|]. constructor; [by left|constructor].
  - split; [done|]. split; [done|]. apply Forall_forall. intros u Hu. apply Hx in Hu as [Hu _]. by apply bool_decide_eq_true in Hu.
Qed.

Lemma allowed_ok l t : t ∈ sanitizeAllowedTransports l <-> t ∈ all_transports /\ (l = [] \/ t ∈ l).
Proof.
  unfold sanitizeAllowedTransports. destruct l as [|u l]; rewrite elem_of_list_to_set; [naive_solver|].
  rewrite elem_of_bfilter. unfold known_transport. rewrite bool_decide_eq_true. naive_solver.
Qed.

(** C20: a service that starts can run. New accepts a configuration only when what
    it asks for is usable: encrypted delivery needs discovery over relays, and
    that needs relays and trusted hub keys; the lists it keeps are the trimmed,
    distinct and known entries of the configuration, and intervals are positive. *)
Theorem new_settings_ok default_path open cfg store st (Hnew : New default_path open cfg = Ok (store, st)) :
  settings_ok cfg st /\ cf_Passphrase cfg <> ""%string /\
  exists path, open path (cf_Passphrase cfg) = Some store /\
    (if str_empty (cf_StorePath cfg) then default_path else Some (cf_StorePath cfg)) = Some path.
Proof.
  unfold New in Hnew. destruct (str_empty (cf_Passphrase cfg)) eqn:Hpass; [done|].
  destruct (if str_empty (cf_StorePath cfg) then _ else _) as [path|]; [|done].
  destruct (open path _) as [store'|] eqn:Hopen; [|done].
  destruct (parse_delivery _) as [d|]; [|done]. destruct (is_nip44 d && _) eqn:Hd1; [done|].
  set (src := if str_empty _ then _ else ToLower _) in Hnew.
  destruct (negb (String.eqb src DiscoverySourceHub) && _) eqn:Hsrc; [done|].
  destruct (is_nip44 d && negb _) eqn:Hd2; [done|].
  destruct (String.eqb src DiscoverySourceNostr && (length (sanitizeRelays _) =? 0)%nat) eqn:Hr; [done|].
  destruct (String.eqb src DiscoverySourceNostr && (length (sanitizeHubPubkeys _) =? 0)%nat) eqn:Hh; [done|].
  injection Hnew as <- <-. split.
  2:{ split; [by intros He; rewrite He in Hpass|]. by exists path. }
  split; cbn [st_pollInterval st_discoveryTTL st_preferred st_allowed st_nostrRelays st_trustedHubs st_discoverySrc st_delivery].
  - by apply default_positive.
  - by apply default_positive.
  - apply preferred_ok.
  - intros t. apply allowed_ok.
  - destruct (sanitize_loop_spec ∅ (cf_NostrRelays cfg)) as [Hn Hx]. split; [done|]. intros r. unfold sanitizeRelays. rewrite Hx. set_solver.
  - destruct (sanitize_loop_spec ∅ (cf_TrustedHubPubkeys cfg)) as [Hn Hx]. split; [done|]. intros r. unfold sanitizeHubPubkeys. rewrite Hx. set_solver.
  - destruct (String.eqb_spec src DiscoverySourceHub); [by left|]. destruct (String.eqb_spec src DiscoverySourceNostr); [by right|done].
  - intros ->. destruct (String.eqb_spec src DiscoverySourceNostr); done.
  - intros He. rewrite He, String.eqb_refl in Hr, Hh. cbn [andb] in Hr, Hh. apply Nat.eqb_neq in Hr, Hh.
    split; intros Hnil; rewrite Hnil in *; done.
Qed.

(** ** The route *)
(** A node as another presents it: same identity, maybe another role or address. *)
Definition same_node (n n' : NodeInfo) : Prop :=
  n_NostrPubkey n' = n_NostrPubkey n /\ n_WGPubkey n' = n_WGPubkey n /\ n_OperatorID n' = n_OperatorID n.
Lemma same_node_trans n1 n2 n3 : same_node n1 n2 -> same_node n2 n3 -> same_node n1 n3.
Proof. unfold same_node. intuition congruence. Qed.

Lemma project_id n t req n' : projectNodeForTransportWithConnectURL n t req = Some n' -> n_ID n' = n_ID n.
Proof. unfold projectNodeForTransportWithConnectURL. intros Hp. repeat (case_match; try done); by simplify_eq. Qed.

Lemma randomPick_in rnd cs c : randomPickCandidate rnd cs = Ok c -> c ∈ cs.
Proof.
  unfold randomPickCandidate. destruct cs as [|c0 [|c1 cs]].
  - destruct (rnd _) as [i|]; [|done]. by rewrite lookup_nil.
  - intros [= ->]. by left.
  - destruct (rnd _) as [i|]; [|done]. destruct (_ !! i) as [c'|] eqn:Hi; [|done]. intros [= <-]. by eapply list_elem_of_lookup_2.
Qed.
Lemma pair_loop_Ok rnd permitted collect preferred p : pair_loop rnd permitted collect preferred = Ok p ->
  exists t c, t ∈ preferred /\ permitted t = true /\ c ∈ collect t /\ p = mkPair (pc_entry c) (pc_exit c) (pc_transport c).
Proof.
  induction preferred as [|t rest IH]; cbn [pair_loop]; [done|].
  assert (pair_loop rnd permitted collect rest = Ok p ->
    exists t' c, t' ∈ t :: rest /\ permitted t' = true /\ c ∈ collect t' /\ p = mkPair (pc_entry c) (pc_exit c) (pc_transport c)) as IH'.
  { intros (t' & c & Ht & Hc)%IH. exists t', c. split; [by right|done]. }
  destruct (permitted t) eqn:Hp; cbn [negb]; [|done]. destruct (collect t) as [|c0 cs] eqn:Hc; [done|].
  destruct (randomPickCandidate _ _) as [c|] eqn:Hr; [|done]. intros [= <-].
  exists t, c. split_and!; [by left|done| |done]. rewrite Hc. by eapply randomPick_in.
Qed.

(** A pair the selection returns, whatever the random source. *)
Lemma pair_Ok rnd nodes preferred allowed delivery p :
  PairIndependentNodesForDelivery rnd nodes preferred allowed delivery = Ok p ->
  np_Transport p ∈ preferred /\ np_Transport p ∈ allowed /\
  exists same, compatible nodes delivery same (np_Transport p) (np_Entry p) (np_Exit p).
Proof.
  assert (forall same, pairNodesWithOperatorPolicy rnd nodes preferred allowed (requires_url delivery) same = Ok p ->
    np_Transport p ∈ preferred /\ np_Transport p ∈ allowed /\ compatible nodes delivery same (np_Transport p) (np_Entry p) (np_Exit p)) as Hone.
  { intros same. unfold pairNodesWithOperatorPolicy, pair_nodes, nodesByRole.
    assert (pair_loop rnd (fun t => bool_decide (t ∈ allowed)) (candidates_at nodes delivery same) preferred = Ok p ->
      np_Transport p ∈ preferred /\ np_Transport p ∈ allowed /\ compatible nodes delivery same (np_Transport p) (np_Entry p) (np_Exit p)) as Hgo.
    { intros (t & c & Ht & Ha & Hc & ->)%pair_loop_Ok. apply bool_decide_eq_true in Ha.
      apply candidates_spec in Hc as (e & x & Hex & ->). by cbn. }
    unfold candidates_at in Hgo. destruct (bfilter is_entry nodes); [done|]. destruct (bfilter is_exit nodes); [done|]. exact Hgo. }
  unfold PairIndependentNodesForDelivery.
  destruct (pairNodesWithOperatorPolicy _ _ _ _ _ false) as [q|[]] eqn:Hp; try done.
  - intros [= ->]. apply Hone in Hp as (? & ? & ?). eauto.
  - intros Hp2. apply Hone in Hp2 as (? & ? & ?). eauto.
Qed.

(** The nodes the pin loop ends with are listed under the IDs asked for. *)
Lemma pin_loop_in pin nodes e x e' x' : pin_loop pin nodes e x = (e', x') ->
  (forall n, e' = Some n -> e = Some n \/ n ∈ nodes /\ n_ID n = pn_EntryID pin /\ is_entry n = true) /\
  (forall n, x' = Some n -> x = Some n \/ n ∈ nodes /\ n_ID n = pn_ExitID pin /\ is_exit n = true).
Proof.
  revert e x. induction nodes as [|n r IH]; intros e x; cbn [pin_loop]; [intros [= <- <-]; auto|].
  intros [He Hx]%IH. split; intros m Hm.
  - destruct (He m Hm) as [Hc|(? & ? & ?)]; [|right; split_and!; try done; by right].
    destruct (String.eqb_spec (n_ID n) (pn_EntryID pin)), (is_entry n) eqn:Hr; cbn [andb] in Hc; auto.
    injection Hc as <-. right. split_and!; [by left|done|done].
  - destruct (Hx m Hm) as [Hc|(? & ? & ?)]; [|right; split_and!; try done; by right].
    destruct (String.eqb_spec (n_ID n) (pn_ExitID pin)), (is_exit n) eqn:Hr; cbn [andb] in Hc; auto.
    injection Hc as <-. right. split_and!; [by left|done|done].
Qed.

Lemma restrict_Ok nodes pin l : restrictToPinned nodes pin = Ok l ->
  exists e x, e ∈ nodes /\ x ∈ nodes /\ n_ID e = pn_EntryID pin /\ n_ID x = pn_ExitID pin /\
    is_entry e = true /\ is_exit x = true /\ l = [with_role RoleEntry e; with_role RoleExit x].
Proof.
  unfold restrictToPinned. destruct (pin_loop pin nodes None None) as [e x] eqn:Hp. apply pin_loop_in in Hp as [He Hx].
  destruct e as [e|], x as [x|]; try done. destruct (_ || _); [done|]. intros [= <-].
  destruct (He e eq_refl) as [|(? & ? & ?)]; [done|]. destruct (Hx x eq_refl) as [|(? & ? & ?)]; [done|]. by exists e, x.
Qed.

(** What any choice of a pair guarantees: two distinct nodes of the list, [e] and
    [x], in their roles, with the addresses the delivery needs. *)
Definition sound_pair (st : settings) (nodes : list NodeInfo) (p : NodePair) (e x : NodeInfo) : Prop :=
  np_Transport p ∈ st_preferred st /\ np_Transport p ∈ st_allowed st /\
  e ∈ nodes /\ x ∈ nodes /\ is_entry e = true /\ is_exit x = true /\
  same_node e (np_Entry p) /\ same_node x (np_Exit p) /\ n_NostrPubkey e <> n_NostrPubkey x /\
  n_ID (np_Entry p) = n_ID e /\ n_ID (np_Exit p) = n_ID x /\
  n_Endpoint (np_Entry p) <> ""%string /\ n_Endpoint (np_Exit p) <> ""%string /\
  (st_delivery st = TokenDeliveryHTTP -> n_ConnectURL (np_Entry p) <> ""%string /\ n_ConnectURL (np_Exit p) <> ""%string).

Lemma pairFromNodes_sound rnd st nodes p : pairFromNodes rnd st nodes = Ok p -> exists e x, sound_pair st nodes p e x.
Proof.
  unfold pairFromNodes. case_bool_decide; [done|].
  destruct (PairIndependentNodesForDelivery _ _ _ _ _) as [q|] eqn:Hp; [|done]. intros [= ->].
  apply pair_Ok in Hp as (Ht & Ha & same & e & x & He & Hre & Hx & Hrx & Hne & _ & Hpe & Hpx).
  pose proof (project_id _ _ _ _ Hpe) as Hie. pose proof (project_id _ _ _ _ Hpx) as Hix.
  apply project_facts in Hpe as (? & ? & ? & _ & Hee & Hue). apply project_facts in Hpx as (? & ? & ? & _ & Hex & Hux).
  assert (forall s, str_empty s = false -> s <> ""%string) as Hemp by (by intros s Hs ->).
  exists e, x. unfold sound_pair, same_node. split_and!; auto. intros Hd. rewrite Hd in *. auto.
Qed.

Lemma restricted_sound rnd st nodes pin l p : restrictToPinned nodes pin = Ok l -> pairFromNodes rnd st l = Ok p ->
  exists e x, sound_pair st nodes p e x /\ n_ID e = pn_EntryID pin /\ n_ID x = pn_ExitID pin.
Proof.
  intros (e0 & x0 & He0 & Hx0 & Hie & Hix & Hre0 & Hrx0 & ->)%restrict_Ok.
  intros (e & x & Ht & Ha & He & Hx & Hre & Hrx & Hrest)%pairFromNodes_sound.
  assert (e = with_role RoleEntry e0) as ->
    by (apply elem_of_cons in He as [He|He%list_elem_of_singleton]; [exact He|subst; discriminate Hre]).
  assert (x = with_role RoleExit x0) as ->
    by (apply elem_of_cons in Hx as [Hx|Hx%list_elem_of_singleton]; [subst; discriminate Hrx|exact Hx]).
  destruct Hrest as (? & ? & ? & ? & ? & ? & ? & ?). exists e0, x0. split; [|done]. unfold sound_pair. by split_and!.
Qed.

Lemma choose_Ok rnd st pinned planned nodes p : choose_pair rnd st pinned planned nodes = Ok p ->
  exists e x, sound_pair st nodes p e x /\
    forall pin, (pinned = Some pin \/ pinned = None /\ planned = Some pin) -> n_ID e = pn_EntryID pin /\ n_ID x = pn_ExitID pin.
Proof.
  unfold choose_pair. destruct pinned as [pin|]; [|destruct planned as [pin|]].
  - destruct (restrictToPinned nodes pin) as [l|] eqn:Hl; [|done]. cbn [mbind result_mbind].
    intros (e & x & Hs & Hids)%(restricted_sound _ _ _ _ _ _ Hl). exists e, x. split; [done|]. by intros pin' [[= <-]|[[=] _]].
  - destruct (restrictToPinned nodes pin) as [l|] eqn:Hl; [|done]. cbn [planned_gone mbind result_mbind].
    intros (e & x & Hs & Hids)%(restricted_sound _ _ _ _ _ _ Hl). exists e, x. split; [done|]. by intros pin' [[=]|[_ [= <-]]].
  - cbn [mbind result_mbind]. intros (e & x & Hs)%pairFromNodes_sound. exists e, x. split; [done|]. by intros pin [[=]|[_ [=]]].
Qed.

Section vetted_route.
Context `{Schnorr} `{AttestationJson} `{NodeCodec}.
Context (range : map_order) (Hrange : fair_order range).

Lemma sample_run trusted events idx : rtc (index_step trusted) idx (sample events idx).
Proof.
  revert idx. induction events as [|[now [ev|]] r IH]; intros idx; cbn [sample]; [done| |done].
  eapply rtc_l; [|apply IH]. by eapply is_event, surjective_pairing.
Qed.

(** A node the relays announced, with a trusted hub's voucher for its keys. *)
Definition vouched (trusted : list string) (n : NodeInfo) : Prop :=
  exists ix ev att, vetted trusted (n_NostrPubkey n) ix ev att /\
    n_WGPubkey n = n_WGPubkey (ix_Info ix) /\ n_OperatorID n = at_OperatorID att.

Lemma fill_ids_in nodes nodes' n' : fill_ids nodes = Ok nodes' -> n' ∈ nodes' ->
  exists n, n ∈ nodes /\ same_node n n' /\ n_ID n' <> ""%string /\ (n_ID n = ""%string -> n_ID n' = n_NostrPubkey n).
Proof.
  revert nodes'. induction nodes as [|n r IH]; intros nodes'; cbn [fill_ids]; [by intros [= <-] ?%elem_of_nil|].
  assert (forall rest, fill_ids r = Ok rest -> n' ∈ rest ->
    exists m, m ∈ n :: r /\ same_node m n' /\ n_ID n' <> ""%string /\ (n_ID m = ""%string -> n_ID n' = n_NostrPubkey m)) as Hrest.
  { intros rest Hr Hin. destruct (IH _ Hr Hin) as (m & ? & ?). exists m. split; [by right|done]. }
  unfold str_empty. destruct (String.eqb_spec (n_ID n) "") as [He|He].
  - destruct (String.eqb_spec (n_NostrPubkey n) "") as [Hk|Hk]; [done|]. destruct (fill_ids r) as [rest|] eqn:Hr; [|done].
    intros [= <-] [->|Hin]%elem_of_cons; [|by eapply Hrest]. exists n. split; [by left|]. by split_and!.
  - destruct (fill_ids r) as [rest|] eqn:Hr; [|done].
    intros [= <-] [->|Hin]%elem_of_cons; [|by eapply Hrest]. exists n. split; [by left|]. by split_and!.
Qed.

Lemma relay_nodes_vouched hub st connected subscribed events ending nodes n :
  fetchNodesFromRelays range hub st connected subscribed events ending = Ok nodes -> n ∈ nodes -> vouched (st_trustedHubs st) n.
Proof.
  unfold fetchNodesFromRelays. destruct (negb hub); [done|]. destruct (_ =? 0)%nat; [done|]. destruct (_ =? 0)%nat; [done|].
  destruct (_ || _); [done|]. destruct (indexedToNodeInfos _) as [|n0 l] eqn:Hl; [done|]. intros [= <-] Hin'. rewrite <-Hl in Hin'.
  apply list_elem_of_omap in Hin' as (ix & Hix & Hinfo). unfold ListOnline in Hix.
  rewrite elem_of_bfilter, elem_of_range in Hix by done. destruct Hix as (_ & key & Hkey).
  destruct (index_run_ok _ _ (sample_run (st_trustedHubs st) events _)) as [_ Hok].
  destruct (Hok _ _ Hkey) as (ev & att & Hv). unfold indexed_info in Hinfo.
  rewrite (vt_event _ _ _ _ _ Hv), (vt_attestation _ _ _ _ _ Hv) in Hinfo. injection Hinfo as <-.
  exists ix, ev, att. cbn. by rewrite (vt_key _ _ _ _ _ Hv).
Qed.

(** The route over relays is vouched for. With discovery over relays, whatever
    events the relays deliver in the window, a pair that is chosen consists of two
    different nodes, each announced under its own key with the voucher of a
    trusted hub for its WireGuard key and operator; it serves the transport and
    the delivery in use, and is the pinned pair, or else the planned one. *)
Theorem route_vouched rnd hub st reply connected subscribed events ending pinned planned nodes p
    (Hsource : st_discoverySrc st = DiscoverySourceNostr)
    (Hfetch : fetchNodes range hub st reply connected subscribed events ending = Ok nodes)
    (Hchoose : choose_pair rnd st pinned planned nodes = Ok p) :
  vouched (st_trustedHubs st) (np_Entry p) /\ vouched (st_trustedHubs st) (np_Exit p) /\
  n_NostrPubkey (np_Entry p) <> n_NostrPubkey (np_Exit p) /\
  np_Transport p ∈ st_preferred st /\ np_Transport p ∈ st_allowed st /\
  n_Endpoint (np_Entry p) <> ""%string /\ n_Endpoint (np_Exit p) <> ""%string /\
  (st_delivery st = TokenDeliveryHTTP -> n_ConnectURL (np_Entry p) <> ""%string /\ n_ConnectURL (np_Exit p) <> ""%string) /\
  forall pin, (pinned = Some pin \/ pinned = None /\ planned = Some pin) ->
    n_ID (np_Entry p) = pn_EntryID pin /\ n_ID (np_Exit p) = pn_ExitID pin.
Proof.
  unfold fetchNodes in Hfetch. rewrite Hsource in Hfetch. change (String.eqb DiscoverySourceNostr DiscoverySourceNostr) with true in Hfetch.
  destruct (fetchNodesFromRelays _ _ _ _ _ _ _) as [l|] eqn:Hrelays; [|done]. cbn [mbind result_mbind] in Hfetch.
  apply choose_Ok in Hchoose as (e & x & (Ht & Ha & He & Hx & _ & _ & Hse & Hsx & Hne & Hie & Hix & Hee & Hex & Hurl) & Hids).
  assert (forall n n', n ∈ nodes -> same_node n n' -> vouched (st_trustedHubs st) n') as Hvouch.
  { intros n n' Hn Hs. destruct (fill_ids_in _ _ _ Hfetch Hn) as (m & Hm & Hsm & _).
    apply (relay_nodes_vouched _ _ _ _ _ _ _ _ Hrelays) in Hm as (ix & ev & att & Hv & Hw & Ho).
    destruct (same_node_trans _ _ _ Hsm Hs) as (Hk & Hwg & Hop). exists ix, ev, att. by rewrite Hk, Hwg, Hop. }
  split_and!; [exact (Hvouch _ _ He Hse)|exact (Hvouch _ _ Hx Hsx)| |done..|].
  - destruct Hse as (-> & _), Hsx as (-> & _). done.
  - intros pin Hpin. rewrite Hie, Hix. by apply Hids.
Qed.
End vetted_route.

(** ** A client that discovers over relays *)
Definition toy_config : Config :=
  mkConfig "" "secret" 0 [] [TransportWireGuard] [" wss://relay "; "wss://relay"; ""] "nip44" " Nostr" [PubkeyHex toy_key ++ " "]%string 0.
Definition toy_settings : settings :=
  mkSettings 2000000000 [TransportWireGuard] {[TransportWireGuard]} ["wss://relay"%string] TokenDeliveryNIP44 DiscoverySourceNostr
    [PubkeyHex toy_key] 2000000000.
Definition toy_store : EncryptedProofStore := mkVault ∅ ∅.

Lemma toy_new : New (Some "proofs"%string) (fun _ _ => Some toy_store) toy_config = Ok (toy_store, toy_settings).
Proof. vm_compute. reflexivity. Qed.

Lemma new_settings_ok_witness : 0 < st_pollInterval toy_settings /\ st_nostrRelays toy_settings <> [].
Proof.
  destruct (new_settings_ok _ _ _ _ _ toy_new) as ([Hp _ _ _ _ _ _ _ Hn] & _ & _).
  split; [exact Hp|]. exact (proj1 (Hn eq_refl)).
Defined.

(** Two nodes of two operators and a hub, each with a key of its own. *)
Section two_nodes.
#[local] Instance keyed_schnorr : Schnorr := {|
  SecKey := string;
  PubKey := string;
  Signature := string;
  btcec_PrivKeyFromBytes := fun s => s;
  btcec_PubKey := fun k => k;
  schnorr_SerializePubKey := pad32;
  schnorr_ParsePubKey := fun s => Some s;
  schnorr_Sign := fun k msg => Some (pad32 k ++ msg)%string;
  schnorr_Serialize := fun s => s;
  schnorr_ParseSignature := fun s => Some s;
  schnorr_Verify := fun sg msg pk => String.eqb sg (pk ++ msg);
  sha256_Sum256 := pad32;
  json_Marshal := fun pk t k tags c => Some (c ++ show_Z t ++ show_Z k ++ pk)%string
|}.
Definition named_key (name : string) : KeyPair := mkKey name name.
Definition node_info (name : string) (role : NodeRole) : NodeInfo :=
  mkNode name "" (pad32 name ++ "000000000000") "[2001:db8::1]:51820" "" [] "" 0 100 80 3 10 role "1" "someone" "".
Definition node_voucher (name role : string) : option Attestation :=
  match CreateAttestation (H0 := voucher_json) (named_key "hub") 1000 (PubkeyHex (named_key name)) (pad32 name ++ "000000000000")
          ("op-" ++ name) [role] with
  | Ok a => Some a
  | Err _ => None
  end.
#[local] Instance named_json : AttestationJson := {|
  marshal_content := @marshal_content voucher_json;
  json_Encode := fun _ => None;
  json_Decode := fun s => if String.eqb s "a" then node_voucher "a" "entry" else if String.eqb s "b" then node_voucher "b" "exit" else None
|}.
#[local] Instance named_codec : NodeCodec := {|
  json_NodeInfo := fun s => if String.eqb s "a" then Some (node_info "a" RoleEntry) else if String.eqb s "b" then Some (node_info "b" RoleExit) else None;
  net_ParseIP := fun _ => None
|}.
Definition announcement (name : string) : option Event :=
  match Sign (named_key name) 1010 (mkEvent "" "" 0 NostrKindNodeAnnouncement [["attestation"; name]]%string name "") with
  | Ok e => Some e
  | Err _ => None
  end.
Definition nostr_settings : settings :=
  mkSettings 2000000000 [TransportWireGuard] {[TransportWireGuard]} ["wss://relay"%string] TokenDeliveryNIP44 DiscoverySourceNostr
    [PubkeyHex (named_key "hub")] 2000000000.
Definition toy_events : list (Z * option Event) := [(toy_now, announcement "a"); (toy_now, None); (toy_now, announcement "b")].
Definition toy_nodes : list NodeInfo :=
  match fetchNodes toy_order true nostr_settings ReplyFailed true true toy_events SampleTimer with Ok l => l | Err _ => [] end.
Definition toy_chosen : NodePair :=
  match choose_pair (fun _ => None) nostr_settings (Some (mkPin "a" "b")) None toy_nodes with
  | Ok p => p
  | Err _ => mkPair toy_listed toy_listed ""
  end.

Lemma route_vouched_witness :
  n_ID (np_Entry toy_chosen) = "a"%string /\ n_OperatorID (np_Exit toy_chosen) = "op-b"%string /\
  vouched [PubkeyHex (named_key "hub")] (np_Exit toy_chosen).
Proof.
  split; [vm_compute; reflexivity|]. split; [vm_compute; reflexivity|].
  refine (proj1 (proj2 (route_vouched toy_order (fun g => reflexivity _) (fun _ => None) true nostr_settings ReplyFailed true true
    toy_events SampleTimer (Some (mkPin "a" "b")) None toy_nodes toy_chosen eq_refl _ _))).
  - vm_compute. reflexivity.
  - vm_compute. reflexivity.
Defined.
End two_nodes.
