(* ===== verification/ServicePay.v ===== *)
(** * ServicePay: paying two nodes and raising the tunnel
    (src/internal/app/service.go: connect, Extend and what they call)

    The two procedures are programs over the effects they have on the wallet,
    the nodes, the tunnel and the resolver. A handler of the effects over any
    state runs them; what it answers is up to it. *)
From S2P Require Import Prelude Ecash Mint Selector ProofVault Nip44 Envelope ClientConnect ServiceNodes.

Record HopConfig := mkHopConfig {
  hc_NodeID : string;
  hc_Endpoint : string;
  hc_NodeWGPubkey : string;
  hc_TunnelIP : string;
  hc_BytesAllowed : Z
}.
Record TunnelConfig := mkTunnelConfig {
  tc_Entry : HopConfig;
  tc_Exit : HopConfig;
  tc_ClientKey : string;
  tc_EntryClientKey : string;
  tc_ExitClientKey : string;
  tc_OuterPinnedEndpoints : list string;
  tc_Transport : Transport
}.
Record Session := mkSession { se_Config : TunnelConfig; se_SpentSats : Z; se_StartedAt : Z }.
(** Which interfaces the tunnel implements, when there is one. *)
Record tunnel_caps := mkCaps { ca_present : bool; ca_staged : bool; ca_hopKeys : bool; ca_validator : bool }.
Record liveRoute := mkRoute { ro_pair : NodePair; ro_exitConnectIP : string; ro_entryKey : string; ro_exitKey : string }.

(** ** Effects *)
Inductive eff : Type -> Type :=
| ESelectPair : eff (result service_error NodePair)
| ELookupIPv4 (host : string) : eff (result string (list string))
| EPrepareHopKeys : eff (result string (string * string))
| EResetHopKeys : eff unit
| EPublicKey : eff (result string string)
| EPreflight : eff (result string unit)
| EValidateEndpoints (entry exit_ : string) : eff (result string unit)
| EReserve (amountSats : Z) : eff (result wallet_error (list Proof_))
| ERelease (proofs : list Proof_) : eff (result wallet_error unit)
| ERelaysConnect : eff (result string unit)
| ERelaysClose : eff unit
| EPayHTTP (connectURL pinnedIP : string) (proofs : list Proof_) (key : string) : eff (result connect_error ConnectResult)
| EPayNIP44 (nodePubkey : string) (proofs : list Proof_) (key role : string) : eff (result connect_error ConnectResult)
| EUpOuter (cfg : TunnelConfig) : eff (result string unit)
| EUpInner (cfg : TunnelConfig) : eff (result string unit)
| EUp (cfg : TunnelConfig) : eff (result string unit)
| EDown : eff (result string unit)
| ESetRoute (route : liveRoute) : eff unit
| ENow : eff Z.

Inductive prog (A : Type) : Type :=
| Ret (a : A)
| Act {R : Type} (e : eff R) (k : R -> prog A).
Arguments Ret {A} a.
Arguments Act {A R} e k.

Fixpoint pbind {A B} (p : prog A) (f : A -> prog B) : prog B :=
  match p with Ret a => f a | Act e k => Act e (fun r => pbind (k r) f) end.

Declare Scope prog_scope.
Delimit Scope prog_scope with prog.
Bind Scope prog_scope with prog.
Notation "x <-- p ;; q" := (pbind p (fun x => q)) (at level 100, p at next level, right associativity) : prog_scope.
Open Scope prog_scope.

Definition act {R} (e : eff R) : prog R := Act e Ret.
(** Go's "if err != nil return": the rest runs on a value. *)
Definition try {A B E E'} (f : E -> E') (p : prog (result E A)) (k : A -> prog (result E' B)) : prog (result E' B) :=
  r <-- p ;; match r with Ok a => k a | Err e => Ret (Err (f e)) end.
Definition fail {A} (msg : string) : prog (result service_error A) := Ret (Err (ServiceErr msg)).
Definition service_err {A} (msg : string) (_ : A) : service_error := ServiceErr msg.

(** ** What both procedures share *)
Fixpoint shouldTreatProofsAsSpent (err : connect_error) : bool :=
  match err with
  | NodeRejectedError status msg => ProofsBurned status msg
  | ProofSpendUncertainError _ => true
  | OtherError _ => false
  | Wrapped _ e => shouldTreatProofsAsSpent e
  end.

Definition refundUnspentProofs (entryProofs exitProofs : list Proof_) (entrySpent exitSpent : bool) :
    prog (result wallet_error unit) :=
  let unspent := (if entrySpent then [] else entryProofs) ++ (if exitSpent then [] else exitProofs) in
  match unspent with [] => Ret (Ok tt) | _ => act (ERelease unspent) end.

(** The error of a failed step, once the proofs that are not spent are back. *)
Definition refund_and_fail {A} (err : service_error) (entryProofs exitProofs : list Proof_) (entrySpent exitSpent : bool) :
    prog (result service_error A) :=
  r <-- refundUnspentProofs entryProofs exitProofs entrySpent exitSpent ;;
  match r with Ok _ => Ret (Err err) | Err _ => Ret (Err (ErrNotReturned err)) end.

(** Both reservations; the first is given back when the second fails. *)
Definition reserve_both (perHopSats : Z) : prog (result service_error (list Proof_ * list Proof_)) :=
  try ErrWallet (act (EReserve perHopSats)) (fun entryProofs =>
  r <-- act (EReserve perHopSats) ;;
  match r with
  | Ok exitProofs => Ret (Ok (entryProofs, exitProofs))
  | Err e =>
      r2 <-- act (ERelease entryProofs) ;;
      match r2 with Ok _ => Ret (Err (ErrWallet e)) | Err _ => Ret (Err (ErrNotReturned (ErrWallet e))) end
  end).

Section service.
Context (url_Parse : string -> option URL) (JoinHostPort : string -> string -> string).
(** strings.HasSuffix(host, ":") *)
Definition ends_in_colon (host : string) : bool := String.eqb (str_drop (String.length host - 1) host) ":".

Definition resolveConnectIPv4 (connectURL : string) : prog (result service_error (string * string)) :=
  match url_Parse connectURL with
  | None => fail "parse connect URL"
  | Some u =>
      if negb (String.eqb (url_Scheme u) "https") && negb (String.eqb (url_Scheme u) "http") || str_empty (url_Hostname u) ||
         url_User u || negb (str_empty (url_RawQuery u)) || negb (str_empty (url_Fragment u))
      then fail "invalid connect URL"
      else if str_empty (url_Port u) && ends_in_colon (url_Host u) then fail "connect URL has an empty port"
      else try (service_err "resolve connect host") (act (ELookupIPv4 (url_Hostname u))) (fun ips =>
        match ips with
        | [] => fail "connect host has no IPv4 address"
        | ip :: _ =>
            let port := if str_empty (url_Port u) then if String.eqb (url_Scheme u) "https" then "443"%string else "80"%string
                        else url_Port u in
            Ret (Ok (ip, JoinHostPort ip port))
        end)
  end.

(** The two keys, and whether they are to be reset on failure. *)
Definition prepareConnectKeys (caps : tunnel_caps) : prog (result service_error (string * string * bool)) :=
  if negb (ca_present caps) then fail "no tunnel configured: cannot supply a WireGuard public key"
  else if ca_hopKeys caps then
    try (service_err "prepare per-hop WireGuard keys") (act EPrepareHopKeys) (fun '(entryKey, exitKey) =>
      if str_empty entryKey || str_empty exitKey then fail "prepare per-hop WireGuard keys: tunnel returned an empty key"
      else Ret (Ok (entryKey, exitKey, true)))
  else
    try (service_err "read WireGuard public key") (act EPublicKey) (fun key =>
      if str_empty key then fail "tunnel returned an empty WireGuard public key" else Ret (Ok (key, key, false))).

Definition connectNode (delivery : TokenDeliveryMode) (connectURL nodePubkey pinnedIP : string) (proofs : list Proof_)
    (clientWGPubkey role : string) : prog (result connect_error ConnectResult) :=
  match delivery with
  | TokenDeliveryHTTP =>
      if str_empty connectURL then Ret (Err (OtherError "node missing connect URL for HTTP token delivery"))
      else r <-- act (EPayHTTP connectURL pinnedIP proofs clientWGPubkey) ;; Ret (wrap_pair (role ++ " node connect") r)
  | TokenDeliveryNIP44 =>
      if str_empty nodePubkey then Ret (Err (OtherError "node missing nostr pubkey for NIP-44 delivery"))
      else r <-- act (EPayNIP44 nodePubkey proofs clientWGPubkey role) ;; Ret (wrap_pair (role ++ " node connect via NIP-44") r)
  end.

(** With encrypted delivery the relays are open while [k] runs. *)
Definition with_relays {A} (delivery : TokenDeliveryMode) (entryProofs exitProofs : list Proof_)
    (k : prog (result service_error A)) : prog (result service_error A) :=
  if is_nip44 delivery then
    r <-- act ERelaysConnect ;;
    match r with
    | Err _ =>
        let err := ServiceErr "connect to relays for token delivery" in
        r2 <-- act (ERelease (entryProofs ++ exitProofs)) ;;
        match r2 with Ok _ => Ret (Err err) | Err _ => Ret (Err (ErrNotReturned err)) end
    | Ok _ => r2 <-- k ;; _ <-- act ERelaysClose ;; Ret r2
    end
  else k.

(** ** connect *)
Definition with_transport (p : NodePair) : NodePair :=
  if str_empty (np_Transport p) then mkPair (np_Entry p) (np_Exit p) TransportWireGuard else p.
Definition entry_hop (pair : NodePair) (res : ConnectResult) : HopConfig :=
  mkHopConfig (n_ID (np_Entry pair)) (n_Endpoint (np_Entry pair)) (re_NodeWGPubkey res) (re_TunnelIP res) (re_BytesAllowed res).
Definition exit_hop (pair : NodePair) (res : ConnectResult) : HopConfig :=
  mkHopConfig (n_ID (np_Exit pair)) (n_Endpoint (np_Exit pair)) (re_NodeWGPubkey res) (re_TunnelIP res) (re_BytesAllowed res).

(** From the tunnel configuration up to the exit's node on. *)
Definition raise_tunnel (staged : bool) (cfg : TunnelConfig) : prog (result service_error unit) :=
  if staged then
    r <-- act (EUpInner cfg) ;;
    match r with
    | Ok _ => Ret (Ok tt)
    | Err _ => _ <-- act EDown ;; fail "bring inner tunnel up"
    end
  else try (service_err "bring tunnel up") (act (EUp cfg)) (fun _ => Ret (Ok tt)).

(** From the exit's payment on, with the entry paid; [cfg] is still without the
    exit's answer. *)
Definition pay_exit (st : settings) (pair : NodePair) (exitConnectIP : string) (cfg : TunnelConfig) (perHopSats : Z)
    (entryProofs exitProofs : list Proof_) : prog (result service_error Session) :=
  let delivery := st_delivery st in
  let staged := negb (is_nip44 delivery) in
  let entryKey := tc_EntryClientKey cfg in
  let exitKey := tc_ExitClientKey cfg in
  r <-- connectNode delivery (n_ConnectURL (np_Exit pair)) (n_NostrPubkey (np_Exit pair)) exitConnectIP exitProofs exitKey "exit" ;;
  match r with
  | Err e =>
      _ <-- (if staged then act EDown else Ret (Ok tt)) ;;
      refund_and_fail (ErrNode e) entryProofs exitProofs true (shouldTreatProofsAsSpent e)
  | Ok exitRes =>
      let cfg' := mkTunnelConfig (tc_Entry cfg) (exit_hop pair exitRes) entryKey entryKey exitKey [] (np_Transport pair) in
      try (fun e => e) (raise_tunnel staged cfg') (fun _ =>
        _ <-- act (ESetRoute (mkRoute pair exitConnectIP entryKey exitKey)) ;;
        now <-- act ENow ;;
        Ret (Ok (mkSession cfg' (wrap_u64 (perHopSats * 2)) now)))
  end.

(** Paying both nodes and raising the tunnel, once both payments are reserved. *)
Definition pay_and_raise (st : settings) (pair : NodePair) (exitConnectIP exitConnectEndpoint entryKey exitKey : string)
    (perHopSats : Z) (entryProofs exitProofs : list Proof_) : prog (result service_error Session) :=
  let delivery := st_delivery st in
  r <-- connectNode delivery (n_ConnectURL (np_Entry pair)) (n_NostrPubkey (np_Entry pair)) "" entryProofs entryKey "entry" ;;
  match r with
  | Err e => refund_and_fail (ErrNode e) entryProofs exitProofs (shouldTreatProofsAsSpent e) false
  | Ok entryRes =>
      let entry := entry_hop pair entryRes in
      let exit_ := mkHopConfig (n_ID (np_Exit pair)) (n_Endpoint (np_Exit pair)) (n_WGPubkey (np_Exit pair)) "" 0 in
      r1 <-- (if negb (is_nip44 delivery)
              then act (EUpOuter (mkTunnelConfig entry exit_ entryKey entryKey exitKey [exitConnectEndpoint] (np_Transport pair)))
              else Ret (Ok tt)) ;;
      match r1 with
      | Err _ => refund_and_fail (ServiceErr "bring outer tunnel up") entryProofs exitProofs true false
      | Ok _ => pay_exit st pair exitConnectIP (mkTunnelConfig entry exit_ entryKey entryKey exitKey [] (np_Transport pair))
                  perHopSats entryProofs exitProofs
      end
  end.

(** The checks before any payment, then the payments. *)
Definition connect_with_keys (caps : tunnel_caps) (st : settings) (pair : NodePair) (exitConnectIP exitConnectEndpoint entryKey exitKey : string)
    (perHopSats : Z) : prog (result service_error Session) :=
  try (service_err "cannot establish tunnel") (act EPreflight) (fun _ =>
  try (service_err "selected pair has an unusable endpoint")
    (if ca_validator caps then act (EValidateEndpoints (n_Endpoint (np_Entry pair)) (n_Endpoint (np_Exit pair))) else Ret (Ok tt)) (fun _ =>
  try (fun e => e) (reserve_both perHopSats) (fun '(entryProofs, exitProofs) =>
  with_relays (st_delivery st) entryProofs exitProofs
    (pay_and_raise st pair exitConnectIP exitConnectEndpoint entryKey exitKey perHopSats entryProofs exitProofs)))).

(** Keys that were prepared are reset when the attempt fails. *)
Definition reset_on_failure {A} (reset : bool) (p : prog (result service_error A)) : prog (result service_error A) :=
  r <-- p ;;
  match r with
  | Ok a => Ret (Ok a)
  | Err e => if reset then _ <-- act EResetHopKeys ;; Ret (Err e) else Ret (Err e)
  end.

Definition pair_checks (caps : tunnel_caps) (st : settings) (pair : NodePair) : option service_error :=
  let http := negb (is_nip44 (st_delivery st)) in
  if negb (String.eqb (np_Transport pair) TransportWireGuard) then Some ErrTransportUnsupported
  else if str_empty (n_Endpoint (np_Entry pair)) || str_empty (n_Endpoint (np_Exit pair))
  then Some (ServiceErr "selected pair missing endpoint")
  else if http && (str_empty (n_ConnectURL (np_Entry pair)) || str_empty (n_ConnectURL (np_Exit pair)))
  then Some (ServiceErr "selected pair missing connect URL")
  else if negb http && (str_empty (n_NostrPubkey (np_Entry pair)) || str_empty (n_NostrPubkey (np_Exit pair)))
  then Some (ServiceErr "selected pair missing nostr pubkey for NIP-44 delivery")
  else if http && negb (ca_present caps && ca_staged caps)
  then Some (ServiceErr "token delivery mode requires staged tunnel support to avoid exit-side IP exposure")
  else None.

Definition connect (caps : tunnel_caps) (st : settings) (perHopSats : Z) : prog (result service_error Session) :=
  try (fun e => e) (act ESelectPair) (fun pair0 =>
  let pair := with_transport pair0 in
  match pair_checks caps st pair with
  | Some e => Ret (Err e)
  | None =>
      try (fun e => e) (if is_nip44 (st_delivery st) then Ret (Ok (""%string, ""%string)) else resolveConnectIPv4 (n_ConnectURL (np_Exit pair)))
        (fun '(exitConnectIP, exitConnectEndpoint) =>
      try (fun e => e) (prepareConnectKeys caps) (fun '(entryKey, exitKey, reset) =>
      reset_on_failure reset
        (connect_with_keys caps st pair exitConnectIP exitConnectEndpoint entryKey exitKey perHopSats)))
  end).

(** ** Extend, from the reservations to the answers of both nodes *)
Definition pay_again (st : settings) (route : liveRoute) (entryProofs exitProofs : list Proof_) :
    prog (result service_error (ConnectResult * ConnectResult)) :=
  let pair := ro_pair route in
  r <-- connectNode (st_delivery st) (n_ConnectURL (np_Entry pair)) (n_NostrPubkey (np_Entry pair)) "" entryProofs (ro_entryKey route) "entry" ;;
  match r with
  | Err e => refund_and_fail (ErrNode e) entryProofs exitProofs (shouldTreatProofsAsSpent e) false
  | Ok entryRes =>
      r1 <-- connectNode (st_delivery st) (n_ConnectURL (np_Exit pair)) (n_NostrPubkey (np_Exit pair)) (ro_exitConnectIP route)
               exitProofs (ro_exitKey route) "exit" ;;
      match r1 with
      | Err e => refund_and_fail (ErrNode e) entryProofs exitProofs true (shouldTreatProofsAsSpent e)
      | Ok exitRes => Ret (Ok (entryRes, exitRes))
      end
  end.
Definition extend_payments (st : settings) (route : liveRoute) (perHopSats : Z) :
    prog (result service_error (ConnectResult * ConnectResult)) :=
  try (fun e => e) (reserve_both perHopSats) (fun '(entryProofs, exitProofs) =>
  with_relays (st_delivery st) entryProofs exitProofs (pay_again st route entryProofs exitProofs)).
End service.

(** ** Running a program *)
Inductive event :=
| Ev {R : Type} (e : eff R) (r : R).
Definition handler (W : Type) : Type := forall R, eff R -> W -> R * W.

Fixpoint run {W A} (h : handler W) (p : prog A) (w : W) : A * W * list event :=
  match p with
  | Ret a => (a, w, [])
  | Act e k =>
      let '(r, w1) := h _ e w in
      let '(a, w2, t) := run h (k r) w1 in
      (a, w2, Ev e r :: t)
  end.

(** Every run of a program satisfies [Q], whatever the effects answer. *)
Fixpoint always {A} (p : prog A) (Q : list event -> A -> Prop) : Prop :=
  match p with
  | Ret a => Q [] a
  | Act e k => forall r, always (k r) (fun t a => Q (Ev e r :: t) a)
  end.

Lemma always_run {W A} (h : handler W) (p : prog A) Q w a w' t : always p Q -> run h p w = (a, w', t) -> Q t a.
Proof.
  revert w a w' t Q. induction p as [a0|R e k IH]; intros w a w' t Q; cbn [run always]; [by intros HQ [= <- <- <-]|].
  intros HQ. destruct (h R e w) as [r w1]. destruct (run h (k r) w1) as [[a1 w2] t1] eqn:Hr. intros [= <- <- <-].
  eapply (IH r _ _ _ _ (fun t a => Q (Ev e r :: t) a)); [apply HQ|done].
Qed.
Lemma always_mono {A} (p : prog A) (Q Q' : list event -> A -> Prop) : always p Q -> (forall t a, Q t a -> Q' t a) -> always p Q'.
Proof. revert Q Q'. induction p as [a|R e k IH]; intros Q Q'; cbn [always]; eauto. Qed.
Lemma always_bind {A B} (p : prog A) (f : A -> prog B) Q :
  always p (fun t a => always (f a) (fun t' b => Q (t ++ t') b)) -> always (pbind p f) Q.
Proof. revert Q. induction p as [a|R e k IH]; intros Q; cbn [always pbind]; [done|]. intros H r. apply IH, H. Qed.
Lemma always_act {R B} (e : eff R) (f : R -> prog B) Q :
  (forall r, always (f r) (fun t b => Q (Ev e r :: t) b)) -> always (pbind (act e) f) Q.
Proof. done. Qed.
Lemma always_try {A B E E'} (f : E -> E') (p : prog (result E A)) (k : A -> prog (result E' B)) Q :
  always p (fun t r => match r with Ok a => always (k a) (fun t' b => Q (t ++ t') b) | Err e => Q t (Err (f e)) end) ->
  always (try f p k) Q.
Proof.
  intros H. apply always_bind. eapply always_mono; [exact H|]. intros t [a|e]; [done|]. cbn [always]. by rewrite app_nil_r.
Qed.

(** *** Where the proofs go *)
(** An error after which the proofs may be burned: the node said conflict (the hub
    knows one of them), an internal error or that it has no address left (the hub
    had accepted them), or the encrypted request went out and its outcome is not
    known. Any other error is taken to have left them alone; over HTTP that
    includes a broken connection. *)
Fixpoint may_have_burned (e : connect_error) : bool :=
  match e with
  | NodeRejectedError status msg =>
      (status =? 409) || (status =? 500) || ((status =? 503) && Contains (ToLower msg) "no ips available")
  | ProofSpendUncertainError _ => true
  | OtherError _ => false
  | Wrapped _ e => may_have_burned e
  end.
Lemma spent_may_have_burned e : shouldTreatProofsAsSpent e = may_have_burned e.
Proof.
  induction e as [status msg|reason|msg|c e IH]; cbn [shouldTreatProofsAsSpent may_have_burned]; try done.
  unfold ProofsBurned, StatusConflict, StatusInternalServerError, StatusServiceUnavailable.
  destruct (status =? 409); [done|]. destruct (status =? 500); [done|]. by destruct (status =? 503).
Qed.
(** A hop counts as paid when its node took the proofs or may have burned them. *)
Definition hop_paid (r : result connect_error ConnectResult) : bool :=
  match r with Ok _ => true | Err e => may_have_burned e end.
Definition reserved_by (ev : event) : list Proof_ :=
  match ev with
  | Ev e r => match e in eff R return R -> list Proof_ with
              | EReserve _ => fun r => match r with Ok ps => ps | Err _ => [] end
              | _ => fun _ => []
              end r
  end.
Definition paid_by (ev : event) : list Proof_ :=
  match ev with
  | Ev e r => match e in eff R return R -> list Proof_ with
              | EPayHTTP _ _ ps _ | EPayNIP44 _ ps _ _ => fun r => if hop_paid r then ps else []
              | _ => fun _ => []
              end r
  end.
Definition released_by (ev : event) : list Proof_ :=
  match ev with Ev e _ => match e with ERelease ps => ps | _ => [] end end.
(** Given back to the wallet: its Release succeeded, or failed. *)
Definition returned_by (ev : event) : list Proof_ :=
  match ev with
  | Ev e r => match e in eff R return R -> list Proof_ with
              | ERelease ps => fun r => if is_ok r then ps else []
              | _ => fun _ => []
              end r
  end.
Definition stranded_by (ev : event) : list Proof_ :=
  match ev with
  | Ev e r => match e in eff R return R -> list Proof_ with
              | ERelease ps => fun r => if is_ok r then [] else ps
              | _ => fun _ => []
              end r
  end.
(** The sats a reservation that worked asked for. *)
Definition asked_by (ev : event) : Z :=
  match ev with
  | Ev e r => match e in eff R return R -> Z with
              | EReserve a => fun r => if is_ok r then a else 0
              | _ => fun _ => 0
              end r
  end.
Definition asked (t : list event) : Z := zsum_by asked_by t.
Definition reserved (t : list event) : list Proof_ := t ≫= reserved_by.
Definition paid (t : list event) : list Proof_ := t ≫= paid_by.
Definition released (t : list event) : list Proof_ := t ≫= released_by.
Definition returned (t : list event) : list Proof_ := t ≫= returned_by.
Definition stranded (t : list event) : list Proof_ := t ≫= stranded_by.

Lemma released_split t : released t ≡ₚ returned t ++ stranded t.
Proof.
  induction t as [|[R e r] t IH]; [done|]. unfold released, returned, stranded in *. cbn [mbind list_bind].
  destruct e; cbn [released_by returned_by stranded_by app]; try done.
  destruct r; cbn [is_ok app]; rewrite IH; [by rewrite <-app_assoc|].
  rewrite !app_assoc. f_equiv. apply Permutation_app_comm.
Qed.
Lemma nothing_released t : released t = [] -> returned t = [] /\ stranded t = [].
Proof.
  intros Hr. pose proof (released_split t) as Hp. rewrite Hr in Hp. by apply Permutation_nil, app_eq_nil in Hp.
Qed.

(** *** In which order *)
Record phase := mkPhase {
  ph_ready : bool;   (* Preflight passed *)
  ph_outer : bool;   (* the outer hop is up *)
  ph_tunnel : bool;  (* the tunnel is up *)
  ph_keys : bool;    (* there are keys to reset *)
  ph_hops : nat      (* payments presented *)
}.
Definition start_phase : phase := mkPhase false false false false 0.

(** The phase after an event, when the event may happen then. *)
Definition advance (ph : phase) (ev : event) : option phase :=
  let '(mkPhase ready outer tunnel keys hops) := ph in
  match ev with
  | Ev e r =>
      match e in eff R return R -> option phase with
      | EPrepareHopKeys => fun r =>
          Some (mkPhase ready outer tunnel match r with Ok (a, b) => negb (str_empty a) && negb (str_empty b) | Err _ => false end hops)
      | EResetHopKeys => fun _ => Some (mkPhase ready outer tunnel false hops)
      | EPreflight => fun r => Some (mkPhase (is_ok r) outer tunnel keys hops)
      | EReserve _ => fun _ => if ready then Some ph else None
      | EPayHTTP _ _ _ _ => fun _ =>
          if ready && ((hops =? 0)%nat || outer) then Some (mkPhase ready outer tunnel keys (S hops)) else None
      | EPayNIP44 _ _ _ _ => fun _ => if ready then Some (mkPhase ready outer tunnel keys (S hops)) else None
      | EUpOuter _ => fun r => if (hops =? 1)%nat then Some (mkPhase ready (is_ok r) tunnel keys hops) else None
      | EUpInner _ => fun r => if outer && (hops =? 2)%nat then Some (mkPhase ready outer (is_ok r) keys hops) else None
      | EUp _ => fun r => if (hops =? 2)%nat then Some (mkPhase ready outer (is_ok r) keys hops) else None
      | EDown => fun _ => Some (mkPhase ready false false keys hops)
      | _ => fun _ => Some ph
      end r
  end.
Fixpoint follow (ph : phase) (t : list event) : option phase :=
  match t with [] => Some ph | ev :: r => ph' ← advance ph ev; follow ph' r end.
Lemma follow_app ph t t' : follow ph (t ++ t') = (ph' ← follow ph t; follow ph' t').
Proof. revert ph. induction t as [|ev t IH]; intros ph; [done|]. cbn. destruct (advance ph ev); cbn; [apply IH|done]. Qed.

(** *** Each part *)
(** What a part did with proofs [ps] reserved before it, from phase [ph] on. *)
Record did (ph ph' : phase) (t : list event) (took gave_back : list Proof_) : Prop := {
  di_follow : follow ph t = Some ph';
  di_reserved : reserved t = [];
  di_asked : asked t = 0;
  di_paid : paid t = took;
  di_released : released t = gave_back
}.
Lemma did_nil ph : did ph ph [] [] [].
Proof. done. Qed.
Lemma did_app ph ph1 ph2 t1 t2 a1 a2 b1 b2 : did ph ph1 t1 a1 b1 -> did ph1 ph2 t2 a2 b2 ->
  did ph ph2 (t1 ++ t2) (a1 ++ a2) (b1 ++ b2).
Proof.
  intros [F1 R1 A1 P1 B1] [F2 R2 A2 P2 B2]. split.
  - by rewrite follow_app, F1.
  - unfold reserved in *. by rewrite bind_app, R1, R2.
  - unfold asked in *. by rewrite zsum_by_app, A1, A2.
  - unfold paid in *. by rewrite bind_app, P1, P2.
  - unfold released in *. by rewrite bind_app, B1, B2.
Qed.
Lemma did_one ph ph' ev : asked_by ev = 0 -> reserved_by ev = [] -> advance ph ev = Some ph' -> did ph ph' [ev] (paid_by ev) (released_by ev).
Proof.
  intros Hz Hr Ha. split; cbn; rewrite ?app_nil_r; [by rewrite Ha|done| |done..]. unfold asked. cbn. by rewrite Hz.
Qed.

Definition with_hops (n : nat) (ph : phase) : phase := mkPhase (ph_ready ph) (ph_outer ph) (ph_tunnel ph) (ph_keys ph) n.

Lemma hop_paid_wrap c r : hop_paid (wrap_pair c r) = hop_paid r.
Proof. by destruct r. Qed.

Lemma connectNode_did delivery url key pin ps k role ph :
  ph_ready ph = true -> is_nip44 delivery = true \/ ph_hops ph = 0%nat \/ ph_outer ph = true ->
  always (connectNode delivery url key pin ps k role) (fun t r =>
    exists n, did ph (with_hops n ph) t (if hop_paid r then ps else []) [] /\ (is_ok r = true -> n = S (ph_hops ph))).
Proof.
  intros Hready Hhop. destruct ph as [ready outer tunnel keys hops]; cbn in *; subst.
  unfold connectNode. destruct delivery.
  - destruct (str_empty url); [exists hops; split; [apply did_nil|done]|]. apply always_act. intros r. cbn [always].
    exists (S hops). split; [|done]. rewrite hop_paid_wrap.
    apply (did_one _ _ (Ev (EPayHTTP url pin ps k) r)); [done|done|]. cbn.
    destruct Hhop as [?|[->| ->]]; [done|done|]. by rewrite orb_true_r.
  - destruct (str_empty key); [exists hops; split; [apply did_nil|done]|]. apply always_act. intros r. cbn [always].
    exists (S hops). split; [|done]. rewrite hop_paid_wrap. by apply (did_one _ _ (Ev (EPayNIP44 key ps k role) r)).
Qed.

Lemma refund_did {A} err e x se sx ph : always (refund_and_fail (A:=A) err e x se sx) (fun t r =>
  is_ok r = false /\ did ph ph t [] ((if se then [] else e) ++ (if sx then [] else x))).
Proof.
  unfold refund_and_fail, refundUnspentProofs. destruct (_ ++ _) as [|p ps] eqn:Hl; [by cbn|].
  apply always_act. intros r. destruct ph.
  destruct r; (split; [done|]); by apply (did_one _ _ (Ev (ERelease (p :: ps)) _)).
Qed.

Lemma reserve_both_did perHop ph : ph_ready ph = true -> always (reserve_both perHop) (fun t r =>
  follow ph t = Some ph /\ paid t = [] /\
  match r with
  | Ok (e, x) => reserved t = e ++ x /\ released t = [] /\ asked t = perHop + (perHop + 0)
  | Err _ => reserved t = released t
  end).
Proof.
  intros Hready. destruct ph as [ready outer tunnel keys hops]; cbn in *; subst.
  intros [e|er]; [|done]. intros [x|er]; [by cbn; rewrite !app_nil_r|].
  intros [u|er']; by cbn; rewrite ?app_nil_r.
Qed.

Lemma with_relays_did {A} delivery e x (k : prog (result service_error A)) ph (Q : phase -> list Proof_ -> result service_error A -> Prop) :
  always k (fun t r => exists ph' a b, did ph ph' t a b /\ a ++ b ≡ₚ e ++ x /\ Q ph' b r) ->
  (forall err, Q ph (e ++ x) (Err err)) ->
  always (with_relays delivery e x k) (fun t r => exists ph' a b, did ph ph' t a b /\ a ++ b ≡ₚ e ++ x /\ Q ph' b r).
Proof.
  intros Hk Herr. unfold with_relays. destruct (is_nip44 delivery); [|done]. apply always_act. intros [u|err].
  - apply always_bind. eapply always_mono; [exact Hk|]. intros t r (ph' & a & b & Hd & Hp & HQ). cbn. intros [].
    exists ph', a, b. split; [|done]. destruct ph as [ready outer tunnel keys hops], ph' as [? ? ? ? ?].
    change (Ev ERelaysConnect (Ok u) :: t ++ [Ev ERelaysClose ()]) with ([Ev ERelaysConnect (Ok u)] ++ t ++ [Ev ERelaysClose ()]).
    rewrite <-(app_nil_l a), <-(app_nil_l b), <-(app_nil_r a), <-(app_nil_r b).
    eapply did_app; [by apply (did_one _ _ (Ev ERelaysConnect (Ok u)))|]. eapply did_app; [done|]. by apply (did_one _ _ (Ev ERelaysClose ())).
  - apply always_act. intros r. destruct ph as [ready outer tunnel keys hops].
    destruct r; (exists (mkPhase ready outer tunnel keys hops), [], (e ++ x)); (split_and!; [|done|apply Herr]);
      split; cbn; by rewrite ?app_nil_r.
Qed.

(** How an attempt ends: with the tunnel up and everything paid, or down. *)
Definition ends (keys : bool) (perHopSats : Z) (ph : phase) (gave_back : list Proof_) (r : result service_error Session) : Prop :=
  ph_keys ph = keys /\
  match r with
  | Ok s => ph_tunnel ph = true /\ ph_hops ph = 2%nat /\ gave_back = [] /\ se_SpentSats s = wrap_u64 (perHopSats * 2)
  | Err _ => ph_outer ph = false /\ ph_tunnel ph = false
  end.

Lemma raise_did staged cfg ph : ph_tunnel ph = false -> ph_outer ph = staged -> ph_hops ph = 2%nat ->
  always (raise_tunnel staged cfg) (fun t r => exists ph', did ph ph' t [] [] /\ ph_keys ph' = ph_keys ph /\ ph_hops ph' = 2%nat /\
    match r with Ok _ => ph_tunnel ph' = true | Err _ => ph_outer ph' = false /\ ph_tunnel ph' = false end).
Proof.
  destruct ph as [ready outer tunnel keys hops]; cbn [ph_tunnel ph_outer ph_hops ph_keys]. intros -> -> ->.
  unfold raise_tunnel. destruct staged.
  - apply always_act. intros [u|err]; [by eexists|]. intros r. by eexists.
  - intros [u|err]; by eexists.
Qed.

Lemma did_paid ph ph1 ph2 t1 t2 a1 a2 : did ph ph1 t1 a1 [] -> did ph1 ph2 t2 a2 [] -> did ph ph2 (t1 ++ t2) (a1 ++ a2) [].
Proof. exact (did_app ph ph1 ph2 t1 t2 a1 a2 [] []). Qed.

(** What is not spent is given back. *)
Lemma refund_ends err (e x : list Proof_) (se sx : bool) ph perHop keys :
  ph_keys ph = keys -> ph_outer ph = false -> ph_tunnel ph = false ->
  always (refund_and_fail (A:=Session) err e x se sx) (fun t r => exists b, did ph ph t [] b /\
    b = (if se then [] else e) ++ (if sx then [] else x) /\ ends keys perHop ph b r).
Proof.
  intros Hk Ho Ht. eapply always_mono; [apply (refund_did err e x se sx ph)|]. intros t r [Hr Hd].
  eexists. split_and!; [done|done|]. split; [done|]. by destruct r.
Qed.

Lemma pay_exit_did st pair ip cfg perHop e x keys :
  always (pay_exit st pair ip cfg perHop e x) (fun t r => exists ph' a b,
    did (mkPhase true (negb (is_nip44 (st_delivery st))) false keys 1) ph' t a b /\ a ++ b ≡ₚ x /\ ends keys perHop ph' b r).
Proof.
  unfold pay_exit. set (staged := negb (is_nip44 (st_delivery st))). apply always_bind.
  eapply always_mono.
  { apply (connectNode_did _ _ _ _ _ _ _ (mkPhase true staged false keys 1)); [done|]. cbn. subst staged. destruct (is_nip44 _); auto. }
  intros t r (n & Hd & Hn). cbn [ph_hops] in Hn. destruct r as [exitRes|err].
  - rewrite (Hn eq_refl) in Hd. cbn [hop_paid] in Hd. refine (always_try _ _ _ _ _).
    eapply always_mono; [apply (raise_did staged _ (mkPhase true staged false keys 2)); done|].
    intros t2 r2 (ph2 & Hd2 & Hk & Hh & Hr). cbn in Hk, Hh. pose proof (did_paid _ _ _ _ _ _ _ Hd Hd2) as Hall. rewrite app_nil_r in Hall.
    destruct r2 as [u|err].
    + intros [] now. exists ph2, x, []. split_and!; [|by rewrite app_nil_r|by split_and!].
      rewrite app_assoc, <-(app_nil_r x). eapply did_paid; [exact Hall|]. by destruct ph2.
    + exists ph2, x, []. by rewrite app_nil_r.
  - set (ph1 := mkPhase true false false keys n).
    assert (always (if staged then act EDown else Ret (Ok tt)) (fun t' _ => did (with_hops n (mkPhase true staged false keys 1)) ph1 t' [] []))
      as Hdown by (destruct staged; [by intros r|apply did_nil]).
    apply always_bind. eapply always_mono; [exact Hdown|]. intros t1 r1 Hd1. cbn beta.
    eapply always_mono; [apply (refund_ends _ e x true _ ph1 perHop keys); done|]. intros t2 r2 (b & Hd2 & -> & He).
    rewrite spent_may_have_burned in *.
    exists ph1, (if may_have_burned err then x else []), (if may_have_burned err then [] else x). split_and!; [|by case_match; rewrite ?app_nil_r|done].
    pose proof (did_app _ _ _ _ _ _ _ _ _ Hd (did_app _ _ _ _ _ _ _ _ _ Hd1 Hd2)) as Hall. cbn [app hop_paid] in Hall.
    by rewrite app_nil_r in Hall.
Qed.

Lemma pay_and_raise_did st pair ip ep ek xk perHop e x keys :
  always (pay_and_raise st pair ip ep ek xk perHop e x) (fun t r => exists ph' a b,
    did (mkPhase true false false keys 0) ph' t a b /\ a ++ b ≡ₚ e ++ x /\ ends keys perHop ph' b r).
Proof.
  unfold pay_and_raise. apply always_bind.
  eapply always_mono; [apply (connectNode_did _ _ _ _ _ _ _ (mkPhase true false false keys 0)); [done|by right; left]|].
  intros t r (n & Hd & Hn). cbn [ph_hops] in Hn. destruct r as [entryRes|err].
  - rewrite (Hn eq_refl) in Hd. cbn [hop_paid] in Hd. set (ph1 := mkPhase true (negb (is_nip44 (st_delivery st))) false keys 1).
    set (up := if negb (is_nip44 (st_delivery st)) then _ else _).
    assert (always up (fun t' r => match r with
      | Ok _ => did (mkPhase true false false keys 1) ph1 t' [] []
      | Err _ => did (mkPhase true false false keys 1) (mkPhase true false false keys 1) t' [] []
      end)) as Hup.
    { subst up ph1. destruct (is_nip44 _); cbn [negb]; [apply did_nil|]. by intros [u|err]. }
    apply always_bind. eapply always_mono; [exact Hup|]. intros t1 [u|err] Hd1; pose proof (did_paid _ _ _ _ _ _ _ Hd Hd1) as Hpaid; rewrite app_nil_r in Hpaid.
    + eapply always_mono; [apply (pay_exit_did _ _ _ _ perHop e x keys)|]. fold ph1. intros t2 r2 (ph' & a & b & Hd2 & Hp & He).
      exists ph', (e ++ a), b. split_and!; [|by rewrite <-app_assoc, Hp|done]. rewrite app_assoc. exact (did_app _ _ _ _ _ _ _ _ _ Hpaid Hd2).
    + eapply always_mono; [apply (refund_ends _ e x true false (mkPhase true false false keys 1) perHop keys); done|].
      intros t2 r2 (b & Hd2 & -> & He). exists (mkPhase true false false keys 1), e, x. split_and!; [|done|done].
      rewrite app_assoc. pose proof (did_app _ _ _ _ _ _ _ _ _ Hpaid Hd2) as Hall. by rewrite app_nil_r in Hall.
  - eapply always_mono; [apply (refund_ends _ e x (shouldTreatProofsAsSpent err) false (with_hops n (mkPhase true false false keys 0)) perHop keys); done|].
    intros t2 r2 (b & Hd2 & -> & He). eexists _, _, _. split; [exact (did_app _ _ _ _ _ _ _ _ _ Hd Hd2)|]. split; [|done].
    cbn [hop_paid]. rewrite spent_may_have_burned. destruct (may_have_burned err); cbn; by rewrite ?app_nil_r.
Qed.

Lemma connect_with_keys_did caps st pair ip ep ek xk perHop keys :
  always (connect_with_keys caps st pair ip ep ek xk perHop) (fun t r => exists ph',
    follow (mkPhase false false false keys 0) t = Some ph' /\ reserved t ≡ₚ paid t ++ released t /\ ends keys perHop ph' (released t) r /\
    (is_ok r = true -> asked t = 2 * perHop)).
Proof.
  unfold connect_with_keys. apply always_act. intros [u|err]; [|by eexists].
  refine (always_try _ _ _ _ _).
  assert (always (if ca_validator caps then act (EValidateEndpoints (n_Endpoint (np_Entry pair)) (n_Endpoint (np_Exit pair))) else Ret (Ok tt))
    (fun t _ => did (mkPhase true false false keys 0) (mkPhase true false false keys 0) t [] [])) as Hv
    by (destruct (ca_validator caps); [by intros r|apply did_nil]).
  eapply always_mono; [exact Hv|]. intros t1 r1 [F1 R1 A1 P1 B1].
  assert (forall t, reserved (Ev EPreflight (Ok u) :: t1 ++ t) = reserved t /\ paid (Ev EPreflight (Ok u) :: t1 ++ t) = paid t /\
    released (Ev EPreflight (Ok u) :: t1 ++ t) = released t /\ asked (Ev EPreflight (Ok u) :: t1 ++ t) = asked t /\
    follow (mkPhase false false false keys 0) (Ev EPreflight (Ok u) :: t1 ++ t) = follow (mkPhase true false false keys 0) t) as Hpre.
  { intros t. unfold reserved, paid, released, asked in *. rewrite zsum_by_cons, zsum_by_app, A1. cbn. rewrite !bind_app, R1, P1, B1, follow_app, F1. done. }
  destruct r1 as [v|err].
  2:{ destruct (Hpre []) as (Hr & Hp & Hb & _ & Hf). rewrite app_nil_r in *. eexists. rewrite Hf, Hr, Hp, Hb. by split_and!. }
  refine (always_try _ _ _ _ _). eapply always_mono; [apply (reserve_both_did _ (mkPhase true false false keys 0)); done|].
  intros t2 [[e x]|err] (F2 & P2 & H2).
  - destruct H2 as (R2 & B2 & A2). refine (always_mono _ _ _ (with_relays_did _ e x _ (mkPhase true false false keys 0) (ends keys perHop) _ _) _).
    + apply pay_and_raise_did.
    + done.
    + intros t3 r3 (ph' & a & b & [F3 R3 A3 P3 B3] & Hperm & He). exists ph'.
      destruct (Hpre (t2 ++ t3)) as (Hr & Hp & Hb & Ha & Hf). rewrite Ha. unfold asked in A2, A3 |- *. rewrite zsum_by_app, A2, A3. rewrite Hf, Hr, Hp, Hb, follow_app, F2. cbn.
      unfold reserved, paid, released in *. rewrite !bind_app, R2, R3, P2, P3, B2, B3, F3, app_nil_r. cbn. split_and!; [done|done|done|lia].
  - destruct (Hpre t2) as (Hr & Hp & Hb & _ & Hf). eexists. rewrite Hf, F2, Hr, Hp, Hb, P2, H2. by split_and!.
Qed.

Lemma reset_did reset (p : prog (result service_error Session)) perHop ph0 :
  always p (fun t r => exists ph', follow ph0 t = Some ph' /\ reserved t ≡ₚ paid t ++ released t /\ ends reset perHop ph' (released t) r /\
    (is_ok r = true -> asked t = 2 * perHop)) ->
  always (reset_on_failure reset p) (fun t r => exists ph', follow ph0 t = Some ph' /\ reserved t ≡ₚ paid t ++ released t /\
    ends match r with Ok _ => reset | Err _ => false end perHop ph' (released t) r /\ (is_ok r = true -> asked t = 2 * perHop)).
Proof.
  intros Hp. apply always_bind. eapply always_mono; [exact Hp|]. intros t [s|e] (ph' & Hf & Hc & He & Ha).
  - cbn. rewrite app_nil_r. by exists ph'.
  - destruct reset; [|cbn; rewrite app_nil_r; by exists ph']. intros []. cbn [always].
    exists (mkPhase (ph_ready ph') (ph_outer ph') (ph_tunnel ph') false (ph_hops ph')).
    unfold reserved, paid, released in *. rewrite follow_app, Hf, !bind_app. cbn. rewrite !app_nil_r. destruct ph', He as [_ He].
    split_and!; [done|done|by split|done].
Qed.

Lemma resolve_quiet url_Parse Join url ph :
  always (resolveConnectIPv4 url_Parse Join url) (fun t _ => did ph ph t [] []).
Proof.
  destruct ph. unfold resolveConnectIPv4. destruct (url_Parse url) as [u|]; [|apply did_nil].
  destruct (_ || negb (str_empty (url_Fragment u))); [apply did_nil|]. destruct (_ && _); [apply did_nil|].
  intros [[|ip ips]|err]; done.
Qed.
Lemma keys_quiet caps : always (prepareConnectKeys caps) (fun t r => exists keys, did start_phase (mkPhase false false false keys 0) t [] [] /\
  match r with Ok (_, _, reset) => keys = reset | Err _ => keys = false end).
Proof.
  unfold prepareConnectKeys. destruct (negb _); [exists false; split; [apply did_nil|done]|]. destruct (ca_hopKeys caps).
  - intros [[a b]|err]; [|by exists false]. cbn [always pbind].
    destruct (str_empty a || str_empty b) eqn:Hk; unfold fail; cbn [always]; exists (negb (str_empty a) && negb (str_empty b));
      (split; [by split|]); by rewrite <-negb_orb, Hk.
  - intros [k|err]; [|by exists false]. cbn [always pbind]. destruct (str_empty k); unfold fail; cbn [always]; by exists false.
Qed.

Definition settled_run (perHop : Z) (ph0 : phase) (t : list event) (r : result service_error Session) : Prop :=
  exists ph', follow ph0 t = Some ph' /\ reserved t ≡ₚ paid t ++ released t /\ (is_ok r = true -> asked t = 2 * perHop) /\
    exists keys, ends keys perHop ph' (released t) r /\ (is_ok r = false -> keys = false).

Lemma settled_after perHop ph0 ph1 t1 t r : did ph0 ph1 t1 [] [] -> settled_run perHop ph1 t r -> settled_run perHop ph0 (t1 ++ t) r.
Proof.
  intros [F R A P B] Hs. unfold settled_run, reserved, paid, released, asked in *. rewrite follow_app, !bind_app, zsum_by_app, R, A, P, B, F. exact Hs.
Qed.
Lemma settled_none perHop ph0 t e : ph_outer ph0 = false -> ph_tunnel ph0 = false -> ph_keys ph0 = false ->
  did start_phase ph0 t [] [] -> settled_run perHop start_phase t (Err e).
Proof.
  intros Ho Ht Hk [F R A P B]. exists ph0. rewrite F, R, P, B. split_and!; [done..|]. by exists false.
Qed.

Lemma connect_did url_Parse Join caps st perHop : always (connect url_Parse Join caps st perHop) (settled_run perHop start_phase).
Proof.
  unfold connect. apply always_act. intros [pair0|err].
  2:{ apply (settled_none _ start_phase); [done..|]. by apply (did_one _ _ (Ev ESelectPair (Err err))). }
  cbv zeta. destruct (pair_checks _ _ _) as [e|].
  { apply (settled_none _ start_phase); [done..|]. by apply (did_one _ _ (Ev ESelectPair (Ok pair0))). }
  refine (always_mono _ (settled_run perHop start_phase) _ _ _).
  2:{ intros t r Hs. apply (settled_after _ start_phase start_phase [Ev ESelectPair (Ok pair0)]); [|exact Hs]. by apply (did_one _ _ (Ev ESelectPair (Ok pair0))). }
  refine (always_try _ _ _ _ _).
  assert (always (if is_nip44 (st_delivery st) then Ret (Ok (""%string, ""%string))
                  else resolveConnectIPv4 url_Parse Join (n_ConnectURL (np_Exit (with_transport pair0))))
    (fun t _ => did start_phase start_phase t [] [])) as Hres by (destruct (is_nip44 _); [apply did_nil|apply resolve_quiet]).
  eapply always_mono; [exact Hres|]. intros t1 [[ip ep]|err] Hd1; [|by apply (settled_none _ start_phase)].
  refine (always_mono _ (settled_run perHop start_phase) _ _ _); [|intros t r; by apply settled_after].
  refine (always_try _ _ _ _ _). eapply always_mono; [apply keys_quiet|]. intros t2 [[[ek xk] reset]|err] (keys & Hd2 & Hk); cbn in Hk; subst keys.
  2:{ by apply (settled_none _ (mkPhase false false false false 0)). }
  refine (always_mono _ (settled_run perHop (mkPhase false false false reset 0)) _ _ _); [|intros t r; by apply settled_after].
  eapply always_mono; [apply reset_did, connect_with_keys_did|].
  intros t3 r3 (ph' & Hf & Hc & He & Ha). exists ph'. split_and!; [done..|]. eexists. split; [exact He|]. by destruct r3.
Qed.

(** *** What could not be given back is reported *)
Definition told {A} (t : list event) (r : result service_error A) : Prop :=
  stranded t = [] \/ exists e, r = Err (ErrNotReturned e).
Definition quiet {A} (t : list event) (_ : A) : Prop := stranded t = [].

Lemma stranded_app t t' : stranded (t ++ t') = stranded t ++ stranded t'.
Proof. apply bind_app. Qed.
Lemma told_bind {A B} (p : prog B) (k : B -> prog (result service_error A)) :
  always p quiet -> (forall b, always (k b) told) -> always (pbind p k) told.
Proof.
  intros Hp Hk. apply always_bind. eapply always_mono; [exact Hp|]. intros t b Hq. eapply always_mono; [apply Hk|].
  intros t' r. unfold told. by rewrite stranded_app, Hq.
Qed.
Lemma told_try {A B E} (f : E -> service_error) (p : prog (result E B)) (k : B -> prog (result service_error A)) :
  always p quiet -> (forall b, always (k b) told) -> always (try f p k) told.
Proof. intros Hp Hk. apply told_bind; [done|]. intros [b|e]; [done|by left]. Qed.
Lemma told_then {A B} (p : prog (result service_error B)) (k : B -> prog (result service_error A)) :
  always p told -> (forall b, always (k b) told) -> always (try (fun e => e) p k) told.
Proof.
  intros Hp Hk. apply always_try. eapply always_mono; [exact Hp|]. intros t [b|e] Ht.
  - destruct Ht as [Hs|[e [=]]]. eapply always_mono; [apply Hk|]. intros t' r. unfold told. by rewrite stranded_app, Hs.
  - destruct Ht as [?|[e' [= ->]]]; [by left|right; eauto].
Qed.
Lemma refund_told {A} err e x se sx : always (refund_and_fail (A:=A) err e x se sx) told.
Proof.
  unfold refund_and_fail, refundUnspentProofs. destruct (_ ++ _) as [|p ps]; [by left|].
  apply always_act. intros [u|er]; [by left|]. right. eauto.
Qed.
Lemma node_quiet delivery url key pin ps k role : always (connectNode delivery url key pin ps k role) quiet.
Proof. unfold connectNode. destruct delivery; (destruct (str_empty _); [done|]); by intros r. Qed.
Lemma reserve_told perHop : always (reserve_both perHop) told.
Proof.
  intros [e|er]; [|by left]. intros [x|er]; [by left|]. intros [u|er']; [by left|]. right. eauto.
Qed.
Lemma relays_told {A} delivery e x (k : prog (result service_error A)) : always k told -> always (with_relays delivery e x k) told.
Proof.
  intros Hk. unfold with_relays. destruct (is_nip44 delivery); [|done]. apply always_act. intros [u|err].
  - apply always_bind. eapply always_mono; [exact Hk|]. intros t r Ht []. cbn [always pbind]. unfold told.
    change (Ev ERelaysConnect (Ok u) :: t ++ [Ev ERelaysClose ()]) with ([Ev ERelaysConnect (Ok u)] ++ t ++ [Ev ERelaysClose ()]).
    rewrite !stranded_app, app_nil_r. exact Ht.
  - apply always_act. intros [u|er]; [by left|]. right. eauto.
Qed.
Lemma raise_quiet staged cfg : always (raise_tunnel staged cfg) quiet.
Proof. unfold raise_tunnel. destruct staged; [|by intros [u|e]]. intros [u|e]; [done|]. by intros r. Qed.

Lemma pay_told st pair ip ep ek xk perHop e x : always (pay_and_raise st pair ip ep ek xk perHop e x) told.
Proof.
  unfold pay_and_raise. apply told_bind; [apply node_quiet|]. intros [entryRes|err]; [|apply refund_told].
  apply told_bind; [destruct (is_nip44 _); [done|by intros r]|]. intros [u|err]; [|apply refund_told].
  unfold pay_exit. apply told_bind; [apply node_quiet|]. intros [exitRes|err].
  - apply told_try; [apply raise_quiet|]. intros v [] now. by left.
  - apply told_bind; [destruct (is_nip44 _); [done|by intros r]|]. intros r. apply refund_told.
Qed.

Lemma connect_told url_Parse Join caps st perHop : always (connect url_Parse Join caps st perHop) told.
Proof.
  unfold connect. apply told_try; [by intros r|]. intros pair0. cbv zeta. destruct (pair_checks _ _ _); [by left|].
  apply told_try.
  { destruct (is_nip44 _); [done|]. eapply always_mono; [apply (resolve_quiet _ _ _ start_phase)|].
    intros t r Hd. by apply nothing_released, (di_released _ _ _ _ _ Hd). }
  intros [ip ep]. apply told_try.
  { eapply always_mono; [apply keys_quiet|]. intros t r (keys & Hd & _). by apply nothing_released, (di_released _ _ _ _ _ Hd). }
  intros [[ek xk] reset]. unfold reset_on_failure. apply always_bind. apply (always_mono _ told).
  - unfold connect_with_keys. apply told_try; [by intros r|]. intros u.
    apply told_try; [destruct (ca_validator caps); [by intros r|done]|]. intros v. apply told_then; [apply reserve_told|].
    intros [e x]. apply relays_told, pay_told.
  - intros t [s|e] Ht; cbn [always].
    + destruct Ht as [Ht|[e [=]]]. left. by rewrite app_nil_r.
    + destruct reset; [intros []|]; cbn [always pbind]; unfold told; rewrite stranded_app, ?app_nil_r; exact Ht.
Qed.

(** C16: connecting neither loses nor doubles a payment. Whatever the wallet, the
    nodes, the resolver and the tunnel answer, every proof Connect reserved ends
    up in exactly one of three places: with a node that took it or may have burned
    it ([may_have_burned]), back in the wallet by a Release that succeeded, or in
    a Release that failed, and then the error returned says so. It pays nothing
    before the tunnel's preflight passed, a second hop over HTTP only while the
    outer hop is up; a success leaves the tunnel up with both hops paid and
    nothing given back, a failure leaves neither hop up and no key that a retry
    would reuse. The session reports what it asked the wallet for. *)
Theorem connect_settles {W} (h : handler W) url_Parse Join caps st perHop w r w' t
    (Hrun : run h (connect url_Parse Join caps st perHop) w = (r, w', t)) :
  reserved t ≡ₚ paid t ++ returned t ++ stranded t /\
  (stranded t = [] \/ exists e, r = Err (ErrNotReturned e)) /\
  exists ph, follow start_phase t = Some ph /\
    match r with
    | Ok s => ph_tunnel ph = true /\ ph_hops ph = 2%nat /\ returned t = [] /\ asked t = 2 * perHop /\ se_SpentSats s = wrap_u64 (asked t)
    | Err _ => ph_outer ph = false /\ ph_tunnel ph = false /\ ph_keys ph = false
    end.
Proof.
  destruct (always_run _ _ _ _ _ _ _ (connect_did url_Parse Join caps st perHop) Hrun) as (ph & Hf & Hc & Ha & keys & [Hk He] & Hkeys).
  split; [by rewrite <-released_split|].
  split; [exact (always_run _ _ _ _ _ _ _ (connect_told url_Parse Join caps st perHop) Hrun)|].
  exists ph. split; [done|]. destruct r as [s|e]; [|destruct He; rewrite Hk, (Hkeys eq_refl); tauto].
  destruct He as (? & ? & Hb & ?). destruct (nothing_released t Hb) as [-> _].
  rewrite (Ha eq_refl), (Z.mul_comm 2). tauto.
Qed.

(** A top-up settles too. Extend's payments, over any answers: every proof it
    reserved is paid, given back, or in a Release that failed; the tunnel stays
    up, and it reports success only when both hops took theirs. *)
Theorem extend_settles {W} (h : handler W) st route perHop w r w' t
    (Hrun : run h (extend_payments st route perHop) w = (r, w', t)) :
  reserved t ≡ₚ paid t ++ returned t ++ stranded t /\
  exists ph, follow (mkPhase true true true false 0) t = Some ph /\ ph_tunnel ph = true /\
    match r with Ok _ => ph_hops ph = 2%nat /\ returned t = [] | Err _ => True end.
Proof.
  set (ph0 := mkPhase true true true false 0).
  enough (always (extend_payments st route perHop) (fun t r => exists ph', follow ph0 t = Some ph' /\ reserved t ≡ₚ paid t ++ released t /\
    ph_tunnel ph' = true /\ match r with Ok _ => ph_hops ph' = 2%nat /\ released t = [] | Err _ => True end)) as Hall.
  { destruct (always_run _ _ _ _ _ _ _ Hall Hrun) as (ph & Hf & Hc & Ht & Hr). split; [by rewrite <-released_split|].
    exists ph. split_and!; [done..|]. destruct r; [|done]. destruct Hr as [? Hb]. by destruct (nothing_released t Hb). }
  clear. unfold extend_payments. refine (always_try _ _ _ _ _). eapply always_mono; [apply (reserve_both_did _ ph0); done|].
  intros t1 [[e x]|err] (F1 & P1 & H1).
  2:{ exists ph0. rewrite F1, P1, H1. by split_and!. }
  destruct H1 as (R1 & B1 & _).
  assert (always (pay_again st route e x) (fun t r => exists ph' a b, did ph0 ph' t a b /\ a ++ b ≡ₚ e ++ x /\
    (ph_tunnel ph' = true /\ match r with Ok _ => ph_hops ph' = 2%nat /\ b = [] | Err _ => True end))) as Hpay.
  { unfold pay_again. apply always_bind. eapply always_mono; [apply (connectNode_did _ _ _ _ _ _ _ ph0); [done|by right; left]|].
    intros t r (n & Hd & Hn). cbn [ph_hops ph0] in Hn. destruct r as [er|err].
    - rewrite (Hn eq_refl) in Hd. apply always_bind. eapply always_mono; [apply (connectNode_did _ _ _ _ _ _ _ (with_hops 1 ph0)); [done|by right; right]|].
      intros t' r (n' & Hd' & Hn'). cbn in Hn'. pose proof (did_paid _ _ _ _ _ _ _ Hd Hd') as Hp. cbn [hop_paid] in Hp. destruct r as [xr|err].
      + rewrite (Hn' eq_refl) in Hp. eexists _, (e ++ x), []. rewrite !app_nil_r. by split_and!.
      + eapply always_mono; [apply (refund_did _ e x)|]. intros t2 r2 [Hr Hd2]. eexists _, _, _. rewrite app_assoc.
        split; [exact (did_app _ _ _ _ _ _ _ _ _ Hp Hd2)|]. split; [|by destruct r2]. cbn [hop_paid].
        rewrite spent_may_have_burned, app_nil_r, <-app_assoc. by destruct (may_have_burned err); cbn; rewrite ?app_nil_r.
    - eapply always_mono; [apply (refund_did _ e x)|]. intros t2 r2 [Hr Hd2]. eexists _, _, _.
      split; [exact (did_app _ _ _ _ _ _ _ _ _ Hd Hd2)|]. split; [|by destruct r2].
      cbn [hop_paid]. rewrite spent_may_have_burned. by destruct (may_have_burned err); cbn; rewrite ?app_nil_r. }
  refine (always_mono _ _ _ (with_relays_did _ e x _ ph0 (fun ph' b r => ph_tunnel ph' = true /\
    match r with Ok _ => ph_hops ph' = 2%nat /\ b = [] | Err _ => True end) Hpay _) _); [done|].
  intros t2 r2 (ph' & a & b & [F2 R2 _ P2 B2] & Hperm & Htun & He). exists ph'. unfold reserved, paid, released in *.
  rewrite follow_app, F1. cbn. rewrite !bind_app, R1, R2, P1, P2, B1, B2, F2, app_nil_r. by split_and!.
Qed.

(** ** An exit that does not answer the payment *)
Definition toy_proof (name : string) : Proof_ := mkProof 8 "00" name "c".
Definition toy_hop (id : string) : NodeInfo :=
  mkNode id "" "" "198.51.100.7:51820" "https://node" [] "" 0 100 80 3 10 RoleEntry "1" "op" "".
Definition toy_http : settings :=
  mkSettings 2000000000 [TransportWireGuard] {[TransportWireGuard]} [] TokenDeliveryHTTP DiscoverySourceHub [] 2000000000.
Definition toy_url (s : string) : option URL := Some (mkURL "https" "node" "node" "" false "" "").
(** The state counts the reservations and the payments so far. The node at the
    pinned address, the exit, answers [exit_answer]. *)
Definition toy_handler (exit_answer : result connect_error ConnectResult) : handler nat := fun R e w =>
  match e in eff R return R * nat with
  | ESelectPair => (Ok (mkPair (toy_hop "a") (toy_hop "b") ""), w)
  | ELookupIPv4 _ => (Ok ["198.51.100.7"%string], w)
  | EPrepareHopKeys => (Ok ("k1"%string, "k2"%string), w)
  | EResetHopKeys => (tt, w)
  | EPublicKey => (Ok "k"%string, w)
  | EPreflight => (Ok tt, w)
  | EValidateEndpoints _ _ => (Ok tt, w)
  | EReserve _ => (Ok [toy_proof (if (w =? 0)%nat then "entry" else "exit")], S w)
  | ERelease _ => (Ok tt, w)
  | ERelaysConnect => (Ok tt, w)
  | ERelaysClose => (tt, w)
  | EPayHTTP _ ip _ _ => (if str_empty ip then Ok (mkResult "10.0.0.2" "wg" 1000) else exit_answer, w)
  | EPayNIP44 _ _ _ _ => (exit_answer, w)
  | EUpOuter _ => (Ok tt, w)
  | EUpInner _ => (Ok tt, w)
  | EUp _ => (Ok tt, w)
  | EDown => (Ok tt, w)
  | ESetRoute _ => (tt, w)
  | ENow => (1000, w)
  end.
Definition toy_caps : tunnel_caps := mkCaps true true true false.
Definition toy_refusal : result connect_error ConnectResult := Err (NodeRejectedError 503 "full").
Definition toy_run := run (toy_handler toy_refusal) (connect toy_url String.append toy_caps toy_http 8) 0%nat.

Lemma connect_settles_witness :
  is_ok toy_run.1.1 = false /\ returned toy_run.2 = [toy_proof "exit"] /\ paid toy_run.2 = [toy_proof "entry"] /\
  reserved toy_run.2 ≡ₚ paid toy_run.2 ++ returned toy_run.2 ++ stranded toy_run.2.
Proof.
  split; [vm_compute; reflexivity|]. split; [vm_compute; reflexivity|]. split; [vm_compute; reflexivity|].
  exact (proj1 (connect_settles (toy_handler toy_refusal) toy_url String.append toy_caps toy_http 8 0%nat
    toy_run.1.1 toy_run.1.2 toy_run.2 ltac:(vm_compute; reflexivity))).
Defined.

Definition toy_route : liveRoute := mkRoute (mkPair (toy_hop "a") (toy_hop "b") TransportWireGuard) "198.51.100.7" "k1" "k2".
Definition toy_topup := run (toy_handler (Err (ProofSpendUncertainError "timeout"))) (extend_payments toy_http toy_route 8) 0%nat.
Lemma extend_settles_witness :
  is_ok toy_topup.1.1 = false /\ returned toy_topup.2 = [] /\ reserved toy_topup.2 ≡ₚ paid toy_topup.2 ++ returned toy_topup.2 ++ stranded toy_topup.2.
Proof.
  split; [vm_compute; reflexivity|]. split; [vm_compute; reflexivity|].
  exact (proj1 (extend_settles (toy_handler (Err (ProofSpendUncertainError "timeout"))) toy_http toy_route 8 0%nat
    toy_topup.1.1 toy_topup.1.2 toy_topup.2 ltac:(vm_compute; reflexivity))).
Defined.
