(* ===== verification/Service.v ===== *)
(** * Service: the client's connection state machine
    (src/internal/app/service.go)

    The service's fields, one definition per critical section of its mutex, and
    the calls as threads that interleave between their critical sections.
    Connect and Extend run the programs of ServicePay, one effect at a time, with
    whatever answers the wallet, the nodes and the tunnel give. *)
From S2P Require Import Prelude Selector ProofVault Nip44 Envelope ClientConnect ServiceNodes ServicePay.

Inductive State := StateDisconnected | StateConnecting | StateConnected | StateDisconnecting.
#[export] Instance State_eq_dec : EqDecision State.
Proof. solve_decision. Defined.

(** What ConnectHub replaces wholesale; a number stands for the pointer, a new one
    for each installation. *)
Record hub := mkHub { hb_ref : nat; hb_URL : string }.
Record pin_ref := mkPinRef { pr_ref : nat; pr_pair : PinnedPair }.
(** [pl_from] is ghost: the hub the planned nodes were fetched from. *)
Record plan := mkPlan { pl_pair : PinnedPair; pl_from : option hub }.
Record tunnel := mkTunnel { tu_ref : nat; tu_caps : tunnel_caps }.

Record Service := mkService {
  sv_tunnel : tunnel;
  sv_trustedHubs : list string;
  sv_wallet : option hub;
  sv_selector : option hub;
  sv_hubInfo : option hub;
  sv_state : State;
  sv_session : option Session;
  sv_pinned : option pin_ref;
  sv_planned : option plan;
  sv_pairGeneration : Z;
  sv_route : option liveRoute;
  sv_fresh : nat   (* the next pointer *)
}.

Definition with_state (x : State) (sv : Service) : Service :=
  let '(mkService tu th w se hi _ ss pin pl g ro fr) := sv in mkService tu th w se hi x ss pin pl g ro fr.
Definition with_session (x : option Session) (sv : Service) : Service :=
  let '(mkService tu th w se hi s _ pin pl g ro fr) := sv in mkService tu th w se hi s x pin pl g ro fr.
Definition with_route (x : option liveRoute) (sv : Service) : Service :=
  let '(mkService tu th w se hi s ss pin pl g _ fr) := sv in mkService tu th w se hi s ss pin pl g x fr.
Definition with_planned (x : option plan) (sv : Service) : Service :=
  let '(mkService tu th w se hi s ss pin _ g ro fr) := sv in mkService tu th w se hi s ss pin x g ro fr.
Definition with_tunnel (x : tunnel) (sv : Service) : Service :=
  let '(mkService _ th w se hi s ss pin pl g ro fr) := sv in mkService x th w se hi s ss pin pl g ro fr.
Definition with_trustedHubs (x : list string) (sv : Service) : Service :=
  let '(mkService tu _ w se hi s ss pin pl g ro fr) := sv in mkService tu x w se hi s ss pin pl g ro fr.
Definition new_generation (sv : Service) : Service :=
  let '(mkService tu th w se hi s ss pin pl g ro fr) := sv in mkService tu th w se hi s ss pin pl (wrap_u64 (g + 1)) ro fr.
(** A new choice of the user, under a new pointer. *)
Definition with_pinned (x : option PinnedPair) (sv : Service) : Service :=
  let '(mkService tu th w se hi s ss _ pl g ro fr) := sv in
  mkService tu th w se hi s ss (mkPinRef fr <$> x) pl g ro (S fr).

Definition new_service (tu : tunnel) (st : settings) : Service :=
  mkService tu (st_trustedHubs st) None None None StateDisconnected None None None 0 None 0.

(** ** Critical sections *)
Definition currentWallet (sv : Service) : result service_error hub :=
  match sv_wallet sv with Some w => Ok w | None => Err ErrNoHub end.
Definition HubURL (sv : Service) : string := match sv_wallet sv with Some w => hb_URL w | None => "" end.
Definition PinnedPair_ (sv : Service) : option PinnedPair := pr_pair <$> sv_pinned sv.

(** ConnectHub, once the hub has answered *)
Definition installed (h : hub) (sv : Service) : Service :=
  let '(mkService tu th _ _ _ s ss _ _ g ro fr) := sv in
  mkService tu th (Some h) (Some h) (Some h) s ss None None (wrap_u64 (g + 1)) ro (S fr).
Definition installHub (url : string) (sv : Service) : Service * result service_error hub :=
  match sv_state sv with
  | StateDisconnected => let h := mkHub (sv_fresh sv) url in (installed h sv, Ok h)
  | _ => (sv, Err (ServiceErr "disconnect the active session before switching hubs"))
  end.

Definition SetPinnedPair (pin : option PinnedPair) (sv : Service) : Service * result service_error unit :=
  match check_pin pin with
  | Err e => (sv, Err e)
  | Ok _ => (with_planned None (with_pinned pin (new_generation sv)), Ok tt)
  end.
Definition SetTunnel (tu : tunnel) (sv : Service) : Service * result service_error unit :=
  match sv_state sv with
  | StateDisconnected => (with_tunnel tu sv, Ok tt)
  | _ => (sv, Err (ServiceErr "disconnect before changing how the tunnel runs"))
  end.
Definition SetTrustedHubPubkeys (keys : list string) (sv : Service) : Service :=
  with_trustedHubs (sanitizeHubPubkeys keys) sv.

Definition beginConnect (sv : Service) : Service * result service_error unit :=
  match sv_state sv with
  | StateConnected => (sv, Err ErrAlreadyOn)
  | StateDisconnected => (with_state StateConnecting sv, Ok tt)
  | _ => (sv, Err (ServiceErr "connection already in progress"))
  end.
Definition endConnect (r : result service_error Session) (sv : Service) : Service :=
  match r with
  | Ok s => with_session (Some s) (with_state StateConnected sv)
  | Err _ => with_state StateDisconnected sv
  end.

Definition beginDisconnect (sv : Service) : Service * result service_error unit :=
  match sv_state sv with
  | StateConnected => (with_state StateDisconnecting sv, Ok tt)
  | _ => (sv, Err ErrNotConnected)
  end.
Definition endDisconnect (sv : Service) : Service :=
  with_route None (with_session None (with_state StateDisconnected sv)).

Definition beginExtend (sv : Service) : result service_error liveRoute :=
  match sv_state sv, sv_route sv, sv_session sv with
  | StateConnected, Some route, Some _ => Ok route
  | _, _, _ => Err ErrNotConnected
  end.
Definition with_allowance (b : Z) (h : HopConfig) : HopConfig :=
  mkHopConfig (hc_NodeID h) (hc_Endpoint h) (hc_NodeWGPubkey h) (hc_TunnelIP h) b.
Definition topped_up (entry exit_ : ConnectResult) (perHopSats : Z) (s : Session) : Session :=
  let c := se_Config s in
  mkSession (mkTunnelConfig (with_allowance (re_BytesAllowed entry) (tc_Entry c)) (with_allowance (re_BytesAllowed exit_) (tc_Exit c))
               (tc_ClientKey c) (tc_EntryClientKey c) (tc_ExitClientKey c) (tc_OuterPinnedEndpoints c) (tc_Transport c))
    (wrap_u64 (se_SpentSats s + wrap_u64 (perHopSats * 2))) (se_StartedAt s).
Definition endExtend (entry exit_ : ConnectResult) (perHopSats : Z) (sv : Service) : Service * result service_error Session :=
  match sv_session sv with
  | None => (sv, Err ErrNotConnected)
  | Some s =>
      if negb (String.eqb (re_TunnelIP entry) (hc_TunnelIP (tc_Entry (se_Config s)))) ||
         negb (String.eqb (re_TunnelIP exit_) (hc_TunnelIP (tc_Exit (se_Config s))))
      then (sv, Err ErrExtendMovedTunnel)
      else (with_session (Some (topped_up entry exit_ perHopSats s)) sv, Ok (topped_up entry exit_ perHopSats s))
  end.

(** PreparePair: the start, the choice, and keeping it *)
Definition beginPrepare (sv : Service) : Service * result service_error (option hub * Z) :=
  match sv_state sv with
  | StateDisconnected =>
      let sv' := with_planned None (new_generation sv) in (sv', Ok (sv_hubInfo sv', sv_pairGeneration sv'))
  | _ => (sv, Err (ServiceErr "disconnect before choosing the next pair"))
  end.
(** Whether the service still points at the hub it did. *)
Definition same_hub (hub0 : option hub) (sv : Service) : bool := bool_decide ((hb_ref <$> sv_hubInfo sv) = (hb_ref <$> hub0)).
Definition same_pin (pin0 : option pin_ref) (sv : Service) : bool := bool_decide ((pr_ref <$> sv_pinned sv) = (pr_ref <$> pin0)).
Definition choosePrepared (rnd : nat -> option nat) (st : settings) (hub0 : option hub) (nodes : list NodeInfo) (sv : Service) :
    result service_error (option pin_ref * NodePair) :=
  match sv_state sv with
  | StateDisconnected =>
      if negb (same_hub hub0 sv) then Err (ServiceErr "hub changed while choosing the next pair")
      else
        pair ← choose_pair rnd st (PinnedPair_ sv) None nodes;
        if negb (str_empty (np_Transport pair)) && negb (String.eqb (np_Transport pair) TransportWireGuard)
        then Err ErrTransportUnsupported else Ok (sv_pinned sv, pair)
  | _ => Err (ServiceErr "disconnect before choosing the next pair")
  end.
Definition keepPrepared (hub0 : option hub) (generation : Z) (pinned : option pin_ref) (pair : NodePair) (from : option hub) (sv : Service) :
    Service * result service_error NodePair :=
  match sv_state sv with
  | StateDisconnected =>
      if negb (same_hub hub0 sv) || negb (same_pin pinned sv) || negb (sv_pairGeneration sv =? generation)
      then (sv, Err (ServiceErr "hub or chosen nodes changed while choosing the next pair"))
      else match sv_pinned sv with
           | None => (with_planned (Some (mkPlan (mkPin (n_ID (np_Entry pair)) (n_ID (np_Exit pair))) from)) sv, Ok pair)
           | Some _ => (sv, Ok pair)
           end
  | _ => (sv, Err (ServiceErr "connection started while choosing the next pair"))
  end.

(** ** Calls in progress *)
Inductive reply := RDone | RHub (url : string) | RPair (p : NodePair) | RSession (s : Session).
Abbreviation outcome := (result service_error reply).

Inductive thread :=
| CallConnectHub (url : string)
| HubReady (url : string)
| CallSetPinnedPair (pin : option PinnedPair)
| CallSetTunnel (tu : tunnel)
| CallSetTrustedHubPubkeys (keys : list string)
| CallConnect (perHopSats : Z)
| ConnectWallet (perHopSats : Z) (w : hub)
| Connecting (w : hub) (p : prog (result service_error Session))
| ConnectReturned (r : result service_error Session)
| ConnectUnplanned (r : result service_error Session)
| CallClose
| CallDisconnect
| TearDown
| TornDown (r : result string unit)
| CallExtend (perHopSats : Z)
| ExtendWallet (perHopSats : Z) (w : hub)
| Extending (perHopSats : Z) (w : hub) (p : prog (result service_error (ConnectResult * ConnectResult)))
| CallPreparePair
| PrepareFetch (hub0 : option hub) (generation : Z)
| PrepareNodes (hub0 : option hub) (generation : Z) (from : option hub) (nodes : list NodeInfo)
| PrepareKeep (hub0 : option hub) (generation : Z) (from : option hub) (pinned : option pin_ref) (pair : NodePair)
| Returned (o : outcome).

Definition is_call (th : thread) : bool :=
  match th with
  | CallConnectHub _ | CallSetPinnedPair _ | CallSetTunnel _ | CallSetTrustedHubPubkeys _ | CallConnect _ | CallClose | CallDisconnect
  | CallExtend _ | CallPreparePair => true
  | _ => false
  end.

(** The call goes on with [f a], or returns the error. *)
Definition next {A} (r : result service_error A) (f : A -> thread) : thread :=
  match r with Ok a => f a | Err e => Returned (Err e) end.
Definition unit_outcome (r : result service_error unit) : thread := next r (fun _ => Returned (Ok RDone)).

Section service.
Context (url_Parse : string -> option URL) (JoinHostPort : string -> string -> string) (st : settings).

(** One effect of a program: choosing the pair reads the service, setting the route
    writes it, all others are answered from outside. *)
Definition perform (sv : Service) {R} (e : eff R) (r : R) (sv' : Service) : Prop :=
  match e in eff R return R -> Prop with
  | ESelectPair => fun r => sv' = sv /\ exists rnd (fetched : result service_error (list NodeInfo)),
      r = (nodes ← fetched; choose_pair rnd st (PinnedPair_ sv) (pl_pair <$> sv_planned sv) nodes)
  | ESetRoute route => fun _ => sv' = with_route (Some route) sv
  | _ => fun _ => sv' = sv
  end r.
Definition prog_step {A} (sv : Service) (p : prog A) (sv' : Service) (p' : prog A) : Prop :=
  match p with
  | Ret _ => False
  | Act e k => exists r, perform sv e r sv' /\ p' = k r
  end.

Inductive thread_step : Service -> thread -> Service -> thread -> Prop :=
(* ConnectHub: the hub answers, or not; the balance is read afterwards *)
| step_hub_failed sv url e : thread_step sv (CallConnectHub url) sv (Returned (Err e))
| step_hub_ready sv url : thread_step sv (CallConnectHub url) sv (HubReady url)
| step_hub_install sv url (balance : result service_error unit) sv' r : installHub url sv = (sv', r) ->
    thread_step sv (HubReady url) sv' (next r (fun h => next balance (fun _ => Returned (Ok (RHub (hb_URL h))))))
| step_pin sv pin sv' r : SetPinnedPair pin sv = (sv', r) ->
    thread_step sv (CallSetPinnedPair pin) sv' (unit_outcome r)
| step_tunnel sv tu sv' r : SetTunnel tu sv = (sv', r) ->
    thread_step sv (CallSetTunnel tu) sv' (unit_outcome r)
| step_trusted sv keys : thread_step sv (CallSetTrustedHubPubkeys keys) (SetTrustedHubPubkeys keys sv) (Returned (Ok RDone))
(* Connect *)
| step_connect_wallet sv n :
    thread_step sv (CallConnect n) sv
      (if n =? 0 then Returned (Err ErrAmountTooSmall) else next (currentWallet sv) (ConnectWallet n))
| step_connect_begin sv n w sv' r : beginConnect sv = (sv', r) ->
    thread_step sv (ConnectWallet n w) sv'
      (next r (fun _ => Connecting w (connect url_Parse JoinHostPort (tu_caps (sv_tunnel sv)) st n)))
| step_connect_effect sv w p sv' p' : prog_step sv p sv' p' -> thread_step sv (Connecting w p) sv' (Connecting w p')
| step_connect_return sv w r : thread_step sv (Connecting w (Ret r)) sv (ConnectReturned r)
| step_connect_unplan sv r : thread_step sv (ConnectReturned r) (with_planned None sv) (ConnectUnplanned r)
| step_connect_end sv r :
    thread_step sv (ConnectUnplanned r) (endConnect r sv) (next r (fun s => Returned (Ok (RSession s))))
(* Close and Disconnect *)
| step_close sv : thread_step sv CallClose sv (match sv_state sv with StateConnected => CallDisconnect | _ => Returned (Ok RDone) end)
| step_disconnect sv sv' r : beginDisconnect sv = (sv', r) ->
    thread_step sv CallDisconnect sv' (next r (fun _ => TearDown))
| step_teardown sv (answer : result string unit) :
    thread_step sv TearDown sv (TornDown (if ca_present (tu_caps (sv_tunnel sv)) then answer else Ok tt))
| step_torndown sv r :
    thread_step sv (TornDown r) (endDisconnect sv)
      (Returned match r with Ok _ => Ok RDone | Err _ => Err (ServiceErr "tear tunnel down") end)
(* Extend *)
| step_extend_wallet sv n :
    thread_step sv (CallExtend n) sv
      (if n =? 0 then Returned (Err ErrAmountTooSmall) else next (currentWallet sv) (ExtendWallet n))
| step_extend_begin sv n w :
    thread_step sv (ExtendWallet n w) sv (next (beginExtend sv) (fun route => Extending n w (extend_payments st route n)))
| step_extend_effect sv n w p sv' p' : prog_step sv p sv' p' -> thread_step sv (Extending n w p) sv' (Extending n w p')
| step_extend_failed sv n w e : thread_step sv (Extending n w (Ret (Err e))) sv (Returned (Err e))
| step_extend_end sv n w entry exit_ sv' r : endExtend entry exit_ n sv = (sv', r) ->
    thread_step sv (Extending n w (Ret (Ok (entry, exit_)))) sv' (next r (fun s => Returned (Ok (RSession s))))
(* PreparePair *)
| step_prepare_begin sv sv' r : beginPrepare sv = (sv', r) ->
    thread_step sv CallPreparePair sv' (next r (fun '(hub0, generation) => PrepareFetch hub0 generation))
| step_prepare_fetch sv hub0 generation (fetched : result service_error (list NodeInfo)) :
    thread_step sv (PrepareFetch hub0 generation) sv (next fetched (PrepareNodes hub0 generation (sv_selector sv)))
| step_prepare_choose sv hub0 generation from nodes rnd :
    thread_step sv (PrepareNodes hub0 generation from nodes) sv
      (next (choosePrepared rnd st hub0 nodes sv) (fun '(pinned, chosen) => PrepareKeep hub0 generation from pinned chosen))
| step_prepare_keep sv hub0 generation from pinned pair sv' r : keepPrepared hub0 generation pinned pair from sv = (sv', r) ->
    thread_step sv (PrepareKeep hub0 generation from pinned pair) sv' (next r (fun p => Returned (Ok (RPair p)))).

(** The service with its calls. *)
Record system := mkSystem { sy_service : Service; sy_threads : gmap nat thread }.
Definition step_by (i : nat) (s s' : system) : Prop :=
  exists th th', sy_threads s !! i = Some th /\ thread_step (sy_service s) th (sy_service s') th' /\
    sy_threads s' = <[i := th']> (sy_threads s).
Inductive step : system -> system -> Prop :=
| step_call s i th : sy_threads s !! i = None -> is_call th = true ->
    step s (mkSystem (sy_service s) (<[i := th]> (sy_threads s)))
| step_thread i s s' : step_by i s s' -> step s s'.
Definition start (tu : tunnel) : system := mkSystem (new_service tu st) ∅.
Definition reachable (s : system) : Prop := exists tu, rtc step (start tu) s.
End service.

(** ** Only a connect that succeeds sets the route *)
Definition is_some {A} (o : option A) : bool := match o with Some _ => true | None => false end.
Lemma is_some_true {A} (o : option A) : is_Some o <-> is_some o = true.
Proof. destruct o; cbn; split; [done|by eexists|by intros [? [=]]|done]. Qed.
Definition routed (t : list event) : bool :=
  existsb (fun ev => match ev with Ev e _ => match e with ESetRoute _ => true | _ => false end end) t.
Definition quiet {A} (p : prog A) : Prop := always p (fun t _ => routed t = false).
Definition routes {E A} (has : bool) (p : prog (result E A)) : Prop := always p (fun t r => is_ok r = has || routed t).

Lemma routed_app t t' : routed (t ++ t') = routed t || routed t'.
Proof. apply existsb_app. Qed.
Lemma quiet_bind {A B} (p : prog A) (f : A -> prog B) : quiet p -> (forall a, quiet (f a)) -> quiet (pbind p f).
Proof.
  intros Hp Hf. apply always_bind. eapply always_mono; [exact Hp|]. intros t a Ht. eapply always_mono; [apply Hf|].
  intros t' b Ht'. by rewrite routed_app, Ht, Ht'.
Qed.
Lemma quiet_try {A B E E'} (f : E -> E') (p : prog (result E A)) (k : A -> prog (result E' B)) :
  quiet p -> (forall a, quiet (k a)) -> quiet (try f p k).
Proof. intros Hp Hk. apply quiet_bind; [done|]. by intros [a|e]; [apply Hk|]. Qed.
Lemma routes_bind {E A B} (p : prog A) (f : A -> prog (result E B)) : quiet p -> (forall a, routes false (f a)) -> routes false (pbind p f).
Proof.
  intros Hp Hf. apply always_bind. eapply always_mono; [exact Hp|]. intros t a Ht. eapply always_mono; [apply Hf|].
  intros t' b Ht'. by rewrite routed_app, Ht.
Qed.
Lemma routes_try {A B E E'} (f : E -> E') (p : prog (result E A)) (k : A -> prog (result E' B)) :
  quiet p -> (forall a, routes false (k a)) -> routes false (try f p k).
Proof. intros Hp Hk. apply routes_bind; [done|]. by intros [a|e]; [apply Hk|]. Qed.
(** What runs after the result is known does not change it. *)
Lemma routes_then {E A} (p : prog (result E A)) (f : result E A -> prog (result E A)) :
  routes false p -> (forall r, always (f r) (fun t r' => routed t = false /\ is_ok r' = is_ok r)) -> routes false (pbind p f).
Proof.
  intros Hp Hf. apply always_bind. eapply always_mono; [exact Hp|]. intros t r Ht. eapply always_mono; [apply Hf|].
  intros t' r' [Ht' ->]. by rewrite routed_app, Ht', orb_false_r.
Qed.

Ltac quiet := repeat (intros; cbv beta; match goal with
  | |- quiet (pbind _ _) => apply quiet_bind
  | |- quiet (try _ _ _) => apply quiet_try
  | |- quiet (act _) => intros ?; reflexivity
  | |- quiet (Ret _) => reflexivity
  | |- quiet (fail _) => reflexivity
  | |- quiet (if ?b then _ else _) => destruct b
  | |- quiet (match ?x with _ => _ end) => destruct x
  end).

Lemma quiet_refund {A} err e x a b : quiet (@refund_and_fail A err e x a b).
Proof. unfold refund_and_fail, refundUnspentProofs. quiet. Qed.
Lemma quiet_node d u k ip ps key role : quiet (connectNode d u k ip ps key role).
Proof. unfold connectNode. quiet. Qed.
Lemma quiet_reserve n : quiet (reserve_both n).
Proof. unfold reserve_both. quiet. Qed.
Lemma quiet_keys caps : quiet (prepareConnectKeys caps).
Proof. unfold prepareConnectKeys. quiet. Qed.
Lemma quiet_resolve url_Parse Join url : quiet (resolveConnectIPv4 url_Parse Join url).
Proof. unfold resolveConnectIPv4. quiet. Qed.
Lemma routes_fail {A} err e x a b : routes false (@refund_and_fail A err e x a b).
Proof.
  unfold refund_and_fail. apply routes_bind; [unfold refundUnspentProofs; quiet|]. by intros [u|e'].
Qed.

Lemma pay_exit_routes st pair ip cfg n e x : routes false (pay_exit st pair ip cfg n e x).
Proof.
  unfold pay_exit. apply routes_bind; [apply quiet_node|]. intros [xr|err].
  - apply routes_try; [unfold raise_tunnel; quiet|]. by intros u [] now.
  - apply routes_bind; [quiet|]. intros u. apply routes_fail.
Qed.
Lemma pay_and_raise_routes st pair ip ep ek xk n e x : routes false (pay_and_raise st pair ip ep ek xk n e x).
Proof.
  unfold pay_and_raise. apply routes_bind; [apply quiet_node|]. intros [er|err]; [|apply routes_fail].
  apply routes_bind; [quiet|]. intros [u|err]; [apply pay_exit_routes|apply routes_fail].
Qed.
Lemma with_relays_routes {A} d e x (k : prog (result service_error A)) : routes false k -> routes false (with_relays d e x k).
Proof.
  intros Hk. unfold with_relays. destruct (is_nip44 d); [|done]. apply routes_bind; [quiet|]. intros [u|err].
  - apply routes_then; [done|]. by intros r [].
  - apply routes_bind; [quiet|]. by intros [u|e'].
Qed.
Lemma connect_routes url_Parse Join caps st n : routes false (connect url_Parse Join caps st n).
Proof.
  unfold connect. apply routes_try; [quiet|]. intros pair0. cbv zeta. destruct (pair_checks _ _ _); [done|].
  apply routes_try; [destruct (is_nip44 _); [quiet|apply quiet_resolve]|]. intros [ip ep].
  apply routes_try; [apply quiet_keys|]. intros [[ek xk] reset]. unfold reset_on_failure. apply routes_then.
  - unfold connect_with_keys. apply routes_try; [quiet|]. intros u. apply routes_try; [quiet|]. intros v.
    apply routes_try; [apply quiet_reserve|]. intros [e x]. apply with_relays_routes, pay_and_raise_routes.
  - intros [s|e]; [done|]. destruct reset; [|done]. by intros [].
Qed.
Lemma extend_quiet st route n : quiet (extend_payments st route n).
Proof.
  unfold extend_payments. apply quiet_try; [apply quiet_reserve|]. intros [e x].
  assert (quiet (pay_again st route e x)) as Hp.
  { unfold pay_again. apply quiet_bind; [apply quiet_node|]. intros [er|err]; [|apply quiet_refund].
    apply quiet_bind; [apply quiet_node|]. intros [xr|err]; [quiet|apply quiet_refund]. }
  unfold with_relays. destruct (is_nip44 _); [|done]. apply quiet_bind; [quiet|]. intros [u|err]; quiet. exact Hp.
Qed.

(** Every effect has some answer. *)
Lemma eff_answer {R} (e : eff R) : inhabited R.
Proof. destruct e; constructor; first [exact tt|exact 0|exact (Err (ServiceErr ""))|exact (Err ""%string)|exact (Err (OtherError ""))|exact (Err ErrInsufficientBalance)]. Qed.
Lemma always_False {A} (p : prog A) (Q : list event -> A -> Prop) : (forall t a, ~ Q t a) -> ~ always p Q.
Proof.
  revert Q. induction p as [a|R e k IH]; intros Q HQ; cbn [always]; [apply HQ|]. destruct (eff_answer e) as [r]. intros H.
  exact (IH r _ (fun t => HQ _) (H r)).
Qed.

Lemma prog_step_quiet st {A} sv (p : prog A) sv' p' : prog_step st sv p sv' p' -> quiet p -> sv' = sv /\ quiet p'.
Proof.
  destruct p as [a|R e k]; cbn [prog_step]; [done|]. intros (r & Hp & ->) Hq. specialize (Hq r).
  destruct e; try (split; [first [exact Hp|apply Hp]|exact Hq]). exfalso. refine (always_False _ _ _ Hq). intros t a. cbn. congruence.
Qed.
(** A program that sets the route is at no other point of the service's state. *)
Lemma prog_step_routes st {E A} sv (p : prog (result E A)) sv' p' : prog_step st sv p sv' p' ->
  routes (is_some (sv_route sv)) p ->
  routes (is_some (sv_route sv')) p' /\ exists ro, sv' = with_route ro sv.
Proof.
  destruct p as [a|R e k]; cbn [prog_step]; [done|]. intros (r & Hp & ->) Hq. specialize (Hq r).
  assert (sv = with_route (sv_route sv) sv) as Hid by (by destruct sv).
  destruct e; try (assert (sv' = sv) as -> by (first [exact Hp|apply Hp]); split; [exact Hq|by eexists]).
  cbn in Hp. subst sv'. split; [|by eexists]. eapply always_mono; [exact Hq|]. intros t a Ht. cbn in Ht |- *. rewrite Ht, orb_true_r. by destruct sv.
Qed.

(** ** The invariant *)
(** The state that only this call may leave. *)
Definition holds (th : thread) : option State :=
  match th with
  | Connecting _ _ | ConnectReturned _ | ConnectUnplanned _ => Some StateConnecting
  | TearDown | TornDown _ => Some StateDisconnecting
  | _ => None
  end.
Definition transient (x : State) : bool := match x with StateConnecting | StateDisconnecting => true | _ => false end.

(** A hub that was installed before now. *)
Definition known (fresh : nat) (h : option hub) : Prop := forall x, h = Some x -> (hb_ref x < fresh)%nat.
Record service_ok (sv : Service) : Prop := {
  so_session : is_some (sv_session sv) = match sv_state sv with StateConnected | StateDisconnecting => true | _ => false end;
  so_route : match sv_state sv with
             | StateDisconnected => sv_route sv = None
             | StateConnecting => True
             | _ => is_some (sv_route sv) = true
             end;
  so_selector : sv_selector sv = sv_wallet sv;
  so_hub : sv_hubInfo sv = sv_wallet sv;
  so_planned : forall pl, sv_planned sv = Some pl -> sv_pinned sv = None /\ pl_from pl = sv_wallet sv;
  so_fresh : known (sv_fresh sv) (sv_wallet sv)
}.
(** The nodes a PreparePair fetched are of the hub it started with, as long as
    that one is still in place. *)
Definition fetched_here (sv : Service) (hub0 from : option hub) : Prop :=
  known (sv_fresh sv) hub0 /\ ((hb_ref <$> sv_wallet sv) = (hb_ref <$> hub0) -> from = sv_wallet sv).
Definition thread_ok (sv : Service) (th : thread) : Prop :=
  match th with
  | Connecting _ p => routes (is_some (sv_route sv)) p
  | ConnectReturned r | ConnectUnplanned r => is_ok r = is_some (sv_route sv)
  | Extending _ _ p => quiet p
  | PrepareFetch hub0 _ => known (sv_fresh sv) hub0
  | PrepareNodes hub0 _ from _ | PrepareKeep hub0 _ from _ _ => fetched_here sv hub0 from
  | _ => True
  end.

(** The state changes that begin an operation, and those that end one. *)
Definition claims (x y : State) : bool :=
  match x, y with StateDisconnected, StateConnecting | StateConnected, StateDisconnecting => true | _, _ => false end.
Definition releases (x y : State) : bool :=
  match x, y with
  | StateConnecting, StateConnected | StateConnecting, StateDisconnected | StateDisconnecting, StateDisconnected => true
  | _, _ => false
  end.
Lemma claims_spec x y : claims x y = true -> transient x = false /\ transient y = true.
Proof. by destruct x, y. Qed.
Lemma releases_spec x y : releases x y = true -> transient x = true /\ transient y = false.
Proof. by destruct x, y. Qed.
Lemma holds_transient th x : holds th = Some x -> transient x = true.
Proof. by destruct th; intros [= <-]. Qed.

(** What a step does to the rest of the service. *)
Record frame (sv : Service) (th : thread) (sv' : Service) (th' : thread) : Prop := {
  fr_fresh : (sv_fresh sv <= sv_fresh sv')%nat;
  fr_hub : sv_wallet sv' = sv_wallet sv \/ exists h, sv_wallet sv' = Some h /\ (sv_fresh sv <= hb_ref h)%nat;
  fr_route : sv_route sv' = sv_route sv \/ holds th = Some (sv_state sv);
  fr_fixed : sv_state sv <> StateDisconnected -> sv_wallet sv' = sv_wallet sv /\ sv_tunnel sv' = sv_tunnel sv;
  fr_owner :
    holds th' = holds th /\ sv_state sv' = sv_state sv \/
    claims (sv_state sv) (sv_state sv') = true /\ holds th = None /\ holds th' = Some (sv_state sv') \/
    releases (sv_state sv) (sv_state sv') = true /\ holds th = Some (sv_state sv) /\ holds th' = None
}.
Lemma frame_same sv th th' : holds th' = holds th -> frame sv th sv th'.
Proof. intros Hh. split; auto. Qed.

(** *** What each critical section keeps *)
(** [changed sv sv'] with [held] the state the call holds before and after. *)
Definition changed (sv sv' : Service) (held held' : option State) : Prop :=
  service_ok sv -> service_ok sv' /\ forall th th', holds th = held -> holds th' = held' -> frame sv th sv' th'.

Ltac fields :=
  intros; match goal with |- changed ?sv _ _ _ => destruct sv end; intros []; cbn in *; subst;
  (split; [split; cbn in *; try done|intros ?? Hh Hh'; split; cbn in *; rewrite ?Hh, ?Hh'; try done; auto]).

Section critical_sections.
Local Opaque wrap_u64.
Lemma installed_ok url sv : sv_state sv = StateDisconnected -> changed sv (installed (mkHub (sv_fresh sv) url) sv) None None.
Proof.
  fields.
  - by intros x [= <-]; cbn; lia.
  - right. by eexists.
Qed.
Lemma unplanned_ok sv h : changed sv (with_planned None sv) h h.
Proof. fields. Qed.
Lemma pinned_ok pin sv : changed sv (with_planned None (with_pinned pin (new_generation sv))) None None.
Proof. fields. intros x Hx. apply so_fresh0 in Hx. lia. Qed.
Lemma generation_ok sv : changed sv (with_planned None (new_generation sv)) None None.
Proof. fields. Qed.
Lemma tunnel_ok tu sv : sv_state sv = StateDisconnected -> changed sv (with_tunnel tu sv) None None.
Proof. fields. Qed.
Lemma trusted_ok keys sv : changed sv (SetTrustedHubPubkeys keys sv) None None.
Proof. fields. Qed.
Lemma connecting_ok sv : sv_state sv = StateDisconnected -> changed sv (with_state StateConnecting sv) None (Some StateConnecting).
Proof. fields. Qed.
Lemma routed_ok ro sv : sv_state sv = StateConnecting -> changed sv (with_route ro sv) (Some StateConnecting) (Some StateConnecting).
Proof. fields. Qed.
Lemma endConnect_ok r sv : sv_state sv = StateConnecting -> is_ok r = is_some (sv_route sv) ->
  changed sv (endConnect r sv) (Some StateConnecting) None.
Proof. destruct r as [x|e]; fields; by destruct sv_route0. Qed.
Lemma same_ok sv h : changed sv sv h h.
Proof. intros Hok. split; [done|]. intros th th' Hh Hh'. apply frame_same. congruence. Qed.
Lemma disconnecting_ok sv : sv_state sv = StateConnected -> changed sv (with_state StateDisconnecting sv) None (Some StateDisconnecting).
Proof. fields. Qed.
Lemma endDisconnect_ok sv : sv_state sv = StateDisconnecting -> changed sv (endDisconnect sv) (Some StateDisconnecting) None.
Proof. fields. Qed.
Lemma topped_ok s s' sv : sv_session sv = Some s -> changed sv (with_session (Some s') sv) None None.
Proof. fields. Qed.
Lemma planned_ok pl sv : sv_state sv = StateDisconnected -> sv_pinned sv = None -> pl_from pl = sv_wallet sv ->
  changed sv (with_planned (Some pl) sv) None None.
Proof. fields. by intros ? [= <-]. Qed.
End critical_sections.

Section service_invariant.
Context (url_Parse : string -> option URL) (JoinHostPort : string -> string -> string) (st : settings).

Lemma thread_step_ok sv th sv' th' : thread_step url_Parse JoinHostPort st sv th sv' th' ->
  service_ok sv -> thread_ok sv th -> (forall x, holds th = Some x -> sv_state sv = x) ->
  thread_ok sv' th' /\ changed sv sv' (holds th) (holds th').
Proof.
  destruct 1 as [| |sv url balance sv' r H|sv pin sv' r H|sv tu sv' r H|sv keys|sv n|sv n w sv' r H|sv w p sv' p' H| |sv r|sv r|sv|sv sv' r H|
    | |sv n|sv n w|sv n w p sv' p' H| |sv n w entry exit_ sv' r H|sv sv' r H|sv hub0 g [nodes|e]|sv hub0 g from nodes rnd|sv hub0 g from pinned chosen sv' r H];
    intros Hok Hth Hst; try solve [split; [done|apply same_ok]].
  - unfold installHub in H. destruct (sv_state sv) eqn:Hs; simplify_eq; try solve [split; [done|apply same_ok]].
    destruct balance; (split; [done|by apply installed_ok]).
  - unfold SetPinnedPair in H. destruct (check_pin pin); simplify_eq; (split; [done|]); [apply pinned_ok|apply same_ok].
  - unfold SetTunnel in H. destruct (sv_state sv) eqn:Hs; simplify_eq; (split; [done|]); [by apply tunnel_ok|apply same_ok..].
  - split; [done|apply trusted_ok].
  - destruct (n =? 0), (currentWallet sv); (split; [done|apply same_ok]).
  - unfold beginConnect in H. destruct (sv_state sv) eqn:Hs; simplify_eq; try solve [split; [done|apply same_ok]].
    split; [|by apply connecting_ok]. destruct sv, Hok as [_ Hro _ _ _ _]; cbn in *; subst; cbn in *; subst. apply connect_routes.
  - destruct (prog_step_routes _ _ _ _ _ H Hth) as [Hth' [ro ->]]. split; [done|]. apply routed_ok. by apply Hst.
  - split; [|apply same_ok]. cbn in Hth. by rewrite orb_false_r in Hth.
  - split; [by destruct sv|apply unplanned_ok].
  - destruct r; (split; [done|]); apply endConnect_ok; auto.
  - destruct (sv_state sv); (split; [done|apply same_ok]).
  - unfold beginDisconnect in H. destruct (sv_state sv) eqn:Hs; simplify_eq; (split; [done|]); [apply same_ok..|by apply disconnecting_ok|apply same_ok].
  - split; [done|]. apply endDisconnect_ok. by apply Hst.
  - destruct (n =? 0), (currentWallet sv); (split; [done|apply same_ok]).
  - destruct (beginExtend sv); (split; [|apply same_ok]); [apply extend_quiet|done].
  - destruct (prog_step_quiet _ _ _ _ _ H Hth) as [-> Hth']. split; [done|apply same_ok].
  - unfold endExtend in H. destruct (sv_session sv) as [s|] eqn:Hs; [destruct (_ || _)|]; simplify_eq; (split; [done|]);
      [apply same_ok|by eapply topped_ok|apply same_ok].
  - unfold beginPrepare in H. destruct (sv_state sv); simplify_eq; try solve [split; [done|apply same_ok]].
    split; [|apply generation_ok]. destruct (generation_ok sv Hok) as [Hok' _]. cbn [next thread_ok]. rewrite (so_hub _ Hok'). apply so_fresh, Hok'.
  - split; [|apply same_ok]. split; [exact Hth|]. intros _. apply so_selector, Hok.
  - destruct (choosePrepared _ _ _ _ _) as [[pinned chosen]|e]; (split; [done|apply same_ok]).
  - unfold keepPrepared in H. destruct (sv_state sv) eqn:Hs; try solve [simplify_eq; split; [done|apply same_ok]].
    destruct (same_hub hub0 sv) eqn:Hh; cbn [negb orb] in H; [|simplify_eq; split; [done|apply same_ok]].
    destruct (_ || _); [simplify_eq; split; [done|apply same_ok]|]. destruct (sv_pinned sv) eqn:Hp; simplify_eq; (split; [done|]); [apply same_ok|].
    apply planned_ok; [done|done|]. apply bool_decide_eq_true in Hh. rewrite (so_hub _ Hok) in Hh. by apply Hth.
Qed.

(** *** The whole system *)
Record system_ok (s : system) : Prop := {
  sy_service_ok : service_ok (sy_service s);
  sy_thread_ok : forall i th, sy_threads s !! i = Some th -> thread_ok (sy_service s) th;
  (** a transient state is held by exactly one call *)
  sy_held : forall i th x, sy_threads s !! i = Some th -> holds th = Some x -> sv_state (sy_service s) = x;
  sy_unique : forall i j th th', sy_threads s !! i = Some th -> sy_threads s !! j = Some th' ->
    is_some (holds th) = true -> is_some (holds th') = true -> i = j;
  sy_owner : transient (sv_state (sy_service s)) = true ->
    exists i th, sy_threads s !! i = Some th /\ holds th = Some (sv_state (sy_service s))
}.

(** A call that holds no state is as good after another's step. *)
Lemma thread_ok_frame sv th sv' th' other : frame sv th sv' th' -> (is_some (holds other) = true -> sv_route sv' = sv_route sv) ->
  thread_ok sv other -> thread_ok sv' other.
Proof.
  intros [Hf Hh _ _ _] Hr Hok.
  assert (forall h, known (sv_fresh sv) h -> known (sv_fresh sv') h) as Hk by (intros h H x Hx; specialize (H x Hx); lia).
  assert (forall h from, fetched_here sv h from -> fetched_here sv' h from) as Hfh.
  { intros h from [Hkn Heq]. split; [auto|]. destruct Hh as [->|(h' & -> & Hnew)]; [exact Heq|]. cbn. intros H.
    destruct h as [h|]; [|done]. specialize (Hkn h eq_refl). injection H as H. lia. }
  destruct other; cbn in *; auto; try (rewrite Hr; [exact Hok|done]).
Qed.

Lemma step_by_ok i s s' : step_by url_Parse JoinHostPort st i s s' -> system_ok s -> system_ok s' /\ exists th th', frame (sy_service s) th (sy_service s') th'.
Proof.
  destruct s as [sv ts], s' as [sv' ts']. intros (th & th' & Hi & Hstep & Hts) [Hok Hth Hheld Huniq Hown]. cbn in *. subst ts'.
  destruct (thread_step_ok _ _ _ _ Hstep Hok (Hth _ _ Hi) (fun x => Hheld _ _ x Hi)) as [Hth' Hch].
  destruct (Hch Hok) as [Hok' Hfr]. specialize (Hfr th th' eq_refl eq_refl). split; [|by do 2 eexists].
  assert (forall j other, <[i:=th']> ts !! j = Some other -> j = i /\ other = th' \/ j <> i /\ ts !! j = Some other) as Hlook
    by (intros j other; rewrite lookup_insert_Some; intros [[<- <-]|[??]]; [by left|by right]).
  assert (forall j other, j <> i -> ts !! j = Some other -> is_some (holds other) = true -> holds th = None) as Hother.
  { intros j other Hj Ho Hh. destruct (holds th) eqn:Ht; [|done]. destruct Hj. eapply Huniq; [done..|by rewrite Ht]. }
  assert (forall j other, j <> i -> ts !! j = Some other -> is_some (holds other) = true -> holds th' = None) as Hgone.
  { intros j other Hj Ho Hh. pose proof (Hother j other Hj Ho Hh) as Hn.
    destruct (fr_owner _ _ _ _ Hfr) as [[-> _]|[(Hc & _ & _)|(_ & _ & ->)]]; [done| |done].
    apply claims_spec in Hc as [Hc _]. destruct (holds other) as [x|] eqn:Hx; [|done].
    by rewrite (Hheld _ _ _ Ho Hx), (holds_transient _ _ Hx) in Hc. }
  split; cbn; [done|..].
  - intros j other [[-> ->]|[Hj Ho]]%Hlook; [done|]. eapply thread_ok_frame; [done| |by eapply Hth]. intros Hh.
    destruct (fr_route _ _ _ _ Hfr) as [|Hth0]; [done|]. by rewrite (Hother j other) in Hth0.
  - intros j other x [[-> ->]|[Hj Ho]]%Hlook Hx; destruct (fr_owner _ _ _ _ Hfr) as [[Hsame ->]|[(Hc & Hn & Hs)|(Hc & Hs & Hn)]].
    + rewrite Hsame in Hx. by eapply Hheld.
    + congruence.
    + congruence.
    + by eapply Hheld.
    + apply claims_spec in Hc as [Hc _]. rewrite (Hheld _ _ _ Ho Hx), (holds_transient _ _ Hx) in Hc. done.
    + rewrite (Hother j other Hj Ho) in Hs; [done|by rewrite Hx].
  - intros j k o o' [[-> ->]|[Hj Ho]]%Hlook [[-> ->]|[Hk Ho']]%Hlook Ho1 Ho2; [done| | |by eapply Huniq].
    + by rewrite (Hgone k o') in Ho1.
    + by rewrite (Hgone j o) in Ho2.
  - intros Ht. destruct (fr_owner _ _ _ _ Hfr) as [[Hsame Heq]|[(_ & _ & Hs)|(Hc & _ & _)]].
    + rewrite Heq in *. destruct (Hown Ht) as (j & other & Ho & Hx). destruct (decide (j = i)) as [->|Hj].
      * exists i, th'. rewrite lookup_insert_eq, Hsame. by simplify_eq.
      * exists j, other. by rewrite lookup_insert_ne.
    + exists i, th'. by rewrite lookup_insert_eq.
    + apply releases_spec in Hc as [_ Hc]. congruence.
Qed.

Lemma start_ok tu : system_ok (start st tu).
Proof. split; [split|..]; cbn; try done; intros; simplify_map_eq. Qed.
Lemma step_ok s s' : step url_Parse JoinHostPort st s s' -> system_ok s -> system_ok s'.
Proof.
  destruct 1 as [[sv ts] i th Hi Hcall|i s s' Hstep]; [|intros Hok; by destruct (step_by_ok _ _ _ Hstep Hok)].
  cbn in *. assert (holds th = None) as Hn by (by destruct th). intros [Hok Hth Hheld Huniq Hown]. cbn in *.
  assert (forall j other, <[i:=th]> ts !! j = Some other -> other = th \/ ts !! j = Some other) as Hlook
    by (intros j other; rewrite lookup_insert_Some; intros [[<- <-]|[??]]; [by left|by right]).
  split; cbn; [done|..].
  - intros j other [->|Ho]%Hlook; [by destruct th|by eapply Hth].
  - intros j other x [->|Ho]%Hlook Hx; [congruence|by eapply Hheld].
  - intros j k o o' [->|Ho]%Hlook [->|Ho']%Hlook Ho1 Ho2; [by rewrite Hn in Ho1..| |by eapply Huniq].
    by rewrite Hn in Ho2.
  - intros Ht. destruct (Hown Ht) as (j & other & Ho & Hx). exists j, other. rewrite lookup_insert_ne; [done|]. by intros ->; rewrite Hi in Ho.
Qed.
Lemma reachable_ok s : reachable url_Parse JoinHostPort st s -> system_ok s.
Proof.
  intros [tu Hs]. apply rtc_ind_r with (P := system_ok) in Hs; [done|apply start_ok|]. intros s1 s2 _ Hstep. by apply step_ok.
Qed.
End service_invariant.

(** ** Theorems *)
Section service_theorems.
Context (url_Parse : string -> option URL) (JoinHostPort : string -> string -> string) (st : settings).
Abbreviation reachable := (reachable url_Parse JoinHostPort st).
Abbreviation step := (step url_Parse JoinHostPort st).
Abbreviation step_by := (step_by url_Parse JoinHostPort st).

(** C17: the service's fields agree at every point of every interleaving. A session
    and the route Extend needs exist exactly while the state is connected or
    disconnecting, a disconnected service has no route, the wallet, the node
    selector and the hub's info are of one hub, and a pair planned for the next
    connect is of that hub and there only while no pair is pinned. *)
Theorem service_consistent s (Hs : reachable s) :
  let sv := sy_service s in
  (is_Some (sv_session sv) <-> sv_state sv = StateConnected \/ sv_state sv = StateDisconnecting) /\
  (sv_state sv = StateConnected \/ sv_state sv = StateDisconnecting -> is_Some (sv_route sv)) /\
  (sv_state sv = StateDisconnected -> sv_route sv = None) /\
  sv_selector sv = sv_wallet sv /\ sv_hubInfo sv = sv_wallet sv /\
  (forall pl, sv_planned sv = Some pl -> sv_pinned sv = None /\ pl_from pl = sv_wallet sv).
Proof.
  destruct (reachable_ok _ _ _ _ Hs) as [[Hss Hro Hse Hhi Hpl _] _ _ _ _]. cbn zeta. rewrite Hse, Hhi.
  rewrite !is_some_true, Hss. split_and!; [| | |done|done|done]; destruct (sv_state _); intuition congruence.
Qed.

(** C18: one operation at a time moves the connection. Every step leaves the state,
    or begins a connect or a disconnect from a settled state, or ends the one
    going on; two calls are never both in one. Until the service is disconnected
    again, no call replaces the hub, the wallet, the selector or the tunnel that
    the operation reads without the mutex, and nothing replaces the route of a
    live session. *)
Theorem transitions_exclusive s s' (Hs : reachable s) (Hstep : step s s') :
  let sv := sy_service s in let sv' := sy_service s' in
  (sv_state sv' = sv_state sv \/ claims (sv_state sv) (sv_state sv') = true \/ releases (sv_state sv) (sv_state sv') = true) /\
  (sv_state sv <> StateDisconnected ->
    sv_wallet sv' = sv_wallet sv /\ sv_selector sv' = sv_selector sv /\ sv_hubInfo sv' = sv_hubInfo sv /\ sv_tunnel sv' = sv_tunnel sv) /\
  (sv_state sv = StateConnected -> sv_route sv' = sv_route sv) /\
  forall i j th th', sy_threads s !! i = Some th -> sy_threads s !! j = Some th' ->
    is_Some (holds th) -> is_Some (holds th') -> i = j.
Proof.
  pose proof (reachable_ok _ _ _ _ Hs) as Hok. pose proof (step_ok _ _ _ _ _ Hstep Hok) as Hok'. cbn zeta.
  rewrite (so_selector _ (sy_service_ok _ Hok)), (so_hub _ (sy_service_ok _ Hok)), (so_selector _ (sy_service_ok _ Hok')), (so_hub _ (sy_service_ok _ Hok')).
  assert (forall i j th th', sy_threads s !! i = Some th -> sy_threads s !! j = Some th' -> is_Some (holds th) -> is_Some (holds th') -> i = j) as Hu.
  { intros i j th th' Hi Hj [x Hx] [y Hy]. eapply (sy_unique _ Hok); [done..|by rewrite Hx|by rewrite Hy]. }
  inversion Hstep as [? ? th Hi Hcall|i ? ? Hby]; subst; cbn [sy_service]; [by split_and!; auto|].
  destruct (step_by_ok _ _ _ _ _ _ Hby Hok) as (_ & th & th' & [_ _ Hr Hf Ho]). split; [|split; [|split; [|done]]].
  - destruct Ho as [[_ ->]|[[Hc _]|[Hc _]]]; auto.
  - intros Hn. destruct (Hf Hn) as [-> ->]. done.
  - intros Hc. destruct Hr as [|Ht]; [done|]. apply holds_transient in Ht. by rewrite Hc in Ht.
Qed.

(** What is displayed is what is paid. When a connect chooses its pair, with a
    pair pinned by the user it gets exactly those nodes; otherwise, with a pair
    planned by PreparePair, it gets exactly the nodes of the plan, and the plan was
    made from the nodes of the hub the service is still connected to. *)
Theorem displayed_pair_paid s sv' p (Hs : reachable s) (Hchoose : perform st (sy_service s) ESelectPair (Ok p) sv') :
  let sv := sy_service s in
  (forall pin, sv_pinned sv = Some pin -> n_ID (np_Entry p) = pn_EntryID (pr_pair pin) /\ n_ID (np_Exit p) = pn_ExitID (pr_pair pin)) /\
  (forall pl, sv_planned sv = Some pl ->
    n_ID (np_Entry p) = pn_EntryID (pl_pair pl) /\ n_ID (np_Exit p) = pn_ExitID (pl_pair pl) /\ pl_from pl = sv_selector sv).
Proof.
  destruct (sy_service_ok _ (reachable_ok _ _ _ _ Hs)) as [_ _ Hse _ Hpl _]. cbn zeta. destruct Hchoose as [-> (rnd & [nodes|e] & Hp)]; [|done].
  symmetry in Hp. cbn [mbind result_mbind] in Hp. apply choose_Ok in Hp as (e & x & (_ & _ & _ & _ & _ & _ & _ & _ & _ & -> & -> & _) & Hids).
  unfold PinnedPair_ in Hids. split.
  - intros pin Hpin. apply Hids. left. by rewrite Hpin.
  - intros pl H. destruct (Hpl pl H) as [Hn Hf]. destruct (Hids (pl_pair pl)) as [He Hx]; [right; by rewrite Hn, H|]. split_and!; congruence.
Qed.

(** *** An operation that was begun ends *)
(** Whatever the effects answer, the steps of call [i] alone lead to [P], and none
    of them gets stuck before. *)
Inductive settles_by (i : nat) (P : system -> Prop) : system -> Prop :=
| settled s : P s -> settles_by i P s
| settles_step s : (exists s', step_by i s s') -> (forall s', step_by i s s' -> settles_by i P s') -> settles_by i P s.

Lemma perform_some sv {R} (e : eff R) : exists r sv', perform st sv e r sv'.
Proof.
  destruct (eff_answer e) as [r].
  destruct e; try (by exists r, sv); [|by eexists tt, _].
  exists (Err (ServiceErr "")), sv. split; [done|]. by exists (fun _ => None), (Err (ServiceErr "")).
Qed.
Lemma connecting_inv sv w p sv' th' : thread_step url_Parse JoinHostPort st sv (Connecting w p) sv' th' ->
  (exists p', prog_step st sv p sv' p' /\ th' = Connecting w p') \/ (exists r, p = Ret r /\ sv' = sv /\ th' = ConnectReturned r).
Proof. inversion 1; subst; [left; by eexists|right; by eexists]. Qed.

(** The steps of a call are those of its thread. *)
Lemma settles_thread i P sv ts th : ts !! i = Some th ->
  (exists sv' th', thread_step url_Parse JoinHostPort st sv th sv' th') ->
  (forall sv' th', thread_step url_Parse JoinHostPort st sv th sv' th' -> settles_by i P (mkSystem sv' (<[i := th']> ts))) ->
  settles_by i P (mkSystem sv ts).
Proof.
  intros Hi (sv' & th' & Hstep) Hall. apply settles_step.
  - exists (mkSystem sv' (<[i := th']> ts)). by exists th, th'.
  - intros [sv1 ts1] (th0 & th1 & Hi' & Hs & Hts). cbn in *. simplify_eq. by apply Hall.
Qed.

Definition quiescent (s : system) : Prop := transient (sv_state (sy_service s)) = false.

Lemma returned_settles i sv ts r : ts !! i = Some (ConnectReturned r) -> settles_by i quiescent (mkSystem sv ts).
Proof.
  intros Hi. eapply settles_thread; [done|do 2 eexists; constructor|]. intros sv1 th1 Hstep. inversion Hstep; subst.
  eapply settles_thread; [apply lookup_insert_eq|do 2 eexists; constructor|]. intros sv2 th2 Hstep2. inversion Hstep2; subst.
  apply settled. unfold quiescent. cbn. by destruct sv, r.
Qed.
Lemma connecting_settles i sv ts w p : ts !! i = Some (Connecting w p) -> settles_by i quiescent (mkSystem sv ts).
Proof.
  revert sv ts. induction p as [r|R e k IH]; intros sv ts Hi.
  - eapply settles_thread; [done|do 2 eexists; by constructor|].
    intros sv1 th1 [(p' & [] & _)|(r' & [= <-] & -> & ->)]%connecting_inv. eapply returned_settles, lookup_insert_eq.
  - eapply settles_thread; [done| |].
    + destruct (perform_some sv e) as (r & sv' & Hp). do 2 eexists. apply step_connect_effect. by exists r.
    + intros sv1 th1 [(p' & (r & _ & ->) & ->)|(r' & [=] & _)]%connecting_inv. eapply IH, lookup_insert_eq.
Qed.
Lemma torndown_settles i sv ts r : ts !! i = Some (TornDown r) -> settles_by i quiescent (mkSystem sv ts).
Proof.
  intros Hi. eapply settles_thread; [done|do 2 eexists; constructor|]. intros sv1 th1 Hstep. inversion Hstep; subst.
  apply settled. unfold quiescent. cbn. by destruct sv.
Qed.

(** C19: connecting and disconnecting end. While the service is connecting or
    disconnecting there is a call whose own steps, whatever the wallet, the nodes,
    the relays and the tunnel answer, are never stuck and bring the service to
    connected or disconnected. *)
Theorem transition_completes s (Hs : reachable s) (Hmid : transient (sv_state (sy_service s)) = true) :
  exists i, settles_by i quiescent s.
Proof.
  destruct (sy_owner _ (reachable_ok _ _ _ _ Hs) Hmid) as (i & th & Hi & Hh). exists i. destruct s as [sv ts]. cbn in *.
  destruct th; try done.
  - by eapply connecting_settles.
  - by eapply returned_settles.
  - eapply settles_thread; [done|do 2 eexists; constructor|]. intros sv1 th1 Hstep. inversion Hstep; subst.
    apply settled. unfold quiescent. cbn. by destruct sv, r.
  - eapply settles_thread; [done|do 2 eexists; by apply (step_teardown _ _ _ _ (Ok tt))|]. intros sv1 th1 Hstep. inversion Hstep; subst.
    eapply torndown_settles, lookup_insert_eq.
  - by eapply torndown_settles.
Qed.
End service_theorems.

(** ** Calls run to their end *)
Section walks.
Context (url_Parse : string -> option URL) (JoinHostPort : string -> string -> string) (st : settings).
Abbreviation thread_step := (thread_step url_Parse JoinHostPort st).
Abbreviation step := (step url_Parse JoinHostPort st).

Definition walks (a b : Service * thread) : Prop := rtc (fun a b => thread_step a.1 a.2 b.1 b.2) a b.
Lemma walk_one sv th sv1 th1 b : thread_step sv th sv1 th1 -> walks (sv1, th1) b -> walks (sv, th) b.
Proof. intros H. by apply (rtc_l _ _ (sv1, th1)). Qed.
Lemma walk_done a : walks a a.
Proof. apply rtc_refl. Qed.
Lemma walks_app a b c : walks a b -> walks b c -> walks a c.
Proof. unfold walks. intros. by etrans. Qed.

(** A call that is in the system walks there, whatever else is. *)
Lemma walks_steps i ts a b : walks a b -> ts !! i = Some a.2 -> rtc step (mkSystem a.1 ts) (mkSystem b.1 (<[i := b.2]> ts)).
Proof.
  intros H. revert ts. induction H as [[sv th]|[sv th] [sv1 th1] c Hstep _ IH]; intros ts Hi; cbn in *; [by rewrite insert_id|].
  apply (rtc_l _ _ (mkSystem sv1 (<[i:=th1]> ts))); [apply (step_thread _ _ _ i); by exists th, th1|]. replace (<[i:=c.2]> ts) with (<[i:=c.2]> (<[i:=th1]> ts))
    by apply insert_insert_eq. apply IH, lookup_insert_eq.
Qed.
Lemma call_steps i ts sv th b : ts !! i = None -> is_call th = true -> walks (sv, th) b ->
  rtc step (mkSystem sv ts) (mkSystem b.1 (<[i := b.2]> ts)).
Proof.
  intros Hi Hc Hw. eapply rtc_l; [by apply (step_call _ _ _ _ i th)|].
  replace (<[i:=b.2]> ts) with (<[i:=b.2]> (<[i:=th]> ts)) by apply insert_insert_eq.
  apply (walks_steps _ _ _ _ Hw), lookup_insert_eq.
Qed.

(** A handler that answers as the service does. *)
Definition serves (h : handler Service) : Prop := forall R (e : eff R) sv, perform st sv e (h R e sv).1 (h R e sv).2.
Lemma run_walks (h : handler Service) (Hh : serves h) {A} (p : prog A) (at_prog : prog A -> thread)
    (Hat : forall sv p sv' p', prog_step st sv p sv' p' -> thread_step sv (at_prog p) sv' (at_prog p')) sv :
  walks (sv, at_prog p) ((run h p sv).1.2, at_prog (Ret (run h p sv).1.1)).
Proof.
  revert sv. induction p as [a|R e k IH]; intros sv; cbn [run]; [apply walk_done|].
  pose proof (Hh R e sv) as Hp. destruct (h R e sv) as [r sv1]. cbn in Hp. specialize (IH r sv1).
  destruct (run h (k r) sv1) as [[a sv2] t]. eapply walk_one; [|exact IH]. apply Hat. by exists r.
Qed.

Lemma hub_walk url sv : sv_state sv = StateDisconnected ->
  walks (sv, CallConnectHub url) (installed (mkHub (sv_fresh sv) url) sv, Returned (Ok (RHub url))).
Proof.
  intros Hs. eapply walk_one; [apply step_hub_ready|]. eapply walk_one; [|apply walk_done].
  apply (step_hub_install _ _ _ sv url (Ok tt) _ (Ok (mkHub (sv_fresh sv) url))). unfold installHub. by rewrite Hs.
Qed.
Lemma wallet_walk n sv w : n <> 0 -> sv_wallet sv = Some w -> walks (sv, CallConnect n) (sv, ConnectWallet n w).
Proof.
  intros Hn Hw. eapply walk_one; [apply step_connect_wallet|]. apply Z.eqb_neq in Hn. rewrite Hn. unfold currentWallet. rewrite Hw. apply walk_done.
Qed.
Lemma begin_walk n w sv : sv_state sv = StateDisconnected ->
  walks (sv, ConnectWallet n w)
    (with_state StateConnecting sv, Connecting w (connect url_Parse JoinHostPort (tu_caps (sv_tunnel sv)) st n)).
Proof.
  intros Hs. eapply walk_one; [|apply walk_done]. apply (step_connect_begin _ _ _ _ _ _ _ (Ok tt)). unfold beginConnect. by rewrite Hs.
Qed.
(** Connect, from the call to its return, over a handler of the effects. *)
Lemma connect_walk (h : handler Service) (Hh : serves h) n sv w : n <> 0 -> sv_state sv = StateDisconnected -> sv_wallet sv = Some w ->
  let ran := run h (connect url_Parse JoinHostPort (tu_caps (sv_tunnel sv)) st n) (with_state StateConnecting sv) in
  walks (sv, CallConnect n)
    (endConnect ran.1.1 (with_planned None ran.1.2), next ran.1.1 (fun s => Returned (Ok (RSession s)))).
Proof.
  intros Hn Hs Hw. eapply walks_app; [by apply wallet_walk|]. eapply walks_app; [by apply begin_walk|].
  eapply walks_app; [apply (run_walks h Hh _ (Connecting w)); by constructor|].
  eapply walk_one; [apply step_connect_return|]. eapply walk_one; [apply step_connect_unplan|].
  eapply walk_one; [apply step_connect_end|apply walk_done].
Qed.
Lemma disconnect_walk sv : sv_state sv = StateConnected -> walks (sv, CallDisconnect) (endDisconnect sv, Returned (Ok RDone)).
Proof.
  intros Hs. eapply walk_one; [apply (step_disconnect _ _ _ _ (with_state StateDisconnecting sv) (Ok tt)); unfold beginDisconnect; by rewrite Hs|].
  eapply walk_one; [apply (step_teardown _ _ _ _ (Ok tt))|]. destruct (ca_present _).
  all: eapply walk_one; [apply step_torndown|]; destruct sv; apply walk_done.
Qed.

End walks.

(** The next steps of a run: call [i] is made and walks as [w] says. *)
Ltac call i w := etrans; [eapply (call_steps _ _ _ i); cycle 2; [apply w|reflexivity|reflexivity]|cbn [fst snd]].

Section findings.
Context (url_Parse : string -> option URL) (JoinHostPort : string -> string -> string) (st : settings).

(** Finding: Connect reads the wallet before it claims the state. When the hub is
    switched in between, the connect that is let in afterwards chooses nodes of the
    new hub and pays them from the old hub's wallet. *)
Theorem stale_wallet_pays tu n (Hn : n <> 0) : exists s i w h,
  reachable url_Parse JoinHostPort st s /\
  sy_threads s !! i = Some (Connecting w (connect url_Parse JoinHostPort (tu_caps tu) st n)) /\
  sv_wallet (sy_service s) = Some h /\ sv_selector (sy_service s) = Some h /\ hb_URL w = "a"%string /\ hb_URL h = "b"%string.
Proof.
  set (sv0 := new_service tu st). set (sv1 := installed (mkHub 0 "a") sv0). set (sv2 := installed (mkHub 1 "b") sv1).
  exists (mkSystem (with_state StateConnecting sv2)
    (<[1%nat := Connecting (mkHub 0 "a") (connect url_Parse JoinHostPort (tu_caps tu) st n)]>
      (<[2%nat := Returned (Ok (RHub "b"))]> (<[1%nat := ConnectWallet n (mkHub 0 "a")]> (<[0%nat := Returned (Ok (RHub "a"))]> ∅))))),
    1%nat, (mkHub 0 "a"), (mkHub 1 "b"). split_and!; [|apply lookup_insert_eq|done..].
  exists tu. call 0%nat (hub_walk url_Parse JoinHostPort st "a" sv0 eq_refl). call 1%nat (wallet_walk url_Parse JoinHostPort st n sv1 _ Hn eq_refl). call 2%nat (hub_walk url_Parse JoinHostPort st "b" sv1 eq_refl).
  apply (walks_steps _ _ _ 1 _ _ _ (begin_walk url_Parse JoinHostPort st n (mkHub 0 "a") sv2 eq_refl)). reflexivity.
Qed.
End findings.

(** ** A client with two nodes in reach *)
Definition near (id : string) (role : NodeRole) : NodeInfo :=
  mkNode id id "wg" "198.51.100.7:51820" "https://node" [] "" 0 100 80 3 10 role "1" id "".
Definition near_nodes : list NodeInfo := [near "a" RoleEntry; near "b" RoleExit].
(** Both nodes take every payment and keep to one tunnel address. *)
Definition near_handler : handler Service := fun R e sv =>
  match e in eff R return R * Service with
  | ESelectPair => (choose_pair (fun _ => Some 0%nat) toy_http (PinnedPair_ sv) (pl_pair <$> sv_planned sv) near_nodes, sv)
  | ESetRoute route => (tt, with_route (Some route) sv)
  | e => ((toy_handler (Ok (mkResult "10.0.0.2" "wg" 1000)) _ e 0%nat).1, sv)
  end.
Lemma near_serves : serves toy_http near_handler.
Proof. intros R e sv. destruct e; try reflexivity. split; [reflexivity|]. by exists (fun _ => Some 0%nat), (Ok near_nodes). Qed.

Definition near_tunnel : tunnel := mkTunnel 0 toy_caps.
Definition near_hub : Service := installed (mkHub 0 "hub") (new_service near_tunnel toy_http).
Definition near_connect (sv : Service) : Service :=
  let ran := run near_handler (connect toy_url String.append toy_caps toy_http 8) (with_state StateConnecting sv) in
  endConnect ran.1.1 (with_planned None ran.1.2).
Definition near_up : Service := near_connect near_hub.

Abbreviation near_reachable := (reachable toy_url String.append toy_http).
Abbreviation near_step := (step toy_url String.append toy_http).

Lemma near_connect_walk sv : sv_tunnel sv = near_tunnel -> sv_state sv = StateDisconnected -> sv_wallet sv = Some (mkHub 0 "hub") ->
  exists th, walks toy_url String.append toy_http (sv, CallConnect 8) (near_connect sv, th).
Proof.
  intros Ht Hs Hw. eexists. pose proof (connect_walk toy_url String.append toy_http near_handler near_serves 8 sv _ ltac:(done) Hs Hw) as H.
  rewrite Ht in H. exact H.
Qed.

Definition near_route : liveRoute :=
  mkRoute (mkPair (near "a" RoleEntry) (near "b" RoleExit) TransportWireGuard) "198.51.100.7" "k1" "k2".
Definition near_result : ConnectResult := mkResult "10.0.0.2" "wg" 1000.
Definition near_paid : thread := Extending 8 (mkHub 0 "hub") (Ret (Ok (near_result, near_result))).
Lemma near_extend_walk : walks toy_url String.append toy_http (near_up, CallExtend 8) (near_up, near_paid).
Proof.
  eapply walk_one; [apply step_extend_wallet|]. eapply walk_one; [apply step_extend_begin|].
  change (next (beginExtend near_up) _) with (Extending 8 (mkHub 0 "hub") (extend_payments toy_http near_route 8)).
  refine (run_walks toy_url String.append toy_http near_handler near_serves _ (Extending 8 (mkHub 0 "hub")) _ near_up). by constructor.
Qed.

(** Finding: Extend does not tell sessions apart. Payments made for one session are
    credited to the next one, when the client reconnected before they were
    confirmed and the nodes gave it the same tunnel addresses again. *)
Theorem extend_crosses_sessions : exists s0 s1 s2 s3 ss ss',
  near_reachable s0 /\ sy_threads s0 !! 2%nat = Some near_paid /\ rtc near_step s0 s1 /\
  sv_session (sy_service s1) = None /\ rtc near_step s1 s2 /\ sv_session (sy_service s2) = Some ss /\
  near_step s2 s3 /\ sv_session (sy_service s3) = Some ss' /\ se_SpentSats ss = 16 /\ se_SpentSats ss' = 32.
Proof.
  destruct (near_connect_walk near_hub eq_refl eq_refl eq_refl) as [th1 W1].
  destruct (near_connect_walk (endDisconnect near_up) eq_refl eq_refl eq_refl) as [th2 W2].
  set (ts0 := <[1%nat := th1]> (<[0%nat := Returned (Ok (RHub "hub"))]> (∅ : gmap nat thread))).
  set (ts1 := <[3%nat := Returned (Ok RDone)]> (<[2%nat := near_paid]> ts0)). set (ts2 := <[4%nat := th2]> ts1).
  set (up2 := near_connect (endDisconnect near_up)).
  exists (mkSystem near_up (<[2%nat := near_paid]> ts0)), (mkSystem (endDisconnect near_up) ts1), (mkSystem up2 ts2).
  eexists (mkSystem _ _), _, _. split_and!.
  - exists near_tunnel. call 0%nat (hub_walk toy_url String.append toy_http "hub" (new_service near_tunnel toy_http) eq_refl).
    call 1%nat W1. call 2%nat near_extend_walk. reflexivity.
  - apply lookup_insert_eq.
  - call 3%nat (disconnect_walk toy_url String.append toy_http near_up eq_refl). reflexivity.
  - reflexivity.
  - call 4%nat W2. reflexivity.
  - vm_compute. reflexivity.
  - apply (step_thread _ _ _ 2). exists near_paid. eexists. split; [reflexivity|]. split; [|reflexivity].
    apply (step_extend_end _ _ _ up2). vm_compute. reflexivity.
  - vm_compute. reflexivity.
  - reflexivity.
  - reflexivity.
Qed.

(** A service in the middle of a connect, after the pair was planned. *)
Definition near_plan : Service :=
  with_planned (Some (mkPlan (mkPin "a" "b") (Some (mkHub 0 "hub")))) (new_generation near_hub).
Definition near_pair : NodePair := mkPair (near "a" RoleEntry) (near "b" RoleExit) TransportWireGuard.
Lemma near_plan_walk : walks toy_url String.append toy_http (near_hub, CallPreparePair) (near_plan, Returned (Ok (RPair near_pair))).
Proof.
  eapply walk_one; [by apply (step_prepare_begin _ _ _ _ _ (Ok (Some (mkHub 0 "hub"), 2)))|].
  eapply walk_one; [apply (step_prepare_fetch _ _ _ _ _ _ (Ok near_nodes))|].
  eapply walk_one; [apply (step_prepare_choose _ _ _ _ _ _ _ _ (fun _ => Some 0%nat))|].
  change (next (choosePrepared _ _ _ _ _) _) with (PrepareKeep (Some (mkHub 0 "hub")) 2 (Some (mkHub 0 "hub")) None near_pair).
  eapply walk_one; [by apply (step_prepare_keep _ _ _ _ _ _ _ _ _ near_plan (Ok near_pair))|apply walk_done].
Qed.
Definition near_connecting : thread :=
  Connecting (mkHub 0 "hub") (connect toy_url String.append toy_caps toy_http 8).
Definition near_mid : system := mkSystem (with_state StateConnecting near_plan)
  (<[2%nat := near_connecting]> (<[1%nat := Returned (Ok (RPair near_pair))]> (<[0%nat := Returned (Ok (RHub "hub"))]> ∅))).
Lemma near_mid_reachable : near_reachable near_mid.
Proof.
  exists near_tunnel. call 0%nat (hub_walk toy_url String.append toy_http "hub" (new_service near_tunnel toy_http) eq_refl).
  call 1%nat near_plan_walk.
  call 2%nat (walks_app _ _ _ _ _ _ (wallet_walk toy_url String.append toy_http 8 near_plan (mkHub 0 "hub") ltac:(done) eq_refl)
    (begin_walk toy_url String.append toy_http 8 (mkHub 0 "hub") near_plan eq_refl)).
  reflexivity.
Qed.

Lemma service_consistent_witness :
  sv_selector (sy_service near_mid) = Some (mkHub 0 "hub") /\ sv_selector (sy_service near_mid) = sv_wallet (sy_service near_mid).
Proof. split; [reflexivity|]. exact (proj1 (proj2 (proj2 (proj2 (service_consistent _ _ _ near_mid near_mid_reachable))))). Defined.

(** Another tunnel is offered in the middle of the connect. *)
Definition near_offer : thread := CallSetTunnel (mkTunnel 1 toy_caps).
Definition near_offered : system := mkSystem (sy_service near_mid) (<[3%nat := near_offer]> (sy_threads near_mid)).
Definition near_refused : system := mkSystem (sy_service near_mid)
  (<[3%nat := Returned (Err (ServiceErr "disconnect before changing how the tunnel runs"))]> (sy_threads near_offered)).
Lemma near_offered_reachable : near_reachable near_offered.
Proof. destruct near_mid_reachable as [tu H]. exists tu. etrans; [exact H|]. apply rtc_once. by apply step_call. Qed.
Lemma near_refused_step : near_step near_offered near_refused.
Proof.
  apply (step_thread _ _ _ 3). exists near_offer. eexists. split; [reflexivity|]. split; [|reflexivity].
  by apply (step_tunnel _ _ _ _ _ _ (Err (ServiceErr "disconnect before changing how the tunnel runs"))).
Qed.
Lemma transitions_exclusive_witness :
  sv_state (sy_service near_offered) = StateConnecting /\ sv_tunnel (sy_service near_refused) = near_tunnel.
Proof.
  split; [reflexivity|]. destruct (transitions_exclusive _ _ _ near_offered near_refused near_offered_reachable near_refused_step) as (_ & Hf & _).
  refine (proj2 (proj2 (proj2 (Hf _)))). discriminate.
Defined.

Lemma displayed_pair_paid_witness :
  n_ID (np_Entry near_pair) = "a"%string /\ n_ID (np_Exit near_pair) = "b"%string /\ Some (mkHub 0 "hub") = sv_selector (sy_service near_mid).
Proof.
  refine (proj2 (displayed_pair_paid toy_url String.append toy_http near_mid (sy_service near_mid) near_pair near_mid_reachable _) _ eq_refl).
  split; [reflexivity|]. exists (fun _ => Some 0%nat), (Ok near_nodes). vm_compute. reflexivity.
Defined.

Lemma transition_completes_witness :
  sv_state (sy_service near_mid) = StateConnecting /\ exists i, settles_by toy_url String.append toy_http i quiescent near_mid.
Proof. split; [reflexivity|]. exact (transition_completes _ _ _ near_mid near_mid_reachable eq_refl). Defined.
