(* ===== verification/Endpoints.v ===== *)
(** * Endpoints: the addresses a tunnel may be built on
    (src/internal/tunnel/tunnel.go)

    The checks on node endpoints and tunnel addresses, all of which a hub or a
    node supplies. net's parsers and the resolver are parameters; its address
    predicates are written out for IPv4, all that gets past To4. *)
From S2P Require Import Prelude Selector ServiceNodes ServicePay.

(** ** net.IP *)
(** An IPv4 address by its 32 bits; of an IPv6 address only that it is one. *)
Inductive IP := IPv4 (a : Z) | IPv6 (text : string).
Definition octet (i a : Z) : Z := Z.land (Z.shiftr a (8 * (3 - i))) 255.
Definition ip_String (ip : IP) : string :=
  match ip with
  | IPv4 a => (show_Z (octet 0 a) ++ "." ++ show_Z (octet 1 a) ++ "." ++ show_Z (octet 2 a) ++ "." ++ show_Z (octet 3 a))%string
  | IPv6 text => text
  end.
Definition IsLoopback (a : Z) : bool := octet 0 a =? 127.
Definition IsUnspecified (a : Z) : bool := a =? 0.
Definition IsMulticast (a : Z) : bool := Z.land (octet 0 a) 240 =? 224.
Definition IsLinkLocalUnicast (a : Z) : bool := (octet 0 a =? 169) && (octet 1 a =? 254).
Definition IsLinkLocalMulticast (a : Z) : bool := (octet 0 a =? 224) && (octet 1 a =? 0) && (octet 2 a =? 0).
Definition IsPrivate (a : Z) : bool :=
  (octet 0 a =? 10) || (octet 0 a =? 172) && (Z.land (octet 1 a) 240 =? 16) || (octet 0 a =? 192) && (octet 1 a =? 168).

(** ** The checks *)
Inductive tunnel_error :=
| MissingEndpoint (hop : string) | MissingKey (hop : string) | MissingTunnelIP (hop : string)
| TunnelIPInvalid (hop : string) | TunnelIPNotIPv4 (hop : string) | TunnelIPTooBroad (hop : string)
| TunnelIPNotPrivate (hop : string) | TunnelIPReserved (hop : string)
| SharedKey | SameEndpoint
| BadEndpoint (endpoint : string) | NoPort (endpoint : string) | NotRoutable (why : string) | Unresolved (host : string)
| SharedHost (ip : string) | PinnedOnEntry (endpoint ip : string).

Definition checkRoutable (ip : IP) : result tunnel_error unit :=
  match ip with
  | IPv6 _ => Err (NotRoutable "not IPv4")
  | IPv4 a =>
      if IsLoopback a then Err (NotRoutable "loopback")
      else if IsUnspecified a then Err (NotRoutable "unspecified")
      else if IsMulticast a || IsLinkLocalUnicast a || IsLinkLocalMulticast a then Err (NotRoutable "reserved")
      else if IsPrivate a then Err (NotRoutable "a private address")
      else Ok tt
  end.

(** [ParseCIDR]: the address and the length of the prefix. *)
Definition validateTunnelIP (ParseCIDR : string -> option (IP * Z)) (hop value : string) : result tunnel_error unit :=
  match ParseCIDR value with
  | None => Err (TunnelIPInvalid hop)
  | Some (IPv6 _, _) => Err (TunnelIPNotIPv4 hop)
  | Some (IPv4 a, ones) =>
      if ones <? 8 then Err (TunnelIPTooBroad hop)
      else if negb (IsPrivate a) then Err (TunnelIPNotPrivate hop)
      else if IsLoopback a || IsUnspecified a || IsMulticast a then Err (TunnelIPReserved hop)
      else Ok tt
  end.

Section net.
(** net.SplitHostPort, net.JoinHostPort, net.ParseIP and net.ParseCIDR *)
Context (SplitHostPort : string -> option (string * string)) (JoinHostPort : string -> string -> string)
  (ParseIP : string -> option IP) (ParseCIDR : string -> option (IP * Z)).

Definition endpointWithHost (endpoint host : string) : result tunnel_error string :=
  match SplitHostPort endpoint with
  | None => Err (BadEndpoint endpoint)
  | Some (_, port) => Ok (JoinHostPort host port)
  end.

(** The addresses a name resolved to, canonical and each once. *)
Fixpoint usable_loop (seen : gset string) (addrs : list string) : result tunnel_error (list string) :=
  match addrs with
  | [] => Ok []
  | addr :: r =>
      match ParseIP addr with
      | Some (IPv4 a) =>
          _ ← checkRoutable (IPv4 a);
          let canonical := ip_String (IPv4 a) in
          if bool_decide (canonical ∈ seen) then usable_loop seen r
          else rest ← usable_loop ({[canonical]} ∪ seen) r; Ok (canonical :: rest)
      | _ => usable_loop seen r
      end
  end.

(** [lookupHost]: what the resolver answers *)
Definition hostsOf (lookupHost : string -> option (list string)) (endpoint : string) : result tunnel_error (list string) :=
  match SplitHostPort endpoint with
  | None => Err (BadEndpoint endpoint)
  | Some (host, port) =>
      if str_empty port then Err (NoPort endpoint)
      else match ParseIP host with
           | Some ip => _ ← checkRoutable ip; Ok [ip_String ip]
           | None =>
               match lookupHost host with
               | None => Err (Unresolved host)
               | Some addrs =>
                   out ← usable_loop ∅ addrs;
                   match out with [] => Err (Unresolved host) | _ => Ok out end
               end
           end
  end.
Definition hostOf (lookupHost : string -> option (list string)) (endpoint : string) : result tunnel_error string :=
  ips ← hostsOf lookupHost endpoint; Ok (hd ""%string ips).

Definition resolveEndpointIPs (lookupHost : string -> option (list string)) (entryEndpoint exitEndpoint : string) :
    result tunnel_error (list string * list string) :=
  entryIPs ← hostsOf lookupHost entryEndpoint;
  exitIPs ← hostsOf lookupHost exitEndpoint;
  match List.find (fun ip => bool_decide (ip ∈ exitIPs)) entryIPs with
  | Some ip => Err (SharedHost ip)
  | None => Ok (entryIPs, exitIPs)
  end.
Definition resolveEndpoints (lookupHost : string -> option (list string)) (entryEndpoint exitEndpoint : string) :
    result tunnel_error (string * string) :=
  '(entryIPs, exitIPs) ← resolveEndpointIPs lookupHost entryEndpoint exitEndpoint;
  Ok (hd ""%string entryIPs, hd ""%string exitIPs).

Fixpoint dedup_loop (seen : gset string) (ips : list string) : list string :=
  match ips with
  | [] => []
  | ip :: r => if bool_decide (ip ∈ seen) then dedup_loop seen r else ip :: dedup_loop ({[ip]} ∪ seen) r
  end.
(** The addresses of one pinned endpoint that are not routed yet. *)
Fixpoint pinned_ips (endpoint : string) (entrySet seen : gset string) (ips : list string) : result tunnel_error (list string) :=
  match ips with
  | [] => Ok []
  | ip :: r =>
      if bool_decide (ip ∈ entrySet) then Err (PinnedOnEntry endpoint ip)
      else if bool_decide (ip ∈ seen) then pinned_ips endpoint entrySet seen r
      else rest ← pinned_ips endpoint entrySet ({[ip]} ∪ seen) r; Ok (ip :: rest)
  end.
Fixpoint pinned_loop (lookupHost : string -> option (list string)) (entrySet : gset string) (routeIPs pinned : list string) :
    result tunnel_error (list string) :=
  match pinned with
  | [] => Ok routeIPs
  | endpoint0 :: r =>
      let endpoint := TrimSpace endpoint0 in
      if str_empty endpoint then pinned_loop lookupHost entrySet routeIPs r
      else
        ips ← hostsOf lookupHost endpoint;
        new ← pinned_ips endpoint entrySet (list_to_set routeIPs) ips;
        pinned_loop lookupHost entrySet (routeIPs ++ new) r
  end.
(** The addresses of the entry, and those that must go through the outer hop. *)
Definition resolveOuterRouteIPs (lookupHost : string -> option (list string)) (entryEndpoint exitEndpoint : string) (pinned : list string) :
    result tunnel_error (list string * list string) :=
  '(entryIPs, exitIPs) ← resolveEndpointIPs lookupHost entryEndpoint exitEndpoint;
  routeIPs ← pinned_loop lookupHost (list_to_set entryIPs) (dedup_loop ∅ exitIPs) pinned;
  Ok (entryIPs, routeIPs).

(** *** The configuration of both hops *)
Definition check_tunnel_ip (hop : string) (c : HopConfig) : result tunnel_error unit :=
  if str_empty (hc_TunnelIP c) then Err (MissingTunnelIP hop) else validateTunnelIP ParseCIDR hop (hc_TunnelIP c).
Definition check_hop (hop : string) (c : HopConfig) : result tunnel_error unit :=
  if str_empty (hc_Endpoint c) then Err (MissingEndpoint hop)
  else if str_empty (hc_NodeWGPubkey c) then Err (MissingKey hop)
  else check_tunnel_ip hop c.
Definition validateOuter (cfg : TunnelConfig) : result tunnel_error unit :=
  _ ← check_hop "entry" (tc_Entry cfg);
  if str_empty (hc_Endpoint (tc_Exit cfg)) then Err (MissingEndpoint "exit")
  else if negb (str_empty (hc_NodeWGPubkey (tc_Exit cfg))) && String.eqb (hc_NodeWGPubkey (tc_Entry cfg)) (hc_NodeWGPubkey (tc_Exit cfg))
  then Err SharedKey
  else if String.eqb (hc_Endpoint (tc_Entry cfg)) (hc_Endpoint (tc_Exit cfg)) then Err SameEndpoint
  else Ok tt.
Definition validate (cfg : TunnelConfig) : result tunnel_error unit :=
  _ ← check_hop "entry" (tc_Entry cfg);
  _ ← check_hop "exit" (tc_Exit cfg);
  if String.eqb (hc_NodeWGPubkey (tc_Entry cfg)) (hc_NodeWGPubkey (tc_Exit cfg)) then Err SharedKey
  else if String.eqb (hc_Endpoint (tc_Entry cfg)) (hc_Endpoint (tc_Exit cfg)) then Err SameEndpoint
  else Ok tt.
End net.

(** ** Which addresses *)
Definition in_range (lo hi a : Z) : bool := (lo <=? a) && (a <=? hi).
(** a.b.c.d as a number *)
Definition quad (a b c d : Z) : Z := ((a * 256 + b) * 256 + c) * 256 + d.
Definition private_ranges : list (Z * Z) :=
  [(quad 10 0 0 0, quad 10 255 255 255); (quad 172 16 0 0, quad 172 31 255 255); (quad 192 168 0 0, quad 192 168 255 255)].
Definition unroutable_ranges : list (Z * Z) :=
  (quad 0 0 0 0, quad 0 0 0 0) :: (quad 127 0 0 0, quad 127 255 255 255) :: (quad 169 254 0 0, quad 169 254 255 255) ::
  (quad 224 0 0 0, quad 239 255 255 255) :: private_ranges.
Definition in_ranges (rs : list (Z * Z)) (a : Z) : bool := existsb (fun r => in_range r.1 r.2 a) rs.

Lemma octets a : 0 <= a < 2 ^ 32 ->
  a = quad (octet 0 a) (octet 1 a) (octet 2 a) (octet 3 a) /\
  0 <= octet 0 a < 256 /\ 0 <= octet 1 a < 256 /\ 0 <= octet 2 a < 256 /\ 0 <= octet 3 a < 256.
Proof.
  intros Ha. unfold octet, quad. change 255 with (Z.ones 8). rewrite !Z.land_ones, !Z.shiftr_div_pow2 by lia.
  change (2 ^ 8) with 256. change (8 * (3 - 0)) with 24. change (8 * (3 - 1)) with 16. change (8 * (3 - 2)) with 8. change (8 * (3 - 3)) with 0.
  change (2 ^ 24) with 16777216. change (2 ^ 16) with 65536. change (2 ^ 8) with 256. change (2 ^ 0) with 1. change (2 ^ 32) with 4294967296 in Ha.
  Z.div_mod_to_equations. lia.
Qed.
(** The high nibble of an octet *)
Lemma land_240 b : 0 <= b < 256 -> Z.land b 240 = b - b mod 16.
Proof.
  intros Hb. assert (forallb (fun b => Z.land b 240 =? b - b mod 16) (seqZ 0 256) = true) as H by (vm_compute; reflexivity).
  rewrite forallb_forall in H. apply Z.eqb_eq, H, list_elem_of_In, elem_of_seqZ. lia.
Qed.

(** Each predicate of an address as a range of numbers. *)
Ltac ranges a Ha := let Hq := fresh in
  destruct (octets a Ha) as (Hq & ? & ? & ? & ?); unfold quad in *;
  apply Bool.eq_iff_eq_true; cbn [in_ranges existsb private_ranges unroutable_ranges fst snd]; unfold in_range, quad;
  rewrite ?land_240 by lia; rewrite ?orb_true_iff, ?andb_true_iff, ?Z.eqb_eq, ?Z.leb_le, ?orb_false_r; Z.div_mod_to_equations; lia.
Lemma IsPrivate_ranges a : 0 <= a < 2 ^ 32 -> IsPrivate a = in_ranges private_ranges a.
Proof. intros Ha. unfold IsPrivate, in_ranges. cbn [existsb private_ranges fst snd]. rewrite orb_false_r. ranges a Ha. Qed.
Lemma IsLoopback_range a : 0 <= a < 2 ^ 32 -> IsLoopback a = in_range (quad 127 0 0 0) (quad 127 255 255 255) a.
Proof. intros Ha. unfold IsLoopback. ranges a Ha. Qed.
Lemma IsMulticast_range a : 0 <= a < 2 ^ 32 -> IsMulticast a = in_range (quad 224 0 0 0) (quad 239 255 255 255) a.
Proof. intros Ha. unfold IsMulticast. ranges a Ha. Qed.
Lemma IsLinkLocalUnicast_range a : 0 <= a < 2 ^ 32 -> IsLinkLocalUnicast a = in_range (quad 169 254 0 0) (quad 169 254 255 255) a.
Proof. intros Ha. unfold IsLinkLocalUnicast. ranges a Ha. Qed.
Lemma link_local_multicast a : IsLinkLocalMulticast a = true -> IsMulticast a = true.
Proof.
  unfold IsLinkLocalMulticast, IsMulticast. rewrite !andb_true_iff, !Z.eqb_eq. intros [[-> _] _]. reflexivity.
Qed.
Lemma IsUnspecified_range a : IsUnspecified a = in_range (quad 0 0 0 0) (quad 0 0 0 0) a.
Proof. unfold IsUnspecified, in_range, quad. apply Bool.eq_iff_eq_true. rewrite andb_true_iff, !Z.leb_le, Z.eqb_eq. lia. Qed.

Lemma checkRoutable_Ok a : 0 <= a < 2 ^ 32 ->
  (checkRoutable (IPv4 a) = Ok tt <-> in_ranges unroutable_ranges a = false).
Proof.
  intros Ha. unfold checkRoutable, in_ranges, unroutable_ranges. cbn [existsb fst snd].
  rewrite <-IsLoopback_range, <-IsUnspecified_range, <-IsLinkLocalUnicast_range, <-IsMulticast_range by done.
  fold (in_ranges private_ranges a). rewrite <-IsPrivate_ranges by done.
  pose proof (link_local_multicast a) as Hm.
  destruct (IsLoopback a), (IsUnspecified a), (IsMulticast a), (IsLinkLocalUnicast a), (IsLinkLocalMulticast a), (IsPrivate a);
    cbn; try (split; congruence); by specialize (Hm eq_refl).
Qed.

(** An address on the public internet, in canonical form. *)
Definition public (ip : string) : Prop :=
  exists a, 0 <= a < 2 ^ 32 /\ ip = ip_String (IPv4 a) /\ in_ranges unroutable_ranges a = false.

(** ** Which hosts *)
#[global] Opaque ip_String.
Section hosts.
Context (SplitHostPort : string -> option (string * string)) (ParseIP : string -> option IP).
Hypothesis ParseIP_range : forall s a, ParseIP s = Some (IPv4 a) -> 0 <= a < 2 ^ 32.
Abbreviation hostsOf := (hostsOf SplitHostPort ParseIP).
Abbreviation resolveOuterRouteIPs := (resolveOuterRouteIPs SplitHostPort ParseIP).

Lemma routable_public s a u : ParseIP s = Some (IPv4 a) -> checkRoutable (IPv4 a) = Ok u -> public (ip_String (IPv4 a)).
Proof.
  intros Hp Hc. destruct u. pose proof (ParseIP_range _ _ Hp) as Ha. exists a. split_and!; [apply Ha..|done|]. by apply checkRoutable_Ok.
Qed.
Lemma usable_loop_Ok seen addrs out : usable_loop ParseIP seen addrs = Ok out ->
  NoDup out /\ Forall public out /\ forall ip, ip ∈ out -> ip ∉ seen.
Proof.
  revert seen out. induction addrs as [|addr r IH]; intros seen out; cbn [usable_loop].
  { intros [= <-]. split_and!; [constructor|constructor|set_solver]. }
  destruct (ParseIP addr) as [[a|t]|] eqn:Hp; [|by apply IH..].
  destruct (checkRoutable (IPv4 a)) as [u|] eqn:Hc; [|done]. cbn [mbind result_mbind].
  case_bool_decide as Hin; [apply IH|]. destruct (usable_loop _ _ r) as [rest|] eqn:Hr; [|done]. cbn [mbind result_mbind]. intros [= <-].
  destruct (IH _ _ Hr) as (Hn & Hf & Hs). split_and!.
  - constructor; [|done]. intros H. apply Hs, not_elem_of_union in H as [H _]. by apply H, elem_of_singleton.
  - constructor; [by eapply routable_public|done].
  - intros ip [->|H]%elem_of_cons; [done|]. by apply Hs, not_elem_of_union in H as [_ H].
Qed.
Lemma hostsOf_Ok lookup endpoint ips : hostsOf lookup endpoint = Ok ips -> ips <> [] /\ NoDup ips /\ Forall public ips.
Proof.
  unfold Endpoints.hostsOf. destruct (SplitHostPort endpoint) as [[host port]|]; [|done]. destruct (str_empty port); [done|].
  destruct (ParseIP host) as [ip|] eqn:Hp.
  - destruct (checkRoutable ip) as [u|] eqn:Hc; [|done]. intros [= <-]. split_and!; [done|apply NoDup_singleton|].
    constructor; [|constructor]. destruct ip as [a|t]; [by eapply routable_public|done].
  - destruct (lookup host) as [addrs|]; [|done]. destruct (usable_loop ParseIP ∅ addrs) as [out|] eqn:Ho; [|done]. cbn.
    apply usable_loop_Ok in Ho as (Hn & Hf & _). destruct out as [|x out]; [done|]. by intros [= <-].
Qed.

Lemma resolveEndpointIPs_Ok lookup e x entryIPs exitIPs :
  resolveEndpointIPs SplitHostPort ParseIP lookup e x = Ok (entryIPs, exitIPs) ->
  hostsOf lookup e = Ok entryIPs /\ hostsOf lookup x = Ok exitIPs /\ entryIPs ## exitIPs.
Proof.
  unfold resolveEndpointIPs. destruct (hostsOf lookup e) as [l|]; [|done]. destruct (hostsOf lookup x) as [l'|]; [|done].
  cbn [mbind result_mbind]. destruct (List.find _ l) as [ip|] eqn:Hf; [done|]. intros [= <- <-]. split_and!; [done..|].
  intros ip Hi Hx. apply list_elem_of_In in Hi. pose proof (find_none _ _ Hf _ Hi) as H. by apply bool_decide_eq_false in H.
Qed.

Lemma seen_skip (x ip : string) (l : list string) (seen : gset string) : x ∈ seen ->
  (ip ∈ l /\ ip ∉ seen) <-> (ip = x \/ ip ∈ l) /\ ip ∉ seen.
Proof. intros Hx. split; [intros [? ?]; by split; [right|]|intros [[->|?] ?]; done]. Qed.
Lemma seen_keep (x ip : string) (l : list string) (seen : gset string) : x ∉ seen ->
  (ip = x \/ ip ∈ l /\ ip ∉ {[x]} ∪ seen) <-> (ip = x \/ ip ∈ l) /\ ip ∉ seen.
Proof.
  intros Hx. rewrite not_elem_of_union, not_elem_of_singleton. destruct (decide (ip = x)) as [->|Hne]; tauto.
Qed.

Lemma dedup_loop_spec seen l : NoDup (dedup_loop seen l) /\ forall ip, ip ∈ dedup_loop seen l <-> ip ∈ l /\ ip ∉ seen.
Proof.
  revert seen. induction l as [|x l IH]; intros seen; cbn [dedup_loop]; [split; [constructor|set_solver]|].
  case_bool_decide as Hin.
  - destruct (IH seen) as [Hn Hs]. split; [done|]. intros ip. by rewrite Hs, elem_of_cons, (seen_skip x).
  - destruct (IH ({[x]} ∪ seen)) as [Hn Hs]. split.
    + constructor; [|done]. rewrite Hs. intros [_ H']. apply not_elem_of_union in H' as [H' _]. by apply H', elem_of_singleton.
    + intros ip. by rewrite !elem_of_cons, Hs, seen_keep.
Qed.
Lemma dedup_head l : hd ""%string (dedup_loop ∅ l) = hd ""%string l.
Proof. destruct l; [done|]. cbn [dedup_loop]. by rewrite bool_decide_eq_false_2 by set_solver. Qed.

Lemma pinned_ips_Ok endpoint entrySet seen ips new : pinned_ips endpoint entrySet seen ips = Ok new ->
  NoDup new /\ (forall ip, ip ∈ new <-> ip ∈ ips /\ ip ∉ seen) /\ forall ip, ip ∈ ips -> ip ∉ entrySet.
Proof.
  revert seen new. induction ips as [|x ips IH]; intros seen new; cbn [pinned_ips].
  { intros [= <-]. split_and!; [constructor|set_solver..]. }
  case_bool_decide as He; [done|]. case_bool_decide as Hin.
  - intros H. destruct (IH _ _ H) as (Hn & Hs & Hd). split_and!; [done| |].
    + intros ip. by rewrite Hs, elem_of_cons, (seen_skip x).
    + by intros ip [->|Hi]%elem_of_cons; [|apply Hd].
  - destruct (pinned_ips _ _ _ ips) as [rest|] eqn:Hr; [|done]. cbn. intros [= <-]. destruct (IH _ _ Hr) as (Hn & Hs & Hd). split_and!.
    + constructor; [|done]. rewrite Hs. intros [_ H']. apply not_elem_of_union in H' as [H' _]. by apply H', elem_of_singleton.
    + intros ip. by rewrite !elem_of_cons, Hs, seen_keep.
    + by intros ip [->|Hi]%elem_of_cons; [|apply Hd].
Qed.

(** The routes so far stay, apart from the entry, and cover every endpoint that is pinned. *)
Lemma pinned_loop_Ok lookup entrySet routeIPs pinned out :
  pinned_loop SplitHostPort ParseIP lookup entrySet routeIPs pinned = Ok out ->
  NoDup routeIPs -> Forall public routeIPs -> (forall ip, ip ∈ routeIPs -> ip ∉ entrySet) ->
  NoDup out /\ Forall public out /\ (forall ip, ip ∈ out -> ip ∉ entrySet) /\ (exists more, out = routeIPs ++ more) /\
  forall e ips ip, e ∈ pinned -> TrimSpace e <> ""%string -> hostsOf lookup (TrimSpace e) = Ok ips -> ip ∈ ips -> ip ∈ out.
Proof.
  revert routeIPs. induction pinned as [|e0 r IH]; intros routeIPs; cbn [pinned_loop]; cbv zeta.
  { intros [= <-] Hn Hp Hd. split_and!; [done..|exists []; by rewrite app_nil_r|set_solver]. }
  destruct (str_empty (TrimSpace e0)) eqn:Hempty.
  { intros H Hn Hp Hd. destruct (IH _ H Hn Hp Hd) as (A & B & C & D & E). split_and!; [done..|].
    intros e ips ip [->|He]%elem_of_cons; [|by eapply E]. apply String.eqb_eq in Hempty. done. }
  destruct (hostsOf lookup (TrimSpace e0)) as [ips0|] eqn:Hh; [|done]. cbn [mbind result_mbind].
  destruct (pinned_ips _ _ _ ips0) as [new|] eqn:Hnew; [|done]. cbn [mbind result_mbind]. intros H Hn Hp Hd.
  apply hostsOf_Ok in Hh as Hh'. destruct Hh' as (_ & _ & Hpub). apply pinned_ips_Ok in Hnew as (Hnn & Hns & Hnd).
  destruct (IH _ H) as (A & B & C & [more ->] & E).
  - apply NoDup_app. split_and!; [done| |done]. intros ip Hi Hi'. apply Hns in Hi'. set_solver.
  - apply Forall_app. split; [done|]. apply Forall_forall. intros ip Hi. apply Hns in Hi as [Hi _]. exact (proj1 (Forall_forall _ _) Hpub ip Hi).
  - intros ip [Hi|Hi]%elem_of_app; [by apply Hd|]. apply Hnd. by apply Hns in Hi as [Hi _].
  - split_and!; [done..|exists (new ++ more); by rewrite app_assoc|].
    intros e ips ip [->|He]%elem_of_cons He' Hips Hi; [|by eapply E]. rewrite Hh in Hips. injection Hips as <-.
    apply elem_of_app. left. apply elem_of_app. destruct (decide (ip ∈ routeIPs)); [by left|right]. apply Hns. set_solver.
Qed.

(** The entry and what is behind it are different hosts. When the endpoints of a
    tunnel resolve, whatever the resolver answers, the entry's addresses and the
    addresses routed through the outer hop are public IPv4 addresses, none of them
    in both lists and none twice; the second list starts with the exit's first
    address and holds all of the exit's and of every pinned endpoint. *)
Theorem hops_apart lookup e x pinned entryIPs routeIPs
    (Hresolve : resolveOuterRouteIPs lookup e x pinned = Ok (entryIPs, routeIPs)) :
  entryIPs <> [] /\ routeIPs <> [] /\ NoDup entryIPs /\ NoDup routeIPs /\ entryIPs ## routeIPs /\
  Forall public entryIPs /\ Forall public routeIPs /\
  (exists exitIPs, hostsOf lookup x = Ok exitIPs /\ hd ""%string routeIPs = hd ""%string exitIPs /\ forall ip, ip ∈ exitIPs -> ip ∈ routeIPs) /\
  forall p ips ip, p ∈ pinned -> TrimSpace p <> ""%string -> hostsOf lookup (TrimSpace p) = Ok ips -> ip ∈ ips -> ip ∈ routeIPs.
Proof.
  unfold Endpoints.resolveOuterRouteIPs in Hresolve. destruct (resolveEndpointIPs _ _ _ e x) as [[en ex]|] eqn:Hr; [|done].
  cbn [mbind result_mbind] in Hresolve. destruct (pinned_loop _ _ _ _ _ _) as [out|] eqn:Hl; [|done]. injection Hresolve as <- <-.
  apply resolveEndpointIPs_Ok in Hr as (He & Hx & Hd). destruct (hostsOf_Ok _ _ _ He) as (He1 & He2 & He3).
  destruct (hostsOf_Ok _ _ _ Hx) as (Hx1 & Hx2 & Hx3). destruct (dedup_loop_spec ∅ ex) as [Hn Hs].
  assert (forall ip, ip ∈ dedup_loop ∅ ex -> ip ∈ ex) as Hsub by (intros ip Hi; by apply Hs in Hi as [Hi _]).
  destruct (pinned_loop_Ok _ _ _ _ _ Hl) as (A & B & C & [more ->] & E).
  - done.
  - apply Forall_forall. intros ip Hi. exact (proj1 (Forall_forall _ _) Hx3 ip (Hsub _ Hi)).
  - intros ip Hi. apply Hsub in Hi. set_solver.
  - pose proof (dedup_head ex) as Hhd. destruct (dedup_loop ∅ ex) as [|y l] eqn:Hdd.
    { destruct ex as [|z ex]; [done|]. specialize (Hs z). set_solver. }
    split_and!; [done..| |done|done| |done].
    + intros ip Hi Hi'. apply C in Hi'. set_solver.
    + exists ex. split_and!; [done|done|]. intros ip Hi. apply elem_of_app. left. apply Hs. set_solver.
Qed.

End hosts.

(** ** Which configurations *)
Section hops.
Context (ParseCIDR : string -> option (IP * Z)).
Hypothesis ParseCIDR_range : forall s a ones, ParseCIDR s = Some (IPv4 a, ones) -> 0 <= a < 2 ^ 32.

Lemma private_not_reserved a : 0 <= a < 2 ^ 32 -> IsPrivate a = true -> IsLoopback a || IsUnspecified a || IsMulticast a = false.
Proof.
  intros Ha Hp. assert (octet 0 a = 10 \/ octet 0 a = 172 \/ octet 0 a = 192) as Ho.
  { unfold IsPrivate in Hp. rewrite !orb_true_iff, !andb_true_iff, !Z.eqb_eq in Hp. tauto. }
  unfold IsLoopback, IsMulticast, IsUnspecified. destruct (Z.eqb_spec a 0) as [->|]; [exfalso; vm_compute in Ho; intuition congruence|].
  by destruct Ho as [->|[->| ->]].
Qed.
(** A tunnel address in a private network that is not too large. *)
Definition tunnel_ip (c : HopConfig) : Prop :=
  exists a ones, ParseCIDR (hc_TunnelIP c) = Some (IPv4 a, ones) /\ 8 <= ones /\ in_ranges private_ranges a = true.
Lemma validateTunnelIP_Ok hop c u : validateTunnelIP ParseCIDR hop (hc_TunnelIP c) = Ok u <-> tunnel_ip c.
Proof.
  destruct u. unfold validateTunnelIP, tunnel_ip. destruct (ParseCIDR _) as [[[a|t] ones]|] eqn:Hp; [|split; [done|by intros (? & ? & [=] & _)]..].
  pose proof (ParseCIDR_range _ _ _ Hp) as Ha. split.
  - destruct (Z.ltb_spec ones 8); [done|]. destruct (IsPrivate a) eqn:Hpr; [|done]. intros _. exists a, ones.
    by rewrite <-IsPrivate_ranges.
  - intros (a' & ones' & [= <- <-] & Ho & Hr). rewrite <-IsPrivate_ranges in Hr by done.
    rewrite (proj2 (Z.ltb_ge _ _)), Hr, (private_not_reserved a Ha Hr) by lia. done.
Qed.
Lemma str_nonempty s : str_empty s = false <-> s <> ""%string.
Proof. apply String.eqb_neq. Qed.
Lemma check_hop_Ok hop c u : check_hop ParseCIDR hop c = Ok u <->
  hc_Endpoint c <> ""%string /\ hc_NodeWGPubkey c <> ""%string /\ hc_TunnelIP c <> ""%string /\ tunnel_ip c.
Proof.
  rewrite <-!str_nonempty, <-(validateTunnelIP_Ok hop c u). unfold check_hop, check_tunnel_ip.
  destruct (str_empty (hc_Endpoint c)), (str_empty (hc_NodeWGPubkey c)), (str_empty (hc_TunnelIP c)); intuition congruence.
Qed.

(** What a tunnel configuration must satisfy, exactly: both hops complete, with
    different keys and different endpoints, and tunnel addresses that are private
    IPv4 addresses in a network of at most 2^24 addresses. *)
Theorem validate_exact cfg :
  let e := tc_Entry cfg in let x := tc_Exit cfg in
  validate ParseCIDR cfg = Ok tt <->
  (hc_Endpoint e <> ""%string /\ hc_NodeWGPubkey e <> ""%string /\ hc_TunnelIP e <> ""%string /\ tunnel_ip e) /\
  (hc_Endpoint x <> ""%string /\ hc_NodeWGPubkey x <> ""%string /\ hc_TunnelIP x <> ""%string /\ tunnel_ip x) /\
  hc_NodeWGPubkey e <> hc_NodeWGPubkey x /\ hc_Endpoint e <> hc_Endpoint x.
Proof.
  cbn zeta. rewrite <-(check_hop_Ok "entry" (tc_Entry cfg) tt), <-(check_hop_Ok "exit" (tc_Exit cfg) tt), <-!String.eqb_neq. unfold validate.
  destruct (check_hop _ "entry" _) as [[]|]; [|cbn; intuition congruence]. destruct (check_hop _ "exit" _) as [[]|]; [|cbn; intuition congruence].
  cbn [mbind result_mbind]. destruct (String.eqb _ _), (String.eqb _ _); intuition congruence.
Qed.
End hops.

(** Finding: the comment promises that addresses that are not routable on the public
    internet are rejected. Shared (100.64.0.0/10), documentation, reserved and
    broadcast addresses pass. *)
Theorem unroutable_accepted :
  checkRoutable (IPv4 (quad 100 64 0 1)) = Ok tt /\ checkRoutable (IPv4 (quad 192 0 2 1)) = Ok tt /\
  checkRoutable (IPv4 (quad 240 0 0 1)) = Ok tt /\ checkRoutable (IPv4 (quad 255 255 255 255)) = Ok tt /\
  checkRoutable (IPv4 (quad 0 0 0 1)) = Ok tt.
Proof. by repeat split. Qed.

(** ** An entry by address and an exit by name *)
Definition toy_split (s : string) : option (string * string) :=
  if String.eqb s "203.0.113.9:51820" then Some ("203.0.113.9", "51820")%string
  else if String.eqb s "exit.example:51820" then Some ("exit.example", "51820")%string
  else if String.eqb s "198.51.100.7:443" then Some ("198.51.100.7", "443")%string else None.
Definition toy_ip (s : string) : option IP :=
  if String.eqb s "203.0.113.9" then Some (IPv4 (quad 203 0 113 9))
  else if String.eqb s "198.51.100.7" then Some (IPv4 (quad 198 51 100 7))
  else if String.eqb s "198.51.100.8" then Some (IPv4 (quad 198 51 100 8)) else None.
Definition toy_cidr (s : string) : option (IP * Z) :=
  if String.eqb s "10.100.0.2/32" then Some (IPv4 (quad 10 100 0 2), 32)
  else if String.eqb s "10.200.0.2/32" then Some (IPv4 (quad 10 200 0 2), 32) else None.
Definition toy_lookup (host : string) : option (list string) := Some ["2001:db8::1"; "198.51.100.8"; "198.51.100.8"]%string.
Lemma toy_ip_range s a : toy_ip s = Some (IPv4 a) -> 0 <= a < 2 ^ 32.
Proof. unfold toy_ip, quad. repeat case_match; intros [= <-]; lia. Qed.
Lemma toy_cidr_range s a ones : toy_cidr s = Some (IPv4 a, ones) -> 0 <= a < 2 ^ 32.
Proof. unfold toy_cidr, quad. repeat case_match; intros [= <- <-]; lia. Qed.

Lemma hops_apart_witness : ["203.0.113.9"%string] ## ["198.51.100.8"; "198.51.100.7"]%string.
Proof.
  apply (hops_apart toy_split toy_ip toy_ip_range toy_lookup "203.0.113.9:51820" "exit.example:51820" [" 198.51.100.7:443 "; ""]%string).
  vm_compute. reflexivity.
Defined.

Definition toy_hops (key : string) : TunnelConfig :=
  mkTunnelConfig (mkHopConfig "e" "203.0.113.9:51820" "wg-entry" "10.100.0.2/32" 1000)
    (mkHopConfig "x" "exit.example:51820" key "10.200.0.2/32" 1000) "k" "k" "k2" [] TransportWireGuard.
Lemma validate_exact_witness :
  validate toy_cidr (toy_hops "wg-exit") = Ok tt /\ tunnel_ip toy_cidr (tc_Exit (toy_hops "wg-exit")) /\
  validate toy_cidr (toy_hops "wg-entry") = Err SharedKey.
Proof.
  split; [vm_compute; reflexivity|]. split; [|vm_compute; reflexivity].
  refine (proj2 (proj2 (proj2 (proj1 (proj2 (proj1 (validate_exact toy_cidr toy_cidr_range (toy_hops "wg-exit")) _)))))).
  vm_compute. reflexivity.
Defined.
