(* ===== verification/HostNet.v ===== *)
(** * HostNet: the host network under the tunnel
    (src/internal/tunnel/netconfig_linux.go, netconfig_darwin.go, tunnel.go;
    src/internal/wg/manager.go, manager_linux.go, manager_darwin.go)

    What the tunnel asks of the operating system as a class, with the laws its
    bookkeeping relies on, and the two Unix implementations over a model of what
    their commands change. Any command may fail: a list of booleans in the state
    says which do; a failed command changes nothing. *)
From S2P Require Import Prelude Peers Nip44 ServiceNodes ClientConnect.

Record route := mkRt { rt_cidr : string; rt_gateway : string; rt_iface : string }.
#[export] Instance route_eq_dec : EqDecision route.
Proof. solve_decision. Defined.
Record InterfaceConfig := mkIface { ic_Name : string; ic_PrivateKey : string; ic_ListenPort : Z; ic_Address : string; ic_MTU : Z }.

(** ** Operations that change a state and may fail *)
Definition io (W A : Type) : Type := W -> result string A * W.
Definition iret {W A} (a : A) : io W A := fun w => (Ok a, w).
Definition ifail {W A} (e : string) : io W A := fun w => (Err e, w).
Definition ibind {W A B} (m : io W A) (k : A -> io W B) : io W B :=
  fun w => match m w with (Ok a, w') => k a w' | (Err e, w') => (Err e, w') end.
Definition iget {W A} (f : W -> A) : io W A := fun w => (Ok (f w), w).
Definition iput {W} (f : W -> W) : io W unit := fun w => (Ok tt, f w).
(** The answer of an operation as a value: its error is handled. *)
Definition itry {W A} (m : io W A) : io W (result string A) := fun w => let '(r, w') := m w in (Ok r, w').
Declare Scope io_scope.
Delimit Scope io_scope with io.
Notation "x <~ m ;; k" := (ibind m (fun x => k)) (at level 100, m at next level, right associativity) : io_scope.
Notation "m ~> k" := (ibind m (fun _ => k)) (at level 100, k at level 200, right associativity) : io_scope.
Open Scope io_scope.

(** ** netConfigurator and WireGuard, as the tunnel uses them *)
(** What is configured on the host. *)
Record view := mkView {
  vw_routes : gmap string (string * string);  (* destination to gateway and interface *)
  vw_ifaces : gset string;                    (* WireGuard interfaces, by logical name *)
  vw_peers : gmap string PeerConfig;
  vw_dns : bool;                              (* the resolver is not the user's *)
  vw_ipv6 : bool                              (* outbound IPv6 is blocked by the tunnel *)
}.
Definition set_routes (x : gmap string (string * string)) (v : view) : view := mkView x (vw_ifaces v) (vw_peers v) (vw_dns v) (vw_ipv6 v).
Definition set_ifaces (x : gset string) (v : view) : view := mkView (vw_routes v) x (vw_peers v) (vw_dns v) (vw_ipv6 v).
Definition set_peers (x : gmap string PeerConfig) (v : view) : view := mkView (vw_routes v) (vw_ifaces v) x (vw_dns v) (vw_ipv6 v).
Definition set_dns (x : bool) (v : view) : view := mkView (vw_routes v) (vw_ifaces v) (vw_peers v) x (vw_ipv6 v).
Definition set_ipv6 (x : bool) (v : view) : view := mkView (vw_routes v) (vw_ifaces v) (vw_peers v) (vw_dns v) x.

Class Host (W : Type) := {
  DefaultRoute : io W (string * string);
  AddRoute : route -> io W unit;
  DeleteRoute : route -> io W unit;
  SetDNS : string -> io W unit;
  RestoreDNS : io W unit;
  DisableIPv6 : io W unit;
  RestoreIPv6 : io W unit;
  CreateInterface : InterfaceConfig -> io W unit;
  DeleteInterface : string -> io W unit;
  AddPeer : string -> PeerConfig -> io W unit;
  InterfaceName : string -> W -> string;
  host_view : W -> view;
  (* the implementation's own bookkeeping is right *)
  host_ok : W -> Prop
}.

Definition add_rt (r : route) (m : gmap string (string * string)) : gmap string (string * string) :=
  <[rt_cidr r := (rt_gateway r, rt_iface r)]> m.

(** Every operation keeps [host_ok] and changes only its own part of the view;
    routes and the IPv6 block are added and removed as asked. Nothing is promised
    of a resolver change, nor of an interface whose creation failed. *)
Class HostLaws (W : Type) `{Host W} := {
  law_default w r w' : DefaultRoute w = (r, w') -> host_ok w -> host_ok w' /\ host_view w' = host_view w;
  law_add_route rt w r w' : AddRoute rt w = (r, w') -> host_ok w -> host_ok w' /\
    exists m, host_view w' = set_routes m (host_view w) /\
    match r with Ok _ => m = add_rt rt (vw_routes (host_view w)) | Err _ => m ⊆ vw_routes (host_view w) end;
  law_delete_route rt w r w' : DeleteRoute rt w = (r, w') -> host_ok w -> host_ok w' /\
    exists m, host_view w' = set_routes m (host_view w) /\
    match r with Ok _ => m = delete (rt_cidr rt) (vw_routes (host_view w)) | Err _ => m ⊆ vw_routes (host_view w) end;
  law_set_dns s w r w' : SetDNS s w = (r, w') -> host_ok w -> host_ok w' /\
    exists b, host_view w' = set_dns b (host_view w);
  law_restore_dns w r w' : RestoreDNS w = (r, w') -> host_ok w -> host_ok w' /\
    exists b, host_view w' = set_dns b (host_view w);
  law_disable_ipv6 w r w' : DisableIPv6 w = (r, w') -> host_ok w -> host_ok w' /\
    exists b, host_view w' = set_ipv6 b (host_view w) /\ (is_ok r = true -> b = true);
  law_restore_ipv6 w r w' : RestoreIPv6 w = (r, w') -> host_ok w -> host_ok w' /\
    exists b, host_view w' = set_ipv6 b (host_view w) /\ (is_ok r = true -> b = false);
  law_create c w r w' : CreateInterface c w = (r, w') -> host_ok w -> host_ok w' /\
    exists l, host_view w' = set_ifaces l (host_view w) /\ (is_ok r = true -> l = {[ic_Name c]} ∪ vw_ifaces (host_view w));
  law_delete n w r w' : DeleteInterface n w = (r, w') -> host_ok w -> host_ok w' /\
    exists l p, host_view w' = set_peers p (set_ifaces l (host_view w)) /\ l ⊆ vw_ifaces (host_view w);
  law_add_peer n p w r w' : AddPeer n p w = (r, w') -> host_ok w -> host_ok w' /\
    exists m, host_view w' = set_peers m (host_view w) /\ (is_ok r = true -> m = <[n := p]> (vw_peers (host_view w)))
}.
(** A failed resolver change changes nothing, and a restored resolver is restored. *)
Class ExactDNS (W : Type) `{Host W} := {
  exact_set_dns s w e w' : SetDNS s w = (Err e, w') -> host_ok w -> vw_dns (host_view w') = vw_dns (host_view w);
  exact_restore_dns u w w' : RestoreDNS w = (Ok u, w') -> host_ok w -> vw_dns (host_view w') = false
}.
(** A failed creation leaves no interface, and a deleted interface is gone. *)
Class ExactInterfaces (W : Type) `{Host W} := {
  exact_create c w e w' : CreateInterface c w = (Err e, w') -> host_ok w -> vw_ifaces (host_view w') = vw_ifaces (host_view w);
  exact_delete n u w w' : DeleteInterface n w = (Ok u, w') -> host_ok w -> vw_ifaces (host_view w') = vw_ifaces (host_view w) ∖ {[n]}
}.

(** ** Linux *)
(** A rule of ip6tables' OUTPUT chain: the tunnel's, by its comment, or another. *)
Inductive rule := Ours (id : string) | Other (text : string).
Record Linux := mkLinux {
  lx_default : string;                       (* what "ip route show default" prints *)
  lx_routes : gmap string (string * string);
  lx_resolv : string;                        (* /etc/resolv.conf *)
  lx_backup : option string;                 (* /etc/resolv.conf.arfl.bak *)
  lx_user : string;                          (* the resolv.conf of the user, to compare with *)
  lx_output : list rule;
  lx_links : gset string;
  lx_peers : gmap string PeerConfig;
  lx_ipv6Blocked : bool;
  lx_ipv6RuleID : string;
  lx_osNames : gmap string string;
  lx_nonces : list string;                   (* the hexadecimal nonces to come *)
  lx_faults : list bool                      (* which of the next commands fail *)
}.
Definition lx_upd_routes f w := mkLinux (lx_default w) (f (lx_routes w)) (lx_resolv w) (lx_backup w) (lx_user w) (lx_output w) (lx_links w)
  (lx_peers w) (lx_ipv6Blocked w) (lx_ipv6RuleID w) (lx_osNames w) (lx_nonces w) (lx_faults w).
Definition lx_upd_dns resolv backup w := mkLinux (lx_default w) (lx_routes w) resolv backup (lx_user w) (lx_output w) (lx_links w)
  (lx_peers w) (lx_ipv6Blocked w) (lx_ipv6RuleID w) (lx_osNames w) (lx_nonces w) (lx_faults w).
Definition lx_upd_ipv6 output blocked id w := mkLinux (lx_default w) (lx_routes w) (lx_resolv w) (lx_backup w) (lx_user w) output (lx_links w)
  (lx_peers w) blocked id (lx_osNames w) (lx_nonces w) (lx_faults w).
Definition lx_upd_links f w := mkLinux (lx_default w) (lx_routes w) (lx_resolv w) (lx_backup w) (lx_user w) (lx_output w) (f (lx_links w))
  (lx_peers w) (lx_ipv6Blocked w) (lx_ipv6RuleID w) (lx_osNames w) (lx_nonces w) (lx_faults w).
Definition lx_upd_peers f w := mkLinux (lx_default w) (lx_routes w) (lx_resolv w) (lx_backup w) (lx_user w) (lx_output w) (lx_links w)
  (f (lx_peers w)) (lx_ipv6Blocked w) (lx_ipv6RuleID w) (lx_osNames w) (lx_nonces w) (lx_faults w).
Definition lx_upd_names f w := mkLinux (lx_default w) (lx_routes w) (lx_resolv w) (lx_backup w) (lx_user w) (lx_output w) (lx_links w)
  (lx_peers w) (lx_ipv6Blocked w) (lx_ipv6RuleID w) (f (lx_osNames w)) (lx_nonces w) (lx_faults w).
Definition lx_upd_nonces l w := mkLinux (lx_default w) (lx_routes w) (lx_resolv w) (lx_backup w) (lx_user w) (lx_output w) (lx_links w)
  (lx_peers w) (lx_ipv6Blocked w) (lx_ipv6RuleID w) (lx_osNames w) l (lx_faults w).
Definition lx_upd_faults l w := mkLinux (lx_default w) (lx_routes w) (lx_resolv w) (lx_backup w) (lx_user w) (lx_output w) (lx_links w)
  (lx_peers w) (lx_ipv6Blocked w) (lx_ipv6RuleID w) (lx_osNames w) (lx_nonces w) l.

(** A command: it fails and changes nothing, or does [f]. *)
Definition lx_run (f : Linux -> Linux) : io Linux unit := fun w =>
  match lx_faults w with
  | true :: l => (Err "exit status 1"%string, lx_upd_faults l w)
  | _ => (Ok tt, f (lx_upd_faults (tl (lx_faults w)) w))
  end.

(** strings.Fields *)
Fixpoint fields_loop (cur : string) (s : string) : list string :=
  match s with
  | EmptyString => if str_empty cur then [] else [cur]
  | String c r =>
      if is_space c then if str_empty cur then fields_loop "" r else cur :: fields_loop "" r
      else fields_loop (cur ++ String c "") r
  end.
Definition Fields (s : string) : list string := fields_loop "" s.

Fixpoint route_fields (gateway iface : string) (fields : list string) : string * string :=
  match fields with
  | [] => (gateway, iface)
  | f :: r =>
      if String.eqb f "via" then route_fields (hd gateway r) iface r
      else if String.eqb f "dev" then route_fields gateway (hd iface r) r
      else route_fields gateway iface r
  end.
Definition linux_DefaultRoute : io Linux (string * string) :=
  lx_run (fun w => w) ~>
  (out <~ iget lx_default ;;
   let '(gateway, iface) := route_fields "" "" (Fields out) in
   if str_empty iface then ifail "no default route found" else iret (gateway, iface)).

(** "ip route replace" puts the route in the place of any other to the same
    destination; "ip route del" by destination; a route that is gone is no error. *)
Definition linux_AddRoute (r : route) : io Linux unit := lx_run (lx_upd_routes (add_rt r)).
Definition linux_DeleteRoute (r : route) : io Linux unit := lx_run (lx_upd_routes (delete (rt_cidr r))).

(** os.WriteFile: opening truncates the file, then the content is written. *)
Definition lx_write (set : string -> Linux -> Linux) (content : string) : io Linux unit :=
  lx_run (set ""%string) ~> lx_run (set content).
Definition set_resolv (s : string) (w : Linux) : Linux := lx_upd_dns s (lx_backup w) w.
Definition set_backup (s : string) (w : Linux) : Linux := lx_upd_dns (lx_resolv w) (Some s) w.
Definition newline : string := String (ascii_of_nat 10) "".
Definition managed (resolver : string) : string :=
  ("# Managed by ARFL while the tunnel is up." ++ newline ++ "nameserver " ++ resolver ++ newline)%string.
Definition linux_SetDNS (resolver : string) : io Linux unit :=
  lx_run (fun w => w) ~>
  (current <~ iget lx_resolv ;;
   backup <~ iget lx_backup ;;
   (match backup with None => lx_write set_backup current | Some _ => iret tt end) ~>
   lx_write set_resolv (managed resolver)).
Definition linux_RestoreDNS : io Linux unit :=
  backup <~ iget lx_backup ;;
  match backup with
  | None => iret tt
  | Some saved =>
      lx_run (fun w => w) ~> lx_write set_resolv saved ~> lx_run (fun w => lx_upd_dns (lx_resolv w) None w)
  end.

Definition is_ours (r : rule) : bool := match r with Ours _ => true | Other _ => false end.
Definition rule_is (id : string) (r : rule) : bool := match r with Ours x => String.eqb x id | Other _ => false end.
(** The lines of "ip6tables -S OUTPUT" *)
Definition rule_line (r : rule) : string :=
  match r with Ours id => ("-A OUTPUT -m comment --comment " ++ id ++ " -j REJECT")%string | Other text => ("-A OUTPUT " ++ text)%string end.
Definition rules_listing (l : list rule) : list string := "-P OUTPUT ACCEPT"%string :: (rule_line <$> l).
Definition HasSuffix (s suffix : string) : bool := String.eqb (str_drop (String.length s - String.length suffix) s) suffix.
Fixpoint ipv6RuleFirst (lines : list string) (id : string) : bool :=
  match lines with
  | [] => false
  | line :: r =>
      if String.prefix "-A OUTPUT " line then Contains line ("--comment " ++ id ++ " ")%string && HasSuffix line " -j REJECT"
      else ipv6RuleFirst r id
  end.
(** "ip6tables -D" removes the first rule that matches. *)
Fixpoint remove_rule (id : string) (l : list rule) : list rule :=
  match l with [] => [] | r :: l' => if rule_is id r then l' else r :: remove_rule id l' end.

Definition linux_DisableIPv6 : io Linux unit :=
  blocked <~ iget lx_ipv6Blocked ;;
  if blocked then iret tt
  else
    nonces <~ iget lx_nonces ;;
    match nonces with
    | [] => ifail "identify IPv6 rule"
    | nonce :: rest =>
        let id := ("arfl-" ++ nonce)%string in
        iput (lx_upd_nonces rest) ~>
        iput (fun w => lx_upd_ipv6 (lx_output w) (lx_ipv6Blocked w) id w) ~>
        lx_run (fun w => lx_upd_ipv6 (Ours id :: lx_output w) (lx_ipv6Blocked w) id w) ~>
        iput (fun w => lx_upd_ipv6 (lx_output w) true id w) ~>
        lx_run (fun w => w) ~>
        (rules <~ iget (fun w => rules_listing (lx_output w)) ;;
         if ipv6RuleFirst rules id then iret tt else ifail "outbound IPv6 block is not first in OUTPUT")
    end.
Definition linux_RestoreIPv6 : io Linux unit :=
  blocked <~ iget lx_ipv6Blocked ;;
  if negb blocked then iret tt
  else
    lx_run (fun w => lx_upd_ipv6 (remove_rule (lx_ipv6RuleID w) (lx_output w)) (lx_ipv6Blocked w) (lx_ipv6RuleID w) w) ~>
    iput (fun w => lx_upd_ipv6 (lx_output w) false (lx_ipv6RuleID w) w).

(** *** wg.Manager on Linux: the kernel keeps the requested name *)
Definition os_name (names : gmap string string) (logical : string) : string := default logical (names !! logical).
Definition linux_createOSInterface (name : string) : io Linux string :=
  exists_ <~ iget (fun w => bool_decide (name ∈ lx_links w)) ;;
  if exists_ : bool then
    _ <~ itry (lx_run (lx_upd_links (fun l => l ∖ {[name]}))) ;;
    left <~ iget (fun w => bool_decide (name ∈ lx_links w)) ;;
    (if left : bool then ifail "File exists" else lx_run (lx_upd_links (fun l => {[name]} ∪ l))) ~> iret name
  else lx_run (lx_upd_links (fun l => {[name]} ∪ l)) ~> iret name.
(** ParseKey, ConfigureDevice, the address, the MTU and bringing the link up *)
Definition linux_CreateInterface (c : InterfaceConfig) : io Linux unit :=
  osName <~ linux_createOSInterface (ic_Name c) ;;
  iput (lx_upd_names (insert (ic_Name c) osName)) ~>
  Nat.iter 5 (fun rest => lx_run (fun w => w) ~> rest) (iret tt).
Definition linux_deleteOSInterface (name : string) : io Linux unit :=
  present <~ iget (fun w => bool_decide (name ∈ lx_links w)) ;;
  if present : bool then lx_run (lx_upd_links (fun l => l ∖ {[name]})) else ifail "Cannot find device".
Definition linux_DeleteInterface (name : string) : io Linux unit :=
  osName <~ iget (fun w => os_name (lx_osNames w) name) ;;
  r <~ itry (linux_deleteOSInterface osName) ;;
  iput (lx_upd_names (delete name)) ~>
  match r with Ok _ => iret tt | Err e => ifail e end.
(** Parsing the key, the endpoint and the addresses, then ConfigureDevice *)
Definition linux_AddPeer (iface : string) (peer : PeerConfig) : io Linux unit :=
  lx_run (fun w => w) ~> lx_run (lx_upd_peers (insert iface peer)).

Definition linux_view (w : Linux) : view :=
  mkView (lx_routes w) (lx_links w) (lx_peers w) (negb (String.eqb (lx_resolv w) (lx_user w))) (existsb is_ours (lx_output w)).
(** The rule the configurator remembers is the only one of ours, and there while
    it says so; interfaces go by their own names. *)
Definition linux_ok (w : Linux) : Prop :=
  List.filter is_ours (lx_output w) = (if lx_ipv6Blocked w then [Ours (lx_ipv6RuleID w)] else []) /\
  forall n o, lx_osNames w !! n = Some o -> o = n.
#[export] Instance linux_host : Host Linux := {|
  DefaultRoute := linux_DefaultRoute;
  AddRoute := linux_AddRoute;
  DeleteRoute := linux_DeleteRoute;
  SetDNS := linux_SetDNS;
  RestoreDNS := linux_RestoreDNS;
  DisableIPv6 := linux_DisableIPv6;
  RestoreIPv6 := linux_RestoreIPv6;
  CreateInterface := linux_CreateInterface;
  DeleteInterface := linux_DeleteInterface;
  AddPeer := linux_AddPeer;
  InterfaceName := fun logical w => os_name (lx_osNames w) logical;
  host_view := linux_view;
  host_ok := linux_ok
|}.

(** ** macOS *)
Record Darwin := mkDarwin {
  dw_default : list (list string);              (* the fields of the lines of "route -n get default" *)
  dw_routes : gmap string (string * string);
  dw_services : list (string * list string);    (* network services and their DNS servers *)
  dw_user : list (string * list string);        (* the same as the user had them, to compare with *)
  dw_dnsBackup : gmap string (list string);
  dw_hook : bool;                               (* the packet filter has a usable anchor hook *)
  dw_anchors : gset string;                     (* anchors that block IPv6 *)
  dw_ipv6Anchor : string;
  dw_ipv6Token : string;
  dw_utuns : gset string;                       (* control sockets of wireguard-go *)
  dw_next : nat;                                (* the next utun the kernel gives *)
  dw_peers : gmap string PeerConfig;
  dw_osNames : gmap string string;
  dw_nonces : list string;
  dw_faults : list bool
}.
Definition dw_upd_routes f w := mkDarwin (dw_default w) (f (dw_routes w)) (dw_services w) (dw_user w) (dw_dnsBackup w) (dw_hook w) (dw_anchors w)
  (dw_ipv6Anchor w) (dw_ipv6Token w) (dw_utuns w) (dw_next w) (dw_peers w) (dw_osNames w) (dw_nonces w) (dw_faults w).
Definition dw_upd_services f w := mkDarwin (dw_default w) (dw_routes w) (f (dw_services w)) (dw_user w) (dw_dnsBackup w) (dw_hook w) (dw_anchors w)
  (dw_ipv6Anchor w) (dw_ipv6Token w) (dw_utuns w) (dw_next w) (dw_peers w) (dw_osNames w) (dw_nonces w) (dw_faults w).
Definition dw_upd_backup f w := mkDarwin (dw_default w) (dw_routes w) (dw_services w) (dw_user w) (f (dw_dnsBackup w)) (dw_hook w) (dw_anchors w)
  (dw_ipv6Anchor w) (dw_ipv6Token w) (dw_utuns w) (dw_next w) (dw_peers w) (dw_osNames w) (dw_nonces w) (dw_faults w).
Definition dw_upd_ipv6 anchors anchor token nonces w := mkDarwin (dw_default w) (dw_routes w) (dw_services w) (dw_user w) (dw_dnsBackup w)
  (dw_hook w) anchors anchor token (dw_utuns w) (dw_next w) (dw_peers w) (dw_osNames w) nonces (dw_faults w).
Definition dw_upd_utuns f next w := mkDarwin (dw_default w) (dw_routes w) (dw_services w) (dw_user w) (dw_dnsBackup w) (dw_hook w) (dw_anchors w)
  (dw_ipv6Anchor w) (dw_ipv6Token w) (f (dw_utuns w)) next (dw_peers w) (dw_osNames w) (dw_nonces w) (dw_faults w).
Definition dw_upd_peers f w := mkDarwin (dw_default w) (dw_routes w) (dw_services w) (dw_user w) (dw_dnsBackup w) (dw_hook w) (dw_anchors w)
  (dw_ipv6Anchor w) (dw_ipv6Token w) (dw_utuns w) (dw_next w) (f (dw_peers w)) (dw_osNames w) (dw_nonces w) (dw_faults w).
Definition dw_upd_names f w := mkDarwin (dw_default w) (dw_routes w) (dw_services w) (dw_user w) (dw_dnsBackup w) (dw_hook w) (dw_anchors w)
  (dw_ipv6Anchor w) (dw_ipv6Token w) (dw_utuns w) (dw_next w) (dw_peers w) (f (dw_osNames w)) (dw_nonces w) (dw_faults w).
Definition dw_upd_faults l w := mkDarwin (dw_default w) (dw_routes w) (dw_services w) (dw_user w) (dw_dnsBackup w) (dw_hook w) (dw_anchors w)
  (dw_ipv6Anchor w) (dw_ipv6Token w) (dw_utuns w) (dw_next w) (dw_peers w) (dw_osNames w) (dw_nonces w) l.
Definition dw_run (f : Darwin -> Darwin) : io Darwin unit := fun w =>
  match dw_faults w with
  | true :: l => (Err "exit status 1"%string, dw_upd_faults l w)
  | _ => (Ok tt, f (dw_upd_faults (tl (dw_faults w)) w))
  end.

Fixpoint route_lines (gateway iface : string) (lines : list (list string)) : string * string :=
  match lines with
  | [] => (gateway, iface)
  | (key :: value :: _) :: r =>
      if String.eqb key "gateway:" then route_lines value iface r
      else if String.eqb key "interface:" then route_lines gateway value r else route_lines gateway iface r
  | _ :: r => route_lines gateway iface r
  end.
Definition darwin_DefaultRoute : io Darwin (string * string) :=
  dw_run (fun w => w) ~>
  (lines <~ iget dw_default ;;
   let '(gateway, iface) := route_lines "" "" lines in
   if str_empty iface then ifail "no default route found" else iret (gateway, iface)).
Definition darwin_DeleteRoute (r : route) : io Darwin unit := dw_run (dw_upd_routes (delete (rt_cidr r))).
Definition darwin_AddRoute (r : route) : io Darwin unit :=
  _ <~ itry (darwin_DeleteRoute r) ;; dw_run (dw_upd_routes (add_rt r)).

(** networksetup *)
Definition set_servers (service : string) (servers : list string) (l : list (string * list string)) : list (string * list string) :=
  (fun e : string * list string => if String.eqb e.1 service then (service, servers) else e) <$> l.
Definition get_servers (service : string) (l : list (string * list string)) : list string :=
  default [] (snd <$> List.find (fun e => String.eqb e.1 service) l).
Fixpoint setdns_loop (resolver : string) (services : list string) : io Darwin unit :=
  match services with
  | [] => iret tt
  | service :: r =>
      (* currentDNS; a service that cannot be read is skipped *)
      ok <~ itry (dw_run (fun w => w)) ;;
      if negb (is_ok ok) then setdns_loop resolver r
      else
        current <~ iget (fun w => get_servers service (dw_services w)) ;;
        dw_run (dw_upd_services (set_servers service [resolver])) ~>
        iput (dw_upd_backup (insert service current)) ~>
        setdns_loop resolver r
  end.
Definition darwin_SetDNS (resolver : string) : io Darwin unit :=
  dw_run (fun w => w) ~>
  (services <~ iget (fun w => fst <$> dw_services w) ;;
   match services with
   | [] => ifail "no enabled network services found"
   | _ =>
       setdns_loop resolver services ~>
       (backup <~ iget dw_dnsBackup ;;
        if bool_decide (backup = ∅) then ifail "no network service accepted a DNS change" else iret tt)
   end).
Fixpoint restoredns_loop (backup : list (string * list string)) (problems : bool) : io Darwin bool :=
  match backup with
  | [] => iret problems
  | (service, previous) :: r =>
      ok <~ itry (dw_run (dw_upd_services (set_servers service previous))) ;;
      restoredns_loop r (problems || negb (is_ok ok))
  end.
(** In some order; the backup is forgotten whatever happened. *)
Definition darwin_RestoreDNS : io Darwin unit :=
  backup <~ iget (fun w => map_to_list (dw_dnsBackup w)) ;;
  problems <~ restoredns_loop backup false ;;
  iput (dw_upd_backup (fun _ => ∅)) ~>
  (if problems : bool then ifail "restore DNS" else iret tt).

Definition darwin_DisableIPv6 : io Darwin unit :=
  anchor <~ iget dw_ipv6Anchor ;;
  if negb (str_empty anchor) then iret tt
  else
    dw_run (fun w => w) ~>
    (hook <~ iget dw_hook ;;
     if negb hook then ifail "packet filter has no usable com.apple/* filter anchor for IPv6"
     else
       nonces <~ iget dw_nonces ;;
       match nonces with
       | [] => ifail "identify IPv6 anchor"
       | nonce :: rest =>
           let id := ("com.apple/arfl-" ++ nonce)%string in
           iput (fun w => dw_upd_ipv6 (dw_anchors w) id (dw_ipv6Token w) rest w) ~>
           (* install, verify, enable with a token, check the status *)
           dw_run (fun w => dw_upd_ipv6 ({[id]} ∪ dw_anchors w) id (dw_ipv6Token w) rest w) ~>
           dw_run (fun w => w) ~>
           dw_run (fun w => dw_upd_ipv6 (dw_anchors w) id "token" rest w) ~>
           dw_run (fun w => w)
       end).
Definition darwin_RestoreIPv6 : io Darwin unit :=
  anchor <~ iget dw_ipv6Anchor ;;
  if str_empty anchor then iret tt
  else
    dw_run (fun w => dw_upd_ipv6 (dw_anchors w ∖ {[anchor]}) (dw_ipv6Anchor w) (dw_ipv6Token w) (dw_nonces w) w) ~>
    (token <~ iget dw_ipv6Token ;;
     (if str_empty token then iret tt else dw_run (fun w => w)) ~>
     iput (fun w => dw_upd_ipv6 (dw_anchors w) "" "" (dw_nonces w) w)).

(** *** wg.Manager on macOS: the kernel picks the name *)
Definition utun (n : nat) : string := ("utun" ++ show_Z (Z.of_nat n))%string.
Definition darwin_createOSInterface : io Darwin string :=
  next <~ iget dw_next ;;
  dw_run (fun w => dw_upd_utuns (fun l => {[utun next]} ∪ l) (S next) w) ~> iret (utun next).
Definition darwin_CreateInterface (c : InterfaceConfig) : io Darwin unit :=
  osName <~ darwin_createOSInterface ;;
  iput (dw_upd_names (insert (ic_Name c) osName)) ~>
  Nat.iter 4 (fun rest => dw_run (fun w => w) ~> rest) (iret tt).
(** A control socket that is not there is no error. *)
Definition darwin_deleteOSInterface (name : string) : io Darwin unit := dw_run (fun w => dw_upd_utuns (fun l => l ∖ {[name]}) (dw_next w) w).
Definition darwin_DeleteInterface (name : string) : io Darwin unit :=
  osName <~ iget (fun w => os_name (dw_osNames w) name) ;;
  r <~ itry (darwin_deleteOSInterface osName) ;;
  iput (dw_upd_names (delete name)) ~>
  match r with Ok _ => iret tt | Err e => ifail e end.
Definition darwin_AddPeer (iface : string) (peer : PeerConfig) : io Darwin unit :=
  dw_run (fun w => w) ~> dw_run (dw_upd_peers (insert iface peer)).

Definition darwin_view (w : Darwin) : view :=
  mkView (dw_routes w) (dw_utuns w) (dw_peers w) (negb (bool_decide (dw_services w = dw_user w))) (negb (bool_decide (dw_anchors w = ∅))).
#[export] Instance darwin_host : Host Darwin := {|
  DefaultRoute := darwin_DefaultRoute;
  AddRoute := darwin_AddRoute;
  DeleteRoute := darwin_DeleteRoute;
  SetDNS := darwin_SetDNS;
  RestoreDNS := darwin_RestoreDNS;
  DisableIPv6 := darwin_DisableIPv6;
  RestoreIPv6 := darwin_RestoreIPv6;
  CreateInterface := darwin_CreateInterface;
  DeleteInterface := darwin_DeleteInterface;
  AddPeer := darwin_AddPeer;
  InterfaceName := fun logical w => os_name (dw_osNames w) logical;
  host_view := darwin_view;
  host_ok := fun _ => True
|}.

(** *** Linux keeps the laws *)
Lemma ibind_inv {W A B} (m : io W A) (k : A -> io W B) w r w' : ibind m k w = (r, w') ->
  (exists e, m w = (Err e, w') /\ r = Err e) \/ exists a w1, m w = (Ok a, w1) /\ k a w1 = (r, w').
Proof. unfold ibind. destruct (m w) as [[a|e] w1]; intros H; [right; by exists a, w1|left; exists e; by simplify_eq]. Qed.
Lemma itry_inv {S A} (m : io S A) s r s' : itry m s = (r, s') -> exists x, r = Ok x /\ m s = (x, s').
Proof. unfold itry. destruct (m s) as [x s1]. intros [= <- <-]. by exists x. Qed.

(** What an operation does to the view, outside the part that [erase] leaves out. *)
Definition keeps {W A} `{Host W} (erase : view -> view) (m : io W A) : Prop :=
  forall w r w', m w = (r, w') -> host_ok w -> host_ok w' /\ erase (host_view w') = erase (host_view w).
Section keeps.
Context `{Host W} (erase : view -> view).
Lemma keeps_bind {A B} (m : io W A) (k : A -> io W B) : keeps erase m -> (forall a, keeps erase (k a)) -> keeps erase (ibind m k).
Proof.
  intros Hm Hk w r w' [(e & Hr & ->)|(a & w1 & Hr & Hr')]%ibind_inv Hi; [by apply (Hm w (Err e))|].
  destruct (Hm _ _ _ Hr Hi) as [Hi1 HR1]. destruct (Hk _ _ _ _ Hr' Hi1) as [Hi2 HR2]. split; [done|congruence].
Qed.
Lemma keeps_same {A} (f : W -> result string A) : keeps erase (fun w => (f w, w)).
Proof. by intros w r w' [= <- <-] Hi. Qed.
Lemma keeps_try {A} (m : io W A) : keeps erase m -> keeps erase (itry m).
Proof. intros Hm w r w' Hr. unfold itry in Hr. destruct (m w) as [r1 w1] eqn:Hw. injection Hr as <- <-. by apply (Hm w r1). Qed.
End keeps.

Lemma lx_run_inv f w r w' : lx_run f w = (r, w') ->
  (exists l, w' = f (lx_upd_faults l w) /\ r = Ok tt) \/ exists e l, r = Err e /\ w' = lx_upd_faults l w.
Proof.
  unfold lx_run. destruct (lx_faults w) as [|[|] l]; intros [= <- <-];
    [left; by eexists|right; by do 2 eexists|left; by eexists].
Qed.
Lemma keeps_run erase (f : Linux -> Linux) :
  (forall w, linux_ok w -> linux_ok (f w) /\ erase (linux_view (f w)) = erase (linux_view w)) -> keeps erase (lx_run f).
Proof.
  intros Hf w r w' [(l & -> & _)|(e & l & _ & ->)]%lx_run_inv Hi; [|done]. exact (Hf (lx_upd_faults l w) Hi).
Qed.
Lemma keeps_put erase (f : Linux -> Linux) :
  (forall w, linux_ok w -> linux_ok (f w) /\ erase (linux_view (f w)) = erase (linux_view w)) -> keeps erase (iput f).
Proof. intros Hf w r w' [= <- <-] Hi. by apply Hf. Qed.

Create HintDb keeps.
#[export] Hint Resolve keeps_bind keeps_same keeps_try keeps_run keeps_put : keeps.
Ltac keeps := repeat (intros; cbv beta; match goal with
  | |- keeps _ (ibind _ _) => apply keeps_bind
  | |- keeps _ (itry _) => apply keeps_try
  | |- keeps _ (lx_run _) => apply keeps_run; try done
  | |- keeps _ (iput _) => apply keeps_put; try done
  | |- keeps _ (iget _) => apply keeps_same
  | |- keeps _ (iret _) => apply keeps_same
  | |- keeps _ (ifail _) => apply keeps_same
  | |- keeps _ (match ?x with _ => _ end) => destruct x
  | |- keeps _ (lx_write _ _) => unfold lx_write
  end).

(** From a view that is kept but for one part. *)
Lemma erased_dns v v' : set_dns false v' = set_dns false v -> exists b, v' = set_dns b v.
Proof. destruct v as [r i p d x], v' as [r' i' p' d' x']. intros [= -> -> -> ->]. by exists d'. Qed.
Lemma erased_ipv6 v v' : set_ipv6 false v' = set_ipv6 false v -> exists b, v' = set_ipv6 b v /\ b = vw_ipv6 v'.
Proof. destruct v as [r i p d x], v' as [r' i' p' d' x']. intros [= -> -> -> ->]. by exists x'. Qed.
Lemma erased_ifaces v v' : set_ifaces ∅ v' = set_ifaces ∅ v -> exists l, v' = set_ifaces l v /\ l = vw_ifaces v'.
Proof. destruct v as [r i p d x], v' as [r' i' p' d' x']. intros [= -> -> -> ->]. by exists i'. Qed.

Lemma linux_dns_keeps s : keeps (set_dns false) (linux_SetDNS s) /\ keeps (set_dns false) linux_RestoreDNS.
Proof. unfold linux_SetDNS, linux_RestoreDNS. split; keeps. Qed.
(** What the two IPv6 operations leave. *)
Lemma linux_disable_spec w r w' : linux_DisableIPv6 w = (r, w') -> linux_ok w -> linux_ok w' /\
  set_ipv6 false (linux_view w') = set_ipv6 false (linux_view w) /\ (is_ok r = true -> vw_ipv6 (linux_view w') = true).
Proof.
  intros H [Hours Hnames]. unfold linux_DisableIPv6 in H. apply ibind_inv in H as [(e & [=] & _)|(b & w0 & [= <- <-] & H)].
  destruct (lx_ipv6Blocked w) eqn:Hb.
  { injection H as <- <-. split_and!; [by split; rewrite ?Hb|done|]. intros _. cbn. apply existsb_exists. exists (Ours (lx_ipv6RuleID w)).
    split; [|done]. apply (filter_In is_ours). rewrite Hours. by left. }
  apply ibind_inv in H as [(e & [=] & _)|(ns & w0 & [= <- <-] & H)]. destruct (lx_nonces w) as [|n ns].
  { injection H as <- <-. split_and!; [by split; rewrite ?Hb|done|done]. }
  unfold iput in H. cbn [ibind] in H. unfold ibind at 1 in H. unfold ibind at 1 in H.
  apply ibind_inv in H as [(e & H & ->)|(u & w1 & H & H')].
  { apply lx_run_inv in H as [(l & _ & [=])|(e' & l & _ & ->)]. split_and!; [by split; cbn; rewrite ?Hb|done|done]. }
  apply lx_run_inv in H as [(l & -> & _)|(e' & l & [=] & _)]. unfold ibind at 1 in H'.
  assert (forall l', let w2 := lx_upd_faults l' (lx_upd_ipv6 (Ours ("arfl-" ++ n) :: lx_output w) true ("arfl-" ++ n) (lx_upd_nonces ns w)) in
    linux_ok w2 /\ set_ipv6 false (linux_view w2) = set_ipv6 false (linux_view w) /\ vw_ipv6 (linux_view w2) = true) as Hend.
  { intros l'. cbn zeta. split_and!; [|done|done]. split; [|exact Hnames]. cbn. by rewrite Hours. }
  apply ibind_inv in H' as [(e & H & ->)|(u' & w1 & H & H')].
  { apply lx_run_inv in H as [(l0 & _ & [=])|(e' & l0 & _ & ->)]. by destruct (Hend l0) as (A & B & _). }
  apply lx_run_inv in H as [(l0 & -> & _)|(e' & l0 & [=] & _)]. destruct (Hend l0) as (A & B & C).
  apply ibind_inv in H' as [(e & [=] & _)|(rs & w1 & [= <- <-] & H)].
  destruct (ipv6RuleFirst _ _); injection H as <- <-; by split_and!.
Qed.

Lemma remove_ours id l : List.filter is_ours l = [Ours id] -> List.filter is_ours (remove_rule id l) = [].
Proof.
  induction l as [|r l IH]; cbn; [done|]. destruct r as [x|t]; cbn.
  - intros [= -> Hl]. by rewrite String.eqb_refl.
  - exact IH.
Qed.
Lemma existsb_filter l : List.filter is_ours l = [] -> existsb is_ours l = false.
Proof. induction l as [|[x|t] l IH]; cbn; [done|done|exact IH]. Qed.
Lemma linux_restore_spec w r w' : linux_RestoreIPv6 w = (r, w') -> linux_ok w -> linux_ok w' /\
  set_ipv6 false (linux_view w') = set_ipv6 false (linux_view w) /\ (is_ok r = true -> vw_ipv6 (linux_view w') = false).
Proof.
  intros H [Hours Hnames]. unfold linux_RestoreIPv6 in H. apply ibind_inv in H as [(e & [=] & _)|(b & w0 & [= <- <-] & H)].
  destruct (lx_ipv6Blocked w) eqn:Hb; cbn [negb] in H.
  2:{ injection H as <- <-. split_and!; [by split; rewrite ?Hb|done|]. intros _. by apply existsb_filter. }
  apply ibind_inv in H as [(e & H & ->)|(u & w1 & H & H')].
  { apply lx_run_inv in H as [(l & _ & [=])|(e' & l & _ & ->)]. split_and!; [by split; cbn; rewrite ?Hb|done|done]. }
  apply lx_run_inv in H as [(l & -> & _)|(e' & l & [=] & _)]. injection H' as <- <-. pose proof (remove_ours _ _ Hours) as Hr.
  split_and!; [split; [exact Hr|exact Hnames]|done|]. intros _. by apply existsb_filter.
Qed.

Lemma linux_create_os n w r w' : linux_createOSInterface n w = (r, w') -> linux_ok w -> linux_ok w' /\
  set_ifaces ∅ (linux_view w') = set_ifaces ∅ (linux_view w) /\ lx_osNames w' = lx_osNames w /\
  match r with Ok o => o = n /\ lx_links w' = {[n]} ∪ lx_links w | Err _ => True end.
Proof.
  unfold linux_createOSInterface. intros H Hi. apply ibind_inv in H as [(e & [=] & _)|(b & w0 & [= <- <-] & H)].
  case_bool_decide as Hin.
  - apply ibind_inv in H as [(e & H & ->)|(u & w1 & H & H')].
    { unfold itry in H. destruct (lx_run _ w) as [r1 w1]. done. }
    unfold itry in H. destruct (lx_run _ w) as [r1 w2] eqn:Hr. injection H as <- <-.
    apply ibind_inv in H' as [(e & [=] & _)|(b & w1 & [= <- <-] & H)].
    apply lx_run_inv in Hr as [(l & -> & _)|(e & l & _ & ->)]; cbn in H.
    + rewrite bool_decide_eq_false_2 in H by set_solver. apply ibind_inv in H as [(e & H & ->)|(u & w1 & H & [= <- <-])].
      * by apply lx_run_inv in H as [(l0 & _ & [=])|(e' & l0 & _ & ->)].
      * apply lx_run_inv in H as [(l0 & -> & _)|(e' & l0 & [=] & _)]. split_and!; [done..|]. cbn.
        apply set_eq. intros x. rewrite !elem_of_union, elem_of_difference, elem_of_singleton. destruct (decide (x = n)); tauto.
    + rewrite bool_decide_eq_true_2 in H by done. injection H as <- <-. done.
  - apply ibind_inv in H as [(e & H & ->)|(u & w1 & H & [= <- <-])].
    + by apply lx_run_inv in H as [(l0 & _ & [=])|(e' & l0 & _ & ->)].
    + by apply lx_run_inv in H as [(l0 & -> & _)|(e' & l0 & [=] & _)].
Qed.

(** Commands that change nothing but may fail. *)
Lemma idle_runs k : forall w r w', Nat.iter k (fun m => lx_run (fun w => w) ~> m) (iret tt) w = (r, w') ->
  exists l, w' = lx_upd_faults l w.
Proof.
  induction k as [|k IH]; cbn [Nat.iter].
  - intros w r w' [= <- <-]. exists (lx_faults w). by destruct w.
  - intros w r w' [(e & H & ->)|(u & w1 & H & H')]%ibind_inv.
    + apply lx_run_inv in H as [(l & _ & [=])|(e' & l & _ & ->)]. by exists l.
    + apply lx_run_inv in H as [(l & -> & _)|(e' & l & [=] & _)]. apply IH in H' as [l' ->]. by exists l'.
Qed.

#[export] Instance linux_laws : HostLaws Linux.
Proof.
  split.
  - intros w r w' H Hi. assert (keeps (fun v => v) linux_DefaultRoute) as Hk by (unfold linux_DefaultRoute; keeps).
    exact (Hk _ _ _ H Hi).
  - intros rt w r w' [(l & -> & ->)|(e & l & -> & ->)]%lx_run_inv Hi; (split; [exact Hi|]); [by exists (add_rt rt (lx_routes w))|by exists (lx_routes w)].
  - intros rt w r w' [(l & -> & ->)|(e & l & -> & ->)]%lx_run_inv Hi; (split; [exact Hi|]); [by exists (delete (rt_cidr rt) (lx_routes w))|by exists (lx_routes w)].
  - intros s w r w' H Hi. destruct (proj1 (linux_dns_keeps s) _ _ _ H Hi) as [Hi' He]. split; [done|]. by apply erased_dns.
  - intros w r w' H Hi. destruct (proj2 (linux_dns_keeps "") _ _ _ H Hi) as [Hi' He]. split; [done|]. by apply erased_dns.
  - intros w r w' H Hi. destruct (linux_disable_spec _ _ _ H Hi) as (Hi' & He & Hr). split; [done|].
    destruct (erased_ipv6 _ _ He) as (b & Hb & ->). eexists. split; [exact Hb|exact Hr].
  - intros w r w' H Hi. destruct (linux_restore_spec _ _ _ H Hi) as (Hi' & He & Hr). split; [done|].
    destruct (erased_ipv6 _ _ He) as (b & Hb & ->). eexists. split; [exact Hb|exact Hr].
  - intros c w r w' H Hi. apply ibind_inv in H as [(e & H & ->)|(o & w1 & H & H')].
    + destruct (linux_create_os _ _ _ _ H Hi) as (Hi' & He & _). split; [done|].
      destruct (erased_ifaces _ _ He) as (l & Hl & _). by exists l.
    + destruct (linux_create_os _ _ _ _ H Hi) as ([Ho Hn] & He & Hnames & -> & Hlinks). unfold iput in H'. unfold ibind at 1 in H'.
      apply idle_runs in H' as [l ->]. split.
      * split; [exact Ho|]. cbn. intros n o. rewrite lookup_insert_Some. intros [[<- <-]|[_ Hl]]; [done|by apply Hn].
      * destruct (erased_ifaces _ _ He) as (l' & Hl' & ->). eexists. split; [exact Hl'|]. intros _. exact Hlinks.
  - intros n w r w' H Hi. unfold DeleteInterface, linux_host, linux_DeleteInterface in H.
    apply ibind_inv in H as [(e & [=] & _)|(o & w0 & [= <- <-] & H)].
    apply ibind_inv in H as [(e & H & _)|(u & w1 & H & H')].
    { unfold itry in H. by destruct (linux_deleteOSInterface _ w). }
    unfold itry in H. destruct (linux_deleteOSInterface _ w) as [r1 w2] eqn:Hd. injection H as <- <-.
    assert (linux_ok w2 /\ exists l, linux_view w2 = set_ifaces l (linux_view w) /\ l ⊆ lx_links w /\ lx_osNames w2 = lx_osNames w) as (Hi2 & l & Hv & Hl & Hnm).
    { unfold linux_deleteOSInterface in Hd. apply ibind_inv in Hd as [(e & [=] & _)|(b & w0 & [= <- <-] & Hd)].
      destruct (bool_decide _); [|injection Hd as <- <-; split; [done|by exists (lx_links w)]].
      apply lx_run_inv in Hd as [(l & -> & ->)|(e & l & -> & ->)]; (split; [exact Hi|]).
      - eexists. split_and!; [done| |done]. cbn. set_solver.
      - by exists (lx_links w). }
    assert (w' = lx_upd_names (delete n) w2) as -> by (unfold iput in H'; unfold ibind at 1 in H'; destruct r1; by injection H').
    split.
    + destruct Hi2 as [Ho Hn]. split; [exact Ho|]. cbn. intros m o. rewrite lookup_delete_Some. intros [_ Hm]. by apply Hn.
    + exists l, (lx_peers w). split; [exact Hv|done].
  - intros n p w r w' H Hi. apply ibind_inv in H as [(e & H & ->)|(u & w1 & H & H')].
    + apply lx_run_inv in H as [(l & _ & [=])|(e' & l & _ & ->)]. split; [exact Hi|]. by exists (lx_peers w).
    + apply lx_run_inv in H as [(l & -> & _)|(e' & l & [=] & _)].
      apply lx_run_inv in H' as [(l' & -> & ->)|(e' & l' & -> & ->)]; (split; [exact Hi|]); [by exists (<[n:=p]> (lx_peers w))|by exists (lx_peers w)].
Qed.

(** ** A host whose every call is done or not *)
Record Sim := mkSim { sm_default : string * string; sm_view : view; sm_faults : list bool }.
Definition sim_do (f : view -> view) : io Sim unit := fun w =>
  match sm_faults w with
  | true :: l => (Err "refused"%string, mkSim (sm_default w) (sm_view w) l)
  | l => (Ok tt, mkSim (sm_default w) (f (sm_view w)) (tl l))
  end.
#[export] Instance sim_host : Host Sim := {|
  DefaultRoute := fun w => (Ok (sm_default w), w);
  AddRoute := fun r => sim_do (fun v => set_routes (add_rt r (vw_routes v)) v);
  DeleteRoute := fun r => sim_do (fun v => set_routes (delete (rt_cidr r) (vw_routes v)) v);
  SetDNS := fun _ => sim_do (set_dns true);
  RestoreDNS := sim_do (set_dns false);
  DisableIPv6 := sim_do (set_ipv6 true);
  RestoreIPv6 := sim_do (set_ipv6 false);
  CreateInterface := fun c => sim_do (fun v => set_ifaces ({[ic_Name c]} ∪ vw_ifaces v) v);
  DeleteInterface := fun n => sim_do (fun v => set_ifaces (vw_ifaces v ∖ {[n]}) v);
  AddPeer := fun n p => sim_do (fun v => set_peers (<[n := p]> (vw_peers v)) v);
  InterfaceName := fun logical _ => logical;
  host_view := sm_view;
  host_ok := fun _ => True
|}.
Lemma sim_do_inv f w r w' : sim_do f w = (r, w') ->
  r = Ok tt /\ sm_view w' = f (sm_view w) \/ (exists e, r = Err e) /\ sm_view w' = sm_view w.
Proof. unfold sim_do. destruct (sm_faults w) as [|[|] l]; intros [= <- <-]; [by left|right; split; [by eexists|done]|by left]. Qed.
Lemma view_same v : v = set_routes (vw_routes v) v /\ v = set_dns (vw_dns v) v /\ v = set_ipv6 (vw_ipv6 v) v /\
  v = set_ifaces (vw_ifaces v) v /\ v = set_peers (vw_peers v) v.
Proof. by destruct v. Qed.
#[export] Instance sim_laws : HostLaws Sim.
Proof.
  split; cbn [DefaultRoute AddRoute DeleteRoute SetDNS RestoreDNS DisableIPv6 RestoreIPv6 CreateInterface DeleteInterface AddPeer host_view host_ok sim_host].
  1:{ by intros w r w' [= <- <-]. }
  all: intros; match goal with Hd : sim_do _ ?w = _ |- _ => destruct (view_same (sm_view w)) as (V1 & V2 & V3 & V4 & V5);
    apply sim_do_inv in Hd as [[-> Hv]|[[e ->] Hv]] end; (split; [done|]); rewrite Hv.
  all: try (eexists; split; [first [reflexivity|exact V1|exact V2|exact V3|exact V4|exact V5]|first [done|set_solver]]).
  - by eexists.
  - by exists (vw_dns (sm_view w)).
  - by eexists.
  - by exists (vw_dns (sm_view w)).
  - exists (vw_ifaces (sm_view w) ∖ {[n]}), (vw_peers (sm_view w)). split; [done|set_solver].
  - exists (vw_ifaces (sm_view w)), (vw_peers (sm_view w)). split; [by destruct (sm_view w)|done].
Qed.
#[export] Instance sim_dns : ExactDNS Sim.
Proof.
  split; cbn [SetDNS RestoreDNS host_view sim_host].
  - by intros s w e w' [[[=] _]|[_ ->]]%sim_do_inv _.
  - by intros u w w' [[_ ->]|[[e [=]] _]]%sim_do_inv _.
Qed.
#[export] Instance sim_ifaces : ExactInterfaces Sim.
Proof.
  split; cbn [CreateInterface DeleteInterface host_view sim_host].
  - by intros c w e w' [[[=] _]|[_ ->]]%sim_do_inv _.
  - by intros n u w w' [[_ ->]|[[e [=]] _]]%sim_do_inv _.
Qed.
