(* ===== verification/Tunnel.v ===== *)
(** * Tunnel: the nested two-hop tunnel and its undoing
    (src/internal/tunnel/tunnel.go, protection.go)

    Bringing the hops up, the record of what was changed, rolling back and
    tearing down, over any host of HostNet. The parsers of net, the resolver, the
    key generator and the two checks before the IPv6 probe are arguments. *)
From S2P Require Import Prelude Peers Selector ServiceNodes ServicePay Endpoints HostNet.

Definition OuterInterface : string := "arfl-outer".
Definition InnerInterface : string := "arfl-inner".
Definition keepaliveSeconds : Z := 25.
Definition innerMTUOverhead : Z := 80.
Definition TunnelMTU : Z := 1280.
Definition OuterTunnelSubnet : string := "10.100.0.0/16".
Definition DNSResolver : string := "9.9.9.9".

Record KeyPair := mkKeys { kp_PrivateKey : string; kp_PublicKey : string }.
Record activeState := mkActive {
  as_routes : list route;
  as_dnsChanged : bool;
  as_ipv6Changed : bool;
  as_interfaces : list string;
  as_outerReady : bool;
  as_innerReady : bool;
  as_exitEndpoint : string;
  as_exitIP : string
}.
Definition no_changes (exitEndpoint exitIP : string) : activeState := mkActive [] false false [] false false exitEndpoint exitIP.
Definition as_set_routes x st := mkActive x (as_dnsChanged st) (as_ipv6Changed st) (as_interfaces st) (as_outerReady st) (as_innerReady st)
  (as_exitEndpoint st) (as_exitIP st).
Definition as_set_dns x st := mkActive (as_routes st) x (as_ipv6Changed st) (as_interfaces st) (as_outerReady st) (as_innerReady st)
  (as_exitEndpoint st) (as_exitIP st).
Definition as_set_ipv6 x st := mkActive (as_routes st) (as_dnsChanged st) x (as_interfaces st) (as_outerReady st) (as_innerReady st)
  (as_exitEndpoint st) (as_exitIP st).
Definition as_set_interfaces x st := mkActive (as_routes st) (as_dnsChanged st) (as_ipv6Changed st) x (as_outerReady st) (as_innerReady st)
  (as_exitEndpoint st) (as_exitIP st).
Definition as_set_ready outer inner st := mkActive (as_routes st) (as_dnsChanged st) (as_ipv6Changed st) (as_interfaces st) outer inner
  (as_exitEndpoint st) (as_exitIP st).

Record Tunnel := mkTun {
  tn_entryKeys : option KeyPair;
  tn_exitKeys : option KeyPair;
  tn_active : option activeState;
  tn_pendingCleanup : option activeState
}.
Definition newTunnel : Tunnel := mkTun None None None None.
Definition with_keys (e x : option KeyPair) (t : Tunnel) : Tunnel := mkTun e x (tn_active t) (tn_pendingCleanup t).
Definition with_states (a p : option activeState) (t : Tunnel) : Tunnel := mkTun (tn_entryKeys t) (tn_exitKeys t) a p.
Definition is_some {A} (o : option A) : bool := match o with Some _ => true | None => false end.

Section tunnel.
Context `{Host W}.
(** net.SplitHostPort, net.JoinHostPort, net.ParseIP and net.ParseCIDR *)
Context (SplitHostPort : string -> option (string * string)) (JoinHostPort : string -> string -> string)
  (ParseIP : string -> option IP) (ParseCIDR : string -> option (IP * Z)).

(** ** Building and undoing, with the record of the changes *)
Definition build (A : Type) : Type := io (activeState * W) A.
Definition on_host {A} (m : io W A) : build A := fun '(st, w) => let '(r, w') := m w in (r, (st, w')).
Definition record_ (f : activeState -> activeState) : build unit := iput (fun s => (f s.1, s.2)).

Definition createInterface (c : InterfaceConfig) : build unit :=
  on_host (CreateInterface c) ~> record_ (fun st => as_set_interfaces (as_interfaces st ++ [ic_Name c]) st).
Definition addRoute (r : route) : build unit :=
  on_host (AddRoute r) ~> record_ (fun st => as_set_routes (as_routes st ++ [r]) st).
Fixpoint add_routes (rs : list route) : build unit :=
  match rs with [] => iret tt | r :: l => addRoute r ~> add_routes l end.

Definition bringUpOuter (entryKeys : KeyPair) (cfg : TunnelConfig) (entryRouteIPs routeIPs : list string) (gateway iface : string) : build unit :=
  createInterface (mkIface OuterInterface (kp_PrivateKey entryKeys) 0 (hc_TunnelIP (tc_Entry cfg)) TunnelMTU) ~>
  on_host (AddPeer OuterInterface (mkPeer (hc_NodeWGPubkey (tc_Entry cfg)) (hc_Endpoint (tc_Entry cfg))
    (OuterTunnelSubnet :: ((fun ip => ip ++ "/32")%string <$> routeIPs)) keepaliveSeconds)) ~>
  add_routes ((fun ip => mkRt (ip ++ "/32") gateway iface) <$> entryRouteIPs) ~>
  (outerOS <~ iget (fun s : activeState * W => InterfaceName OuterInterface s.2) ;;
   add_routes ((fun ip => mkRt (ip ++ "/32") "" outerOS) <$> routeIPs)).

Definition bringUpInner (entryKeys exitKeys : option KeyPair) (cfg : TunnelConfig) : build unit :=
  match (match exitKeys with Some k => Some k | None => entryKeys end) with
  | None => ifail "no WireGuard keypair: call PrepareHopKeys before connecting"
  | Some innerKeys =>
      createInterface (mkIface InnerInterface (kp_PrivateKey innerKeys) 0 (hc_TunnelIP (tc_Exit cfg)) (TunnelMTU - innerMTUOverhead)) ~>
      on_host (AddPeer InnerInterface (mkPeer (hc_NodeWGPubkey (tc_Exit cfg)) (hc_Endpoint (tc_Exit cfg)) ["0.0.0.0/0"%string] keepaliveSeconds)) ~>
      (innerOS <~ iget (fun s : activeState * W => InterfaceName InnerInterface s.2) ;;
       add_routes [mkRt "0.0.0.0/1" "" innerOS; mkRt "128.0.0.0/1" "" innerOS] ~>
       on_host (SetDNS DNSResolver) ~> record_ (as_set_dns true))
  end.

(** The undo steps tell whether they failed. *)
Definition undo_dns : build bool :=
  changed <~ iget (fun s : activeState * W => as_dnsChanged s.1) ;;
  if changed : bool then
    r <~ itry (on_host RestoreDNS) ;;
    match r with Ok _ => record_ (as_set_dns false) ~> iret false | Err _ => iret true end
  else iret false.
Definition undo_ipv6 : build bool :=
  changed <~ iget (fun s : activeState * W => as_ipv6Changed s.1) ;;
  if changed : bool then
    r <~ itry (on_host RestoreIPv6) ;;
    match r with Ok _ => record_ (as_set_ipv6 false) ~> iret false | Err _ => iret true end
  else iret false.
(** What could not be undone, in the order it was tried. *)
Fixpoint undo_all {X} (undo : X -> io W unit) (xs : list X) : build (list X) :=
  match xs with
  | [] => iret []
  | x :: l =>
      r <~ itry (on_host (undo x)) ;;
      rest <~ undo_all undo l ;;
      iret (match r with Ok _ => rest | Err _ => x :: rest end)
  end.
Definition teardown : build unit :=
  dns_failed <~ undo_dns ;;
  ipv6_failed <~ undo_ipv6 ;;
  routes <~ iget (fun s : activeState * W => rev (as_routes s.1)) ;;
  remainingRoutes <~ undo_all DeleteRoute routes ;;
  record_ (as_set_routes remainingRoutes) ~>
  (interfaces <~ iget (fun s : activeState * W => rev (as_interfaces s.1)) ;;
   remainingInterfaces <~ undo_all DeleteInterface interfaces ;;
   record_ (as_set_interfaces remainingInterfaces) ~>
   match dns_failed || ipv6_failed, remainingRoutes, remainingInterfaces with
   | false, [], [] => iret tt
   | _, _, _ => ifail "tunnel teardown incomplete"
   end).

(** ** The operations *)
Definition top (A : Type) : Type := io (Tunnel * W) A.
Definition with_host {A} (m : io W A) : top A := fun '(t, w) => let '(r, w') := m w in (r, (t, w')).
(** Run on a record of changes; its result and what the record has become. *)
Definition on_record {A} (st : activeState) (m : build A) : top (result string A * activeState) :=
  fun '(t, w) => let '(r, (st', w')) := m (st, w) in (Ok (r, st'), (t, w')).
Definition tget {A} (f : Tunnel -> A) : top A := iget (fun s => f s.1).
Definition tset (f : Tunnel -> Tunnel) : top unit := iput (fun s => (f s.1, s.2)).
Definition checked {A} (r : result tunnel_error A) : top A := match r with Ok a => iret a | Err _ => ifail "invalid tunnel configuration" end.

Definition disconnectLocked : top unit :=
  tset (fun t => match tn_active t with Some a => with_states None (Some a) t | None => t end) ~>
  (pending <~ tget tn_pendingCleanup ;;
   match pending with
   | None => iret tt
   | Some st =>
       out <~ on_record st teardown ;;
       match out with
       | (Ok _, _) => tset (with_states None None)
       | (Err e, st') => tset (with_states None (Some st')) ~> ifail e
       end
   end).

Definition upOuterLocked (lookupHost : string -> option (list string)) (cfg : TunnelConfig) : top unit :=
  t <~ tget (fun t => t) ;;
  match tn_active t, tn_pendingCleanup t, tn_entryKeys t with
  | Some _, _, _ => ifail "tunnel is already up"
  | None, Some _, _ => ifail "previous tunnel teardown incomplete: retry disconnect before connecting"
  | None, None, None => ifail "no WireGuard keypair: call PrepareHopKeys before connecting"
  | None, None, Some entryKeys =>
      checked (validateOuter ParseCIDR cfg) ~>
      (ips <~ checked (resolveOuterRouteIPs SplitHostPort ParseIP lookupHost (hc_Endpoint (tc_Entry cfg)) (hc_Endpoint (tc_Exit cfg)) (tc_OuterPinnedEndpoints cfg)) ;;
       entryEndpoint <~ checked (endpointWithHost SplitHostPort JoinHostPort (hc_Endpoint (tc_Entry cfg)) (hd ""%string ips.1)) ;;
       default <~ with_host DefaultRoute ;;
       (let entry := tc_Entry cfg in
        let cfg' := mkTunnelConfig (mkHopConfig (hc_NodeID entry) entryEndpoint (hc_NodeWGPubkey entry) (hc_TunnelIP entry) (hc_BytesAllowed entry))
                      (tc_Exit cfg) (tc_ClientKey cfg) (tc_EntryClientKey cfg) (tc_ExitClientKey cfg) (tc_OuterPinnedEndpoints cfg) (tc_Transport cfg) in
        let state := as_set_ipv6 true (no_changes (hc_Endpoint (tc_Exit cfg)) (hd ""%string ips.2)) in
        secured <~ itry (with_host DisableIPv6) ;;
        match secured with
        | Err e =>
            rollback <~ itry (with_host RestoreIPv6) ;;
            match rollback with
            | Ok _ => ifail "secure IPv6"
            | Err _ => tset (with_states None (Some state)) ~> ifail "secure IPv6 (IPv6 rollback failed)"
            end
        | Ok _ =>
            out <~ on_record state (bringUpOuter entryKeys cfg' ips.1 ips.2 default.1 default.2) ;;
            match out with
            | (Ok _, st) => tset (with_states (Some (as_set_ready true false st)) None)
            | (Err e, st) =>
                rolled <~ on_record st teardown ;;
                match rolled with
                | (Ok _, _) => ifail e
                | (Err _, st') => tset (with_states None (Some st')) ~> ifail e
                end
            end
        end))
  end.

(** The error of a failed step, after the whole tunnel was taken down. *)
Definition abandon {A} (e : string) : top A := _ <~ itry disconnectLocked ;; ifail e.

Definition upInnerLocked (cfg : TunnelConfig) : top unit :=
  t <~ tget (fun t => t) ;;
  match tn_active t with
  | None => ifail "outer tunnel is not up"
  | Some active =>
      if negb (as_outerReady active) then ifail "outer tunnel is not up"
      else if as_innerReady active then ifail "inner tunnel is already up"
      else if negb (String.eqb (hc_Endpoint (tc_Exit cfg)) (as_exitEndpoint active))
      then abandon "inner exit endpoint differs from the endpoint routed through the outer tunnel"
      else match validate ParseCIDR cfg, endpointWithHost SplitHostPort JoinHostPort (hc_Endpoint (tc_Exit cfg)) (as_exitIP active) with
           | Err _, _ => abandon "invalid tunnel configuration"
           | Ok _, Err _ => abandon "invalid tunnel configuration"
           | Ok _, Ok pinnedEndpoint =>
               let exit_ := tc_Exit cfg in
               let cfg' := mkTunnelConfig (tc_Entry cfg)
                             (mkHopConfig (hc_NodeID exit_) pinnedEndpoint (hc_NodeWGPubkey exit_) (hc_TunnelIP exit_) (hc_BytesAllowed exit_))
                             (tc_ClientKey cfg) (tc_EntryClientKey cfg) (tc_ExitClientKey cfg) (tc_OuterPinnedEndpoints cfg) (tc_Transport cfg) in
               out <~ on_record active (bringUpInner (tn_entryKeys t) (tn_exitKeys t) cfg') ;;
               match out with
               | (Ok _, st) => tset (with_states (Some (as_set_ready true true st)) (tn_pendingCleanup t))
               | (Err e, st) => tset (with_states (Some st) (tn_pendingCleanup t)) ~> abandon e
               end
           end
  end.

Definition UpOuter := upOuterLocked.
Definition UpInner := upInnerLocked.
Definition Up (lookupHost : string -> option (list string)) (cfg : TunnelConfig) : top unit :=
  checked (validate ParseCIDR cfg) ~> upOuterLocked lookupHost cfg ~> upInnerLocked cfg.
Definition ValidateEndpoints (lookupHost : string -> option (list string)) (entryEndpoint exitEndpoint : string) : top unit :=
  _ <~ checked (resolveEndpoints SplitHostPort ParseIP lookupHost entryEndpoint exitEndpoint) ;; iret tt.

Definition Down : top unit :=
  t <~ tget (fun t => t) ;;
  match tn_active t, tn_pendingCleanup t with
  | None, None => iret tt
  | _, _ =>
      r <~ itry disconnectLocked ;;
      tset (with_keys None None) ~>
      match r with Ok _ => iret tt | Err e => ifail e end
  end.
Definition Close := Down.

(** [privileged] and [dataplane]: the answers of checkPrivileges and of
    wg.CheckDataPlane. *)
Definition preflightIPv6Locked : top unit :=
  t <~ tget (fun t => t) ;;
  match tn_active t with
  | Some _ => ifail "cannot probe IPv6 protection while the tunnel is up"
  | None =>
      (match tn_pendingCleanup t with Some _ => disconnectLocked | None => iret tt end) ~>
      (installed <~ itry (with_host DisableIPv6) ;;
       cleaned <~ itry (with_host RestoreIPv6) ;;
       match cleaned, installed with
       | Err _, _ => tset (with_states None (Some (as_set_ipv6 true (no_changes "" "")))) ~> ifail "probe IPv6 protection cleanup failed"
       | Ok _, Err _ => ifail "probe IPv6 protection"
       | Ok _, Ok _ => iret tt
       end)
  end.
Definition Preflight (privileged dataplane : bool) : top unit :=
  if negb privileged then ifail "not privileged" else if negb dataplane then ifail "no WireGuard" else preflightIPv6Locked.

(** ** Keys; [generated]: what the key generator gives *)
Definition PublicKey (generated : option KeyPair) : top string :=
  keys <~ tget tn_entryKeys ;;
  match keys, generated with
  | Some k, _ => iret (kp_PublicKey k)
  | None, None => ifail "generate WireGuard keypair"
  | None, Some k => tset (fun t => with_keys (Some k) (tn_exitKeys t) t) ~> iret (kp_PublicKey k)
  end.
Definition complete (k : KeyPair) : bool := negb (str_empty (kp_PrivateKey k)) && negb (str_empty (kp_PublicKey k)).
Definition SetHopKeys (entry exit_ : option KeyPair) : top unit :=
  match entry with
  | None => ifail "entry keypair is required"
  | Some e =>
      let x := default e exit_ in
      if negb (complete e) then ifail "entry keypair is incomplete"
      else if negb (complete x) then ifail "exit keypair is incomplete"
      else
        active <~ tget tn_active ;;
        match active with
        | Some _ => ifail "cannot replace keypairs while tunnel is active"
        | None => tset (with_keys (Some e) (Some x))
        end
  end.
Definition PrepareHopKeys (generated : option KeyPair * option KeyPair) : top (string * string) :=
  t <~ tget (fun t => t) ;;
  match tn_active t with
  | Some _ =>
      match tn_entryKeys t, tn_exitKeys t with
      | Some e, Some x => iret (kp_PublicKey e, kp_PublicKey x)
      | _, _ => ifail "tunnel is active without prepared per-hop keys"
      end
  | None =>
      match generated with
      | (Some e, Some x) => tset (with_keys (Some e) (Some x)) ~> iret (kp_PublicKey e, kp_PublicKey x)
      | (None, _) => ifail "generate entry WireGuard keypair"
      | (Some _, None) => ifail "generate exit WireGuard keypair"
      end
  end.
Definition ResetHopKeys : top unit :=
  active <~ tget tn_active ;;
  match active with Some _ => iret tt | None => tset (with_keys None None) end.

(** ** Any use of the tunnel; every operation runs alone, under the mutex *)
Inductive op :=
| OpPublicKey (generated : option KeyPair)
| OpSetHopKeys (entry exit_ : option KeyPair)
| OpPrepareHopKeys (generated : option KeyPair * option KeyPair)
| OpResetHopKeys
| OpPreflight (privileged dataplane : bool)
| OpUp (lookupHost : string -> option (list string)) (cfg : TunnelConfig)
| OpUpOuter (lookupHost : string -> option (list string)) (cfg : TunnelConfig)
| OpUpInner (cfg : TunnelConfig)
| OpDown.
Definition perform (o : op) : top unit :=
  match o with
  | OpPublicKey g => _ <~ PublicKey g ;; iret tt
  | OpSetHopKeys e x => SetHopKeys e x
  | OpPrepareHopKeys g => _ <~ PrepareHopKeys g ;; iret tt
  | OpResetHopKeys => ResetHopKeys
  | OpPreflight p d => Preflight p d
  | OpUp lookup cfg => Up lookup cfg
  | OpUpOuter lookup cfg => UpOuter lookup cfg
  | OpUpInner cfg => UpInner cfg
  | OpDown => Down
  end.
Fixpoint run_ops (os : list op) (s : Tunnel * W) : Tunnel * W :=
  match os with [] => s | o :: r => run_ops r (perform o s).2 end.
End tunnel.

(** ** Every change is on record *)
Definition dests (rs : list route) : list string := rt_cidr <$> rs.
Definition cidrs (st : activeState) : list string := dests (as_routes st).
(** [v] differs from the host before, [v0], only by what [st] records: routes and
    the IPv6 block always, the resolver and the interfaces when the host is exact
    about them ([D], [I]). *)
Record covered (D I : Prop) (v0 : view) (st : activeState) (v : view) : Prop := {
  cv_routes c x : vw_routes v !! c = Some x -> vw_routes v0 !! c = Some x \/ c ∈ cidrs st;
  cv_ipv6 : vw_ipv6 v = true -> as_ipv6Changed st = true;
  cv_dns : D -> vw_dns v = true -> as_dnsChanged st = true;
  cv_ifaces : I -> forall i, i ∈ vw_ifaces v -> i ∈ vw_ifaces v0 \/ i ∈ as_interfaces st
}.
(** Nothing is left. *)
Definition restored (D I : Prop) (v0 v : view) : Prop :=
  (forall c x, vw_routes v !! c = Some x -> vw_routes v0 !! c = Some x) /\ vw_ipv6 v = false /\
  (D -> vw_dns v = false) /\ (I -> vw_ifaces v ⊆ vw_ifaces v0).

Lemma covered_restored D I v0 v e x : covered D I v0 (no_changes e x) v <-> restored D I v0 v.
Proof.
  split.
  - intros [Hr H6 Hd Hi]. split_and!.
    + intros c y Hc. by destruct (Hr c y Hc) as [|[]%elem_of_nil].
    + destruct (vw_ipv6 v); [by specialize (H6 eq_refl)|done].
    + intros HD. specialize (Hd HD). destruct (vw_dns v); [by specialize (Hd eq_refl)|done].
    + intros HI i Hin. by destruct (Hi HI i Hin) as [|[]%elem_of_nil].
  - intros (Hr & H6 & Hd & Hi). split.
    + intros c y Hc. left. by apply Hr.
    + congruence.
    + intros HD. rewrite (Hd HD). done.
    + intros HI i Hin. left. by apply Hi.
Qed.

Section undoing.
Context `{Hhost : Host W} `{HL : !HostLaws W} (D I : Prop) (HD : D -> ExactDNS W) (HI : I -> ExactInterfaces W) (v0 : view).

(** With [b], IPv6 is blocked all along. *)
Definition recorded (b : bool) (s : activeState * W) : Prop :=
  host_ok s.2 /\ covered D I v0 s.1 (host_view s.2) /\
  (b = true -> vw_ipv6 (host_view s.2) = true /\ as_ipv6Changed s.1 = true).
Definition kept (b : bool) {A} (m : build (W:=W) A) : Prop := forall s r s', m s = (r, s') -> recorded b s -> recorded b s'.

Lemma kept_bind b {A B} (m : build A) (k : A -> build B) : kept b m -> (forall a, kept b (k a)) -> kept b (ibind m k).
Proof.
  intros Hm Hk s r s' [(e & Hr & ->)|(a & s1 & Hr & Hr')]%ibind_inv Hs; [by eapply Hm|].
  eapply Hk; [exact Hr'|]. by eapply Hm.
Qed.
Lemma kept_get b {A} (f : activeState * W -> A) : kept b (iget f).
Proof. by intros s r s' [= <- <-]. Qed.
Lemma kept_ret b {A} (a : A) : kept b (iret a).
Proof. by intros s r s' [= <- <-]. Qed.
Lemma kept_fail b {A} e : kept b (@ifail _ A e).
Proof. by intros s r s' [= <- <-]. Qed.

Lemma on_host_inv {A} (m : io W A) st w r s' : on_host m (st, w) = (r, s') -> exists w', m w = (r, w') /\ s' = (st, w').
Proof. unfold on_host. destruct (m w) as [r1 w1]. intros [= -> <-]. by exists w1. Qed.

Lemma kept_create b c : kept b (createInterface c).
Proof.
  intros [st w] r s' [(e & Hr & ->)|(a & s1 & Hr & Hr')]%ibind_inv (Hok & [Cr C6 Cd Ci] & Hb).
  - apply on_host_inv in Hr as (w' & Hw & ->). destruct (law_create _ _ _ _ Hw Hok) as (Hok' & l & Hv & _).
    split; [done|]. cbn in *. rewrite Hv. split; [|exact Hb]. split; [exact Cr|exact C6|exact Cd|].
    intros HI' i Hin. specialize (HI HI'). pose proof (exact_create _ _ _ _ Hw Hok) as Heq. rewrite Hv in Heq. cbn in Heq, Hin. subst l. by apply Ci.
  - apply on_host_inv in Hr as (w' & Hw & ->). injection Hr' as <- <-. destruct (law_create _ _ _ _ Hw Hok) as (Hok' & l & Hv & Hl).
    split; [done|]. cbn in *. rewrite Hv. split; [|exact Hb]. split; [exact Cr|exact C6|exact Cd|].
    intros HI' i. cbn. rewrite (Hl eq_refl), elem_of_union, elem_of_singleton, elem_of_app, list_elem_of_singleton.
    intros [->|Hin]; [by right; right|]. destruct (Ci HI' i Hin); auto.
Qed.
Lemma kept_add_route b r : kept b (addRoute r).
Proof.
  intros [st w] x s' [(e & Hr & ->)|(a & s1 & Hr & Hr')]%ibind_inv (Hok & [Cr C6 Cd Ci] & Hb).
  - apply on_host_inv in Hr as (w' & Hw & ->). destruct (law_add_route _ _ _ _ Hw Hok) as (Hok' & m & Hv & Hm).
    split; [done|]. cbn in *. rewrite Hv. split; [|exact Hb]. split; [|exact C6|exact Cd|exact Ci].
    intros c y Hc. cbn in Hc. apply Cr. by eapply lookup_weaken.
  - apply on_host_inv in Hr as (w' & Hw & ->). injection Hr' as <- <-. destruct (law_add_route _ _ _ _ Hw Hok) as (Hok' & m & Hv & ->).
    split; [done|]. cbn in *. rewrite Hv. split; [|exact Hb]. split; [|exact C6|exact Cd|exact Ci].
    intros c y. unfold cidrs, dests. cbn. rewrite fmap_app, elem_of_app. unfold add_rt. rewrite lookup_insert_Some.
    intros [[<- _]|[_ Hc]]; [right; right; by apply list_elem_of_singleton|]. destruct (Cr c y Hc); auto.
Qed.
Lemma kept_add_routes b rs : kept b (add_routes rs).
Proof. induction rs as [|r rs IH]; cbn [add_routes]; [apply kept_ret|]. apply kept_bind; [apply kept_add_route|done]. Qed.
Lemma kept_add_peer b n p : kept b (on_host (AddPeer n p)).
Proof.
  intros [st w] r s' (w' & Hw & ->)%on_host_inv (Hok & C & Hb). destruct (law_add_peer _ _ _ _ _ Hw Hok) as (Hok' & m & Hv & _).
  split; [done|]. cbn in *. rewrite Hv. split; [|exact Hb]. by destruct C.
Qed.
Lemma kept_set_dns b s0 : kept b (on_host (SetDNS s0) ~> record_ (as_set_dns true)).
Proof.
  intros [st w] r s' [(e & Hr & ->)|(a & s1 & Hr & Hr')]%ibind_inv (Hok & [Cr C6 Cd Ci] & Hb).
  - apply on_host_inv in Hr as (w' & Hw & ->). destruct (law_set_dns _ _ _ _ Hw Hok) as (Hok' & d & Hv).
    split; [done|]. cbn in *. rewrite Hv. split; [|exact Hb]. split; [exact Cr|exact C6| |exact Ci].
    intros HD'. specialize (HD HD'). pose proof (exact_set_dns _ _ _ _ Hw Hok) as Heq. rewrite Hv in Heq. cbn in Heq. subst d. by apply Cd.
  - apply on_host_inv in Hr as (w' & Hw & ->). injection Hr' as <- <-. destruct (law_set_dns _ _ _ _ Hw Hok) as (Hok' & d & Hv).
    split; [done|]. cbn in *. rewrite Hv. split; [|exact Hb]. split; [exact Cr|exact C6|done|exact Ci].
Qed.

Lemma kept_outer b keys cfg en rt gw i : kept b (bringUpOuter keys cfg en rt gw i).
Proof.
  apply kept_bind; [apply kept_create|]. intros _. apply kept_bind; [apply kept_add_peer|]. intros _.
  apply kept_bind; [apply kept_add_routes|]. intros _. apply kept_bind; [apply kept_get|]. intros o. apply kept_add_routes.
Qed.
Lemma kept_inner b e x cfg : kept b (bringUpInner e x cfg).
Proof.
  unfold bringUpInner. destruct (match x with Some k => Some k | None => e end); [|apply kept_fail].
  apply kept_bind; [apply kept_create|]. intros _. apply kept_bind; [apply kept_add_peer|]. intros _.
  apply kept_bind; [apply kept_get|]. intros o. apply kept_bind; [apply kept_add_routes|]. intros _. apply kept_set_dns.
Qed.

(** *** Tearing down *)

(** Deleting the routes [xs], when the view has those, the base's and some more. *)
Lemma undo_routes xs (more : list string) st w r s' : undo_all DeleteRoute xs (st, w) = (r, s') -> host_ok w ->
  (forall c x, vw_routes (host_view w) !! c = Some x -> vw_routes v0 !! c = Some x \/ c ∈ dests xs \/ c ∈ more) ->
  exists rem w', r = Ok rem /\ s' = (st, w') /\ host_ok w' /\ (exists m, host_view w' = set_routes m (host_view w)) /\
  forall c x, vw_routes (host_view w') !! c = Some x -> vw_routes v0 !! c = Some x \/ c ∈ dests rem \/ c ∈ more.
Proof.
  revert more w r s'. induction xs as [|y xs IH]; intros more w r s' H Hok Hc; cbn [undo_all] in H.
  { injection H as <- <-. exists [], w. split_and!; [done..| |done]. exists (vw_routes (host_view w)). by destruct (host_view w). }
  apply ibind_inv in H as [(e & H & ->)|(d & s1 & H & H')]; [by apply itry_inv in H as (? & [=] & _)|].
  apply itry_inv in H as (x & [= ->] & H). apply on_host_inv in H as (w1 & Hw & ->).
  destruct (law_delete_route _ _ _ _ Hw Hok) as (Hok1 & m & Hv & Hm).
  assert (forall more' : list string, (forall c z, m !! c = Some z -> vw_routes v0 !! c = Some z \/ c ∈ dests xs \/ c ∈ more') ->
    exists rem w', (undo_all DeleteRoute xs (st, w1)) = (Ok rem, (st, w')) /\ host_ok w' /\ (exists m', host_view w' = set_routes m' (host_view w)) /\
      forall c z, vw_routes (host_view w') !! c = Some z -> vw_routes v0 !! c = Some z \/ c ∈ dests rem \/ c ∈ more') as Hrec.
  { intros more' Hc'. destruct (undo_all DeleteRoute xs (st, w1)) as [r2 s2] eqn:Hu.
    destruct (IH more' _ _ _ Hu Hok1) as (rem & w' & -> & -> & Hok' & (m' & Hv') & Hfin); [by rewrite Hv|].
    exists rem, w'. split_and!; [done..| |done]. exists m'. by rewrite Hv', Hv. }
  destruct x as [u|e].
  - destruct (Hrec more) as (rem & w' & Hu & Hok' & Hm' & Hfin).
    { subst m. intros c z [Hne Hl]%lookup_delete_Some. destruct (Hc c z Hl) as [|[Hin|]]; [by left| |by right; right].
      apply elem_of_cons in Hin as [->|Hin]; [done|]. by right; left. }
    unfold ibind in H'. rewrite Hu in H'. injection H' as <- <-. by exists rem, w'.
  - destruct (Hrec (rt_cidr y :: more)) as (rem & w' & Hu & Hok' & Hm' & Hfin).
    { intros c z Hl. eapply lookup_weaken in Hl; [|exact Hm]. destruct (Hc c z Hl) as [|[Hin|Hin]]; [by left| |by right; right; right].
      apply elem_of_cons in Hin as [->|Hin]; [right; right; by left|by right; left]. }
    unfold ibind in H'. rewrite Hu in H'. injection H' as <- <-. exists (y :: rem), w'. split_and!; [done..|].
    intros c z Hl. unfold dests. rewrite fmap_cons, elem_of_cons. destruct (Hfin c z Hl) as [|[|Hin]]; [by left|by right; left; right|].
    apply elem_of_cons in Hin as [->|]; [right; left; by left|by right; right].
Qed.
Lemma undo_ifaces xs (more : list string) st w r s' : undo_all DeleteInterface xs (st, w) = (r, s') -> host_ok w ->
  (I -> forall i, i ∈ vw_ifaces (host_view w) -> i ∈ vw_ifaces v0 \/ i ∈ xs \/ i ∈ more) ->
  exists rem w', r = Ok rem /\ s' = (st, w') /\ host_ok w' /\ (exists l p, host_view w' = set_peers p (set_ifaces l (host_view w))) /\
  (I -> forall i, i ∈ vw_ifaces (host_view w') -> i ∈ vw_ifaces v0 \/ i ∈ rem \/ i ∈ more).
Proof.
  revert more w r s'. induction xs as [|y xs IH]; intros more w r s' H Hok Hc; cbn [undo_all] in H.
  { injection H as <- <-. exists [], w. split_and!; [done..| |done]. exists (vw_ifaces (host_view w)), (vw_peers (host_view w)). by destruct (host_view w). }
  apply ibind_inv in H as [(e & H & ->)|(d & s1 & H & H')]; [by apply itry_inv in H as (? & [=] & _)|].
  apply itry_inv in H as (x & [= ->] & H). apply on_host_inv in H as (w1 & Hw & ->).
  destruct (law_delete _ _ _ _ Hw Hok) as (Hok1 & l & p & Hv & Hl).
  assert (forall more' : list string, (I -> forall i, i ∈ vw_ifaces (host_view w1) -> i ∈ vw_ifaces v0 \/ i ∈ xs \/ i ∈ more') ->
    exists rem w', (undo_all DeleteInterface xs (st, w1)) = (Ok rem, (st, w')) /\ host_ok w' /\
      (exists l p, host_view w' = set_peers p (set_ifaces l (host_view w))) /\
      (I -> forall i, i ∈ vw_ifaces (host_view w') -> i ∈ vw_ifaces v0 \/ i ∈ rem \/ i ∈ more')) as Hrec.
  { intros more' Hc'. destruct (undo_all DeleteInterface xs (st, w1)) as [r2 s2] eqn:Hu.
    destruct (IH more' _ _ _ Hu Hok1 Hc') as (rem & w' & -> & -> & Hok' & (l' & p' & Hv') & Hfin).
    exists rem, w'. split_and!; [done..| |done]. exists l', p'. by rewrite Hv', Hv. }
  destruct x as [u|e].
  - destruct (Hrec more) as (rem & w' & Hu & Hok' & Hm' & Hfin).
    { intros HI' i Hin. specialize (HI HI'). rewrite (exact_delete _ _ _ _ Hw Hok) in Hin. apply elem_of_difference in Hin as [Hin Hne].
      rewrite elem_of_singleton in Hne. destruct (Hc HI' i Hin) as [|[Hx|]]; [by left| |by right; right].
      apply elem_of_cons in Hx as [->|Hx]; [done|by right; left]. }
    unfold ibind in H'. rewrite Hu in H'. injection H' as <- <-. by exists rem, w'.
  - destruct (Hrec (y :: more)) as (rem & w' & Hu & Hok' & Hm' & Hfin).
    { intros HI' i Hin. rewrite Hv in Hin. apply Hl in Hin. destruct (Hc HI' i Hin) as [|[Hx|Hx]]; [by left| |by right; right; right].
      apply elem_of_cons in Hx as [->|Hx]; [right; right; by left|by right; left]. }
    unfold ibind in H'. rewrite Hu in H'. injection H' as <- <-. exists (y :: rem), w'. split_and!; [done..|].
    intros HI' i Hin. rewrite elem_of_cons. destruct (Hfin HI' i Hin) as [|[|Hx]]; [by left|by right; left; right|].
    apply elem_of_cons in Hx as [->|]; [right; left; by left|by right; right].
Qed.

(** A record without changes. *)
Definition emptied (st : activeState) : Prop :=
  as_routes st = [] /\ as_interfaces st = [] /\ as_dnsChanged st = false /\ as_ipv6Changed st = false.
Lemma emptied_restored st v : emptied st -> covered D I v0 st v <-> restored D I v0 v.
Proof.
  intros (Hr & Hi & Hd & H6). rewrite <-(covered_restored D I v0 v "" ""). split; intros [A B C E]; split; cbn in *;
    unfold cidrs in *; rewrite ?Hr, ?Hi, ?Hd, ?H6 in *; auto.
Qed.

Lemma undo_dns_spec st w r s' : undo_dns (st, w) = (r, s') -> recorded false (st, w) ->
  exists b st' w', r = Ok b /\ s' = (st', w') /\ recorded false (st', w') /\ (st' = st \/ st' = as_set_dns false st) /\
    (b = false -> as_dnsChanged st' = false).
Proof.
  intros H (Hok & [Cr C6 Cd Ci] & _). unfold undo_dns in H. apply ibind_inv in H as [(e & [=] & _)|(b & s0 & [= <- <-] & H)]. cbn in H.
  destruct (as_dnsChanged st) eqn:Hc.
  2:{ injection H as <- <-. exists false, st, w. split_and!; auto. by split_and!. }
  apply ibind_inv in H as [(e & H & ->)|(d & s1 & H & H')]; [by apply itry_inv in H as (? & [=] & _)|].
  apply itry_inv in H as (x & [= ->] & H). apply on_host_inv in H as (w1 & Hw & ->).
  destruct (law_restore_dns _ _ _ Hw Hok) as (Hok1 & d & Hv). cbn in Cr, C6, Cd, Ci. destruct x as [u|e]; injection H' as <- <-.
  - exists false, (as_set_dns false st), w1. split_and!; auto. split; [done|]. cbn. rewrite Hv. split; [|done].
    split; [exact Cr|exact C6| |exact Ci]. intros HD'. specialize (HD HD'). pose proof (exact_restore_dns _ _ _ Hw Hok) as Hx.
    rewrite Hv in Hx. cbn in Hx. by subst d.
  - exists true, st, w1. split_and!; auto; [|done]. split; [done|]. cbn. rewrite Hv. split; [|done].
    by split; [exact Cr|exact C6| |exact Ci].
Qed.
Lemma undo_ipv6_spec st w r s' : undo_ipv6 (st, w) = (r, s') -> recorded false (st, w) ->
  exists b st' w', r = Ok b /\ s' = (st', w') /\ recorded false (st', w') /\ (st' = st \/ st' = as_set_ipv6 false st) /\
    (b = false -> as_ipv6Changed st' = false).
Proof.
  intros H (Hok & [Cr C6 Cd Ci] & _). unfold undo_ipv6 in H. apply ibind_inv in H as [(e & [=] & _)|(b & s0 & [= <- <-] & H)]. cbn in H.
  destruct (as_ipv6Changed st) eqn:Hc.
  2:{ injection H as <- <-. exists false, st, w. split_and!; auto. by split_and!. }
  apply ibind_inv in H as [(e & H & ->)|(d & s1 & H & H')]; [by apply itry_inv in H as (? & [=] & _)|].
  apply itry_inv in H as (x & [= ->] & H). apply on_host_inv in H as (w1 & Hw & ->).
  destruct (law_restore_ipv6 _ _ _ Hw Hok) as (Hok1 & d & Hv & Hd). cbn in Cr, C6, Cd, Ci. destruct x as [u|e]; injection H' as <- <-.
  - exists false, (as_set_ipv6 false st), w1. split_and!; auto. split; [done|]. cbn. rewrite Hv, (Hd eq_refl). split; [|done].
    by split; [exact Cr| |exact Cd|exact Ci].
  - exists true, st, w1. split_and!; auto; [|done]. split; [done|]. cbn. rewrite Hv. split; [|done].
    by split; [exact Cr| |exact Cd|exact Ci].
Qed.

Lemma dests_rev c rs : c ∈ dests (rev rs) <-> c ∈ dests rs.
Proof. unfold dests. by rewrite <-(Permutation_rev rs). Qed.
Lemma rev_elem (i : string) l : i ∈ rev l <-> i ∈ l.
Proof. by rewrite <-(Permutation_rev l). Qed.

(** Teardown keeps the record right, and succeeds only when nothing is left on it. *)
Lemma teardown_spec st w r s' : teardown (st, w) = (r, s') -> recorded false (st, w) ->
  recorded false s' /\ (is_ok r = true -> emptied s'.1).
Proof.
  intros H Hrec. unfold teardown in H.
  apply ibind_inv in H as [(e & H & ->)|(b1 & s1 & H & H1)].
  { by destruct (undo_dns_spec _ _ _ _ H Hrec) as (? & ? & ? & [=] & _). }
  destruct (undo_dns_spec _ _ _ _ H Hrec) as (b1' & st1 & w1 & [= <-] & -> & Hrec1 & Hst1 & Hb1). clear H Hrec.
  apply ibind_inv in H1 as [(e & H & ->)|(b2 & s2 & H & H1)].
  { by destruct (undo_ipv6_spec _ _ _ _ H Hrec1) as (? & ? & ? & [=] & _). }
  destruct (undo_ipv6_spec _ _ _ _ H Hrec1) as (b2' & st2 & w2 & [= <-] & -> & (Hok2 & [Cr C6 Cd Ci] & _) & Hst2 & Hb2). clear H Hrec1.
  apply ibind_inv in H1 as [(e & [=] & _)|(rts & s0 & [= <- <-] & H1)]. cbn [fst] in H1.
  cbn [fst snd] in *. apply ibind_inv in H1 as [(e & H & ->)|(remR & s3 & H & H1)];
    (destruct (undo_routes _ [] _ _ _ _ H Hok2) as (rem & w3 & Hrem & -> & Hok3 & (m & Hv3) & Hroutes);
      [intros c x Hc; rewrite dests_rev; destruct (Cr c x Hc); auto|]); [done|]. injection Hrem as ->. clear H.
  apply ibind_inv in H1 as [(e & [=] & _)|(u & s0 & [= <- <-] & H1)].
  apply ibind_inv in H1 as [(e & [=] & _)|(ifs & s0 & [= <- <-] & H1)]. cbn [fst snd] in *.
  apply ibind_inv in H1 as [(e & H & ->)|(remI & s4 & H & H1)];
    (destruct (undo_ifaces _ [] _ _ _ _ H Hok3) as (remI' & w4 & HremI & -> & Hok4 & (l & p & Hv4) & Hifaces);
      [intros HI' i Hi; rewrite Hv3 in Hi; cbn; rewrite rev_elem; destruct (Ci HI' i Hi); auto|]); [done|]. injection HremI as ->. clear H.
  apply ibind_inv in H1 as [(e & [=] & _)|(u' & s0 & [= <- <-] & H1)].
  assert (s' = (as_set_interfaces remI' (as_set_routes rem st2), w4)) as ->
    by (revert H1; cbn; destruct (b1 || b2), rem, remI'; by intros [= <- <-]).
  split.
  - split; [exact Hok4|]. split; [|done]. cbn. rewrite Hv4. split; cbn.
    + intros c x Hc. destruct (Hroutes c x) as [|[|Hx]]; [exact Hc|by left|by right|by apply elem_of_nil in Hx].
    + rewrite Hv3. exact C6.
    + rewrite Hv3. exact Cd.
    + intros HI' i Hi. destruct (Hifaces HI' i) as [?|[?|Hx]]; [by rewrite Hv4|by left|by right|by apply elem_of_nil in Hx].
  - intros Hr. cbn. destruct b1, b2, rem, remI'; try (injection H1 as <-; discriminate Hr).
    split_and!; [done|done| |by apply Hb2]. destruct Hst2 as [->| ->]; by apply Hb1.
Qed.

(** *** The tunnel with its host *)
Definition owned (t : Tunnel) : option activeState := match tn_active t with Some a => Some a | None => tn_pendingCleanup t end.
Record tunnel_ok (s : Tunnel * W) : Prop := {
  to_host : host_ok s.2;
  to_one : tn_active s.1 = None \/ tn_pendingCleanup s.1 = None;
  to_covered : match owned s.1 with
               | Some st => covered D I v0 st (host_view s.2)
               | None => restored D I v0 (host_view s.2)
               end;
  (** while the tunnel counts as up, IPv6 is blocked *)
  to_active a : tn_active s.1 = Some a ->
    vw_ipv6 (host_view s.2) = true /\ as_ipv6Changed a = true
}.
Definition settles {A} (m : top (W:=W) A) : Prop := forall s r s', m s = (r, s') -> tunnel_ok s -> tunnel_ok s'.

Lemma settles_bind {A B} (m : top A) (k : A -> top B) : settles m -> (forall a, settles (k a)) -> settles (ibind m k).
Proof.
  intros Hm Hk s r s' [(e & Hr & ->)|(a & s1 & Hr & Hr')]%ibind_inv Hs; [by eapply Hm|].
  eapply Hk; [exact Hr'|]. by eapply Hm.
Qed.
Lemma settles_same {A} (f : Tunnel * W -> result string A) : settles (fun s => (f s, s)).
Proof. by intros s r s' [= <- <-]. Qed.
Lemma settles_try {A} (m : top A) : settles m -> settles (itry m).
Proof. intros Hm s r s' (x & _ & Hr)%itry_inv. by apply Hm in Hr. Qed.
Lemma settles_keys f g : settles (tset (fun t => with_keys (f t) (g t) t)).
Proof. intros [t w] r s' [= <- <-] [A B C E]. by split. Qed.

Lemma with_host_inv {A} (m : io W A) t w r s' : with_host m (t, w) = (r, s') -> exists w', m w = (r, w') /\ s' = (t, w').
Proof. unfold with_host. destruct (m w) as [r1 w1]. intros [= -> <-]. by exists w1. Qed.
Lemma on_record_inv {A} st (m : build (W:=W) A) t w r s' : on_record st m (t, w) = (r, s') ->
  exists x st' w', m (st, w) = (x, (st', w')) /\ r = Ok (x, st') /\ s' = (t, w').
Proof. unfold on_record. destruct (m (st, w)) as [x [st' w']]. intros [= <- <-]. by exists x, st', w'. Qed.

(** Taking everything down: nothing is active afterwards, and on success nothing is left. *)
Lemma disconnect_spec t w r s' : disconnectLocked (t, w) = (r, s') -> tunnel_ok (t, w) ->
  tunnel_ok s' /\ tn_active s'.1 = None /\ tn_entryKeys s'.1 = tn_entryKeys t /\ tn_exitKeys s'.1 = tn_exitKeys t /\
  match r with Ok _ => tn_pendingCleanup s'.1 = None | Err _ => exists p, tn_pendingCleanup s'.1 = Some p end.
Proof.
  intros H [Hok Hone Hcov Hact]. cbn [fst snd] in *. unfold disconnectLocked in H.
  apply ibind_inv in H as [(e & [=] & _)|(u & s1 & [= <- <-] & H)].
  set (t1 := match tn_active t with Some a => with_states None (Some a) t | None => t end) in *.
  assert (tn_active t1 = None /\ tn_pendingCleanup t1 = owned t /\ tn_entryKeys t1 = tn_entryKeys t /\ tn_exitKeys t1 = tn_exitKeys t)
    as (Ha1 & Hp1 & He1 & Hx1) by (subst t1; unfold owned; by destruct (tn_active t) eqn:?).
  clearbody t1. apply ibind_inv in H as [(e & [=] & _)|(p & s1 & [= <- <-] & H)]. cbn [fst] in H. rewrite Hp1 in H.
  destruct (owned t) as [st|] eqn:Hown.
  2:{ injection H as <- <-. split_and!; try done. split; cbn; [done|by left| |by rewrite Ha1]. unfold owned. by rewrite Ha1, Hp1. }
  apply ibind_inv in H as [(e & H & ->)|([x st'] & s1 & H & H')].
  { by apply on_record_inv in H as (? & ? & ? & _ & [=] & _). }
  apply on_record_inv in H as (x' & st1 & w1 & Ht & [= <- <-] & ->). destruct (teardown_spec _ _ _ _ Ht) as [(Hok1 & Hcov1 & _) Hemp]; [by split_and!|].
  cbn [fst snd] in *. destruct x as [u'|e].
  - injection H' as <- <-. split_and!; [|done..]. split; cbn; [done|by left| |done]. apply (emptied_restored st'); [by apply Hemp|done].
  - injection H' as <- <-. split_and!; [|done..|by exists st']. split; cbn; [done|by left|done|done].
Qed.
Lemma settles_disconnect : settles disconnectLocked.
Proof. intros [t w] r s' H Hok. by apply (disconnect_spec _ _ _ _ H). Qed.
Lemma settles_abandon {A} e : settles (@abandon W Hhost A e).
Proof. apply settles_bind; [apply settles_try, settles_disconnect|]. intros _. apply (settles_same (fun _ => Err e)). Qed.

(** A record of changes becomes the tunnel's. *)
Lemma settled_pending t w st : host_ok w -> covered D I v0 st (host_view w) -> tunnel_ok (with_states None (Some st) t, w).
Proof. intros Hok Hc. split; cbn; [done|by left|done|done]. Qed.
Lemma settled_active t w st b : recorded true (st, w) -> tunnel_ok (with_states (Some (as_set_ready true b st)) None t, w).
Proof. intros (Hok & Hc & Hb). destruct (Hb eq_refl). split; cbn; [done|by right|by destruct Hc|]. by intros a [= <-]. Qed.

Lemma settles_preflight p d : settles (Preflight p d).
Proof.
  unfold Preflight. destruct (negb p); [apply (settles_same (fun _ => Err _))|]. destruct (negb d); [apply (settles_same (fun _ => Err _))|].
  intros [t w] r s' H Hok. unfold preflightIPv6Locked in H. apply ibind_inv in H as [(e & [=] & _)|(t0 & s1 & [= <- <-] & H)]. cbn [fst] in H.
  destruct (tn_active t) as [a|] eqn:Ha; [by injection H as <- <-|].
  assert (forall r1 s1, (match tn_pendingCleanup t with Some _ => disconnectLocked | None => iret tt end) (t, w) = (r1, s1) ->
    tunnel_ok s1 /\ (is_ok r1 = true -> owned s1.1 = None)) as Hfirst.
  { intros r1 s1 H1. destruct (tn_pendingCleanup t) as [pc|] eqn:Hp.
    - destruct (disconnect_spec _ _ _ _ H1 Hok) as (Hok1 & Ha1 & _ & _ & Hp1). split; [done|]. intros Hr. unfold owned. destruct r1; [|done]. by rewrite Ha1, Hp1.
    - injection H1 as <- <-. split; [done|]. unfold owned. cbn. by rewrite Ha. }
  apply ibind_inv in H as [(e & H & ->)|(u & [t1 w1] & H & H')]; [by apply Hfirst in H as [? _]|].
  apply Hfirst in H as [[Hok1 Hone1 Hcov1 Hact1] Hown]. cbn [fst snd] in *. specialize (Hown eq_refl). rewrite Hown in Hcov1.
  apply ibind_inv in H' as [(e & H & ->)|(ins & s2 & H & H')]; [by apply itry_inv in H as (? & [=] & _)|].
  apply itry_inv in H as (x & [= ->] & H). apply with_host_inv in H as (w2 & Hw2 & ->).
  destruct (law_disable_ipv6 _ _ _ Hw2 Hok1) as (Hok2 & b & Hv2 & _).
  apply ibind_inv in H' as [(e & H & ->)|(cl & s3 & H & H')]; [by apply itry_inv in H as (? & [=] & _)|].
  apply itry_inv in H as (y & [= ->] & H). apply with_host_inv in H as (w3 & Hw3 & ->).
  destruct (law_restore_ipv6 _ _ _ Hw3 Hok2) as (Hok3 & b3 & Hv3 & Hb3). rewrite Hv2 in Hv3.
  assert (tn_active t1 = None) as Ha1 by (unfold owned in Hown; by destruct (tn_active t1)).
  destruct Hcov1 as (Cr & C6 & Cd & Ci). destruct y as [u'|e].
  - assert (s' = (t1, w3)) as -> by (by destruct x; injection H'). split; cbn; [done|done| |congruence].
    rewrite Hown, Hv3, (Hb3 eq_refl). by split_and!.
  - assert (s' = (with_states None (Some (as_set_ipv6 true (no_changes "" ""))) t1, w3)) as -> by (by destruct x; injection H').
    apply settled_pending; [done|]. rewrite Hv3. split; cbn; [|done| |].
    + intros c z Hc. left. by apply Cr.
    + intros HD'. rewrite Cd by done. done.
    + intros HI' i Hi. left. by apply Ci.
Qed.

Context (SplitHostPort : string -> option (string * string)) (JoinHostPort : string -> string -> string)
  (ParseIP : string -> option IP) (ParseCIDR : string -> option (IP * Z)).

Lemma settles_checked {A} (x : result tunnel_error A) : settles (checked x).
Proof. destruct x; [apply (settles_same (fun _ => Ok a))|apply (settles_same (fun _ => Err _))]. Qed.

Lemma settles_outer lookup cfg : settles (upOuterLocked SplitHostPort JoinHostPort ParseIP ParseCIDR lookup cfg).
Proof.
  intros [t w] r s' H Hok. unfold upOuterLocked in H. apply ibind_inv in H as [(e & [=] & _)|(t0 & s1 & [= <- <-] & H)]. cbn [fst] in H.
  destruct (tn_active t) eqn:Ha; [by injection H as <- <-|]. destruct (tn_pendingCleanup t) eqn:Hp; [by injection H as <- <-|].
  destruct (tn_entryKeys t) as [keys|]; [|by injection H as <- <-].
  revert H. unfold checked at 1. destruct (validateOuter _ _); [|by intros [= <- <-]]. unfold ibind at 1; cbn [iret].
  unfold checked at 1. destruct (resolveOuterRouteIPs _ _ _ _ _ _) as [ips|]; [|by intros [= <- <-]]. unfold ibind at 1; cbn [iret].
  unfold checked at 1. destruct (endpointWithHost _ _ _ _) as [ep|]; [|by intros [= <- <-]]. unfold ibind at 1; cbn [iret].
  destruct Hok as [Hok0 _ Hcov _]. cbn [fst snd] in *. unfold owned in Hcov. rewrite Ha, Hp in Hcov. destruct Hcov as (Cr & C6 & Cd & Ci).
  assert (forall v, v = host_view w -> tunnel_ok (t, w)) as Hsame.
  { intros v _. split; cbn; [done|by left| |by rewrite Ha]. unfold owned. rewrite Ha, Hp. by split_and!. }
  intros [(e & H & ->)|([gw i] & s1 & H & H')]%ibind_inv.
  { apply with_host_inv in H as (w1 & Hw & ->). destruct (law_default _ _ _ Hw Hok0) as [Hok1 Hv].
    split; cbn; [done|by left| |by rewrite Ha]. unfold owned. rewrite Ha, Hp, Hv. by split_and!. }
  apply with_host_inv in H as (w1 & Hw & ->). destruct (law_default _ _ _ Hw Hok0) as [Hok1 Hv1]. cbv zeta in H'.
  apply ibind_inv in H' as [(e & H & ->)|(sec & s2 & H & H')]; [by apply itry_inv in H as (? & [=] & _)|].
  apply itry_inv in H as (x & [= ->] & H). apply with_host_inv in H as (w2 & Hw2 & ->).
  destruct (law_disable_ipv6 _ _ _ Hw2 Hok1) as (Hok2 & b & Hv2 & Hb). rewrite Hv1 in Hv2.
  set (state := as_set_ipv6 true _) in H'.
  assert (forall b', covered D I v0 state (set_ipv6 b' (host_view w))) as Hcovered.
  { intros b'. split; cbn; [|done| |].
    - intros c z Hc. left. by apply Cr.
    - intros HD'. rewrite Cd by done. done.
    - intros HI' j Hj. left. by apply Ci. }
  destruct x as [u|e].
  - assert (recorded true (state, w2)) as Hrec.
    { split; [done|]. cbn. rewrite Hv2, (Hb eq_refl). split; [apply Hcovered|done]. }
    apply ibind_inv in H' as [(e & H & ->)|([x st] & s3 & H & H')]; [by apply on_record_inv in H as (? & ? & ? & _ & [=] & _)|].
    apply on_record_inv in H as (x' & st' & w3 & Hb3 & [= <- <-] & ->). pose proof (kept_outer true _ _ _ _ _ _ _ _ _ Hb3 Hrec) as Hrec3.
    destruct x as [u'|e]; [injection H' as <- <-; by apply settled_active|].
    apply ibind_inv in H' as [(e' & H & ->)|([x2 st2] & s4 & H & H')]; [by apply on_record_inv in H as (? & ? & ? & _ & [=] & _)|].
    apply on_record_inv in H as (x' & st'' & w4 & Ht & [= <- <-] & ->). destruct Hrec3 as (A & B & _).
    destruct (teardown_spec _ _ _ _ Ht) as [(Hok4 & Hcov4 & _) Hemp]; [by split_and!|]. cbn [fst snd] in *. destruct x2 as [u'|e2]; injection H' as <- <-.
    + split; cbn; [done|by left| |by rewrite Ha]. unfold owned. rewrite Ha, Hp. apply (emptied_restored st2); [by apply Hemp|done].
    + by apply settled_pending.
  - apply ibind_inv in H' as [(e' & H & ->)|(roll & s3 & H & H')]; [by apply itry_inv in H as (? & [=] & _)|].
    apply itry_inv in H as (y & [= ->] & H). apply with_host_inv in H as (w3 & Hw3 & ->).
    destruct (law_restore_ipv6 _ _ _ Hw3 Hok2) as (Hok3 & b3 & Hv3 & Hb3). rewrite Hv2 in Hv3. destruct y as [u|e3]; injection H' as <- <-.
    + split; cbn; [done|by left| |by rewrite Ha]. unfold owned. rewrite Ha, Hp, Hv3, (Hb3 eq_refl). by split_and!.
    + apply settled_pending; [done|]. rewrite Hv3. exact (Hcovered b3).
Qed.

Lemma settles_inner cfg : settles (upInnerLocked SplitHostPort JoinHostPort ParseCIDR cfg).
Proof.
  intros [t w] r s' H Hok. unfold upInnerLocked in H. apply ibind_inv in H as [(e & [=] & _)|(t0 & s1 & [= <- <-] & H)]. cbn [fst] in H.
  destruct (tn_active t) as [a|] eqn:Ha; [|by injection H as <- <-]. destruct (negb (as_outerReady a)); [by injection H as <- <-|].
  destruct (as_innerReady a); [by injection H as <- <-|]. destruct (negb _); [exact (settles_abandon _ _ _ _ H Hok)|].
  destruct (validate _ _); [|exact (settles_abandon _ _ _ _ H Hok)]. destruct (endpointWithHost _ _ _ _) as [ep|]; [|exact (settles_abandon _ _ _ _ H Hok)].
  cbv zeta in H. destruct Hok as [Hok0 Hone Hcov Hact]. cbn [fst snd] in *. destruct (Hact a Ha) as [H6 H6c].
  unfold owned in Hcov. rewrite Ha in Hcov. assert (tn_pendingCleanup t = None) as Hp by (destruct Hone; congruence). rewrite Hp in H.
  apply ibind_inv in H as [(e & H & ->)|([x st] & s3 & H & H')]; [by apply on_record_inv in H as (? & ? & ? & _ & [=] & _)|].
  apply on_record_inv in H as (x' & st' & w3 & Hb3 & [= <- <-] & ->).
  pose proof (kept_inner true _ _ _ _ _ _ Hb3) as Hrec. destruct Hrec as (Hok3 & Hcov3 & Hb); [by split_and!|]. cbn [fst snd] in *.
  destruct x as [u|e]; [injection H' as <- <-; by apply settled_active|].
  apply ibind_inv in H' as [(e' & [=] & _)|(u & s4 & [= <- <-] & H')]. apply (settles_abandon _ _ _ _ H').
  split; cbn; [done|by right|done|]. intros a' [= <-]. by apply Hb.
Qed.

Lemma settles_down : settles Down.
Proof.
  intros [t w] r s' H Hok. unfold Down in H. apply ibind_inv in H as [(e & [=] & _)|(t0 & s1 & [= <- <-] & H)]. cbn [fst] in H.
  assert (settles (r0 <~ itry disconnectLocked ;; tset (W:=W) (with_keys None None) ~> match r0 with Ok _ => iret tt | Err e => ifail e end)) as Hd.
  { apply settles_bind; [apply settles_try, settles_disconnect|]. intros x. apply settles_bind; [apply settles_keys|]. intros _.
    destruct x; [apply (settles_same (fun _ => Ok tt))|apply (settles_same (fun _ => Err _))]. }
  destruct (tn_active t); [by apply (Hd _ _ _ H)|]. destruct (tn_pendingCleanup t); [by apply (Hd _ _ _ H)|]. by injection H as <- <-.
Qed.
Lemma settles_op o : settles (perform SplitHostPort JoinHostPort ParseIP ParseCIDR o).
Proof.
  destruct o as [g|e x|g| |p d|lookup cfg|lookup cfg|cfg|]; cbn [perform];
    [| | | |apply settles_preflight| |apply settles_outer|apply settles_inner|apply settles_down].
  - apply settles_bind; [|intros _; apply (settles_same (fun _ => Ok tt))]. apply settles_bind; [apply (settles_same (fun s => Ok _))|].
    intros k. destruct k as [k|], g as [g|]; try apply (settles_same (fun _ => Ok _)); [|apply (settles_same (fun _ => Err _))].
    apply settles_bind; [apply settles_keys|]. intros _. apply (settles_same (fun _ => Ok _)).
  - unfold SetHopKeys. destruct e as [e|]; [|apply (settles_same (fun _ => Err _))]. destruct (negb (complete e)); [apply (settles_same (fun _ => Err _))|].
    destruct (negb _); [apply (settles_same (fun _ => Err _))|]. apply settles_bind; [apply (settles_same (fun s => Ok _))|].
    intros [a|]; [apply (settles_same (fun _ => Err _))|apply settles_keys].
  - apply settles_bind; [|intros _; apply (settles_same (fun _ => Ok tt))]. apply settles_bind; [apply (settles_same (fun s => Ok _))|].
    intros t. destruct (tn_active t).
    + destruct (tn_entryKeys t), (tn_exitKeys t); first [apply (settles_same (fun _ => Ok _))|apply (settles_same (fun _ => Err _))].
    + destruct g as [[g1|] [g2|]]; try apply (settles_same (fun _ => Err _)). apply settles_bind; [apply settles_keys|].
      intros _. apply (settles_same (fun _ => Ok _)).
  - apply settles_bind; [apply (settles_same (fun s => Ok _))|]. intros [a|]; [apply (settles_same (fun _ => Ok tt))|apply settles_keys].
  - apply settles_bind; [apply settles_checked|]. intros _. apply settles_bind; [apply settles_outer|]. intros _. apply settles_inner.
Qed.
Lemma run_ops_ok os : forall s, tunnel_ok s -> tunnel_ok (run_ops SplitHostPort JoinHostPort ParseIP ParseCIDR os s).
Proof.
  induction os as [|o os IH]; intros s Hs; cbn [run_ops]; [done|]. apply IH. destruct (perform _ _ _ _ o s) as [r s'] eqn:H. by apply (settles_op o s r s').
Qed.
End undoing.

Section used.
Context `{Hhost : Host W} `{HL : !HostLaws W} (D I : Prop) (HD : D -> ExactDNS W) (HI : I -> ExactInterfaces W).
Context (SplitHostPort : string -> option (string * string)) (JoinHostPort : string -> string -> string)
  (ParseIP : string -> option IP) (ParseCIDR : string -> option (IP * Z)).
Abbreviation used := (run_ops SplitHostPort JoinHostPort ParseIP ParseCIDR).

(** The host before anything was changed *)
Definition untouched (w : W) : Prop := host_ok w /\ vw_ipv6 (host_view w) = false /\ vw_dns (host_view w) = false.
Lemma used_ok os w : untouched w -> tunnel_ok D I (host_view w) (used os (newTunnel, w)).
Proof. intros (Hok & H6 & Hd). apply run_ops_ok; [done..|]. split; cbn; [done|by left| |done]. by split_and!. Qed.

Lemma down_undoes v0 t w1 r t' w' : tunnel_ok D I v0 (t, w1) -> Down (t, w1) = (r, (t', w')) ->
  tn_active t' = None /\ (owned t <> None -> tn_entryKeys t' = None /\ tn_exitKeys t' = None) /\
  match r with
  | Ok _ => tn_pendingCleanup t' = None /\ restored D I v0 (host_view w')
  | Err _ => exists p, tn_pendingCleanup t' = Some p /\ covered D I v0 p (host_view w')
  end.
Proof.
  intros Hok Hdown. unfold Down in Hdown.
  apply ibind_inv in Hdown as [(e & [=] & _)|(t0 & s1 & [= <- <-] & H)]. cbn [fst] in H.
  destruct (owned t) as [st|] eqn:Hown.
  - assert ((r0 <~ itry disconnectLocked ;; tset (W:=W) (with_keys None None) ~> match r0 with Ok _ => iret tt | Err e => ifail e end) (t, w1) = (r, (t', w'))) as H'.
    { unfold owned in Hown. destruct (tn_active t); [done|]. by destruct (tn_pendingCleanup t). }
    clear H. apply ibind_inv in H' as [(e & H & _)|(x & [t2 w2] & H & H')]; [by apply itry_inv in H as (? & [=] & _)|].
    apply itry_inv in H as (y & [= ->] & H). apply (disconnect_spec D I HD HI v0) in H as ([_ _ Hcov _] & Ha & _ & _ & Hp); [|done].
    cbn [fst snd] in *. assert (t' = with_keys None None t2 /\ w' = w2 /\ r = y) as (-> & -> & ->) by (by destruct y as [[]|]; injection H' as <- <- <-).
    cbn. split_and!; [done|done|]. unfold owned in Hcov. rewrite Ha in Hcov. destruct y as [u|e]; [by rewrite Hp in *|].
    destruct Hp as [p Hp]. rewrite Hp in Hcov. by exists p.
  - unfold owned in Hown. destruct (tn_active t) eqn:Ha; [done|]. rewrite Hown in H. injection H as <- <- <-. split_and!; [done|done|done|].
    destruct Hok as [_ _ Hcov _]. cbn [fst snd] in Hcov. unfold owned in Hcov. by rewrite Ha, Hown in Hcov.
Qed.

(** Taking the tunnel down puts the host back. When Down succeeds, after any
    operations, nothing of the tunnel is left: no route, no IPv6 block, and on a
    host exact about them no resolver change and no interface; no record of changes
    remains. When it fails, what could not be undone stays on record for the next
    Down, and the tunnel is not active. Keys are gone either way, if there was
    something to take down. *)
Theorem down_restores (os : list op) (w : W) (Hw : untouched w) (r : result string unit) (t' : Tunnel) (w' : W)
    (Hdown : Down (used os (newTunnel, w)) = (r, (t', w'))) :
  tn_active t' = None /\
  (owned (used os (newTunnel, w)).1 <> None -> tn_entryKeys t' = None /\ tn_exitKeys t' = None) /\
  match r with
  | Ok _ => tn_pendingCleanup t' = None /\ restored D I (host_view w) (host_view w')
  | Err _ => exists p, tn_pendingCleanup t' = Some p /\ covered D I (host_view w) p (host_view w')
  end.
Proof.
  pose proof (used_ok os w Hw) as Hok. destruct (used os (newTunnel, w)) as [t w1]. by eapply down_undoes.
Qed.
End used.

Section on_record.
Context `{Hhost : Host W} `{HL : !HostLaws W}.
Context (SplitHostPort : string -> option (string * string)) (JoinHostPort : string -> string -> string)
  (ParseIP : string -> option IP) (ParseCIDR : string -> option (IP * Z)).

(** C24: the routes and the IPv6 block are on record. Whatever operations were made,
    in any order and whatever failed in them, on any host that keeps [HostLaws], as
    the Linux helper does ([linux_laws]), every route the host has gained, and a
    block of IPv6, is in the record of the tunnel or of its unfinished cleanup;
    without a record there is none. An active tunnel has IPv6 blocked, and there is
    never both an active tunnel and an unfinished cleanup. The same is said of the
    resolver and of the interfaces only if the host is exact about them
    ([ExactDNS], [ExactInterfaces]: a call that fails has changed nothing), which
    the helpers are not: see [linux_interface_leaked] and [darwin_dns_not_restored]. *)
Theorem changes_recorded (os : list op) (w : W) (Hw : untouched w) :
  let '(t, w') := run_ops SplitHostPort JoinHostPort ParseIP ParseCIDR os (newTunnel, w) in
  match tn_active t, tn_pendingCleanup t with
  | Some a, None => covered (ExactDNS W) (ExactInterfaces W) (host_view w) a (host_view w') /\ vw_ipv6 (host_view w') = true /\ as_ipv6Changed a = true
  | None, Some p => covered (ExactDNS W) (ExactInterfaces W) (host_view w) p (host_view w')
  | None, None => restored (ExactDNS W) (ExactInterfaces W) (host_view w) (host_view w')
  | Some _, Some _ => False
  end.
Proof.
  destruct (run_ops _ _ _ _ os (newTunnel, w)) as [t w'] eqn:He.
  pose proof (used_ok (ExactDNS W) (ExactInterfaces W) id id SplitHostPort JoinHostPort ParseIP ParseCIDR os w Hw) as [_ Hone Hcov Hact].
  rewrite He in *. cbn [fst snd] in *.
  unfold owned in Hcov. destruct (tn_active t) as [a|], (tn_pendingCleanup t) as [p|]; try done; [by destruct Hone|].
  split; [done|]. by apply Hact.
Qed.
End on_record.

(** ** What a tunnel that came up is *)
Section up.
Context `{Hhost : Host W} `{HL : !HostLaws W}.
Context (SplitHostPort : string -> option (string * string)) (JoinHostPort : string -> string -> string)
  (ParseIP : string -> option IP) (ParseCIDR : string -> option (IP * Z)).

Lemma ibind_ok {S A B} (m : io S A) (k : A -> io S B) s b s' : ibind m k s = (Ok b, s') ->
  exists a s1, m s = (Ok a, s1) /\ k a s1 = (Ok b, s').
Proof. intros [(e & _ & [=])|(a & s1 & H & H')]%ibind_inv. by exists a, s1. Qed.
Lemma checked_ok {A} (x : result tunnel_error A) (s : Tunnel * W) a s' : checked x s = (Ok a, s') -> x = Ok a /\ s' = s.
Proof. destruct x; intros [=]. by subst. Qed.

Definition insert_routes (rs : list route) (m : gmap string (string * string)) : gmap string (string * string) := foldl (flip add_rt) m rs.
Lemma insert_routes_mono rs m c : is_Some (m !! c) -> is_Some (insert_routes rs m !! c).
Proof.
  revert m. induction rs as [|r rs IH]; intros m Hc; [done|]. apply IH. cbn. unfold add_rt.
  destruct (decide (rt_cidr r = c)) as [->|]; [rewrite lookup_insert_eq; eauto|by rewrite lookup_insert_ne].
Qed.
Lemma insert_routes_in rs m c : c ∈ dests rs -> is_Some (insert_routes rs m !! c).
Proof.
  revert m. induction rs as [|r rs IH]; intros m; [by intros []%elem_of_nil|]. intros [->|Hc]%elem_of_cons; [|by apply IH].
  apply (insert_routes_mono rs). cbn. unfold add_rt. rewrite lookup_insert_eq. eauto.
Qed.

Lemma createInterface_ok c st w st' w' : createInterface c (st, w) = (Ok tt, (st', w')) -> host_ok w ->
  host_ok w' /\ st' = as_set_interfaces (as_interfaces st ++ [ic_Name c]) st /\
  host_view w' = set_ifaces ({[ic_Name c]} ∪ vw_ifaces (host_view w)) (host_view w).
Proof.
  intros ([] & s1 & H & H')%ibind_ok Hok. apply on_host_inv in H as (w1 & Hw & ->). injection H' as <- <-.
  destruct (law_create _ _ _ _ Hw Hok) as (Hok' & l & Hv & Hl). by rewrite (Hl eq_refl) in Hv.
Qed.
Lemma addPeer_ok n p st w s' : on_host (AddPeer n p) (st, w) = (Ok tt, s') -> host_ok w ->
  exists w', s' = (st, w') /\ host_ok w' /\ host_view w' = set_peers (<[n := p]> (vw_peers (host_view w))) (host_view w).
Proof.
  intros (w1 & Hw & ->)%on_host_inv Hok. destruct (law_add_peer _ _ _ _ _ Hw Hok) as (Hok' & m & Hv & Hm).
  exists w1. by rewrite (Hm eq_refl) in Hv.
Qed.
Lemma add_routes_ok rs : forall st w s', add_routes rs (st, w) = (Ok tt, s') -> host_ok w ->
  exists w', s' = (as_set_routes (as_routes st ++ rs) st, w') /\ host_ok w' /\
    host_view w' = set_routes (insert_routes rs (vw_routes (host_view w))) (host_view w).
Proof.
  induction rs as [|r rs IH]; intros st w s' H Hok; cbn [add_routes] in H.
  - injection H as <-. exists w. rewrite app_nil_r. split_and!; [by destruct st|done|by destruct (host_view w)].
  - apply ibind_ok in H as ([] & [st1 w1] & H & H'). apply ibind_ok in H as ([] & s2 & H & H2).
    apply on_host_inv in H as (w2 & Hw & ->). injection H2 as <- <-. destruct (law_add_route _ _ _ _ Hw Hok) as (Hok1 & m & Hv & ->).
    destruct (IH _ _ _ H' Hok1) as (w' & -> & Hok' & Hv'). exists w'. split_and!; [|done|by rewrite Hv', Hv]. cbn. by rewrite <-app_assoc.
Qed.

Definition host_routes (gateway iface : string) (ips : list string) : list route := (fun ip => mkRt (ip ++ "/32") gateway iface) <$> ips.
Definition outer_peer (cfg : TunnelConfig) (routeIPs : list string) : PeerConfig :=
  mkPeer (hc_NodeWGPubkey (tc_Entry cfg)) (hc_Endpoint (tc_Entry cfg)) (OuterTunnelSubnet :: ((fun ip => ip ++ "/32")%string <$> routeIPs)) keepaliveSeconds.
Definition inner_peer (cfg : TunnelConfig) (pinned : string) : PeerConfig :=
  mkPeer (hc_NodeWGPubkey (tc_Exit cfg)) pinned ["0.0.0.0/0"%string] keepaliveSeconds.

Lemma bringUpOuter_ok keys cfg entryIPs routeIPs gw i st w st' w' : bringUpOuter keys cfg entryIPs routeIPs gw i (st, w) = (Ok tt, (st', w')) -> host_ok w ->
  host_ok w' /\ (exists os, as_routes st' = as_routes st ++ host_routes gw i entryIPs ++ host_routes "" os routeIPs /\
    vw_routes (host_view w') = insert_routes (host_routes "" os routeIPs) (insert_routes (host_routes gw i entryIPs) (vw_routes (host_view w)))) /\
  as_interfaces st' = as_interfaces st ++ [OuterInterface] /\ as_exitIP st' = as_exitIP st /\ as_exitEndpoint st' = as_exitEndpoint st /\
  vw_ifaces (host_view w') = {[OuterInterface]} ∪ vw_ifaces (host_view w) /\
  vw_peers (host_view w') = <[OuterInterface := outer_peer cfg routeIPs]> (vw_peers (host_view w)) /\
  vw_ipv6 (host_view w') = vw_ipv6 (host_view w) /\ as_ipv6Changed st' = as_ipv6Changed st.
Proof.
  intros H Hok. apply ibind_ok in H as ([] & [st1 w1] & H & H1). destruct (createInterface_ok _ _ _ _ _ H Hok) as (Hok1 & -> & Hv1).
  apply ibind_ok in H1 as ([] & s2 & H1 & H2). destruct (addPeer_ok _ _ _ _ _ H1 Hok1) as (w2 & -> & Hok2 & Hv2).
  apply ibind_ok in H2 as ([] & s3 & H2 & H3). destruct (add_routes_ok _ _ _ _ H2 Hok2) as (w3 & -> & Hok3 & Hv3).
  apply ibind_ok in H3 as (os & s4 & [= <- <-] & H4). cbn [snd] in H4. destruct (add_routes_ok _ _ _ _ H4 Hok3) as (w4 & [= -> ->] & Hok4 & Hv4).
  split; [done|]. rewrite Hv4, Hv3, Hv2, Hv1. split_and!; [|done..]. eexists. split; [|reflexivity]. cbn. by rewrite <-app_assoc.
Qed.
Lemma bringUpInner_ok e x cfg st w st' w' : bringUpInner e x cfg (st, w) = (Ok tt, (st', w')) -> host_ok w ->
  (exists os, as_routes st' = as_routes st ++ [mkRt "0.0.0.0/1" "" os; mkRt "128.0.0.0/1" "" os] /\
    vw_routes (host_view w') = insert_routes [mkRt "0.0.0.0/1" "" os; mkRt "128.0.0.0/1" "" os] (vw_routes (host_view w))) /\
  as_interfaces st' = as_interfaces st ++ [InnerInterface] /\ as_exitIP st' = as_exitIP st /\ as_dnsChanged st' = true /\
  vw_ifaces (host_view w') = {[InnerInterface]} ∪ vw_ifaces (host_view w) /\
  vw_peers (host_view w') = <[InnerInterface := inner_peer cfg (hc_Endpoint (tc_Exit cfg))]> (vw_peers (host_view w)) /\
  vw_ipv6 (host_view w') = vw_ipv6 (host_view w) /\ as_ipv6Changed st' = as_ipv6Changed st.
Proof.
  unfold bringUpInner. destruct (match x with Some k => Some k | None => e end) as [k|]; [|by intros [=]]. intros H Hok.
  apply ibind_ok in H as ([] & [st1 w1] & H & H1). destruct (createInterface_ok _ _ _ _ _ H Hok) as (Hok1 & -> & Hv1).
  apply ibind_ok in H1 as ([] & s2 & H1 & H2). destruct (addPeer_ok _ _ _ _ _ H1 Hok1) as (w2 & -> & Hok2 & Hv2).
  apply ibind_ok in H2 as (os & s3 & [= <- <-] & H3). cbn [snd] in H3.
  apply ibind_ok in H3 as ([] & s4 & H3 & H4). destruct (add_routes_ok _ _ _ _ H3 Hok2) as (w4 & -> & Hok4 & Hv4).
  apply ibind_ok in H4 as ([] & s5 & H4 & H5). apply on_host_inv in H4 as (w5 & Hw & ->). injection H5 as <- <-.
  destruct (law_set_dns _ _ _ _ Hw Hok4) as (Hok5 & b & Hv5). rewrite Hv5, Hv4, Hv2, Hv1. split_and!; [|done..]. by eexists.
Qed.
Lemma upOuter_ok lookup cfg t w t' w' : upOuterLocked SplitHostPort JoinHostPort ParseIP ParseCIDR lookup cfg (t, w) = (Ok tt, (t', w')) -> host_ok w ->
  exists a entryIPs routeIPs entryEndpoint gw i os w0,
    t' = with_states (Some a) None t /\ host_ok w' /\
    resolveOuterRouteIPs SplitHostPort ParseIP lookup (hc_Endpoint (tc_Entry cfg)) (hc_Endpoint (tc_Exit cfg)) (tc_OuterPinnedEndpoints cfg) = Ok (entryIPs, routeIPs) /\
    endpointWithHost SplitHostPort JoinHostPort (hc_Endpoint (tc_Entry cfg)) (hd ""%string entryIPs) = Ok entryEndpoint /\
    DefaultRoute w = (Ok (gw, i), w0) /\
    as_outerReady a = true /\ as_innerReady a = false /\ as_ipv6Changed a = true /\ as_interfaces a = [OuterInterface] /\
    as_exitEndpoint a = hc_Endpoint (tc_Exit cfg) /\ as_exitIP a = hd ""%string routeIPs /\
    as_routes a = host_routes gw i entryIPs ++ host_routes "" os routeIPs /\
    (forall c, c ∈ cidrs a -> is_Some (vw_routes (host_view w') !! c)) /\
    OuterInterface ∈ vw_ifaces (host_view w') /\ vw_ipv6 (host_view w') = true /\
    vw_peers (host_view w') !! OuterInterface = Some (mkPeer (hc_NodeWGPubkey (tc_Entry cfg)) entryEndpoint
      (OuterTunnelSubnet :: ((fun ip => ip ++ "/32")%string <$> routeIPs)) keepaliveSeconds).
Proof.
  intros H Hok. apply ibind_ok in H as (t0 & s0 & [= <- <-] & H). cbn [fst] in H.
  destruct (tn_active t) eqn:Ha; [done|]. destruct (tn_pendingCleanup t) eqn:Hp; [done|]. destruct (tn_entryKeys t) as [keys|]; [|done].
  apply ibind_ok in H as (u0 & s0 & [_ ->]%checked_ok & H). apply ibind_ok in H as (ips & s0 & [Hips ->]%checked_ok & H).
  apply ibind_ok in H as (ep & s0 & [Hep ->]%checked_ok & H). apply ibind_ok in H as ([gw i] & s0 & Hd & H).
  apply with_host_inv in Hd as (w0 & Hd & ->). destruct (law_default _ _ _ Hd Hok) as [Hok0 Hv0]. cbv zeta in H.
  apply ibind_ok in H as (sec & s1 & H1 & H). apply itry_inv in H1 as (x & [= ->] & H1). apply with_host_inv in H1 as (w1 & H1 & ->).
  destruct (law_disable_ipv6 _ _ _ H1 Hok0) as (Hok1 & b & Hv1 & Hb).
  destruct x as [u|e]; [|apply ibind_ok in H as (rb & s2 & _ & H); destruct rb; [done|by apply ibind_ok in H as (? & ? & _ & [=])]].
  apply ibind_ok in H as ([x st] & s2 & H2 & H). apply on_record_inv in H2 as (x' & st' & w2 & H2 & [= <- <-] & ->).
  destruct x as [[]|e]; [|apply ibind_ok in H as ([[]] & ? & _ & H); [done|by apply ibind_ok in H as (? & ? & _ & [=])]].
  injection H as <- <-. destruct (bringUpOuter_ok _ _ _ _ _ _ _ _ _ _ H2 Hok1) as (Hok2 & (os & Hr & Hvr) & Hi & Hx & He & Hvi & Hvp & Hv6 & H6).
  exists (as_set_ready true false st), ips.1, ips.2, ep, gw, i, os, w0. cbn in Hr, Hi, Hx, He, H6. split_and!; try done.
  - by destruct ips.
  - intros c. unfold cidrs. cbn. rewrite Hr, Hvr. unfold dests. rewrite fmap_app, elem_of_app.
    intros [Hc|Hc]; [by apply insert_routes_mono, insert_routes_in|by apply insert_routes_in].
  - rewrite Hvi, elem_of_union, elem_of_singleton. by left.
  - by rewrite Hv6, Hv1, (Hb eq_refl).
  - by rewrite Hvp, lookup_insert_eq.
Qed.

(** A tunnel that came up is the configured one. When Up succeeds, the
    configuration is valid, the endpoints resolved to the addresses [hops_apart]
    describes, and the host has: the outer peer at the entry's first address,
    allowed to carry exactly the addresses behind it; the inner peer at the exit's
    first address, the one the outer hop carries, with all of IPv4; a route to each
    entry address through the gateway, to each address behind the entry through the
    outer interface, and both halves of the default through the inner; outbound
    IPv6 blocked. All of it is on record, for taking it down. *)
Theorem up_builds_both (lookup : string -> option (list string)) (cfg : TunnelConfig) (t t' : Tunnel) (w w' : W) (Hok : host_ok w)
    (Hup : Up SplitHostPort JoinHostPort ParseIP ParseCIDR lookup cfg (t, w) = (Ok tt, (t', w'))) :
  validate ParseCIDR cfg = Ok tt /\ tn_pendingCleanup t' = None /\
  exists a entryIPs routeIPs entryEndpoint exitEndpoint gw i w0 outerOS innerOS, tn_active t' = Some a /\
    resolveOuterRouteIPs SplitHostPort ParseIP lookup (hc_Endpoint (tc_Entry cfg)) (hc_Endpoint (tc_Exit cfg)) (tc_OuterPinnedEndpoints cfg) = Ok (entryIPs, routeIPs) /\
    endpointWithHost SplitHostPort JoinHostPort (hc_Endpoint (tc_Entry cfg)) (hd ""%string entryIPs) = Ok entryEndpoint /\
    endpointWithHost SplitHostPort JoinHostPort (hc_Endpoint (tc_Exit cfg)) (hd ""%string routeIPs) = Ok exitEndpoint /\
    DefaultRoute w = (Ok (gw, i), w0) /\
    vw_peers (host_view w') !! OuterInterface = Some (mkPeer (hc_NodeWGPubkey (tc_Entry cfg)) entryEndpoint
      (OuterTunnelSubnet :: ((fun ip => ip ++ "/32")%string <$> routeIPs)) keepaliveSeconds) /\
    vw_peers (host_view w') !! InnerInterface = Some (mkPeer (hc_NodeWGPubkey (tc_Exit cfg)) exitEndpoint ["0.0.0.0/0"%string] keepaliveSeconds) /\
    {[OuterInterface; InnerInterface]} ⊆ vw_ifaces (host_view w') /\ vw_ipv6 (host_view w') = true /\
    as_routes a = host_routes gw i entryIPs ++ host_routes "" outerOS routeIPs ++ [mkRt "0.0.0.0/1" "" innerOS; mkRt "128.0.0.0/1" "" innerOS] /\
    (forall c, c ∈ cidrs a -> is_Some (vw_routes (host_view w') !! c)) /\
    as_interfaces a = [OuterInterface; InnerInterface] /\ as_dnsChanged a = true /\ as_ipv6Changed a = true.
Proof.
  apply ibind_ok in Hup as ([] & s0 & [Hval ->]%checked_ok & H). apply ibind_ok in H as ([] & [t1 w1] & H1 & H).
  destruct (upOuter_ok _ _ _ _ _ _ H1 Hok) as (a & en & rt & ep & gw & i & os & w0 & -> & Hok1 & Hres & Hep & Hdef & Hro & Hri & H6 & Hif & Hee & Hip & Hrt & Hin & Hvi & Hv6 & Hpo).
  apply ibind_ok in H as (t0 & s0 & [= <- <-] & H). cbn [fst tn_active with_states] in H.
  rewrite Hro, Hri, Hee, String.eqb_refl in H. cbn [negb] in H. rewrite Hval in H.
  destruct (endpointWithHost _ _ _ (as_exitIP a)) as [xp|] eqn:Hxp; [|by apply ibind_ok in H as (? & ? & _ & [=])]. cbv zeta in H.
  apply ibind_ok in H as ([x st] & s2 & H2 & H). apply on_record_inv in H2 as (x' & st' & w2 & H2 & [= <- <-] & ->).
  destruct x as [[]|e]; [|apply ibind_ok in H as (? & ? & _ & H); by apply ibind_ok in H as (? & ? & _ & [=])].
  injection H as <- <-. destruct (bringUpInner_ok _ _ _ _ _ _ _ H2 Hok1) as ((is_ & Hr2 & Hvr2) & Hif2 & Hip2 & Hd2 & Hvi2 & Hvp2 & Hv62 & H62).
  split_and!; [done|done|]. exists (as_set_ready true true st), en, rt, ep, xp, gw, i, w0, os, is_. cbn [as_routes as_interfaces as_dnsChanged as_ipv6Changed as_set_ready].
  split_and!; try done.
  - by rewrite <-Hip.
  - by rewrite Hvp2, lookup_insert_ne.
  - by rewrite Hvp2, lookup_insert_eq.
  - rewrite Hvi2. intros z. rewrite !elem_of_union, !elem_of_singleton. intros [->| ->]; auto.
  - congruence.
  - by rewrite Hr2, Hrt, <-app_assoc.
  - intros c. unfold cidrs. cbn [as_routes as_set_ready]. rewrite Hr2, Hvr2. unfold dests. rewrite fmap_app, elem_of_app.
    intros [Hc|Hc]; [apply insert_routes_mono; by apply Hin|by apply insert_routes_in].
  - by rewrite Hif2, Hif.
  - congruence.
Qed.
End up.

(** ** Examples *)
Definition toy_join (host port : string) : string := (host ++ ":" ++ port)%string.
Definition toy_keys : option KeyPair * option KeyPair := (Some (mkKeys "sk1" "pk1"), Some (mkKeys "sk2" "pk2")).
Abbreviation toy_run := (run_ops toy_split toy_join toy_ip toy_cidr).
Abbreviation toy_up := (OpUp toy_lookup (toy_hops "wg-exit")).
(** A host with one route of its own; the calls numbered from 0 that fail *)
Definition faults (l : list Z) : list bool := (fun n => bool_decide (n ∈ l)) <$> seqZ 0 60.
Definition toy_host (l : list Z) : Sim :=
  mkSim ("192.168.1.1", "eth0")%string (mkView {["192.168.1.0/24"%string := (""%string, "eth0"%string)]} ∅ ∅ false false) (faults l).

Definition toy_linux (l : list Z) : Linux :=
  mkLinux "default via 192.168.1.1 dev eth0" ∅ "nameserver 192.168.1.1" None "nameserver 192.168.1.1" [] ∅ ∅ false "" ∅ ["a1"; "b2"]%string (faults l).

(** The resolver cannot be changed, then the inner interface cannot be deleted. *)
Definition toy_broken : Sim := toy_host [9; 15].
Lemma changes_recorded_witness :
  (exists p, tn_pendingCleanup (toy_run [OpPrepareHopKeys toy_keys; toy_up] (newTunnel, toy_broken)).1 = Some p /\
    as_interfaces p = [InnerInterface] /\
    covered True True (sm_view toy_broken) p (sm_view (toy_run [OpPrepareHopKeys toy_keys; toy_up] (newTunnel, toy_broken)).2)) /\
  (exists a, tn_active (toy_run [OpPrepareHopKeys toy_keys; toy_up] (newTunnel, toy_linux [])).1 = Some a /\
    length (as_routes a) = 4%nat /\
    covered False False (linux_view (toy_linux [])) a (linux_view (toy_run [OpPrepareHopKeys toy_keys; toy_up] (newTunnel, toy_linux [])).2)).
Proof.
  split.
  - pose proof (changes_recorded toy_split toy_join toy_ip toy_cidr [OpPrepareHopKeys toy_keys; toy_up] toy_broken ltac:(by split_and!)) as H.
    destruct (toy_run _ _) as [t w'] eqn:E. vm_compute in E. injection E as <- <-. cbn [fst snd tn_active tn_pendingCleanup] in *.
    eexists. split; [reflexivity|]. split; [reflexivity|]. destruct H as [Hr H6 Hd Hi].
    split; [exact Hr|exact H6|intros _; exact (Hd sim_dns)|intros _; exact (Hi sim_ifaces)].
  - pose proof (changes_recorded toy_split toy_join toy_ip toy_cidr [OpPrepareHopKeys toy_keys; toy_up] (toy_linux []) ltac:(by split_and!)) as H.
    destruct (toy_run _ _) as [t w'] eqn:E. vm_compute in E. injection E as <- <-. cbn [fst snd tn_active tn_pendingCleanup] in *.
    eexists. split; [reflexivity|]. split; [reflexivity|]. destruct H as ([Hr H6 _ _] & _ & _). split; [exact Hr|exact H6|done..].
Defined.
Lemma down_restores_witness :
  exists w', (Down (toy_run [OpPrepareHopKeys toy_keys; toy_up] (newTunnel, toy_broken))) = (Ok tt, (newTunnel, w')) /\
    restored True True (sm_view toy_broken) (sm_view w').
Proof.
  destruct (Down (toy_run [OpPrepareHopKeys toy_keys; toy_up] (newTunnel, toy_broken))) as [r [t' w']] eqn:E.
  pose proof (down_restores True True (fun _ => sim_dns) (fun _ => sim_ifaces) toy_split toy_join toy_ip toy_cidr
    [OpPrepareHopKeys toy_keys; toy_up] toy_broken ltac:(by split_and!) _ _ _ E) as (_ & _ & H).
  vm_compute in E. injection E as <- <- <-. destruct H as [_ H]. eexists. split; [reflexivity|exact H].
Defined.
Lemma up_builds_both_witness :
  exists t' w', (Up toy_split toy_join toy_ip toy_cidr toy_lookup (toy_hops "wg-exit") (with_keys toy_keys.1 toy_keys.2 newTunnel, toy_host [])) = (Ok tt, (t', w')) /\
    vw_ipv6 (sm_view w') = true /\ exists p, vw_peers (sm_view w') !! InnerInterface = Some p /\ pc_Endpoint p = "198.51.100.8:51820"%string.
Proof.
  destruct (Up _ _ _ _ _ _ _) as [r [t' w']] eqn:E. assert (r = Ok tt) as -> by (vm_compute in E; by injection E as <- _ _).
  destruct (up_builds_both (Hhost:=sim_host) toy_split toy_join toy_ip toy_cidr toy_lookup (toy_hops "wg-exit") _ _ (toy_host []) _ Logic.I E) as (_ & _ & a & en & rt & ep & xp & gw & i & w0 & o1 & o2 & _ & Hres & _ & Hxp & _ & _ & Hp & _ & H6 & _).
  exists t', w'. split; [reflexivity|]. split; [exact H6|]. eexists. split; [exact Hp|]. cbn [pc_Endpoint].
  vm_compute in Hres. injection Hres as <- <-. vm_compute in Hxp. by injection Hxp as <-.
Defined.

(** *** Linux: an interface that was created and then could not be configured is
    not on record. UpOuter fails, nothing is active or pending, and the link stays. *)
Example linux_interface_leaked :
  let '(t, w) := toy_run [OpPrepareHopKeys toy_keys; toy_up; OpDown] (newTunnel, toy_linux [4]) in
  tn_active t = None /\ tn_pendingCleanup t = None /\ OuterInterface ∈ lx_links w /\ lx_routes w = ∅ /\ lx_output w = [].
Proof. vm_compute. by split_and!. Qed.

(** *** macOS: the resolver is changed for one service after the other. When the
    second refuses, the change of the first is not on record and survives. *)
Definition toy_darwin (l : list Z) : Darwin :=
  let services := [("Wi-Fi", ["192.168.1.1"]); ("Ethernet", ["192.168.1.1"])]%string in
  mkDarwin [["gateway:"; "192.168.1.1"]; ["interface:"; "en0"]]%string ∅ services services ∅ true ∅ "" "" ∅ 4 ∅ ∅ ["a1"; "b2"]%string (faults l).
Definition toy_connected : list op := [OpPrepareHopKeys toy_keys; toy_up].
Example darwin_dns_not_restored :
  let '(t, w) := toy_run (toy_connected ++ [OpDown]) (newTunnel, toy_darwin [32]) in
  tn_active t = None /\ tn_pendingCleanup t = None /\
  dw_services w = [("Wi-Fi", [DNSResolver]); ("Ethernet", ["192.168.1.1"])]%string.
Proof. vm_compute. by split_and!. Qed.

(** What the resolvers were is forgotten after a failed restoration, and the next
    one, which then has nothing to do, succeeds. *)
Example darwin_retry_forgets :
  let s := toy_run toy_connected (newTunnel, toy_darwin [33]) in
  let '(first, s1) := Down s in
  let '(second, (t, w)) := Down s1 in
  is_ok first = false /\ is_ok second = true /\ tn_pendingCleanup t = None /\
  dw_services w = [("Wi-Fi", [DNSResolver]); ("Ethernet", ["192.168.1.1"])]%string.
Proof. vm_compute. by split_and!. Qed.

(** So is the system's name of an interface whose deletion failed; deleting it again
    removes a control socket that does not exist. *)
Example darwin_utun_left :
  let s := toy_run toy_connected (newTunnel, toy_darwin [41]) in
  let '(first, s1) := Down s in
  let '(second, (t, w)) := Down s1 in
  is_ok first = false /\ is_ok second = true /\ tn_pendingCleanup t = None /\ dw_utuns w = {["utun5"%string]}.
Proof. vm_compute. by split_and!. Qed.
