(* ===== verification/VaultFile.v ===== *)
(** * VaultFile: the sealed token vault and its backup
    (src/internal/wallet/store.go, backup.go; src/internal/wg/keystore.go)

    The store of ProofVault as a file: opening, sealing and replacing it, over a
    device whose system calls may fail and whose disk may lose what was not
    flushed. Argon2id, AES-GCM and the JSON codecs are the class [Sealing]; a byte
    slice is a [string]. *)
From S2P Require Import Prelude Sql Ecash Mint ProofVault Nip44 HostNet.

(** ** UTF-8: utf8.ValidString and the length of a []rune *)
Definition between (lo hi : Z) (c : ascii) : bool := (lo <=? byte_val c) && (byte_val c <=? hi).
(** The bytes the first code point takes; 0 when the string does not start with one. *)
Definition rune_width (s : string) : nat :=
  match s with
  | EmptyString => 0
  | String a r =>
      if byte_val a <? 128 then 1
      else match r with
      | String b r2 =>
          if between 194 223 a then if between 128 191 b then 2 else 0
          else
            let second := if byte_val a =? 224 then between 160 191 b else if byte_val a =? 237 then between 128 159 b
                          else if byte_val a =? 240 then between 144 191 b else if byte_val a =? 244 then between 128 143 b
                          else between 128 191 b in
            match r2 with
            | String c r3 =>
                if negb (second && between 128 191 c) then 0
                else if between 224 239 a then 3
                else match r3 with
                | String d _ => if between 240 244 a && between 128 191 d then 4 else 0
                | EmptyString => 0
                end
            | EmptyString => 0
            end
      | EmptyString => 0
      end
  end.
(** [skip]: the bytes that still belong to the code point before. *)
Fixpoint rune_loop (skip : nat) (s : string) : nat * bool :=
  match s with
  | EmptyString => (O, true)
  | String _ r =>
      match skip with
      | S k => rune_loop k r
      | O =>
          let '(n, valid) := rune_loop (pred (rune_width s)) r in
          (S n, valid && negb (rune_width s =? 0)%nat)
      end
  end.
Definition RuneCount (s : string) : Z := Z.of_nat (rune_loop 0 s).1.
Definition ValidString (s : string) : bool := (rune_loop 0 s).2.

(** ** What is sealed, and the files *)
Abbreviation hubs := (gmap string (list Proof_)).
Record proofFile := mkProofFile { pf_Version : Z; pf_Salt : string; pf_Nonce : string; pf_Ciphertext : string }.
Record backupFile := mkBackupFile { bf_Format : string; bf_Version : Z; bf_Salt : string; bf_Nonce : string; bf_Ciphertext : string }.
(** The map of a decoded payload is nil when the field is null or missing. *)
Record backupPayload := mkPayload { bp_DeviceKey : string; bp_Hubs : option hubs }.
Record encryptedKeyFile := mkKeyFile { kf_PublicKey : string; kf_EncryptedKey : string; kf_Nonce : string; kf_Salt : string; kf_Version : Z }.
Definition proofFileVersion : Z := 1.
Definition backupVersion : Z := 1.
Definition MinBackupPassphrase : Z := 12.
Definition saltLen : nat := 16.
(** gcm.NonceSize() *)
Definition NonceSize : nat := 12.

(** json.Marshal writes anything else than UTF-8 and uint64 differently. *)
Definition storable_proof (p : Proof_) : bool :=
  (0 <=? p_Amount p) && (p_Amount p <? 2 ^ 64) && ValidString (p_Id p) && ValidString (p_Secret p) && ValidString (p_C p).
Definition storable (h : hubs) : Prop := map_Forall (fun url ps => ValidString url = true /\ forallb storable_proof ps = true) h.

(** argon2.IDKey with the project's parameters, AES-256-GCM, encoding/json *)
Class Sealing := {
  IDKey : string -> string -> string;
  Seal : string -> string -> string -> string;
  Open : string -> string -> string -> option string;
  vault_Marshal : hubs -> string;
  vault_Unmarshal : string -> option (option hubs);
  proofFile_Marshal : proofFile -> string;
  proofFile_Unmarshal : string -> option proofFile;
  payload_Marshal : backupPayload -> string;
  payload_Unmarshal : string -> option backupPayload;
  backupFile_Marshal : backupFile -> string;
  backupFile_Unmarshal : string -> option backupFile;
  keyFile_Marshal : encryptedKeyFile -> string;
  keyFile_Unmarshal : string -> option encryptedKeyFile
}.
(** What was sealed opens, and what was written is read back. *)
Class SealingLaws `{Sealing} := {
  law_open k n p : String.length n = NonceSize -> Open k n (Seal k n p) = Some p;
  law_vault h : storable h -> vault_Unmarshal (vault_Marshal h) = Some (Some h);
  law_proofFile f : proofFile_Unmarshal (proofFile_Marshal f) = Some f;
  law_payload k h : storable h -> payload_Unmarshal (payload_Marshal (mkPayload k (Some h))) = Some (mkPayload k (Some h));
  law_backupFile f : ValidString (bf_Format f) = true -> backupFile_Unmarshal (backupFile_Marshal f) = Some f;
  law_keyFile f : ValidString (kf_PublicKey f) = true -> keyFile_Unmarshal (keyFile_Marshal f) = Some f
}.

(** ** The device *)
(** A file: its content, and whether it has been flushed. *)
Record file := mkFile { fl_content : string; fl_synced : bool }.
Abbreviation disk := (gmap string file).
Record Device := mkDev {
  dv_files : disk;
  dv_history : list disk;           (* the disk after every change, the latest first *)
  dv_keyring : option string;       (* the device key in the system keychain *)
  dv_random : list string;          (* what the random source gives *)
  dv_faults : list (option nat)     (* which of the next system calls fail; a failed write after so many bytes *)
}.
Definition set_faults l d := mkDev (dv_files d) (dv_history d) (dv_keyring d) (dv_random d) l.
Definition set_random l d := mkDev (dv_files d) (dv_history d) (dv_keyring d) l (dv_faults d).
Definition set_keyring k d := mkDev (dv_files d) (dv_history d) k (dv_random d) (dv_faults d).
Definition change (f : disk -> disk) d := mkDev (f (dv_files d)) (f (dv_files d) :: dv_history d) (dv_keyring d) (dv_random d) (dv_faults d).

(** A power cut: a flushed file stays; of a file that was not flushed any prefix is
    left, or not even its name. *)
Definition survives (f f' : file) : Prop :=
  if fl_synced f then f' = f else String.prefix (fl_content f') (fl_content f) = true.
Definition crash (m m' : disk) : Prop := forall p,
  match m !! p, m' !! p with
  | Some f, Some f' => survives f f'
  | Some f, None => fl_synced f = false
  | None, None => True
  | None, Some _ => False
  end.
Lemma crash_synced m m' p f : crash m m' -> m !! p = Some f -> fl_synced f = true -> m' !! p = Some f.
Proof.
  intros Hc Hm Hs. specialize (Hc p). rewrite Hm in Hc. destruct (m' !! p) as [f'|]; [|congruence].
  unfold survives in Hc. rewrite Hs in Hc. by subst.
Qed.

(** A call that does [f], or fails and then does what [broken] says. *)
Definition sys (f : Device -> Device) (broken : nat -> Device -> Device) : io Device unit := fun d =>
  match dv_faults d with
  | Some n :: l => (Err "input/output error"%string, broken n (set_faults l d))
  | l => (Ok tt, f (set_faults (tl l) d))
  end.
Definition call (f : Device -> Device) : io Device unit := sys f (fun _ d => d).
Definition random_bytes (n : nat) : io Device string := fun d =>
  match dv_random d with
  | s :: r => if (String.length s =? n)%nat then (Ok s, set_random r d) else (Err "generate random bytes"%string, set_random r d)
  | [] => (Err "generate random bytes"%string, d)
  end.

Fixpoint last_slash (i : nat) (s : string) : option nat :=
  match s with
  | EmptyString => None
  | String c r => match last_slash (S i) r with Some j => Some j | None => if Ascii.eqb c "/" then Some i else None end
  end.
(** filepath.Dir of a clean path *)
Definition Dir (path : string) : string :=
  match last_slash 0 path with None => "." | Some O => "/" | Some n => str_take n path end.

Definition write_to (tmp content : string) (m : disk) : disk := <[tmp := mkFile content false]> m.
(** Write on an open file. *)
Definition fs_write (name content : string) : io Device unit :=
  sys (change (write_to name content)) (fun n => change (write_to name (str_take n content))).
Definition fs_sync (name : string) : io Device unit :=
  call (change (fun m => match m !! name with Some f => <[name := mkFile (fl_content f) true]> m | None => m end)).
Definition fs_rename (from to : string) : io Device unit :=
  f <~ iget (fun d => dv_files d !! from) ;;
  match f with
  | None => ifail "no such file or directory"
  | Some f => call (change (fun m => <[to := f]> (delete from m)))
  end.
(** The callers do not mind that there is nothing to remove. *)
Definition fs_remove (name : string) : io Device unit := call (change (delete name)).
(** os.ReadFile; [None] when there is no such file. *)
Definition fs_read (path : string) : io Device (option string) :=
  call id ~> iget (fun d => fl_content <$> dv_files d !! path).
(** os.WriteFile: opening truncates, then the content is written. *)
Definition fs_WriteFile (path content : string) : io Device unit :=
  call (change (write_to path "")) ~> fs_write path content.
(** os.CreateTemp: names are tried until one does not exist. *)
Definition temp_name (dir r : string) : string := (dir ++ "/.arfl-tokens-" ++ r)%string.
Fixpoint temp_loop (dir : string) (names : list string) (d : Device) : result string string * Device :=
  match names with
  | [] => (Err "create temp file"%string, set_random [] d)
  | r :: l =>
      match dv_files d !! temp_name dir r with
      | Some _ => temp_loop dir l d
      | None => (Ok (temp_name dir r), change (write_to (temp_name dir r) "") (set_random l d))
      end
  end.
Definition create_temp (dir : string) : io Device string :=
  call id ~> (fun d => temp_loop dir (dv_random d) d).

(** ** The store *)
Section store.
Context `{Sealing}.

(** A key of 32 bytes is always a cipher's. Open panics on a nonce of another
    length, so decrypt looks first. *)
Definition encrypt (key plaintext : string) : io Device (string * string) :=
  nonce <~ random_bytes NonceSize ;; iret (nonce, Seal key nonce plaintext).
Definition decrypt (key nonce ciphertext : string) : option string :=
  if (String.length nonce =? NonceSize)%nat then Open key nonce ciphertext else None.

Record SealedStore := mkStore { st_path : string; st_key : string; st_salt : string; st_hubs : hubs }.
Definition set_hubs (h : hubs) (st : SealedStore) : SealedStore := mkStore (st_path st) (st_key st) (st_salt st) h.
Definition held_at (url : string) (st : SealedStore) : list Proof_ := default [] (st_hubs st !! url).

(** Permissions, content, flushing, closing *)
Definition fill_temp (tmp content : string) : io Device unit := call id ~> fs_write tmp content ~> fs_sync tmp ~> call id.
(** The temporary file is removed whatever happened; after the rename it is gone. *)
Definition replace_file (path content : string) : io Device unit :=
  tmp <~ create_temp (Dir path) ;;
  r <~ itry (fill_temp tmp content ~> fs_rename tmp path) ;;
  _ <~ itry (fs_remove tmp) ;;
  match r with Ok _ => iret tt | Err e => ifail e end.
Definition persist_store (st : SealedStore) : io Device unit :=
  sealed <~ encrypt (st_key st) (vault_Marshal (st_hubs st)) ;;
  replace_file (st_path st) (proofFile_Marshal (mkProofFile proofFileVersion (st_salt st) sealed.1 sealed.2)).

Definition newProofStore (path passphrase : string) : io Device SealedStore :=
  salt <~ random_bytes saltLen ;;
  (let st := mkStore path (IDKey passphrase salt) salt ∅ in persist_store st ~> iret st).
Definition OpenProofStore (path passphrase : string) : io Device SealedStore :=
  if str_empty path then ifail "proof store path is required"
  else if str_empty passphrase then ifail "passphrase is required to protect stored tokens"
  else
    call id ~>
    (raw <~ fs_read path ;;
     match raw with
     | None => newProofStore path passphrase
     | Some raw =>
         match proofFile_Unmarshal raw with
         | None => ifail "parse proof store"
         | Some file =>
             if negb (pf_Version file =? proofFileVersion) then ifail "unsupported proof store version"
             else match decrypt (IDKey passphrase (pf_Salt file)) (pf_Nonce file) (pf_Ciphertext file) with
             | None => ifail "could not open token store: wrong passphrase or corrupted file"
             | Some plaintext =>
                 match vault_Unmarshal plaintext with
                 | None => ifail "parse token vault"
                 | Some data => iret (mkStore path (IDKey passphrase (pf_Salt file)) (pf_Salt file) (default ∅ data))
                 end
             end
         end
     end).

(** *** The operations; a change in memory stays when it cannot be written, except
    that Take puts back what it took *)
Definition on_store (A : Type) : Type := io (SealedStore * Device) A.
Definition write_back : on_store unit := fun '(st, d) => let '(r, d') := persist_store st d in (r, (st, d')).
Definition put_hubs (f : SealedStore -> hubs) : on_store unit := iput (fun s : SealedStore * Device => (set_hubs (f s.1) s.1, s.2)).

Definition Snapshot (st : SealedStore) : hubs := st_hubs st.
Definition store_List (url : string) (st : SealedStore) : list Proof_ := held_at url st.
Definition store_Add (hubURL : string) (proofs : list Proof_) : on_store unit :=
  if str_empty hubURL then ifail "hub URL is required"
  else match proofs with
  | [] => iret tt
  | _ =>
      put_hubs (fun st =>
        match add_loop (list_to_set (p_Secret <$> held_at hubURL st)) proofs with
        | [] => st_hubs st
        | added => <[hubURL := held_at hubURL st ++ added]> (st_hubs st)
        end) ~>
      write_back
  end.
Definition store_Take (hubURL : string) (amountSats : Z) : on_store (list Proof_) :=
  if amountSats =? 0 then ifail "amount must be greater than zero"
  else
    available <~ iget (fun s : SealedStore * Device => held_at hubURL s.1) ;;
    if usum_by p_Amount available <? amountSats then ifail "insufficient token balance"
    else match select available amountSats with
    | None => ifail "insufficient token balance"
    | Some selected =>
        put_hubs (fun st => <[hubURL := chosen false selected available]> (st_hubs st)) ~>
        (r <~ itry write_back ;;
         match r with
         | Ok _ => iret (chosen true selected available)
         | Err e => put_hubs (fun st => <[hubURL := available]> (st_hubs st)) ~> ifail e
         end)
    end.
(** Those of [moving] whose secret is not among [existing] *)
Definition not_held (existing : list Proof_) (moving : list Proof_) : list Proof_ :=
  bfilter (fun p => negb (bool_decide (p_Secret p ∈ p_Secret <$> existing))) moving.
Definition moved (from to : string) (st : SealedStore) : hubs :=
  delete from (match not_held (held_at to st) (held_at from st) with
               | [] => st_hubs st
               | added => <[to := held_at to st ++ added]> (st_hubs st)
               end).
Definition MoveHub (from to : string) : on_store unit :=
  st <~ iget (fun s : SealedStore * Device => s.1) ;;
  match held_at from st with
  | [] => iret tt
  | _ => if String.eqb from to then iret tt else put_hubs (moved from to) ~> write_back
  end.

(** What a file opens to under a passphrase *)
Definition opens_content (passphrase content : string) : option hubs :=
  file ← proofFile_Unmarshal content;
  _ ← (if pf_Version file =? proofFileVersion then Some tt else None);
  plaintext ← decrypt (IDKey passphrase (pf_Salt file)) (pf_Nonce file) (pf_Ciphertext file);
  data ← vault_Unmarshal plaintext;
  Some (default ∅ data).
Definition opens (passphrase path : string) (m : disk) : option hubs := f ← m !! path; opens_content passphrase (fl_content f).

Inductive vault_op :=
| VAdd (hubURL : string) (proofs : list Proof_)
| VTake (hubURL : string) (amountSats : Z)
| VMove (from to : string).
Definition perform_vault (o : vault_op) : on_store unit :=
  match o with
  | VAdd url ps => store_Add url ps
  | VTake url n => _ <~ store_Take url n ;; iret tt
  | VMove from to => MoveHub from to
  end.
Fixpoint run_vault (os : list vault_op) (s : SealedStore * Device) : SealedStore * Device :=
  match os with [] => s | o :: l => run_vault l (perform_vault o s).2 end.
End store.

(** ** Replacing a file *)
(** The keychain is as it was, and [P] holds of the disk after every change. *)
Record evolves (P : disk -> Prop) (d d' : Device) : Prop := {
  ev_history : exists new, dv_history d' = new ++ dv_history d /\ Forall P new;
  ev_keyring : dv_keyring d' = dv_keyring d
}.
Lemma evolves_same P d d' : dv_files d' = dv_files d -> dv_history d' = dv_history d -> dv_keyring d' = dv_keyring d -> evolves P d d'.
Proof. intros Hf Hh Hk. split; [by exists []|done]. Qed.
Lemma evolves_trans P d1 d2 d3 : evolves P d1 d2 -> evolves P d2 d3 -> evolves P d1 d3.
Proof.
  intros [(n1 & H1 & F1) K1] [(n2 & H2 & F2) K2]. split; [|congruence].
  exists (n2 ++ n1). by rewrite H2, H1, app_assoc, Forall_app.
Qed.
Lemma evolves_change P f d : P (f (dv_files d)) -> evolves P d (change f d).
Proof. intros Hp. split; [exists [f (dv_files d)]; split; [done|by constructor]|done]. Qed.
Lemma evolves_weaken (P Q : disk -> Prop) d d' : (forall m, P m -> Q m) -> evolves P d d' -> evolves Q d d'.
Proof. intros HPQ [(n & H & F) K]. split; [exists n; split; [done|by eapply Forall_impl]|done]. Qed.

Lemma sys_inv f broken d r d' : sys f broken d = (r, d') -> exists l,
  r = Ok tt /\ d' = f (set_faults l d) \/ exists n e, r = Err e /\ d' = broken n (set_faults l d).
Proof.
  unfold sys. destruct (dv_faults d) as [|[n|] l]; intros [= <- <-]; [by exists []; left|exists l; right; by do 2 eexists|exists l; by left].
Qed.
Lemma temp_loop_inv dir names d r d' : temp_loop dir names d = (r, d') ->
  exists l, (exists e, r = Err e) /\ d' = set_random l d \/
    exists x, r = Ok (temp_name dir x) /\ dv_files d !! temp_name dir x = None /\ d' = change (write_to (temp_name dir x) "") (set_random l d).
Proof.
  revert d. induction names as [|x names IH]; intros d; cbn [temp_loop].
  - intros [= <- <-]. exists []. left. split; [by eexists|done].
  - destruct (dv_files d !! temp_name dir x) eqn:Hx; [apply IH|]. intros [= <- <-]. exists names. right. by exists x.
Qed.

Lemma rename_inv from to d r d' : fs_rename from to d = (r, d') -> exists l,
  (exists f, r = Ok tt /\ dv_files d !! from = Some f /\ d' = change (fun m => <[to := f]> (delete from m)) (set_faults l d)) \/
  (exists e, r = Err e) /\ d' = set_faults l d.
Proof.
  unfold fs_rename. intros [(e & [=] & _)|(f & d1 & [= <- <-] & H)]%ibind_inv. destruct (dv_files d !! from) as [f|].
  - apply sys_inv in H as (l & [[-> ->]|(n & e & -> & ->)]); exists l; [left; by exists f|right; split; [by eexists|done]].
  - injection H as <- <-. exists (dv_faults d). right. split; [by eexists|by destruct d].
Qed.

(** From a disk in [P], [m] ends with [Q], and the disk satisfies [R] throughout. *)
Definition runs {A} (R P : disk -> Prop) (m : io Device A) (Q : result string A -> disk -> Prop) : Prop :=
  forall d r d', m d = (r, d') -> P (dv_files d) -> evolves R d d' /\ Q r (dv_files d').
Section runs.
Context (R : disk -> Prop).
Implicit Types P : disk -> Prop.
Lemma runs_bind {A B} P (m : io Device A) (k : A -> io Device B) (P' : A -> disk -> Prop) Q :
  runs R P m (fun r d => match r with Ok a => P' a d | Err e => Q (Err e) d end) -> (forall a, runs R (P' a) (k a) Q) -> runs R P (ibind m k) Q.
Proof.
  intros Hm Hk d r d' [(e & H & ->)|(a & d1 & H & H')]%ibind_inv HP.
  - exact (Hm _ _ _ H HP).
  - destruct (Hm _ _ _ H HP) as [He HP']. destruct (Hk _ _ _ _ H' HP') as [He' HQ]. split; [by eapply evolves_trans|done].
Qed.
Lemma runs_try {A} P (m : io Device A) (Q : result string (result string A) -> disk -> Prop) :
  runs R P m (fun x => Q (Ok x)) -> runs R P (itry m) Q.
Proof.
  intros Hm d r d' H HP. unfold itry in H. destruct (m d) as [x d1] eqn:Hd. injection H as <- <-. exact (Hm _ _ _ Hd HP).
Qed.
Lemma runs_same {A} P (f : Device -> result string A) (Q : result string A -> disk -> Prop) :
  (forall r m, P m -> Q r m) -> runs R P (fun d => (f d, d)) Q.
Proof. intros HQ d r d' [= <- <-] HP. split; [by apply evolves_same|by apply HQ]. Qed.
Lemma runs_value {A} P (x : result string A) (Q : result string A -> disk -> Prop) : (forall m, P m -> Q x m) -> runs R P (fun d => (x, d)) Q.
Proof. intros HQ d r d' [= <- <-] HP. split; [by apply evolves_same|by apply HQ]. Qed.
Lemma runs_sys P f g Q : (forall m, P m -> R (f m) /\ Q (Ok tt) (f m)) ->
  (forall m n e, P m -> R (g n m) /\ Q (Err e) (g n m)) -> runs R P (sys (change f) (fun n => change (g n))) Q.
Proof.
  intros Hf Hg d r d' (l & [[-> ->]|(n & e & -> & ->)])%sys_inv HP.
  - destruct (Hf _ HP) as [HR HQ]. split; [|exact HQ]. eapply evolves_trans; [|by apply evolves_change]. by apply evolves_same.
  - destruct (Hg _ n e HP) as [HR HQ]. split; [|exact HQ]. eapply evolves_trans; [|by apply evolves_change]. by apply evolves_same.
Qed.
Lemma runs_call P f Q : (forall m, P m -> R (f m) /\ Q (Ok tt) (f m)) -> (forall m e, P m -> Q (Err e) m) -> runs R P (call (change f)) Q.
Proof.
  intros Hf Hg d r d' (l & [[-> ->]|(n & e & -> & ->)])%sys_inv HP.
  - destruct (Hf _ HP) as [HR HQ]. split; [|exact HQ]. eapply evolves_trans; [|by apply evolves_change]. by apply evolves_same.
  - split; [by apply evolves_same|by apply Hg].
Qed.
Lemma runs_idle P Q : (forall r m, P m -> Q r m) -> runs R P (call id) Q.
Proof. intros HQ d r d' (l & [[-> ->]|(n & e & -> & ->)])%sys_inv HP; (split; [by apply evolves_same|by apply HQ]). Qed.
Lemma runs_random P n Q : (forall s m, P m -> String.length s = n -> Q (Ok s) m) -> (forall e m, P m -> Q (Err e) m) -> runs R P (random_bytes n) Q.
Proof.
  intros HQ HE d r d' H HP. unfold random_bytes in H. destruct (dv_random d) as [|s l]; [injection H as <- <-; split; [by apply evolves_same|by apply HE]|].
  destruct (_ =? _)%nat eqn:Hn; injection H as <- <-; (split; [by apply evolves_same|]); [by apply HQ, Nat.eqb_eq|by apply HE].
Qed.
Lemma runs_conseq {A} (R' P P' : disk -> Prop) (m : io Device A) (Q Q' : result string A -> disk -> Prop) :
  runs R' P m Q -> (forall m, R' m -> R m) -> (forall m, P' m -> P m) -> (forall r m, Q r m -> Q' r m) -> runs R P' m Q'.
Proof.
  intros Hm HR HP HQ d r d' H Hd. destruct (Hm _ _ _ H (HP _ Hd)) as [He Hr]. split; [by eapply evolves_weaken|by apply HQ].
Qed.
Lemma runs_temp P dir Q : (forall m x, P m -> m !! temp_name dir x = None -> R (write_to (temp_name dir x) "" m) /\ Q (Ok (temp_name dir x)) (write_to (temp_name dir x) "" m)) ->
  (forall m e, P m -> Q (Err e) m) -> runs R P (create_temp dir) Q.
Proof.
  intros Hok Herr. eapply runs_bind; [apply (runs_idle _ (fun r m => match r with Ok _ => P m | Err e => Q (Err e) m end)); intros [[]|e]; auto|].
  intros [] d r d' (l & [[[e ->] ->]|(x & -> & Hx & ->)])%temp_loop_inv HP; [split; [by apply evolves_same|by apply Herr]|].
  destruct (Hok _ _ HP Hx) as [HR HQ]. split; [|exact HQ]. eapply evolves_trans; [|by apply evolves_change]. by apply evolves_same.
Qed.
End runs.

Section replacing.
Context (path content : string) (Hpath : forall r, temp_name (Dir path) r <> path).

(** No other file but a temporary one is touched, and the file itself is [f]. *)
Definition apart (m0 m : disk) : Prop := forall p, p <> path -> (forall r, p <> temp_name (Dir path) r) -> m !! p = m0 !! p.
Definition at_path (f : option file) (m0 m : disk) : Prop := apart m0 m /\ m !! path = f.

Lemma at_path_tmp f m0 m r v : at_path f m0 m -> at_path f m0 (partial_alter (fun _ => v) (temp_name (Dir path) r) m).
Proof.
  intros [Ho Hp]. split; [|by rewrite lookup_partial_alter_ne by apply Hpath].
  intros p Hne Ht. rewrite lookup_partial_alter_ne by (intros ?; by apply (Ht r)). by apply Ho.
Qed.
Lemma at_path_ins f m0 m r v : at_path f m0 m -> at_path f m0 (<[temp_name (Dir path) r := v]> m).
Proof. intros H. exact (at_path_tmp f m0 m r (Some v) H). Qed.

Lemma runs_fill f m0 x : let tmp := temp_name (Dir path) x in
  runs (at_path f m0) (at_path f m0) (fill_temp tmp content)
    (fun r m => at_path f m0 m /\ (is_ok r = true -> m !! tmp = Some (mkFile content true))).
Proof.
  intros tmp. assert (forall v m, at_path f m0 m -> at_path f m0 (<[tmp := v]> m)) as Hins by (intros v m; apply at_path_ins).
  set (wrote c sy m := at_path f m0 m /\ m !! tmp = Some (mkFile c sy)).
  eapply (runs_bind _ _ _ _ (fun _ => at_path f m0)); [apply runs_idle; by intros [[]|e]|]. intros _.
  eapply (runs_bind _ _ _ _ (fun _ => wrote content false)).
  { unfold fs_write. apply runs_sys; [intros m Hm|intros m n e Hm]; [|by split; [|split; [|done]]; apply Hins].
    split; [by apply Hins|]. split; [by apply Hins|apply lookup_insert_eq]. }
  intros _. eapply (runs_bind _ _ _ _ (fun _ => wrote content true)).
  { unfold fs_sync. apply runs_call; [intros m [Hm Ht]|intros m e [Hm _]; by split]. rewrite Ht. cbn [fl_content].
    split; [by apply Hins|]. split; [by apply Hins|apply lookup_insert_eq]. }
  intros _. apply runs_idle. intros r m [Hm Ht]. by split.
Qed.

(** Every disk on the way has the old file, whole, until the rename, and the new
    one, whole and flushed, from then on. *)
Lemma replace_spec d r d' : replace_file path content d = (r, d') ->
  dv_keyring d' = dv_keyring d /\ apart (dv_files d) (dv_files d') /\
  (exists new, dv_history d' = new ++ dv_history d /\
    Forall (fun m => apart (dv_files d) m /\ (m !! path = dv_files d !! path \/ m !! path = dv_files d' !! path)) new) /\
  dv_files d' !! path = match r with Ok _ => Some (mkFile content true) | Err _ => dv_files d !! path end.
Proof.
  intros H. set (m0 := dv_files d). assert (at_path (m0 !! path) m0 m0) as H0 by done.
  assert (forall d1 d2 f, evolves (at_path f m0) d1 d2 -> f = m0 !! path \/ f = dv_files d' !! path -> exists new, dv_history d2 = new ++ dv_history d1 /\
    Forall (fun m => apart m0 m /\ (m !! path = m0 !! path \/ m !! path = dv_files d' !! path)) new) as Hev.
  { intros d1 d2 f [(n & Hn & F) _] Hf. exists n. split; [done|]. eapply Forall_impl; [exact F|]. intros m [Ha ->]. by split. }
  unfold replace_file in H. apply ibind_inv in H as [(e & H & ->)|(tmp & d1 & H & H1)].
  { destruct (runs_temp (at_path (m0 !! path) m0) (fun m => m = m0) (Dir path) (fun r m => is_ok r = false -> m = m0)
      ltac:(intros m x -> _; split; [by apply at_path_ins|done]) ltac:(by intros m e' ->) _ _ _ H eq_refl) as [He Hm].
    specialize (Hm eq_refl). split_and!; [apply He|by rewrite Hm| |by rewrite Hm]. eapply Hev; [exact He|by left]. }
  destruct (runs_temp (at_path (m0 !! path) m0) (fun m => m = m0) (Dir path)
    (fun r m => match r with Ok tmp => exists x, tmp = temp_name (Dir path) x | Err _ => True end /\ at_path (m0 !! path) m0 m)
    ltac:(intros m x -> _; split; [|split; [by exists x|]]; by apply at_path_ins) ltac:(by intros m e' ->) _ _ _ H eq_refl) as [He [[x ->] Hm]].
  apply ibind_inv in H1 as [(e & H1 & _)|(y & d2 & H1 & H2)]; [by apply itry_inv in H1 as (? & [=] & _)|].
  apply itry_inv in H1 as (z & [= ->] & H1). apply ibind_inv in H2 as [(e & H2 & _)|(u & d3 & H2 & H3)]; [by apply itry_inv in H2 as (? & [=] & _)|].
  apply itry_inv in H2 as (v & [= ->] & H2).
  assert (r = z /\ d' = d3) as [-> ->] by (by destruct z as [[]|]; injection H3 as <- <-). clear H3.
  assert (forall f, at_path f m0 (dv_files d2) -> evolves (at_path f m0) d2 d3 /\ at_path f m0 (dv_files d3)) as Hrm.
  { intros f Hf. revert H2 Hf. apply (runs_call (at_path f m0) (at_path f m0) (delete (temp_name (Dir path) x)) (fun _ => at_path f m0)); [|done].
    intros m Hf. pose proof (at_path_tmp f m0 m x None Hf) as H'. by split. }
  apply ibind_inv in H1 as [(e & H1 & ->)|([] & d4 & H1 & H4)].
  - destruct (runs_fill (m0 !! path) m0 x _ _ _ H1 Hm) as [He1 [Hm1 _]]. destruct (Hrm _ Hm1) as [He2 [Ha2 Hp2]].
    pose proof (evolves_trans _ _ _ _ (evolves_trans _ _ _ _ He He1) He2) as Hall. split_and!; [apply Hall|done| |done]. eapply Hev; [exact Hall|by left].
  - destruct (runs_fill (m0 !! path) m0 x _ _ _ H1 Hm) as [He1 [Hm1 Ht]]. specialize (Ht eq_refl). pose proof (evolves_trans _ _ _ _ He He1) as Hpre.
    apply rename_inv in H4 as (l & [(f & -> & Hf & ->)|[[e ->] ->]]).
    + set (d5 := change _ _) in *. assert (at_path (Some (mkFile content true)) m0 (dv_files d5)) as Hn.
      { subst d5. cbn [change dv_files set_faults]. rewrite Ht in Hf. injection Hf as <-. split; [|apply lookup_insert_eq]. intros p Hne Hnt. rewrite lookup_insert_ne by done.
        apply (proj1 (at_path_tmp _ m0 _ x None Hm1)); done. }
      destruct (Hrm _ Hn) as [He2 [Ha2 Hp2]]. split_and!; [by rewrite (ev_keyring _ _ _ He2); apply (ev_keyring _ _ _ Hpre)|done| |done].
      destruct (Hev _ _ _ He2) as (n2 & Hn2 & F2); [by right|]. destruct (Hev _ _ _ Hpre) as (n1 & Hn1 & F1); [by left|].
      exists (n2 ++ dv_files d5 :: n1). split; [rewrite Hn2; subst d5; cbn [change dv_history set_faults]; by rewrite Hn1, <-app_assoc|].
      apply Forall_app. split; [done|]. constructor; [|done]. split; [apply Hn|]. right. rewrite Hp2. apply Hn.
    + destruct (Hrm _ Hm1) as [He2 [Ha2 Hp2]]. pose proof (evolves_trans _ _ (set_faults l d4) _ (evolves_trans _ _ _ _ Hpre (evolves_same _ d4 (set_faults l d4) eq_refl eq_refl eq_refl)) He2) as Hall.
      split_and!; [apply Hall|done| |done]. eapply Hev; [exact Hall|by left].
Qed.
End replacing.

(** ** The vault on disk *)
Definition storable_op (o : vault_op) : Prop :=
  match o with
  | VAdd url ps => ValidString url = true /\ forallb storable_proof ps = true
  | VTake _ n => 0 <= n
  | VMove _ to => ValidString to = true
  end.

Section vault.
Context `{SealingLaws} (passphrase path : string) (Hpath : forall r, temp_name (Dir path) r <> path).

(** The store is the one [passphrase] opens, and its file is whole. *)
Record live (s : SealedStore * Device) : Prop := {
  lv_path : st_path s.1 = path;
  lv_key : st_key s.1 = IDKey passphrase (st_salt s.1);
  lv_storable : storable (st_hubs s.1);
  lv_file : exists c h, dv_files s.2 !! path = Some (mkFile c true) /\ opens_content passphrase c = Some h
}.
Definition saved (s : SealedStore * Device) : option hubs := opens passphrase path (dv_files s.2).

(** Every disk on the way has the file of before or of after. *)
Definition stepped (d d' : Device) : Prop :=
  dv_keyring d' = dv_keyring d /\ apart path (dv_files d) (dv_files d') /\
  exists new, dv_history d' = new ++ dv_history d /\
    Forall (fun m => apart path (dv_files d) m /\ (m !! path = dv_files d !! path \/ m !! path = dv_files d' !! path)) new.
Lemma stepped_same d d' : dv_files d' = dv_files d -> dv_history d' = dv_history d -> dv_keyring d' = dv_keyring d -> stepped d d'.
Proof. intros Hf Hh Hk. split_and!; [done|by rewrite Hf|by exists []]. Qed.

Lemma sealed_opens salt nonce h : storable h -> String.length nonce = NonceSize ->
  opens_content passphrase (proofFile_Marshal (mkProofFile proofFileVersion salt nonce (Seal (IDKey passphrase salt) nonce (vault_Marshal h)))) = Some h.
Proof.
  intros Hs Hn. unfold opens_content. rewrite law_proofFile. cbn. unfold decrypt. rewrite Hn, Nat.eqb_refl, law_open by done. cbn. by rewrite law_vault.
Qed.

Lemma random_inv n d r d' : random_bytes n d = (r, d') ->
  dv_files d' = dv_files d /\ dv_history d' = dv_history d /\ dv_keyring d' = dv_keyring d /\ forall s, r = Ok s -> String.length s = n.
Proof.
  unfold random_bytes. destruct (dv_random d) as [|s l]; [by intros [= <- <-]|]. destruct (_ =? _)%nat eqn:Hn; intros [= <- <-]; [|done].
  split_and!; [done..|]. intros s' [= <-]. by apply Nat.eqb_eq.
Qed.
Lemma persist_spec st d r d' : persist_store st d = (r, d') -> st_path st = path -> st_key st = IDKey passphrase (st_salt st) -> storable (st_hubs st) ->
  stepped d d' /\ match r with
  | Ok _ => exists c, dv_files d' !! path = Some (mkFile c true) /\ opens_content passphrase c = Some (st_hubs st)
  | Err _ => dv_files d' !! path = dv_files d !! path
  end.
Proof.
  intros H1 Hp Hk Hs. unfold persist_store in H1. apply ibind_inv in H1 as [(e & H1 & ->)|([nonce ct] & d1 & H1 & H2)].
  - apply ibind_inv in H1 as [(e' & H1 & _)|(n & d1 & _ & [=])]. apply random_inv in H1 as (Hf & Hh & Hr & _). split; [by apply stepped_same|by rewrite Hf].
  - apply ibind_inv in H1 as [(e' & _ & [=])|(n & d2 & H1 & [= <- <- <-])]. apply random_inv in H1 as (Hf & Hh & Hr & Hn). specialize (Hn _ eq_refl).
    rewrite Hp in H2. cbn [fst snd] in H2. apply replace_spec in H2 as (K & A & N & F); [|done]. rewrite Hf, Hh, Hr in *. split; [by split_and!|].
    destruct r as [[]|e]; [|done]. eexists. split; [exact F|]. rewrite Hk. by apply sealed_opens.
Qed.

Lemma write_back_spec st d r s' h0 : write_back (st, d) = (r, s') -> live (h0, d) -> st_path st = path -> st_key st = IDKey passphrase (st_salt st) -> storable (st_hubs st) ->
  exists d', s' = (st, d') /\ live s' /\ stepped d d' /\ saved s' = match r with Ok _ => Some (st_hubs st) | Err _ => saved (h0, d) end.
Proof.
  unfold write_back. destruct (persist_store st d) as [r1 d'] eqn:Hw. intros [= <- <-] [_ _ _ (c & h & Hf & Ho)] Hp Hk Hs. cbn [snd] in *.
  destruct (persist_spec _ _ _ _ Hw Hp Hk Hs) as [Hst Hr]. exists d'. split_and!; [done| |done|].
  - split; cbn; [done..|]. destruct r1 as [[]|e]; [destruct Hr as (c' & ? & ?); by exists c', (st_hubs st)|rewrite Hr; by exists c, h].
  - unfold saved, opens. cbn [snd]. destruct r1 as [[]|e]; [destruct Hr as (c' & -> & ?); done|by rewrite Hr].
Qed.

Lemma storable_held (h : hubs) url : storable h -> forallb storable_proof (default [] (h !! url)) = true.
Proof. intros Hs. destruct (h !! url) as [ps|] eqn:Hu; [|done]. by destruct (Hs _ _ Hu). Qed.
Lemma storable_put (h : hubs) url ps : storable h -> ValidString url = true -> forallb storable_proof ps = true -> storable (<[url := ps]> h).
Proof. intros Hs Hu Hps. by apply map_Forall_insert_2. Qed.
Lemma forallb_sub {A} (f : A -> bool) l k : (forall x, x ∈ k -> x ∈ l) -> forallb f l = true -> forallb f k = true.
Proof. intros Hsub Hl. apply forallb_forall. intros x Hx. apply (proj1 (forallb_forall f l) Hl). apply list_elem_of_In, Hsub. by apply list_elem_of_In. Qed.
Lemma bfilter_sub {A} (f : A -> bool) l x : x ∈ bfilter f l -> x ∈ l.
Proof. unfold bfilter. rewrite !list_elem_of_In. intros [Hx _]%filter_In. done. Qed.
Lemma add_loop_sub existing ps p0 : p0 ∈ add_loop existing ps -> p0 ∈ ps.
Proof.
  revert existing. induction ps as [|q ps IH]; intros existing; cbn [add_loop]; [done|]. case_bool_decide; rewrite ?elem_of_cons.
  - intros Hp. right. by eapply IH.
  - intros [->|Hp]; [by left|right; by eapply IH].
Qed.
Lemma chosen_sub b sel ps p0 : p0 ∈ chosen b sel ps -> p0 ∈ ps.
Proof.
  unfold chosen. intros (e & -> & He)%list_elem_of_fmap. apply bfilter_sub in He. apply indexed_in in He. by eapply list_elem_of_lookup_2.
Qed.

(** MoveHub on the vault of ProofVault: the bearer tokens of one hub join those of
    another, without those that are there already. *)
Definition Move (ok : bool) (from to : string) (v : EncryptedProofStore) : result wallet_error unit * EncryptedProofStore :=
  match held from v with
  | [] => (Ok tt, v)
  | moving =>
      if String.eqb from to then (Ok tt, v)
      else
        let joined := match not_held (held to v) moving with [] => v | added => with_hub to (held to v ++ added) v end in
        persist ok (mkVault (delete from (v_hubs joined)) (v_disk v))
  end.
Definition vault_of (s : SealedStore * Device) : EncryptedProofStore := mkVault (st_hubs s.1) (default ∅ (saved s)).
Definition same {A} (r : result string A) (r' : result wallet_error A) : Prop :=
  match r, r' with Ok a, Ok b => a = b | Err _, Err _ => True | _, _ => False end.

Lemma add_spec url ps s r s' : store_Add url ps s = (r, s') -> live s -> ValidString url = true -> forallb storable_proof ps = true ->
  live s' /\ stepped s.2 s'.2 /\ exists ok r', Add ok url ps (vault_of s) = (r', vault_of s') /\ same r r'.
Proof.
  destruct s as [st d]. intros H1 Hl Hu Hps. unfold store_Add in H1. unfold Add. destruct (str_empty url).
  { injection H1 as <- <-. split_and!; [done|by apply stepped_same|]. by exists true, (Err (WalletErr "hub URL is required")). }
  destruct ps as [|q ps]; [injection H1 as <- <-; split_and!; [done|by apply stepped_same|by exists true, (Ok tt)]|].
  apply ibind_inv in H1 as [(e & [=] & _)|(u & s1 & [= <- <-] & H1)]. cbn [fst snd] in H1. pose proof Hl as [Hp Hk Hs _]. cbn [fst] in *.
  change (held url (vault_of (st, d))) with (held_at url st). set (added := add_loop (list_to_set (p_Secret <$> held_at url st)) (q :: ps)).
  change (write_back (set_hubs (match added with [] => st_hubs st | x :: l => <[url := held_at url st ++ x :: l]> (st_hubs st) end) st, d) = (r, s')) in H1.
  assert (storable (match added with [] => st_hubs st | x :: l => <[url := held_at url st ++ x :: l]> (st_hubs st) end)) as Hs1.
  { destruct added as [|x l] eqn:Ha; [done|]. apply storable_put; [done..|]. rewrite forallb_app. apply andb_true_iff. split; [by apply storable_held|].
    rewrite <-Ha. eapply forallb_sub; [apply add_loop_sub|done]. }
  clearbody added. destruct (write_back_spec _ _ _ _ st H1 Hl) as (d' & -> & Hl' & Hst & Hsv); [done|done|by destruct added|].
  split_and!; [done|done|]. exists (is_ok r), (match r with Ok _ => Ok tt | Err _ => Err (WalletErr "write proof store") end).
  split; [|by destruct r as [[]|]]. unfold persist, vault_of. rewrite Hsv. cbn [fst snd set_hubs st_hubs]. 
  destruct r as [[]|e]; cbn [is_ok]; by destruct added.
Qed.
Lemma take_spec url n s r s' : store_Take url n s = (r, s') -> live s -> 0 <= n ->
  live s' /\ stepped s.2 s'.2 /\ exists ok r', Take ok url n (vault_of s) = (r', vault_of s') /\ same r r'.
Proof.
  destruct s as [st d]. intros H1 Hl Hn. unfold store_Take in H1. unfold Take. destruct (n =? 0) eqn:Hz.
  { injection H1 as <- <-. split_and!; [done|by apply stepped_same|]. by exists true, (Err (WalletErr "amount must be greater than zero")). }
  apply Z.eqb_neq in Hz. apply ibind_inv in H1 as [(e & [=] & _)|(av & s1 & [= <- <-] & H1)]. cbn [fst snd] in H1.
  change (held url (vault_of (st, d))) with (held_at url st). set (av := held_at url st) in *.
  destruct (usum_by p_Amount av <? n) eqn:Hlt.
  { injection H1 as <- <-. split_and!; [done|by apply stepped_same|]. by exists true, (Err ErrInsufficientBalance). }
  destruct (select av n) as [sel|].
  2:{ injection H1 as <- <-. split_and!; [done|by apply stepped_same|]. by exists true, (Err ErrInsufficientBalance). }
  pose proof Hl as [Hp Hk Hs _]. cbn [fst] in *. assert (ValidString url = true) as Hu.
  { subst av. unfold held_at in Hlt. destruct (st_hubs st !! url) eqn:Hh; [by destruct (Hs _ _ Hh)|]. cbn in Hlt. apply Z.ltb_ge in Hlt. lia. }
  assert (forallb storable_proof av = true) as Hav by by apply storable_held.
  apply ibind_inv in H1 as [(e & [=] & _)|(u & s1 & [= <- <-] & H1)].
  apply ibind_inv in H1 as [(e & H1 & _)|(x & s2 & H1 & H2)]; [by apply itry_inv in H1 as (? & [=] & _)|].
  apply itry_inv in H1 as (y & [= ->] & H1).
  destruct (write_back_spec _ _ _ _ st H1 Hl) as (d' & -> & Hl' & Hst & Hsv); [done|done|cbn; apply storable_put; [done..|eapply forallb_sub; [apply chosen_sub|done]]|].
  unfold persist, vault_of. destruct y as [[]|e].
  - injection H2 as <- <-. split_and!; [done|done|]. exists true, (Ok (chosen true sel av)). split; [|done]. by rewrite Hsv.
  - injection H2 as <- <-. split_and!; [|done|].
    + destruct Hl' as [A B C E]. split; [done|done| |done]. cbn in *. rewrite insert_insert_eq. by apply storable_put.
    + exists false, (Err (WalletErr "write proof store")). split; [|done]. unfold saved in *. cbn [fst snd set_hubs st_hubs] in *. by rewrite Hsv.
Qed.
Lemma move_spec from to s r s' : MoveHub from to s = (r, s') -> live s -> ValidString to = true ->
  live s' /\ stepped s.2 s'.2 /\ exists ok r', Move ok from to (vault_of s) = (r', vault_of s') /\ same r r'.
Proof.
  destruct s as [st d]. intros H1 Hl Hto. unfold MoveHub in H1. apply ibind_inv in H1 as [(e & [=] & _)|(st0 & s1 & [= <- <-] & H1)]. cbn [fst] in H1.
  unfold Move. change (held from (vault_of (st, d))) with (held_at from st). change (held to (vault_of (st, d))) with (held_at to st).
  destruct (held_at from st) as [|q l] eqn:Hf; [injection H1 as <- <-; split_and!; [done|by apply stepped_same|by exists true, (Ok tt)]|].
  destruct (String.eqb from to); [injection H1 as <- <-; split_and!; [done|by apply stepped_same|by exists true, (Ok tt)]|].
  apply ibind_inv in H1 as [(e & [=] & _)|(u & s1 & [= <- <-] & H1)]. pose proof Hl as [Hp Hk Hs _]. cbn [fst snd] in *.
  destruct (write_back_spec _ _ _ _ st H1 Hl) as (d' & -> & Hl' & Hst & Hsv); [done|done| |].
  - cbn. unfold moved. apply map_Forall_delete. rewrite Hf.
    destruct (not_held _ _) as [|x k] eqn:Hn; [done|]. apply storable_put; [done..|]. rewrite forallb_app. apply andb_true_iff. split; [by apply storable_held|].
    rewrite <-Hn. eapply forallb_sub; [intros z Hz; by apply bfilter_sub in Hz|]. rewrite <-Hf. by apply storable_held.
  - split_and!; [done|done|]. exists (is_ok r), (match r with Ok _ => Ok tt | Err _ => Err (WalletErr "write proof store") end).
    split; [|by destruct r as [[]|]]. unfold persist, vault_of. rewrite Hsv. cbn [fst snd set_hubs st_hubs]. unfold moved. rewrite Hf.
    destruct r as [[]|e]; cbn [is_ok]; by destruct (not_held _ _).
Qed.
Lemma vault_op_spec o s r s' : perform_vault o s = (r, s') -> live s -> storable_op o -> live s' /\ stepped s.2 s'.2.
Proof.
  destruct o as [url ps|url n|from to]; cbn [perform_vault storable_op]; intros H1 Hl Ho.
  - destruct Ho. by destruct (add_spec _ _ _ _ _ H1 Hl) as (A & B & _).
  - apply ibind_inv in H1 as [(e & H1 & ->)|(x & s1 & H1 & [= <- <-])]; by destruct (take_spec _ _ _ _ _ H1 Hl) as (A & B & _).
  - by destruct (move_spec _ _ _ _ _ H1 Hl Ho) as (A & B & _).
Qed.

(** *** Opening *)
Lemma fs_read_inv p0 d r d' : fs_read p0 d = (r, d') -> exists l, d' = set_faults l d /\
  (r = Ok (fl_content <$> dv_files d !! p0) \/ exists e, r = Err e).
Proof.
  intros [(e & H1 & ->)|(u & d1 & H1 & [= <- <-])]%ibind_inv.
  - apply sys_inv in H1 as (l & [[[=] _]|(n & e' & _ & ->)]). exists l. split; [done|right; by eexists].
  - apply sys_inv in H1 as (l & [[_ ->]|(n & e' & [=] & _)]). exists l. split; [done|by left].
Qed.
(** An existing file is not changed by opening, whether it opens or not. *)
Definition opened (d : Device) (r : result string SealedStore) (d' : Device) : Prop :=
  match dv_files d !! path with
  | Some f =>
      dv_files d' = dv_files d /\ dv_history d' = dv_history d /\ dv_keyring d' = dv_keyring d /\
      forall st, r = Ok st -> st_path st = path /\ st_key st = IDKey passphrase (st_salt st) /\ opens_content passphrase (fl_content f) = Some (st_hubs st)
  | None => stepped d d' /\ forall st, r = Ok st -> live (st, d') /\ st_hubs st = ∅ /\ saved (st, d') = Some ∅
  end.
Lemma opened_err d e d' : dv_files d' = dv_files d -> dv_history d' = dv_history d -> dv_keyring d' = dv_keyring d -> opened d (Err e) d'.
Proof. intros A B C. unfold opened. destruct (dv_files d !! path); [by split_and!|]. split; [by apply stepped_same|done]. Qed.
Lemma new_spec d0 d r d' : newProofStore path passphrase d = (r, d') -> dv_files d = dv_files d0 -> dv_history d = dv_history d0 -> dv_keyring d = dv_keyring d0 ->
  dv_files d0 !! path = None -> opened d0 r d'.
Proof.
  intros H1 A0 B0 C0 Hf. unfold newProofStore in H1. apply ibind_inv in H1 as [(e & H1 & ->)|(salt & d1 & H1 & H2)]; apply random_inv in H1 as (A & B & C & _).
  { apply opened_err; congruence. }
  cbv zeta in H2. unfold opened. rewrite Hf.
  apply ibind_inv in H2 as [(e & H1 & ->)|(u' & d2 & H1 & [= <- <-])];
    destruct (persist_spec _ _ _ _ H1) as ((K & Ap & new & Hn & F) & Hr); try done; try apply map_Forall_empty;
    rewrite A, B, C, A0, B0, C0 in *; (split; [split_and!; [done|done|by exists new]|]); [done|].
  intros st [= <-]. destruct Hr as (c & Hc & Ho). split_and!; [|done|].
  - split; [done|done|apply map_Forall_empty|]. by exists c, ∅.
  - unfold saved, opens. cbn [snd]. by rewrite Hc.
Qed.
Lemma open_spec d r d' : OpenProofStore path passphrase d = (r, d') -> opened d r d'.
Proof.
  intros H1. unfold OpenProofStore in H1.
  destruct (str_empty path); [injection H1 as <- <-; by apply opened_err|].
  destruct (str_empty passphrase); [injection H1 as <- <-; by apply opened_err|].
  apply ibind_inv in H1 as [(e & H1 & ->)|(u & d1 & H1 & H2)].
  { apply sys_inv in H1 as (l & [[[=] _]|(n & e' & _ & ->)]). by apply opened_err. }
  apply sys_inv in H1 as (l & [[_ ->]|(n & e' & [=] & _)]).
  apply ibind_inv in H2 as [(e & H1 & ->)|(raw & d1 & H1 & H2)]; apply fs_read_inv in H1 as (l' & -> & Hr); [by apply opened_err|].
  destruct Hr as [[= ->]|[e [=]]]. cbn [dv_files set_faults id] in H2. destruct (dv_files d !! path) as [f|] eqn:Hf; cbn [fmap option_fmap option_map] in H2.
  2:{ eapply new_spec; [exact H2|done..]. }
  destruct (proofFile_Unmarshal (fl_content f)) as [pf|] eqn:Hpf; [|injection H2 as <- <-; by apply opened_err].
  destruct (pf_Version pf =? proofFileVersion) eqn:Hv; cbn [negb] in H2; [|injection H2 as <- <-; by apply opened_err].
  destruct (decrypt _ _ _) as [pt|] eqn:Hd; [|injection H2 as <- <-; by apply opened_err].
  destruct (vault_Unmarshal pt) as [data|] eqn:Hu; [|injection H2 as <- <-; by apply opened_err]. injection H2 as <- <-.
  unfold opened. rewrite Hf. split_and!; [done..|]. intros st [= <-]. split_and!; [done..|]. unfold opens_content. rewrite Hpf. cbn [mbind option_bind].
  rewrite Hv. cbn [mbind option_bind]. rewrite Hd. cbn [mbind option_bind]. by rewrite Hu.
Qed.

(** *** Any use, and a power cut at any moment of it *)
Lemma crash_opens m m' c : crash m m' -> m !! path = Some (mkFile c true) -> opens passphrase path m' = opens_content passphrase c.
Proof. intros Hc Hm. unfold opens. by rewrite (crash_synced _ _ _ _ Hc Hm eq_refl). Qed.
Lemma run_live os : forall s, live s -> Forall storable_op os -> live (run_vault os s).
Proof.
  induction os as [|o os IH]; intros s Hl Ho; [done|]. apply Forall_cons in Ho as [Ho Hos]. cbn [run_vault].
  destruct (perform_vault o s) as [r s'] eqn:Hp. apply IH; [|done]. by apply (vault_op_spec o s r s').
Qed.
Lemma run_crash os : forall s, live s -> Forall storable_op os -> exists new, dv_history (run_vault os s).2 = new ++ dv_history s.2 /\
  forall m m', m ∈ new -> crash m m' -> exists n h, (n <= length os)%nat /\ saved (run_vault (take n os) s) = Some h /\ opens passphrase path m' = Some h.
Proof.
  induction os as [|o os IH]; intros s Hl Ho; [exists []; split; [done|by intros m m' []%elem_of_nil]|].
  apply Forall_cons in Ho as [Ho Hos]. cbn [run_vault]. destruct (perform_vault o s) as [r s'] eqn:Hp.
  destruct (vault_op_spec o s r s' Hp Hl Ho) as [Hl' (_ & _ & n1 & Hn1 & F)]. destruct (IH s' Hl' Hos) as (n2 & Hn2 & Hall).
  exists (n2 ++ n1). cbn [snd]. split; [by rewrite Hn2, Hn1, app_assoc|]. intros m m' [Hm|Hm]%elem_of_app Hc.
  - destruct (Hall m m' Hm Hc) as (n & h & Hle & Hs & Hop). exists (S n), h. split_and!; [cbn; lia| |done]. cbn [take run_vault]. by rewrite Hp.
  - destruct (proj1 (Forall_forall _ _) F m Hm) as [_ [He|He]].
    + destruct (lv_file _ Hl) as (c & h & Hf & Hop). exists 0%nat, h. split_and!; [lia| |rewrite (crash_opens m m' c Hc); [done|congruence]].
      unfold saved, opens. cbn [take run_vault]. by rewrite Hf.
    + destruct (lv_file _ Hl') as (c & h & Hf & Hop). exists 1%nat, h. split_and!; [cbn; lia| |rewrite (crash_opens m m' c Hc); [done|congruence]].
      unfold saved, opens. cbn [take run_vault]. rewrite take_0. cbn [run_vault]. rewrite Hp. cbn [snd]. by rewrite Hf.
Qed.

(** The file, if there is one, has been flushed, and what it opens to can be written
    again. *)
Definition whole (d : Device) : Prop :=
  forall f, dv_files d !! path = Some f -> fl_synced f = true /\ forall h, opens_content passphrase (fl_content f) = Some h -> storable h.
Lemma opened_live d st d0 : OpenProofStore path passphrase d = (Ok st, d0) -> whole d -> live (st, d0) /\
  st_hubs st = default ∅ (opens passphrase path (dv_files d)) /\ saved (st, d0) = Some (st_hubs st) /\
  (is_Some (dv_files d !! path) -> dv_files d0 = dv_files d).
Proof.
  intros Hopen Hwhole. apply open_spec in Hopen. unfold opened in Hopen. unfold saved, opens. cbn [snd]. destruct (dv_files d !! path) as [f|] eqn:Hf.
  - destruct Hopen as (A & _ & _ & Hst). destruct (Hst st eq_refl) as (Hp & Hk & Ho). destruct (Hwhole f Hf) as [Hs Hh].
    rewrite A, Hf. cbn [mbind option_bind]. rewrite Ho. split_and!; [|done..]. split; [done|done|by apply Hh|].
    destruct f as [c sy]. cbn in *. subst sy. exists c, (st_hubs st). cbn [snd]. by rewrite A.
  - destruct Hopen as [_ Hst]. destruct (Hst st eq_refl) as (Hl & He & Hs). rewrite He. split_and!; [done|done|exact Hs|by intros [? [=]]].
Qed.

(** C25: the vault is never torn. After opening a vault, or making one, and any
    operations, with any system call failing, a power cut at any moment leaves a
    file that the same passphrase opens, to what the vault held on disk after some
    number of the operations: nothing in between, and never nothing. What was not
    flushed may be lost, of any other file. *)
Theorem vault_never_torn (d : Device) (st : SealedStore) (d0 : Device) (os : list vault_op)
    (Hopen : OpenProofStore path passphrase d = (Ok st, d0)) (Hwhole : whole d) (Hos : Forall storable_op os) :
  exists new, dv_history (run_vault os (st, d0)).2 = new ++ dv_history d0 /\
  forall m m', m ∈ new -> crash m m' ->
  exists n h, (n <= length os)%nat /\ saved (run_vault (take n os) (st, d0)) = Some h /\ opens passphrase path m' = Some h.
Proof. apply run_crash; [|done]. by apply (opened_live d). Qed.

(** C26: the file implements the vault of ProofVault. Opening an existing file gives a
    store that holds, in memory and on disk, what the passphrase opens the file to,
    and changes no file; opening a missing one gives an empty vault, saved; and an
    opening that fails leaves an existing file as it was. On a live store listing
    reads the memory, and Add, Take and MoveHub each do what their model does on
    what memory and disk hold, for some outcome of the write, with the same answer;
    and the store stays live, so that this holds of the next operation. *)
Theorem store_refines :
  (forall d st d', OpenProofStore path passphrase d = (Ok st, d') -> whole d ->
    live (st, d') /\ let h := default ∅ (opens passphrase path (dv_files d)) in vault_of (st, d') = mkVault h h /\
    (is_Some (dv_files d !! path) -> is_Some (opens passphrase path (dv_files d)) /\ dv_files d' = dv_files d)) /\
  (forall d e d', OpenProofStore path passphrase d = (Err e, d') -> is_Some (dv_files d !! path) -> dv_files d' = dv_files d) /\
  forall s url, live s ->
  store_List url s.1 = List_ url (vault_of s) /\
  (forall ps r s', store_Add url ps s = (r, s') -> ValidString url = true -> forallb storable_proof ps = true ->
    live s' /\ exists ok r', Add ok url ps (vault_of s) = (r', vault_of s') /\ same r r') /\
  (forall n r s', store_Take url n s = (r, s') -> 0 <= n ->
    live s' /\ exists ok r', Take ok url n (vault_of s) = (r', vault_of s') /\ same r r') /\
  (forall to r s', MoveHub url to s = (r, s') -> ValidString to = true ->
    live s' /\ exists ok r', Move ok url to (vault_of s) = (r', vault_of s') /\ same r r').
Proof.
  split_and!.
  - intros d st d' Ho Hw. destruct (opened_live _ _ _ Ho Hw) as (Hl & Hh & Hs & Hf). cbv zeta. rewrite <-Hh. split_and!; [done| |].
    + unfold vault_of. by rewrite Hs.
    + intros Hsome. split; [|by apply Hf]. unfold saved in Hs. cbn [snd] in Hs. rewrite (Hf Hsome) in Hs. by rewrite Hs.
  - intros d e d' Ho [f Hf]. apply open_spec in Ho. unfold opened in Ho. rewrite Hf in Ho. by destruct Ho as [-> _].
  - intros s url Hlive. split_and!; [done|..].
    + intros ps r s' H1 Hu Hps. destruct (add_spec _ _ _ _ _ H1 Hlive Hu Hps) as (A & _ & B). by split.
    + intros n r s' H1 Hn. destruct (take_spec _ _ _ _ _ H1 Hlive Hn) as (A & _ & B). by split.
    + intros to r s' H1 Ht. destruct (move_spec _ _ _ _ _ H1 Hlive Ht) as (A & _ & B). by split.
Qed.
End vault.

(** ** Example *)
(** Any data as text, through its number *)
Fixpoint pos_text (p : positive) : string :=
  match p with xH => "" | xO q => String "0" (pos_text q) | xI q => String "1" (pos_text q) end.
Fixpoint text_pos (s : string) : positive :=
  match s with EmptyString => xH | String c r => if Ascii.eqb c "0" then xO (text_pos r) else xI (text_pos r) end.
Lemma text_pos_text p : text_pos (pos_text p) = p.
Proof. induction p as [p IH|p IH|]; cbn; by rewrite ?IH. Qed.
Definition toy_write `{Countable A} (a : A) : string := pos_text (encode a).
Definition toy_read `{Countable A} (s : string) : option A := decode (text_pos s).
Lemma toy_read_write `{Countable A} (a : A) : toy_read (toy_write a) = Some a.
Proof. unfold toy_read, toy_write. by rewrite text_pos_text, countable.decode_encode. Qed.

#[export] Instance Proof__eq_dec : EqDecision Proof_.
Proof. solve_decision. Defined.
#[export] Instance Proof__countable : Countable Proof_ :=
  inj_countable' (fun p => (p_Amount p, p_Id p, p_Secret p, p_C p)) (fun '(a, i, s, c) => mkProof a i s c) ltac:(by intros []).
Definition toy_seal (k n p : string) : string := (k ++ n ++ p)%string.
Definition toy_unseal (k n c : string) : option string :=
  if String.prefix (k ++ n) c then Some (str_drop (String.length (k ++ n)) c) else None.
#[export] Instance toy_sealing : Sealing := {|
  IDKey := fun p s => (p ++ "#" ++ s)%string;
  Seal := toy_seal;
  Open := toy_unseal;
  vault_Marshal := fun h => toy_write h;
  vault_Unmarshal := fun s => Some <$> (toy_read s : option hubs);
  proofFile_Marshal := fun f => toy_write (pf_Version f, pf_Salt f, pf_Nonce f, pf_Ciphertext f);
  proofFile_Unmarshal := fun s => '(v, sa, n, c) ← toy_read s; Some (mkProofFile v sa n c);
  payload_Marshal := fun p => toy_write (bp_DeviceKey p, bp_Hubs p);
  payload_Unmarshal := fun s => '(k, h) ← toy_read s; Some (mkPayload k h);
  backupFile_Marshal := fun f => toy_write (bf_Format f, bf_Version f, bf_Salt f, bf_Nonce f, bf_Ciphertext f);
  backupFile_Unmarshal := fun s => '(o, v, sa, n, c) ← toy_read s; Some (mkBackupFile o v sa n c);
  keyFile_Marshal := fun f => toy_write (kf_PublicKey f, kf_EncryptedKey f, kf_Nonce f, kf_Salt f, kf_Version f);
  keyFile_Unmarshal := fun s => '(p, e, n, sa, v) ← toy_read s; Some (mkKeyFile p e n sa v)
|}.
Lemma prefix_app a b : String.prefix a (a ++ b) = true.
Proof. induction a as [|c a IH]; [by destruct b|]. change (String c a ++ b)%string with (String c (a ++ b)). cbn. by destruct (ascii_dec c c). Qed.
#[export] Instance toy_sealing_laws : SealingLaws.
Proof.
  split; cbn [Open Seal vault_Marshal vault_Unmarshal proofFile_Marshal proofFile_Unmarshal payload_Marshal payload_Unmarshal
    backupFile_Marshal backupFile_Unmarshal keyFile_Marshal keyFile_Unmarshal toy_sealing]; intros; rewrite ?toy_read_write; cbn.
  - unfold toy_unseal, toy_seal. rewrite <-str_app_assoc, prefix_app. by rewrite str_drop_app.
  - done.
  - by destruct f.
  - done.
  - by destruct f.
  - by destruct f.
Qed.

Definition toy_path : string := "/home/u/arfl/tokens.json".
Definition toy_device (l : list (option nat)) : Device :=
  mkDev ∅ [] None ["0123456789abcdef"; "n0n0n0n0n0n0"; "t1"; "n1n1n1n1n1n1"; "t2"; "n2n2n2n2n2n2"; "t3"]%string l.
Definition toy_bill (n : Z) (s : string) : Proof_ := mkProof n "00aa" s "02cc".
Definition toy_use : list vault_op := [VAdd "hub" [toy_bill 8 "a"; toy_bill 4 "b"]; VTake "hub" 4].
Definition toy_store : SealedStore * Device :=
  match OpenProofStore toy_path "pw" (toy_device []) with
  | (Ok st, d) => (st, d)
  | (Err _, d) => (mkStore "" "" "" ∅, d)
  end.
Lemma toy_path_ok r : temp_name (Dir toy_path) r <> toy_path.
Proof. change (temp_name (Dir toy_path) r) with ("/home/u/arfl/.arfl-tokens-" ++ r)%string. discriminate. Qed.
Lemma toy_opened : OpenProofStore toy_path "pw" (toy_device []) = (Ok toy_store.1, toy_store.2).
Proof. vm_compute. reflexivity. Qed.
Lemma toy_live : live "pw" toy_path toy_store.
Proof.
  pose proof (open_spec "pw" toy_path toy_path_ok _ _ _ toy_opened) as H. unfold opened in H.
  change (dv_files (toy_device [])) with (∅ : disk) in H. rewrite lookup_empty in H. destruct H as [_ H].
  destruct (H _ eq_refl) as [H' _]. by rewrite <-surjective_pairing in H'.
Qed.
Lemma toy_use_storable : Forall storable_op toy_use.
Proof. repeat constructor; by vm_compute. Qed.

(** The disk while the second file was being written, half of it lost. *)
Definition toy_middle : disk := default ∅ (dv_history (run_vault toy_use toy_store).2 !! 3%nat).
Definition toy_crashed : disk := <["/home/u/arfl/.arfl-tokens-t3"%string := mkFile "0" true]> toy_middle.
Definition toy_temp : string := "/home/u/arfl/.arfl-tokens-t3".
Lemma toy_cut : crash toy_middle toy_crashed.
Proof.
  intros q. unfold toy_crashed. change "/home/u/arfl/.arfl-tokens-t3"%string with toy_temp. destruct (decide (q = toy_temp)) as [->|Hne].
  - rewrite lookup_insert_eq.
    assert ((match toy_middle !! toy_temp with Some f => negb (fl_synced f) && String.prefix "0" (fl_content f) | None => false end) = true) as H by (vm_compute; reflexivity).
    destruct (toy_middle !! toy_temp) as [[c []]|]; [done| |done]. exact H.
  - rewrite lookup_insert_ne by done. destruct (toy_middle !! q) as [[c []]|]; cbn; [done| |done].
    unfold survives. cbn. clear. induction c as [|a c IH]; [done|]. cbn. by destruct (ascii_dec a a).
Qed.
Lemma vault_never_torn_witness : exists n h, (n <= 2)%nat /\ saved "pw" toy_path (run_vault (take n toy_use) toy_store) = Some h /\ opens "pw" toy_path toy_crashed = Some h.
Proof.
  destruct (vault_never_torn "pw" toy_path toy_path_ok (toy_device []) toy_store.1 toy_store.2 toy_use toy_opened) as (new & Hn & Hall);
    [intros f Hf; change (dv_files (toy_device [])) with (∅ : disk) in Hf; by rewrite lookup_empty in Hf|exact toy_use_storable|].
  rewrite <-surjective_pairing in Hn, Hall. apply (Hall toy_middle toy_crashed); [|exact toy_cut].
  assert (length (dv_history (run_vault toy_use toy_store).2) = 15%nat) as Hl by (vm_compute; reflexivity).
  assert (length (dv_history toy_store.2) = 5%nat) as Hl0 by (vm_compute; reflexivity).
  destruct (lookup_lt_is_Some_2 (dv_history (run_vault toy_use toy_store).2) 3) as [m Hm]; [lia|].
  replace m with toy_middle in Hm by (unfold toy_middle; by rewrite Hm).
  rewrite Hn, length_app, Hl0 in Hl. rewrite Hn, lookup_app_l in Hm by lia. by eapply list_elem_of_lookup_2.
Defined.
(** Renamed hub: its tokens are moved to the new address. *)
Definition toy_filled : SealedStore * Device := run_vault [VAdd "hub" [toy_bill 8 "a"; toy_bill 4 "b"]] toy_store.
Lemma store_refines_witness :
  (exists s' ok r', store_Take "hub" 4 toy_filled = (Ok [toy_bill 4 "b"], s') /\
    Take ok "hub" 4 (vault_of "pw" toy_path toy_filled) = (r', vault_of "pw" toy_path s') /\ same (Ok [toy_bill 4 "b"]) r') /\
  (exists s' ok r', MoveHub "hub" "new" toy_filled = (Ok tt, s') /\ held_at "new" s'.1 = [toy_bill 8 "a"; toy_bill 4 "b"] /\
    Move ok "hub" "new" (vault_of "pw" toy_path toy_filled) = (r', vault_of "pw" toy_path s') /\ same (Ok tt) r') /\
  exists st d', OpenProofStore toy_path "pw" toy_filled.2 = (Ok st, d') /\ held_at "hub" st = [toy_bill 8 "a"; toy_bill 4 "b"] /\
    vault_of "pw" toy_path (st, d') = mkVault (st_hubs st) (st_hubs st).
Proof.
  assert (live "pw" toy_path toy_filled) as Hl.
  { apply (run_live "pw" toy_path toy_path_ok); [exact toy_live|]. repeat constructor; by vm_compute. }
  destruct (store_refines "pw" toy_path toy_path_ok) as (Hopen & _ & Hops). destruct (Hops _ "hub" Hl) as (_ & _ & Htake & Hmove). split_and!.
  - destruct (store_Take "hub" 4 toy_filled) as [r s'] eqn:Ht.
    assert (r = Ok [toy_bill 4 "b"]) as -> by (apply (f_equal fst) in Ht; vm_compute in Ht; by symmetry).
    destruct (Htake 4 _ _ Ht) as (_ & ok & r' & A & B); [lia|]. exists s', ok, r'. split_and!; [done|exact A|exact B].
  - destruct (MoveHub "hub" "new" toy_filled) as [r s'] eqn:Ht.
    assert (r = Ok tt) as -> by (apply (f_equal fst) in Ht; vm_compute in Ht; by symmetry).
    assert (held_at "new" s'.1 = [toy_bill 8 "a"; toy_bill 4 "b"]) as Hh by (apply (f_equal (fun x => held_at "new" x.2.1)) in Ht; vm_compute in Ht; by symmetry).
    destruct (Hmove "new" _ _ Ht eq_refl) as (_ & ok & r' & A & B). exists s', ok, r'. split_and!; [done|exact Hh|exact A|exact B].
  - destruct (OpenProofStore toy_path "pw" toy_filled.2) as [r d'] eqn:Ht.
    assert (exists st, r = Ok st /\ held_at "hub" st = [toy_bill 8 "a"; toy_bill 4 "b"]) as (st & -> & Hh).
    { apply (f_equal fst) in Ht. vm_compute in Ht. rewrite <-Ht. eexists. split; [reflexivity|vm_compute; reflexivity]. }
    destruct (Hopen _ _ _ Ht) as (Hl' & Hv & _).
    { intros f Hf. destruct (lv_file _ _ _ Hl) as (c & h & Hc & Ho). rewrite Hc in Hf. injection Hf as <-. split; [done|]. cbn [fl_content].
      intros h' Hh'. assert (forallb (fun x => ValidString x.1 && forallb storable_proof x.2) (map_to_list (default ∅ (opens "pw" toy_path (dv_files toy_filled.2)))) = true) as Hst by (vm_compute; reflexivity).
      unfold opens in Hst. rewrite Hc in Hst. cbn [mbind option_bind fl_content] in Hst. rewrite Hh' in Hst. cbn [default] in Hst.
      intros u ps Hu%elem_of_map_to_list%list_elem_of_In. rewrite forallb_forall in Hst. apply Hst in Hu. by apply andb_true_iff in Hu. }
    exists st, d'. split_and!; [done|exact Hh|]. rewrite Hv.
    assert (st_hubs st = default ∅ (opens "pw" toy_path (dv_files toy_filled.2))) as E.
    { apply (f_equal v_hubs) in Hv. exact Hv. }
    by rewrite E.
Defined.
