(* ===== verification/Backup.v ===== *)
(** * Backup: backups, key files, and what is still unspent in one
    (src/internal/wallet/backup.go; src/internal/wg/keystore.go)

    A backup and an encrypted key file over the device of VaultFile, and the check
    of restored proofs against the hub of CashuApi. *)
From S2P Require Import Prelude Sql Payments Ecash EcashStore Mint ProofVault Nip44 CashuApi HostNet VaultFile.

(** ** Backups *)
Inductive backup_error := NotABackup | UnsupportedBackup (version : Z) | ErrBadBackupPassphrase | ParseBackup.
Section backup.
Context `{Sealing}.
Definition backupFormat : string := "arfl-backup".
Definition SealBackup (deviceKey : string) (held : hubs) (passphrase : string) : io Device string :=
  if RuneCount passphrase <? MinBackupPassphrase then ifail "backup passphrase must be at least 12 characters"
  else if str_empty deviceKey then ifail "device key is required"
  else
    salt <~ random_bytes saltLen ;;
    sealed <~ encrypt (IDKey passphrase salt) (payload_Marshal (mkPayload deviceKey (Some held))) ;;
    iret (backupFile_Marshal (mkBackupFile backupFormat backupVersion salt sealed.1 sealed.2)).
Definition OpenBackup (raw passphrase : string) : result backup_error (string * hubs) :=
  match backupFile_Unmarshal raw with
  | None => Err NotABackup
  | Some file =>
      if negb (String.eqb (bf_Format file) backupFormat) then Err NotABackup
      else if negb (bf_Version file =? backupVersion) then Err (UnsupportedBackup (bf_Version file))
      else match decrypt (IDKey passphrase (bf_Salt file)) (bf_Nonce file) (bf_Ciphertext file) with
      | None => Err ErrBadBackupPassphrase
      | Some plaintext =>
          match payload_Unmarshal plaintext with
          | None => Err ParseBackup
          | Some payload => Ok (bp_DeviceKey payload, default ∅ (bp_Hubs payload))
          end
      end
  end.

(** ** Encrypted WireGuard key files *)
Definition SaveKeyPairEncrypted (path privateKey publicKey passphrase : string) : io Device unit :=
  salt <~ random_bytes saltLen ;;
  nonce <~ random_bytes NonceSize ;;
  fs_WriteFile path (keyFile_Marshal (mkKeyFile publicKey (Seal (IDKey passphrase salt) nonce privateKey) nonce salt 1)).
(** [None]: Open panics, on a nonce of another length. *)
Definition LoadKeyPairEncrypted (path passphrase : string) : io Device (option (string * string)) :=
  data <~ fs_read path ;;
  match data with
  | None => ifail "read key file"
  | Some data =>
      match keyFile_Unmarshal data with
      | None => ifail "parse key file"
      | Some ekf =>
          if negb (kf_Version ekf =? 1) then ifail "unsupported key file version"
          else if negb (String.length (kf_Nonce ekf) =? NonceSize)%nat then iret None
          else match Open (IDKey passphrase (kf_Salt ekf)) (kf_Nonce ekf) (kf_EncryptedKey ekf) with
          | None => ifail "decryption failed: wrong passphrase or corrupted key file"
          | Some plaintext => iret (Some (plaintext, kf_PublicKey ekf))
          end
      end
  end.
End backup.

(** ** What the hub still accepts *)
Section unspent.
Context `{Bdhke} {Hub : Type} (checkstate : list string -> Hub -> result string (list (string * string)) * Hub).

Fixpoint batch_ys (ps : list Proof_) : option (list string) :=
  match ps with [] => Some [] | p :: r => y ← HashSecret (p_Secret p); ys ← batch_ys r; Some (y :: ys) end.
Definition state_map (states : list (string * string)) : gmap string string := foldl (fun m st => <[st.1 := st.2]> m) ∅ states.
Fixpoint keep_unspent (states : gmap string string) (batch : list (Proof_ * string)) : result string (list Proof_) :=
  match batch with
  | [] => Ok []
  | (p, y) :: r =>
      let state := default ""%string (states !! y) in
      if String.eqb state "UNSPENT" then rest ← keep_unspent states r; Ok (p :: rest)
      else if String.eqb state "SPENT" then keep_unspent states r
      else if str_empty state then Err "hub did not report the state of a proof"%string
      else Err "hub reports a proof as pending; it cannot be checked yet"%string
  end.
(** One batch of at most 100 after the other. *)
Fixpoint unspent_loop (fuel : nat) (proofs out : list Proof_) (h : Hub) : result string (list Proof_) * Hub :=
  match proofs, fuel with
  | [], _ => (Ok out, h)
  | _, O => (Err "out of fuel"%string, h)
  | _, S k =>
      let batch := take (Z.to_nat maxCheckStateYs) proofs in
      match batch_ys batch with
      | None => (Err "hash proof secret"%string, h)
      | Some ys =>
          match checkstate ys h with
          | (Err e, h') => (Err e, h')
          | (Ok states, h') =>
              match keep_unspent (state_map states) (zip batch ys) with
              | Err e => (Err e, h')
              | Ok live => unspent_loop k (drop (Z.to_nat maxCheckStateYs) proofs) (out ++ live) h'
              end
          end
      end
  end.
Definition UnspentProofs (proofs : list Proof_) (h : Hub) : result string (list Proof_) * Hub :=
  unspent_loop (length proofs) proofs [] h.
End unspent.

(** *** The hub's side: the times of the requests, and its state *)
Section hub.
Context `{Bdhke} {S : Type} `{!MintStore S} (limits : rate_config).
Definition state_text (s : ProofStateEnum) : string :=
  match s with ProofStateUnspent => "UNSPENT" | ProofStateSpent => "SPENT" | ProofStatePending => "PENDING" end.
Definition hub_checkstate (ys : list string) (h : list CashuApi.call * DiscoveryAPI) :
    result string (list (string * string)) * (list CashuApi.call * DiscoveryAPI) :=
  match h.1 with
  | [] => (Err "request failed"%string, h)
  | c :: l =>
      let '(answer, api) := handleCheckState limits (Some ys) POST c h.2 in
      (match answer with
       | Some (Reply code states) => Ok ((fun st => (st.1, state_text st.2)) <$> states)
       | _ => Err "hub error"%string
       end, (l, api))
  end.
End hub.

(** ** Lemmas *)
Section backup_laws.
Context `{SealingLaws}.

Lemma seal_inv key held passphrase d raw d' : SealBackup key held passphrase d = (Ok raw, d') ->
  MinBackupPassphrase <= RuneCount passphrase /\ str_empty key = false /\ exists salt nonce, String.length nonce = NonceSize /\
  raw = backupFile_Marshal (mkBackupFile backupFormat backupVersion salt nonce (Seal (IDKey passphrase salt) nonce (payload_Marshal (mkPayload key (Some held))))).
Proof.
  unfold SealBackup. destruct (RuneCount passphrase <? MinBackupPassphrase) eqn:Hp; [done|]. destruct (str_empty key); [done|].
  apply Z.ltb_ge in Hp. intros [(e & _ & [=])|(salt & d1 & _ & H1)]%ibind_inv. split_and!; [done|done|].
  apply ibind_inv in H1 as [(e & _ & [=])|([n ct] & d2 & H1 & [= <- _])].
  apply ibind_inv in H1 as [(e & _ & [=])|(nonce & d3 & H1 & [= <- <- _])]. apply random_inv in H1 as (_ & _ & _ & Hn).
  exists salt, nonce. split; [by apply Hn|done].
Qed.

(** A backup brings everything back. What SealBackup wrote, on any device,
    OpenBackup reads back under the same passphrase: the device key and every
    proof of every hub. It was written only under a passphrase of at least twelve
    characters; and where the cipher refuses the key of another passphrase, that
    passphrase is reported as wrong. *)
Theorem backup_round_trip (key : string) (held : hubs) (passphrase : string) (d : Device) (raw : string) (d' : Device) (Hstorable : storable held)
    (Hseal : SealBackup key held passphrase d = (Ok raw, d')) :
  OpenBackup raw passphrase = Ok (key, held) /\ MinBackupPassphrase <= RuneCount passphrase /\ key <> ""%string /\
  forall other, (forall salt nonce c, backupFile_Unmarshal raw = Some (mkBackupFile backupFormat backupVersion salt nonce c) -> Open (IDKey other salt) nonce c = None) ->
    OpenBackup raw other = Err ErrBadBackupPassphrase.
Proof.
  apply seal_inv in Hseal as (Hp & Hk & salt & nonce & Hn & ->). split_and!; [|done|by destruct key|].
  - unfold OpenBackup. rewrite law_backupFile by done. cbn. unfold decrypt. by rewrite Hn, Nat.eqb_refl, law_open, law_payload.
  - intros other Ho. unfold OpenBackup. rewrite law_backupFile in * by done. specialize (Ho _ _ _ eq_refl). cbn. unfold decrypt.
    by rewrite Hn, Nat.eqb_refl, Ho.
Qed.

(** The same for key files, which reach the disk only when they can be read back. *)
Lemma key_file_round_trip path priv pub passphrase d u d' l : SaveKeyPairEncrypted path priv pub passphrase d = (Ok u, d') -> ValidString pub = true ->
  dv_faults d' = [] -> LoadKeyPairEncrypted path passphrase (set_random l d') = (Ok (Some (priv, pub)), set_random l d').
Proof.
  intros H1 Hpub Hf. unfold SaveKeyPairEncrypted in H1. apply ibind_inv in H1 as [(e & _ & [=])|(salt & d1 & _ & H1)].
  apply ibind_inv in H1 as [(e & _ & [=])|(nonce & d2 & Hn & H1)]. apply random_inv in Hn as (_ & _ & _ & Hn). specialize (Hn _ eq_refl).
  apply ibind_inv in H1 as [(e & _ & [=])|(u1 & d3 & _ & H1)]. apply sys_inv in H1 as (fl & [[_ ->]|(n & e & [=] & _)]).
  cbn in Hf. subst fl. unfold LoadKeyPairEncrypted, fs_read, call, sys, ibind, iget, set_faults, set_random, change, write_to. cbn.
  rewrite lookup_insert_eq. cbn. rewrite law_keyFile by done. cbn. by rewrite Hn, Nat.eqb_refl, law_open.
Qed.
End backup_laws.

Section unspent_laws.
Context `{Bdhke} {S : Type} `{MintStoreLaws S} (limits : rate_config).

Definition unspent_at (spent : gset string) (ps : list Proof_) : list Proof_ :=
  bfilter (fun p => match HashSecret (p_Secret p) with Some y => negb (bool_decide (y ∈ spent)) | None => false end) ps.

Lemma check_states s ys sts : store_ok s -> CheckProofsState s ys = Ok sts ->
  sts = (fun y => (y, if bool_decide (y ∈ spent_set s) then ProofStateSpent else ProofStateUnspent)) <$> ys.
Proof.
  intros Hok. revert sts. induction ys as [|y ys IH]; intros sts; cbn [CheckProofsState]; [by intros [= <-]|].
  destruct (IsProofSpent y s) as [b|] eqn:Hb; [|done]. apply (law_IsProofSpent y s b Hok) in Hb as ->.
  destruct (CheckProofsState s ys) as [l|]; [|done]. intros [= <-]. by rewrite (IH l eq_refl).
Qed.
Lemma state_map_fn (g : string -> string) ys y : y ∈ ys -> state_map ((fun y => (y, g y)) <$> ys) !! y = Some (g y).
Proof.
  intros Hy. unfold state_map. assert (forall m : gmap string string, (y ∈ ys \/ m !! y = Some (g y)) ->
    foldl (fun m st => <[st.1:=st.2]> m) m ((fun y => (y, g y)) <$> ys) !! y = Some (g y)) as Hall; [|apply Hall; by left].
  clear Hy. induction ys as [|z ys IH]; intros m Hm; [by destruct Hm as [[]%elem_of_nil|]|]. cbn. apply IH.
  destruct (decide (z = y)) as [->|Hne]; [right; apply lookup_insert_eq|]. rewrite lookup_insert_ne by done.
  destruct Hm as [[->|Hin]%elem_of_cons|Hm]; [done|by left|by right].
Qed.
Lemma keep_states (spent : gset string) states ps ys : batch_ys ps = Some ys ->
  (forall y, y ∈ ys -> states !! y = Some (state_text (if bool_decide (y ∈ spent) then ProofStateSpent else ProofStateUnspent))) ->
  keep_unspent states (zip ps ys) = Ok (unspent_at spent ps).
Proof.
  revert ys. induction ps as [|p ps IH]; intros ys; cbn [batch_ys]; [by intros [= <-]|].
  unfold unspent_at. cbn [bfilter List.filter]. destruct (HashSecret (p_Secret p)) as [y|]; [|done]. cbn [mbind option_bind].
  destruct (batch_ys ps) as [ys'|]; [|done]. intros [= <-] Hst. change (zip (p :: ps) (y :: ys')) with ((p, y) :: zip ps ys'). cbn [keep_unspent]. rewrite (Hst y) by left.
  assert (keep_unspent states (zip ps ys') = Ok (unspent_at spent ps)) as Hrest by (apply IH; [done|]; intros z Hz; apply Hst; by right).
  case_bool_decide; cbn [negb default state_text]; rewrite Hrest; done.
Qed.

(** Why the hub would not answer *)
Definition refused (s : S) : Prop := 0 < rl_max limits \/ exists y, is_ok (IsProofSpent y s) = false.
Lemma check_err s ys e : CheckProofsState s ys = Err e -> refused s.
Proof.
  induction ys as [|y ys IH]; cbn [CheckProofsState]; [done|].
  destruct (IsProofSpent y s) as [b|] eqn:Hb; [|intros _; right; exists y; by rewrite Hb]. by destruct (CheckProofsState s ys).
Qed.
Lemma hub_answer ys cs api r h' : hub_checkstate limits ys (cs, api) = (r, h') -> store_ok (da_store api) ->
  da_store h'.2 = da_store api /\
  match r with
  | Ok states => states = (fun y => (y, state_text (if bool_decide (y ∈ spent_set (da_store api)) then ProofStateSpent else ProofStateUnspent))) <$> ys /\
                 length cs = Datatypes.S (length h'.1)
  | Err _ => refused (da_store api) \/ cs = [] \/ ys = [] \/ maxCheckStateYs < Z.of_nat (length ys)
  end.
Proof.
  unfold hub_checkstate. cbn [fst snd]. destruct cs as [|c cs]; [intros [= <- <-]; by auto|]. unfold handleCheckState, for_method.
  rewrite bool_decide_eq_true_2 by done. cbn [negb]. unfold rate_checked.
  destruct (checkRateLimit limits c (da_rate api)) as [[] rl] eqn:Hl.
  2:{ intros [= <- <-]. split; [done|]. left. left. unfold checkRateLimit in Hl. destruct (rl_max limits <=? 0) eqn:Hm; [done|]. by apply Z.leb_gt in Hm. }
  destruct ys as [|y ys]; [intros [= <- <-]; by auto|]. destruct (maxCheckStateYs <? _) eqn:Hm; [intros [= <- <-]; apply Z.ltb_lt in Hm; by auto|]. cbn [da_store].
  destruct (CheckProofsState (da_store api) (y :: ys)) as [sts|e] eqn:Hc; [|intros [= <- <-] _; split; [done|]; left; by eapply check_err].
  intros [= <- <-] Hok. cbn [fst snd da_store]. split; [done|]. rewrite (check_states _ _ _ Hok Hc), <-list_fmap_compose. done.
Qed.

Lemma batch_ys_length ps ys : batch_ys ps = Some ys -> length ys = length ps.
Proof.
  revert ys. induction ps as [|p ps IH]; intros ys; cbn [batch_ys]; [by intros [= <-]|]. destruct (HashSecret _); [|done]. cbn [mbind option_bind].
  destruct (batch_ys ps); [|done]. intros [= <-]. cbn. by rewrite (IH _ eq_refl).
Qed.
Lemma batch_ys_None ps : batch_ys ps = None -> exists p, p ∈ ps /\ HashSecret (p_Secret p) = None.
Proof.
  induction ps as [|p ps IH]; cbn [batch_ys]; [done|]. destruct (HashSecret (p_Secret p)) eqn:Hp; [|intros _; exists p; split; [by left|done]].
  cbn [mbind option_bind]. destruct (batch_ys ps); [done|]. intros _. destruct (IH eq_refl) as (q & Hq & Hh). exists q. split; [by right|done].
Qed.

Definition unanswered (ps : list Proof_) (cs : list CashuApi.call) (s : S) : Prop :=
  refused s \/ (exists p, p ∈ ps /\ HashSecret (p_Secret p) = None) \/ (length cs < length ps)%nat.
Lemma unspent_loop_spec fuel ps : forall out cs api r h', (length ps <= fuel)%nat -> unspent_loop (hub_checkstate limits) fuel ps out (cs, api) = (r, h') -> store_ok (da_store api) ->
  da_store h'.2 = da_store api /\ match r with Ok live => live = out ++ unspent_at (spent_set (da_store api)) ps | Err _ => unanswered ps cs (da_store api) end.
Proof.
  revert ps. induction fuel as [|k IH]; intros ps out cs api r h' Hle.
  { destruct ps; [|cbn in Hle; lia]. intros [= <- <-] _. split; [done|]. unfold unspent_at. by rewrite app_nil_r. }
  destruct ps as [|p ps]; [intros [= <- <-] _; split; [done|]; unfold unspent_at; by rewrite app_nil_r|].
  cbn [unspent_loop]. set (l := p :: ps) in *. set (b := take (Z.to_nat maxCheckStateYs) l). intros Hr Hok.
  assert (length b <> 0%nat /\ (length b <= 100)%nat) as [Hb0 Hb1] by (subst b l; split; [done|rewrite length_take; unfold maxCheckStateYs; lia]).
  destruct (batch_ys b) as [ys|] eqn:Hb.
  2:{ injection Hr as <- <-. split; [done|]. right. left. destruct (batch_ys_None _ Hb) as (q & Hq & Hh). exists q. split; [|done].
      rewrite <-(take_drop (Z.to_nat maxCheckStateYs) l). apply elem_of_app. by left. }
  pose proof (batch_ys_length _ _ Hb) as Hlen.
  destruct (hub_checkstate limits ys (cs, api)) as [[states|e] [cs1 api1]] eqn:Hh; destruct (hub_answer _ _ _ _ _ Hh Hok) as [Hs Hst]; cbn [fst snd] in Hs, Hst.
  2:{ injection Hr as <- <-. split; [done|]. destruct Hst as [?|[->|[->|?]]]; [by left|right; right; cbn; lia|done|]. unfold maxCheckStateYs in *. lia. }
  destruct Hst as [-> Hcs]. rewrite (keep_states (spent_set (da_store api)) _ _ _ Hb) in Hr; [|intros y Hy; by apply (state_map_fn (fun y => state_text _))].
  pose proof (length_drop l (Z.to_nat maxCheckStateYs)) as Hdrop. assert (Z.to_nat maxCheckStateYs = 100%nat) as H100 by reflexivity.
  apply IH in Hr as [Hs' Hlive]; [|subst l; cbn [length] in *; lia|by rewrite Hs]. rewrite Hs in *. split; [done|].
  destruct r as [live|e].
  - rewrite Hlive, <-app_assoc. f_equal. unfold unspent_at, bfilter. subst b. rewrite <-List.filter_app. by rewrite take_drop.
  - destruct Hlive as [?|[(q & Hq & Hn)|Hc]]; [by left| |].
    + right. left. exists q. split; [|done]. rewrite <-(take_drop (Z.to_nat maxCheckStateYs) l). apply elem_of_app. by right.
    + right. right. subst l. cbn [length] in *. lia.
Qed.

(** Only what the hub burned is dropped. Asking the hub about restored proofs
    changes nothing in its store, and when it answers for all of them exactly the
    unspent ones are kept, in their order; it answers unless a request was rate
    limited, a read of its store failed, a secret has no point on the curve or it
    could not be reached. *)
Theorem unspent_exact (ps : list Proof_) (cs : list CashuApi.call) (api : DiscoveryAPI) (r : result string (list Proof_)) (h' : list CashuApi.call * DiscoveryAPI)
    (Hok : store_ok (da_store api)) (Hask : UnspentProofs (hub_checkstate limits) ps (cs, api) = (r, h')) :
  da_store h'.2 = da_store api /\
  match r with
  | Ok live => live = unspent_at (spent_set (da_store api)) ps
  | Err _ => 0 < rl_max limits \/ (exists y, is_ok (IsProofSpent y (da_store api)) = false) \/
             (exists p, p ∈ ps /\ HashSecret (p_Secret p) = None) \/ (length cs < length ps)%nat
  end.
Proof.
  destruct (unspent_loop_spec _ _ _ _ _ _ _ (le_n _) Hask Hok) as [Hs Hr]. split; [done|]. destruct r as [live|e]; [done|].
  destruct Hr as [[?|?]|[?|?]]; auto.
Qed.
End unspent_laws.

(** ** Examples *)
Definition toy_held : hubs := {[ "hub"%string := [toy_bill 8 "a"]; "other"%string := [toy_bill 1 "b"] ]}.
Definition toy_backup : result string string * Device := SealBackup "device-key" toy_held "correct horse battery" (toy_device []).
Lemma toy_held_storable : storable toy_held.
Proof.
  apply storable_put; [|vm_compute; reflexivity..]. apply map_Forall_singleton. split; vm_compute; reflexivity.
Qed.
Lemma backup_round_trip_witness : exists raw, toy_backup.1 = Ok raw /\ OpenBackup raw "correct horse battery" = Ok ("device-key"%string, toy_held).
Proof.
  destruct toy_backup as [r d'] eqn:Hb. cbn [fst].
  destruct r as [raw|e]; [|apply (f_equal (fun x => is_ok x.1)) in Hb; vm_compute in Hb; discriminate].
  exists raw. split; [reflexivity|]. exact (proj1 (backup_round_trip "device-key" toy_held "correct horse battery" (toy_device []) raw d' toy_held_storable Hb)).
Defined.

(** Eight sats were spent after the backup, four were not. *)
Definition toy_burned : EDB := (VerifyAndMarkSpent toy_mint "t1" [toy_proof 8 "gone"] toy_db).2.
Definition toy_restored : list Proof_ := [toy_proof 8 "gone"; toy_proof 4 "kept"].
Definition toy_ask : result string (list Proof_) * (list CashuApi.call * DiscoveryAPI) :=
  UnspentProofs (hub_checkstate no_limit) toy_restored ([mkCallCtx 0 "t2" "10.0.0.1" true], mkApi ∅ toy_burned).
Lemma unspent_exact_witness : toy_ask.1 = Ok [toy_proof 4 "kept"] /\ da_store toy_ask.2.2 = toy_burned.
Proof.
  split; [vm_compute; reflexivity|].
  refine (proj1 (unspent_exact no_limit toy_restored [mkCallCtx 0 "t2" "10.0.0.1" true] (mkApi ∅ toy_burned) _ _ _ (surjective_pairing toy_ask))).
  apply edb_ok_dec. vm_compute. reflexivity.
Defined.

(** A key file with a nonce of another length panics where the vault's decrypt
    refuses it. *)
Example key_nonce_panics :
  let d := mkDev {[ "k"%string := mkFile (keyFile_Marshal (mkKeyFile "pub" "sealed" "short" "salt" 1)) true ]} [] None [] [] in
  (LoadKeyPairEncrypted "k" "pw" d).1 = Ok None /\ decrypt (IDKey "pw" "salt") "short" "sealed" = None.
Proof. vm_compute. by split. Qed.
