(* ===== verification/Identity.v ===== *)
(** * Identity: the device key, and moving a wallet onto one
    (src/cmd/arfl-desktop/identity.go, bridge.go, hubalias.go)

    The desktop's flows over the vault file: making a key, opening, resetting,
    upgrading a passphrase wallet, exporting and restoring a backup. The state is
    the open store, if any, and the device with its keychain. What the other parts
    of the application say (a readable transport policy, acceptable settings, a
    hub's answer) are arguments. *)
From S2P Require Import Prelude Sql Ecash Mint ProofVault Nip44 HostNet VaultFile Backup.

Definition deviceKeyLen : nat := 32.
Definition defaultHubURL : string := "https://hub.arfl.us".
Definition hubAliases : list (string * string) := [("http://209.250.238.223:8080"%string, defaultHubURL)].

(** [en_path]: wallet.DefaultStorePath. *)
Record env := mkEnv { en_path : string; en_policy : bool; en_settings : bool }.
Record RestoredHub := mkRestored { rh_HubURL : string; rh_Sats : Z; rh_Dropped : Z; rh_Failed : bool }.
Record SetupView := mkSetup { su_HasKey : bool; su_LegacyVault : bool }.

Section identity.
Context `{Sealing} (en : env).
Definition Bridge : Type := option SealedStore * Device.
Definition desk (A : Type) : Type := io Bridge A.
Definition on_device {A} (m : io Device A) : desk A := fun '(svc, d) => let '(r, d') := m d in (r, (svc, d')).
Definition with_svc {A} (m : on_store A) : desk A := fun '(svc, d) =>
  match svc with
  | None => (Err "wallet is locked: unlock it before using the hub"%string, (svc, d))
  | Some st => let '(r, (st', d')) := m (st, d) in (r, (Some st', d'))
  end.
Definition get_svc : desk (option SealedStore) := iget fst.

(** *** The keychain *)
Definition keyring_Get : io Device string :=
  call id ~> (k <~ iget dv_keyring ;; match k with Some e => iret e | None => ifail "secret not found in keyring" end).
Definition loadDeviceKey : io Device string :=
  enc <~ keyring_Get ;; match base64_DecodeString enc with Some key => iret key | None => ifail "illegal base64 data" end.
Definition saveDeviceKey (key : string) : io Device unit := call (set_keyring (Some (base64_EncodeToString key))).
Definition vaultSecret (key : string) : string := base64_EncodeToString key.

Definition vaultExists : io Device bool := call id ~> iget (fun d => match dv_files d !! en_path en with Some _ => true | None => false end).

(** *** Opening *)
Fixpoint migrateHubAliases (aliases : list (string * string)) : desk unit :=
  match aliases with
  | [] => iret tt
  | (from, to) :: l => _ <~ itry (with_svc (MoveHub from to)) ;; migrateHubAliases l
  end.
Definition openLocked (secret : string) : desk unit :=
  if negb (en_policy en) then ifail "load client config"
  else if str_empty secret then ifail "passphrase is required to encrypt the proof store"
  else
    st <~ on_device (OpenProofStore (en_path en) secret) ;;
    if negb (en_settings en) then ifail "unsupported settings"
    else iput (fun s : Bridge => (Some st, s.2)) ~> migrateHubAliases hubAliases.
Definition Unlock (passphrase : string) : desk unit :=
  svc <~ get_svc ;;
  match svc with
  | Some _ => iret tt
  | None => if str_empty passphrase then ifail "a passphrase is required to unlock the wallet" else openLocked passphrase
  end.
Definition OpenWallet : desk unit :=
  svc <~ get_svc ;;
  match svc with
  | Some _ => iret tt
  | None => key <~ on_device loadDeviceKey ;; openLocked (vaultSecret key)
  end.
Definition Setup : desk SetupView :=
  key <~ itry (on_device loadDeviceKey) ;;
  match key with
  | Ok _ => iret (mkSetup true false)
  | Err _ => e <~ on_device vaultExists ;; iret (mkSetup false e)
  end.
Definition CreateKey : desk unit :=
  svc <~ get_svc ;;
  match svc with
  | Some _ => ifail "a wallet is already open"
  | None =>
      key <~ itry (on_device loadDeviceKey) ;;
      match key with
      | Ok _ => iret tt
      | Err _ =>
          e <~ on_device vaultExists ;;
          if e : bool then ifail "this device already has a wallet; unlock it to move it onto a device key"
          else
            key <~ on_device (random_bytes deviceKeyLen) ;;
            on_device (saveDeviceKey key) ~> openLocked (vaultSecret key)
      end
  end.
Definition ResetVault : desk unit :=
  svc <~ get_svc ;;
  match svc with Some _ => ifail "lock the wallet before resetting it" | None => on_device (fs_remove (en_path en)) end.

(** *** A wallet from before device keys; [stamp]: the time, in the name of the file
    set aside *)
Fixpoint import_all (held : list (string * list Proof_)) : desk unit :=
  match held with [] => iret tt | (hub, proofs) :: l => with_svc (store_Add hub proofs) ~> import_all l end.
Definition upgrade_aside (stamp : string) : string := (en_path en ++ ".pre-device-key-" ++ stamp)%string.
Definition UpgradeLegacy (passphrase stamp : string) : desk unit :=
  svc <~ get_svc ;;
  match svc with
  | Some _ => iret tt
  | None =>
      old <~ on_device (OpenProofStore (en_path en) passphrase) ;;
      on_device (fs_rename (en_path en) (upgrade_aside stamp)) ~>
      (key <~ on_device (random_bytes deviceKeyLen) ;;
       saved <~ itry (on_device (saveDeviceKey key)) ;;
       match saved with
       | Err e => _ <~ itry (on_device (fs_rename (upgrade_aside stamp) (en_path en))) ;; ifail e
       | Ok _ =>
           openLocked (vaultSecret key) ~>
           import_all (map_to_list (Snapshot old)) ~>
           (_ <~ itry (on_device (fs_remove (upgrade_aside stamp))) ;; iret tt)
       end)
  end.

(** *** Backups; [file]: the path the user picked *)
Definition ExportBackup (file passphrase : string) : desk unit :=
  svc <~ get_svc ;;
  match svc with
  | None => ifail "wallet is locked: unlock it before using the hub"
  | Some st =>
      key <~ on_device loadDeviceKey ;;
      sealed <~ on_device (SealBackup key (Snapshot st) passphrase) ;;
      on_device (fs_WriteFile file sealed)
  end.
(** [ask]: what asking a hub about proofs leaves of them. *)
Fixpoint restore_loop (ask : string -> list Proof_ -> result string (list Proof_)) (held : list (string * list Proof_)) : desk (list RestoredHub) :=
  match held with
  | [] => iret []
  | (hub, proofs) :: l =>
      row <~ (match ask hub proofs with
              | Ok live =>
                  r <~ itry (with_svc (store_Add hub live)) ;;
                  match r with
                  | Ok _ => iret (mkRestored hub (usum_by p_Amount live) (usum_by p_Amount proofs -u usum_by p_Amount live) false)
                  | Err _ => _ <~ itry (with_svc (store_Add hub proofs)) ;;
                             iret (mkRestored hub (usum_by p_Amount proofs) (usum_by p_Amount proofs -u usum_by p_Amount live) true)
                  end
              | Err _ => _ <~ itry (with_svc (store_Add hub proofs)) ;; iret (mkRestored hub (usum_by p_Amount proofs) 0 true)
              end) ;;
      rows <~ restore_loop ask l ;;
      iret (row :: rows)
  end.
Definition replaced_aside (stamp : string) : string := (en_path en ++ ".replaced-" ++ stamp)%string.
Definition RestoreBackup ask (file passphrase stamp : string) : desk (list RestoredHub) :=
  raw <~ on_device (fs_read file) ;;
  match raw with
  | None => ifail "read backup"
  | Some raw =>
      match OpenBackup raw passphrase with
      | Err _ => ifail "open backup"
      | Ok (key, held) =>
          svc <~ get_svc ;;
          match svc with
          | Some _ => ifail "a wallet is already open on this device"
          | None =>
              e <~ itry (on_device vaultExists) ;;
              (match e with
               | Ok true => on_device (fs_rename (en_path en) (replaced_aside stamp))
               | _ => iret tt
               end) ~>
              on_device (saveDeviceKey key) ~>
              openLocked (vaultSecret key) ~>
              restore_loop ask (map_to_list held)
          end
      end
  end.
Definition HeldSats : desk Z :=
  svc <~ get_svc ;;
  match svc with
  | None => ifail "wallet is locked: unlock it before using the hub"
  | Some st => iret (usum_by (fun e => usum_by p_Amount e.2) (map_to_list (Snapshot st)))
  end.
End identity.

(** ** Nothing is lost on the way *)
Lemma Add_covers ok hub ps v r v' : Add ok hub ps v = (r, v') ->
  (forall u q, q ∈ held u v -> q ∈ held u v') /\
  (str_empty hub = false -> forall p, p ∈ ps -> p_Secret p ∈ p_Secret <$> held hub v') /\
  (is_ok r = true -> str_empty hub = false /\ (v_disk v = v_hubs v -> v_disk v' = v_hubs v')).
Proof.
  unfold Add. destruct (str_empty hub); [intros [= <- <-]; by split_and!|]. destruct ps as [|p ps]; [intros [= <- <-]; split_and!; [done| |done]; by intros _ q []%elem_of_nil|].
  set (ex := list_to_set (p_Secret <$> held hub v)). set (v1 := match add_loop ex (p :: ps) with [] => v | _ => _ end). intros Hp.
  assert (v_hubs v' = v_hubs v1 /\ (is_ok r = true -> v_disk v' = v_hubs v')) as [Hv Hd] by (unfold persist in Hp; destruct ok; by injection Hp as <- <-).
  assert (forall u, held u v' = held u v1) as Hh by (intros u; unfold held; by rewrite Hv).
  assert (held hub v1 = held hub v ++ add_loop ex (p :: ps)) as H1.
  { subst v1. destruct (add_loop ex (p :: ps)) as [|q l]; [by rewrite app_nil_r|]. unfold held, with_hub. cbn [v_hubs]. by rewrite lookup_insert_eq. }
  split_and!; [| |by intros Hr; split; [|intros _; by apply Hd]].
  - intros u q Hq. rewrite Hh. destruct (decide (u = hub)) as [->|Hne]; [rewrite H1; apply elem_of_app; by left|].
    subst v1. destruct (add_loop ex (p :: ps)); [done|]. unfold held, with_hub. cbn [v_hubs]. by rewrite lookup_insert_ne.
  - intros _ q Hq. rewrite Hh, H1, fmap_app. apply elem_of_app.
    assert (forall l e, q ∈ l -> p_Secret q ∈ e \/ p_Secret q ∈ p_Secret <$> add_loop e l) as Hloop.
    { induction l as [|x l IH]; intros e Hx; [by apply elem_of_nil in Hx|]. cbn [add_loop]. apply elem_of_cons in Hx. case_bool_decide as Hb.
      - destruct Hx as [->|Hx]; [by left|by apply IH].
      - destruct Hx as [->|Hx]; [right; left|]. destruct (IH ({[p_Secret x]} ∪ e) Hx) as [Hin|Hin]; [|by right; right].
        apply elem_of_union in Hin as [->%elem_of_singleton|Hin]; [right; by left|by left]. }
    destruct (Hloop (p :: ps) ex Hq) as [Hin|Hin]; [left; by apply elem_of_list_to_set in Hin|by right].
Qed.

Lemma append_ne (a b : string) : str_empty b = false -> (a ++ b)%string <> a.
Proof. intros Hb Heq. apply (f_equal String.length) in Heq. rewrite str_length_app in Heq. destruct b; [done|cbn in Heq; lia]. Qed.

(** Adding to an open store: what is in memory only grows, and covers what was added
    even when the file could not be written. *)
Lemma add_open `{SealingLaws} path (Hpath : forall r, temp_name (Dir path) r <> path) secret hub ps st d r1 s1 :
  with_svc (store_Add hub ps) (Some st, d) = (r1, s1) -> live secret path (st, d) -> ValidString hub = true -> forallb storable_proof ps = true ->
  exists st1 d1, s1 = (Some st1, d1) /\ stepped path d d1 /\ live secret path (st1, d1) /\
    (forall u q, q ∈ held_at u st -> q ∈ held_at u st1) /\
    (str_empty hub = false -> forall p, p ∈ ps -> p_Secret p ∈ p_Secret <$> held_at hub st1) /\
    (is_ok r1 = true -> str_empty hub = false /\ (saved secret path (st, d) = Some (st_hubs st) -> saved secret path (st1, d1) = Some (st_hubs st1))).
Proof.
  intros Hw Hl Hu Hps. unfold with_svc in Hw. destruct (store_Add hub ps (st, d)) as [r2 [st1 d1]] eqn:Ha. injection Hw as <- <-.
  destruct (add_spec secret path Hpath hub ps _ _ _ Ha Hl Hu Hps) as (Hl1 & Hst & ok & r' & Hadd & Hs). exists st1, d1.
  destruct (Add_covers _ _ _ _ _ _ Hadd) as (Hmono & Hcov & Hok). split_and!; [done|done|done|exact Hmono|exact Hcov|].
  intros Hr. assert (is_ok r' = true) as Hr' by (destruct r2, r'; done). destruct (Hok Hr') as [He Hd]. split; [done|].
  intros Hsv. destruct (lv_file _ _ _ Hl1) as (c & h & Hc & Ho). cbn [snd] in Hc. assert (saved secret path (st1, d1) = Some h) as Hs1 by (unfold saved, opens; cbn [snd]; by rewrite Hc).
  rewrite Hs1. f_equal. cut (v_disk (vault_of secret path (st1, d1)) = v_hubs (vault_of secret path (st1, d1))); [cbn; by rewrite Hs1|].
  apply Hd. cbn. by rewrite Hsv.
Qed.

Section aside.
Context `{SealingLaws} (path aside : string) (Hpath : forall r, temp_name (Dir path) r <> path)
  (Haside : forall r, aside <> temp_name (Dir path) r) (Hne : aside <> path) (f : file).

(** The file set aside is there all the time. *)
Definition beside (d d' : Device) : Prop := evolves (fun m => m !! aside = Some f) d d' /\ (dv_files d !! aside = Some f -> dv_files d' !! aside = Some f).
Lemma beside_trans d1 d2 d3 : (dv_files d1 !! aside = Some f -> beside d1 d2) -> (dv_files d2 !! aside = Some f -> beside d2 d3) ->
  dv_files d1 !! aside = Some f -> beside d1 d3.
Proof. intros H12 H23 H1. destruct (H12 H1) as [E1 F1]. destruct (H23 (F1 H1)) as [E2 F2]. split; [by eapply evolves_trans|auto]. Qed.
Lemma beside_same d d' : dv_files d' = dv_files d -> dv_history d' = dv_history d -> dv_keyring d' = dv_keyring d -> beside d d'.
Proof. intros A B C. split; [by apply evolves_same|by rewrite A]. Qed.
Lemma stepped_beside d d' : stepped path d d' -> dv_files d !! aside = Some f -> beside d d'.
Proof.
  intros (K & A & n & Hn & F) Hf. split; [|intros _; rewrite A; [done|done|intros r; apply Haside]].
  split; [|done]. exists n. split; [done|]. eapply Forall_impl; [exact F|]. intros m [Hm _]. rewrite Hm; [done|done|intros r; apply Haside].
Qed.

Definition covers (h : hubs) (held : list (string * list Proof_)) : Prop :=
  forall url ps p, (url, ps) ∈ held -> p ∈ ps -> p_Secret p ∈ p_Secret <$> default [] (h !! url).
(** An open store whose file holds what memory holds *)
Definition current (secret : string) (s : SealedStore * Device) : Prop := live secret path s /\ saved secret path s = Some (st_hubs s.1).

Lemma import_spec secret held : forall st d r b' d', import_all held (Some st, d) = (r, (b', d')) -> live secret path (st, d) ->
  Forall (fun e => ValidString e.1 = true /\ forallb storable_proof e.2 = true) held -> dv_files d !! aside = Some f ->
  beside d d' /\ exists st', b' = Some st' /\ live secret path (st', d') /\ (forall u q, q ∈ held_at u st -> q ∈ held_at u st') /\
  (is_ok r = true -> covers (st_hubs st') held /\ (saved secret path (st, d) = Some (st_hubs st) -> saved secret path (st', d') = Some (st_hubs st'))).
Proof.
  induction held as [|[hub ps] l IH]; intros st d r b' d' H1 Hl Hall Hf; cbn [import_all] in H1.
  { injection H1 as <- <- <-. split; [by apply beside_same|]. exists st. split_and!; [done..|]. intros _. split; [|done]. by intros ??? []%elem_of_nil. }
  apply Forall_cons in Hall as [[Hu Hps] Hall]. cbn [fst snd] in *.
  assert (forall r1 s1, with_svc (store_Add hub ps) (Some st, d) = (r1, s1) -> exists st1 d1, s1 = (Some st1, d1) /\ beside d d1 /\ live secret path (st1, d1) /\
    (forall u q, q ∈ held_at u st -> q ∈ held_at u st1) /\
    (is_ok r1 = true -> (forall p, p ∈ ps -> p_Secret p ∈ p_Secret <$> held_at hub st1) /\ (saved secret path (st, d) = Some (st_hubs st) -> saved secret path (st1, d1) = Some (st_hubs st1)))) as Hadd.
  { intros r1 s1 Hw. destruct (add_open path Hpath secret hub ps st d r1 s1 Hw Hl Hu Hps) as (st1 & d1 & -> & Hst & Hl1 & Hm & Hc & Hok).
    exists st1, d1. split_and!; [done|by apply stepped_beside|done|exact Hm|]. intros Hr. destruct (Hok Hr) as [He Hs]. split; [by apply Hc|done]. }
  apply ibind_inv in H1 as [(e & H1 & ->)|(u & s1 & H1 & H2)]; destruct (Hadd _ _ H1) as (st1 & d1 & Hs1 & Hb1 & Hl1 & Hm1 & Hok1).
  - injection Hs1 as -> ->. split; [done|]. exists st1. by split_and!.
  - subst s1. destruct (IH _ _ _ _ _ H2 Hl1 Hall) as (Hb2 & st' & -> & Hl2 & Hm2 & Hok2); [by apply Hb1|].
    split; [by eapply beside_trans; [intros _; exact Hb1|intros _; exact Hb2|]|]. exists st'. split_and!; [done|done|auto|].
    intros Hr. destruct (Hok2 Hr) as [Hc Hs]. destruct (Hok1 eq_refl) as [Hps1 Hsv1]. split; [|auto].
    intros url ps' p [[= -> ->]|Hin]%elem_of_cons Hp; [|by eapply Hc]. specialize (Hps1 p Hp). apply list_elem_of_fmap in Hps1 as (q & -> & Hq).
    apply list_elem_of_fmap. exists q. split; [done|]. by apply Hm2.
Qed.
End aside.

Lemma migrate_empty `{Sealing} aliases st d : st_hubs st = ∅ -> migrateHubAliases aliases (Some st, d) = (Ok tt, (Some st, d)).
Proof.
  intros Hst. induction aliases as [|[from to] l IH]; [done|]. cbn [migrateHubAliases]. unfold ibind at 1, itry, with_svc, MoveHub, ibind at 1, iget. cbn [fst].
  unfold held_at. rewrite Hst, lookup_empty. exact IH.
Qed.

(** Disks recorded on the way *)
Definition grew (R : disk -> Prop) (d d' : Device) : Prop := exists new, dv_history d' = new ++ dv_history d /\ Forall R new.
Lemma grew_same R d d' : dv_history d' = dv_history d -> grew R d d'.
Proof. intros Hh. exists []. by split. Qed.
Lemma grew_trans R d1 d2 d3 : grew R d1 d2 -> grew R d2 d3 -> grew R d1 d3.
Proof. intros (n1 & H1 & F1) (n2 & H2 & F2). exists (n2 ++ n1). rewrite H2, H1, app_assoc. split; [done|by apply Forall_app]. Qed.
Lemma grew_change (R : disk -> Prop) f d : R (f (dv_files d)) -> grew R d (change f d).
Proof. intros HR. exists [f (dv_files d)]. split; [done|by constructor]. Qed.
Lemma grew_evolves (R R' : disk -> Prop) d d' : evolves R d d' -> (forall m, R m -> R' m) -> grew R' d d'.
Proof. intros [(n & Hn & F) _] HR. exists n. split; [done|by eapply Forall_impl]. Qed.
Lemma on_device_inv {A} (m : io Device A) b d r s' : on_device m (b, d) = (r, s') -> exists d', m d = (r, d') /\ s' = (b, d').
Proof. unfold on_device. destruct (m d) as [r1 d1]. intros [= -> <-]. by exists d1. Qed.

Lemma openLocked_new `{SealingLaws} en (Hpath : forall r, temp_name (Dir (en_path en)) r <> en_path en) secret d r b' d' :
  openLocked en secret (None, d) = (r, (b', d')) -> dv_files d !! en_path en = None ->
  stepped (en_path en) d d' /\ (is_ok r = true -> exists st, b' = Some st /\ current (en_path en) secret (st, d') /\ st_hubs st = ∅).
Proof.
  intros H1 Hp. unfold openLocked in H1.
  destruct (negb (en_policy en)); [injection H1 as <- <- <-; split; [by apply stepped_same|done]|].
  destruct (str_empty secret); [injection H1 as <- <- <-; split; [by apply stepped_same|done]|].
  apply ibind_inv in H1 as [(e & H1 & ->)|(st & s1 & H1 & H2)]; apply on_device_inv in H1 as (d1 & H1 & Hs1);
    apply (open_spec secret (en_path en) Hpath) in H1; unfold opened in H1; rewrite Hp in H1; destruct H1 as [Hst Hok].
  - injection Hs1 as -> ->. split; [done|done].
  - subst s1. destruct (Hok st eq_refl) as (Hl & He & Hs). destruct (negb (en_settings en)); [injection H2 as <- <- <-; by split|].
    change (migrateHubAliases hubAliases (Some st, d1) = (r, (b', d'))) in H2. rewrite migrate_empty in H2 by done. injection H2 as <- <- <-.
    split; [done|]. intros _. exists st. split_and!; [done|split; [done|rewrite Hs; cbn; by rewrite He]|done].
Qed.

Section upgrade.
Context `{SealingLaws} (en : env) (passphrase stamp : string).
Abbreviation path := (en_path en).
Abbreviation aside := (upgrade_aside en stamp).
Context (Hpath : forall r, temp_name (Dir path) r <> path) (Haside : forall r, aside <> temp_name (Dir path) r).

Lemma aside_ne : aside <> path.
Proof. apply append_ne. by destruct stamp. Qed.

Lemma openLocked_fresh f secret d r b' d' : openLocked en secret (None, d) = (r, (b', d')) -> dv_files d !! path = None -> dv_files d !! aside = Some f ->
  beside aside f d d' /\ (is_ok r = true -> exists st, b' = Some st /\ current path secret (st, d') /\ st_hubs st = ∅).
Proof.
  intros H1 Hp Hf. destruct (openLocked_new en Hpath _ _ _ _ _ H1 Hp) as [Hst Hok]. split; [|exact Hok].
  exact (stepped_beside path aside Haside aside_ne f _ _ Hst Hf).
Qed.

(** A disk that has the tokens: the old file where it was or aside, or a new vault
    under the key in the keychain. *)
Definition safe_disk (f : file) (held : hubs) (keyring : option string) (m : disk) : Prop :=
  m !! path = Some f \/ m !! aside = Some f \/
  exists secret c h, keyring = Some secret /\ m !! path = Some (mkFile c true) /\ opens_content secret c = Some h /\ covers h (map_to_list held).
Definition moved_in (held : hubs) (b' : option SealedStore) (d' : Device) : Prop :=
  exists st secret c, b' = Some st /\ dv_keyring d' = Some secret /\ dv_files d' !! path = Some (mkFile c true) /\
    opens_content secret c = Some (st_hubs st) /\ covers (st_hubs st) (map_to_list held).
Definition preserved f held (d : Device) (r : result string unit) (b' : option SealedStore) (d' : Device) : Prop :=
  safe_disk f held (dv_keyring d') (dv_files d') /\ grew (safe_disk f held (dv_keyring d')) d d' /\ (is_ok r = true -> moved_in held b' d').

Lemma preserved_aside f held d d1 d' e b' : grew (fun m => m !! path = Some f \/ m !! aside = Some f) d d1 -> dv_history d' = dv_history d1 -> 
  dv_files d' !! path = Some f \/ dv_files d' !! aside = Some f -> preserved f held d (Err e) b' d'.
Proof.
  intros (n & Hn & F) Hh Hf. split_and!; [destruct Hf; [by left|by right; left]| |done]. exists n. split; [congruence|].
  eapply Forall_impl; [exact F|]. intros m [Hm|Hm]; [by left|by right; left].
Qed.
Lemma preserved_trans f held d d1 r b' d' : grew (fun m => m !! path = Some f \/ m !! aside = Some f) d d1 -> preserved f held d1 r b' d' -> preserved f held d r b' d'.
Proof.
  intros (n & Hn & F) (A & G & B). split_and!; [done| |done]. eapply grew_trans; [|exact G]. exists n. split; [done|].
  eapply Forall_impl; [exact F|]. intros m [Hm|Hm]; [by left|by right; left].
Qed.

(** From the key in the keychain and the old file aside *)
Lemma finish_upgrade f held key d r b' d' : dv_files d !! aside = Some f -> dv_files d !! path = None -> dv_keyring d = Some (vaultSecret key) -> storable held ->
  (openLocked en (vaultSecret key) ~> import_all (map_to_list held) ~> (_ <~ itry (on_device (fs_remove aside)) ;; iret tt)) (None, d) = (r, (b', d')) ->
  preserved f held d r b' d'.
Proof.
  intros Ha Hp Hk Hst H1. assert (forall d1 d2, evolves (fun m => m !! aside = Some f) d1 d2 -> grew (fun m => m !! path = Some f \/ m !! aside = Some f) d1 d2) as Hg.
  { intros d1 d2 He. eapply grew_evolves; [exact He|]. intros m Hm. by right. }
  apply ibind_inv in H1 as [(e & H1 & ->)|([] & [b1 d1] & H1 & H2)]; destruct (openLocked_fresh f _ _ _ _ _ H1 Hp Ha) as [[E1 F1] Hok1]; specialize (F1 Ha).
  { eapply preserved_aside; [by apply Hg|done|by right]. }
  destruct (Hok1 eq_refl) as (st & -> & [Hl1 Hs1] & _).
  assert (Forall (fun e : string * list Proof_ => ValidString e.1 = true /\ forallb storable_proof e.2 = true) (map_to_list held)) as Hall.
  { apply Forall_forall. intros [url ps] Hin%elem_of_map_to_list. by apply (Hst url ps). }
  apply ibind_inv in H2 as [(e & H2 & ->)|([] & [b2 d2] & H2 & H3)];
    destruct (import_spec path aside Hpath Haside aside_ne f _ _ _ _ _ _ _ H2 Hl1 Hall F1) as ([E2 F2] & st2 & -> & Hl2 & _ & Hok2); specialize (F2 F1);
    pose proof (evolves_trans _ _ _ _ E1 E2) as E.
  { eapply preserved_aside; [by apply Hg|done|by right]. }
  destruct (Hok2 eq_refl) as [Hc2 Hs2]. specialize (Hs2 Hs1). destruct (lv_file _ _ _ Hl2) as (c & h & Hf & Ho). cbn [snd] in Hf.
  assert (h = st_hubs st2) as -> by (unfold saved, opens in Hs2; cbn [snd] in Hs2; rewrite Hf in Hs2; cbn in Hs2; congruence).
  apply ibind_inv in H3 as [(e & H3 & _)|(x & s3 & H3 & [= <- ->])]; [by apply itry_inv in H3 as (? & [=] & _)|].
  apply itry_inv in H3 as (y & [= ->] & H3). apply on_device_inv in H3 as (d3 & H3 & [= -> ->]).
  eapply preserved_trans; [by apply Hg|].
  assert (dv_keyring d3 = Some (vaultSecret key) /\ dv_files d3 !! path = Some (mkFile c true) /\ forall R : disk -> Prop, R (dv_files d3) -> grew R d2 d3) as (K3 & F3 & G3).
  { assert (dv_keyring d2 = Some (vaultSecret key)) as K2 by (rewrite (ev_keyring _ _ _ E); exact Hk). apply sys_inv in H3 as (l & [[_ ->]|(n & e & _ & ->)]).
    - split_and!; [done|cbn; rewrite lookup_delete_ne by apply aside_ne; done|]. intros R HR. eapply grew_trans; [|by apply grew_change]. by apply grew_same.
    - split_and!; [done|done|]. intros R _. by apply grew_same. }
  assert (safe_disk f held (dv_keyring d3) (dv_files d3)) as HS by (right; right; by exists (vaultSecret key), c, (st_hubs st2)).
  split_and!; [done|by apply G3|]. intros _. by exists st2, (vaultSecret key), c.
Qed.

Lemma upgrade_preserved (c : string) (held : hubs) (d : Device) r b' d' : dv_files d !! path = Some (mkFile c true) -> opens_content passphrase c = Some held -> storable held ->
  UpgradeLegacy en passphrase stamp (None, d) = (r, (b', d')) -> preserved (mkFile c true) held d r b' d'.
Proof.
  set (f := mkFile c true). intros Hfile Ho Hst H1. set (R := fun m : disk => m !! path = Some f \/ m !! aside = Some f).
  unfold UpgradeLegacy in H1. apply ibind_inv in H1 as [(e & [=] & _)|(svc & s1 & [= <- <-] & H1)]. cbn [fst] in H1.
  apply ibind_inv in H1 as [(e & H1 & ->)|(old & s1 & H1 & H2)]; apply on_device_inv in H1 as (d1 & H1 & Hs1);
    apply (open_spec passphrase path Hpath) in H1; unfold opened in H1; rewrite Hfile in H1; destruct H1 as (A1 & B1 & C1 & Hold).
  { injection Hs1 as -> ->. apply (preserved_aside f held d d); [by apply grew_same|done|left; by rewrite A1]. }
  subst s1. destruct (Hold old eq_refl) as (_ & _ & Ho'). assert (st_hubs old = held) as Hheld by (cbn in Ho'; congruence). clear Hold Ho'.
  assert (grew R d d1) as G1 by by apply grew_same.
  apply ibind_inv in H2 as [(e & H1 & ->)|(u & s1 & H1 & H2)]; apply on_device_inv in H1 as (d2 & H1 & Hs1); apply rename_inv in H1 as (l & [(g & Hg & Hfg & ->)|[[e' Hg] ->]]); try done.
  { injection Hs1 as -> ->. apply (preserved_aside f held d d1); [done|done|left; cbn; by rewrite A1]. }
  subst s1. rewrite A1, Hfile in Hfg. injection Hfg as <-. set (d2 := change _ _) in *.
  assert (dv_files d2 !! aside = Some f /\ dv_files d2 !! path = None) as [Ha2 Hp2].
  { subst d2. cbn [change dv_files]. split; [apply lookup_insert_eq|]. rewrite lookup_insert_ne by apply aside_ne. apply lookup_delete_eq. }
  assert (grew R d d2) as G2 by (eapply grew_trans; [exact G1|]; eapply (grew_trans _ _ (set_faults l d1)); [by apply grew_same|]; apply grew_change; by right).
  clearbody d2. clear Hg. apply ibind_inv in H2 as [(e & H1 & ->)|(key & s1 & H1 & H2)]; apply on_device_inv in H1 as (d3 & H1 & Hs1); apply random_inv in H1 as (A3 & B3 & C3 & _).
  { injection Hs1 as -> ->. apply (preserved_aside f held d d2); [done|done|right; by rewrite A3]. }
  subst s1. apply ibind_inv in H2 as [(e & H1 & _)|(sv & s1 & H1 & H2)]; [by apply itry_inv in H1 as (? & [=] & _)|].
  apply itry_inv in H1 as (x & [= ->] & H1). apply on_device_inv in H1 as (d4 & H1 & ->).
  assert (dv_files d4 = dv_files d2 /\ dv_history d4 = dv_history d2 /\ (is_ok x = true -> dv_keyring d4 = Some (vaultSecret key))) as (A4 & B4 & K4).
  { apply sys_inv in H1 as (m & [[-> ->]|(n & e & -> & ->)]); by split_and!. }
  assert (grew R d d4) as G4 by (eapply grew_trans; [exact G2|by apply grew_same]). destruct x as [[]|e].
  - eapply preserved_trans; [exact G4|]. unfold Snapshot in H2. rewrite Hheld in H2. eapply finish_upgrade; [by rewrite A4|by rewrite A4|by apply K4|done|exact H2].
  - apply ibind_inv in H2 as [(e' & H2 & _)|(x & s1 & H2 & [= <- ->])]; [by apply itry_inv in H2 as (? & [=] & _)|].
    apply itry_inv in H2 as (y & [= ->] & H2). apply on_device_inv in H2 as (d5 & H2 & [= -> ->]). apply rename_inv in H2 as (m & [(g & _ & Hg & ->)|[_ ->]]).
    + rewrite A4, Ha2 in Hg. injection Hg as <-. eapply (preserved_aside f held d); [|reflexivity|left; apply lookup_insert_eq].
      eapply grew_trans; [exact G4|]. eapply (grew_trans _ _ (set_faults m d4)); [by apply grew_same|]. apply grew_change. left. apply lookup_insert_eq.
    + apply (preserved_aside f held d d4); [done|done|right; cbn; by rewrite A4].
Qed.

(** C27: moving a wallet onto a device key loses no token. From a whole vault that
    the passphrase opens, whatever fails in UpgradeLegacy, and wherever a power cut
    stops it, the tokens are still there: the file, or the file set aside, opens
    under the passphrase to all of them, or the new vault opens under the key in
    the keychain and has them all. When it succeeds the wallet is open on that new
    vault. *)
Theorem upgrade_keeps_tokens (c : string) (held : hubs) (d : Device) (r : result string unit) (b' : option SealedStore) (d' : Device)
    (Hfile : dv_files d !! path = Some (mkFile c true)) (Hopens : opens_content passphrase c = Some held) (Hstorable : storable held)
    (Hup : UpgradeLegacy en passphrase stamp (None, d) = (r, (b', d'))) :
  let kept (m : disk) := opens passphrase path m = Some held \/ opens passphrase aside m = Some held \/
    exists secret h, dv_keyring d' = Some secret /\ opens secret path m = Some h /\ covers h (map_to_list held) in
  kept (dv_files d') /\
  (exists new, dv_history d' = new ++ dv_history d /\ forall m m', m ∈ new -> crash m m' -> kept m') /\
  (is_ok r = true -> exists st secret, b' = Some st /\ dv_keyring d' = Some secret /\ opens secret path (dv_files d') = Some (st_hubs st) /\
     covers (st_hubs st) (map_to_list held)).
Proof.
  intros kept. destruct (upgrade_preserved _ _ _ _ _ _ Hfile Hopens Hstorable Hup) as (HS & (new & Hn & F) & Hok).
  assert (forall m m', safe_disk (mkFile c true) held (dv_keyring d') m -> crash m m' -> kept m') as Hcrash.
  { intros m m' [Hm|[Hm|(secret & c' & h & Hk & Hm & Ho & Hc)]] Hcr; [left|right; left|right; right; exists secret, h; split_and!; [done| |done]];
      by rewrite (crash_opens _ _ m m' _ Hcr Hm). }
  split_and!.
  - destruct HS as [Hm|[Hm|(secret & c' & h & Hk & Hm & Ho & Hc)]]; [left|right; left|right; right; exists secret, h; split_and!; [done| |done]];
      unfold opens; by rewrite Hm.
  - exists new. split; [done|]. intros m m' Hm. apply Hcrash. by apply (proj1 (Forall_forall _ _) F).
  - intros Hr. destruct (Hok Hr) as (st & secret & c' & ? & ? & Hc & ? & ?). exists st, secret. split_and!; [done|done| |done]. unfold opens. by rewrite Hc.
Qed.
End upgrade.

(** ** Restoring *)
Section restore.
Context `{SealingLaws} (en : env) (ask : string -> list Proof_ -> result string (list Proof_)) (Hpath : forall r, temp_name (Dir (en_path en)) r <> en_path en)
  (Hask : forall hub ps live, ask hub ps = Ok live -> live ⊆ ps).
(** What a hub's answer leaves of the proofs: all when it did not answer *)
Definition worth_keeping (hub : string) (ps : list Proof_) : list Proof_ := match ask hub ps with Ok live => live | Err _ => ps end.
Definition recovered (held : list (string * list Proof_)) (st : SealedStore) : Prop :=
  forall hub ps p, (hub, ps) ∈ held -> str_empty hub = false -> p ∈ worth_keeping hub ps -> p_Secret p ∈ p_Secret <$> held_at hub st.

Lemma grown_secret (st st' : SealedStore) (hub x : string) : (forall u q, q ∈ held_at u st -> q ∈ held_at u st') ->
  x ∈ p_Secret <$> held_at hub st -> x ∈ p_Secret <$> held_at hub st'.
Proof. intros Hm (q & -> & Hq)%list_elem_of_fmap. apply list_elem_of_fmap. exists q. split; [done|by apply Hm]. Qed.
Lemma storable_sub (ps live : list Proof_) : live ⊆ ps -> forallb storable_proof ps = true -> forallb storable_proof live = true.
Proof. intros Hs Hps. apply forallb_forall. intros p Hp%list_elem_of_In. apply (proj1 (forallb_forall _ _) Hps). apply list_elem_of_In. by apply Hs. Qed.

Lemma restore_spec secret held : forall st d r b' d', restore_loop ask held (Some st, d) = (r, (b', d')) -> live secret (en_path en) (st, d) ->
  Forall (fun e => ValidString e.1 = true /\ forallb storable_proof e.2 = true) held ->
  exists rows st', r = Ok rows /\ b' = Some st' /\ rh_HubURL <$> rows = held.*1 /\ live secret (en_path en) (st', d') /\ dv_keyring d' = dv_keyring d /\
    (forall u q, q ∈ held_at u st -> q ∈ held_at u st') /\ recovered held st' /\
    (forallb (fun row => negb (rh_Failed row)) rows = true -> saved secret (en_path en) (st, d) = Some (st_hubs st) -> saved secret (en_path en) (st', d') = Some (st_hubs st')).
Proof.
  induction held as [|[hub ps] l IH]; intros st d r b' d' H1 Hl Hall; cbn [restore_loop] in H1.
  { injection H1 as <- <- <-. exists [], st. split_and!; try done. by intros ??? []%elem_of_nil. }
  apply Forall_cons in Hall as [[Hu Hps] Hall]. cbn [fst snd] in *.
  assert (forall r1 s1, (match ask hub ps with
      | Ok live => r <~ itry (with_svc (store_Add hub live)) ;;
                  match r with
                  | Ok _ => iret (mkRestored hub (usum_by p_Amount live) (usum_by p_Amount ps -u usum_by p_Amount live) false)
                  | Err _ => _ <~ itry (with_svc (store_Add hub ps)) ;;
                             iret (mkRestored hub (usum_by p_Amount ps) (usum_by p_Amount ps -u usum_by p_Amount live) true)
                  end
      | Err _ => _ <~ itry (with_svc (store_Add hub ps)) ;; iret (mkRestored hub (usum_by p_Amount ps) 0 true)
      end) (Some st, d) = (r1, s1) -> exists row st1 d1, r1 = Ok row /\ s1 = (Some st1, d1) /\ rh_HubURL row = hub /\ live secret (en_path en) (st1, d1) /\ dv_keyring d1 = dv_keyring d /\
      (forall u q, q ∈ held_at u st -> q ∈ held_at u st1) /\ (str_empty hub = false -> forall p, p ∈ worth_keeping hub ps -> p_Secret p ∈ p_Secret <$> held_at hub st1) /\
      (rh_Failed row = false -> saved secret (en_path en) (st, d) = Some (st_hubs st) -> saved secret (en_path en) (st1, d1) = Some (st_hubs st1))) as Hrow.
  { intros r1 s1 Hr. unfold worth_keeping. destruct (ask hub ps) as [lv|e] eqn:Ha.
    - apply ibind_inv in Hr as [(e & Hr & _)|(x & s2 & Hr & Hr2)]; [by apply itry_inv in Hr as (? & [=] & _)|]. apply itry_inv in Hr as (y & [= ->] & Hr).
      destruct (add_open _ Hpath _ _ _ _ _ _ _ Hr Hl Hu (storable_sub _ _ (Hask _ _ _ Ha) Hps)) as (st1 & d1 & -> & (K1 & _) & Hl1 & Hm1 & Hc1 & Hok1). destruct y as [[]|e].
      + injection Hr2 as <- <-. do 3 eexists. split_and!; try done. intros _. by apply Hok1.
      + apply ibind_inv in Hr2 as [(e' & Hr3 & _)|(x & s2 & Hr3 & [= <- <-])]; [by apply itry_inv in Hr3 as (? & [=] & _)|]. apply itry_inv in Hr3 as (y & _ & Hr3).
        destruct (add_open _ Hpath _ _ _ _ _ _ _ Hr3 Hl1 Hu Hps) as (st2 & d2 & -> & (K2 & _) & Hl2 & Hm2 & _ & _).
        do 3 eexists. split_and!; try done; [congruence|by auto|]. intros He p Hp. eapply grown_secret; [exact Hm2|by apply Hc1].
    - apply ibind_inv in Hr as [(e' & Hr & _)|(x & s2 & Hr & [= <- <-])]; [by apply itry_inv in Hr as (? & [=] & _)|]. apply itry_inv in Hr as (y & _ & Hr3).
      destruct (add_open _ Hpath _ _ _ _ _ _ _ Hr3 Hl Hu Hps) as (st1 & d1 & -> & (K1 & _) & Hl1 & Hm1 & Hc1 & _). do 3 eexists. by split_and!. }
  apply ibind_inv in H1 as [(e & H1 & ->)|(row & s1 & H1 & H2)]; destruct (Hrow _ _ H1) as (row' & st1 & d1 & Hr1 & Hs1 & Hh1 & Hl1 & K1 & Hm1 & Hc1 & Hs); [done|].
  injection Hr1 as <-. subst s1. apply ibind_inv in H2 as [(e & H2 & ->)|(rows & s2 & H2 & [= <- ->])].
  { destruct (IH _ _ _ _ _ H2 Hl1 Hall) as (rows & st2 & [=] & _). }
  destruct (IH _ _ _ _ _ H2 Hl1 Hall) as (rows' & st2 & [= <-] & -> & Hrows & Hl2 & K2 & Hm2 & Hc2 & Hs2). exists (row :: rows), st2.
  split_and!; [done|done|cbn; by rewrite Hh1, Hrows|done|congruence|auto| |].
  - intros u ps' p [[= -> ->]|Hin]%elem_of_cons He Hp; [|by eapply Hc2]. eapply grown_secret; [exact Hm2|by apply Hc1].
  - cbn. intros [Hf Hfs]%andb_true_iff Hsv. apply Hs2; [done|]. apply Hs; [by destruct (rh_Failed row)|done].
Qed.

(** A restored backup has every token that can still be worth something. When
    RestoreBackup succeeds the wallet is open, its key is the backup's and is in the
    keychain, there is a row for every hub, and of every hub the store has all the
    proofs the hub says are unspent, or all there were when it could not be asked;
    when no row reports an error the file on the device has what memory has. The
    two provisos are a wallet that is there and is not overlooked because looking
    for it failed, and hub answers that invent no proofs. *)
Theorem restore_imports (file passphrase stamp : string) (c : VaultFile.file) (key : string) (held : hubs) (d : Device) rows b' d'
    (Hfile : dv_files d !! file = Some c) (Hopen : OpenBackup (fl_content c) passphrase = Ok (key, held)) (Hstorable : storable held)
    (Hstat : dv_files d !! en_path en = None \/ (vaultExists en (fs_read file d).2).1 = Ok true)
    (Hr : RestoreBackup en ask file passphrase stamp (None, d) = (Ok rows, (b', d'))) :
  exists st, b' = Some st /\ dv_keyring d' = Some (vaultSecret key) /\ rh_HubURL <$> rows = (map_to_list held).*1 /\
    recovered (map_to_list held) st /\
    (forallb (fun row => negb (rh_Failed row)) rows = true -> opens (vaultSecret key) (en_path en) (dv_files d') = Some (st_hubs st)).
Proof.
  unfold RestoreBackup in Hr. apply ibind_inv in Hr as [(e & _ & [=])|(raw & s1 & H1 & Hr)]. apply on_device_inv in H1 as (d1 & H1 & ->).
  rewrite H1 in Hstat. cbn [snd] in Hstat. destruct (fs_read_inv _ _ _ _ H1) as (l & -> & [[= ->]|[e [=]]]). rewrite Hfile in Hr. cbn [fmap option_fmap option_map] in Hr. rewrite Hopen in Hr.
  apply ibind_inv in Hr as [(e & [=] & _)|(svc & s1 & [= <- <-] & Hr)]. cbn [fst] in Hr.
  apply ibind_inv in Hr as [(e & H2 & [=])|(x & s1 & H2 & Hr)]. apply itry_inv in H2 as (y & [= ->] & H2). apply on_device_inv in H2 as (d2 & H2 & ->).
  rewrite H2 in Hstat. cbn [fst] in Hstat.
  assert (dv_files d2 = dv_files d /\ (y = Ok true \/ dv_files d !! en_path en = None)) as [A2 Hy].
  { split; [|destruct Hstat as [?|[= ->]]; auto]. apply ibind_inv in H2 as [(e & H2 & _)|(u & s1 & H2 & [= _ <-])]; apply sys_inv in H2 as (m & [[_ ->]|(n & e' & _ & ->)]); done. }
  apply ibind_inv in Hr as [(e & _ & [=])|([] & s1 & H3 & Hr)].
  assert (exists d3, s1 = (None, d3) /\ dv_files d3 !! en_path en = None) as (d3 & -> & Hp).
  { destruct y as [[]|e].
    - apply on_device_inv in H3 as (d3 & H3 & ->). exists d3. split; [done|]. apply rename_inv in H3 as (m & [(f & _ & Hf & ->)|[[e [=]] _]]). cbn.
      rewrite lookup_insert_ne by (apply append_ne; by destruct stamp). apply lookup_delete_eq.
    - injection H3 as <-. exists d2. split; [done|]. rewrite A2. by destruct Hy as [[=]|?].
    - injection H3 as <-. exists d2. split; [done|]. rewrite A2. by destruct Hy as [[=]|?]. }
  apply ibind_inv in Hr as [(e & _ & [=])|([] & s1 & H4 & Hr)]. apply on_device_inv in H4 as (d4 & H4 & ->).
  assert (dv_files d4 !! en_path en = None /\ dv_keyring d4 = Some (vaultSecret key)) as [Hp4 K4] by (apply sys_inv in H4 as (m & [[_ ->]|(n & e' & [=] & _)]); done).
  apply ibind_inv in Hr as [(e & _ & [=])|([] & [b5 d5] & H5 & Hr)]. destruct (openLocked_new en Hpath _ _ _ _ _ H5 Hp4) as [(K5 & _) Hok].
  destruct (Hok eq_refl) as (st & -> & [Hl Hs] & _). destruct (restore_spec _ _ _ _ _ _ _ Hr Hl) as (rows' & st' & [= <-] & -> & Hrows & _ & K6 & _ & Hc & Hs').
  { apply Forall_forall. intros [url ps] Hin%elem_of_map_to_list. by apply (Hstorable url ps). }
  exists st'. split_and!; [done|congruence|done|done|]. intros Hf. exact (Hs' Hf Hs).
Qed.
End restore.

(** ** Examples *)
Definition toy_env : env := mkEnv toy_path true true.
Definition toy_key : string := "0123456789abcdef0123456789abcdef".
Definition toy_stamp : string := "20260101-000000".
(** A wallet from before device keys, and what the random source gives next *)
Definition toy_legacy (keyring : option string) (faults : list (option nat)) : Device :=
  mkDev (dv_files (run_vault [VAdd "hub" [toy_bill 8 "a"]] toy_store).2) [] keyring
    [toy_key; "fedcba9876543210"; "m0m0m0m0m0m0"; "u1"; "m1m1m1m1m1m1"; "u2"]%string faults.
Definition toy_legacy_held : hubs := {[ "hub"%string := [toy_bill 8 "a"] ]}.
Definition toy_upgrade (faults : list (option nat)) : result string unit * Bridge := UpgradeLegacy toy_env "pw" toy_stamp (None, toy_legacy None faults).
Definition has_bills (m : disk) (secret path : string) : bool := bool_decide (opens secret path m = Some toy_legacy_held).

Lemma toy_aside_ok r : upgrade_aside toy_env toy_stamp <> temp_name (Dir toy_path) r.
Proof.
  change (upgrade_aside toy_env toy_stamp) with ("/home/u/arfl/" ++ "tokens.json.pre-device-key-20260101-000000")%string.
  change (temp_name (Dir toy_path) r) with ("/home/u/arfl/" ++ ".arfl-tokens-" ++ r)%string. discriminate.
Qed.
Lemma toy_legacy_file faults : exists c, dv_files (toy_legacy None faults) !! toy_path = Some (mkFile c true) /\ opens_content "pw" c = Some toy_legacy_held.
Proof.
  change (dv_files (toy_legacy None faults)) with (dv_files (toy_legacy None [])).
  assert ((match dv_files (toy_legacy None []) !! toy_path with Some (mkFile c true) => bool_decide (opens_content "pw" c = Some toy_legacy_held) | _ => false end) = true) as H by (vm_compute; reflexivity).
  destruct (dv_files (toy_legacy None []) !! toy_path) as [[c []]|]; [|done..]. exists c. split; [done|]. exact (bool_decide_eq_true_1 _ H).
Qed.
Lemma toy_legacy_storable : storable toy_legacy_held.
Proof. apply map_Forall_singleton. split; vm_compute; reflexivity. Qed.

(** The flush of the new vault fails: the upgrade is refused and the tokens are in
    the file set aside. *)
Definition toy_failing : list (option nat) := replicate 9 None ++ [Some 0%nat].
Lemma upgrade_keeps_tokens_witness : is_ok (toy_upgrade []).1 = true /\ is_ok (toy_upgrade toy_failing).1 = false /\
  (exists st secret, (toy_upgrade []).2.1 = Some st /\ dv_keyring (toy_upgrade []).2.2 = Some secret /\ opens secret toy_path (dv_files (toy_upgrade []).2.2) = Some (st_hubs st) /\
     covers (st_hubs st) (map_to_list toy_legacy_held)) /\
  has_bills (dv_files (toy_upgrade toy_failing).2.2) "pw" (upgrade_aside toy_env toy_stamp) = true.
Proof.
  split; [vm_compute; reflexivity|]. split; [vm_compute; reflexivity|]. split; [|vm_compute; reflexivity].
  destruct (toy_legacy_file []) as (c & Hc & Ho). destruct (toy_upgrade []) as [r [b' d']] eqn:Hu.
  refine (proj2 (proj2 (upgrade_keeps_tokens toy_env "pw" toy_stamp toy_path_ok toy_aside_ok c toy_legacy_held _ r b' d' Hc Ho toy_legacy_storable Hu)) _).
  apply (f_equal (fun x => is_ok x.1)) in Hu. vm_compute in Hu. by symmetry.
Defined.

(** Restoring onto a device that has a wallet: the wallet is set aside but its key in
    the keychain is overwritten, and nothing on the device opens the file any more. *)
Definition toy_other_key : string := "ffffffffffffffffffffffffffffffff".
Definition toy_restore_device (keyring : option string) (random : list string) (faults : list (option nat)) (c : string) : Device :=
  mkDev (<["backup"%string := mkFile c true]> (dv_files (toy_upgrade []).2.2)) [] keyring random faults.
Definition toy_backup_text : string :=
  match SealBackup toy_other_key toy_legacy_held "correct horse battery" (mkDev ∅ [] None ["fedcba9876543210"; "m0m0m0m0m0m0"]%string []) with (Ok c, _) => c | _ => "" end.
Definition toy_ask_all (hub : string) (ps : list Proof_) : result string (list Proof_) := Ok ps.
Definition toy_restore (faults : list (option nat)) : result string (list RestoredHub) * Bridge :=
  RestoreBackup toy_env toy_ask_all "backup" "correct horse battery" toy_stamp
    (None, toy_restore_device (Some (vaultSecret toy_key)) ["aaaabbbbccccdddd"; "p0p0p0p0p0p0"; "v1"; "p1p1p1p1p1p1"; "v2"]%string faults toy_backup_text).
Lemma restore_imports_witness : exists st, (toy_restore []).2.1 = Some st /\ dv_keyring (toy_restore []).2.2 = Some (vaultSecret toy_other_key) /\
  opens (vaultSecret toy_other_key) toy_path (dv_files (toy_restore []).2.2) = Some (st_hubs st).
Proof.
  assert (match (toy_restore []).1 with Ok rows => forallb (fun row => negb (rh_Failed row)) rows | Err _ => false end = true) as Hf by (vm_compute; reflexivity).
  destruct (toy_restore []) as [r [b' d']] eqn:Hr. cbn [fst] in Hf.
  destruct r as [rows|e]; [|discriminate].
  assert (dv_files (toy_restore_device (Some (vaultSecret toy_key)) ["aaaabbbbccccdddd"; "p0p0p0p0p0p0"; "v1"; "p1p1p1p1p1p1"; "v2"]%string [] toy_backup_text) !! "backup"%string = Some (mkFile toy_backup_text true)) as Hfile by (apply lookup_insert_eq).
  assert (OpenBackup toy_backup_text "correct horse battery" = Ok (toy_other_key, toy_legacy_held)) as Ho by (vm_compute; reflexivity).
  destruct (restore_imports toy_env toy_ask_all toy_path_ok ltac:(intros hub ps live [= <-]; done) "backup" "correct horse battery" toy_stamp _ _ _ _ _ _ _ Hfile Ho toy_legacy_storable
    ltac:(right; vm_compute; reflexivity) Hr) as (st & Hst & Hk & _ & _ & Hs).
  exists st. split_and!; [exact Hst|exact Hk|exact (Hs Hf)].
Defined.

Example restore_strands_vault :
  let before := (toy_upgrade []).2.2 in let after := toy_restore [] in
  is_ok after.1 = true /\ dv_keyring before = Some (vaultSecret toy_key) /\ has_bills (dv_files before) (vaultSecret toy_key) toy_path = true /\
  has_bills (dv_files after.2.2) (vaultSecret toy_key) (replaced_aside toy_env toy_stamp) = true /\
  dv_keyring after.2.2 = Some (vaultSecret toy_other_key) /\ opens (vaultSecret toy_other_key) (replaced_aside toy_env toy_stamp) (dv_files after.2.2) = None.
Proof. vm_compute. by split_and!. Qed.

(** The keychain refuses the restored key: the wallet stays aside, and the next
    launch, with the key it always had, makes an empty one. *)
Definition toy_relaunch (b : Bridge) : result string unit * Bridge := OpenWallet toy_env (None, set_random ["aaaabbbbccccdddd"; "p0p0p0p0p0p0"; "v1"]%string (set_faults [] b.2)).
Example restore_failure_hides_wallet :
  let failed := toy_restore (replicate 3 None ++ [Some 0%nat]) in let next := toy_relaunch failed.2 in
  is_ok failed.1 = false /\ dv_keyring failed.2.2 = Some (vaultSecret toy_key) /\
  has_bills (dv_files failed.2.2) (vaultSecret toy_key) (replaced_aside toy_env toy_stamp) = true /\
  is_ok next.1 = true /\ (st_hubs <$> next.2.1) = Some ∅.
Proof. vm_compute. by split_and!. Qed.

(** So does an upgrade whose new vault cannot be written. *)
Example upgrade_failure_hides_wallet :
  let failed := toy_upgrade toy_failing in let next := toy_relaunch failed.2 in
  is_ok failed.1 = false /\ has_bills (dv_files failed.2.2) "pw" (upgrade_aside toy_env toy_stamp) = true /\
  is_ok next.1 = true /\ (st_hubs <$> next.2.1) = Some ∅.
Proof. vm_compute. by split_and!. Qed.
