(* ===== verification/Helper.v ===== *)
(** * Helper: the tunnel in a privileged process
    (src/internal/helper/protocol.go, server.go, client.go;
    src/internal/tunnel/protection.go)

    The desktop drives the tunnel over a local socket: one JSON request and one JSON
    response on a connection of its own. The server is over any backend; the tunnel
    is one. A connection may fail at any byte in either direction. The JSON texts
    are a class with laws. *)
From S2P Require Import Prelude Peers Selector ServiceNodes ServicePay Nip44 Endpoints HostNet VaultFile Tunnel.

Definition Version : Z := 4.
Definition MethodVersion : string := "version".
Definition MethodPublicKey : string := "public_key".
Definition MethodPreflight : string := "preflight".
Definition MethodValidateEndpoints : string := "validate_endpoints".
Definition MethodUp : string := "up".
Definition MethodUpOuter : string := "up_outer".
Definition MethodUpInner : string := "up_inner".
Definition MethodDown : string := "down".
Definition MethodPrepareHopKeys : string := "prepare_hop_keys".
Definition MethodResetHopKeys : string := "reset_hop_keys".
Definition MethodUsage : string := "usage".
Definition MethodDisableIPv6 : string := "disable_ipv6".
Definition maxMessage : Z := 64 * 1024.

Record request := mkRequest { rq_Method : string; rq_Params : string }.
Record response := mkResponse { rs_Result : string; rs_Error : string }.
(** Times in nanoseconds after the zero time *)
Record Usage := mkUsage { us_RxBytes : Z; us_TxBytes : Z; us_EntryHandshake : Z; us_ExitHandshake : Z }.
Record UsageResult := mkUsageResult { ur_Active : bool; ur_Usage : Usage }.
Definition no_usage : Usage := mkUsage 0 0 0 0.
(** What dispatch returns: nothing, or a value to marshal. *)
Inductive answer := ANone | AVersion (n : Z) | AKey (k : string) | AKeys (entry exit_ : string) | AUsage (u : UsageResult).

(** encoding/json; [compact]: a value as Marshal writes it *)
Class HelperJson := {
  compact : string -> Prop;
  request_Marshal : request -> string;
  request_Decode : string -> option request;
  response_Marshal : response -> string;
  response_Decode : string -> option response;
  endpoints_Marshal : string -> string -> string;
  endpoints_Unmarshal : string -> option (string * string);
  config_Marshal : TunnelConfig -> string;
  config_Unmarshal : string -> option TunnelConfig;
  int_Marshal : Z -> string;
  int_Unmarshal : string -> option Z;
  string_Marshal : string -> string;
  string_Unmarshal : string -> option string;
  keys_Marshal : string -> string -> string;
  keys_Unmarshal : string -> option (string * string);
  usage_Marshal : UsageResult -> option string;      (* not a time beyond the year 9999 *)
  usage_Unmarshal : string -> option UsageResult
}.
Definition valid_hop (h : HopConfig) : bool :=
  ValidString (hc_NodeID h) && ValidString (hc_Endpoint h) && ValidString (hc_NodeWGPubkey h) && ValidString (hc_TunnelIP h) &&
  (- 2 ^ 63 <=? hc_BytesAllowed h) && (hc_BytesAllowed h <? 2 ^ 63).
Definition valid_config (c : TunnelConfig) : bool :=
  valid_hop (tc_Entry c) && valid_hop (tc_Exit c) && ValidString (tc_ClientKey c) && ValidString (tc_EntryClientKey c) &&
  ValidString (tc_ExitClientKey c) && forallb ValidString (tc_OuterPinnedEndpoints c) && ValidString (tc_Transport c).
Definition valid_answer (a : answer) : bool :=
  match a with AKey k => ValidString k | AKeys e x => ValidString e && ValidString x | _ => true end.
(** Encode ends a value with a line break. *)
Definition line (s : string) : string := (s ++ String "010" "")%string.
(** What was written whole is read back, and what was cut off is not read. *)
Class HelperLaws `{HelperJson} := {
  law_request m p n : ValidString m = true -> p = ""%string \/ compact p ->
    request_Decode (str_take n (line (request_Marshal (mkRequest m p)))) =
    if (n <? String.length (request_Marshal (mkRequest m p)))%nat then None else Some (mkRequest m p);
  law_response r e n : r = ""%string \/ compact r -> ValidString e = true ->
    response_Decode (str_take n (line (response_Marshal (mkResponse r e)))) =
    if (n <? String.length (response_Marshal (mkResponse r e)))%nat then None else Some (mkResponse r e);
  law_compact s : compact s -> s <> ""%string;
  law_endpoints a b : ValidString a = true -> ValidString b = true ->
    compact (endpoints_Marshal a b) /\ endpoints_Unmarshal (endpoints_Marshal a b) = Some (a, b);
  law_config c : valid_config c = true -> compact (config_Marshal c) /\ config_Unmarshal (config_Marshal c) = Some c;
  law_int n : compact (int_Marshal n) /\ int_Unmarshal (int_Marshal n) = Some n;
  law_string k : ValidString k = true -> compact (string_Marshal k) /\ string_Unmarshal (string_Marshal k) = Some k;
  law_keys a b : ValidString a = true -> ValidString b = true -> compact (keys_Marshal a b) /\ keys_Unmarshal (keys_Marshal a b) = Some (a, b);
  law_usage u s : usage_Marshal u = Some s -> compact s /\ usage_Unmarshal s = Some u
}.

(** ** The server *)
(** [E]: what the surroundings answer during an operation *)
Class Backend (E B : Type) := {
  b_PublicKey : E -> io B string;
  b_Preflight : E -> io B unit;
  b_ValidateEndpoints : E -> string -> string -> io B unit;
  b_Up : E -> TunnelConfig -> io B unit;
  b_UpOuter : E -> TunnelConfig -> io B unit;
  b_UpInner : E -> TunnelConfig -> io B unit;
  b_Down : E -> io B unit;
  b_PrepareHopKeys : E -> io B (string * string);
  b_ResetHopKeys : E -> B -> B;
  b_Usage : E -> io B (Usage * bool);
  b_DisableIPv6 : E -> io B unit
}.
Definition answer_Marshal `{HelperJson} (a : answer) : option string :=
  match a with
  | ANone => Some ""%string
  | AVersion n => Some (int_Marshal n)
  | AKey k => Some (string_Marshal k)
  | AKeys entry exit_ => Some (keys_Marshal entry exit_)
  | AUsage u => usage_Marshal u
  end.
Section server.
Context `{HelperJson} {E B : Type} `{!Backend E B} (allowedUID : Z).

Definition quiet (m : io B unit) : io B answer := m ~> iret ANone.
Definition dispatch (e : E) (req : request) : io B answer :=
  if String.eqb (rq_Method req) MethodVersion then iret (AVersion Version)
  else if String.eqb (rq_Method req) MethodPublicKey then k <~ b_PublicKey e ;; iret (AKey k)
  else if String.eqb (rq_Method req) MethodPreflight then quiet (b_Preflight e)
  else if String.eqb (rq_Method req) MethodValidateEndpoints then
    match endpoints_Unmarshal (rq_Params req) with
    | None => ifail "bad params"
    | Some (entry, exit_) => quiet (b_ValidateEndpoints e entry exit_)
    end
  else if String.eqb (rq_Method req) MethodUp || String.eqb (rq_Method req) MethodUpOuter || String.eqb (rq_Method req) MethodUpInner then
    match config_Unmarshal (rq_Params req) with
    | None => ifail "bad params"
    | Some cfg =>
        if String.eqb (rq_Method req) MethodUpOuter then quiet (b_UpOuter e cfg)
        else if String.eqb (rq_Method req) MethodUpInner then quiet (b_UpInner e cfg)
        else quiet (b_Up e cfg)
    end
  else if String.eqb (rq_Method req) MethodDown then quiet (b_Down e)
  else if String.eqb (rq_Method req) MethodPrepareHopKeys then ks <~ b_PrepareHopKeys e ;; iret (AKeys ks.1 ks.2)
  else if String.eqb (rq_Method req) MethodResetHopKeys then iput (b_ResetHopKeys e) ~> iret ANone
  else if String.eqb (rq_Method req) MethodUsage then u <~ b_Usage e ;; iret (AUsage (mkUsageResult u.2 u.1))
  else if String.eqb (rq_Method req) MethodDisableIPv6 then quiet (b_DisableIPv6 e)
  else ifail "unknown method".

Definition allowed (uid : option Z) : bool := match uid with Some u => (u =? allowedUID) || (u =? 0) | None => false end.
Definition limited (s : string) : string := str_take (Z.to_nat maxMessage) s.
(** [uid]: what the kernel says of the caller; the answer is what is written back.
    Dispatches exclude each other. *)
Definition respond (r : result string answer) : response :=
  match r with
  | Err e => mkResponse "" e
  | Ok a => match answer_Marshal a with None => mkResponse "" "json: error calling MarshalJSON" | Some raw => mkResponse raw "" end
  end.
Definition handle (e : E) (uid : option Z) (received : string) (b : B) : string * B :=
  let req := request_Decode (limited received) in
  if negb (allowed uid) then (line (response_Marshal (mkResponse "" "not allowed to use the ARFL helper")), b)
  else match req with
  | None => (line (response_Marshal (mkResponse "" "bad request")), b)
  | Some req => let '(r, b') := dispatch e req b in (line (response_Marshal (respond r)), b')
  end.
Record message := mkMessage { mg_env : E; mg_uid : option Z; mg_text : string }.
(** Connections, in the order their requests are carried out *)
Fixpoint Serve (ms : list message) (b : B) : B :=
  match ms with [] => b | m :: r => Serve r (handle (mg_env m) (mg_uid m) (mg_text m) b).2 end.

(** ** The client *)
(** A connection: whether the helper answers the call, and after how many bytes
    writing and reading break, if they do. *)
Record link := mkLink { lk_dials : bool; lk_sent : option nat; lk_received : option nat; lk_uid : option Z }.
Definition whole (uid : Z) : link := mkLink true None None (Some uid).
Definition arrives (n : option nat) (s : string) : string := match n with None => s | Some k => str_take k s end.
Definition helper_call {A} (e : E) (lk : link) (zero : A) (out : option (string -> option A)) (method : string) (params : string) : io B A := fun b =>
  if negb (lk_dials lk) then (Err "the ARFL helper is not running"%string, b)
  else
    let '(written, b') := handle e (lk_uid lk) (arrives (lk_sent lk) (line (request_Marshal (mkRequest method params)))) b in
    match lk_sent lk with
    | Some _ => (Err "send to helper"%string, b')
    | None =>
        match response_Decode (limited (arrives (lk_received lk) written)) with
        | None => (Err "read from helper"%string, b')
        | Some resp =>
            if negb (str_empty (rs_Error resp)) then (Err (rs_Error resp), b')
            else match out with
            | Some unmarshal =>
                if str_empty (rs_Result resp) then (Ok zero, b')
                else match unmarshal (rs_Result resp) with None => (Err "json: cannot unmarshal"%string, b') | Some a => (Ok a, b') end
            | None => (Ok zero, b')
            end
        end
    end.
Section client.
Context (e : E) (lk : link).
Definition client_Ping : io B Z := helper_call e lk 0 (Some int_Unmarshal) MethodVersion "".
Definition client_PublicKey : io B string := helper_call e lk ""%string (Some string_Unmarshal) MethodPublicKey "".
Definition client_Preflight : io B unit := helper_call e lk tt None MethodPreflight "".
Definition client_ValidateEndpoints (entry exit_ : string) : io B unit := helper_call e lk tt None MethodValidateEndpoints (endpoints_Marshal entry exit_).
Definition client_Up (cfg : TunnelConfig) : io B unit := helper_call e lk tt None MethodUp (config_Marshal cfg).
Definition client_UpOuter (cfg : TunnelConfig) : io B unit := helper_call e lk tt None MethodUpOuter (config_Marshal cfg).
Definition client_UpInner (cfg : TunnelConfig) : io B unit := helper_call e lk tt None MethodUpInner (config_Marshal cfg).
Definition client_Down : io B unit := helper_call e lk tt None MethodDown "".
Definition client_PrepareHopKeys : io B (string * string) := helper_call e lk (""%string, ""%string) (Some keys_Unmarshal) MethodPrepareHopKeys "".
Definition client_ResetHopKeys : io B unit := _ <~ itry (helper_call e lk tt None MethodResetHopKeys "") ;; iret tt.
Definition client_Usage : io B UsageResult := helper_call e lk (mkUsageResult false no_usage) (Some usage_Unmarshal) MethodUsage "".
Definition client_DisableIPv6 : io B unit := helper_call e lk tt None MethodDisableIPv6 "".
Definition client_Close : io B unit := iret tt.
End client.

(** The operations of a tunnel, in this process and through the helper *)
Inductive operation :=
| HVersion | HPublicKey | HPreflight | HValidateEndpoints (entry exit_ : string) | HUp (cfg : TunnelConfig) | HUpOuter (cfg : TunnelConfig)
| HUpInner (cfg : TunnelConfig) | HDown | HPrepareHopKeys | HResetHopKeys | HUsage | HDisableIPv6.
Definition direct (e : E) (o : operation) : io B answer :=
  match o with
  | HVersion => iret (AVersion Version)
  | HPublicKey => k <~ b_PublicKey e ;; iret (AKey k)
  | HPreflight => quiet (b_Preflight e)
  | HValidateEndpoints entry exit_ => quiet (b_ValidateEndpoints e entry exit_)
  | HUp cfg => quiet (b_Up e cfg)
  | HUpOuter cfg => quiet (b_UpOuter e cfg)
  | HUpInner cfg => quiet (b_UpInner e cfg)
  | HDown => quiet (b_Down e)
  | HPrepareHopKeys => ks <~ b_PrepareHopKeys e ;; iret (AKeys ks.1 ks.2)
  | HResetHopKeys => iput (b_ResetHopKeys e) ~> iret ANone
  | HUsage => u <~ b_Usage e ;; iret (AUsage (mkUsageResult u.2 u.1))
  | HDisableIPv6 => quiet (b_DisableIPv6 e)
  end.
Definition remote (e : E) (lk : link) (o : operation) : io B answer :=
  match o with
  | HVersion => n <~ client_Ping e lk ;; iret (AVersion n)
  | HPublicKey => k <~ client_PublicKey e lk ;; iret (AKey k)
  | HPreflight => quiet (client_Preflight e lk)
  | HValidateEndpoints entry exit_ => quiet (client_ValidateEndpoints e lk entry exit_)
  | HUp cfg => quiet (client_Up e lk cfg)
  | HUpOuter cfg => quiet (client_UpOuter e lk cfg)
  | HUpInner cfg => quiet (client_UpInner e lk cfg)
  | HDown => quiet (client_Down e lk)
  | HPrepareHopKeys => ks <~ client_PrepareHopKeys e lk ;; iret (AKeys ks.1 ks.2)
  | HResetHopKeys => quiet (client_ResetHopKeys e lk)
  | HUsage => u <~ client_Usage e lk ;; iret (AUsage u)
  | HDisableIPv6 => quiet (client_DisableIPv6 e lk)
  end.
End server.

(** ** The tunnel as a backend *)
Record PeerStats := mkStats { ps_ReceiveBytes : Z; ps_TransmitBytes : Z; ps_LastHandshake : Z }.
(** What the resolver, the key generator, the privileges and the counters of the
    interfaces answer *)
Record surroundings := mkSurroundings {
  te_lookup : string -> option (list string);
  te_key : option KeyPair;
  te_hopKeys : option KeyPair * option KeyPair;
  te_privileged : bool;
  te_dataplane : bool;
  te_stats : string -> option (list PeerStats)
}.
Section tunnel.
Context `{Host W}.
Context (SplitHostPort : string -> option (string * string)) (JoinHostPort : string -> string -> string)
  (ParseIP : string -> option IP) (ParseCIDR : string -> option (IP * Z)).

Definition later (a b : Z) : Z := if a <? b then b else a.
Definition count_inner (u : Usage) (s : PeerStats) : Usage :=
  mkUsage (us_RxBytes u +i ps_ReceiveBytes s) (us_TxBytes u +i ps_TransmitBytes s) (us_EntryHandshake u) (later (us_ExitHandshake u) (ps_LastHandshake s)).
Definition count_outer (u : Usage) (s : PeerStats) : Usage :=
  mkUsage (us_RxBytes u) (us_TxBytes u) (later (us_EntryHandshake u) (ps_LastHandshake s)) (us_ExitHandshake u).
Definition tunnel_Usage (stats : string -> option (list PeerStats)) : top (W:=W) (Usage * bool) :=
  active <~ tget tn_active ;;
  match active with
  | None => iret (no_usage, false)
  | Some a =>
      if negb (as_innerReady a) then iret (no_usage, false)
      else match stats InnerInterface with
      | None => ifail "read tunnel counters"
      | Some ss => iret (foldl count_outer (foldl count_inner no_usage ss) (default [] (stats OuterInterface)), true)
      end
  end.
Definition tunnel_DisableIPv6 : top (W:=W) unit :=
  active <~ tget tn_active ;;
  match active with
  | None => ifail "IPv6 cannot be disabled manually: the tunnel automatically blocks outbound IPv6 during connection"
  | Some _ => ifail "IPv6 is not turned off: outbound IPv6 is already blocked while the tunnel is connected"
  end.
Definition tunnel_backend : Backend surroundings (Tunnel * W) := {|
  b_PublicKey e := PublicKey (te_key e);
  b_Preflight e := Preflight (te_privileged e) (te_dataplane e);
  b_ValidateEndpoints e := ValidateEndpoints SplitHostPort ParseIP (te_lookup e);
  b_Up e := Up SplitHostPort JoinHostPort ParseIP ParseCIDR (te_lookup e);
  b_UpOuter e := UpOuter SplitHostPort JoinHostPort ParseIP ParseCIDR (te_lookup e);
  b_UpInner e := UpInner SplitHostPort JoinHostPort ParseCIDR;
  b_Down e := Down;
  b_PrepareHopKeys e := PrepareHopKeys (te_hopKeys e);
  b_ResetHopKeys e s := (ResetHopKeys s).2;
  b_Usage e := tunnel_Usage (te_stats e);
  b_DisableIPv6 e := tunnel_DisableIPv6
|}.
End tunnel.

(** ** What a client is told *)
Lemma str_take_take n m s : str_take n (str_take m s) = str_take (Nat.min n m) s.
Proof. revert m s. induction n as [|n IH]; intros [|m] s; [done|done|by destruct s|]. destruct s as [|c s]; [done|]. cbn. by rewrite IH. Qed.
Lemma limited_arrives n s : exists k, limited (arrives n s) = str_take k s /\ (n = None -> k = Z.to_nat maxMessage).
Proof. destruct n as [n|]; [exists (Nat.min (Z.to_nat maxMessage) n); split; [apply str_take_take|done]|by exists (Z.to_nat maxMessage)]. Qed.

Section told.
Context `{HelperLaws} {E B : Type} `{!Backend E B} (allowedUID : Z).
Abbreviation call_ := (helper_call allowedUID).

Definition valid_result (r : result string answer) : bool := match r with Ok a => valid_answer a | Err e => ValidString e && negb (str_empty e) end.
Definition wired (p : string) : Prop := p = ""%string \/ compact p.
(** What the client makes of an answer *)
Definition decoded {A} (zero : A) (out : option (string -> option A)) (a : answer) : result string A :=
  match answer_Marshal a, out with
  | None, _ => Err "json: error calling MarshalJSON"%string
  | Some raw, Some unmarshal => if str_empty raw then Ok zero else match unmarshal raw with None => Err "json: cannot unmarshal"%string | Some v => Ok v end
  | Some _, None => Ok zero
  end.
Definition told {A} (zero : A) out (r : result string answer) : result string A := match r with Ok a => decoded zero out a | Err e => Err e end.

Lemma answer_law a s : answer_Marshal a = Some s -> valid_answer a = true ->
  match a with
  | ANone => s = ""%string
  | AVersion n => compact s /\ int_Unmarshal s = Some n
  | AKey k => compact s /\ string_Unmarshal s = Some k
  | AKeys e x => compact s /\ keys_Unmarshal s = Some (e, x)
  | AUsage u => compact s /\ usage_Unmarshal s = Some u
  end.
Proof.
  destruct a as [|n|k|x y|u]; cbn [answer_Marshal valid_answer]; [by intros [= <-]| | | |by intros Hs _; apply law_usage]; intros [= <-] Hv;
    [by apply law_int|by apply law_string|]. apply andb_true_iff in Hv as [? ?]. by apply law_keys.
Qed.
Lemma answer_wired a s : answer_Marshal a = Some s -> valid_answer a = true -> wired s.
Proof. intros Hs Hv. pose proof (answer_law a s Hs Hv) as Hl. destruct a; [by left|by right; apply Hl..]. Qed.
Lemma respond_wired r : valid_result r = true -> wired (rs_Result (respond r)) /\ ValidString (rs_Error (respond r)) = true.
Proof.
  destruct r as [a|e]; cbn; [|intros [? _]%andb_true_iff; split; [by left|done]]. intros Hv. destruct (answer_Marshal a) as [s|] eqn:Hs; [|by split; [left|]].
  split; [by apply (answer_wired a)|done].
Qed.
(** The answer is read as it was given or not at all. *)
Lemma read_answer n r : valid_result r = true -> exists k, (n = None -> k = Z.to_nat maxMessage) /\
  response_Decode (limited (arrives n (line (response_Marshal (respond r))))) = if (k <? String.length (response_Marshal (respond r)))%nat then None else Some (respond r).
Proof.
  intros Hv. destruct (respond_wired r Hv) as [Hr He]. destruct (limited_arrives n (line (response_Marshal (respond r)))) as (k & -> & Hk).
  exists k. split; [done|]. destruct (respond r) as [x y]. by apply law_response.
Qed.
Lemma read_request n m p : ValidString m = true -> wired p -> exists k, (n = None -> k = Z.to_nat maxMessage) /\
  request_Decode (limited (arrives n (line (request_Marshal (mkRequest m p))))) = if (k <? String.length (request_Marshal (mkRequest m p)))%nat then None else Some (mkRequest m p).
Proof. intros Hm Hp. destruct (limited_arrives n (line (request_Marshal (mkRequest m p)))) as (k & -> & Hk). exists k. split; [done|]. by apply law_request. Qed.

Lemma refusals_valid : valid_result (Err "not allowed to use the ARFL helper"%string) = true /\ valid_result (Err "bad request"%string) = true.
Proof. by split. Qed.
(** The server answers with what it did. *)
Lemma handle_request e uid n m p b : ValidString m = true -> wired p ->
  exists r k, (n = None -> k = Z.to_nat maxMessage) /\
  handle allowedUID e uid (arrives n (line (request_Marshal (mkRequest m p)))) b =
    (line (response_Marshal (respond r)), if allowed allowedUID uid && negb (k <? String.length (request_Marshal (mkRequest m p)))%nat then (dispatch e (mkRequest m p) b).2 else b) /\
  r = if negb (allowed allowedUID uid) then Err "not allowed to use the ARFL helper"%string
      else if (k <? String.length (request_Marshal (mkRequest m p)))%nat then Err "bad request"%string else (dispatch e (mkRequest m p) b).1.
Proof.
  intros Hm Hp. destruct (read_request n m p Hm Hp) as (k & Hk & Hd). do 2 eexists. split; [exact Hk|]. split; [|reflexivity].
  unfold handle. rewrite Hd. destruct (allowed allowedUID uid); [|done]. cbn [negb andb]. destruct (k <? _)%nat; [done|]. cbn [negb]. by destruct (dispatch e _ b).
Qed.

Lemma call_spec {A} e lk (zero : A) out m p b r b' : call_ e lk zero out m p b = (r, b') -> ValidString m = true -> wired p ->
  valid_result (dispatch e (mkRequest m p) b).1 = true ->
  (b' = b \/ allowed allowedUID (lk_uid lk) = true /\ b' = (dispatch e (mkRequest m p) b).2) /\
  (forall a, r = Ok a -> allowed allowedUID (lk_uid lk) = true /\ b' = (dispatch e (mkRequest m p) b).2 /\ told zero out (dispatch e (mkRequest m p) b).1 = Ok a).
Proof.
  unfold helper_call. intros Hc Hm Hp Hv. destruct (lk_dials lk); [|injection Hc as <- <-; split; [by left|done]]. cbn [negb] in Hc.
  destruct (handle_request e (lk_uid lk) (lk_sent lk) m p b Hm Hp) as (x & k & _ & Hh & Hx). rewrite Hh in Hc. set (b1 := if (_ && negb _)%bool then _ else b) in *.
  assert (b1 = b \/ allowed allowedUID (lk_uid lk) = true /\ b1 = (dispatch e (mkRequest m p) b).2) as Hb.
  { subst b1. destruct (allowed allowedUID (lk_uid lk)); [|by left]. cbn [andb]. destruct (negb _); [by right|by left]. }
  destruct (lk_sent lk) as [n|]; [by injection Hc as <- <-|].
  assert (valid_result x = true) as Hvx by (rewrite Hx; destruct (allowed allowedUID (lk_uid lk)); [destruct (k <? _)%nat; [exact (proj2 refusals_valid)|exact Hv]|exact (proj1 refusals_valid)]).
  destruct (read_answer (lk_received lk) x Hvx) as (k' & _ & Hd). rewrite Hd in Hc. clear Hd. destruct (k' <? _)%nat; [by injection Hc as <- <-|].
  destruct x as [a|er]; cbn [respond rs_Error rs_Result] in Hc.
  2:{ cbn [valid_result] in Hvx. apply andb_true_iff in Hvx as [_ Hne]. rewrite Hne in Hc. by injection Hc as <- <-. }
  destruct (allowed allowedUID (lk_uid lk)) eqn:Ha; [|done]. cbn [negb andb] in *. destruct (k <? _)%nat; [done|]. cbn [negb] in *. subst b1.
  assert ((decoded zero out a, (dispatch e (mkRequest m p) b).2) = (r, b')) as Hd.
  { rewrite <-Hc. unfold decoded. destruct (answer_Marshal a) as [raw|]; [|done]. cbn -[str_empty]. destruct out as [un|]; [|done]. destruct (str_empty raw); [done|]. by destruct (un raw). }
  injection Hd as Hd <-. split; [by right|]. intros v ->. rewrite <-Hx. by split_and!.
Qed.
Lemma call_whole {A} e uid (zero : A) out m p b : allowed allowedUID (Some uid) = true -> ValidString m = true -> wired p ->
  (Z.of_nat (String.length (request_Marshal (mkRequest m p))) <= maxMessage) ->
  valid_result (dispatch e (mkRequest m p) b).1 = true -> Z.of_nat (String.length (response_Marshal (respond (dispatch e (mkRequest m p) b).1))) <= maxMessage ->
  call_ e (whole uid) zero out m p b = (let '(x, b') := dispatch e (mkRequest m p) b in (told zero out x, b')).
Proof.
  intros Ha Hm Hp Hreq Hv Hresp. unfold helper_call. cbn [whole lk_dials lk_uid lk_sent lk_received negb].
  destruct (handle_request e (Some uid) None m p b Hm Hp) as (x & k & Hk & Hh & Hx). specialize (Hk eq_refl). rewrite Hh. rewrite Ha in *. cbn [negb andb] in *.
  assert ((k <? String.length (request_Marshal (mkRequest m p)))%nat = false) as Hks by (apply Nat.ltb_ge; lia). rewrite Hks in *. cbn [negb]. subst x.
  destruct (dispatch e (mkRequest m p) b) as [x b1]. cbn [fst snd] in *. destruct (read_answer None x Hv) as (k' & Hk' & Hd). specialize (Hk' eq_refl).
  rewrite Hd. assert ((k' <? String.length (response_Marshal (respond x)))%nat = false) as -> by (apply Nat.ltb_ge; lia).
  destruct x as [a|er]; cbn [respond rs_Error rs_Result told].
  - unfold decoded. destruct (answer_Marshal a) as [raw|]; cbn -[str_empty]; [|done]. destruct out as [un|]; [|done]. destruct (str_empty raw); [done|]. by destruct (un raw).
  - cbn [valid_result] in Hv. apply andb_true_iff in Hv as [_ Hne]. by rewrite Hne.
Qed.

(** The request of an operation *)
Definition request_of (o : operation) : request :=
  match o with
  | HVersion => mkRequest MethodVersion ""
  | HPublicKey => mkRequest MethodPublicKey ""
  | HPreflight => mkRequest MethodPreflight ""
  | HValidateEndpoints entry exit_ => mkRequest MethodValidateEndpoints (endpoints_Marshal entry exit_)
  | HUp cfg => mkRequest MethodUp (config_Marshal cfg)
  | HUpOuter cfg => mkRequest MethodUpOuter (config_Marshal cfg)
  | HUpInner cfg => mkRequest MethodUpInner (config_Marshal cfg)
  | HDown => mkRequest MethodDown ""
  | HPrepareHopKeys => mkRequest MethodPrepareHopKeys ""
  | HResetHopKeys => mkRequest MethodResetHopKeys ""
  | HUsage => mkRequest MethodUsage ""
  | HDisableIPv6 => mkRequest MethodDisableIPv6 ""
  end.
Definition valid_op (o : operation) : bool :=
  match o with
  | HValidateEndpoints entry exit_ => ValidString entry && ValidString exit_
  | HUp cfg | HUpOuter cfg | HUpInner cfg => valid_config cfg
  | _ => true
  end.
Lemma dispatch_direct e o : valid_op o = true -> dispatch e (request_of o) = direct e o.
Proof.
  destruct o as [| | |entry exit_|cfg|cfg|cfg| | | | |]; try done; cbn [valid_op]; intros Hv; unfold dispatch; cbn [request_of rq_Method rq_Params].
  - apply andb_true_iff in Hv as [Ha Hb]. by destruct (law_endpoints entry exit_ Ha Hb) as [_ ->].
  - by destruct (law_config cfg Hv) as [_ ->].
  - by destruct (law_config cfg Hv) as [_ ->].
  - by destruct (law_config cfg Hv) as [_ ->].
Qed.
Lemma request_wired o : valid_op o = true -> ValidString (rq_Method (request_of o)) = true /\ wired (rq_Params (request_of o)).
Proof.
  destruct o as [| | |entry exit_|cfg|cfg|cfg| | | | |]; cbn [valid_op request_of rq_Method rq_Params]; intros Hv; (split; [vm_compute; reflexivity|]); try by left.
  - apply andb_true_iff in Hv as [Ha Hb]. right. by apply law_endpoints.
  - right. by apply law_config.
  - right. by apply law_config.
  - right. by apply law_config.
Qed.

(** What reaches the client of an operation's answer, operation by operation *)
Definition heard (o : operation) (x : result string answer) : result string answer :=
  match o with
  | HVersion => match told 0 (Some int_Unmarshal) x with Ok n => Ok (AVersion n) | Err e => Err e end
  | HPublicKey => match told ""%string (Some string_Unmarshal) x with Ok k => Ok (AKey k) | Err e => Err e end
  | HPrepareHopKeys => match told (""%string, ""%string) (Some keys_Unmarshal) x with Ok ks => Ok (AKeys ks.1 ks.2) | Err e => Err e end
  | HUsage => match told (mkUsageResult false no_usage) (Some usage_Unmarshal) x with Ok u => Ok (AUsage u) | Err e => Err e end
  | HResetHopKeys => Ok ANone
  | _ => match told tt None x with Ok _ => Ok ANone | Err e => Err e end
  end.
(** It is the answer, if it could be written. *)
Definition written (x : result string answer) : bool := match x with Ok a => match answer_Marshal a with Some _ => true | None => false end | Err _ => true end.
Lemma decoded_value {A} (zero : A) un a s v : answer_Marshal a = Some s -> compact s -> un s = Some v -> decoded zero (Some un) a = Ok v.
Proof.
  intros Hs Hc Hv. unfold decoded. rewrite Hs. destruct (str_empty s) eqn:He; [|by rewrite Hv]. apply String.eqb_eq in He. by apply law_compact in Hc.
Qed.
Lemma heard_direct e o b : valid_result (direct e o b).1 = true -> written (direct e o b).1 = true -> heard o (direct e o b).1 = (direct e o b).1.
Proof.
  intros Hv Hw.
  assert (forall (m : io B unit), heard HDown (quiet m b).1 = (quiet m b).1) as Hq.
  { intros m. unfold quiet, ibind. by destruct (m b) as [[[]|er] b1]. }
  assert (forall a, (direct e o b).1 = Ok a -> valid_answer a = true /\ exists s, answer_Marshal a = Some s) as Ha.
  { intros a Ha. rewrite Ha in *. split; [done|]. cbn [written] in Hw. destruct (answer_Marshal a) as [s|]; [by exists s|done]. }
  destruct o as [| | |entry exit_|cfg|cfg|cfg| | | | |]; try apply Hq.
  - destruct (Ha _ eq_refl) as [Hva (s & Hs)]. destruct (answer_law _ _ Hs Hva) as [Hc Hu]. change (direct e HVersion b).1 with (Ok (A:=answer) (E:=string) (AVersion Version)).
    cbn [heard told]. by rewrite (decoded_value 0 int_Unmarshal _ _ _ Hs Hc Hu).
  - cbn [direct] in *. unfold ibind in *. destruct (b_PublicKey e b) as [[k|er] b1]; [|done]. destruct (Ha _ eq_refl) as [Hva (s & Hs)].
    destruct (answer_law _ _ Hs Hva) as [Hc Hu]. cbn [fst iret heard told]. by rewrite (decoded_value ""%string string_Unmarshal _ _ _ Hs Hc Hu).
  - cbn [direct] in *. unfold ibind in *. destruct (b_PrepareHopKeys e b) as [[[x y]|er] b1]; [|done]. destruct (Ha _ eq_refl) as [Hva (s & Hs)].
    destruct (answer_law _ _ Hs Hva) as [Hc Hu]. cbn [fst snd iret heard told] in *. by rewrite (decoded_value (""%string, ""%string) keys_Unmarshal _ _ _ Hs Hc Hu).
  - done.
  - cbn [direct] in *. unfold ibind in *. destruct (b_Usage e b) as [[[u act]|er] b1]; [|done]. destruct (Ha _ eq_refl) as [Hva (s & Hs)].
    destruct (answer_law _ _ Hs Hva) as [Hc Hu]. cbn [fst snd iret heard told] in *. by rewrite (decoded_value (mkUsageResult false no_usage) usage_Unmarshal _ _ _ Hs Hc Hu).
Qed.
Definition is_reset (o : operation) : bool := match o with HResetHopKeys => true | _ => false end.
Lemma heard_unwritten o x : written x = false -> is_reset o = false -> is_ok (heard o x) = false.
Proof.
  destruct x as [a|er]; [|done]. cbn [written]. intros Hw Hr. destruct (answer_Marshal a) eqn:Ha; [done|].
  destruct o; cbn [heard told]; unfold decoded; rewrite ?Ha; done.
Qed.
Lemma remote_call e lk o : exists (A : Type) (zero : A) out (wrap : A -> answer),
  (forall b, remote allowedUID e lk o b =
    let '(x, b') := call_ e lk zero out (rq_Method (request_of o)) (rq_Params (request_of o)) b in
    (if is_reset o then Ok ANone else match x with Ok v => Ok (wrap v) | Err er => Err er end, b')) /\
  (forall x, heard o x = if is_reset o then Ok ANone else match told zero out x with Ok v => Ok (wrap v) | Err er => Err er end).
Proof.
  assert (forall (m : io B unit) b, quiet m b = (let '(x, b') := m b in (match x with Ok v => Ok ((fun _ : unit => ANone) v) | Err er => Err er end, b'))) as Hq.
  { intros m b. unfold quiet, ibind. by destruct (m b) as [[[]|er] b1]. }
  destruct o as [| | |entry exit_|cfg|cfg|cfg| | | | |].
  1: exists Z, 0, (Some int_Unmarshal), AVersion.
  2: exists string, ""%string, (Some string_Unmarshal), AKey.
  9: exists (string * string)%type, (""%string, ""%string), (Some keys_Unmarshal), (fun ks => AKeys ks.1 ks.2).
  11: exists UsageResult, (mkUsageResult false no_usage), (Some usage_Unmarshal), AUsage.
  3-8,10,12: exists unit, tt, None, (fun _ => ANone).
  all: split; [intros b|done]; cbn [remote request_of rq_Method rq_Params is_reset]; try apply Hq.
  - unfold ibind, client_Ping. by destruct (call_ _ _ _ _ _ _ b) as [[] ?].
  - unfold ibind, client_PublicKey. by destruct (call_ _ _ _ _ _ _ b) as [[] ?].
  - unfold quiet, client_ResetHopKeys, ibind, itry. by destruct (call_ _ _ _ _ _ _ b) as [[] ?].
  - unfold ibind, client_PrepareHopKeys. by destruct (call_ _ _ _ _ _ _ b) as [[] ?].
  - unfold ibind, client_Usage. by destruct (call_ _ _ _ _ _ _ b) as [[] ?].
Qed.

(** C28: the helper does what the tunnel would. Over a connection that holds, and for
    messages of at most 64 KiB, an operation of the allowed user or of root gives
    through the helper the answer and the effect it has on the backend itself. Over
    any connection, broken at any byte in either direction, it was carried out once
    or not at all, and not at all for any other user; and what the client reports
    as done was done, with that answer (ResetHopKeys reports nothing). The error
    texts of the backend are taken to be UTF-8 and not empty. *)
Theorem helper_transparent e o b (Hop : valid_op o = true) (Hv : valid_result (direct e o b).1 = true) :
  (forall uid, allowed allowedUID (Some uid) = true -> written (direct e o b).1 = true ->
     Z.of_nat (String.length (request_Marshal (request_of o))) <= maxMessage ->
     Z.of_nat (String.length (response_Marshal (respond (direct e o b).1))) <= maxMessage ->
     remote allowedUID e (whole uid) o b = direct e o b) /\
  (forall lk r b', remote allowedUID e lk o b = (r, b') ->
     (b' = b \/ allowed allowedUID (lk_uid lk) = true /\ b' = (direct e o b).2) /\
     (is_reset o = false -> is_ok r = true -> allowed allowedUID (lk_uid lk) = true /\ (r, b') = direct e o b)).
Proof.
  destruct (request_wired o Hop) as [Hm Hp].
  assert (dispatch e (mkRequest (rq_Method (request_of o)) (rq_Params (request_of o))) b = direct e o b) as Hd by (rewrite <-dispatch_direct by done; by destruct (request_of o)).
  split.
  - intros uid Ha Hw Hreq Hresp. destruct (remote_call e (whole uid) o) as (A & zero & out & wrap & -> & Hheard).
    rewrite (call_whole e uid zero out _ _ b Ha Hm Hp); rewrite ?Hd; [|by destruct (request_of o)|done|done].
    pose proof (heard_direct e o b Hv Hw) as Hh. destruct (direct e o b) as [x b1]. cbn [fst] in *. by rewrite <-Hheard, Hh.
  - intros lk r b' Hr. destruct (remote_call e lk o) as (A & zero & out & wrap & Hcall & Hheard). rewrite Hcall in Hr.
    destruct (call_ e lk zero out _ _ b) as [x b1] eqn:Hc. injection Hr as Hr <-.
    destruct (call_spec _ _ _ _ _ _ _ _ _ Hc Hm Hp) as [Hst Hok]; [by rewrite Hd|]. rewrite Hd in *. split; [done|].
    intros Hn Hk. rewrite Hn in *. destruct x as [v|er]; [|by subst r]. destruct (Hok v eq_refl) as (Ha & -> & Ht). split; [done|].
    specialize (Hheard (direct e o b).1). rewrite Ht, Hr in Hheard.
    destruct (written (direct e o b).1) eqn:Hw; [|pose proof (heard_unwritten o _ Hw Hn) as Hu; rewrite Hheard in Hu; congruence].
    rewrite heard_direct in Hheard by done. rewrite <-Hheard. by destruct (direct e o b).
Qed.
End told.

(** ** The tunnel behind the socket *)
Section guarded.
Context `{HelperLaws} `{Hhost : Host W} (allowedUID : Z).
Context (SplitHostPort : string -> option (string * string)) (JoinHostPort : string -> string -> string)
  (ParseIP : string -> option IP) (ParseCIDR : string -> option (IP * Z)).
Abbreviation used := (run_ops SplitHostPort JoinHostPort ParseIP ParseCIDR).
Abbreviation backend := (tunnel_backend SplitHostPort JoinHostPort ParseIP ParseCIDR).
Abbreviation serve := (Serve (Backend0:=backend) allowedUID).

Lemma run_ops_app os1 os2 s : used (os1 ++ os2) s = used os2 (used os1 s).
Proof. revert s. induction os1 as [|o l IH]; intros s; [done|apply IH]. Qed.
Lemma quiet_state (m : io (Tunnel * W) unit) s : (quiet m s).2 = (m s).2.
Proof. unfold quiet, ibind. by destruct (m s) as [[[]|er] s1]. Qed.
Lemma same_state {A} (m : io (Tunnel * W) A) s : (exists r, m s = (r, s)) -> exists os, (length os <= 1)%nat /\ (m s).2 = used os s.
Proof. intros [r ->]. exists []. split; [cbn; lia|done]. Qed.
Lemma one_op {A} (m : io (Tunnel * W) A) s o : (m s).2 = (perform SplitHostPort JoinHostPort ParseIP ParseCIDR o s).2 -> exists os, (length os <= 1)%nat /\ (m s).2 = used os s.
Proof. intros Hm. exists [o]. split; [cbn; lia|done]. Qed.
(** A request is at most one operation of the tunnel. *)
Lemma dispatch_ops e req s : exists os, (length os <= 1)%nat /\ (dispatch (Backend0:=backend) e req s).2 = used os s.
Proof.
  unfold dispatch. cbn [b_PublicKey b_Preflight b_ValidateEndpoints b_Up b_UpOuter b_UpInner b_Down b_PrepareHopKeys b_ResetHopKeys b_Usage b_DisableIPv6 tunnel_backend].
  destruct (String.eqb _ MethodVersion); [apply same_state; by eexists|].
  destruct (String.eqb _ MethodPublicKey).
  { apply (one_op _ _ (OpPublicKey (te_key e))). cbn [perform]. unfold ibind. by destruct (PublicKey (te_key e) s) as [[]]. }
  destruct (String.eqb _ MethodPreflight); [apply (one_op _ _ (OpPreflight (te_privileged e) (te_dataplane e))); apply quiet_state|].
  destruct (String.eqb _ MethodValidateEndpoints).
  { destruct (endpoints_Unmarshal _) as [[en ex]|]; apply same_state; [|by eexists]. unfold quiet, ValidateEndpoints, ibind, checked.
    destruct (resolveEndpoints _ _ _ _ _); by eexists. }
  destruct (_ || _).
  { destruct (config_Unmarshal _) as [cfg|]; [|apply same_state; by eexists]. destruct (String.eqb _ MethodUpOuter); [|destruct (String.eqb _ MethodUpInner)].
    - apply (one_op _ _ (OpUpOuter (te_lookup e) cfg)). apply quiet_state.
    - apply (one_op _ _ (OpUpInner cfg)). apply quiet_state.
    - apply (one_op _ _ (OpUp (te_lookup e) cfg)). apply quiet_state. }
  destruct (String.eqb _ MethodDown); [apply (one_op _ _ OpDown); apply quiet_state|].
  destruct (String.eqb _ MethodPrepareHopKeys).
  { apply (one_op _ _ (OpPrepareHopKeys (te_hopKeys e))). cbn [perform]. unfold ibind. by destruct (PrepareHopKeys (te_hopKeys e) s) as [[]]. }
  destruct (String.eqb _ MethodResetHopKeys); [by apply (one_op _ _ OpResetHopKeys)|].
  destruct (String.eqb _ MethodUsage).
  { apply same_state. unfold tunnel_Usage, tget, ibind, iget. destruct (tn_active s.1) as [a|]; [|by eexists].
    destruct (as_innerReady a); [|by eexists]. cbn [negb]. destruct (te_stats e InnerInterface); by eexists. }
  destruct (String.eqb _ MethodDisableIPv6); [|apply same_state; by eexists].
  apply same_state. unfold quiet, tunnel_DisableIPv6, tget, ibind, iget. destruct (tn_active s.1); by eexists.
Qed.
Lemma handle_ops m s : exists os, (length os <= if allowed allowedUID (mg_uid m) then 1 else 0)%nat /\
  (handle (Backend0:=backend) allowedUID (mg_env m) (mg_uid m) (mg_text m) s).2 = used os s.
Proof.
  unfold handle. destruct (allowed allowedUID (mg_uid m)); cbn [negb]; [|by exists []].
  destruct (request_Decode _) as [req|]; [|exists []; split; [cbn; lia|done]].
  destruct (dispatch_ops (mg_env m) req s) as (os & Hl & Hs). exists os. split; [done|]. by destruct (dispatch _ req s).
Qed.
Lemma Serve_ops ms : forall s, exists os, (length os <= length (bfilter (fun m => allowed allowedUID (mg_uid m)) ms))%nat /\ serve ms s = used os s.
Proof.
  induction ms as [|m l IH]; intros s; [by exists []|]. cbn [Serve]. destruct (handle_ops m s) as (os1 & H1 & ->).
  destruct (IH (used os1 s)) as (os2 & H2 & ->). exists (os1 ++ os2). split; [|by rewrite run_ops_app].
  rewrite length_app. unfold bfilter in *. cbn [List.filter]. destruct (allowed allowedUID (mg_uid m)); cbn [length]; lia.
Qed.

Context `{HL : !HostLaws W}.
(** C29: whatever is written to the helper's socket, the routes and the IPv6 block can
    be put back. After any bytes from any callers, whatever the operations they ask
    for meet, the tunnel has seen no more operations than the installing user and
    root asked for, none when nobody else called; every route the host gained, and
    a block of IPv6, is in the tunnel's record; and when a client's Down then reports
    success, over any connection, the host has no route it had not before, IPv6 is
    not blocked and nothing is on record. The host is any that keeps [HostLaws], as
    the Linux helper does. The resolver and the interfaces are put back only on a
    host exact about them ([ExactDNS], [ExactInterfaces]), which the helpers are not:
    on macOS a Down that reports success can leave both behind
    ([darwin_retry_forgets], [darwin_utun_left]). *)
Theorem socket_guarded (ms : list message) (w : W) (Hw : untouched w) :
  let s := serve ms (newTunnel, w) in
  (exists os, (length os <= length (bfilter (fun m => allowed allowedUID (mg_uid m)) ms))%nat /\ s = used os (newTunnel, w)) /\
  (match owned s.1 with Some a => covered (ExactDNS W) (ExactInterfaces W) (host_view w) a (host_view s.2) | None => restored (ExactDNS W) (ExactInterfaces W) (host_view w) (host_view s.2) end) /\
  (forall e lk t' w', client_Down (Backend0:=backend) allowedUID e lk s = (Ok tt, (t', w')) -> valid_result (direct (Backend0:=backend) e HDown s).1 = true ->
     owned t' = None /\ restored (ExactDNS W) (ExactInterfaces W) (host_view w) (host_view w')).
Proof.
  destruct (Serve_ops ms (newTunnel, w)) as (os & Hl & Hs). cbv zeta. rewrite Hs. pose proof (used_ok (ExactDNS W) (ExactInterfaces W) id id SplitHostPort JoinHostPort ParseIP ParseCIDR os w Hw) as Hok.
  split; [by exists os|]. destruct (used os (newTunnel, w)) as [t1 w1]. cbn [fst snd]. split.
  { destruct Hok as [_ _ Hcov _]. cbn [fst snd] in Hcov. by destruct (owned t1). }
  intros e lk t' w' Hdown Hv. destruct (call_spec (Backend0:=backend) _ _ _ _ _ _ _ _ _ _ Hdown eq_refl (or_introl eq_refl) Hv) as [_ Ht].
  destruct (Ht tt eq_refl) as (_ & Hst & Hr). change (dispatch _ _ _) with (quiet (B:=Tunnel * W) Down (t1, w1)) in *. rewrite quiet_state in Hst.
  unfold quiet, ibind in Hr. destruct (Down (t1, w1)) as [r [t2 w2]] eqn:Hd. injection Hst as -> ->. destruct r as [u|er]; [|done].
  destruct (down_undoes (ExactDNS W) (ExactInterfaces W) id id _ _ _ _ _ _ Hok Hd) as (Ha & _ & Hp & Hres). split; [|done]. unfold owned. by rewrite Ha, Hp.
Qed.
End guarded.

(** ** Examples *)
(** A value as its number and a closing bracket; a message as a text, a colon, a
    value and another bracket. *)
Fixpoint upto (stop : ascii) (s : string) : option (string * string) :=
  match s with
  | EmptyString => None
  | String c r => if Ascii.eqb c stop then Some (""%string, r) else '(a, b) ← upto stop r; Some (String c a, b)
  end.
Definition has (stop : ascii) (s : string) : bool := match upto stop s with Some _ => true | None => false end.
Definition toy_text `{Countable A} (a : A) : string := (toy_write a ++ ")")%string.
Definition toy_parse `{Countable A} (s : string) : option A := upto ")" s ≫= fun x => toy_read x.1.
Definition toy_message (a b : string) : string := (toy_write a ++ String ":" b ++ "]")%string.
Definition toy_parts (s : string) : option (string * string) := x ← upto "]" s; y ← upto ":" x.1; a ← toy_read y.1; Some (a, y.2).
Lemma upto_first stop s r : has stop s = false -> upto stop (s ++ String stop r) = Some (s, r).
Proof.
  unfold has. induction s as [|c s IH]; intros Hs; [change (upto stop (String stop r) = Some (""%string, r)); cbn; by rewrite Ascii.eqb_refl|].
  change (upto stop (String c (s ++ String stop r)) = Some (String c s, r)). cbn [upto] in *. destruct (Ascii.eqb c stop); [done|].
  rewrite IH; [done|]. by destruct (upto stop s) as [[]|].
Qed.
Lemma has_app stop a b : has stop (a ++ b) = has stop a || has stop b.
Proof.
  unfold has. induction a as [|c a IH]; [done|]. change (String c a ++ b)%string with (String c (a ++ b)). cbn [upto].
  destruct (Ascii.eqb c stop); [done|]. destruct (upto stop (a ++ b)) as [[]|], (upto stop a) as [[]|]; exact IH.
Qed.
Lemma upto_take stop s r n : has stop s = false ->
  upto stop (str_take n (s ++ String stop r)) = if (n <? S (String.length s))%nat then None else Some (s, str_take (n - S (String.length s)) r).
Proof.
  revert n. induction s as [|c s IH]; intros n Hs.
  { destruct n as [|n]; [done|]. change (str_take (S n) ("" ++ String stop r)) with (String stop (str_take n r)). cbn [upto]. rewrite Ascii.eqb_refl. cbn. by rewrite Nat.sub_0_r. }
  destruct n as [|n]; [done|]. change (str_take (S n) (String c s ++ String stop r)) with (String c (str_take n (s ++ String stop r))).
  unfold has in *. cbn [upto] in *. destruct (Ascii.eqb c stop); [done|]. rewrite IH by (by destruct (upto stop s) as [[]|]).
  cbn [String.length]. change (S n <? S (S (String.length s)))%nat with (n <? S (String.length s))%nat. by destruct (n <? _)%nat.
Qed.
Lemma pos_text_has stop p : Ascii.eqb "0" stop = false -> Ascii.eqb "1" stop = false -> has stop (pos_text p) = false.
Proof.
  intros H0 H1. unfold has. induction p as [p IH|p IH|]; cbn [pos_text upto]; rewrite ?H0, ?H1; [..|done]; by destruct (upto stop (pos_text p)) as [[]|].
Qed.
Lemma toy_parse_text `{Countable A} (a : A) : toy_parse (toy_text a) = Some a.
Proof. unfold toy_parse, toy_text, toy_write. rewrite upto_first by by apply pos_text_has. apply toy_read_write. Qed.
Definition toy_value (s : string) : Prop := s <> ""%string /\ has "]" s = false.
Lemma toy_text_value `{Countable A} (a : A) : toy_value (toy_text a).
Proof. split; [unfold toy_text; by destruct (toy_write a)|]. unfold toy_text. rewrite has_app. unfold toy_write. by rewrite pos_text_has. Qed.
Lemma toy_parts_take a b n : b = ""%string \/ toy_value b ->
  toy_parts (str_take n (line (toy_message a b))) = if (n <? String.length (toy_message a b))%nat then None else Some (a, b).
Proof.
  intros Hb. assert (has "]" b = false) as Hb' by (destruct Hb as [->|[_ Hb]]; done). unfold toy_parts, line, toy_message. set (t := (toy_write a ++ String ":" b)%string).
  assert (has "]" t = false) as Ht by (subst t; unfold toy_write; change (String ":" b) with (":" ++ b)%string; rewrite !has_app, pos_text_has; [exact Hb'|done|done]).
  assert ((toy_write a ++ String ":" b ++ "]")%string = (t ++ "]")%string) as -> by (subst t; by rewrite str_app_assoc).
  rewrite str_app_assoc. change ("]" ++ String "010" "")%string with (String "]" (String "010" "")). rewrite upto_take by done.
  rewrite str_length_app. change (String.length "]") with 1%nat. rewrite Nat.add_1_r. destruct (n <? _)%nat; [done|]. cbn [mbind option_bind fst].
  subst t. rewrite upto_first by (by apply pos_text_has). cbn [mbind option_bind fst snd]. by rewrite toy_read_write.
Qed.

Definition hop_texts (h : HopConfig) : list string := [hc_NodeID h; hc_Endpoint h; hc_NodeWGPubkey h; hc_TunnelIP h].
Definition config_data (c : TunnelConfig) : list string * (Z * Z) :=
  (hop_texts (tc_Entry c) ++ hop_texts (tc_Exit c) ++ [tc_ClientKey c; tc_EntryClientKey c; tc_ExitClientKey c; tc_Transport c] ++ tc_OuterPinnedEndpoints c,
   (hc_BytesAllowed (tc_Entry c), hc_BytesAllowed (tc_Exit c))).
Definition config_of (d : list string * (Z * Z)) : option TunnelConfig :=
  match d with
  | (a :: b :: c :: d :: e :: f :: g :: h :: i :: j :: k :: t :: l, (m, n)) => Some (mkTunnelConfig (mkHopConfig a b c d m) (mkHopConfig e f g h n) i j k l t)
  | _ => None
  end.
#[export] Instance toy_helper_json : HelperJson := {|
  compact := toy_value;
  request_Marshal r := toy_message (rq_Method r) (rq_Params r);
  request_Decode s := '(m, p) ← toy_parts s; Some (mkRequest m p);
  response_Marshal r := toy_message (rs_Error r) (rs_Result r);
  response_Decode s := '(e, r) ← toy_parts s; Some (mkResponse r e);
  endpoints_Marshal a b := toy_text (a, b);
  endpoints_Unmarshal s := toy_parse s;
  config_Marshal c := toy_text (config_data c);
  config_Unmarshal s := toy_parse s ≫= config_of;
  int_Marshal n := toy_text n;
  int_Unmarshal s := toy_parse s;
  string_Marshal k := toy_text k;
  string_Unmarshal s := toy_parse s;
  keys_Marshal a b := toy_text (a, b);
  keys_Unmarshal s := toy_parse s;
  usage_Marshal u := Some (toy_text (ur_Active u, us_RxBytes (ur_Usage u), us_TxBytes (ur_Usage u), us_EntryHandshake (ur_Usage u), us_ExitHandshake (ur_Usage u)));
  usage_Unmarshal s := '(a, b, c, d, e) ← toy_parse s; Some (mkUsageResult a (mkUsage b c d e))
|}.
#[export] Instance toy_helper_laws : HelperLaws.
Proof.
  split; cbn [compact request_Marshal request_Decode response_Marshal response_Decode endpoints_Marshal endpoints_Unmarshal config_Marshal config_Unmarshal
    int_Marshal int_Unmarshal string_Marshal string_Unmarshal keys_Marshal keys_Unmarshal usage_Marshal usage_Unmarshal toy_helper_json rq_Method rq_Params rs_Result rs_Error].
  - intros m p n _ Hp. rewrite toy_parts_take by done. by destruct (n <? _)%nat.
  - intros r e n Hr _. rewrite toy_parts_take by done. by destruct (n <? _)%nat.
  - by intros s [].
  - intros a b _ _. split; [apply toy_text_value|apply toy_parse_text].
  - intros c _. split; [apply toy_text_value|]. rewrite toy_parse_text. by destruct c as [[] []].
  - intros n. split; [apply toy_text_value|apply toy_parse_text].
  - intros k _. split; [apply toy_text_value|apply toy_parse_text].
  - intros a b _ _. split; [apply toy_text_value|apply toy_parse_text].
  - intros [a [b c d e]] s [= <-]. split; [apply toy_text_value|]. by rewrite toy_parse_text.
Qed.

Definition toy_around : surroundings := mkSurroundings toy_lookup (Some (mkKeys "sk0" "pk0")) toy_keys true true (fun _ => None).
Abbreviation toy_backend := (tunnel_backend (W:=Sim) toy_split toy_join toy_ip toy_cidr).
Definition toy_idle : Tunnel * Sim := (newTunnel, toy_host []).
Lemma helper_transparent_witness :
  (remote (Backend0:=toy_backend) 1000 toy_around (whole 1000) HPrepareHopKeys toy_idle).1 = Ok (AKeys "pk1" "pk2") /\
  remote (Backend0:=toy_backend) 1000 toy_around (whole 0) HPrepareHopKeys toy_idle = direct (Backend0:=toy_backend) toy_around HPrepareHopKeys toy_idle.
Proof.
  assert (forall uid, allowed 1000 (Some uid) = true -> remote (Backend0:=toy_backend) 1000 toy_around (whole uid) HPrepareHopKeys toy_idle = direct (Backend0:=toy_backend) toy_around HPrepareHopKeys toy_idle) as Hw.
  { intros uid Ha. refine (proj1 (helper_transparent (Backend0:=toy_backend) 1000 toy_around HPrepareHopKeys toy_idle eq_refl _) uid Ha _ _ _); [vm_compute; reflexivity..| |];
      apply Z.leb_le; vm_compute; reflexivity. }
  split; [rewrite Hw by reflexivity; vm_compute; reflexivity|by apply Hw].
Defined.

(** Keys and a tunnel for the user, a stranger's Down, and a request cut off *)
Definition toy_said (uid : Z) (o : operation) : message := mkMessage toy_around (Some uid) (line (request_Marshal (request_of o))).
Definition toy_traffic : list message :=
  [toy_said 1000 HPrepareHopKeys; toy_said 1000 (HUp (toy_hops "wg-exit")); toy_said 33 HDown; mkMessage toy_around (Some 1000) "01"; mkMessage toy_around None "0)"].
Definition toy_served : Tunnel * Sim := Serve (Backend0:=toy_backend) 1000 toy_traffic toy_idle.
Definition toy_downed : result string unit * (Tunnel * Sim) := client_Down (Backend0:=toy_backend) 1000 toy_around (whole 1000) toy_served.
(** The same traffic to the Linux helper *)
Abbreviation linux_backend := (tunnel_backend (W:=Linux) toy_split toy_join toy_ip toy_cidr).
Definition linux_served : Tunnel * Linux := Serve (Backend0:=linux_backend) 1000 toy_traffic (newTunnel, toy_linux []).
Definition linux_downed : result string unit * (Tunnel * Linux) := client_Down (Backend0:=linux_backend) 1000 toy_around (whole 1000) linux_served.
Lemma socket_guarded_witness :
  (is_ok toy_downed.1 = true /\ vw_ipv6 (sm_view toy_served.2) = true /\
   owned toy_downed.2.1 = None /\ restored True True (sm_view (toy_host [])) (sm_view toy_downed.2.2)) /\
  (is_ok linux_downed.1 = true /\ vw_ipv6 (linux_view linux_served.2) = true /\
   owned linux_downed.2.1 = None /\ restored False False (linux_view (toy_linux [])) (linux_view linux_downed.2.2)).
Proof.
  split.
  - split; [vm_compute; reflexivity|]. split; [vm_compute; reflexivity|].
    destruct (socket_guarded (Hhost:=sim_host) 1000 toy_split toy_join toy_ip toy_cidr toy_traffic (toy_host []) ltac:(by split_and!)) as (_ & _ & H).
    assert (fst toy_downed = Ok tt) as Hok by (vm_compute; reflexivity).
    destruct (H toy_around (whole 1000) (fst (snd toy_downed)) (snd (snd toy_downed))) as (Ho & Hr & H6 & Hd & Hi); [|vm_compute; reflexivity|].
    { rewrite <-Hok. change (toy_downed = (toy_downed.1, (toy_downed.2.1, toy_downed.2.2))). by destruct toy_downed as [? []]. }
    split; [exact Ho|]. split; [exact Hr|]. split; [exact H6|]. split; intros _; [exact (Hd sim_dns)|exact (Hi sim_ifaces)].
  - split; [vm_compute; reflexivity|]. split; [vm_compute; reflexivity|].
    destruct (socket_guarded (Hhost:=linux_host) 1000 toy_split toy_join toy_ip toy_cidr toy_traffic (toy_linux []) ltac:(by split_and!)) as (_ & _ & H).
    assert (fst linux_downed = Ok tt) as Hok by (vm_compute; reflexivity).
    destruct (H toy_around (whole 1000) (fst (snd linux_downed)) (snd (snd linux_downed))) as (Ho & Hr & H6 & _); [|vm_compute; reflexivity|].
    { rewrite <-Hok. change (linux_downed = (linux_downed.1, (linux_downed.2.1, linux_downed.2.2))). by destruct linux_downed as [? []]. }
    split; [exact Ho|]. split; [exact Hr|]. split; [exact H6|]. by split.
Defined.
