(* ===== verification/Lightning.v ===== *)
(** * Lightning: the client of an LND node
    (src/internal/lightning/lnd.go, lightning.go; StartSettlementListener of
    src/internal/payments/api.go)

    What the REST client makes of LND's answers. An HTTP exchange is an argument:
    nothing, or a status and a body that may end before it is whole; so are the
    JSON decoders. Keysend is then put under the settlement engine. *)
From S2P Require Import Prelude Sql Schema Credentials Repository Ledger Payments Settlement IPPool Nip44 ClientConnect.

Inductive InvoiceStatus := InvoiceOpen | InvoiceSettled | InvoiceExpired.
#[export] Instance InvoiceStatus_eq_dec : EqDecision InvoiceStatus.
Proof. solve_decision. Defined.
(** Times in seconds *)
Record Invoice := mkInvoice {
  in_PaymentHash : string;
  in_PaymentRequest : string;
  in_AmountSats : Z;
  in_Memo : string;
  in_Status : InvoiceStatus;
  in_CreatedAt : option Z;
  in_SettledAt : option Z;
  in_ExpiresAt : option Z
}.
Record lndInvoice := mkLndInvoice {
  li_Memo : string; li_RHash : string; li_Value : string; li_State : string;
  li_CreationDate : string; li_SettleDate : string; li_Expiry : string; li_PaymentRequest : string
}.
Record lndPayment := mkLndPayment { lp_PaymentHash : string; lp_Status : string; lp_FeeSat : string; lp_FailureReason : string }.
Definition no_payment : lndPayment := mkLndPayment "" "" "" "".

(** ** fmt.Sscanf with %d into an int64: spaces, a sign, digits; what follows is
    not looked at. [None]: an error. *)
Definition Sscanf_d (s : string) : option Z :=
  let v := match skip_space s with
           | String "-" r => Z.opp <$> scan_digits None r
           | String "+" r => scan_digits None r
           | r => scan_digits None r
           end in
  z ← v; if in_i64b z then Some z else None.

(** ** Hashes *)
(** base64.URLEncoding: - and _ for + and /. *)
Fixpoint to_std (s : string) : option string :=
  match s with
  | EmptyString => Some ""%string
  | String c r =>
      if (byte_val c =? 43) || (byte_val c =? 47) then None
      else r' ← to_std r; Some (String (if byte_val c =? 45 then byte_of 43 else if byte_val c =? 95 then byte_of 47 else c) r')
  end.
Definition base64url_DecodeString (s : string) : option string := to_std s ≫= base64_DecodeString.
Fixpoint from_std (s : string) : string :=
  match s with EmptyString => "" | String c r => String (if byte_val c =? 43 then byte_of 45 else if byte_val c =? 47 then byte_of 95 else c) (from_std r) end.
Definition base64url_EncodeToString (s : string) : string := from_std (base64_EncodeToString s).
Definition base64ToHex (b64 : string) : string :=
  match base64_DecodeString b64 with
  | Some data => hex_encode data
  | None => match base64url_DecodeString b64 with Some data => hex_encode data | None => b64 end
  end.

(** ** LND *)
(** How reading a body ended: whole, at the end of the context or of the client's
    time, or with the connection broken. *)
Inductive ending := EndOfBody | ReadTimeout | ReadBroken.
Inductive exchange :=
| NoAnswer (timeout : bool) (msg : string)
| Answer (StatusCode : Z) (body : string) (e : ending).

Class LndJson := {
  decode_add_invoice : string -> result string (string * string);     (* r_hash, payment_request *)
  decode_invoice : string -> result string lndInvoice;
  decode_stream_invoice : string -> option lndInvoice;
  decode_payment : string -> option lndPayment;
  decode_error : string -> string * string                            (* message, error *)
}.

(** bufio.Scanner: the lines of a body, and whether it stopped at one too long. *)
Fixpoint chomp (s : string) : string :=
  match s with
  | EmptyString => ""
  | String c EmptyString => if byte_val c =? 13 then "" else s
  | String c r => String c (chomp r)
  end.
Fixpoint scan_lines (limit : Z) (cur s : string) : list string * bool :=
  match s with
  | EmptyString => if str_empty cur then ([], false) else if slen cur <? limit then ([chomp cur], false) else ([], true)
  | String c r =>
      if byte_val c =? 10
      then if slen cur <? limit then let '(l, b) := scan_lines limit "" r in (chomp cur :: l, b) else ([], true)
      else scan_lines limit (cur ++ String c "") r
  end.
Definition MaxScanTokenSize : Z := 64 * 1024.
Definition subscribe_buffer : Z := 1024 * 1024.

Section lnd.
Context `{LndJson}.

(** doJSON; a decoder's error is its text. *)
Definition doJSON {A} (decode : string -> result string A) (x : exchange) : result string A :=
  match x with
  | NoAnswer _ msg => Err msg
  | Answer StatusCode body e =>
      match e with
      | ReadTimeout => Err "read response: timeout"%string
      | ReadBroken => Err "read response: unexpected EOF"%string
      | EndOfBody =>
          if negb (StatusCode =? 200) then
            let '(message, error) := decode_error body in
            let msg := if str_empty message then if str_empty error then body else error else message in
            Err ("HTTP " ++ show_Z StatusCode ++ ": " ++ msg)%string
          else decode body
      end
  end.

Definition optional_date (s : string) : option (option Z) := if str_empty s then Some None else Some <$> Sscanf_d s.
Definition lndInvoiceToInvoice (lnd : lndInvoice) : result string Invoice :=
  match (if str_empty (li_Value lnd) then Some 0 else Sscanf_d (li_Value lnd)) with
  | None => Err "parse invoice amount"%string
  | Some amount =>
      let status := if String.eqb (li_State lnd) "SETTLED" then InvoiceSettled
                    else if String.eqb (li_State lnd) "CANCELLED" || String.eqb (li_State lnd) "CANCELED" then InvoiceExpired else InvoiceOpen in
      match optional_date (li_CreationDate lnd) with
      | None => Err "parse creation_date"%string
      | Some created =>
          match (if String.eqb (li_SettleDate lnd) "0" then Some None else optional_date (li_SettleDate lnd)) with
          | None => Err "parse settle_date"%string
          | Some settled =>
              match (if str_empty (li_Expiry lnd) || str_empty (li_CreationDate lnd) then Some None
                     else expiry ← Sscanf_d (li_Expiry lnd); Some (Some (default 0 created +i expiry))) with
              | None => Err "parse expiry"%string
              | Some expires =>
                  Ok (mkInvoice (base64ToHex (li_RHash lnd)) (li_PaymentRequest lnd) amount (li_Memo lnd) status created settled expires)
              end
          end
      end
  end.

Definition CreateInvoice (amountSats : Z) (memo : string) (expiry now : Z) (x : exchange) : result string Invoice :=
  match doJSON decode_add_invoice x with
  | Err e => Err ("create invoice: " ++ e)%string
  | Ok (rHash, request) => Ok (mkInvoice (base64ToHex rHash) request amountSats memo InvoiceOpen (Some now) None (Some (now + expiry)))
  end.

Definition isInvoiceLookupNotFound (msg : string) : bool :=
  Contains (ToLower msg) "unable to locate invoice" || Contains (ToLower msg) "http 404".
Inductive lookup_error := ErrInvoiceNotFound | LookupError (msg : string).
Definition converted (r : result string Invoice) : result lookup_error Invoice := match r with Ok i => Ok i | Err e => Err (LookupError e) end.
(** [get]: what a path brings. *)
Definition LookupInvoice (get : string -> exchange) (paymentHash : string) : result lookup_error Invoice :=
  match doJSON decode_invoice (get ("/v1/invoice/" ++ paymentHash)%string) with
  | Ok resp => converted (lndInvoiceToInvoice resp)
  | Err e =>
      if negb (isInvoiceLookupNotFound e) then Err (LookupError ("lookup invoice: " ++ e)%string)
      else match hex_decode paymentHash with
      | None => Err (LookupError "invalid payment hash"%string)
      | Some hashBytes =>
          match doJSON decode_invoice (get ("/v1/invoice/" ++ base64url_EncodeToString hashBytes)%string) with
          | Ok resp => converted (lndInvoiceToInvoice resp)
          | Err e => if isInvoiceLookupNotFound e then Err ErrInvoiceNotFound else Err (LookupError ("lookup invoice: " ++ e)%string)
          end
      end
  end.

(** The settled invoices of a stream, until it ends. *)
Fixpoint stream_invoices (lines : list string) : list Invoice :=
  match lines with
  | [] => []
  | l :: r =>
      if str_empty l then stream_invoices r
      else match decode_stream_invoice l with
      | None => []
      | Some lnd =>
          if String.eqb (li_State lnd) "SETTLED"
          then match lndInvoiceToInvoice lnd with Ok inv => inv :: stream_invoices r | Err _ => [] end
          else stream_invoices r
      end
  end.
Definition subscribeLoop (x : exchange) : list Invoice :=
  match x with
  | NoAnswer _ _ => []
  | Answer StatusCode body _ => if negb (StatusCode =? 200) then [] else stream_invoices (scan_lines subscribe_buffer "" body).1
  end.
(** One stream after the other, each from what LND settles from then on. *)
Definition SubscribeInvoices (streams : list exchange) : list Invoice := flat_map subscribeLoop streams.

(** ** Paying *)
Fixpoint last_payment (last : lndPayment) (lines : list string) : lndPayment :=
  match lines with
  | [] => last
  | l :: r => if str_empty l then last_payment last r else last_payment (default last (decode_payment l)) r
  end.
Definition payment_result (p : lndPayment) : PaymentResult :=
  let fee := default 0 (Sscanf_d (lp_FeeSat p)) in
  let hash := base64ToHex (lp_PaymentHash p) in
  if String.eqb (lp_Status p) "SUCCEEDED" then mkPayResult hash PaymentSucceeded fee ""
  else if String.eqb (lp_Status p) "FAILED" then
    mkPayResult hash PaymentFailed fee (if str_empty (lp_FailureReason p) then "payment failed" else lp_FailureReason p)
  else if String.eqb (lp_Status p) "IN_FLIGHT" then mkPayResult hash PaymentInFlight fee ""
  else mkPayResult hash PaymentFailed fee ("unexpected status: " ++ lp_Status p).
Definition sendPaymentV2 (x : exchange) : keysend_reply :=
  match x with
  | NoAnswer timeout msg => if timeout then KsContext else KsError ("send payment: " ++ msg)
  | Answer StatusCode body e =>
      if negb (StatusCode =? 200) then KsError ("send payment: HTTP " ++ show_Z StatusCode ++ ": " ++ body)
      else
        let '(lines, too_long) := scan_lines MaxScanTokenSize "" body in
        if too_long then KsError "payment stream: bufio.Scanner: token too long"
        else match e with
        | ReadTimeout => KsContext
        | ReadBroken => KsError "payment stream: unexpected EOF"
        | EndOfBody => KsResult (payment_result (last_payment no_payment lines))
        end
  end.

(** What is asked of /v2/router/send *)
Record send_request := mkSend { se_Dest : string; se_Amount : Z; se_FeeLimit : Z; se_Preimage : string }.
Definition fee_limit (configured : Z) : Z := if configured <=? 0 then 100 else configured.
(** [preimage]: what the random source gives, in hex; [net]: what LND answers. *)
Definition Keysend (feeLimitSat : Z) (preimage : option string) (net : send_request -> exchange) (destPubkey : string) (amountSats : Z) : keysend_reply :=
  match hex_decode destPubkey with
  | None => KsError "invalid dest pubkey"
  | Some destBytes =>
      match preimage with
      | None => KsError "generate keysend preimage"
      | Some preimageHex =>
          match hex_decode preimageHex with
          | None => KsError "decode keysend preimage"
          | Some preimageBytes =>
              sendPaymentV2 (net (mkSend (base64_EncodeToString destBytes) amountSats feeLimitSat (base64_EncodeToString preimageBytes)))
          end
      end
  end.
(** The amount is the invoice's: the one given is not sent. *)
Record pay_request := mkPayRequest { pq_PaymentRequest : string; pq_FeeLimit : Z }.
Definition SendPayment (feeLimitSat : Z) (net : pay_request -> exchange) (paymentRequest : string) (amountSats : Z) : keysend_reply :=
  sendPaymentV2 (net (mkPayRequest paymentRequest feeLimitSat)).
End lnd.

(** ** Hashes *)
Definition in_alphabet (c : ascii) : bool := match b64_value c with Some _ => true | None => false end.
Fixpoint all_chars (p : ascii -> bool) (s : string) : bool := match s with EmptyString => true | String c r => p c && all_chars p r end.
Lemma alphabet_pad c : in_alphabet c = true -> (byte_val c =? 61) = false /\ (byte_val c =? 10) = false /\ (byte_val c =? 13) = false.
Proof. unfold in_alphabet, b64_value. intros Hc. destruct (byte_val c =? 61) eqn:E1; [|destruct (byte_val c =? 10) eqn:E2; [|by destruct (byte_val c =? 13) eqn:E3; [apply Z.eqb_eq in E3; rewrite E3 in Hc|]]];
  [apply Z.eqb_eq in E1; rewrite E1 in Hc; done|apply Z.eqb_eq in E2; rewrite E2 in Hc; done]. Qed.
Lemma strip_alphabet s : all_chars in_alphabet s = true -> strip_newlines s = s.
Proof.
  induction s as [|c r IH]; [done|]. cbn [all_chars strip_newlines]. intros [Hc Hr]%andb_true_iff. destruct (alphabet_pad c Hc) as (_ & -> & ->).
  cbn [orb]. by rewrite IH.
Qed.
Lemma alphabet_value c : in_alphabet c = true -> exists v, b64_value c = Some v.
Proof. unfold in_alphabet. destruct (b64_value c) as [v|]; [by exists v|done]. Qed.
(** Any text of the alphabet, of whole quadruples, is base64 of something. *)
Lemma alphabet_decodes n : forall s, String.length s = (4 * n)%nat -> all_chars in_alphabet s = true -> exists d, decode_quads s = Some d /\ String.length d = (3 * n)%nat.
Proof.
  induction n as [|n IH]; intros s Hl Hs; [destruct s; [by exists ""%string|done]|].
  destruct s as [|a [|b [|c [|d r]]]]; try (cbn in Hl; lia). cbn [all_chars] in Hs.
  apply andb_true_iff in Hs as [Ha Hs]. apply andb_true_iff in Hs as [Hb Hs]. apply andb_true_iff in Hs as [Hc Hs]. apply andb_true_iff in Hs as [Hd Hs].
  destruct (IH r) as (x & Hx & Hlx); [cbn in Hl; lia|done|].
  destruct (alphabet_value _ Ha) as [va Hva], (alphabet_value _ Hb) as [vb Hvb], (alphabet_value _ Hc) as [vc Hvc], (alphabet_value _ Hd) as [vd Hvd].
  destruct (alphabet_pad c Hc) as (Hpc & _ & _), (alphabet_pad d Hd) as (Hpd & _ & _).
  cbn [decode_quads]. rewrite Hva, Hvb, Hpc, Hpd, Hvc, Hvd, Hx. eexists. split; [reflexivity|]. cbn [String.length]. lia.
Qed.
Lemma hex_in_alphabet c : is_Some (hex_value c) -> in_alphabet c = true.
Proof. intros [v Hv]. revert Hv. destruct c as [[] [] [] [] [] [] [] []]; by vm_compute. Qed.

(** A payment's hash, which LND gives in hex, is taken for base64: what is recorded
    for it is 96 characters of something else. *)
Theorem hex_hash_garbled (h : string) (Hlen : String.length h = 64%nat) (Hhex : all_chars (fun c => match hex_value c with Some _ => true | None => false end) h = true) :
  String.length (base64ToHex h) = 96%nat /\ base64ToHex h <> h.
Proof.
  assert (all_chars in_alphabet h = true) as Ha.
  { clear Hlen. induction h as [|c r IH]; [done|]. cbn [all_chars] in *. apply andb_true_iff in Hhex as [Hc Hr]. rewrite IH by done.
    rewrite hex_in_alphabet; [done|]. by destruct (hex_value c). }
  destruct (alphabet_decodes 16 h Hlen Ha) as (d & Hd & Hl).
  assert (String.length (base64ToHex h) = 96%nat) as Hn by (unfold base64ToHex, base64_DecodeString; rewrite strip_alphabet, Hd by done; rewrite hex_encode_length, Hl; done).
  split; [done|]. intros He. rewrite He, Hlen in Hn. done.
Qed.
(** An invoice's hash, which LND gives in base64, is right. *)
Lemma invoice_hash d : base64ToHex (base64_EncodeToString d) = hex_encode d.
Proof. unfold base64ToHex. by rewrite base64_roundtrip. Qed.

(** ** Payouts through LND *)
(** One attempt to pay: the preimage drawn, LND's answer, and whether the node got
    the money. *)
Record attempt := mkAttempt { at_preimage : option string; at_net : send_request -> exchange; at_delivered : bool }.
Section payouts.
Context `{LndJson} (feeLimitSat : Z) (dest : Z -> string) (sats : Z -> Z).
Definition attempt_reply (a : attempt) (id : Z) : keysend_reply := Keysend feeLimitSat (at_preimage a) (at_net a) (dest id) (sats id).
Definition lnd_env (cancelled : Z -> bool) (attempts : Z -> attempt) : pay_env := mkEnv cancelled (fun id => attempt_reply (attempts id) id).

(** The last update of an answer that was read whole *)
Definition final_update (x : exchange) : option lndPayment :=
  match x with
  | Answer StatusCode body EndOfBody =>
      let '(lines, too_long) := scan_lines MaxScanTokenSize "" body in
      if (StatusCode =? 200) && negb too_long then Some (last_payment no_payment lines) else None
  | _ => None
  end.
(** What LND says is so: nothing is delivered that it was not asked for, refused with
    an HTTP error, or finally reported as failed. *)
Record truthful (a : attempt) (id : Z) : Prop := {
  tr_asked : at_delivered a = true -> is_Some (hex_decode (dest id)) /\ is_Some (at_preimage a ≫= hex_decode);
  tr_answer q : at_delivered a = true ->
    match at_net a q with
    | NoAnswer _ _ => True
    | Answer StatusCode _ _ => StatusCode = 200 /\ forall p, final_update (at_net a q) = Some p -> lp_Status p <> "FAILED"%string
    end
}.
(** The exchange ends in a timeout, or is read whole and ends with a status. *)
Definition conclusive (x : exchange) : Prop :=
  match x with
  | NoAnswer timeout _ => timeout = true
  | Answer StatusCode body e =>
      StatusCode = 200 -> (scan_lines MaxScanTokenSize "" body).2 = false /\ e <> ReadBroken /\
      forall p, final_update x = Some p -> lp_Status p ∈ ["SUCCEEDED"; "FAILED"; "IN_FLIGHT"]%string
  end.
Lemma delivered_open a id : truthful a id -> (forall q, conclusive (at_net a q)) -> at_delivered a = true -> outcome_open (attempt_reply a id) = true.
Proof.
  intros Ht Hc Hd. destruct (tr_asked _ _ Ht Hd) as [[db Hdb] [pb Hpb]]. unfold attempt_reply, Keysend. rewrite Hdb.
  destruct (at_preimage a) as [ph|] eqn:Hph; [|discriminate Hpb]. cbn in Hpb. rewrite Hpb. set (q := mkSend _ _ _ _).
  specialize (Hc q). pose proof (tr_answer _ _ Ht q Hd) as Ha. destruct (at_net a q) as [tm msg|code body e]; [cbn in *; by rewrite Hc|].
  cbn [conclusive] in Hc. destruct Ha as [-> Hf]. destruct (Hc eq_refl) as (Hs & He & Hst). cbn [final_update sendPaymentV2] in *.
  destruct (scan_lines MaxScanTokenSize "" body) as [lines tl]. cbn [snd] in Hs. subst tl. cbn [negb andb Z.eqb Pos.eqb] in *.
  destruct e; [|done|done]. specialize (Hf _ eq_refl). specialize (Hst _ eq_refl). unfold outcome_open, payment_result.
  rewrite !elem_of_cons in Hst. destruct Hst as [Hs|[Hs|[Hs|Hn]]]; [by rewrite Hs|done|by rewrite Hs|by apply elem_of_nil in Hn].
Qed.

Lemma send_replies env now id node amount db r db' cs : sendPayout env now id node amount db = (r, db', cs) -> Forall (fun c => call_reply c = env_keysend env (call_payout c)) cs.
Proof.
  unfold sendPayout. destruct (env_cancelled env id); [by intros [= _ _ <-]|]. destruct (MarkPayoutInFlight now id db) as [[u|e] db1]; [|by intros [= _ _ <-]].
  intros [= _ <-]. by repeat constructor.
Qed.
Lemma pay_replies env now purchased entries : forall committed res db res' db' cs, pay_loop env now purchased committed entries res db = (res', db', cs) ->
  Forall (fun c => call_reply c = env_keysend env (call_payout c)) cs.
Proof.
  induction entries as [|entry rest IH]; cbn [pay_loop]; intros committed res db res' db' cs Hr; [by injection Hr as _ _ <-|].
  destruct (purchased <? _); [by injection Hr as _ _ <-|]. destruct (InsertPayout now _ _ _ db) as [[pid|e] db1]; [|by apply IH in Hr].
  destruct (sendPayout _ _ _ _ _ _) as [[r db2] cs1] eqn:Hs. destruct (pay_loop env now purchased _ rest _ db2) as [[res2 db3] cs2] eqn:Hl.
  injection Hr as _ _ <-. apply Forall_app. split; [by eapply send_replies|by eapply IH].
Qed.
Lemma retry_replies env now ps : forall s f db s' f' db' cs, retry_loop env now ps s f db = (s', f', db', cs) ->
  Forall (fun c => call_reply c = env_keysend env (call_payout c)) cs.
Proof.
  induction ps as [|p rest IH]; cbn [retry_loop]; intros s f db s' f' db' cs Hr; [by injection Hr as _ _ _ <-|].
  destruct (MarkPayoutRetrying now (p_id p) db) as [[u|e] db1]; [|by apply IH in Hr].
  destruct (sendPayout _ _ _ _ _ _) as [[r db2] cs1] eqn:Hs. destruct (retry_loop _ _ _ _ _ _) as [[[s2 f2] db3] cs2] eqn:Hl.
  injection Hr as _ _ _ <-. apply Forall_app. split; [by eapply send_replies|by eapply IH].
Qed.
Lemma run_replies e env range now from to db res db' cs : RunSettlement e env range now from to db = (res, db', cs) ->
  Forall (fun c => call_reply c = env_keysend env (call_payout c)) cs.
Proof.
  unfold RunSettlement, executePayouts. destruct (create_entries _ _ _ _ _ _) as [res1 db1].
  destruct (TotalPurchasedSats db1); [|by intros [= _ _ <-]]. destruct (TotalCommittedPayoutSats db1); [|by intros [= _ _ <-]].
  destruct (pay_loop _ _ _ _ _ _ _) as [[res2 db2] cs2] eqn:Hl. intros [= _ _ <-]. by eapply pay_replies.
Qed.

(** The payouts whose node got the money in these Keysends *)
Definition deliveries (attempts : Z -> attempt) (cs : list call) : list Z :=
  call_payout <$> bfilter (fun c => at_delivered (attempts (call_payout c))) cs.
(** The hub's life with LND, and what was delivered in it. *)
Inductive lnd_step : DB * list call * list Z -> DB * list call * list Z -> Prop :=
| ls_run e cancelled attempts range now from to db tr dl res db' cs :
    (forall id, truthful (attempts id) id) -> (forall id q, conclusive (at_net (attempts id) q)) ->
    RunSettlement e (lnd_env cancelled attempts) range now from to db = (res, db', cs) ->
    lnd_step (db, tr, dl) (db', tr ++ cs, dl ++ deliveries attempts cs)
| ls_retry cancelled attempts now db tr dl s f db' cs :
    (forall id, truthful (attempts id) id) -> (forall id q, conclusive (at_net (attempts id) q)) ->
    RetryFailedPayouts (lnd_env cancelled attempts) now db = (s, f, db', cs) ->
    lnd_step (db, tr, dl) (db', tr ++ cs, dl ++ deliveries attempts cs)
| ls_store o db tr dl :
    payouts (run_op o db) = payouts db -> lnd_step (db, tr, dl) (run_op o db, tr, dl).
Definition times (id : Z) (dl : list Z) : nat := length (bfilter (fun x => x =? id) dl).

Lemma deliveries_open cancelled attempts id cs : (forall id, truthful (attempts id) id) -> (forall id q, conclusive (at_net (attempts id) q)) ->
  Forall (fun c => call_reply c = env_keysend (lnd_env cancelled attempts) (call_payout c)) cs -> (times id (deliveries attempts cs) <= open_calls id cs)%nat.
Proof.
  intros Ht Hc Hall. unfold times, deliveries, open_calls, bfilter. induction Hall as [|c cs Hr Hall IH]; [done|].
  cbn [List.filter]. destruct (at_delivered (attempts (call_payout c))) eqn:Hd.
  - rewrite fmap_cons. cbn [List.filter]. rewrite Hr. cbn [lnd_env env_keysend]. rewrite (delivered_open _ _ (Ht _) (Hc _) Hd), andb_true_r.
    destruct (call_payout c =? id); cbn [length]; lia.
  - destruct (_ && _); cbn [length]; lia.
Qed.
Lemma lnd_engine s s' : rtc lnd_step s s' -> rtc engine_step s.1 s'.1 /\
  ((forall id, (times id s.2 <= open_calls id s.1.2)%nat) -> forall id, (times id s'.2 <= open_calls id s'.1.2)%nat).
Proof.
  induction 1 as [s|s s1 s2 Hstep Hrun [IH1 IH2]]; [by split|].
  assert (forall attempts cs cancelled tr dl id, (forall id, truthful (attempts id) id) -> (forall id q, conclusive (at_net (attempts id) q)) ->
    Forall (fun c => call_reply c = env_keysend (lnd_env cancelled attempts) (call_payout c)) cs ->
    (times id dl <= open_calls id tr)%nat -> (times id (dl ++ deliveries attempts cs) <= open_calls id (tr ++ cs))%nat) as Hadd.
  { intros attempts cs cancelled tr dl id Ht Hc Hall Hle. destruct (calls_app id tr cs) as [-> _]. unfold times in *. rewrite bfilter_app, length_app.
    pose proof (deliveries_open cancelled attempts id cs Ht Hc Hall). unfold times in *. lia. }
  destruct Hstep; cbn [fst snd] in *.
  - split; [eapply rtc_l; [by eapply es_run|done]|]. intros Hle. apply IH2. intros id. eapply Hadd; [done|done|by eapply run_replies|done].
  - split; [eapply rtc_l; [by eapply es_retry|done]|]. intros Hle. apply IH2. intros id. eapply Hadd; [done|done|by eapply retry_replies|done].
  - split; [eapply rtc_l; [by eapply es_store|done]|]. exact IH2.
Qed.

(** C30: with LND as the Lightning node no payout is delivered twice, as long as every
    exchange with LND is conclusive. Over the hub's whole life, if what LND reports
    is so, the node of a payout gets the money at most once, however settlement and
    retries are repeated, provided that every exchange either got no answer because
    of a timeout, or was refused with an HTTP error, or was read to its end, with no
    line longer than the scanner takes, its last update being a success, a failure
    or still in flight. What this rules out pays twice: a request or an answer lost
    to anything but a timeout ([broken_answer_pays_twice]), an answer of which the
    connection broke or a line was too long, and a stream that ends before a status
    ([silent_stream_pays_twice]). *)
Theorem lnd_pays_once db tr dl (Hrun : rtc lnd_step (empty_db, [], []) (db, tr, dl)) : forall id, (times id dl <= 1)%nat.
Proof.
  intros id. destruct (lnd_engine _ _ Hrun) as [He Hle]. cbn [fst snd] in *. specialize (Hle (fun _ => le_n 0) id).
  pose proof (open_once db tr id He). lia.
Qed.
End payouts.

(** ** Examples *)
(** The text of an update is its status. *)
#[export] Instance toy_lnd_json : LndJson := {|
  decode_add_invoice s := Ok (s, "lnbc"%string);
  decode_invoice s := Err "unexpected end of JSON input"%string;
  decode_stream_invoice s := None;
  decode_payment s := Some (mkLndPayment "" s "" "");
  decode_error s := (""%string, ""%string)
|}.
Definition said (body : string) (delivered : bool) : attempt := mkAttempt (Some "0102") (fun _ => Answer 200 body EndOfBody) delivered.
Definition lost (timeout delivered : bool) : attempt := mkAttempt (Some "0102") (fun _ => NoAnswer timeout "connection reset by peer") delivered.
Definition succeeded : string := ("IN_FLIGHT" ++ String "010" ("SUCCEEDED" ++ String "010" ""))%string.
(** The first payout is delivered and said to be, the second is delivered after the
    client gave up. *)
Definition toy_attempts (id : Z) : attempt := if id =? 1 then said succeeded true else lost true true.
Definition toy_again (id : Z) : attempt := said succeeded true.
Definition toy_lnd (attempts : Z -> attempt) : pay_env := lnd_env 100 (fun _ => "02ab"%string) (fun _ => 40) (fun _ => false) attempts.
Definition lnd_run (attempts : Z -> attempt) : outcome SettlementResult * DB * list call :=
  RunSettlement demo_engine (toy_lnd attempts) demo_range "t2" "t0" "t5" demo_hub.
Definition lnd_retry (attempts again : Z -> attempt) : Z * Z * DB * list call := RetryFailedPayouts (toy_lnd again) "t3" (lnd_run attempts).1.2.
Definition delivered_in (attempts again : Z -> attempt) : list Z :=
  ([] ++ deliveries attempts (lnd_run attempts).2) ++ deliveries again (lnd_retry attempts again).2.
Strategy expand [demo_ops demo_hub lnd_run lnd_retry delivered_in].

Lemma said_fine body id : (forall p, final_update (Answer 200 body EndOfBody) = Some p -> lp_Status p = "SUCCEEDED"%string) -> (scan_lines MaxScanTokenSize "" body).2 = false ->
  truthful (fun _ => "02ab"%string) (said body true) id /\ forall q, conclusive (at_net (said body true) q).
Proof.
  intros Hs Hl. split; [split; [done|]; intros q _; split; [done|]; intros p Hp; by rewrite (Hs p Hp)|].
  intros q _. split; [exact Hl|]. split; [done|]. intros p Hp. rewrite (Hs p Hp). by left.
Qed.
Lemma toy_said id : truthful (fun _ => "02ab"%string) (said succeeded true) id /\ forall q, conclusive (at_net (said succeeded true) q).
Proof. apply said_fine; [|vm_compute; reflexivity]. intros p Hp. vm_compute in Hp. by injection Hp as <-. Qed.
Lemma toy_lost id : truthful (fun _ => "02ab"%string) (lost true true) id /\ forall q, conclusive (at_net (lost true true) q).
Proof. by split. Qed.
Lemma lnd_pays_once_witness : delivered_in toy_attempts toy_again = [1; 2] /\ (times 1 (delivered_in toy_attempts toy_again) <= 1)%nat.
Proof.
  split; [vm_compute; reflexivity|].
  refine (lnd_pays_once 100 (fun _ => "02ab"%string) (fun _ => 40) (lnd_retry toy_attempts toy_again).1.2
    (([] ++ (lnd_run toy_attempts).2) ++ (lnd_retry toy_attempts toy_again).2) (delivered_in toy_attempts toy_again) _ 1).
  transitivity (demo_hub, @nil call, @nil Z).
  - assert (forall os db tr dl, Forall (fun o => forall d, payouts (run_op o d) = payouts d) os ->
      rtc (lnd_step 100 (fun _ => "02ab"%string) (fun _ => 40)) (db, tr, dl) (run_ops os db, tr, dl)) as Hstore.
    { induction os as [|o os IH]; intros db tr dl Hall; [done|]. apply Forall_cons in Hall as [Ho Hall]. eapply rtc_l; [by apply ls_store, Ho|]. by apply IH. }
    apply Hstore. exact demo_ops_frame.
  - eapply rtc_l; [|apply rtc_once].
    + refine (ls_run 100 (fun _ => "02ab"%string) (fun _ => 40) demo_engine (fun _ => false) toy_attempts demo_range "t2" "t0" "t5" demo_hub [] [] _ _ _ _ _ (eta3 (lnd_run toy_attempts)));
        intros id; unfold toy_attempts; destruct (id =? 1); first [exact (proj1 (toy_said id))|exact (proj2 (toy_said id))|exact (proj1 (toy_lost id))|exact (proj2 (toy_lost id))].
    + refine (ls_retry 100 (fun _ => "02ab"%string) (fun _ => 40) (fun _ => false) toy_again "t3" (lnd_run toy_attempts).1.2 _ _ _ _ _ _ _ _ (eta4 (lnd_retry toy_attempts toy_again))); intros id; [exact (proj1 (toy_said id))|exact (proj2 (toy_said id))].
Defined.

(** The connection breaks after LND took the order: the payout counts as failed and
    is sent again, with another preimage. *)
Example broken_answer_pays_twice :
  times 2 (delivered_in (fun id => if id =? 1 then said succeeded true else lost false true) toy_again) = 2%nat.
Proof. vm_compute. reflexivity. Qed.
(** So does a stream that ends before it said anything. *)
Example silent_stream_pays_twice :
  times 2 (delivered_in (fun id => if id =? 1 then said succeeded true else said "" true) toy_again) = 2%nat.
Proof. vm_compute. reflexivity. Qed.
