(* ===== verification/Bandwidth.v ===== *)
(** * Bandwidth: buying tokens from the client's side
    (src/internal/client/bandwidth.go; GenerateTokenSecret of
    src/internal/credentials/blind.go)

    Purchase, waiting for the payment, and redemption, against the endpoints of
    Payments over the hub's ledger. What HTTP loses is an argument, and so is the
    randomness. *)
From S2P Require Import Prelude Sql Schema Credentials Repository Ledger Payments.

(** What becomes of a request. *)
Inductive fate := Answered | LostRequest | LostAnswer.
Definition over_http {R A H} (f : fate) (handler : R -> H -> reply A * H) (r : R) (h : H) : option (reply A) * H :=
  match f with
  | LostRequest => (None, h)
  | LostAnswer => (None, (handler r h).2)
  | Answered => let '(a, h') := handler r h in (Some a, h')
  end.
(** An error body's text, of at most 1024 bytes read *)
Definition readAPIError (code : Z) (msg : string) : string := ("hub API error (" ++ show_Z code ++ "): " ++ msg)%string.
(** [want]: the status a success has. *)
Definition api_answer {A} (lost : string) (want : Z) (a : option (reply A)) : result string A :=
  match a with
  | None => Err lost
  | Some (Fault code msg) => Err (readAPIError code msg)
  | Some (Reply code body) => if code =? want then Ok body else Err (readAPIError code "")
  end.

(** ** Buying and waiting *)
Definition Purchase {H} (post : string -> H -> option (reply PurchaseResponse) * H) (tierID : string) (h : H) : result string PurchaseResponse * H :=
  let '(a, h') := post tierID h in (api_answer "purchase request" StatusCreated a, h').
Definition GetPurchaseStatus (get : string -> option (reply PurchaseStatusResponse)) (paymentHash : string) : result string PurchaseStatusResponse :=
  api_answer "status request" StatusOK (get paymentHash).
(** [polls]: what each poll finds, until the context ends. *)
Fixpoint WaitForSettlement (polls : list (string -> option (reply PurchaseStatusResponse))) (paymentHash : string) : result string PurchaseStatusResponse :=
  match polls with
  | [] => Err "context deadline exceeded"%string
  | get :: rest =>
      match GetPurchaseStatus get paymentHash with
      | Err e => Err e
      | Ok status =>
          match ps_Status status with
          | InvSettled => Ok status
          | InvExpired => Err "invoice expired"%string
          | _ => WaitForSettlement rest paymentHash
          end
      end
  end.

(** ** Redeeming *)
Record RedeemResult := mkRedeemResult { rd_Tokens : list BlindToken; rd_BytesPerToken : Z; rd_TokensRedeemed : Z; rd_TokensRemaining : Z }.
Record pending := mkPending { pd_secret : string; pd_unblinder : string; pd_blinded : string }.
Section redeem.
Context `{BlindScheme}.
(** [secret]: what rand.Read gives; [rnd]: what blinding draws. *)
Definition GenerateTokenSecret (secret : option string) : result string string :=
  match secret with Some s => Ok s | None => Err "generate token secret"%string end.
Fixpoint prepare (pub : PublicKey) (secret : nat -> option string) (rnd : nat -> string) (i n : nat) : result string (list pending) :=
  match n with
  | O => Ok []
  | S m =>
      match GenerateTokenSecret (secret i) with
      | Err e => Err e
      | Ok s =>
          match BlindTokenSecret pub s (rnd i) with
          | None => Err "blind secret"%string
          | Some (blinded, unblinder) => rest ← prepare pub secret rnd (S i) m; Ok (mkPending s unblinder blinded :: rest)
          end
      end
  end.
Fixpoint assemble (pub : PublicKey) (keyID : string) (sigs : list string) (ps : list pending) : result string (list BlindToken) :=
  match sigs, ps with
  | x :: sigs, p :: ps =>
      match hex_decode x with
      | None => Err "decode signature"%string
      | Some blindSig =>
          rest ← assemble pub keyID sigs ps;
          Ok (mkBlindToken BlindTokenVersion keyID (pd_secret p) (UnblindSignature pub blindSig (pd_unblinder p)) :: rest)
      end
  | _, _ => Ok []
  end.
Definition redeem_request (preimage keyID : string) (ps : list pending) (nonce : string) : RedeemRequest :=
  mkRedeem preimage keyID ((fun p => hex_encode (pd_blinded p)) <$> ps) nonce.
Definition RedeemTokens {H} (pub : PublicKey) (keyID : string) (secret : nat -> option string) (rnd : nat -> string)
    (post : RedeemRequest -> H -> option (reply RedeemResponse) * H) (preimage : string) (count : Z) (nonce : string) (h : H) : result string RedeemResult * H :=
  if count <=? 0 then (Err "count must be positive"%string, h)
  else match prepare pub secret rnd 0 (Z.to_nat count) with
  | Err e => (Err e, h)
  | Ok ps =>
      let '(a, h') := post (redeem_request preimage keyID ps nonce) h in
      (match api_answer "redeem request" StatusOK a with
       | Err e => Err e
       | Ok resp =>
           if negb (Z.of_nat (length (rr_BlindSignatures resp)) =? count) then Err "unexpected number of signatures"%string
           else
             match assemble pub keyID (rr_BlindSignatures resp) ps with
             | Err e => Err e
             | Ok tokens => Ok (mkRedeemResult tokens (rr_BytesPerToken resp) (rr_TokensRedeemed resp) (rr_TokensRemaining resp))
             end
       end, h')
  end.

(** The hub *)
Definition post_redeem keys (now : string) (f : fate) : RedeemRequest -> DB -> option (reply RedeemResponse) * DB :=
  over_http f (fun req db => handleRedeem keys now POST (Some req) db).
Definition get_status (db : DB) (paymentHash : string) : option (reply PurchaseStatusResponse) := Some (handlePurchaseStatus GET paymentHash db).
End redeem.

(** ** Waiting *)
(** What polling reports is what the hub's ledger has: settled when it finds the
    invoice settled before anything else ended the wait. *)
Lemma wait_settled dbs paymentHash r : WaitForSettlement (get_status <$> dbs) paymentHash = Ok r ->
  exists db inv, db ∈ dbs /\ GetInvoice paymentHash db = Ok inv /\ i_status inv = InvSettled /\ ps_AmountSats r = i_amount_sats inv.
Proof.
  induction dbs as [|db dbs IH]; [done|]. cbn [fmap list_fmap WaitForSettlement]. unfold GetPurchaseStatus, get_status, handlePurchaseStatus at 1.
  destruct (negb _); [done|]. destruct (str_empty paymentHash); [done|]. destruct (GetInvoice paymentHash db) as [inv|] eqn:Hg; [|done].
  cbn. destruct (i_status inv) eqn:Hs; cbn [ps_Status].
  - intros Hw. destruct (IH Hw) as (d & i & Hd & Hrest). exists d, i. split; [by right|done].
  - intros [= <-]. exists db, inv. split_and!; [by left|done|done|done].
  - done.
Qed.

(** ** The tokens *)
(** RSA blind signatures. [fits]: as a number, the message is above 0 and below the
    modulus, as any full-domain hash of 1536 bits is for the keys of 2048 bits that
    hubs draw, 0 apart; above the modulus no signature verifies. A message that fits,
    blinded, is signed, and the signature, unblinded, verifies on the message. *)
Class BlindLaws `{BlindScheme} := {
  key_pair : PrivateKey -> PublicKey -> Prop;
  fits : PublicKey -> string -> Prop;
  law_sign sk pk m r b u : key_pair sk pk -> fits pk m -> rsablind_Blind pk m r = Some (b, u) -> is_Some (rsablind_BlindSign sk b);
  law_unblind sk pk m r b u s : key_pair sk pk -> fits pk m -> rsablind_Blind pk m r = Some (b, u) -> rsablind_BlindSign sk b = Some s ->
    rsablind_Verify pk m (rsablind_Unblind pk s u) = true /\ rsablind_Unblind pk s u <> ""%string
}.
Section tokens.
Context `{BlindLaws}.
Lemma prepare_spec pub secret rnd n : forall i ps, prepare pub secret rnd i n = Ok ps ->
  length ps = n /\ Forall (fun p => (exists i, secret i = Some (pd_secret p)) /\ exists r, BlindTokenSecret pub (pd_secret p) r = Some (pd_blinded p, pd_unblinder p)) ps.
Proof.
  induction n as [|n IH]; intros i ps; cbn [prepare]; [by intros [= <-]|]. unfold GenerateTokenSecret. destruct (secret i) as [s|] eqn:Hs; [|done].
  destruct (BlindTokenSecret pub s (rnd i)) as [[b u]|] eqn:Hb; [|done]. destruct (prepare pub secret rnd (S i) n) as [rest|] eqn:Hp; [|done].
  intros [= <-]. destruct (IH _ _ Hp) as [Hl Hall]. split; [cbn; lia|]. constructor; [|done]. cbn. split; [by exists i|by exists (rnd i)].
Qed.
Lemma decode_encoded (ps : list pending) : decode_all ((fun p => hex_encode (pd_blinded p)) <$> ps) = Some (pd_blinded <$> ps).
Proof. induction ps as [|p ps IH]; [done|]. rewrite fmap_cons. cbn [decode_all]. by rewrite hex_decode_encode, IH. Qed.
Lemma sign_loop_forall sk msgs : forall sigs, sign_loop sk msgs = Ok sigs -> Forall2 (fun m s => rsablind_BlindSign sk m = Some s) msgs sigs.
Proof.
  induction msgs as [|m msgs IH]; intros sigs; cbn [sign_loop]; [by intros [= <-]|]. destruct (rsablind_BlindSign sk m) as [s|] eqn:Hs; [|done].
  destruct (sign_loop sk msgs) as [ss|] eqn:Hl; [|done]. intros [= <-]. constructor; [done|by apply IH].
Qed.
Lemma assemble_spec keys keyID key sk ps : keys !! keyID = Some key -> key_pair sk (dk_PublicKey key) -> str_empty keyID = false ->
  Forall (fun p => (str_empty (pd_secret p) = false /\ fits (dk_PublicKey key) (fdh_Sum (pd_secret p))) /\ exists r, BlindTokenSecret (dk_PublicKey key) (pd_secret p) r = Some (pd_blinded p, pd_unblinder p)) ps ->
  forall sigs, Forall2 (fun m s => rsablind_BlindSign sk m = Some s) (pd_blinded <$> ps) sigs ->
  exists tokens, assemble (dk_PublicKey key) keyID (hex_encode <$> sigs) ps = Ok tokens /\ bt_TokenSecret <$> tokens = pd_secret <$> ps /\
    Forall (fun t => BlindVerifier_Verify keys (Some t) = Ok tt /\ bt_KeyID t = keyID) tokens.
Proof.
  intros Hk Hp He Hall. induction Hall as [|p ps [[Hne Hfit] [r Hr]] Hall IH]; intros sigs Hs; [apply Forall2_nil_inv_l in Hs as ->; by exists []|].
  rewrite fmap_cons in Hs. apply Forall2_cons_inv_l in Hs as (s & ss & Hsig & Hs & ->). destruct (IH ss Hs) as (ts & Ha & Hm & Hv).
  destruct (law_unblind _ _ _ _ _ _ _ Hp Hfit Hr Hsig) as [Hver Hnn]. rewrite fmap_cons. cbn [assemble]. rewrite hex_decode_encode, Ha. cbn [mbind result_mbind].
  eexists. split; [reflexivity|]. split; [by rewrite !fmap_cons, Hm|]. constructor; [|done]. split; [|done].
  unfold BlindVerifier_Verify, UnblindSignature. cbn [bt_Version bt_KeyID bt_TokenSecret bt_Signature]. rewrite Z.eqb_refl. cbn [negb]. rewrite He, Hne, Hk, Hver.
  destruct (str_empty (rsablind_Unblind _ _ _)) eqn:Hem; [|done]. apply String.eqb_eq in Hem. by destruct Hnn.
Qed.
(** A fresh redemption that the hub accepts: it is paid for and signed. *)
Lemma sign_loop_total sk msgs : Forall (fun m => is_Some (rsablind_BlindSign sk m)) msgs -> exists sigs, sign_loop sk msgs = Ok sigs.
Proof.
  induction 1 as [|m msgs [s Hs] _ [ss IH]]; [by exists []|]. cbn [sign_loop]. rewrite Hs, IH. by eexists.
Qed.
Lemma redeem_fields_inv req h : redeem_fields req = Ok h -> (Z.of_nat (length (rq_BlindedMessages req)) =? 0) = false /\
  (MaxBlindMessagesPerRequest <? Z.of_nat (length (rq_BlindedMessages req))) = false /\ str_empty (rq_KeyID req) = false.
Proof.
  unfold redeem_fields. destruct (negb _); [done|]. destruct (hex_decode _); [|done]. destruct (str_empty (rq_Nonce req)); [done|]. destruct (64 <? _); [done|].
  destruct (_ =? 0); [done|]. destruct (_ <? _); [done|]. by destruct (str_empty (rq_KeyID req)).
Qed.
Lemma redeem_accepted keys now req h db ent key sk msgs : db_wf db -> redeem_fields req = Ok h -> GetRedemption (rq_Nonce req) db = None ->
  GetEntitlementByPaymentHash h db = Ok ent -> e_key_id ent = rq_KeyID req -> Z.of_nat (length (rq_BlindedMessages req)) <= e_tokens_remaining ent ->
  decode_all (rq_BlindedMessages req) = Some msgs -> keys !! rq_KeyID req = Some key -> dk_PrivateKey key = Some sk -> Forall (fun m => is_Some (rsablind_BlindSign sk m)) msgs ->
  exists b db' sigs, handleRedeem keys now POST (Some req) db = (Reply StatusOK b, db') /\ redeemed keys req h b now db db' /\
    Forall2 (fun m s => rsablind_BlindSign sk m = Some s) msgs sigs /\ rr_BlindSignatures b = hex_encode <$> sigs.
Proof.
  intros Hwf Hf Hg He Hid Hrem Hd Hk Hsk Ht. destruct (redeem_fields_inv _ _ Hf) as (Hn0 & Hn5 & _). pose proof (decode_all_length _ _ Hd) as Hlen.
  assert (rq_BlindedMessages req <> []) as Hne by (intros Hnil; by rewrite Hnil in Hn0).
  destruct (sign_loop_total sk msgs Ht) as [sigs Hs].
  assert (SignBlinded keys (rq_KeyID req) msgs = Ok sigs) as Hsb by (unfold SignBlinded; by rewrite Hlen, Hn0, Hn5, Hk, Hsk).
  pose proof (redeem_fresh_cases keys now req h db Hwf Hg Hne) as Hc.
  pose proof (consume_by_hash h (Z.of_nat (length msgs)) db ent Hwf ltac:(lia) He) as Hcons.
  assert (exists b db', redeem_fresh keys now req h db = (Reply StatusOK b, db') /\ rr_BlindSignatures b = hex_encode <$> sigs) as (b & db' & Hr & Hb).
  { unfold redeem_fresh. rewrite He, Hid, String.eqb_refl, Hd. cbn [negb]. destruct (ConsumeEntitlement _ _ db) as [res db1]. destruct Hcons as (_ & _ & Hcase).
    assert ((Z.of_nat (length msgs) <=? e_tokens_remaining ent) = true) as Hle by (apply Z.leb_le; lia). rewrite Hle in Hcase. destruct Hcase as [-> _].
    rewrite Hsb. do 2 eexists. split; reflexivity. }
  exists b, db', sigs. unfold handleRedeem. cbn [bool_decide]. rewrite bool_decide_true by done. cbn [negb]. rewrite Hf, Hg, Hr in *.
  split; [done|]. destruct Hc as [_ Hc]. split_and!; [done|by apply sign_loop_forall|done].
Qed.

(** C31: who paid gets tokens that nodes accept. With the preimage of a payment whose
    entitlement still has [count] tokens under the client's key, a fresh nonce,
    secrets whose hashes are below the modulus and an answer that arrives (one that
    is lost strands the tokens: [lost_answer_strands_tokens]), RedeemTokens returns [count] tokens: each with a secret
    of the client's own drawing and accepted by every verifier holding the hub's
    keys; exactly [count] tokens are taken from the entitlement, and what the
    client is told remains is what remains. *)
Theorem redeem_gives_tokens keys keyID key sk secret rnd now preimage count nonce h (db : DB) ent ps (Hwf : db_wf db)
    (Hkey : keys !! keyID = Some key) (Hsk : dk_PrivateKey key = Some sk) (Hpair : key_pair sk (dk_PublicKey key))
    (Hcount : 0 < count)
    (Hps : prepare (dk_PublicKey key) secret rnd 0 (Z.to_nat count) = Ok ps) (Hsecret : forall i s, secret i = Some s -> str_empty s = false /\ fits (dk_PublicKey key) (fdh_Sum s))
    (Hreq : redeem_fields (redeem_request preimage keyID ps nonce) = Ok h) (Hnonce : GetRedemption nonce db = None)
    (Hent : GetEntitlementByPaymentHash h db = Ok ent) (Hid : e_key_id ent = keyID) (Hrem : count <= e_tokens_remaining ent) :
  exists r db', RedeemTokens (dk_PublicKey key) keyID secret rnd (post_redeem keys now Answered) preimage count nonce db = (Ok r, db') /\
    Z.of_nat (length (rd_Tokens r)) = count /\ bt_TokenSecret <$> rd_Tokens r = pd_secret <$> ps /\
    Forall (fun t => BlindVerifier_Verify keys (Some t) = Ok tt) (rd_Tokens r) /\
    GetEntitlementByPaymentHash h db' = Ok (consume_row count ent) /\ rd_TokensRemaining r = e_tokens_remaining ent - count.
Proof.
  destruct (prepare_spec _ _ _ _ _ _ Hps) as [Hlen Hall].
  assert (length (rq_BlindedMessages (redeem_request preimage keyID ps nonce)) = Z.to_nat count) as Hl by (cbn; by rewrite length_fmap).
  destruct (redeem_accepted keys now (redeem_request preimage keyID ps nonce) h db ent key sk (pd_blinded <$> ps)) as (b & db' & sigs & Hr & Hred & Hsigs & Hb);
    [done|done|done|done|done|lia|apply decode_encoded|done|done| |].
  { apply Forall_fmap. eapply Forall_impl; [exact Hall|]. intros p [[i Hi] [x Hx]]. cbn.
    eapply law_sign; [exact Hpair|exact (proj2 (Hsecret _ _ Hi))|exact Hx]. }
  destruct (assemble_spec keys keyID key sk ps Hkey Hpair) with (sigs := sigs) as (tokens & Ha & Hsec & Hver);
    [by destruct (redeem_fields_inv _ _ Hreq) as (_ & _ & ?)|eapply Forall_impl; [exact Hall|]; intros p [[i Hi] Hr']; split; [by eapply Hsecret|done]|done|].
  pose proof (Forall2_length _ _ _ Hsigs) as Hls. rewrite length_fmap in Hls.
  exists (mkRedeemResult tokens (rr_BytesPerToken b) (rr_TokensRedeemed b) (rr_TokensRemaining b)), db'.
  assert (length tokens = Z.to_nat count) as Hlt by (rewrite <-(length_fmap bt_TokenSecret), Hsec, length_fmap; done).
  split; [|destruct Hred as (ent' & sigs' & He' & _ & _ & _ & -> & Hafter & _); rewrite Hent in He'; injection He' as <-; rewrite Hl, Z2Nat.id in * by lia; split_and!; try done].
  - unfold RedeemTokens. assert ((count <=? 0) = false) as -> by (apply Z.leb_gt; lia). rewrite Hps. unfold post_redeem, over_http. rewrite Hr. cbn [api_answer].
    rewrite Z.eqb_refl, Hb, length_fmap, <-Hls, Hlen, Z2Nat.id, Z.eqb_refl by lia. cbn [negb]. by rewrite Ha.
  - cbn [rd_Tokens]. rewrite Hlt. lia.
  - eapply Forall_impl; [exact Hver|]. by intros t [Ht _].
Qed.
End tokens.

(** ** Examples *)
Definition toy_pair (_ _ : unit) : Prop := True.
#[export] Instance toy_blind_laws : BlindLaws.
Proof.
  refine {| key_pair := toy_pair; fits := fun _ m => m <> ""%string |}.
  - intros sk pk m r b u _ _ _. by eexists.
  - intros sk pk m r b u s _ Hm [= <- <-] [= <-]. split; [apply String.eqb_refl|done].
Defined.
Definition toy_secret (i : nat) : option string := Some (String (ascii_of_nat (65 + i)) "123456789abcdef0123456789abcdef").
Definition toy_other_secret (i : nat) : option string := Some (String (ascii_of_nat (97 + i)) "123456789abcdef0123456789abcdef").
Definition toy_redeem_tokens (secret : nat -> option string) (f : fate) (nonce : string) (db : DB) : result string RedeemResult * DB :=
  RedeemTokens tt "key-1" secret (fun _ => "r"%string) (post_redeem toy_denoms "t5" f) toy_preimage 2 nonce db.
Definition toy_pending : list pending := match prepare tt toy_secret (fun _ => "r"%string) 0 2 with Ok ps => ps | Err _ => [] end.
Definition toy_entitlement : option EntitlementRow := match GetEntitlementByPaymentHash toy_hash_of_preimage toy_entitled with Ok e => Some e | Err _ => None end.
Definition toy_denom : DenominationKey (H:=toy_blind) := mkDenomKey (H:=toy_blind) "key-1" 100000000 (Some tt) tt.
Lemma redeem_gives_tokens_witness : exists r db', toy_redeem_tokens toy_secret Answered "n1" toy_entitled = (Ok r, db') /\
  Forall (fun t => BlindVerifier_Verify toy_denoms (Some t) = Ok tt) (rd_Tokens r) /\ rd_TokensRemaining r = 3.
Proof.
  destruct (GetEntitlementByPaymentHash toy_hash_of_preimage toy_entitled) as [ent|e] eqn:He; [|vm_compute in He; discriminate].
  assert (e_key_id ent = "key-1"%string /\ e_tokens_remaining ent = 5) as [Hk Hr] by (vm_compute in He; injection He as <-; by split).
  destruct (redeem_gives_tokens (H:=toy_blind) toy_denoms "key-1" toy_denom tt toy_secret (fun _ => "r"%string) "t5" toy_preimage 2 "n1" toy_hash_of_preimage toy_entitled ent toy_pending
    toy_entitled_wf) as (r & db' & Hrun & _ & _ & Hver & _ & Hrem); try (vm_compute; reflexivity); try done.
  - by intros i s [= <-].
  - rewrite Hr. lia.
  - exists r, db'. split; [exact Hrun|]. split; [exact Hver|]. by rewrite Hrem, Hr.
Defined.

(** The answer is lost: the two tokens are taken and their secrets with the answer.
    Repeating the request cannot recover them, since RedeemTokens draws new secrets
    and the hub refuses the nonce; with another nonce it costs two more. *)
Definition toy_lost_answer : result string RedeemResult * DB := toy_redeem_tokens toy_secret LostAnswer "n1" toy_entitled.
Definition remaining_of (db : DB) : option Z := match GetEntitlementByPaymentHash toy_hash_of_preimage db with Ok e => Some (e_tokens_remaining e) | Err _ => None end.
Definition is_error {A} (r : result string A) : bool := match r with Err _ => true | Ok _ => false end.
Example lost_answer_strands_tokens :
  is_error toy_lost_answer.1 = true /\ remaining_of toy_lost_answer.2 = Some 3 /\
  (toy_redeem_tokens toy_other_secret Answered "n1" toy_lost_answer.2).1 = Err (readAPIError StatusConflict "nonce conflict: already used with different request") /\
  is_ok (toy_redeem_tokens toy_other_secret Answered "n2" toy_lost_answer.2).1 = true /\
  remaining_of (toy_redeem_tokens toy_other_secret Answered "n2" toy_lost_answer.2).2 = Some 1.
Proof. vm_compute. by split_and!. Qed.
