(* ===== verification/HubKeys.v ===== *)
(** * HubKeys: the keys a hub keeps on disk
    (src/internal/credentials/keystore.go; loadOrGenerateDenomKey,
    loadOrGenerateCashuSeed and parseCredentialKey of src/cmd/arfl-hub/main.go)

    Loading a key or drawing it on the first run, over the device of VaultFile: its
    calls fail and its power is cut. The JSON and PEM formats of RSA keys are the
    class [KeyCodec]. *)
From S2P Require Import Prelude Sql Credentials IPPool Nip44 HostNet VaultFile ServiceNodes.

Class KeyCodec `{BlindScheme} := {
  pub_of : PrivateKey -> PublicKey;
  (** DenominationKeyFile with the PKCS #1 key in PEM *)
  key_Marshal : string -> Z -> PrivateKey -> string;
  key_Unmarshal : string -> option (string * Z * PrivateKey);
  (** MarshalPKIXPublicKey may refuse a key. *)
  pub_Marshal : string -> Z -> PublicKey -> option string;
  pub_Unmarshal : string -> option (string * Z * PublicKey)
}.
(** What is written whole is read back, and a part of a JSON object is not one. *)
Class KeyCodecLaws `{KeyCodec} := {
  law_key id n sk : ValidString id = true -> key_Unmarshal (key_Marshal id n sk) = Some (id, n, sk);
  law_key_part id n sk s : String.prefix s (key_Marshal id n sk) = true -> s <> key_Marshal id n sk -> key_Unmarshal s = None;
  law_pub id n pk t : ValidString id = true -> pub_Marshal id n pk = Some t -> pub_Unmarshal t = Some (id, n, pk);
  law_pub_part id n pk t s : pub_Marshal id n pk = Some t -> String.prefix s t = true -> s <> t -> pub_Unmarshal s = None
}.

(** filepath.Join of a clean directory and a name *)
Definition Join (dir name : string) : string := (dir ++ "/" ++ name)%string.
(** os.MkdirAll, unless the file is in the current directory *)
Definition make_parent (path : string) : io Device unit := if String.eqb (Dir path) "." then iret tt else call id.

Section keys.
Context `{KeyCodec}.

(** ** keystore.go *)
(** A key without its private part panics in the encoder. *)
Definition SaveDenominationKey (path : string) (key : DenominationKey) : io Device unit :=
  match dk_PrivateKey key with
  | None => ifail "invalid memory address"
  | Some sk => make_parent path ~> fs_WriteFile path (key_Marshal (dk_KeyID key) (dk_BytesPerToken key) sk)
  end.
Inductive load_error := NotExist | Unreadable | BadKeyFile.
Definition read_file (path : string) : io Device (result load_error string) :=
  r <~ itry (fs_read path) ;;
  iret (match r with Err _ => Err Unreadable | Ok None => Err NotExist | Ok (Some data) => Ok data end).
Definition LoadDenominationKey (path : string) : io Device (result load_error DenominationKey) :=
  data <~ read_file path ;;
  iret (d ← data;
        match key_Unmarshal d with
        | None => Err BadKeyFile
        | Some (id, n, sk) => Ok (mkDenomKey id n (Some sk) (pub_of sk))
        end).
Definition SavePublicKey (path : string) (key : DenominationKey) : io Device unit :=
  match pub_Marshal (dk_KeyID key) (dk_BytesPerToken key) (dk_PublicKey key) with
  | None => ifail "marshal public key"
  | Some data => make_parent path ~> fs_WriteFile path data
  end.
Definition LoadPublicKey (path : string) : io Device (result load_error DenominationKey) :=
  data <~ read_file path ;;
  iret (d ← data;
        match pub_Unmarshal d with
        | None => Err BadKeyFile
        | Some (id, n, pk) => Ok (mkDenomKey id n None pk)
        end).

(** ** A hub starting *)
(** [drawn]: the RSA key the random source would give. *)
Definition loadOrGenerateDenomKey (keyDir keyID : string) (bytesPerToken : Z) (drawn : option PrivateKey) : io Device DenominationKey :=
  let keyPath := Join keyDir (keyID ++ ".json") in
  key <~ LoadDenominationKey keyPath ;;
  match key with
  | Ok key => iret key
  | Err NotExist =>
      call id ~>
      (match GenerateDenominationKey keyID bytesPerToken ((fun sk => (sk, pub_of sk)) <$> drawn) with
       | Err _ => ifail "generate key"
       | Ok key => SaveDenominationKey keyPath key ~> iret key
       end)
  | Err _ => ifail "read key"
  end.
Definition GenerateSeed : io Device string := random_bytes 32.
Definition seedPath (keyDir : string) : string := Join keyDir "cashu-seed.key".
Definition loadOrGenerateCashuSeed (keyDir : string) : io Device string :=
  data <~ read_file (seedPath keyDir) ;;
  (let fresh :=
     seed <~ GenerateSeed ;;
     (call id ~> fs_WriteFile (seedPath keyDir) (hex_encode seed) ~> iret seed) in
   match data with
   | Ok data =>
       if 32 <=? slen data
       then match hex_decode (TrimSpace data) with None => ifail "invalid seed hex" | Some seed => iret seed end
       else fresh
   | Err _ => fresh
   end).
Definition blindKeyDir (configured : string) : string := if str_empty configured then "keys" else configured.
Definition hub_key_id : string := "key-100mb".
Definition keyPath (keyDir : string) : string := Join keyDir (hub_key_id ++ ".json").
Definition pubKeyPath (keyDir : string) : string := Join keyDir (hub_key_id ++ ".pub.json").
(** main, the keys: a public key that cannot be exported is a warning. *)
Definition hub_keys (keyDir : string) (drawn : option PrivateKey) : io Device (DenominationKey * string) :=
  denomKey <~ loadOrGenerateDenomKey keyDir hub_key_id 100000000 drawn ;;
  _ <~ itry (SavePublicKey (pubKeyPath keyDir) denomKey) ;;
  seed <~ loadOrGenerateCashuSeed keyDir ;;
  iret (denomKey, seed).
End keys.

Definition dev_credential_key : string := "arfl-dev-key-not-for-production!".
Definition parseCredentialKey (hexKey : string) (devMode : bool) : result string string :=
  if str_empty hexKey then if devMode then Ok dev_credential_key else Err "credential_key is required"%string
  else match hex_decode hexKey with
  | None => Err "encoding/hex: invalid byte"%string
  | Some key => if slen key <? 32 then Err "credential key must be at least 32 bytes"%string else Ok key
  end.

(** ** Files that are written and read *)
Lemma prefix_spec a b : String.prefix a b = true <-> exists r, b = (a ++ r)%string.
Proof.
  split; [|intros [r ->]; apply prefix_app]. revert b. induction a as [|c a IH]; intros b; [by exists b|].
  destruct b as [|c' b]; [done|]. cbn. destruct (ascii_dec c c') as [->|]; [|done]. intros [r ->]%IH. by exists r.
Qed.
Lemma prefix_take n s : String.prefix (str_take n s) s = true.
Proof. apply prefix_spec. exists (str_drop n s). symmetry. apply take_drop_str. Qed.
Lemma prefix_refl s : String.prefix s s = true.
Proof. induction s as [|c s IH]; [done|]. cbn. by destruct (ascii_dec c c). Qed.
Lemma prefix_empty s : String.prefix "" s = true.
Proof. by destruct s. Qed.
Lemma prefix_trans a b c : String.prefix a b = true -> String.prefix b c = true -> String.prefix a c = true.
Proof. intros [r ->]%prefix_spec [r' ->]%prefix_spec. apply prefix_spec. exists (r ++ r')%string. by rewrite str_app_assoc. Qed.
(** What a power cut leaves of a file is a part of it. *)
Lemma survives_part f f' s : survives f f' -> String.prefix (fl_content f) s = true -> String.prefix (fl_content f') s = true.
Proof. unfold survives. destruct (fl_synced f); [by intros ->|]. by apply prefix_trans. Qed.

(** Without failures a call does what it does. *)
Lemma calm f g d : dv_faults d = [] -> sys f g d = (Ok tt, f d).
Proof. intros Hf. unfold sys. rewrite Hf. destruct d. cbn in *. by subst. Qed.

Section files.
Context (R : disk -> Prop).
Lemma runs_read P path : runs R P (read_file path) (fun r m => P m /\
  match r with
  | Ok (Ok data) => exists f, m !! path = Some f /\ fl_content f = data
  | Ok (Err NotExist) => m !! path = None
  | Ok (Err Unreadable) => True
  | _ => False
  end).
Proof.
  eapply runs_bind with (P' := fun x m => P m /\ match x with Ok (Some data) => exists f, m !! path = Some f /\ fl_content f = data | Ok None => m !! path = None | Err _ => True end).
  - apply runs_try. unfold fs_read. eapply runs_bind with (P' := fun _ => P).
    + apply runs_idle. intros [[]|e] m HP; [done|by split].
    + intros []. intros d r d' [= <- <-] HP. split; [by apply evolves_same|]. split; [done|].
      destruct (dv_files d !! path) as [f|] eqn:Hf; cbn; [by exists f|done].
  - intros [[data|]|e]; apply runs_value; intros m [HP Hx]; by split.
Qed.
(** Writing passes through the parts of the content. *)
Lemma runs_write I path content : (forall m, I m -> R m) -> (forall m s, I m -> String.prefix s content = true -> I (write_to path s m)) ->
  runs R I (fs_WriteFile path content) (fun r m => I m /\ (is_ok r = true -> m !! path = Some (mkFile content false))).
Proof.
  intros HR HI. unfold fs_WriteFile. eapply runs_bind with (P' := fun _ => I).
  - apply runs_call; [|intros m e Hm; by split]. intros m Hm. assert (I (write_to path "" m)) by (apply HI; [done|apply prefix_empty]). auto.
  - intros []. unfold fs_write. apply runs_sys; [intros m Hm|intros m n e Hm].
    + assert (I (write_to path content m)) as H by (apply HI; [done|apply prefix_refl]).
      split; [by apply HR|]. split; [done|]. intros _. apply lookup_insert_eq.
    + assert (I (write_to path (str_take n content) m)) as H by (apply HI; [done|apply prefix_take]). split; [by apply HR|by split].
Qed.
Lemma runs_parent (P : disk -> Prop) path Q : (forall r m, P m -> Q r m) -> runs R P (make_parent path) Q.
Proof. intros HQ. unfold make_parent. destruct (String.eqb _ _); [apply runs_value; auto|by apply runs_idle]. Qed.
End files.

(** ** The denomination key *)
Section kept.
Context `{KeyCodecLaws} (keyDir : string).
Definition hub_key (sk : PrivateKey) : DenominationKey := mkDenomKey hub_key_id 100000000 (Some sk) (pub_of sk).
(** One key, of which the file has a part; what is exported is its public part;
    and only this key was used. *)
Record holds (sk : PrivateKey) (used : list DenominationKey) (m : disk) : Prop := {
  ho_key : exists f, m !! keyPath keyDir = Some f /\ String.prefix (fl_content f) (key_Marshal hub_key_id 100000000 sk) = true;
  ho_pub f : m !! pubKeyPath keyDir = Some f -> exists t, pub_Marshal hub_key_id 100000000 (pub_of sk) = Some t /\ String.prefix (fl_content f) t = true;
  ho_used : Forall (fun k => k = hub_key sk) used
}.
Definition kept (used : list DenominationKey) (m : disk) : Prop :=
  (m !! keyPath keyDir = None /\ m !! pubKeyPath keyDir = None /\ used = []) \/ exists sk, holds sk used m.

Lemma paths_apart : keyPath keyDir <> pubKeyPath keyDir /\ seedPath keyDir <> keyPath keyDir /\ seedPath keyDir <> pubKeyPath keyDir.
Proof.
  unfold keyPath, pubKeyPath, seedPath, Join. split_and!; intros E; apply str_app_inj in E; apply str_app_inj in E; vm_compute in E; discriminate.
Qed.
Lemma holds_elsewhere sk used p v m : p <> keyPath keyDir -> p <> pubKeyPath keyDir -> holds sk used m -> holds sk used (partial_alter (fun _ => v) p m).
Proof. intros Hk Hp []. split; [|rewrite lookup_partial_alter_ne by done|]; [rewrite lookup_partial_alter_ne by done|..]; done. Qed.
Lemma kept_elsewhere used p v m : p <> keyPath keyDir -> p <> pubKeyPath keyDir -> kept used m -> kept used (partial_alter (fun _ => v) p m).
Proof.
  intros Hk Hp [(Hkn & Hpn & Hu)|[sk Hs]]; [left; rewrite !lookup_partial_alter_ne by done; done|].
  right. exists sk. by apply holds_elsewhere.
Qed.
(** A power cut that leaves nothing of the key file, not even its name *)
Definition takes_key (m m' : disk) : bool := match m !! keyPath keyDir, m' !! keyPath keyDir with Some _, None => true | _, _ => false end.
Definition flushed (m : disk) : Prop := exists f, m !! keyPath keyDir = Some f /\ fl_synced f = true.
Lemma flushed_not_taken m m' : flushed m -> crash m m' -> takes_key m m' = false /\ m' !! keyPath keyDir = m !! keyPath keyDir.
Proof. intros (f & Hf & Hs) Hc. pose proof (crash_synced _ _ _ _ Hc Hf Hs) as Hf'. unfold takes_key. rewrite Hf, Hf'. by split. Qed.
Lemma kept_crash used m m' : kept used m -> crash m m' -> takes_key m m' = false -> kept used m'.
Proof.
  unfold takes_key. intros [(Hk & Hp & Hu)|[sk [(f & Hf & Hpre) Hpub Hu]]] Hc Ht.
  - left. pose proof (Hc (keyPath keyDir)) as Hc1. pose proof (Hc (pubKeyPath keyDir)) as Hc2. rewrite Hk in Hc1. rewrite Hp in Hc2.
    destruct (m' !! keyPath keyDir); [done|]. by destruct (m' !! pubKeyPath keyDir).
  - right. exists sk. rewrite Hf in Ht. split; [|intros f' Hf'|done].
    + pose proof (Hc (keyPath keyDir)) as Hk. rewrite Hf in Hk. destruct (m' !! keyPath keyDir) as [f'|]; [|done]. exists f'. split; [done|by eapply survives_part].
    + pose proof (Hc (pubKeyPath keyDir)) as Hk. rewrite Hf' in Hk. destruct (m !! pubKeyPath keyDir) as [f0|] eqn:Hf0; [|done].
      destruct (Hpub _ eq_refl) as (t & Ht' & Hpt). exists t. split; [done|by eapply survives_part].
Qed.
Lemma kept_flush used m p f : kept used m -> m !! p = Some f -> kept used (<[p := mkFile (fl_content f) true]> m).
Proof.
  intros Hm Hf. assert (forall q, (<[p := mkFile (fl_content f) true]> m) !! q = m !! q \/ q = p /\ (<[p := mkFile (fl_content f) true]> m) !! q = Some (mkFile (fl_content f) true)) as Hq.
  { intros q. destruct (decide (p = q)) as [->|Hne]; [right; by rewrite lookup_insert_eq|left; by rewrite lookup_insert_ne]. }
  destruct Hm as [(Hk & Hp & Hu)|[sk [(g & Hg & Hpre) Hpub Hu]]].
  - left. split_and!; [| |done].
    + destruct (Hq (keyPath keyDir)) as [->|[<- _]]; [done|congruence].
    + destruct (Hq (pubKeyPath keyDir)) as [->|[<- _]]; [done|congruence].
  - right. exists sk. split; [| |done].
    + destruct (Hq (keyPath keyDir)) as [->|[<- ->]]; [by exists g|].
      rewrite Hf in Hg. injection Hg as <-. exists (mkFile (fl_content f) true). by split.
    + intros f'. destruct (Hq (pubKeyPath keyDir)) as [->|[<- ->]]; [apply Hpub|]. intros [= <-]. by destruct (Hpub _ Hf) as (t & ? & ?); exists t.
Qed.
Lemma kept_weaken used k m : kept (k :: used) m -> kept used m.
Proof. intros [(_ & _ & [=])|[sk [Hk Hp Hu]]]. right. exists sk. split; [done|done|by inversion Hu]. Qed.

(** What is loaded is the key of which the file is the whole. *)
Lemma load_holds sk used m f id n sk' : holds sk used m -> m !! keyPath keyDir = Some f -> key_Unmarshal (fl_content f) = Some (id, n, sk') ->
  mkDenomKey id n (Some sk') (pub_of sk') = hub_key sk.
Proof.
  intros [(f0 & Hf0 & Hpre) _ _] Hf Hu. rewrite Hf in Hf0. injection Hf0 as <-.
  destruct (decide (fl_content f = key_Marshal hub_key_id 100000000 sk)) as [E|E].
  - rewrite E, law_key in Hu by reflexivity. by simplify_eq.
  - by rewrite (law_key_part _ _ _ _ Hpre E) in Hu.
Qed.
Lemma runs_denom used drawn : runs (kept used) (kept used) (loadOrGenerateDenomKey keyDir hub_key_id 100000000 drawn)
  (fun r m => kept used m /\ forall k, r = Ok k -> kept (k :: used) m).
Proof.
  unfold loadOrGenerateDenomKey. fold (keyPath keyDir).
  set (loaded (x : result load_error DenominationKey) (m : disk) := kept used m /\ match x with Ok k => kept (k :: used) m | Err NotExist => m !! keyPath keyDir = None | Err _ => True end).
  eapply runs_bind with (P' := loaded).
  { unfold LoadDenominationKey. eapply runs_bind; [eapply runs_conseq; [apply (runs_read (kept used) (kept used) (keyPath keyDir))|done|done|]|].
    - intros [x|e] m Hr; [exact Hr|by destruct Hr].
    - intros [data|e]; apply runs_value; intros m [Hm Hd]; cbn; [|by destruct e].
      destruct Hd as (f & Hf & <-). destruct (key_Unmarshal (fl_content f)) as [[[id n] sk']|] eqn:Hu; [|by split].
      split; [done|]. destruct Hm as [(Hk & _)|[sk Hs]]; [by rewrite Hk in Hf|]. right. exists sk.
      rewrite (load_holds sk used m f id n sk' Hs Hf Hu). destruct Hs as [Hk Hp Hused]. split; [done|done|by constructor]. }
  intros [k|[]]; [apply runs_value; intros m [Hm Hk]; by split; [|intros ? [= <-]]| |apply runs_value; intros m [Hm Hk]; by split..].
  eapply runs_bind with (P' := fun _ m => loaded (Err NotExist) m); [apply runs_idle; intros [[]|e] m Hm; [done|split; [apply Hm|discriminate]]|].
  intros []. destruct drawn as [sk|]; cbn; [|apply runs_value; intros m [Hm _]; split; [done|discriminate]].
  change (if 100000000 <=? 0 then _ else _) with (Ok (E := cred_error) (hub_key sk)). cbn.
  set (I (m : disk) := m !! pubKeyPath keyDir = None /\ used = [] /\ forall f, m !! keyPath keyDir = Some f -> String.prefix (fl_content f) (key_Marshal hub_key_id 100000000 sk) = true).
  assert (forall m, I m -> kept used m) as HI.
  { intros m (Hp & -> & Hk). destruct (m !! keyPath keyDir) as [f|] eqn:Hf; [right; exists sk|by left].
    split; [exists f; auto|intros f'; by rewrite Hp|done]. }
  eapply runs_conseq with (R' := kept used) (P := I) (Q := fun r m => kept used m /\ forall k, r = Ok k -> kept (k :: used) m); [|done| |done].
  2: { intros m [[(Hk & Hp & Hu)|[sk' [(f & Hf & _) _ _]]] Hn]; [|by rewrite Hf in Hn]. split_and!; [done|done|]. intros f. by rewrite Hk. }
  eapply runs_bind with (P' := fun _ m => I m /\ m !! keyPath keyDir = Some (mkFile (key_Marshal hub_key_id 100000000 sk) false)).
  { unfold SaveDenominationKey. cbn. eapply runs_bind with (P' := fun _ => I); [apply runs_parent; intros [[]|e] m Hm; [done|split; [by apply HI|discriminate]]|].
    intros []. eapply runs_conseq; [apply (runs_write (kept used) I)|done|done|].
    - done.
    - intros m s (Hp & Hu & Hk) Hs. unfold write_to. split_and!; [rewrite lookup_insert_ne by apply paths_apart; done|done|].
      intros f. rewrite lookup_insert_eq. by intros [= <-].
    - intros [[]|e] m [Hm Hw]; [split; [done|by apply Hw]|split; [by apply HI|discriminate]]. }
  intros []. apply runs_value. intros m [Hm Hf]. split; [by apply HI|]. intros k [= <-]. destruct Hm as (Hp & -> & Hk). right. exists sk.
  split; [exists (mkFile (key_Marshal hub_key_id 100000000 sk) false); split; [done|apply prefix_refl]|intros f'; by rewrite Hp|by constructor].
Qed.
Lemma kept_export k used t m s : kept (k :: used) m -> pub_Marshal (dk_KeyID k) (dk_BytesPerToken k) (dk_PublicKey k) = Some t ->
  String.prefix s t = true -> kept (k :: used) (write_to (pubKeyPath keyDir) s m).
Proof.
  intros [(_ & _ & [=])|[sk [(f & Hf & Hpre) Hp Hu]]] Ht Hs. right. exists sk. inversion Hu as [|? ? -> Hu']; subst.
  split; [exists f; split; [|done]; unfold write_to; rewrite lookup_insert_ne by apply not_eq_sym, paths_apart; done| |done].
  intros f'. unfold write_to. rewrite lookup_insert_eq. intros [= <-]. by exists t.
Qed.
Lemma runs_export k used : runs (kept used) (kept (k :: used)) (SavePublicKey (pubKeyPath keyDir) k) (fun _ => kept (k :: used)).
Proof.
  unfold SavePublicKey. destruct (pub_Marshal _ _ _) as [t|] eqn:Ht; [|by apply runs_value].
  eapply runs_bind with (P' := fun _ => kept (k :: used)); [apply runs_parent; by intros [[]|e]|].
  intros []. eapply runs_conseq; [apply (runs_write (kept used) (kept (k :: used)))|done|done|by intros r m [Hm _]].
  - intros m. apply kept_weaken.
  - intros m s Hm. by apply kept_export with (t := t).
Qed.
Lemma runs_seed k used : runs (kept used) (kept (k :: used)) (loadOrGenerateCashuSeed keyDir) (fun _ => kept (k :: used)).
Proof.
  unfold loadOrGenerateCashuSeed. eapply runs_bind with (P' := fun _ => kept (k :: used)).
  { eapply runs_conseq; [apply runs_read|done|done|]. intros [x|e] m [Hm Hx]; [exact Hm|done]. }
  intros data. set (fresh := ibind _ _). assert (runs (kept used) (kept (k :: used)) fresh (fun _ => kept (k :: used))) as Hfresh.
  { subst fresh. eapply runs_bind with (P' := fun _ => kept (k :: used)); [apply runs_random; by intros|]. intros seed.
    eapply runs_bind with (P' := fun _ => kept (k :: used)); [apply runs_idle; by intros [[]|e]|]. intros [].
    eapply runs_bind with (P' := fun _ => kept (k :: used)); [|intros []; by apply runs_value].
    eapply runs_conseq; [apply (runs_write (kept used) (kept (k :: used)))|done|done|by intros [[]|e] m [Hm _]].
    - intros m. apply kept_weaken.
    - intros m s Hm _. destruct paths_apart as (_ & Hk & Hp). by apply (kept_elsewhere (k :: used) _ (Some (mkFile s false))). }
  destruct data as [data|e]; [|done]. destruct (_ <=? _); [|done]. destruct (hex_decode _); by apply runs_value.
Qed.
Lemma runs_hub used drawn : runs (kept used) (kept used) (hub_keys keyDir drawn)
  (fun r m => kept used m /\ forall k seed, r = Ok (k, seed) -> kept (k :: used) m).
Proof.
  unfold hub_keys. eapply runs_bind with (P' := fun k => kept (k :: used)).
  { eapply runs_conseq; [apply runs_denom|done|done|]. intros [k|e] m [Hm Hk]; [by apply Hk|split; [done|discriminate]]. }
  intros k. eapply runs_bind with (P' := fun _ => kept (k :: used)); [apply runs_try; apply runs_export|].
  intros _. eapply runs_bind with (P' := fun _ => kept (k :: used)).
  { eapply runs_conseq; [apply runs_seed|done|done|]. intros [seed|e] m Hm; [exact Hm|split; [by apply (kept_weaken used k)|discriminate]]. }
  intros seed. apply runs_value. intros m Hm. split; [by apply (kept_weaken used k)|by intros ? ? [= <- <-]].
Qed.

(** *** A key file that is there is left as it is *)
Lemma runs_frame p v q s : (p <> q) -> forall m : disk, m !! p = v -> write_to q s m !! p = v.
Proof. intros Hne m Hm. unfold write_to. by rewrite lookup_insert_ne. Qed.
Lemma runs_stays f drawn : let P := fun m : disk => m !! keyPath keyDir = Some f in
  runs P P (hub_keys keyDir drawn) (fun _ => P).
Proof.
  intros P. destruct paths_apart as (Hkp & Hsk & _). unfold hub_keys. eapply runs_bind with (P' := fun _ => P).
  - unfold loadOrGenerateDenomKey. fold (keyPath keyDir).
    eapply runs_bind with (P' := fun x m => P m /\ x <> Err NotExist).
    { unfold LoadDenominationKey. eapply runs_bind; [eapply runs_conseq; [apply (runs_read P P (keyPath keyDir))|done|done|]|].
      - intros [x|e] m Hr; [exact Hr|by destruct Hr].
      - intros [data|e]; apply runs_value; intros m [Hm Hd]; (split; [done|]); cbn.
        + by destruct (key_Unmarshal data) as [[[]]|].
        + intros [= ->]. unfold P in Hm. congruence. }
    intros [k|[]]; [apply runs_value; by intros m [Hm _]| |apply runs_value; by intros m [Hm _]..].
    intros d r d' _ [_ Hne]. by destruct (Hne eq_refl).
  - intros k. eapply runs_bind with (P' := fun _ => P).
    + apply runs_try. unfold SavePublicKey. destruct (pub_Marshal _ _ _); [|by apply runs_value].
      eapply runs_bind with (P' := fun _ => P); [apply runs_parent; by intros [[]|e]|]. intros [].
      eapply runs_conseq; [apply (runs_write P P)|done|done|by intros r m [Hm _]]; [done|]. intros m t' Hm _. by apply runs_frame.
    + intros _. eapply runs_bind with (P' := fun _ => P); [|intros seed; by apply runs_value].
      unfold loadOrGenerateCashuSeed. eapply runs_bind with (P' := fun _ => P).
      { eapply runs_conseq; [apply runs_read|done|done|]. intros [x|e] m [Hm Hx]; [exact Hm|done]. }
      intros data. eapply runs_conseq with (Q := fun _ => P); [|done|done|by intros [x|e]]. set (fresh := ibind _ _). assert (runs P P fresh (fun _ => P)) as Hfresh.
      { subst fresh. eapply runs_bind with (P' := fun _ => P); [apply runs_random; by intros|]. intros seed.
        eapply runs_bind with (P' := fun _ => P); [apply runs_idle; by intros [[]|e]|]. intros [].
        eapply runs_bind with (P' := fun _ => P); [|intros []; by apply runs_value].
        eapply runs_conseq; [apply (runs_write P P)|done|done|by intros [[]|e] m [Hm _]]; [done|]. intros m t' Hm _. apply runs_frame; [by apply not_eq_sym|done]. }
      destruct data as [data|e]; [|done]. destruct (_ <=? _); [|done]. destruct (hex_decode _); by apply runs_value.
Qed.

(** The life of a hub's disk, the denomination keys it ran with, and whether a power
    cut ever took its key file: it starts, whatever fails; the power goes while it
    starts or later; the system flushes a file; other files change. *)
Inductive hub_step : disk * list DenominationKey * bool -> disk * list DenominationKey * bool -> Prop :=
| hub_started m used lost drawn random faults r d :
    hub_keys keyDir drawn (mkDev m [] None random faults) = (r, d) ->
    hub_step (m, used, lost) (dv_files d, match r with Ok (k, _) => k :: used | Err _ => used end, lost)
| hub_cut m used lost drawn random faults r d m1 m2 :
    hub_keys keyDir drawn (mkDev m [] None random faults) = (r, d) -> m1 ∈ dv_history d -> crash m1 m2 ->
    hub_step (m, used, lost) (m2, used, lost || takes_key m1 m2)
| power_cut m used lost m' : crash m m' -> hub_step (m, used, lost) (m', used, lost || takes_key m m')
| written_back m used lost p f : m !! p = Some f -> hub_step (m, used, lost) (<[p := mkFile (fl_content f) true]> m, used, lost)
| elsewhere m used lost p v : p <> keyPath keyDir -> p <> pubKeyPath keyDir -> hub_step (m, used, lost) (partial_alter (fun _ => v) p m, used, lost).

Lemma hub_step_kept s s' : hub_step s s' -> (s.2 = false -> kept s.1.2 s.1.1) -> s'.2 = false -> s.2 = false /\ kept s'.1.2 s'.1.1.
Proof.
  intros [m used lost drawn random faults r d Hd|m used lost drawn random faults r d m1 m2 Hd Hin Hc|m used lost m' Hc|m used lost p f Hf|m used lost p v Hk Hp] Hm; cbn in *.
  - intros ->. split; [done|]. destruct (runs_hub used drawn _ _ _ Hd (Hm eq_refl)) as (_ & Hm' & Hr). destruct r as [[k seed]|e]; [by eapply Hr|done].
  - intros [-> Ht]%orb_false_elim. split; [done|]. destruct (runs_hub used drawn _ _ _ Hd (Hm eq_refl)) as ([(n & Hn & Hall) _] & _).
    eapply kept_crash; [|exact Hc|done]. cbn in Hn. rewrite app_nil_r in Hn. rewrite Hn in Hin. by apply (proj1 (Forall_forall _ _) Hall).
  - intros [-> Ht]%orb_false_elim. split; [done|]. by eapply kept_crash; [apply Hm| |].
  - intros ->. split; [done|]. by apply kept_flush; [apply Hm|].
  - intros ->. split; [done|]. by apply kept_elsewhere; [..|apply Hm].
Qed.
Lemma hub_kept_from s s' : rtc hub_step s s' -> (s.2 = false -> kept s.1.2 s.1.1) -> s'.2 = false -> kept s'.1.2 s'.1.1.
Proof.
  induction 1 as [s|s1 s2 s3 Hs _ IH]; [auto|]. intros Hk Hl. apply IH; [|done].
  intros Hl2. by apply (hub_step_kept s1 s2).
Qed.
Lemma hub_kept m used : rtc hub_step (∅, [], false) (m, used, false) -> kept used m.
Proof. intros Hr. apply (hub_kept_from _ _ Hr); [|done]. intros _. left. cbn. by rewrite !lookup_empty. Qed.

(** Once the key file is on the disk no power cut takes it. *)
Lemma flushed_step s s' : hub_step s s' -> flushed s.1.1 -> s.2 = false -> s'.2 = false /\ flushed s'.1.1.
Proof.
  unfold flushed. intros [m used lost drawn random faults r d Hd|m used lost drawn random faults r d m1 m2 Hd Hin Hc|m used lost m' Hc|m used lost p g Hg|m used lost p v Hk Hp] (f & Hf & Hs) Hl;
    cbn in *; subst lost.
  - split; [done|]. exists f. split; [|done]. by destruct (runs_stays f drawn _ _ _ Hd Hf).
  - destruct (runs_stays f drawn _ _ _ Hd Hf) as ([(n & Hn & Hall) _] & _). cbn in Hn. rewrite app_nil_r in Hn. rewrite Hn in Hin.
    pose proof (proj1 (Forall_forall _ _) Hall _ Hin) as Hm1. destruct (flushed_not_taken m1 m2) as [-> E]; [by exists f|done|].
    split; [done|]. exists f. by rewrite E.
  - destruct (flushed_not_taken m m') as [-> E]; [by exists f|done|]. split; [done|]. exists f. by rewrite E.
  - split; [done|]. destruct (decide (p = keyPath keyDir)) as [->|Hne]; [eexists; by rewrite lookup_insert_eq|]. exists f. by rewrite lookup_insert_ne.
  - split; [done|]. exists f. by rewrite lookup_partial_alter_ne.
Qed.
Lemma flushed_run s s' : rtc hub_step s s' -> flushed s.1.1 -> s.2 = false -> s'.2 = false.
Proof. induction 1 as [s|s1 s2 s3 Hs _ IH]; [done|]. intros Hf Hl. destruct (flushed_step s1 s2) as [Hl2 Hf2]; auto. Qed.

Lemma used_grows s s' : rtc hub_step s s' -> forall k, k ∈ s.1.2 -> k ∈ s'.1.2.
Proof.
  induction 1 as [s|s1 s2 s3 Hs _ IH]; [done|]. intros k Hk. apply IH. destruct Hs as [m0 u0 l0 dr0 rn0 fa0 r d0 Hd0|m0 u0 l0 dr0 rn0 fa0 r d0 n1 n2 Hd0 Hi0 Hc0|m0 u0 l0 n1 Hc0|m0 u0 l0 p0 f0 Hf0|m0 u0 l0 p0 v0 Hn0 Hn1]; [|done..]. cbn in *.
  destruct r as [[]|]; [by right|done].
Qed.

(** C32: a hub keeps its denomination key. From an empty disk, through starts in which
    any call fails, power cuts that tear or take unflushed files, and changes of
    other files, as long as no power cut took the key file, every denomination key
    the hub ever ran with is the same, whatever keys the random source would have
    drawn; and whoever loads the public key file gets its public part or nothing, so
    that a verifier with the loaded key accepts exactly the tokens a verifier with
    the hub's key does. A power cut can take the key file only until the system has
    written it back, which the hub does not wait for ([unflushed_key_replaced]):
    once it is on the disk, whatever follows, every key the hub runs with is this
    one. *)
Theorem denomination_key_kept m used k (Hrun : rtc hub_step (∅, [], false) (m, used, false)) (Hk : k ∈ used) :
  Forall (fun k' => k' = k) used /\
  (forall random faults x d, LoadPublicKey (pubKeyPath keyDir) (mkDev m [] None random faults) = (Ok (Ok x), d) ->
    x = ExportPublicKey k /\ forall t, BlindVerifier_Verify (key_map [x]) t = BlindVerifier_Verify (key_map [k]) t) /\
  (flushed m -> forall m' used' lost, rtc hub_step (m, used, false) (m', used', lost) -> lost = false /\ Forall (fun k' => k' = k) used').
Proof.
  assert (forall m used, rtc hub_step (∅, [], false) (m, used, false) -> k ∈ used -> Forall (fun k' => k' = k) used) as Hall.
  { intros m1 used1 Hr Hk1. destruct (hub_kept _ _ Hr) as [(_ & _ & ->)|[sk [_ _ Hu]]]; [by apply not_elem_of_nil in Hk1|].
    by assert (k = hub_key sk) as -> by (by apply (proj1 (Forall_forall _ _) Hu)). }
  split; [by apply (Hall m)|]. split.
  - destruct (hub_kept _ _ Hrun) as [(_ & _ & ->)|[sk [_ Hp Hu]]]; [by apply not_elem_of_nil in Hk|].
    assert (k = hub_key sk) as -> by (by apply (proj1 (Forall_forall _ _) Hu)).
    intros random faults x d Hl. unfold LoadPublicKey in Hl. apply ibind_inv in Hl as [(e & _ & [=])|(data & d1 & Hr & Hx)]. injection Hx as Hx _.
    destruct data as [data|e]; [|done]. cbn in Hx. destruct (pub_Unmarshal data) as [[[id n] pk]|] eqn:Hun; [|done]. injection Hx as <-.
    destruct (runs_read (fun _ => True) (fun m' => m' = m) _ _ _ _ Hr eq_refl) as (_ & -> & f & Hf & <-).
    destruct (Hp _ Hf) as (t & Ht & Hpre). destruct (decide (fl_content f = t)) as [E|E]; [|by rewrite (law_pub_part _ _ _ _ _ Ht Hpre E) in Hun].
    rewrite E, (law_pub hub_key_id 100000000 (pub_of sk) t eq_refl Ht) in Hun. injection Hun as <- <- <-. split; [done|].
    intros [t'|]; [|done]. unfold BlindVerifier_Verify, key_map, hub_key. cbn [foldl dk_KeyID]. destruct (decide (bt_KeyID t' = hub_key_id)) as [->|Hne].
    + by rewrite !lookup_insert_eq.
    + by rewrite !lookup_insert_ne by done.
  - intros Hf m' used' lost Hr. assert (lost = false) as -> by exact (flushed_run _ _ Hr Hf eq_refl). split; [done|].
    apply (Hall m'); [by etrans|]. exact (used_grows _ _ Hr k Hk).
Qed.
End kept.

(** ** The ecash seed *)
Section seed.
Context (keyDir : string).
(** A readable file with a whole seed is used, and left alone. *)
Lemma seed_loaded seed f d : String.length seed = 32%nat -> TrimSpace (fl_content f) = hex_encode seed -> 32 <= slen (fl_content f) ->
  dv_files d !! seedPath keyDir = Some f -> dv_faults d = [] -> loadOrGenerateCashuSeed keyDir d = (Ok seed, set_faults [] d).
Proof.
  intros Hlen Ht Hl Hf Hn. unfold loadOrGenerateCashuSeed, read_file, fs_read, ibind, itry, call, sys, iget, iret. rewrite Hn. cbn [tl id dv_files set_faults].
  rewrite Hf. cbn. apply Z.leb_le in Hl as ->. by rewrite Ht, hex_decode_encode.
Qed.
End seed.

(** ** Examples *)
(** Fields in hex, between marks. *)
Definition fields_text (l : list string) : string := (join ":" (hex_encode <$> l) ++ "}")%string.
Definition text_fields (s : string) : option (list string) :=
  match split_on "}" s with [b; ""%string] => mapM hex_decode (split_on ":" b) | _ => None end.
Lemma hex_digit_not c : (nat_of_ascii c <? 48)%nat || (102 <? nat_of_ascii c)%nat || ((57 <? nat_of_ascii c) && (nat_of_ascii c <? 97))%nat = true ->
  forall n, (n < 16)%nat -> hex_digit n <> c.
Proof. intros Hc n Hn <-. do 16 (destruct n as [|n]; [vm_compute in Hc; discriminate|]). lia. Qed.
Lemma fields_free l : char_free "}" (join ":" (hex_encode <$> l)) = true.
Proof.
  induction l as [|x l IH]; [done|]. assert (char_free "}" (hex_encode x) = true) as Hx by (apply hex_encode_free, hex_digit_not; reflexivity).
  destruct l as [|y l]; [done|].
  change (char_free "}" (hex_encode x ++ ":" ++ join ":" (hex_encode <$> y :: l))%string = true). by rewrite !char_free_app, Hx, IH.
Qed.
Lemma text_fields_text l : l <> [] -> text_fields (fields_text l) = Some l.
Proof.
  intros Hl. unfold text_fields, fields_text. rewrite split_on_cons by apply fields_free. cbn [split_on].
  rewrite split_join; [|by destruct l|apply forallb_forall; intros s Hs%list_elem_of_In; apply list_elem_of_fmap in Hs as (y & -> & _); apply hex_encode_free, hex_digit_not; reflexivity].
  apply mapM_Some. clear Hl. induction l; constructor; [apply hex_decode_encode|done].
Qed.
Lemma text_fields_part l s : String.prefix s (fields_text l) = true -> s <> fields_text l -> text_fields s = None.
Proof.
  intros [r Hr]%prefix_spec Hne. unfold fields_text in *. assert (char_free "}" s = true) as Hf.
  { generalize (fields_free l). revert Hr Hne. generalize (join ":" (hex_encode <$> l)). induction s as [|c s IH]; [done|]. intros [|c' b] Hr Hne Hb; injection Hr as Hc Hr'.
    - destruct s; [|done]. destruct r; [|done]. subst. done.
    - subst c'. cbn in Hb |- *. apply andb_prop in Hb as [Hc Hb]. rewrite Hc. cbn [andb]. eapply IH; [exact Hr'| |exact Hb]. intros ->. by apply Hne. }
  unfold text_fields. by rewrite split_on_free.
Qed.
#[export] Instance toy_rsa : BlindScheme := {|
  PrivateKey := string; PublicKey := string; sha256 := fun s => s; fdh_Sum := fun s => s;
  rsablind_Blind := fun _ m r => Some (m, r); rsablind_BlindSign := fun sk m => Some (sk ++ m)%string;
  rsablind_Unblind := fun _ s _ => s; rsablind_Verify := fun pk m s => String.eqb s (pk ++ m)
|}.
Definition toy_key_text (id : string) (n : Z) (k : string) : string := fields_text [id; toy_write n; k].
Definition toy_text_key (s : string) : option (string * Z * string) :=
  match text_fields s with Some [id; n; k] => (fun n => (id, n, k)) <$> toy_read n | _ => None end.
#[export] Instance toy_key_codec : KeyCodec := {|
  pub_of := fun sk => sk; key_Marshal := toy_key_text; key_Unmarshal := toy_text_key;
  pub_Marshal := fun id n pk => Some (toy_key_text id n pk); pub_Unmarshal := toy_text_key
|}.
#[export] Instance toy_key_laws : KeyCodecLaws.
Proof.
  assert (forall id n k, toy_text_key (toy_key_text id n k) = Some (id, n, k)) as Hr.
  { intros. unfold toy_text_key, toy_key_text. rewrite text_fields_text by done. by rewrite toy_read_write. }
  assert (forall id n k s, String.prefix s (toy_key_text id n k) = true -> s <> toy_key_text id n k -> toy_text_key s = None) as Hp.
  { intros id n k s Hs Hne. unfold toy_text_key, toy_key_text in *. by rewrite (text_fields_part _ _ Hs Hne). }
  split; cbn [key_Marshal key_Unmarshal pub_Marshal pub_Unmarshal toy_key_codec]; intros; simplify_eq; eauto.
Qed.

Definition toy_seed (c : ascii) : string := String c "123456789abcdef0123456789abcdef".
(** A first start, and a start later *)
Definition toy_start (m : disk) (sk : string) (c : ascii) (faults : list (option nat)) : result string (DenominationKey * string) * Device :=
  hub_keys "keys" (Some sk) (mkDev m [] None [toy_seed c] faults).
Definition toy_first : disk := dv_files (toy_start ∅ "one" "A" []).2.
Lemma crash_same m : crash m m.
Proof. intros p. destruct (m !! p) as [f|]; [|done]. unfold survives. destruct (fl_synced f); [done|apply prefix_refl]. Qed.
Definition toy_hub_key : DenominationKey (H:=toy_rsa) := hub_key ("one"%string : @PrivateKey toy_rsa).
Lemma toy_started m sk c k : (toy_start m sk c []).1 = Ok (k, toy_seed c) \/ (toy_start m sk c []).1 = Ok (k, toy_seed "A") ->
  forall used lost, hub_step "keys" (m, used, lost) (dv_files (toy_start m sk c []).2, k :: used, lost).
Proof.
  intros Hr used lost. pose proof (surjective_pairing (toy_start m sk c [])) as Hd.
  pose proof (fun r E => hub_started "keys" m used lost (Some sk) [toy_seed c] [] r (toy_start m sk c []).2 E) as Hs.
  destruct Hr as [Hr|Hr]; rewrite Hr in Hd; exact (Hs _ Hd).
Qed.
(** The first key file reaches the disk, the power goes, and the hub starts again. *)
Definition toy_flushed : disk := match toy_first !! keyPath "keys" with Some f => <[keyPath "keys" := mkFile (fl_content f) true]> toy_first | None => ∅ end.
Definition toy_second : disk := dv_files (toy_start toy_flushed "two" "B" []).2.
Lemma toy_flushed_ok : flushed "keys" toy_flushed.
Proof.
  assert (match toy_flushed !! keyPath "keys" with Some f => fl_synced f | None => false end = true) as Hs by (vm_compute; reflexivity).
  destruct (toy_flushed !! keyPath "keys") as [f|] eqn:Hf; [|done]. by exists f.
Qed.
Lemma toy_life : rtc (hub_step "keys") (∅, [], false) (toy_flushed, [toy_hub_key], false).
Proof.
  eapply (rtc_l _ _ (toy_first, [toy_hub_key], false)); [apply toy_started; left; vm_compute; reflexivity|]. apply rtc_once. unfold toy_flushed.
  destruct (toy_first !! keyPath "keys") as [f|] eqn:Hf; [by apply written_back|vm_compute in Hf; discriminate].
Qed.
Lemma toy_later : rtc (hub_step "keys") (toy_flushed, [toy_hub_key], false) (toy_second, [toy_hub_key; toy_hub_key], false).
Proof.
  eapply (rtc_l _ _ (toy_flushed, [toy_hub_key], false)).
  { pose proof (power_cut "keys" toy_flushed [toy_hub_key] false toy_flushed (crash_same _)) as Hc.
    rewrite (proj1 (flushed_not_taken "keys" _ _ toy_flushed_ok (crash_same _))) in Hc. exact Hc. }
  apply rtc_once. apply toy_started. right. vm_compute. reflexivity.
Qed.
Lemma denomination_key_kept_witness :
  Forall (fun k' => k' = toy_hub_key) [toy_hub_key; toy_hub_key] /\
  (LoadPublicKey (pubKeyPath "keys") (mkDev toy_flushed [] None [] [])).1 = Ok (Ok (ExportPublicKey (toy_hub_key))).
Proof.
  destruct (denomination_key_kept "keys" toy_flushed _ (toy_hub_key) toy_life) as (_ & Hpub & Hnext); [by left|].
  split; [by apply (Hnext toy_flushed_ok toy_second _ false), toy_later|]. destruct (LoadPublicKey _ _) as [[[x|e]|e] d] eqn:Hl.
  - destruct (Hpub [] [] x d Hl) as [-> _]. reflexivity.
  - vm_compute in Hl. discriminate.
  - vm_compute in Hl. discriminate.
Defined.
(** The key file is not flushed: a power cut can take it, and the hub then draws
    another key. Its vouchers and tickets of before no longer verify. *)
Definition toy_taken : disk := delete (keyPath "keys") toy_first.
Example unflushed_key_replaced :
  crash toy_first toy_taken /\
  exists seed seed', (toy_start ∅ "one" "A" []).1 = Ok (toy_hub_key, seed) /\
    (toy_start toy_taken "two" "B" []).1 = Ok (hub_key ("two"%string : @PrivateKey toy_rsa), seed').
Proof.
  split.
  - intros p. unfold toy_taken. destruct (decide (p = keyPath "keys")) as [->|Hp].
    + rewrite lookup_delete_eq. assert (match toy_first !! keyPath "keys" with Some f => fl_synced f = false | None => True end) as H by (vm_compute; reflexivity). exact H.
    + rewrite lookup_delete_ne by done. apply crash_same.
  - do 2 eexists. split; vm_compute; reflexivity.
Qed.

(** A seed file that cannot be read once is overwritten with another seed. *)
Example unreadable_seed_replaced :
  let r := loadOrGenerateCashuSeed "keys" (mkDev toy_first [] None [toy_seed "B"] [Some 0%nat]) in
  (loadOrGenerateCashuSeed "keys" (mkDev toy_first [] None [] [])).1 = Ok (toy_seed "A") /\ r.1 = Ok (toy_seed "B") /\
  fl_content <$> dv_files r.2 !! seedPath "keys" = Some (hex_encode (toy_seed "B")).
Proof. vm_compute. by split_and!. Qed.
(** The seed file is not flushed: after a power cut a hub starts with another seed,
    or with a part of the one it had. *)
Definition toy_torn (n : nat) : disk := <[seedPath "keys" := mkFile (str_take n (hex_encode (toy_seed "A"))) false]> toy_first.
Lemma toy_torn_crash n : crash toy_first (toy_torn n).
Proof.
  intros p. unfold toy_torn. destruct (decide (p = seedPath "keys")) as [->|Hp].
  - rewrite lookup_insert_eq. replace (toy_first !! seedPath "keys") with (Some (mkFile (hex_encode (toy_seed "A")) false)) by (vm_compute; reflexivity). apply prefix_take.
  - rewrite lookup_insert_ne by done. apply crash_same.
Qed.
Example torn_seed_replaced :
  crash toy_first (toy_torn 0) /\ crash toy_first (toy_torn 32) /\
  (loadOrGenerateCashuSeed "keys" (mkDev (toy_torn 0) [] None [toy_seed "B"] [])).1 = Ok (toy_seed "B") /\
  (loadOrGenerateCashuSeed "keys" (mkDev (toy_torn 32) [] None [toy_seed "B"] [])).1 = Ok (str_take 16 (toy_seed "A")).
Proof. split_and!; [apply toy_torn_crash..|vm_compute; reflexivity|vm_compute; reflexivity]. Qed.
