(* ===== verification/HubMain.v ===== *)
(** * HubMain: the hub daemon and its commands
    (src/cmd/arfl-hub/main.go; HubConfig of src/internal/config/config.go)

    Configuration and its environment, the operator's commands over node leases,
    the periods of settlement, the loop over announcements and the routes. Reading
    a configuration file and the platform's default database path are arguments;
    databases are kept by path. Times are nanoseconds. *)
From S2P Require Import Prelude Sql Schema Credentials Repository Ledger Settlement Nostr Attestation Selector Control CashuApi Discovery HubApi IPPool Lightning VaultFile HubKeys.

(** ** Configuration *)
Record HubConfig := mkHubCfg {
  fc_Name : string; fc_NostrPrivkey : string; fc_ListenAddr : string; fc_Relays : list string; fc_DBPath : string;
  fc_CredentialKey : string; fc_SettlementHours : Z; fc_MinPayoutSats : Z; fc_HubMarginPct : Z; fc_BlindKeyDir : string;
  fc_LNDHost : string; fc_LNDPort : Z; fc_LNDTLSCertPath : string; fc_LNDMacaroonPath : string; fc_LNDFeeLimitSat : Z
}.
(** strconv.Atoi and ParseInt in base ten: a sign, digits, nothing else. *)
Fixpoint decimal (acc : Z) (s : string) : option Z :=
  match s with
  | EmptyString => Some acc
  | String c r => d ← digit c; decimal (acc * 10 + d) r
  end.
Definition ParseInt (s : string) : option Z :=
  let natural r := if str_empty r then None else decimal 0 r in
  v ← match s with
      | String "-" r => Z.opp <$> natural r
      | String "+" r => natural r
      | _ => natural s
      end;
  if in_i64b v then Some v else None.
Definition env_or (env : string -> string) (name field : string) : string := if str_empty (env name) then field else env name.
Definition env_int (env : string -> string) (name : string) (field : Z) : Z := default field (ParseInt (env name)).
Definition hub_margin (configured : Z) : Z := if (configured =? 0) || (configured <? 0) || (50 <? configured) then 20 else configured.
Definition ApplyEnv (env : string -> string) (c : HubConfig) : HubConfig :=
  mkHubCfg (fc_Name c) (env_or env "ARFL_NOSTR_PRIVKEY" (fc_NostrPrivkey c)) (fc_ListenAddr c) (fc_Relays c)
    (env_or env "ARFL_DB_PATH" (fc_DBPath c)) (env_or env "ARFL_CREDENTIAL_KEY" (fc_CredentialKey c)) (fc_SettlementHours c)
    (fc_MinPayoutSats c) (hub_margin (fc_HubMarginPct c)) (fc_BlindKeyDir c) (env_or env "ARFL_LND_HOST" (fc_LNDHost c))
    (env_int env "ARFL_LND_PORT" (fc_LNDPort c)) (env_or env "ARFL_LND_TLS_CERT_PATH" (fc_LNDTLSCertPath c))
    (env_or env "ARFL_LND_MACAROON_PATH" (fc_LNDMacaroonPath c)) (env_int env "ARFL_LND_FEE_LIMIT_SAT" (fc_LNDFeeLimitSat c)).
(** [read]: what the file holds, decoded. *)
Definition LoadHubConfig (env : string -> string) (read : string -> option HubConfig) (path : string) : option HubConfig := ApplyEnv env <$> read path.
Definition NodeSharePct (c : HubConfig) : Z := 100 - fc_HubMarginPct c.

(** ** Databases *)
(** filepath.Join of the result of Dir and a name *)
Definition beside_config (cfgPath : string) : string :=
  let dir := Dir cfgPath in
  if String.eqb dir "." then "arfl.db" else if String.eqb dir "/" then "/arfl.db" else Join dir "arfl.db".
(** The commands' database, and the daemon's. *)
Definition resolveDBPath (cfg : option HubConfig) (cfgPath : string) : string :=
  match cfg with
  | Some c => if str_empty (fc_DBPath c) then beside_config cfgPath else fc_DBPath c
  | None => beside_config cfgPath
  end.
Definition daemonDBPath (DefaultPath : string) (c : HubConfig) : string := if str_empty (fc_DBPath c) then DefaultPath else fc_DBPath c.
Abbreviation databases := (gmap string DB).
Definition db_at (path : string) (w : databases) : DB := default empty_db (w !! path).

(** ** Leases *)
Definition split_last (s : string) : option (string * ascii) :=
  match String.length s with O => None | S n => c ← String.get n s; Some (Nip44.str_take n s, c) end.
(** In nanoseconds *)
Definition parseDuration (s : string) : result string Z :=
  match split_last s with
  | None => Err "too short"%string
  | Some (numStr, unit) =>
      if slen s <? 2 then Err "too short"%string
      else match Sscanf_d numStr with
      | None => Err "invalid number"%string
      | Some n =>
          if n <=? 0 then Err "duration must be positive"%string
          else if Ascii.eqb unit "d" then Ok (wrap_i64 (wrap_i64 (n * 24) * 3600000000000))
          else if Ascii.eqb unit "h" then Ok (wrap_i64 (n * 3600000000000))
          else Err "unknown unit"%string
      end
  end.

Record attest_flags := mkFlags { af_nodePubkey : string; af_nodeWGKey : string; af_operator : string; af_role : string; af_lease : string }.
Definition roles_of (role : string) : list string := if String.eqb role "both" then ["entry"; "exit"]%string else [role].
Section commands.
Context `{Schnorr} `{AttestationJson}.
(** A clock reading in nanoseconds, and as the store writes it. *)
Implicit Types (now : Z * string).

Definition runAttest (cfg : option HubConfig) (cfgPath : string) (f : attest_flags) now (w : databases) : result string Attestation * databases :=
  if str_empty (af_nodePubkey f) || str_empty (af_nodeWGKey f) || str_empty (af_operator f) || str_empty (af_role f)
  then (Err "all flags are required"%string, w)
  else if negb (existsb (String.eqb (af_role f)) ["entry"; "exit"; "both"]%string) then (Err "--role must be entry, exit, or both"%string, w)
  else match cfg with
  | None => (Err "load config"%string, w)
  | Some c =>
      match KeyPairFromPrivHex (fc_NostrPrivkey c) with
      | Err _ => (Err "parse hub key"%string, w)
      | Ok hubKP =>
          let roles := roles_of (af_role f) in
          match CreateAttestation hubKP (now.1 / 1000000000) (af_nodePubkey f) (af_nodeWGKey f) (af_operator f) roles with
          | Err _ => (Err "create attestation"%string, w)
          | Ok att =>
              let encoded w' := (match json_Encode att with None => Err "encode attestation"%string | Some _ => Ok att end, w') in
              if str_empty (af_lease f) then encoded w
              else match parseDuration (af_lease f) with
              | Err e => (Err ("invalid --lease: " ++ e)%string, w)
              | Ok dur =>
                  let path := resolveDBPath cfg cfgPath in
                  match UpsertNodeLease now.2 (mkNodeLease (af_nodePubkey f) (af_nodeWGKey f) (af_operator f) roles now.1 (now.1 + dur) false) (db_at path w) with
                  | (Err _, db) => (Err "store lease"%string, <[path := db]> w)
                  | (Ok _, db) => encoded (<[path := db]> w)
                  end
              end
          end
      end
  end.
Definition runRevoke (cfg : option HubConfig) (cfgPath node : string) now (w : databases) : result string unit * databases :=
  if str_empty node then (Err "node-pubkey is required"%string, w)
  else
    let path := resolveDBPath cfg cfgPath in
    let '(r, db) := RevokeNodeLease now.2 node (db_at path w) in
    (match r with Ok _ => Ok tt | Err _ => Err "no lease found"%string end, <[path := db]> w).
Definition runRenew (cfg : option HubConfig) (cfgPath node lease : string) now (w : databases) : result string unit * databases :=
  if str_empty node || str_empty lease then (Err "usage"%string, w)
  else match parseDuration lease with
  | Err e => (Err ("invalid --lease: " ++ e)%string, w)
  | Ok dur =>
      let path := resolveDBPath cfg cfgPath in
      let '(r, db) := RenewNodeLease now.2 node (now.1 + dur) (db_at path w) in
      (match r with Ok _ => Ok tt | Err _ => Err "no lease found"%string end, <[path := db]> w)
  end.
(** The status column of list-nodes *)
Definition lease_status (now_ns : Z) (l : NodeLease) : string :=
  if nl_Revoked l then "REVOKED" else if nl_LeaseEnd l <? now_ns then "EXPIRED" else "ACTIVE".
Definition runListNodes (cfg : option HubConfig) (cfgPath : string) now (w : databases) : list (NodeLease * string) :=
  (fun l => (l, lease_status now.1 l)) <$> ListNodeLeases (db_at (resolveDBPath cfg cfgPath) w).
End commands.

(** ** The life of leases *)
(** What happens at the hub: the operator's commands, a node's refresh, and anything
    else that leaves the leases. The state has the vouchers issued so far. *)
Inductive lease_event :=
| EvAttest (f : attest_flags)
| EvRevoke (node : string)
| EvRenew (node lease : string)
| EvRefresh (body : option AttestRefreshRequest) (method : http_method)
| EvOther (f : DB -> DB).
Section leases.
Context `{Schnorr} `{AttestationJson} (hc : hub_config) (cfg : HubConfig) (cfgPath hubPath : string) (idx : NodeIndex).
Definition issuing (r : result string Attestation) (issued : list Attestation) : list Attestation := match r with Ok a => a :: issued | Err _ => issued end.
Definition lease_step (now : Z * string) (e : lease_event) (s : databases * list Attestation) : databases * list Attestation :=
  let '(w, issued) := s in
  match e with
  | EvAttest f => let '(r, w') := runAttest (Some cfg) cfgPath f now w in (w', issuing r issued)
  | EvRevoke node => ((runRevoke (Some cfg) cfgPath node now w).2, issued)
  | EvRenew node lease => ((runRenew (Some cfg) cfgPath node lease now w).2, issued)
  | EvRefresh body method =>
      let '(answer, h) := handleAttestRefresh hc body (mkVisit (mkCallCtx now.1 now.2 "" true) method) (mkHub idx ∅ (db_at hubPath w)) in
      (<[hubPath := hb_db h]> w,
       match answer with
       | Some (Reply code encoded) => if code =? StatusOK then match json_Decode encoded with Some a => a :: issued | None => issued end else issued
       | _ => issued
       end)
  | EvOther f => (<[hubPath := f (db_at hubPath w)]> w, issued)
  end.
Fixpoint lease_run (es : list ((Z * string) * lease_event)) (s : databases * list Attestation) : databases * list Attestation :=
  match es with [] => s | (now, e) :: l => lease_run l (lease_step now e s) end.
(** Not an operator's word in favour of the node, and leases are changed by the
    commands only. *)
Definition no_grant (node : string) (e : lease_event) : Prop :=
  match e with
  | EvAttest f => af_nodePubkey f <> node
  | EvRenew n _ => n <> node
  | EvOther f => forall db, node_leases (f db) = node_leases db
  | _ => True
  end.
End leases.

Section revocation.
Context `{SchnorrLaws} `{AttestationJsonLaws} (hc : hub_config) (cfg : HubConfig) (cfgPath hubPath : string) (idx : NodeIndex) (kp : KeyPair).
Context (Hkp : hc_hubKP hc = Some kp) (Hleases : hc_leases hc = true) (Hown : own_key kp).

Lemma IsLeaseActive_leases ns k db db' : node_leases db' = node_leases db -> IsLeaseActive ns k db' = IsLeaseActive ns k db.
Proof. unfold IsLeaseActive, GetNodeLease. by intros ->. Qed.

(** Every row of the node says revoked. *)
Definition barred (node : string) (db : DB) : Prop := Forall (fun r => l_node_pubkey r = node -> l_revoked r = true) (node_leases db).
Lemma barred_inactive node ns db : barred node db -> IsLeaseActive ns node db = false.
Proof.
  intros Hb. unfold IsLeaseActive, GetNodeLease. destruct (sql_find (lease_is node) (node_leases db)) as [r|] eqn:Hf; [|done].
  apply sql_find_Some in Hf as [Hin Hk]. cbn. apply String.eqb_eq in Hk.
  by rewrite (proj1 (Forall_forall _ _) Hb r Hin Hk).
Qed.
Lemma update_lease_rows k f db : node_leases (update_lease k f db).2 = (fun r => if lease_is k r then f r else r) <$> node_leases db.
Proof. unfold update_lease. rewrite sql_update_map by done. done. Qed.
Lemma barred_update node k f db : (forall r, l_node_pubkey (f r) = l_node_pubkey r /\ (k = node -> l_revoked (f r) = true)) ->
  barred node db -> barred node (update_lease k f db).2.
Proof.
  intros Hf Hb. unfold barred. rewrite update_lease_rows, Forall_fmap. eapply Forall_impl; [exact Hb|].
  intros r Hr. cbn. unfold lease_is. destruct (String.eqb_spec (l_node_pubkey r) k) as [<-|]; [|done].
  destruct (Hf r) as [-> Hk]. done.
Qed.
Lemma revoked_barred now node db : barred node (RevokeNodeLease now node db).2.
Proof.
  unfold barred, RevokeNodeLease. rewrite update_lease_rows, Forall_fmap. apply Forall_forall. intros r _. cbn. unfold lease_is.
  by destruct (String.eqb_spec (l_node_pubkey r) node).
Qed.
Lemma barred_upsert node now lease db : nl_NodePubkey lease <> node -> barred node db -> barred node (UpsertNodeLease now lease db).2.
Proof.
  intros Hne Hb. unfold UpsertNodeLease, barred. cbn. unfold upsert. cbn. destruct (existsb _ _).
  - rewrite Forall_fmap. eapply Forall_impl; [exact Hb|]. intros r Hr. cbn. by destruct (String.eqb_spec (l_node_pubkey r) (nl_NodePubkey lease)).
  - apply Forall_app. split; [exact Hb|]. by constructor; [|constructor].
Qed.

(** The vouchers a step issues: for six hours, and in a refresh for a node whose
    lease runs. *)
Context (Hkey : KeyPairFromPrivHex (fc_NostrPrivkey cfg) = Ok kp).
Lemma attest_issued f now w a w' : runAttest (Some cfg) cfgPath f now w = (Ok a, w') ->
  at_NodePubkey a = af_nodePubkey f /\ at_ExpiresAt a = now.1 / 1000000000 + AttestationTTL.
Proof.
  unfold runAttest. destruct (str_empty _ || _ || _ || _); [done|]. destruct (negb _); [done|]. rewrite Hkey.
  destruct (CreateAttestation _ _ _ _ _ _) as [att|] eqn:Hc; [|done].
  destruct (CreateAttestation_Ok _ _ _ _ _ _ _ Hown Hc) as (_ & _ & Hn & _ & _ & _ & _ & He & _).
  destruct (json_Encode att) as [enc|]; cbn.
  - destruct (str_empty _); [by intros [= <- _]|]. destruct (parseDuration _); [|done]. by intros [= <- _].
  - destruct (str_empty _); [done|]. by destruct (parseDuration _).
Qed.
Lemma refresh_issued body v h encoded a : (handleAttestRefresh hc body v h).1 = Some (Reply StatusOK encoded) -> json_Decode encoded = Some a ->
  IsLeaseActive (cx_ns (vs_call v)) (at_NodePubkey a) (hb_db h) = true /\ at_ExpiresAt a = cx_ns (vs_call v) / 1000000000 + AttestationTTL.
Proof.
  intros Hr Hd. destruct body as [req|]; [|unfold handleAttestRefresh, only in Hr; rewrite Hkp in Hr; by destruct (negb _)].
  apply (refresh_answer hc kp) in Hr as (_ & att & new & []); [|done]. apply law_encode_decode in rn_encoded. rewrite Hd in rn_encoded. injection rn_encoded as <-.
  destruct (CreateAttestation_Ok _ _ _ _ _ _ _ Hown rn_new) as (_ & _ & -> & _ & _ & _ & _ & -> & _). split; [by apply rn_lease|done].
Qed.
Lemma refresh_keeps body v h : (handleAttestRefresh hc body v h).2 = h.
Proof. unfold handleAttestRefresh, only. by destruct (negb _). Qed.
Lemma db_at_insert p db w : db_at p (<[p := db]> w) = db.
Proof. unfold db_at. by rewrite lookup_insert_eq. Qed.

Definition short (limit : Z) (node : string) (a : Attestation) : Prop := at_NodePubkey a = node -> at_ExpiresAt a <= limit.
Lemma step_short limit node now e s : now.1 / 1000000000 + AttestationTTL <= limit -> Forall (short limit node) s.2 ->
  Forall (short limit node) (lease_step hc cfg cfgPath hubPath idx now e s).2.
Proof.
  intros Hnow. destruct s as [w issued]. cbn [snd]. intros Hall. destruct e as [f|n|n l|body m|f]; cbn [lease_step]; try done.
  - destruct (runAttest _ _ _ _ _) as [[a|] w'] eqn:Ha; cbn; [|done]. constructor; [|done]. destruct (attest_issued _ _ _ _ _ Ha) as [_ He]. intros _. by rewrite He.
  - set (v := mkVisit _ m). set (h := mkHub _ _ _). destruct (handleAttestRefresh hc body v h) as [answer h'] eqn:Hh. cbn [snd].
    destruct answer as [[code encoded|]|]; [|done..]. destruct (Z.eqb_spec code StatusOK) as [->|]; [|done].
    destruct (json_Decode encoded) as [a|] eqn:Hd; [|done]. constructor; [|done].
    destruct (refresh_issued body v h encoded a) as [_ He]; [by rewrite Hh|done|]. intros _. by rewrite He.
Qed.

Context (Hpath : hubPath = resolveDBPath (Some cfg) cfgPath).
Lemma step_barred limit node now e s : no_grant node e -> barred node (db_at hubPath s.1) -> Forall (short limit node) s.2 ->
  barred node (db_at hubPath (lease_step hc cfg cfgPath hubPath idx now e s).1) /\ Forall (short limit node) (lease_step hc cfg cfgPath hubPath idx now e s).2.
Proof.
  destruct s as [w issued]. cbn [fst snd]. intros Hg Hb Hall. destruct e as [f|n|n l|body m|f]; cbn [lease_step].
  - destruct (runAttest _ _ _ _ _) as [r w'] eqn:Ha. cbn. split.
    + revert Ha. unfold runAttest. rewrite <-Hpath. destruct (str_empty _ || _ || _ || _); [by intros [= _ <-]|]. destruct (negb _); [by intros [= _ <-]|]. rewrite Hkey.
      destruct (CreateAttestation _ _ _ _ _ _) as [att|]; [|by intros [= _ <-]]. destruct (str_empty _); [by intros [= _ <-]|].
      destruct (parseDuration _) as [dur|]; [|by intros [= _ <-]].
      destruct (UpsertNodeLease _ _ _) as [r0 db] eqn:Hu. assert (barred node db) as Hb' by (change db with (r0, db).2; rewrite <-Hu; by apply barred_upsert).
      destruct r0; intros [= _ <-]; by rewrite db_at_insert.
    + destruct r as [a|]; [|done]. constructor; [|done]. destruct (attest_issued _ _ _ _ _ Ha) as [Hn _]. intros E. by rewrite Hn in E.
  - split; [|done]. unfold runRevoke. rewrite <-Hpath. destruct (str_empty n); [done|]. destruct (RevokeNodeLease _ _ _) as [r db] eqn:Hr. cbn. rewrite db_at_insert.
    change db with (r, db).2. rewrite <-Hr. by apply barred_update.
  - split; [|done]. unfold runRenew. rewrite <-Hpath. destruct (str_empty n || _); [done|]. destruct (parseDuration l); [|done].
    destruct (RenewNodeLease _ _ _ _) as [r db] eqn:Hr. cbn. rewrite db_at_insert. change db with (r, db).2. rewrite <-Hr. by apply barred_update.
  - set (v := mkVisit _ m). set (h := mkHub _ _ _). pose proof (refresh_keeps body v h) as Hkeep.
    destruct (handleAttestRefresh hc body v h) as [answer h'] eqn:Hh. cbn [snd fst] in *. subst h'. rewrite db_at_insert. split; [exact Hb|].
    destruct answer as [[code encoded|]|]; [|done..]. destruct (Z.eqb_spec code StatusOK) as [->|]; [|done].
    destruct (json_Decode encoded) as [a|] eqn:Hd; [|done]. constructor; [|done].
    destruct (refresh_issued body v h encoded a) as [Hact _]; [by rewrite Hh|done|]. intros E. rewrite E in Hact. cbn in Hact.
    by rewrite (barred_inactive _ _ _ Hb) in Hact.
  - cbn. rewrite db_at_insert. split; [|done]. unfold barred. by rewrite Hg.
Qed.
End revocation.

(** C33: a revoked node drops off. Whatever the hub and its operator did before, once
    [revoke] answers for a node and no operator attests or renews it afterwards, no
    voucher of it, issued before or after, by command or by refresh, is accepted
    six hours after the revocation or later, by whoever trusts the hub; the
    commands read the hub's configuration, which names its database. *)
Theorem revoked_node_drops_off `{SchnorrLaws} `{AttestationJsonLaws} hc cfg cfgPath DefaultPath idx kp es es' node now w
    (Hkp : hc_hubKP hc = Some kp) (Hleases : hc_leases hc = true) (Hown : own_key kp)
    (Hkey : KeyPairFromPrivHex (fc_NostrPrivkey cfg) = Ok kp) (Hdb : str_empty (fc_DBPath cfg) = false)
    (Hbefore : Forall (fun e => e.1.1 <= now.1) es) (Hafter : Forall (fun e => no_grant node e.2) es') :
  let run := lease_run hc cfg cfgPath (daemonDBPath DefaultPath cfg) idx in
  let s := run es (∅, []) in
  runRevoke (Some cfg) cfgPath node now s.1 = (Ok tt, w) ->
  forall a trusted t, a ∈ (run es' (w, s.2)).2 -> at_NodePubkey a = node ->
    VerifyAttestation trusted t a = Ok tt -> t <= now.1 / 1000000000 + AttestationTTL.
Proof.
  intros run s Hrev a trusted t Hin Hn (_ & Ht & _)%VerifyAttestation_Ok. set (hubPath := daemonDBPath DefaultPath cfg) in run.
  assert (hubPath = resolveDBPath (Some cfg) cfgPath) as Hpath by (unfold hubPath, daemonDBPath, resolveDBPath; by rewrite Hdb).
  set (limit := now.1 / 1000000000 + AttestationTTL) in *.
  assert (forall s0, Forall (short limit node) s0.2 -> Forall (short limit node) (run es s0).2) as Hfirst.
  { clear Hrev Hin s. induction Hbefore as [|[tm e] l Hle _ IH]; intros s0 Hs; [done|]. cbn in Hle. apply IH, step_short with (kp := kp); try done.
    unfold limit. pose proof (Z.div_le_mono tm.1 now.1 1000000000 ltac:(lia) Hle). lia. }
  assert (barred node (db_at hubPath w)) as Hb.
  { revert Hrev. unfold runRevoke. rewrite <-Hpath. destruct (str_empty node); [done|]. destruct (RevokeNodeLease _ _ _) as [r db] eqn:Hr.
    intros [= _ <-]. rewrite db_at_insert. change db with (r, db).2. rewrite <-Hr. apply revoked_barred. }
  assert (forall s0, barred node (db_at hubPath s0.1) -> Forall (short limit node) s0.2 -> Forall (short limit node) (run es' s0).2) as Hsecond.
  { clear Hrev Hfirst Hb Hin s. induction Hafter as [|[tm e] l Hg _ IH]; intros s0 Hs0 Hs1; [done|].
    destruct (step_barred hc cfg cfgPath hubPath idx kp Hkp Hleases Hown Hkey Hpath limit node tm e s0 Hg Hs0 Hs1) as [Hx Hy]. by apply IH. }
  pose proof (Hsecond (w, s.2) Hb (Hfirst (∅, []) (Forall_nil_2 _))) as Hall. pose proof (proj1 (Forall_forall _ _) Hall a Hin Hn). lia.
Qed.

(** ** Settlement by periods *)
Section periods.
Context (RFC3339 : Z -> string).   (* of a whole second, in UTC *)
Definition period (interval t : Z) : string * string := (RFC3339 (unix (t - interval)), RFC3339 (unix t)).
(** A tick of runPeriodicSettlement. *)
Definition settlement_tick (e : SettlementEngine) (env : pay_env) (range : Settlement.map_order) (now : string) (interval t : Z) (db : DB) : DB * list Settlement.call :=
  let '(from, to) := period interval t in
  let '(res, db1, cs) := RunSettlement e env range now from to db in
  match res with
  | Err _ => (db1, cs)
  | Ok _ => let '(_, _, db2, cs') := RetryFailedPayouts env now db1 in (db2, cs ++ cs')
  end.
Definition settlement_interval (hours : Z) : Z := if 0 <? hours then wrap_i64 (hours * 3600000000000) else 6 * 3600000000000.
(** The ticker's ticks, none of them dropped *)
Definition tick (start interval : Z) (k : nat) : Z := start + (Z.of_nat k + 1) * interval.
Definition in_period (interval t : Z) (r : UsageRow) : bool := let '(from, to) := period interval t in received_in from to r.

Context (Hmono : forall s s', s < s' <-> str_lt (RFC3339 s) (RFC3339 s') = true).
Context (Hle : forall s s', s <= s' <-> str_le (RFC3339 s) (RFC3339 s') = true).
(** The periods tile the time since the first start of the ticker: a report is in
    the period of exactly one tick, or it came before the hub was started, and then
    in none. *)
Lemma periods_tile start hours n r s : hours <= 2562047 -> u_received_at r = RFC3339 s ->
  let interval := settlement_interval hours in
  length (bfilter (fun k => in_period interval (tick start interval k) r) (seq 0 n)) =
    if (unix start <=? s) && (s <? unix (start + Z.of_nat n * interval)) then 1%nat else 0%nat.
Proof.
  intros Hhours Hr interval.
  assert (exists h, 0 < h /\ interval = h * 1000000000) as (h & Hh & Hi).
  { unfold interval, settlement_interval. destruct (Z.ltb_spec 0 hours); [exists (hours * 3600); rewrite wrap_i64_id by (unfold in_i64; lia)|exists 21600]; lia. }
  assert (forall k, unix (start + k * interval) = unix start + k * h) as Hu.
  { intros k. unfold unix. rewrite Hi. replace (start + k * (h * 1000000000)) with (start + k * h * 1000000000) by lia. by rewrite Z.div_add. }
  assert (forall k, in_period interval (tick start interval k) r = (unix start + Z.of_nat k * h <=? s) && (s <? unix start + (Z.of_nat k + 1) * h)) as Hin.
  { intros k. unfold in_period, period, received_in, tick. rewrite Hr.
    replace (start + (Z.of_nat k + 1) * interval - interval) with (start + Z.of_nat k * interval) by lia. rewrite !Hu. f_equal.
    - apply eq_true_iff_eq. by rewrite <-Hle, Z.leb_le.
    - apply eq_true_iff_eq. by rewrite <-Hmono, Z.ltb_lt. }
  induction n as [|n IH].
  - change (Z.of_nat 0) with 0. rewrite Hu. destruct (Z.leb_spec (unix start) s), (Z.ltb_spec s (unix start + 0 * h)); cbn; lia.
  - rewrite seq_S, bfilter_app, length_app, IH, !Hu. cbn [bfilter List.filter plus]. rewrite Hin.
    replace (Z.of_nat (S n)) with (Z.of_nat n + 1) by lia.
    destruct (Z.leb_spec (unix start) s), (Z.ltb_spec s (unix start + Z.of_nat n * h)),
      (Z.leb_spec (unix start + Z.of_nat n * h) s), (Z.ltb_spec s (unix start + (Z.of_nat n + 1) * h)); cbn; nia.
Qed.
End periods.

(** ** Announcements *)
Section announcements.
Context `{Schnorr} `{AttestationJson} `{NodeCodec} (err_text : index_error -> string).
(** One turn of the loop: the index and how often each rejection was seen; [None]
    when writing the log panics. *)
Definition announce_step (now : Z) (event : Event) (s : NodeIndex * gmap string Z) : option (NodeIndex * gmap string Z) :=
  let '(idx, rejectionCount) := s in
  match ProcessEvent now event idx with
  | (Ok _, idx') => Some (idx', rejectionCount)
  | (Err e, idx') =>
      let key := (ev_Pubkey event ++ ":" ++ err_text e)%string in
      let n := default 0 (rejectionCount !! key) + 1 in
      if (n <=? 3) && (slen (ev_Pubkey event) <? 16) then None else Some (idx', <[key := n]> rejectionCount)
  end.
(** Any event with a short key, as a relay may deliver it, ends the hub. *)
Lemma short_pubkey_stops_hub now event idx : ev_Kind event <> NostrKindNodeAnnouncement -> slen (ev_Pubkey event) < 16 ->
  announce_step now event (idx, ∅) = None.
Proof.
  intros Hk Hl. unfold announce_step, ProcessEvent, vet. destruct (Z.eqb_spec (ev_Kind event) NostrKindNodeAnnouncement); [done|]. cbn [negb].
  rewrite lookup_empty. cbn. by apply Z.ltb_lt in Hl as ->.
Qed.
End announcements.

(** ** Routes *)
(** http.ServeMux: a pattern that ends in a slash is for all paths below; the
    longest pattern that matches is taken. *)
Fixpoint ends_in_slash (s : string) : bool :=
  match s with EmptyString => false | String c EmptyString => Ascii.eqb c "/" | String _ r => ends_in_slash r end.
Definition pattern_matches (p path : string) : bool := if ends_in_slash p then String.prefix p path else String.eqb p path.
Fixpoint serve {A} (best : option (string * A)) (table : list (string * A)) (path : string) : option A :=
  match table with
  | [] => snd <$> best
  | (p, h) :: r =>
      if pattern_matches p path && match best with Some (q, _) => (String.length q <? String.length p)%nat | None => true end
      then serve (Some (p, h)) r path else serve best r path
  end.
Inductive hub_api := ADiscovery | APurchase.
#[export] Instance hub_api_eq_dec : EqDecision hub_api.
Proof. solve_decision. Defined.
Definition hub_mux : list (string * hub_api) :=
  [("/nodes", ADiscovery); ("/health", ADiscovery); ("/announce", ADiscovery); ("/info", ADiscovery); ("/node/", ADiscovery); ("/attest/", ADiscovery);
   ("/purchase", APurchase); ("/purchase/", APurchase); ("/report", APurchase); ("/redeem", APurchase); ("/spend", APurchase);
   ("/v1/keys", ADiscovery); ("/v1/keysets", ADiscovery); ("/v1/mint/", ADiscovery); ("/v1/swap", ADiscovery); ("/v1/checkstate", ADiscovery);
   ("/v1/redeem", ADiscovery)]%string.
(** What the two APIs serve when everything is enabled *)
Definition api_routes (a : hub_api) : list string :=
  match a with
  | ADiscovery => ["/nodes"; "/health"; "/announce"; "/info"; "/node/"; "/attest/refresh"; "/node/wallet"; "/node/withdraw"; "/v1/keys"; "/v1/keysets";
      "/v1/mint/quote/bolt11"; "/v1/mint/quote/bolt11/"; "/v1/mint/bolt11"; "/v1/swap"; "/v1/checkstate"; "/v1/redeem"]%string
  | APurchase => ["/purchase"; "/purchase/"; "/report"; "/redeem"; "/spend"]%string
  end.
(** Every path an API serves reaches that API. *)
Lemma routes_reach a p path : p ∈ api_routes a -> pattern_matches p path = true -> serve None hub_mux path = Some a.
Proof.
  intros Hp Hm. assert (forall r, String.prefix "" r = true) as Hnil by apply prefix_empty.
  unfold pattern_matches in Hm. destruct (ends_in_slash p) eqn:He; [apply prefix_spec in Hm as [r ->]|apply String.eqb_eq in Hm as <-];
    destruct a; cbn in Hp; repeat (apply elem_of_cons in Hp as [->|Hp]; [try discriminate He; try (vm_compute; reflexivity)|]); try (by apply not_elem_of_nil in Hp).
  all: cbv -[String.prefix]; cbn; by rewrite ?Hnil.
Qed.

(** ** Examples *)
Definition toy_att_text (a : Attestation) : string :=
  fields_text (at_Protocol a :: at_HubPubkey a :: at_NodePubkey a :: at_NodeWGPubkey a :: at_OperatorID a :: toy_write (at_IssuedAt a) ::
    toy_write (at_ExpiresAt a) :: at_ID a :: at_Signature a :: at_AllowedRoles a).
Definition toy_text_att (s : string) : option Attestation :=
  match text_fields s with
  | Some (p :: h :: n :: w :: o :: i :: e :: id :: sg :: roles) =>
      i ← toy_read i; e ← toy_read e; Some (mkAttestation p h n w o roles i e id sg)
  | _ => None
  end.
#[local] Instance toy_vouchers : AttestationJson := {|
  marshal_content := fun a => Some (toy_content a);
  json_Encode := fun a => Some (toy_att_text a);
  json_Decode := toy_text_att
|}.
#[local] Instance toy_vouchers_laws : AttestationJsonLaws.
Proof.
  split; [done|]. intros a s [= <-]. cbn. unfold toy_text_att, toy_att_text. rewrite text_fields_text by done. rewrite !toy_read_write. by destruct a.
Qed.
Definition toy_cfg (db : string) : HubConfig :=
  mkHubCfg "" (hex_encode (pad32 "hub")) "" [] db "" 0 0 0 "" "" 0 "" "" 0.
Definition toy_hub_cfg : hub_config := mkHubConfig NewDiscoveryAPI_limits (Some toy_key) true None false false.
Definition toy_flags (role : string) : attest_flags := mkFlags (PubkeyHex toy_key) "wg-1" "op-1" role "90d".
Definition toy_at (s : Z) : Z * string := (s * 1000000000, "now"%string).
Definition toy_refresh (old : string) (s : Z) : (Z * string) * lease_event := (toy_at s, EvRefresh (refresh_request toy_key old s) POST).
Definition toy_roles (s : Z) (roles : list string) : Attestation :=
  with_seal (hex_encode (pad32 (attestation_protocol ++ PubkeyHex toy_key))) (hex_encode (pad32 (attestation_protocol ++ PubkeyHex toy_key)))
    (mkAttestation attestation_protocol (PubkeyHex toy_key) (PubkeyHex toy_key) "wg-1" "op-1" roles s (s + AttestationTTL) "" "").
Definition toy_lease_run (db : string) := lease_run toy_hub_cfg (toy_cfg db) "hub.json" (daemonDBPath "/var/hub.db" (toy_cfg db)) (NewNodeIndex []).
Definition toy_es : list ((Z * string) * lease_event) :=
  [(toy_at 1000, EvAttest (toy_flags "both")); toy_refresh (toy_att_text (toy_roles 1000 ["entry"; "exit"])) 9000].
Definition toy_es' : list ((Z * string) * lease_event) := [toy_refresh (toy_att_text (toy_roles 9000 ["entry"; "exit"])) 11000].
Lemma revoked_node_drops_off_witness :
  let s := toy_lease_run "arfl.db" toy_es (∅, []) in
  let '(r, w) := runRevoke (Some (toy_cfg "arfl.db")) "hub.json" (PubkeyHex toy_key) (toy_at 10000) s.1 in
  r = Ok tt /\ (toy_lease_run "arfl.db" toy_es' (w, s.2)).2 = [toy_roles 9000 ["entry"; "exit"]; toy_roles 1000 ["entry"; "exit"]]%string /\
  VerifyAttestation [PubkeyHex toy_key] 31601 (toy_roles 9000 ["entry"; "exit"]%string) <> Ok tt.
Proof.
  intros s. destruct (runRevoke _ _ _ _ _) as [r w] eqn:Hr.
  assert (r = Ok tt) as -> by (change r with (r, w).1; rewrite <-Hr; vm_compute; reflexivity). split; [done|].
  assert ((toy_lease_run "arfl.db" toy_es' (w, s.2)).2 = [toy_roles 9000 ["entry"; "exit"]; toy_roles 1000 ["entry"; "exit"]]%string) as Hs.
  { change w with (@Ok string unit tt, w).2. rewrite <-Hr. vm_compute. reflexivity. }
  split; [exact Hs|]. intros Hv.
  pose proof (revoked_node_drops_off toy_hub_cfg (toy_cfg "arfl.db") "hub.json" "/var/hub.db" (NewNodeIndex []) toy_key toy_es toy_es' (PubkeyHex toy_key) (toy_at 10000) w
    eq_refl eq_refl eq_refl eq_refl eq_refl ltac:(repeat constructor; vm_compute; discriminate) ltac:(repeat constructor) Hr
    (toy_roles 9000 ["entry"; "exit"]%string) [PubkeyHex toy_key] 31601) as Hle.
  assert (31601 <= 31600); [|lia]. apply Hle; [|reflexivity|exact Hv].
  change (toy_roles 9000 ["entry"; "exit"]%string ∈ (toy_lease_run "arfl.db" toy_es' (w, s.2)).2). rewrite Hs. left.
Defined.

(** With no database in the configuration the commands keep leases beside it, and
    the hub does not know them. *)
Example commands_miss_hub :
  let w := (toy_lease_run "" [(toy_at 1000, EvAttest (toy_flags "both"))] (∅, [])).1 in
  IsLeaseActive 2000000000000 (PubkeyHex toy_key) (db_at "arfl.db" w) = true /\
  IsLeaseActive 2000000000000 (PubkeyHex toy_key) (db_at (daemonDBPath "/var/hub.db" (toy_cfg "")) w) = false.
Proof. vm_compute. by split. Qed.
(** A node whose lease was narrowed to [entry] still renews a voucher for both. *)
Example narrowed_lease_keeps_roles :
  let s := toy_lease_run "arfl.db"
    [(toy_at 1000, EvAttest (toy_flags "both")); (toy_at 5000, EvAttest (toy_flags "entry")); toy_refresh (toy_att_text (toy_roles 1000 ["entry"; "exit"])) 9000] (∅, []) in
  (nl_AllowedRoles <$> GetNodeLease (PubkeyHex toy_key) (db_at "arfl.db" s.1)) = Some ["entry"]%string /\
  head s.2 = Some (toy_roles 9000 ["entry"; "exit"]%string).
Proof. vm_compute. by split. Qed.
(** A lease of three hundred years ends before it begins. *)
Example long_lease_wraps : exists d, parseDuration "109500d" = Ok d /\ d < 0.
Proof. eexists. split; [vm_compute; reflexivity|lia]. Qed.

(** An interval the setup helper accepts and the ticker does not. *)
Example long_interval_wraps : settlement_interval 2562048 < 0.
Proof. vm_compute. reflexivity. Qed.

(** A session reported in two periods, cumulatively, is billed in each: half of
    the ticket and then all of it. *)
Definition spanning_ops : list op :=
  [ OInsertInvoice "t0" "ph" "lnbc1" 100 "custom" 100000000 "t9" "1.2.3.4";
    OSettleInvoice "t0" "ph";
    OInsertTicket "t0" "tkt" "ph" 100000000 "mac";
    ORedeemTicket "t0" "tkt" "gw";
    OInsertUsageReport "t1" "sess" "tkt" "alice" "entry" 50000000 "t1" "sig";
    OInsertUsageReport "t1" "sess" "tkt" "bob" "exit" 50000000 "t1" "sig";
    OInsertUsageReport "t2" "sess" "tkt" "alice" "entry" 100000000 "t2" "sig";
    OInsertUsageReport "t2" "sess" "tkt" "bob" "exit" 100000000 "t2" "sig" ].
Example session_billed_each_period :
  let run from to db := (create_entries NewSettlementEngine demo_range "t4" from to db).2 in
  let billed db := s_amount_sats <$> bfilter (fun r => String.eqb (s_node_pubkey r) "alice") (settlement_entries db) in
  let db := run_ops spanning_ops empty_db in
  billed (run "t1" "t3" db) = [40] /\ billed (run "t2" "t3" (run "t1" "t2" db)) = [20; 40].
Proof. vm_compute. by split. Qed.
