(* ===== verification/NodeConfig.v ===== *)
(** * NodeConfig: the node daemon's configuration and its firewall
    (src/cmd/arfl-node/main.go; NodeConfig of src/internal/config/config.go;
    src/internal/routing/nat.go)

    The start of the daemon with what ends it, what a node announces of itself, its
    transports and where it can be reached, the subnet of its clients, its load, and
    the iptables rules it adds and removes. Spaces are ASCII. *)
From S2P Require Import Prelude Sql Schema Credentials Repository Nostr Attestation Selector Discovery IPPool Nip44 HostNet ClientConnect ServiceNodes VaultFile HubKeys.

Record NodeConfig := mkNodeCfg {
  nc_Role : string; nc_ListenPort : Z; nc_PrivateKey : string; nc_TunnelIP : string; nc_Interface : string; nc_OutInterface : string;
  nc_AdminAddr : string; nc_MTU : Z; nc_NostrPrivkey : string; nc_HubPubkey : string; nc_AttestationJSON : string; nc_Relays : list string;
  nc_Endpoint : string; nc_UploadMbps : Z; nc_DownloadMbps : Z; nc_Capacity : Z; nc_HubURL : string; nc_HubPubkeyFile : string;
  nc_ConnectAddr : string; nc_EnabledTransports : list string; nc_TransportEndpoints : gmap string string; nc_TransportConnectAddr : gmap string string
}.

(** ** Addresses *)
(** strings.Trim with the cutset of brackets *)
Definition is_bracket (c : ascii) : bool := Ascii.eqb c "[" || Ascii.eqb c "]".
Fixpoint drop_left (p : ascii -> bool) (s : string) : string :=
  match s with String c r => if p c then drop_left p r else s | EmptyString => "" end.
Fixpoint drop_right (p : ascii -> bool) (s : string) : string :=
  match s with
  | EmptyString => ""
  | String c r => match drop_right p r with EmptyString => if p c then "" else String c "" | r' => String c r' end
  end.
Definition Trim (p : ascii -> bool) (s : string) : string := drop_right p (drop_left p s).
(** net.JoinHostPort *)
Definition JoinHostPort (host port : string) : string :=
  if has_byte ":" host then ("[" ++ host ++ "]:" ++ port)%string else (host ++ ":" ++ port)%string.
Definition parseHost (endpoint : string) : string :=
  if str_empty endpoint then "" else match SplitHostPort endpoint with Some (host, _) => host | None => Trim is_bracket endpoint end.
Definition parsePort (addr : string) : string :=
  if str_empty addr then ""
  else match SplitHostPort addr with
  | Some (_, port) => port
  | None => match last_byte ":" addr with Some idx => if (idx + 1 <? String.length addr)%nat then drop_bytes (idx + 1) addr else "" | None => "" end
  end.
Definition derivePublicConnectURL (endpoint connectAddr : string) : string :=
  if str_empty connectAddr || str_empty endpoint then ""
  else
    let host := parseHost endpoint in
    let port := parsePort connectAddr in
    if str_empty host || str_empty port then "" else ("http://" ++ JoinHostPort host port)%string.
Definition deriveTunnelSubnet (tunnelIP : string) : string :=
  match split_on "." (hd "" (split_on "/" tunnelIP)) with
  | a :: b :: c :: _ => (a ++ "." ++ b ++ "." ++ c)%string
  | _ => "10.100.0"
  end.

(** ** Transports *)
Definition parseTransport (raw : string) : option Transport :=
  let t := ToLower (TrimSpace raw) in if known_transport t then Some t else None.
Definition transportMapLookup (values : gmap string string) (raw canonical : string) : string :=
  let at_key k := TrimSpace (default "" (values !! k)) in
  if negb (str_empty (at_key canonical)) then at_key canonical
  else if negb (str_empty (at_key (ToLower (TrimSpace raw)))) then at_key (ToLower (TrimSpace raw))
  else at_key raw.
Definition endpoint_for (cfg : NodeConfig) (raw : string) (t : Transport) : string :=
  let endpoint := transportMapLookup (nc_TransportEndpoints cfg) raw t in
  if str_empty endpoint && String.eqb t TransportWireGuard then nc_Endpoint cfg else endpoint.
Fixpoint caps_loop (cfg : NodeConfig) (connectURL : string) (seen : gset Transport) (enabled : list string) : list TransportCapability :=
  match enabled with
  | [] => []
  | raw :: r =>
      match parseTransport raw with
      | None => caps_loop cfg connectURL seen r
      | Some t =>
          if bool_decide (t ∈ seen) then caps_loop cfg connectURL seen r
          else if str_empty (endpoint_for cfg raw t) then caps_loop cfg connectURL seen r
          else mkCapability t (endpoint_for cfg raw t) connectURL :: caps_loop cfg connectURL ({[t]} ∪ seen) r
      end
  end.
Definition enabled_of (cfg : NodeConfig) : list string := match nc_EnabledTransports cfg with [] => [TransportWireGuard] | l => l end.
Definition buildTransportCapabilities (cfg : NodeConfig) (defaultConnectURL : string) : list TransportCapability :=
  caps_loop cfg defaultConnectURL ∅ (enabled_of cfg).
Definition preferredTransport (caps : list TransportCapability) : Transport :=
  match caps with c :: _ => tc_Transport c | [] => TransportWireGuard end.
Definition checkTransportConfig (cfg : NodeConfig) (caps : list TransportCapability) : result string unit :=
  match nc_EnabledTransports cfg, caps with _ :: _, [] => Err "enabled_transports produced no advertisable transport"%string | _, _ => Ok tt end.
Inductive warning := UnknownTransport (raw : string) | NoEndpoint (t : Transport).
Definition unadvertisedTransports (cfg : NodeConfig) (caps : list TransportCapability) : list warning :=
  omap (fun raw => match parseTransport raw with
                   | None => Some (UnknownTransport raw)
                   | Some t => if bool_decide (t ∈ tc_Transport <$> caps) then None else Some (NoEndpoint t)
                   end) (nc_EnabledTransports cfg).

(** ** What a node announces *)
Definition role_of (s : string) : NodeRole :=
  if String.eqb s "entry" then RoleEntry else if String.eqb s "exit" then RoleExit else if String.eqb s "both" then RoleBoth else RoleOther s.
(** nodeInfoFn of main; [load]: the peers with traffic at the last poll. *)
Definition nodeInfoFn (cfg : NodeConfig) (nostrPubkey wgPubKeyB64 : string) (load : Z) : NodeInfo :=
  let defaultConnectURL := derivePublicConnectURL (nc_Endpoint cfg) (nc_ConnectAddr cfg) in
  let caps := buildTransportCapabilities cfg defaultConnectURL in
  mkNode "" nostrPubkey wgPubKeyB64 (nc_Endpoint cfg) defaultConnectURL caps "" 0 (nc_UploadMbps cfg) (nc_DownloadMbps cfg) load (nc_Capacity cfg)
    (role_of (nc_Role cfg)) "0.1.0" "" (preferredTransport caps).
(** A poll: the peers that moved any bytes, or what it was when the poll fails. *)
Definition pollByteCounters (stats : option (list Z)) (load : Z) : Z :=
  match stats with None => load | Some l => Z.of_nat (length (bfilter (fun total => 0 <? total) l)) end.
(** wg.ParseKey *)
Definition ParseKey (b64 : string) : option string := raw ← base64_DecodeString b64; if (String.length raw =? 32)%nat then Some raw else None.
(** Which parts of the node run *)
Record node_services := mkServices { ns_tokenGate : bool; ns_cashuGate : bool; ns_connectAPI : bool; ns_announcer : bool; ns_receiver : bool }.
Section start.
Context `{KeyCodec} `{Schnorr} `{AttestationJson}.
(** main, up to waiting for a signal: an error ends the daemon (log.Fatalf). [up]:
    the WireGuard interface could be made; [connected]: some relay answered. *)
Definition node_start (cfg : NodeConfig) (up connected : bool) : io Device node_services :=
  let given s := negb (str_empty s) in
  match ParseKey (nc_PrivateKey cfg) with
  | None => ifail "parse WireGuard key"
  | Some _ =>
      if negb up then ifail "create WireGuard interface"
      else match checkTransportConfig cfg (buildTransportCapabilities cfg (derivePublicConnectURL (nc_Endpoint cfg) (nc_ConnectAddr cfg))) with
      | Err e => ifail e
      | Ok _ =>
          tokenGate <~ (if given (nc_HubURL cfg) && given (nc_HubPubkeyFile cfg)
                        then key <~ LoadPublicKey (nc_HubPubkeyFile cfg) ;; match key with Ok _ => iret true | Err _ => ifail "load hub public key" end
                        else iret false) ;;
          cashuGate <~ (if given (nc_HubURL cfg) && given (nc_NostrPrivkey cfg)
                        then if is_ok (KeyPairFromPrivHex (nc_NostrPrivkey cfg)) then iret true else ifail "parse nostr key for cashu gate"
                        else iret false) ;;
          announcer <~ (if given (nc_NostrPrivkey cfg) && negb (bool_decide (nc_Relays cfg = []))
                        then if negb (is_ok (KeyPairFromPrivHex (nc_NostrPrivkey cfg))) then ifail "parse nostr private key"
                             else if given (nc_AttestationJSON cfg) && negb (bool_decide (is_Some (json_Decode (nc_AttestationJSON cfg)))) then ifail "parse attestation"
                             else iret connected
                        else iret false) ;;
          iret (mkServices tokenGate cashuGate (given (nc_ConnectAddr cfg)) announcer (cashuGate && announcer))
      end
  end.
End start.
(** Defaults main fills in *)
Definition with_defaults (cfg : NodeConfig) : NodeConfig :=
  mkNodeCfg (nc_Role cfg) (nc_ListenPort cfg) (nc_PrivateKey cfg) (nc_TunnelIP cfg) (nc_Interface cfg) (if str_empty (nc_OutInterface cfg) then "eth0" else nc_OutInterface cfg)
    (if str_empty (nc_AdminAddr cfg) then "127.0.0.1:9090" else nc_AdminAddr cfg) (if nc_MTU cfg =? 0 then 1280 else nc_MTU cfg) (nc_NostrPrivkey cfg) (nc_HubPubkey cfg)
    (nc_AttestationJSON cfg) (nc_Relays cfg) (nc_Endpoint cfg) (nc_UploadMbps cfg) (nc_DownloadMbps cfg) (nc_Capacity cfg) (nc_HubURL cfg) (nc_HubPubkeyFile cfg)
    (nc_ConnectAddr cfg) (nc_EnabledTransports cfg) (nc_TransportEndpoints cfg) (nc_TransportConnectAddr cfg).

(** ** nat.go: iptables *)
(** The rules of the two chains, in order, and which of the next commands fail. *)
Record firewall := mkFw { fw_post : list (list string); fw_forward : list (list string); fw_faults : list bool }.
Inductive chain := POSTROUTING | FORWARD.
#[export] Instance chain_eq_dec : EqDecision chain.
Proof. solve_decision. Defined.
Definition rules_of (c : chain) (w : firewall) : list (list string) := match c with POSTROUTING => fw_post w | FORWARD => fw_forward w end.
Definition set_rules (c : chain) (l : list (list string)) (w : firewall) : firewall :=
  match c with POSTROUTING => mkFw l (fw_forward w) (fw_faults w) | FORWARD => mkFw (fw_post w) l (fw_faults w) end.
Definition next_fault (w : firewall) : bool * firewall := (hd false (fw_faults w), mkFw (fw_post w) (fw_forward w) (tl (fw_faults w))).
(** iptables -A appends; -D deletes the first rule that is the same. *)
Fixpoint delete_first (x : list string) (l : list (list string)) : option (list (list string)) :=
  match l with [] => None | y :: r => if bool_decide (y = x) then Some r else cons y <$> delete_first x r end.
Definition iptables_A (c : chain) (x : list string) : io firewall unit := fun w =>
  let '(bad, w) := next_fault w in if bad : bool then (Err "exit status 4"%string, w) else (Ok tt, set_rules c (rules_of c w ++ [x]) w).
Definition iptables_D (c : chain) (x : list string) : io firewall unit := fun w =>
  let '(bad, w) := next_fault w in
  if bad : bool then (Err "exit status 4"%string, w)
  else match delete_first x (rules_of c w) with Some l => (Ok tt, set_rules c l w) | None => (Err "Bad rule"%string, w) end.
Definition subnetForIface (iface : string) : string :=
  if Contains iface "exit" || Contains iface "inner" then "10.200.0.0/16" else "10.100.0.0/16".
Definition nat_rules (wgIface outIface : string) : list (chain * list string) :=
  [(POSTROUTING, ["-s"; subnetForIface wgIface; "-o"; outIface; "-j"; "MASQUERADE"]);
   (FORWARD, ["-i"; wgIface; "-o"; outIface; "-j"; "ACCEPT"]);
   (FORWARD, ["-i"; outIface; "-o"; wgIface; "-m"; "state"; "--state"; "RELATED,ESTABLISHED"; "-j"; "ACCEPT"])]%string.
Fixpoint setup_loop (l : list (chain * list string)) : io firewall unit :=
  match l with [] => iret tt | (c, x) :: r => iptables_A c x ~> setup_loop r end.
Definition SetupNAT (wgIface outIface : string) : io firewall unit := setup_loop (nat_rules wgIface outIface).
(** The first error, when all were tried. *)
Fixpoint cleanup_loop (firstErr : option string) (l : list (chain * list string)) : io firewall unit :=
  match l with
  | [] => match firstErr with None => iret tt | Some e => ifail e end
  | (c, x) :: r => res <~ itry (iptables_D c x) ;; cleanup_loop (match firstErr, res with None, Err e => Some e | _, _ => firstErr end) r
  end.
Definition CleanupNAT (wgIface outIface : string) : io firewall unit := cleanup_loop None (nat_rules wgIface outIface).

(** The rules' part of main, on Linux: a configuration that is refused ends the
    daemon at once. *)
Definition node_setup (cfg : NodeConfig) : io firewall (result string unit) := itry (SetupNAT (nc_Interface cfg) (nc_OutInterface (with_defaults cfg))).
Definition node_run (cfg : NodeConfig) : io firewall unit :=
  _ <~ node_setup cfg ;;
  match checkTransportConfig cfg (buildTransportCapabilities cfg (derivePublicConnectURL (nc_Endpoint cfg) (nc_ConnectAddr cfg))) with
  | Err e => ifail e
  | Ok _ => _ <~ itry (CleanupNAT (nc_Interface cfg) (nc_OutInterface (with_defaults cfg))) ;; iret tt
  end.

(** ** Transports, proved *)
Lemma parseTransport_known raw t : parseTransport raw = Some t -> known_transport t = true /\ t <> ""%string.
Proof.
  unfold parseTransport. destruct (known_transport _) eqn:Hk; [|done]. intros [= <-]. split; [done|]. intros E. by rewrite E in Hk.
Qed.
Lemma caps_loop_url cfg url enabled : forall seen, Forall (fun c => tc_ConnectURL c = url) (caps_loop cfg url seen enabled).
Proof.
  induction enabled as [|raw r IH]; intros seen; [constructor|]. cbn [caps_loop]. destruct (parseTransport raw); [|done].
  destruct (bool_decide _); [done|]. destruct (str_empty _); [done|]. constructor; [done|apply IH].
Qed.
Lemma caps_loop_in cfg url enabled : forall seen,
  NoDup (tc_Transport <$> caps_loop cfg url seen enabled) /\
  forall t, t ∈ tc_Transport <$> caps_loop cfg url seen enabled <->
    t ∉ seen /\ exists raw, raw ∈ enabled /\ parseTransport raw = Some t /\ str_empty (endpoint_for cfg raw t) = false.
Proof.
  induction enabled as [|raw r IH]; intros seen; cbn [caps_loop].
  { split; [constructor|]. intros t. split; [intros H; by apply not_elem_of_nil in H|]. intros (_ & raw & H & _). by apply not_elem_of_nil in H. }
  assert (forall seen', (forall t, parseTransport raw = Some t -> t ∈ seen' \/ str_empty (endpoint_for cfg raw t) = true) ->
    NoDup (tc_Transport <$> caps_loop cfg url seen' r) /\
    forall t, t ∈ tc_Transport <$> caps_loop cfg url seen' r <->
       t ∉ seen' /\ exists raw', raw' ∈ raw :: r /\ parseTransport raw' = Some t /\ str_empty (endpoint_for cfg raw' t) = false) as Hskip.
  { intros seen' Hraw. destruct (IH seen') as [Hn Hin]. split; [done|].
    intros t. rewrite Hin. split; intros [Hs (x & Hx & Hp & He)]; (split; [done|]); exists x; (split; [|done]); [by right|].
    apply elem_of_cons in Hx as [->|Hx]; [|done]. destruct (Hraw t Hp) as [Hs'|He']; [done|congruence]. }
  destruct (parseTransport raw) as [t|] eqn:Hp; [|by apply Hskip].
  case_bool_decide as Hs; [apply Hskip; intros ? [= <-]; by left|].
  destruct (str_empty (endpoint_for cfg raw t)) eqn:He; [apply Hskip; intros ? [= <-]; by right|].
  destruct (Hskip ({[t]} ∪ seen)) as [Hn Hin]; [intros ? [= <-]; left; set_solver|]. cbn [fmap list_fmap tc_Transport]. split.
  - constructor; [rewrite Hin; set_solver|done].
  - intros t'. rewrite elem_of_cons, Hin. split.
    + intros [->|[Hs' Hx]]; [split; [done|]; exists raw; split_and!; [by left|done|done]|split; [set_solver|done]].
    + intros [Hs' Hx]. destruct (decide (t' = t)) as [->|Hne]; [by left|right; split; [set_solver|done]].
Qed.
(** The capability is that of the first entry that names its transport and has an
    endpoint. *)
Definition first_entry (cfg : NodeConfig) (enabled : list string) (c : TransportCapability) : Prop :=
  exists before raw after, enabled = before ++ raw :: after /\ parseTransport raw = Some (tc_Transport c) /\
    tc_Endpoint c = endpoint_for cfg raw (tc_Transport c) /\ str_empty (tc_Endpoint c) = false /\
    Forall (fun x => parseTransport x = Some (tc_Transport c) -> str_empty (endpoint_for cfg x (tc_Transport c)) = true) before.
Lemma first_entry_skip cfg raw r c : first_entry cfg r c ->
  (parseTransport raw = Some (tc_Transport c) -> str_empty (endpoint_for cfg raw (tc_Transport c)) = true) -> first_entry cfg (raw :: r) c.
Proof. intros (b & x & a & -> & Hp & He & Hne & Hb) Hraw. exists (raw :: b), x, a. split_and!; try done. by constructor. Qed.
Lemma caps_loop_first cfg url enabled : forall seen,
  Forall (fun c => tc_Transport c ∉ seen /\ first_entry cfg enabled c) (caps_loop cfg url seen enabled).
Proof.
  induction enabled as [|raw r IH]; intros seen; cbn [caps_loop]; [constructor|].
  destruct (parseTransport raw) as [t|] eqn:Hp; [|eapply Forall_impl; [apply IH|]; intros c [Hs Hc]; split; [done|apply first_entry_skip; [done|congruence]]].
  case_bool_decide as Hin; [eapply Forall_impl; [apply IH|]; intros c [Hs Hc]; split; [done|apply first_entry_skip; [done|rewrite Hp; naive_solver]]|].
  destruct (str_empty (endpoint_for cfg raw t)) eqn:He.
  { eapply Forall_impl; [apply IH|]. intros c [Hs Hc]. split; [done|]. apply first_entry_skip; [done|]. rewrite Hp. by intros [= <-]. }
  constructor; [split; [done|]; exists [], raw, r; by split_and!|].
  eapply Forall_impl; [apply IH|]. intros c [Hs Hc]. split; [by apply not_elem_of_union in Hs as [_ ?]|]. apply first_entry_skip; [done|]. rewrite Hp. intros [= E]. destruct Hs. apply elem_of_union_l, elem_of_singleton. done.
Qed.

(** A client reads such a list as it is. *)
Lemma capabilities_loop_id cs : forall seen, Forall (fun c => str_empty (tc_Transport c) = false /\ str_empty (tc_Endpoint c) = false /\ tc_Transport c ∉ seen) cs ->
  NoDup (tc_Transport <$> cs) -> capabilities_loop seen cs = cs.
Proof.
  induction cs as [|c cs IH]; intros seen Hall Hnd; [done|]. inversion Hall as [|? ? (Ht & He & Hs) Hall']; subst. apply NoDup_cons in Hnd as [Hnin Hnd].
  cbn [capabilities_loop]. rewrite Ht, He, bool_decide_false by done. cbn [orb]. f_equal. apply IH; [|done].
  apply Forall_forall. intros c' Hc'. apply (proj1 (Forall_forall _ _) Hall') in Hc' as Hx. destruct Hx as (? & ? & Hs'). split_and!; try done.
  apply not_elem_of_union. split; [|done]. rewrite elem_of_singleton. intros E. apply Hnin. apply list_elem_of_fmap. by exists c'.
Qed.
Lemma caps_usable cfg url : Forall (fun c => str_empty (tc_Transport c) = false /\ str_empty (tc_Endpoint c) = false /\ tc_Transport c ∉ (∅ : gset Transport))
  (buildTransportCapabilities cfg url).
Proof.
  eapply Forall_impl; [apply caps_loop_first|]. intros c [Hs (b & raw & a & _ & Hp & _ & Hne & _)]. split_and!; [|done|done].
  apply parseTransport_known in Hp as [_ Hp]. by destruct (tc_Transport c).
Qed.
Lemma advertised_capabilities cfg key wg load : let info := nodeInfoFn cfg key wg load in
  checkTransportConfig cfg (n_Transports info) = Ok tt -> capabilities info = n_Transports info.
Proof.
  intros info Hok. unfold capabilities. destruct (n_Transports info) as [|c cs] eqn:Hc.
  - assert (str_empty (nc_Endpoint cfg) = true) as He; [|change (n_Endpoint info) with (nc_Endpoint cfg); by rewrite He].
    unfold checkTransportConfig in Hok. destruct (nc_EnabledTransports cfg) eqn:Hen; [|done].
    subst info. cbn [nodeInfoFn n_Transports] in Hc. unfold buildTransportCapabilities, enabled_of in Hc. rewrite Hen in Hc. cbn [caps_loop] in Hc.
    change (parseTransport TransportWireGuard) with (Some TransportWireGuard) in Hc. cbv iota in Hc. rewrite bool_decide_false in Hc by set_solver.
    destruct (str_empty (endpoint_for _ _ _)) eqn:Hf; [|done]. unfold endpoint_for in Hf. change (String.eqb TransportWireGuard TransportWireGuard) with true in Hf. rewrite andb_true_r in Hf.
    destruct (str_empty (transportMapLookup _ _ _)) eqn:Hl; [done|by rewrite Hl in Hf].
  - rewrite <-Hc. apply capabilities_loop_id; [apply caps_usable|apply caps_loop_in].
Qed.
Lemma warnings_none cfg caps : unadvertisedTransports cfg caps = [] <->
  Forall (fun raw => exists t, parseTransport raw = Some t /\ t ∈ tc_Transport <$> caps) (nc_EnabledTransports cfg).
Proof.
  unfold unadvertisedTransports. induction (nc_EnabledTransports cfg) as [|raw r IH]; [done|]. cbn [omap list_omap]. rewrite Forall_cons.
  destruct (parseTransport raw) as [t|]; cbn [mbind option_bind].
  - case_bool_decide as Hin; [rewrite <-IH; naive_solver|]. split; [done|]. intros [(t' & [= <-] & ?) _]. done.
  - split; [done|]. intros [(t & [=] & _) _].
Qed.

(** The configuration with other connect addresses per transport *)
Definition with_connect_addrs (addrs : gmap string string) (cfg : NodeConfig) : NodeConfig :=
  mkNodeCfg (nc_Role cfg) (nc_ListenPort cfg) (nc_PrivateKey cfg) (nc_TunnelIP cfg) (nc_Interface cfg) (nc_OutInterface cfg) (nc_AdminAddr cfg) (nc_MTU cfg)
    (nc_NostrPrivkey cfg) (nc_HubPubkey cfg) (nc_AttestationJSON cfg) (nc_Relays cfg) (nc_Endpoint cfg) (nc_UploadMbps cfg) (nc_DownloadMbps cfg) (nc_Capacity cfg)
    (nc_HubURL cfg) (nc_HubPubkeyFile cfg) (nc_ConnectAddr cfg) (nc_EnabledTransports cfg) (nc_TransportEndpoints cfg) addrs.
Lemma caps_without_addrs addrs cfg url : caps_loop (with_connect_addrs addrs cfg) url ∅ (enabled_of (with_connect_addrs addrs cfg)) = caps_loop cfg url ∅ (enabled_of cfg).
Proof.
  change (enabled_of (with_connect_addrs addrs cfg)) with (enabled_of cfg). generalize (∅ : gset Transport).
  induction (enabled_of cfg) as [|raw r IH]; intros seen; [done|]. cbn [caps_loop].
  change (endpoint_for (with_connect_addrs addrs cfg)) with (endpoint_for cfg). destruct (parseTransport raw); by rewrite !IH.
Qed.


(** ** The firewall, proved *)
Definition without (x : list string) (l : list (list string)) : list (list string) := default l (delete_first x l).
Lemma delete_first_perm x l r : delete_first x l = Some r -> l ≡ₚ x :: r.
Proof.
  revert r. induction l as [|y l IH]; intros r; cbn; [done|]. case_bool_decide as E; [by intros [= <-]; subst|].
  destruct (delete_first x l) as [r'|]; [|done]. intros [= <-]. rewrite (IH r' eq_refl). by apply perm_swap.
Qed.
Lemma delete_first_none x l : delete_first x l = None -> x ∉ l.
Proof.
  induction l as [|y l IH]; cbn; [intros _ H; by apply not_elem_of_nil in H|]. case_bool_decide as E; [done|]. destruct (delete_first x l); [done|].
  intros _ [->|Hin]%elem_of_cons; [done|by apply IH].
Qed.
Lemma without_sub x l m : l ⊆+ x :: m -> without x l ⊆+ m.
Proof.
  unfold without. destruct (delete_first x l) as [r|] eqn:Hd; cbn.
  - apply delete_first_perm in Hd as ->. intros Hsub. by apply (submseteq_app_inv_l _ _ [x]).
  - intros [H|(l' & Hl & _)]%submseteq_cons_r; [done|]. destruct (delete_first_none _ _ Hd). rewrite Hl. by left.
Qed.
Lemma without_perm x l m : l ≡ₚ x :: m -> exists r, delete_first x l = Some r /\ r ≡ₚ m.
Proof.
  intros Hl. destruct (delete_first x l) as [r|] eqn:Hd; [|destruct (delete_first_none _ _ Hd); rewrite Hl; by left].
  exists r. split; [done|]. apply delete_first_perm in Hd. rewrite Hd in Hl. by apply (Permutation_cons_inv (a := x)).
Qed.

Lemma rules_set c d l w : rules_of d (set_rules c l w) = if decide (d = c) then l else rules_of d w.
Proof. by destruct c, d. Qed.
Lemma iptables_D_ok c x w : fw_faults w = [] -> exists r, iptables_D c x w = (r, set_rules c (without x (rules_of c w)) w) /\
  (forall m, rules_of c w ≡ₚ x :: m -> r = Ok tt).
Proof.
  intros Hf. unfold iptables_D, next_fault. rewrite Hf. cbn [hd tl]. replace (mkFw (fw_post w) (fw_forward w) []) with w by (destruct w; cbn in *; by subst).
  unfold without. destruct (delete_first x (rules_of c w)) as [l|] eqn:Hd; [by exists (Ok tt)|].
  exists (Err "Bad rule"%string). split; [by destruct c, w|]. intros m Hm. destruct (without_perm x _ m Hm) as (r & Hr & _). congruence.
Qed.
Definition chain_rules (c : chain) (l : list (chain * list string)) : list (list string) := omap (fun '(d, x) => if decide (d = c) then Some x else None) l.
Lemma setup_adds l : forall w r w1, setup_loop l w = (r, w1) ->
  forall c, rules_of c w1 ⊆+ rules_of c w ++ chain_rules c l /\ (r = Ok tt -> rules_of c w1 = rules_of c w ++ chain_rules c l).
Proof.
  induction l as [|[d x] l IH]; intros w r w1; cbn [setup_loop].
  { intros [= <- <-] c. cbn. rewrite app_nil_r. by split. }
  intros Hrun c. set (w0 := (next_fault w).2). assert (rules_of c w0 = rules_of c w) as Hw by (by destruct c).
  apply ibind_inv in Hrun as [(e & H & ->)|([] & w' & H & H')]; unfold iptables_A in H; change (next_fault w) with (hd false (fw_faults w), w0) in H;
    destruct (hd false (fw_faults w)); simplify_eq.
  - split; [|done]. rewrite Hw. by apply submseteq_inserts_r.
  - destruct (IH _ _ _ H' c) as [Hs He].
    rewrite rules_set in Hs, He. cbn [chain_rules omap list_omap] in *. case_decide as Hc; [subst|].
    + rewrite decide_True by done. cbn. rewrite Hw, <-app_assoc in Hs, He. done.
    + rewrite decide_False by (by intros ->). by rewrite Hw in Hs, He.
Qed.
Lemma cleanup_drops l : forall e w r w2, cleanup_loop e l w = (r, w2) -> fw_faults w = [] ->
  (forall c m, rules_of c w ⊆+ m ++ chain_rules c l -> rules_of c w2 ⊆+ m) /\
  forall m, (forall c, rules_of c w ≡ₚ m c ++ chain_rules c l) -> (e = None -> r = Ok tt) /\ forall c, rules_of c w2 ≡ₚ m c.
Proof.
  induction l as [|[d x] l IH]; intros e w r w2; cbn [cleanup_loop].
  { intros H Hf. assert (w2 = w /\ (e = None -> r = Ok tt)) as [-> Hr] by (by destruct e; injection H as <- <-).
    split; [intros c m|intros m Hm; split; [done|intros c; generalize (Hm c)]]; cbn; by rewrite app_nil_r. }
  intros [(e' & H & _)|(res & w' & H & H')]%ibind_inv Hf; [by apply itry_inv in H as (? & [=] & _)|]. apply itry_inv in H as (res' & [= ->] & H).
  destruct (iptables_D_ok d x w Hf) as (r0 & Hd & Hok). rewrite Hd in H. injection H as <- <-.
  assert (fw_faults (set_rules d (without x (rules_of d w)) w) = []) as Hf' by (by destruct d). destruct (IH _ _ _ _ H' Hf') as [Hsub Hperm]. split.
  - intros c m Hm. apply Hsub. rewrite rules_set. cbn [chain_rules omap list_omap] in Hm. destruct (decide (c = d)) as [->|Hc]; [|rewrite decide_False in Hm by (by intros ->); done].
    rewrite decide_True in Hm by done. apply without_sub. cbn in Hm. by rewrite Permutation_middle.
  - intros m Hm. destruct (Hperm m) as [Hr Hc].
    + intros c. pose proof (Hm c) as Hmc. rewrite rules_set. cbn [chain_rules omap list_omap] in Hmc. destruct (decide (c = d)) as [->|Hc]; [|rewrite decide_False in Hmc by (by intros ->); done].
      rewrite decide_True in Hmc by done. cbn in Hmc. rewrite <-Permutation_middle in Hmc. destruct (without_perm x _ _ Hmc) as (r' & Hr & Hp). unfold without. by rewrite Hr.
    + split; [|done]. intros ->. apply Hr. pose proof (Hm d) as Hmd. cbn [chain_rules omap list_omap] in Hmd. rewrite decide_True in Hmd by done. cbn in Hmd.
      rewrite <-Permutation_middle in Hmd. by rewrite (Hok _ Hmd).
Qed.

(** C38: the node leaves no firewall rules behind. Whatever commands failed while the
    rules were added, removing them leaves in each chain no rule more often than
    it was there before; and when adding succeeded, removing succeeds and leaves
    the rules that were there, up to their order. *)
Theorem nat_removed wgIface outIface w r1 w1 r2 w2 : SetupNAT wgIface outIface w = (r1, w1) ->
  CleanupNAT wgIface outIface (mkFw (fw_post w1) (fw_forward w1) []) = (r2, w2) ->
  (forall c, rules_of c w2 ⊆+ rules_of c w) /\ (r1 = Ok tt -> r2 = Ok tt /\ forall c, rules_of c w2 ≡ₚ rules_of c w).
Proof.
  intros Hs Hc. destruct (cleanup_drops _ _ _ _ _ Hc eq_refl) as [Hsub Hperm]. set (w1' := mkFw _ _ _) in *.
  assert (forall c, rules_of c w1' = rules_of c w1) as Hw by (by intros []). split.
  - intros c. apply Hsub. rewrite Hw. by apply (setup_adds _ _ _ _ Hs).
  - intros ->. destruct (Hperm (fun c => rules_of c w)) as [Hr Hall]; [intros c; rewrite Hw; by rewrite (proj2 (setup_adds _ _ _ _ Hs c) eq_refl)|]. split; [by apply Hr|done].
Qed.

(** ** Examples *)
Definition toy_node (role : string) (enabled : list string) (endpoints : gmap string string) : NodeConfig :=
  mkNodeCfg role 51820 "" "10.100.0.1/24" "wg-entry" "eth0" "127.0.0.1:9090" 1280 "aa" "" "" ["wss://relay"]%string "203.0.113.9:51820" 100 100 20
    "http://hub:8080" "" "0.0.0.0:9091" enabled endpoints ∅.
Definition toy_mixed : NodeConfig :=
  toy_node "entry" ["hysteria2"; " WireGuard"; "tor"; "wireguard"; "amneziawg"]%string {["hysteria2"%string := "203.0.113.9:443"%string]}.
Definition toy_hysteria_only : NodeConfig := toy_node "exit" ["Hysteria2"]%string {["Hysteria2"%string := " 203.0.113.9:443"%string]}.
Example toy_announced : n_Transports (nodeInfoFn toy_mixed "npub" "wg" 3) =
  [mkCapability TransportHysteria2 "203.0.113.9:443" "http://203.0.113.9:9091"; mkCapability TransportWireGuard "203.0.113.9:51820" "http://203.0.113.9:9091"] /\
  unadvertisedTransports toy_mixed (n_Transports (nodeInfoFn toy_mixed "npub" "wg" 3)) = [UnknownTransport "tor"; NoEndpoint TransportAmneziaWG].
Proof. by vm_compute. Qed.

(** The documentation announces the connect addresses of the transports: clients of
    this node are sent to its endpoint's host, and never to the one configured. *)
Example connect_addrs_not_announced :
  let cfg := with_connect_addrs {["hysteria2"%string := "198.51.100.7:9443"%string]} toy_hysteria_only in
  tc_ConnectURL <$> n_Transports (nodeInfoFn cfg "npub" "wg" 0) = ["http://203.0.113.9:9091"%string].
Proof. by vm_compute. Qed.
(** A node whose file with the hub's key is missing does not start. *)
Definition toy_gated : NodeConfig :=
  mkNodeCfg "exit" 51820 (base64_EncodeToString (pad32 "wg")) "10.100.0.1/24" "wg-exit" "eth0" "127.0.0.1:9090" 1280 (hex_encode (pad32 "n")) "" "" ["wss://relay"]%string
    "203.0.113.9:51820" 100 100 20 "http://hub:8080" "keys/key-100mb.pub.json" "0.0.0.0:9091" [] ∅ ∅.
Example missing_hub_key_stops_node :
  (node_start toy_gated true true (mkDev ∅ [] None [] [])).1 = Err "load hub public key"%string /\
  (node_start toy_gated true true (mkDev toy_first [] None [] [])).1 = Ok (mkServices true true true true true).
Proof. vm_compute. by split. Qed.

(** A rule of another program, and the second command fails. *)
Definition toy_fw : firewall := mkFw [["-o"; "eth0"; "-j"; "MASQUERADE"]]%string [] [false; true].
Lemma nat_removed_witness :
  (SetupNAT "wg-exit" "eth0" toy_fw).1 = Err "exit status 4"%string /\
  exists r2 w2, CleanupNAT "wg-exit" "eth0" (mkFw (fw_post (SetupNAT "wg-exit" "eth0" toy_fw).2) (fw_forward (SetupNAT "wg-exit" "eth0" toy_fw).2) []) = (r2, w2) /\
    (forall c, rules_of c w2 ⊆+ rules_of c toy_fw) /\ fw_post w2 = fw_post toy_fw.
Proof.
  split; [vm_compute; reflexivity|]. do 2 eexists. split; [vm_compute; reflexivity|]. split; [|reflexivity].
  refine (proj1 (nat_removed "wg-exit" "eth0" toy_fw (SetupNAT "wg-exit" "eth0" toy_fw).1 (SetupNAT "wg-exit" "eth0" toy_fw).2 (Err "Bad rule"%string) _ _ _)); vm_compute; reflexivity.
Defined.

(** Each start of a node whose transports are refused leaves its rules. *)
Example refused_node_leaves_rules :
  let run w := (node_run (toy_node "exit" ["tor"]%string ∅) w).2 in
  length (fw_post (run (run (mkFw [] [] [])))) = 2%nat /\ fw_post (node_run (toy_node "exit" [] ∅) (mkFw [] [] [])).2 = [].
Proof. by vm_compute. Qed.
