(* ===== verification/Registry.v ===== *)
(** * Registry: the published list of trusted hubs
    (src/internal/registry/registry.go, src/cmd/arfl-desktop/trusted.go,
    src/cmd/arfl-registry/main.go)

    Checking, fetching and caching the list, and the desktop's loop that keeps it
    fresh, over a device whose calls fail and whose power may go. encoding/json is
    the class [RegistryJson], url.Parse an argument; what the requests bring is a
    list of answers. *)
From S2P Require Import Prelude Sql Nostr Discovery Nip44 HostNet ClientConnect ServiceNodes VaultFile HubKeys NodeConfig.

Record Hub := mkHub { hb_Name : string; hb_URL : string; hb_Operator : string; hb_NostrPubkey : string; hb_Contact : string; hb_Added : string }.
Record HubList := mkHubList { hl_Version : Z; hl_Hubs : list Hub }.
Definition maxSize : Z := 256 * 1024.
Definition maxHubs : nat := 200.
Definition Fallback : HubList := mkHubList 1 [mkHub "ARFL Community Hub" "https://hub.arfl.us" "ARFL" "" "" ""].

(** url.URL, as far as it is looked at *)
Record URL := mkURL { u_Scheme : string; u_Host : string; u_Path : string; u_RawQuery : string }.
Class UrlParser := { url_Parse : string -> option URL }.
Definition is_digit (c : ascii) : bool := ((48 <=? nat_of_ascii c) && (nat_of_ascii c <=? 57))%nat.
Fixpoint all_chars (p : ascii -> bool) (s : string) : bool := match s with EmptyString => true | String c r => p c && all_chars p r end.
Definition brackets_off (h : string) : string :=
  if String.prefix "[" h && match last_byte "]" h with Some i => (i + 1 =? String.length h)%nat | None => false end
  then String.substring 1 (String.length h - 2) h else h.
(** URL.Hostname: without the port and the brackets *)
Definition Hostname (u : URL) : string :=
  let h := u_Host u in
  brackets_off (match last_byte ":" h with Some i => if all_chars is_digit (drop_bytes (i + 1) h) then Nip44.str_take i h else h | None => h end).
(** The cutsets of the two strings.Trim, which leave nothing when all is in them *)
Definition ip_char (c : ascii) : bool := is_digit c || Ascii.eqb c "." || Ascii.eqb c ":" || Ascii.eqb c "[" || Ascii.eqb c "]".
Definition hex_char (c : ascii) : bool := is_digit c || ((97 <=? nat_of_ascii c) && (nat_of_ascii c <=? 102))%nat.

(** encoding/json; unknown fields are refused, what follows the first value is not
    looked at. *)
Class RegistryJson := { registry_Marshal : HubList -> string; registry_Decode : string -> option HubList }.
Class RegistryJsonLaws `{RegistryJson} := {
  law_registry raw l : registry_Decode raw = Some l -> registry_Decode (registry_Marshal l) = Some l;
  law_registry_cut l s : String.prefix s (registry_Marshal l) = true -> s <> registry_Marshal l -> registry_Decode s = None
}.

(** ** The list *)
Section list.
Context `{UrlParser}.
Definition hub_validate (h : Hub) : result string unit :=
  if str_empty (TrimSpace (hb_Name h)) || (64 <? slen (hb_Name h)) then Err "name must be 1-64 characters"%string
  else if str_empty (TrimSpace (hb_Operator h)) then Err "operator is required"%string
  else match url_Parse (hb_URL h) with
  | None => Err "bad url"%string
  | Some u =>
      if negb (String.eqb (u_Scheme u) "https") || str_empty (u_Host u) || negb (str_empty (u_Path u)) || negb (str_empty (u_RawQuery u))
      then Err "url must be https://host with no path"%string
      else if str_empty (Trim ip_char (Hostname u)) then Err "url must use a domain name, not an IP address"%string
      else if negb (str_empty (hb_NostrPubkey h)) && (negb (slen (hb_NostrPubkey h) =? 64) || negb (str_empty (Trim hex_char (ToLower (hb_NostrPubkey h)))))
      then Err "nostr_pubkey must be 64 hex characters"%string
      else Ok tt
  end.
Fixpoint validate_loop (seen : gset string) (l : list Hub) : result string unit :=
  match l with
  | [] => Ok tt
  | h :: r => _ ← hub_validate h; if bool_decide (hb_URL h ∈ seen) then Err "is listed twice"%string else validate_loop ({[hb_URL h]} ∪ seen) r
  end.
Definition Validate (l : HubList) : result string unit :=
  if negb (hl_Version l =? 1) then Err "unsupported registry version"%string
  else if bool_decide (hl_Hubs l = []) then Err "registry lists no hubs"%string
  else if (maxHubs <? length (hl_Hubs l))%nat then Err "registry lists too many hubs"%string
  else validate_loop ∅ (hl_Hubs l).
Definition list_Contains (url : string) (l : HubList) : bool := existsb (fun h => String.eqb (hb_URL h) url) (hl_Hubs l).
Context `{RegistryJson}.
Definition Parse (raw : string) : result string HubList :=
  match registry_Decode raw with None => Err "parse registry"%string | Some l => _ ← Validate l; Ok l end.

(** What a request for the list brings; [None]: the body cannot be read. *)
Inductive fetched := NoAnswer | Answer (status : Z) (body : option string).
Definition Fetch (f : fetched) : result string HubList :=
  match f with
  | NoAnswer => Err "fetch registry"%string
  | Answer status body =>
      if negb (status =? 200) then Err "fetch registry: status"%string
      else match body with
      | None => Err "read"%string
      | Some raw => if maxSize <? slen raw then Err "registry is too large"%string else Parse raw
      end
  end.

(** ** The cache, at [path] *)
Context (path : string).
(** The list and whether it has a time; a stat that fails after the read is a nil
    pointer. *)
Definition Load : io Device (HubList * bool) :=
  r <~ itry (fs_read path) ;;
  match r with
  | Ok (Some raw) =>
      match Parse raw with
      | Ok l => call id ~> iret (l, true)
      | Err _ => iret (Fallback, false)
      end
  | _ => iret (Fallback, false)
  end.
Definition new_path : string := path ++ ".new".
Definition Save (l : HubList) : io Device unit := call id ~> fs_WriteFile new_path (registry_Marshal l) ~> fs_rename new_path path.

(** ** keepFresh: the lists it sets, one after the other *)
Fixpoint fresh_loop (fetches : list fetched) (lists : list HubList) : io Device (list HubList) :=
  match fetches with
  | [] => iret lists
  | f :: r =>
      match Fetch f with
      | Err _ => fresh_loop r lists
      | Ok l => _ <~ (if str_empty path then iret (Ok tt) else itry (Save l)) ;; fresh_loop r (lists ++ [l])
      end
  end.
Definition keepFresh (fetches : list fetched) : io Device (list HubList) :=
  start <~ (if str_empty path then iret [Fallback] else (x <~ Load ;; iret (if x.2 : bool then [Fallback; x.1] else [Fallback]))) ;;
  fresh_loop fetches start.
(** What get returns *)
Definition current (lists : list HubList) : HubList := default Fallback (last lists).
Fixpoint add_keys (out : list string) (l : list Hub) : list string :=
  match l with
  | [] => out
  | h :: r => add_keys (if negb (str_empty (hb_NostrPubkey h)) && negb (bool_decide (hb_NostrPubkey h ∈ out)) then out ++ [hb_NostrPubkey h] else out) r
  end.
Definition withRegistryKeys (lists : list HubList) (configured : list string) : list string := add_keys configured (hl_Hubs (current lists)).
End list.

(** ** Proved *)
Section proofs.
Context `{UrlParser} `{RegistryJsonLaws} (path : string).
Definition published (fetches : list fetched) : list HubList := omap (fun f => match Fetch f with Ok l => Some l | Err _ => None end) fetches.
Definition cached (m : disk) : option HubList := f ← m !! path; match Parse (fl_content f) with Ok l => Some l | Err _ => None end.

Lemma Parse_Ok raw l : Parse raw = Ok l -> Validate l = Ok tt /\ registry_Decode raw = Some l.
Proof. unfold Parse. destruct (registry_Decode raw) as [x|]; [|done]. destruct (Validate x) as [[]|] eqn:Hv; [|done]. by intros [= ->]. Qed.
Lemma Parse_again raw l : Parse raw = Ok l -> Parse (registry_Marshal l) = Ok l.
Proof. intros [Hv Hd]%Parse_Ok. apply law_registry in Hd. unfold Parse. rewrite Hd. by rewrite Hv. Qed.
Lemma Fetch_Parse f l : Fetch f = Ok l -> exists raw, Parse raw = Ok l.
Proof. unfold Fetch. destruct f as [|status body]; [done|]. destruct (negb _); [done|]. destruct body as [raw|]; [|done]. destruct (_ <? _); [done|]. by exists raw. Qed.
Lemma published_Parse fetches : Forall (fun l => exists raw, Parse raw = Ok l) (published fetches).
Proof.
  apply Forall_forall. intros l (f & Hf & Hl)%list_elem_of_omap. destruct (Fetch f) as [x|] eqn:E; [|done]. injection Hl as ->. by eapply Fetch_Parse.
Qed.

(** At [path] is what was there or a whole list of [good], not flushed. *)
Definition holds_list (m0 : disk) (good : list HubList) (m : disk) : Prop :=
  m !! path = m0 !! path \/ exists l, l ∈ good /\ m !! path = Some (mkFile (registry_Marshal l) false).
Lemma new_apart : new_path path <> path.
Proof. unfold new_path. intros E. apply (f_equal String.length) in E. rewrite str_length_app in E. cbn in E. lia. Qed.
Lemma runs_save m0 good l : l ∈ good -> runs (holds_list m0 good) (holds_list m0 good) (Save path l) (fun _ => holds_list m0 good).
Proof.
  intros Hl. unfold Save. eapply runs_bind with (P' := fun _ => holds_list m0 good); [apply runs_idle; by intros [[]|e]|]. intros [].
  eapply runs_bind with (P' := fun _ m => holds_list m0 good m /\ m !! new_path path = Some (mkFile (registry_Marshal l) false)).
  - eapply runs_conseq; [apply (runs_write (holds_list m0 good) (holds_list m0 good)); [done|]|done|done|].
    + intros m s Hm _. unfold holds_list, write_to. by rewrite lookup_insert_ne by apply new_apart.
    + intros [[]|e] m [Hm Hx]; [split; [done|by apply Hx]|done].
  - intros []. unfold fs_rename. eapply runs_bind with (P' := fun x m => holds_list m0 good m /\ x = Some (mkFile (registry_Marshal l) false)).
    + intros d r d' [= <- <-] [HP Hn]. split; [by apply evolves_same|]. by split.
    + intros x. destruct x as [f|]; [|apply runs_value; by intros m [? _]]. apply runs_call; [intros m [Hm [= ->]]|by intros m e [? _]].
      set (m1 := insert path _ _). assert (holds_list m0 good m1) by (right; exists l; split; [done|apply lookup_insert_eq]). done.
Qed.
Lemma runs_fresh m0 good fetches : forall lists, (forall l, l ∈ published fetches -> l ∈ good) ->
  runs (holds_list m0 good) (holds_list m0 good) (fresh_loop path fetches lists) (fun r m => holds_list m0 good m /\ r = Ok (lists ++ published fetches)).
Proof.
  induction fetches as [|f r IH]; intros lists Hgood; cbn [fresh_loop]; [apply runs_value; intros m Hm; by rewrite app_nil_r|].
  unfold published in *. cbn [omap list_omap] in *. destruct (Fetch f) as [l|e] eqn:Hf; [|by apply IH].
  eapply runs_bind with (P' := fun _ => holds_list m0 good).
  - destruct (str_empty path); [by apply runs_value|]. apply runs_try. eapply runs_conseq; [apply runs_save, (Hgood l)|done|done|done]. by left.
  - intros _. eapply runs_conseq; [apply IH; intros x Hx; apply Hgood; by right|done|done|]. intros x m [Hm ->]. split; [done|]. by rewrite <-app_assoc.
Qed.
Lemma runs_load m0 : runs (fun _ => False) (fun m => m = m0) (Load path) (fun r m => m = m0 /\
  forall x, r = Ok x -> x = (Fallback, false) \/ exists l, cached m0 = Some l /\ x = (l, true)).
Proof.
  unfold Load. eapply runs_bind with (P' := fun x m => m = m0 /\ match x with Ok (Some raw) => exists f, m0 !! path = Some f /\ fl_content f = raw | _ => True end).
  - apply runs_try. unfold fs_read. eapply runs_bind with (P' := fun _ m => m = m0); [apply runs_idle; by intros [[]|e]|].
    intros [] d r d' [= <- <-] Hd. split; [by apply evolves_same|]. rewrite Hd. split; [done|]. destruct (m0 !! path) as [f|]; cbn; [by exists f|done].
  - intros [[raw|]|e]; [|apply runs_value; intros m [-> _]; split; [done|]; intros x [= <-]; by left..].
    destruct (Parse raw) as [l|e] eqn:Hp; [|apply runs_value; intros m [-> _]; split; [done|]; intros x [= <-]; by left].
    eapply runs_bind with (P' := fun _ m => m = m0 /\ cached m0 = Some l).
    + apply runs_idle. intros [[]|e] m [-> (f & Hf & <-)]; [|by split]. split; [done|]. unfold cached. rewrite Hf. cbn. by rewrite Hp.
    + intros []. apply runs_value. intros m [-> Hc]. split; [done|]. intros x [= <-]. right. by exists l.
Qed.

(** Without failures *)
Lemma calm_save l d : dv_faults d = [] -> exists d1, Save path l d = (Ok tt, d1) /\ dv_faults d1 = [] /\ dv_files d1 !! path = Some (mkFile (registry_Marshal l) false).
Proof.
  intros Hf. unfold Save, fs_WriteFile, fs_write, fs_rename, call. unfold ibind at 1. rewrite calm by done. cbn [id].
  unfold ibind at 1 2. rewrite calm by done. rewrite calm by done. unfold ibind, iget.
  set (d1 := change (write_to (new_path path) (registry_Marshal l)) _).
  assert (dv_files d1 !! new_path path = Some (mkFile (registry_Marshal l) false)) as -> by apply lookup_insert_eq.
  rewrite calm by done. eexists. split; [done|]. split; [done|]. apply lookup_insert_eq.
Qed.
Lemma calm_fresh fetches : forall lists d l, dv_faults d = [] -> str_empty path = false ->
  last (published fetches) = Some l \/ (published fetches = [] /\ dv_files d !! path = Some (mkFile (registry_Marshal l) false)) ->
  exists d1, fresh_loop path fetches lists d = (Ok (lists ++ published fetches), d1) /\ dv_faults d1 = [] /\ dv_files d1 !! path = Some (mkFile (registry_Marshal l) false).
Proof.
  induction fetches as [|f r IH]; intros lists d l Hf Hp Hl; cbn [fresh_loop].
  { destruct Hl as [[=]|[_ Hd]]. exists d. rewrite app_nil_r. done. }
  unfold published in *. cbn [omap list_omap] in *. destruct (Fetch f) as [x|e]; [|by apply IH]. rewrite Hp. unfold ibind at 1, itry.
  destruct (calm_save x d Hf) as (d1 & -> & Hf1 & Hd1). destruct Hl as [Hl|[[=] _]].
  destruct (IH (lists ++ [x]) d1 l Hf1 Hp) as (d2 & E & ?).
  - rewrite last_cons in Hl. destruct (last _) as [y|] eqn:Hy; [by left|]. apply last_None in Hy. right. split; [done|]. by injection Hl as ->.
  - exists d2. rewrite E, <-app_assoc. done.
Qed.
Lemma calm_load l d : dv_faults d = [] -> Parse (registry_Marshal l) = Ok l -> dv_files d !! path = Some (mkFile (registry_Marshal l) false) -> Load path d = (Ok (l, true), d).
Proof.
  intros Hf Hp Hd. unfold Load, fs_read, call. unfold ibind at 1, itry. unfold ibind at 1. rewrite calm by done. unfold iget. cbn [id]. rewrite Hd. cbn [fmap option_fmap option_map fl_content].
  rewrite Hp. unfold ibind. by rewrite calm by done.
Qed.
Lemma calm_start d : dv_faults d = [] -> exists x, Load path d = (Ok x, d).
Proof.
  intros Hf. unfold Load, fs_read, call. unfold ibind at 1, itry. unfold ibind at 1. rewrite calm by done. unfold iget. cbn [id].
  destruct (fl_content <$> _) as [raw|]; [|by eexists]. destruct (Parse raw); [|by eexists]. unfold ibind. rewrite calm by done. by eexists.
Qed.
Lemma cached_crash m0 good m m' : Forall (fun l => exists raw, Parse raw = Ok l) good -> (forall f, m0 !! path = Some f -> fl_synced f = true) ->
  holds_list m0 good m -> crash m m' -> cached m' = None \/ cached m' = cached m0 \/ exists l, l ∈ good /\ cached m' = Some l.
Proof.
  intros Hgood Hsync Hm Hc. unfold cached. destruct Hm as [Hm|(l & Hl & Hm)].
  - right. left. destruct (m0 !! path) as [f|]; [by rewrite (crash_synced _ _ _ _ Hc Hm (Hsync f eq_refl))|].
    specialize (Hc path). rewrite Hm in Hc. by destruct (m' !! path).
  - specialize (Hc path). rewrite Hm in Hc. destruct (m' !! path) as [f'|]; [|by left]. unfold survives in Hc. cbn [fl_synced fl_content] in Hc. cbn [mbind option_bind].
    destruct (decide (fl_content f' = registry_Marshal l)) as [->|Hne].
    + right. right. exists l. rewrite Forall_forall in Hgood. destruct (Hgood _ Hl) as [raw Hp]. by rewrite (Parse_again _ _ Hp).
    + left. unfold Parse. by rewrite (law_registry_cut l).
Qed.
End proofs.

(** C39: the app always trusts a checked list. Whatever the requests for the list bring
    and whatever the cache holds, the lists in force are, in this order, the built-in
    one, the cached one if it can be read, and every published one that was fetched
    and passes every check: an answer that fails changes nothing, and each list names
    at least one hub. If the power goes off at any moment, the cache holds what it
    held, one of these lists, or nothing that is read as a list; and when no call
    fails, the last published list is the one the next start loads. *)
Theorem trusted_list_good `{UrlParser} `{RegistryJsonLaws} path fetches d lists d' :
  url_Parse "https://hub.arfl.us" = Some (mkURL "https" "hub.arfl.us" "" "") ->
  keepFresh path fetches d = (Ok lists, d') ->
  (exists start, lists = Fallback :: start ++ published fetches /\ (start = [] \/ exists l, cached path (dv_files d) = Some l /\ start = [l])) /\
  Forall (fun l => Validate l = Ok tt /\ hl_Hubs l <> []) lists /\
  (exists new, dv_history d' = new ++ dv_history d /\
     ((forall f, dv_files d !! path = Some f -> fl_synced f = true) ->
      Forall (fun m => forall m', crash m m' ->
        cached path m' = None \/ cached path m' = cached path (dv_files d) \/ exists l, l ∈ lists /\ cached path m' = Some l) (dv_files d' :: new))) /\
  (forall l, dv_faults d = [] -> str_empty path = false -> last (published fetches) = Some l -> current lists = l /\ Load path d' = (Ok (l, true), d')).
Proof.
  intros Hurl Hrun. unfold keepFresh in Hrun. set (begin := if str_empty path then _ else _) in Hrun.
  assert (Validate Fallback = Ok tt) as Hback.
  { unfold Validate, Fallback. cbn [hl_Version hl_Hubs negb Z.eqb]. rewrite bool_decide_false by done. cbn [length validate_loop]. unfold hub_validate. cbn [hb_URL hb_Name hb_Operator hb_NostrPubkey].
    rewrite Hurl. cbn. by rewrite bool_decide_false by set_solver. }
  assert (runs (fun _ => False) (fun m => m = dv_files d) begin (fun r m => m = dv_files d /\ forall x, r = Ok x ->
    exists start, x = Fallback :: start /\ (start = [] \/ exists l, cached path (dv_files d) = Some l /\ start = [l]))) as Hbegin.
  { subst begin. destruct (str_empty path); [apply runs_value; intros m ->; split; [done|]; intros x [= <-]; exists []; split; [done|by left]|].
    eapply runs_bind with (P' := fun x m => m = dv_files d /\ (x = (Fallback, false) \/ exists l, cached path (dv_files d) = Some l /\ x = (l, true))).
    - eapply runs_conseq; [apply (runs_load path (dv_files d))|done|done|]. intros [x|e] m [-> Hx]; (split; [done|]); [by apply Hx|done].
    - intros x. apply runs_value. intros m [-> Hx]. split; [done|]. intros y [= <-]. destruct Hx as [->|(l & Hl & ->)]; cbn; [exists []|exists [l]]; (split; [done|]); [by left|right; by exists l]. }
  apply ibind_inv in Hrun as [(e & _ & [=])|(x & d1 & Hstart & Hloop)].
  destruct (Hbegin _ _ _ Hstart eq_refl) as [He [Hd1 Hx]]. destruct (Hx x eq_refl) as (start & -> & Hcases). clear Hx.
  destruct (runs_fresh path (dv_files d) (published fetches) fetches (Fallback :: start) (fun _ H => H) d1 (Ok lists) d' Hloop) as [He' [Hend Hlists]]; [left; by rewrite Hd1|].
  injection Hlists as ->. assert (Forall (fun l => Validate l = Ok tt) (Fallback :: start ++ published fetches)) as Hvalid.
  { constructor; [done|]. apply Forall_app. split; [|eapply Forall_impl; [apply published_Parse|]; intros l [raw Hp]; by apply Parse_Ok in Hp as [? _]].
    destruct Hcases as [->|(l & Hl & ->)]; [done|]. constructor; [|done]. unfold cached in Hl. destruct (_ !! path) as [f|]; [|done]. cbn in Hl.
    destruct (Parse _) as [y|] eqn:Hp; [|done]. injection Hl as ->. by apply Parse_Ok in Hp as [? _]. }
  split_and!.
  - exists start. by split.
  - eapply Forall_impl; [exact Hvalid|]. intros l Hv. split; [done|]. intros E. unfold Validate in Hv. rewrite E, bool_decide_true in Hv by done. by destruct (negb _).
  - destruct He as [(n1 & E1 & F1) _], He' as [(n2 & E2 & F2) _]. exists (n2 ++ n1). split; [by rewrite E2, E1, app_assoc|]. intros Hsync.
    assert (Forall (holds_list path (dv_files d) (published fetches)) (dv_files d' :: n2 ++ n1)) as Hall.
    { constructor; [done|]. apply Forall_app. split; [done|]. eapply Forall_impl; [exact F1|done]. }
    eapply Forall_impl; [exact Hall|]. intros m Hm m' Hc. destruct (cached_crash path _ _ m m' (published_Parse fetches) Hsync Hm Hc) as [?|[?|(l & Hl & ?)]]; auto.
    right. right. exists l. split; [|done]. right. apply elem_of_app. by right.
  - intros l Hf Hp Hlast. assert (d1 = d) as ->.
    { subst begin. rewrite Hp in Hstart. destruct (calm_start path d Hf) as (y & E). unfold ibind in Hstart. rewrite E in Hstart. by injection Hstart. }
    destruct (calm_fresh path fetches (Fallback :: start) d l Hf Hp (or_introl Hlast)) as (d2 & E & Hf2 & Hd2). rewrite E in Hloop. injection Hloop as ->.
    split.
    + unfold current. change (Fallback :: start ++ published fetches) with ((Fallback :: start) ++ published fetches). by rewrite last_app, Hlast.
    + apply calm_load; [done| |done]. assert (l ∈ published fetches) as Hin by (by eapply last_Some_elem_of). pose proof (published_Parse fetches) as Hall.
      rewrite Forall_forall in Hall. destruct (Hall _ Hin) as [raw Hraw]. by apply Parse_again in Hraw.
Qed.

(** The keys that sign vouchers: the configured ones, and those of the list. *)
Lemma add_keys_spec hubs : forall out, NoDup out -> NoDup (add_keys out hubs) /\
  forall k, k ∈ add_keys out hubs <-> k ∈ out \/ str_empty k = false /\ exists h, h ∈ hubs /\ hb_NostrPubkey h = k.
Proof.
  induction hubs as [|h r IH]; intros out Hn; cbn [add_keys].
  { split; [done|]. intros k. split; [by left|]. intros [?|(_ & h & Hh & _)]; [done|by apply not_elem_of_nil in Hh]. }
  set (out' := if _ && _ then _ else out). assert (NoDup out' /\ forall k, k ∈ out' <-> k ∈ out \/ str_empty k = false /\ hb_NostrPubkey h = k) as [Hn' Hin].
  { subst out'. destruct (str_empty (hb_NostrPubkey h)) eqn:He; cbn [negb andb]; [split; [done|]; intros k; split; [by left|]; intros [?|[Hk <-]]; [done|congruence]|].
    case_bool_decide as Hd; cbn [negb]; [split; [done|]; intros k; split; [by left|]; by intros [?|[_ <-]]|].
    split; [apply NoDup_app; split_and!; [done|intros x Hx Hs%list_elem_of_singleton; by subst|apply NoDup_singleton]|].
    intros k. rewrite elem_of_app, list_elem_of_singleton. split; [intros [?| ->]; [by left|by right]|intros [?|[_ <-]]; [by left|by right]]. }
  destruct (IH out' Hn') as [H1' H2']. split; [done|]. intros k. rewrite H2', Hin. split.
  - intros [[?|[? ?]]|(? & x & ? & ?)]; [by left|right; split; [done|]; exists h; split; [by left|done]|right; split; [done|]; exists x; split; [by right|done]].
  - intros [?|(Hk & x & [->|Hx]%elem_of_cons & <-)]; [by left; left|left; right; by split|right; split; [done|]; by exists x].
Qed.

(** ** arfl-registry check *)
Definition checkHub (info : string -> option string) (health : string -> option Z) (h : Hub) : result string unit :=
  match info (hb_URL h ++ "/info")%string with
  | None => Err "info"%string
  | Some name =>
      if negb (String.eqb name (hb_Name h)) then Err "hub calls itself otherwise"%string
      else match health (hb_URL h ++ "/health")%string with
      | None => Err "health"%string
      | Some online => if online <? 1 then Err "no nodes online"%string else Ok tt
      end
  end.
Definition check `{UrlParser} `{RegistryJson} (raw : option string) (info : string -> option string) (health : string -> option Z) : result string unit :=
  match raw with
  | None => Err "read"%string
  | Some raw =>
      l ← Parse raw;
      let failed := length (bfilter (fun h => negb (is_ok (checkHub info health h))) (hl_Hubs l)) in
      if (0 <? failed)%nat then Err "hubs failed"%string else Ok tt
  end.
Lemma check_Ok `{UrlParser} `{RegistryJson} raw info health : check raw info health = Ok tt <->
  exists s l, raw = Some s /\ Parse s = Ok l /\ Forall (fun h => info (hb_URL h ++ "/info")%string = Some (hb_Name h) /\ exists n, health (hb_URL h ++ "/health")%string = Some n /\ 1 <= n) (hl_Hubs l).
Proof.
  assert (forall h, is_ok (checkHub info health h) = true <-> info (hb_URL h ++ "/info")%string = Some (hb_Name h) /\ exists n, health (hb_URL h ++ "/health")%string = Some n /\ 1 <= n) as Hhub.
  { intros h. unfold checkHub. destruct (info _) as [name|]; [|naive_solver]. destruct (String.eqb_spec name (hb_Name h)) as [->|]; cbn [negb]; [|naive_solver].
    destruct (health _) as [n|]; [|naive_solver]. destruct (n <? 1) eqn:Hn; (split; [intros Hk|intros [_ (m & [= <-] & Hm)]]); try done; [lia|]. split; [done|]. exists n. split; [done|lia]. }
  assert (forall hubs, length (bfilter (fun h => negb (is_ok (checkHub info health h))) hubs) = 0%nat <-> Forall (fun h => is_ok (checkHub info health h) = true) hubs) as Hall.
  { induction hubs as [|h r IH]; [done|]. rewrite Forall_cons, <-IH. cbn. clear. destruct (is_ok (checkHub info health h)); cbn; [tauto|]. split; [done|by intros [? _]]. }
  unfold check. destruct raw as [s|]; [|split; [done|by intros (? & ? & ? & _)]].
  destruct (Parse s) as [l|] eqn:Hp; cbn [mbind result_mbind]; [|split; [done|intros (? & ? & [= <-] & ? & _); congruence]].
  destruct (0 <? _)%nat eqn:Hz; (split; [intros Hk|intros (s' & l' & [= <-] & Hl & Hf); rewrite Hl in Hp; injection Hp as ->]); try done.
  - apply Nat.ltb_lt in Hz. enough (length (bfilter (fun h => negb (is_ok (checkHub info health h))) (hl_Hubs l)) = 0%nat) by lia.
    apply Hall. eapply Forall_impl; [exact Hf|]. intros h. by apply Hhub.
  - exists s, l. split_and!; [done|done|]. apply Nat.ltb_ge in Hz. assert (Forall (fun h => is_ok (checkHub info health h) = true) (hl_Hubs l)) as Hf by (apply Hall; lia).
    eapply Forall_impl; [exact Hf|]. intros h. apply Hhub.
Qed.

(** ** Examples *)
Definition hub_fields (h : Hub) : list string := [hb_Name h; hb_URL h; hb_Operator h; hb_NostrPubkey h; hb_Contact h; hb_Added h].
Fixpoint fields_hubs (l : list string) : option (list Hub) :=
  match l with [] => Some [] | a :: b :: c :: d :: e :: f :: r => cons (mkHub a b c d e f) <$> fields_hubs r | _ => None end.
Definition toy_list_text (l : HubList) : string := fields_text (toy_write (hl_Version l) :: concat (hub_fields <$> hl_Hubs l)).
Definition toy_text_list (s : string) : option HubList :=
  match text_fields s with Some (v :: r) => v ← toy_read v; mkHubList v <$> fields_hubs r | _ => None end.
#[export] Instance toy_registry_json : RegistryJson := {| registry_Marshal := toy_list_text; registry_Decode := toy_text_list |}.
#[export] Instance toy_registry_laws : RegistryJsonLaws.
Proof.
  split; cbn [registry_Marshal registry_Decode toy_registry_json].
  - intros _ l _. unfold toy_text_list, toy_list_text. rewrite text_fields_text by done. rewrite toy_read_write. cbn [mbind option_bind].
    assert (fields_hubs (concat (hub_fields <$> hl_Hubs l)) = Some (hl_Hubs l)) as ->; [|by destruct l].
    induction (hl_Hubs l) as [|h r IH]; [done|]. cbn. rewrite IH. by destruct h.
  - intros l s Hs Hne. unfold toy_text_list, toy_list_text in *. by rewrite (text_fields_part _ _ Hs Hne).
Qed.
Definition toy_url (s : string) : option URL :=
  if String.prefix "https://" s then
    let rest := drop_bytes 8 s in
    Some match index_byte "/" rest with
         | Some i => mkURL "https" (Nip44.str_take i rest) (drop_bytes i rest) ""
         | None => mkURL "https" (match index_byte "#" rest with Some i => Nip44.str_take i rest | None => rest end) "" ""
         end
  else None.
#[export] Instance toy_urls : UrlParser := {| url_Parse := toy_url |}.
Definition toy_hub_at (url key : string) : Hub := mkHub "Hub" url "op" key "" "".
Definition toy_published : HubList := mkHubList 1 [toy_hub_at "https://hub.example.com" ""; toy_hub_at "https://other.example.com:8443" ""].
Definition toy_fetches : list fetched :=
  [NoAnswer; Answer 200 (Some (registry_Marshal toy_published)); Answer 500 (Some ""); Answer 200 (Some (registry_Marshal (mkHubList 1 [])));
   Answer 200 (Some (registry_Marshal (mkHubList 1 [toy_hub_at "https://203.0.113.5:8080" ""])))]%string.
Lemma trusted_list_good_witness : exists lists d', keepFresh "hubs.json" toy_fetches (mkDev ∅ [] None [] []) = (Ok lists, d') /\ lists = [Fallback; toy_published] /\
  Load "hubs.json" d' = (Ok (toy_published, true), d').
Proof.
  do 2 eexists. split; [vm_compute; reflexivity|]. split; [vm_compute; reflexivity|].
  destruct (trusted_list_good (H := toy_urls) "hubs.json" toy_fetches (mkDev ∅ [] None [] []) _ _ ltac:(vm_compute; reflexivity) ltac:(vm_compute; reflexivity)) as (_ & _ & _ & Hlast).
  apply (Hlast toy_published); vm_compute; reflexivity.
Defined.
(** An address of IPv6 has letters, and passes for a name. *)
Example ipv6_listed : is_ok (hub_validate (toy_hub_at "https://[2001:db8::1]:8443" "")) = true /\ is_ok (hub_validate (toy_hub_at "https://203.0.113.5:8443" "")) = false.
Proof. by vm_compute. Qed.
(** A key in capitals is listed, and is no hub's key. *)
Definition capital_key : string := "AB00000000000000000000000000000000000000000000000000000000000000".
Example capital_key_never_matches : is_ok (hub_validate (toy_hub_at "https://hub.example.com" capital_key)) = true /\
  (forall kp : KeyPair (H := toy_schnorr), PubkeyHex kp <> capital_key) /\ withRegistryKeys [mkHubList 1 [toy_hub_at "https://hub.example.com" capital_key]] [] = [capital_key].
Proof.
  split; [by vm_compute|]. split; [|by vm_compute]. intros kp E. unfold PubkeyHex in E.
  assert (char_free "A" (hex_encode (schnorr_SerializePubKey (nk_PublicKey kp))) = true) as Hf by (apply hex_encode_free, hex_digit_not; reflexivity). by rewrite E in Hf.
Qed.
(** Fragments are not looked at: a hub can be listed twice. *)
Example listed_twice : Validate (mkHubList 1 [toy_hub_at "https://hub.example.com" ""; toy_hub_at "https://hub.example.com#again" ""]) = Ok tt.
Proof. by vm_compute. Qed.
(** The list is renamed over the old one without being flushed: a power cut can
    leave neither. *)
Example cached_list_lost :
  let d' := (Save "hubs.json" toy_published (mkDev {["hubs.json"%string := mkFile (registry_Marshal toy_published) true]} [] None [] [])).2 in
  exists m', crash (dv_files d') m' /\ cached "hubs.json" m' = None.
Proof.
  intros d'. assert (dv_files d' = {["hubs.json"%string := mkFile (registry_Marshal toy_published) false]}) as -> by (vm_compute; reflexivity).
  exists {["hubs.json"%string := mkFile "" true]}. split; [|by vm_compute]. intros p. destruct (decide (p = "hubs.json"%string)) as [->|Hp]; [by vm_compute|].
  by rewrite !lookup_singleton_ne by done.
Qed.
