(* ===== verification/Cli.v ===== *)
(** * Cli: the setup helper
    (src/cmd/arfl/main.go)

    What init builds and how it writes it, and what doctor says of a configuration,
    against the daemons of HubMain and NodeConfig. Prompts, styles and health
    requests are left out; url.ParseRequestURI, os.Stat and the keys drawn are
    arguments. *)
From S2P Require Import Prelude Sql Schema Credentials Repository Nostr Attestation Selector Discovery IPPool Nip44 HostNet ClientConnect ServiceNodes VaultFile HubKeys HubMain NodeConfig.

(** ** Input *)
Definition parseRequiredInt (value : string) (min max : Z) : result string Z :=
  let value := TrimSpace value in
  if str_empty value then Err "is required"%string
  else match ParseInt value with
  | None => Err "must be a number"%string
  | Some n => if (n <? min) || (max <? n) then Err "must be between"%string else Ok n
  end.
Definition parseRequiredInt64 (value : string) (min : Z) : result string Z :=
  let value := TrimSpace value in
  if str_empty value then Err "is required"%string
  else match ParseInt value with
  | None => Err "must be a number"%string
  | Some n => if n <? min then Err "must be >="%string else Ok n
  end.
Definition parseCSV (s : string) : list string := sanitize_loop ∅ (split_on "," s).
Definition defaultRelayCSV : string := "wss://relay.damus.io,wss://nos.lol".
Definition splits (s : string) : bool := match SplitHostPort s with Some _ => true | None => false end.
Definition validateHostPort (v : string) : bool := negb (str_empty (TrimSpace v)) && splits (TrimSpace v).
Definition roles : list string := ["entry"; "exit"; "both"]%string.
Definition validateRole (v : string) : bool := existsb (String.eqb (ToLower (TrimSpace v))) roles.
Definition validateRelayCSV (v : string) : bool := negb (bool_decide (parseCSV v = [])).
Definition validatePositiveInt (v : string) : bool := is_ok (parseRequiredInt v 1 1000000000).

(** ** Building configurations *)
Record nodePreset := mkPreset { pr_ListenPort : Z; pr_TunnelIP : string; pr_Interface : string }.
Definition presetForRole (role : string) : option nodePreset :=
  let r := ToLower (TrimSpace role) in
  if String.eqb r "entry" then Some (mkPreset 51820 "10.100.0.1/24" "wg-entry")
  else if String.eqb r "exit" then Some (mkPreset 51821 "10.200.0.1/24" "wg-exit")
  else if String.eqb r "both" then Some (mkPreset 51820 "10.150.0.1/24" "wg-both")
  else None.
Record nodeInitOptions := mkNodeOpts {
  no_Role : string; no_ListenPort : Z; no_TunnelIP : string; no_Interface : string; no_OutInterface : string; no_AdminAddr : string; no_MTU : Z;
  no_Endpoint : string; no_ConnectAddr : string; no_UploadMbps : Z; no_DownloadMbps : Z; no_Capacity : Z; no_Relays : list string; no_HubURL : string;
  no_HubPubkeyFile : string
}.
(** The preset fills what the flags leave open. *)
Definition with_preset (p : nodePreset) (o : nodeInitOptions) : nodeInitOptions :=
  mkNodeOpts (no_Role o) (if no_ListenPort o <=? 0 then pr_ListenPort p else no_ListenPort o)
    (if str_empty (TrimSpace (no_TunnelIP o)) then pr_TunnelIP p else no_TunnelIP o) (if str_empty (TrimSpace (no_Interface o)) then pr_Interface p else no_Interface o)
    (no_OutInterface o) (no_AdminAddr o) (no_MTU o) (no_Endpoint o) (no_ConnectAddr o) (no_UploadMbps o) (no_DownloadMbps o) (no_Capacity o) (no_Relays o)
    (no_HubURL o) (no_HubPubkeyFile o).
Definition relays_or_default (l : list string) : list string := match l with [] => parseCSV defaultRelayCSV | _ => l end.
Definition required_address (name v : string) : result string unit :=
  if str_empty v then Err (name ++ " is required")%string else if splits v then Ok tt else Err (name ++ " must be host:port")%string.
Section build.
Context (uri_ok : string -> bool).
(** [wgKey], [nostrKey]: the private keys drawn. *)
Definition buildNodeConfig (o : nodeInitOptions) (wgKey nostrKey : option string) : result string NodeConfig :=
  let role := ToLower (TrimSpace (no_Role o)) in
  match presetForRole role with
  | None => Err "invalid role"%string
  | Some _ =>
      if no_ListenPort o <=? 0 then Err "listen_port must be > 0"%string
      else
        _ ← required_address "endpoint" (no_Endpoint o);
        if str_empty (no_HubURL o) then Err "hub_url is required"%string
        else if negb (uri_ok (no_HubURL o)) then Err "invalid hub_url"%string
        else
          _ ← required_address "connect_addr" (no_ConnectAddr o);
          _ ← required_address "admin_addr" (no_AdminAddr o);
          match wgKey, nostrKey with
          | None, _ => Err "generate WireGuard keypair"%string
          | _, None => Err "generate Nostr keypair"%string
          | Some k, Some n =>
              Ok (mkNodeCfg role (no_ListenPort o) (base64_EncodeToString k) (no_TunnelIP o) (no_Interface o) (no_OutInterface o) (no_AdminAddr o) (no_MTU o)
                    (hex_encode n) "" "" (relays_or_default (no_Relays o)) (no_Endpoint o) (no_UploadMbps o) (no_DownloadMbps o) (no_Capacity o) (no_HubURL o)
                    (no_HubPubkeyFile o) (no_ConnectAddr o) [TransportWireGuard] {[TransportWireGuard := no_Endpoint o]} {[TransportWireGuard := no_ConnectAddr o]})
          end
  end.
(** [o]: the options as a configuration with no keys. *)
Definition buildHubConfig (o : HubConfig) (nostrKey credKey : option string) : result string HubConfig :=
  if str_empty (fc_ListenAddr o) then Err "listen address is required"%string
  else if str_empty (fc_LNDHost o) then Err "LND host is required"%string
  else if fc_LNDPort o <=? 0 then Err "LND port must be > 0"%string
  else if (fc_HubMarginPct o <? 0) || (50 <? fc_HubMarginPct o) then Err "hub margin must be between 0 and 50"%string
  else match nostrKey, credKey with
  | None, _ => Err "generate nostr key"%string
  | _, None => Err "generate credential key"%string
  | Some n, Some c =>
      Ok (mkHubCfg "" (hex_encode n) (fc_ListenAddr o) (relays_or_default (fc_Relays o)) (fc_DBPath o) (hex_encode c) (fc_SettlementHours o) (fc_MinPayoutSats o)
            (fc_HubMarginPct o) (fc_BlindKeyDir o) (fc_LNDHost o) (fc_LNDPort o) (fc_LNDTLSCertPath o) (fc_LNDMacaroonPath o) (fc_LNDFeeLimitSat o))
  end.
End build.

(** ** doctor: reports without their details and hints *)
Inductive doctorStatus := doctorPass | doctorWarn | doctorFail.
#[export] Instance doctorStatus_eq_dec : EqDecision doctorStatus.
Proof. solve_decision. Defined.
Record doctorCheck := mkCheck { dc_Name : string; dc_Status : doctorStatus }.
Definition pass_or (bad : doctorStatus) (name : string) (ok : bool) : doctorCheck := mkCheck name (if ok then doctorPass else bad).
Definition failCount (checks : list doctorCheck) : nat := length (bfilter (fun c => bool_decide (dc_Status c = doctorFail)) checks).
Definition printDoctorReport (checks : list doctorCheck) : result string unit :=
  if (0 <? failCount checks)%nat then Err "doctor found blocking issues"%string else Ok tt.

Record transportDoctorResult := mkAnalysis { ta_advertised : list string; ta_unknown : list string; ta_missingEndpoint : list string }.
Definition doctor_known : list string := ["wireguard"; "hysteria2"; "amneziawg"]%string.
Definition doctor_endpoint (cfg : NodeConfig) (name : string) : string :=
  let endpoint := TrimSpace (default "" (nc_TransportEndpoints cfg !! name)) in
  if str_empty endpoint && String.eqb name "wireguard" then TrimSpace (nc_Endpoint cfg) else endpoint.
Fixpoint analyze_loop (cfg : NodeConfig) (advertised : gset string) (enabled : list string) : transportDoctorResult :=
  match enabled with
  | [] => mkAnalysis [] [] []
  | raw :: r =>
      let name := ToLower (TrimSpace raw) in
      if str_empty name then analyze_loop cfg advertised r
      else if negb (existsb (String.eqb name) doctor_known) then
        let out := analyze_loop cfg advertised r in mkAnalysis (ta_advertised out) (name :: ta_unknown out) (ta_missingEndpoint out)
      else if str_empty (doctor_endpoint cfg name) then
        let out := analyze_loop cfg advertised r in mkAnalysis (ta_advertised out) (ta_unknown out) (name :: ta_missingEndpoint out)
      else if bool_decide (name ∈ advertised) then analyze_loop cfg advertised r
      else let out := analyze_loop cfg ({[name]} ∪ advertised) r in mkAnalysis (name :: ta_advertised out) (ta_unknown out) (ta_missingEndpoint out)
  end.
Definition analyzeEnabledTransports (cfg : NodeConfig) : transportDoctorResult := analyze_loop cfg ∅ (nc_EnabledTransports cfg).
Definition transport_status (cfg : NodeConfig) : doctorStatus :=
  match nc_EnabledTransports cfg with
  | [] => doctorWarn
  | _ =>
      let a := analyzeEnabledTransports cfg in
      match ta_advertised a, ta_unknown a, ta_missingEndpoint a with
      | [], _, _ => doctorFail
      | _, [], [] => doctorPass
      | _, _, _ => doctorWarn
      end
  end.
Section doctor.
Context (uri_ok : string -> bool).
(** [home]: the user's directory; [stat]: what os.Stat finds. *)
Context (home : option string) (stat : string -> bool).
(** filepath.Join of clean paths *)
Definition expandHome (path : string) : string :=
  let path := TrimSpace path in
  if String.eqb path "~" then default path home
  else if String.prefix "~/" path then match home with Some h => Join h (drop_bytes 2 path) | None => path end
  else path.
Definition fileCheck (name p : string) : doctorCheck :=
  let p := TrimSpace p in pass_or doctorFail name (negb (str_empty p) && stat (expandHome p)).
Definition validateNodeConfig (cfg : NodeConfig) : list doctorCheck :=
  [ pass_or doctorFail "role" (existsb (String.eqb (ToLower (TrimSpace (nc_Role cfg)))) roles);
    pass_or doctorFail "listen_port" (negb (nc_ListenPort cfg <=? 0));
    pass_or doctorFail "private_key" (bool_decide (is_Some (ParseKey (nc_PrivateKey cfg))));
    pass_or doctorFail "endpoint" (splits (nc_Endpoint cfg));
    pass_or doctorFail "connect_addr" (splits (nc_ConnectAddr cfg));
    pass_or doctorFail "hub_url" (negb (str_empty (nc_HubURL cfg)) && uri_ok (nc_HubURL cfg));
    fileCheck "hub_pubkey_file" (nc_HubPubkeyFile cfg);
    pass_or doctorWarn "relays" (negb (bool_decide (nc_Relays cfg = [])));
    mkCheck "enabled_transports" (transport_status cfg) ].
Definition validateHubConfig `{Schnorr} (cfg : HubConfig) : list doctorCheck :=
  [ pass_or doctorFail "nostr_privkey" (is_ok (KeyPairFromPrivHex (fc_NostrPrivkey cfg)));
    pass_or doctorFail "credential_key" (match hex_decode (TrimSpace (fc_CredentialKey cfg)) with Some cred => slen cred =? 32 | None => false end);
    pass_or doctorFail "listen_addr" (splits (fc_ListenAddr cfg));
    pass_or doctorFail "relays" (negb (bool_decide (fc_Relays cfg = [])));
    pass_or doctorFail "LND endpoint" (negb (str_empty (fc_LNDHost cfg) || (fc_LNDPort cfg <=? 0)));
    fileCheck "lnd_tls_cert_path" (fc_LNDTLSCertPath cfg);
    fileCheck "lnd_macaroon_path" (fc_LNDMacaroonPath cfg) ].
(** The health of the hub and of the node, as the requests went; [None]: not asked. *)
Definition runDoctorHub `{Schnorr} (cfg : HubConfig) (health : option bool) : result string unit :=
  printDoctorReport (validateHubConfig cfg ++
    [match health with Some ok => pass_or doctorFail "Hub /health reachable" ok | None => mkCheck "Live health check" doctorWarn end]).
Definition runDoctorNode (cfg : NodeConfig) (hub_health node_health : option bool) : result string unit :=
  printDoctorReport (validateNodeConfig cfg ++ [pass_or doctorWarn "Hub /health reachable" (default false hub_health)] ++
    match node_health with Some ok => [pass_or doctorWarn "Node /health reachable" ok] | None => [] end).
End doctor.

(** ** Writing a configuration *)
Section output.
Context (is_dir : string -> bool).
(** [text_of]: decimal digits *)
Definition backup_name (path now : string) : string := (path ++ ".bak." ++ now)%string.
Definition copyFile (src dst : string) : io Device unit :=
  call id ~>
  (f <~ iget (fun d => dv_files d !! src) ;;
   match f with
   | None => ifail "no such file or directory"
   | Some f => call (change (write_to dst "")) ~> call id ~> fs_write dst (fl_content f) ~> fs_sync dst
   end).
Definition guardOutputPath (path now : string) (force : bool) : io Device unit :=
  let path := TrimSpace path in
  if str_empty path then ifail "output path is required"
  else
    call id ~>
    (if is_dir path then ifail "output path is a directory"
     else
       f <~ iget (fun d => dv_files d !! path) ;;
       match f with
       | None => iret tt
       | Some _ => if negb force then ifail "refusing to overwrite existing file" else copyFile path (backup_name path now)
       end).
(** [data]: the configuration, encoded. *)
Definition writeJSON (path data : string) : io Device unit :=
  let path := TrimSpace path in
  if str_empty path then ifail "output path is required"
  else make_parent path ~> fs_WriteFile path (data ++ String (ascii_of_nat 10) "") ~> call id.
(** The end of runInitHub and of runInitNode *)
Definition write_config (path now data : string) (force : bool) : io Device unit := guardOutputPath path now force ~> writeJSON path data.
End output.

(** ** The doctor and the daemon *)
Lemma doctor_knows t : existsb (String.eqb t) doctor_known = known_transport t.
Proof.
  unfold known_transport. apply eq_true_iff_eq. rewrite bool_decide_eq_true, existsb_exists. change all_transports with doctor_known.
  split; [intros (x & Hx & ->%String.eqb_eq); by apply list_elem_of_In|]. intros Hin. exists t. split; [by apply list_elem_of_In|apply String.eqb_refl].
Qed.
Lemma doctor_name raw : parseTransport raw = if existsb (String.eqb (ToLower (TrimSpace raw))) doctor_known then Some (ToLower (TrimSpace raw)) else None.
Proof. by rewrite doctor_knows. Qed.
Lemma doctor_endpoint_found cfg raw (t : string) : str_empty (doctor_endpoint cfg t) = false -> str_empty (endpoint_for cfg raw t) = false.
Proof.
  unfold doctor_endpoint, endpoint_for. change TransportWireGuard with "wireguard"%string. destruct (str_empty (transportMapLookup _ _ _)) eqn:Hl; [|done].
  assert (str_empty (TrimSpace (default "" (nc_TransportEndpoints cfg !! t))) = true) as He.
  { revert Hl. unfold transportMapLookup. destruct (str_empty (TrimSpace (default "" (nc_TransportEndpoints cfg !! t)))) eqn:He; [done|]. cbn [negb]. by rewrite He. }
  rewrite He. cbn [andb]. destruct (String.eqb t "wireguard"); [|by rewrite He]. by destruct (nc_Endpoint cfg).
Qed.
Lemma analyze_in cfg (t : string) l : forall seen, t ∈ ta_advertised (analyze_loop cfg seen l) ->
  exists raw, raw ∈ l /\ parseTransport raw = Some t /\ str_empty (doctor_endpoint cfg t) = false.
Proof.
  induction l as [|raw r IH]; intros seen; cbn [analyze_loop]; [by intros ?%not_elem_of_nil|].
  assert (forall seen', t ∈ ta_advertised (analyze_loop cfg seen' r) -> exists raw', raw' ∈ raw :: r /\ parseTransport raw' = Some t /\ str_empty (doctor_endpoint cfg t) = false) as Hskip.
  { intros seen' Hin. destruct (IH _ Hin) as (x & Hx & ?). exists x. split; [by right|done]. }
  destruct (str_empty (ToLower _)); [apply Hskip|]. destruct (existsb _ _) eqn:Hk; cbn [negb]; [|apply Hskip].
  destruct (str_empty (doctor_endpoint cfg (ToLower (TrimSpace raw)))) eqn:He; [apply Hskip|]. destruct (bool_decide _); [apply Hskip|].
  cbn [ta_advertised]. intros [->|Hin]%elem_of_cons; [|by eapply Hskip]. exists raw. split; [by left|]. split; [|done]. rewrite doctor_name. by rewrite Hk.
Qed.

(** The endpoint of an entry is under its transport's own name. *)
Definition plain_entry (cfg : NodeConfig) (raw : string) : Prop :=
  raw = ToLower (TrimSpace raw) \/ str_empty (TrimSpace (default "" (nc_TransportEndpoints cfg !! raw))) = true.
Definition plain_endpoint (cfg : NodeConfig) : Prop := str_empty (TrimSpace (nc_Endpoint cfg)) = str_empty (nc_Endpoint cfg).
Lemma doctor_endpoint_plain cfg raw (t : string) : parseTransport raw = Some t ->
  plain_entry cfg raw -> plain_endpoint cfg -> str_empty (endpoint_for cfg raw t) = str_empty (doctor_endpoint cfg t).
Proof.
  intros Hp Hraw Hep. assert (t = ToLower (TrimSpace raw)) as Ht by (unfold parseTransport in Hp; destruct (known_transport _); [by injection Hp|done]).
  unfold endpoint_for, doctor_endpoint, transportMapLookup. change TransportWireGuard with "wireguard"%string. rewrite <-Ht in *.
  destruct (str_empty (TrimSpace (default "" (nc_TransportEndpoints cfg !! t)))) eqn:He; cbn [negb andb]; [|by rewrite He].
  assert (str_empty (TrimSpace (default "" (nc_TransportEndpoints cfg !! raw))) = true) as Hr by (destruct Hraw as [E|]; [rewrite <-Ht in E; by rewrite E|done]).
  rewrite Hr. cbn [andb]. destruct (String.eqb t "wireguard"); [by rewrite Hep|by rewrite Hr].
Qed.
Lemma ToLower_empty s : str_empty (ToLower s) = str_empty s.
Proof. by destruct s. Qed.
(** An entry doctor has nothing to say of. *)
Definition fine (cfg : NodeConfig) (raw : string) : Prop :=
  str_empty (TrimSpace raw) = true \/ exists t, parseTransport raw = Some t /\ str_empty (doctor_endpoint cfg t) = false.
Lemma analyze_fine cfg l : forall seen, ta_unknown (analyze_loop cfg seen l) = [] /\ ta_missingEndpoint (analyze_loop cfg seen l) = [] <-> Forall (fine cfg) l.
Proof.
  induction l as [|raw r IH]; intros seen; cbn [analyze_loop]; [done|]. rewrite Forall_cons. unfold fine at 1. rewrite ToLower_empty, doctor_name.
  destruct (str_empty (TrimSpace raw)) eqn:Hb; [rewrite IH; naive_solver|]. destruct (existsb _ _); cbn [negb ta_unknown ta_missingEndpoint]; [|naive_solver].
  destruct (str_empty (doctor_endpoint _ _)) eqn:He; cbn [ta_missingEndpoint]; [naive_solver congruence|].
  destruct (bool_decide _); cbn [ta_unknown ta_missingEndpoint]; rewrite IH; naive_solver.
Qed.
Lemma analyze_plain cfg url l : Forall (plain_entry cfg) l -> plain_endpoint cfg ->
  forall seen, ta_advertised (analyze_loop cfg seen l) = tc_Transport <$> caps_loop cfg url seen l.
Proof.
  intros Hl Hep. induction Hl as [|raw r Hraw _ IH]; intros seen; cbn [analyze_loop caps_loop]; [done|]. pose proof (doctor_name raw) as Hd.
  rewrite ToLower_empty. destruct (str_empty (TrimSpace raw)) eqn:Hb.
  { rewrite Hd. destruct (TrimSpace raw); [cbn; apply IH|done]. }
  rewrite Hd. destruct (existsb _ _); cbn [negb ta_advertised]; [|apply IH]. rewrite (doctor_endpoint_plain cfg raw _ Hd Hraw Hep).
  destruct (str_empty (doctor_endpoint _ _)); cbn [ta_advertised]; [destruct (bool_decide _); apply IH|]. destruct (bool_decide _); [apply IH|].
  cbn [ta_advertised fmap list_fmap tc_Transport]. f_equal. apply IH.
Qed.
Lemma status_cases cfg : nc_EnabledTransports cfg <> [] ->
  (transport_status cfg = doctorFail <-> ta_advertised (analyzeEnabledTransports cfg) = []) /\
  (transport_status cfg = doctorPass <-> ta_advertised (analyzeEnabledTransports cfg) <> [] /\ Forall (fine cfg) (nc_EnabledTransports cfg)).
Proof.
  intros Hne. rewrite <-(analyze_fine cfg _ ∅). fold (analyzeEnabledTransports cfg). unfold transport_status. destruct (nc_EnabledTransports cfg); [done|].
  destruct (ta_advertised _), (ta_unknown _), (ta_missingEndpoint _); naive_solver.
Qed.
(** All the daemon warns of is entries with nothing in them. *)
Definition blank_warning (w : warning) : Prop := match w with UnknownTransport raw => str_empty (TrimSpace raw) = true | NoEndpoint _ => False end.
Lemma fine_warnings cfg url : Forall (plain_entry cfg) (nc_EnabledTransports cfg) -> plain_endpoint cfg -> nc_EnabledTransports cfg <> [] ->
  Forall (fine cfg) (nc_EnabledTransports cfg) <-> Forall blank_warning (unadvertisedTransports cfg (buildTransportCapabilities cfg url)).
Proof.
  intros Hplain Hep Hne.
  assert (forall raw (t : string), raw ∈ nc_EnabledTransports cfg -> parseTransport raw = Some t ->
    t ∈ tc_Transport <$> buildTransportCapabilities cfg url <-> str_empty (doctor_endpoint cfg t) = false) as Hcaps.
  { intros raw t Hin Hp. destruct (caps_loop_in cfg url (enabled_of cfg) ∅) as [_ Hc]. unfold buildTransportCapabilities. rewrite Hc. unfold enabled_of.
    rewrite Forall_forall in Hplain. destruct (nc_EnabledTransports cfg) as [|e es]; [done|]. split.
    - intros (_ & x & Hx & Hpx & He). by rewrite <-(doctor_endpoint_plain cfg x t Hpx (Hplain _ Hx) Hep).
    - intros He. split; [set_solver|]. exists raw. split_and!; [done|done|]. by rewrite (doctor_endpoint_plain cfg raw t Hp (Hplain _ Hin) Hep). }
  unfold unadvertisedTransports. revert Hcaps. generalize (tc_Transport <$> buildTransportCapabilities cfg url). intros caps. clear.
  induction (nc_EnabledTransports cfg) as [|raw r IH]; intros Hcaps; [done|]. rewrite Forall_cons, IH by (intros x t Hx; apply Hcaps; by right). cbn [omap list_omap]. unfold fine.
  destruct (parseTransport raw) as [t|] eqn:Hp.
  - specialize (Hcaps raw t (list_elem_of_here _ _) Hp). assert (str_empty (TrimSpace raw) = false) as Hb.
    { apply parseTransport_known in Hp as Hk. destruct (TrimSpace raw) eqn:E; [|done]. unfold parseTransport in Hp. rewrite E in Hp. done. }
    case_bool_decide; [naive_solver|]. rewrite Forall_cons. cbn [blank_warning]. rewrite Hb. naive_solver.
  - rewrite Forall_cons. cbn [blank_warning]. naive_solver.
Qed.

(** C35: doctor and the daemon agree on transports. Whatever doctor says a node would
    advertise, the daemon announces, and unless doctor fails the transports the
    daemon does not refuse them. When transports are listed, their endpoints under
    the transports' own names, and WireGuard's endpoint is not blank, doctor's list
    is the announced one, in its order; doctor fails the transports exactly when the
    daemon refuses to start; and it passes them exactly when the daemon starts and
    warns of nothing but blank entries. When no transport is listed, the
    configuration of before there were several, they do not agree: doctor lists none
    and warns, the daemon announces WireGuard, if it has an endpoint, and does not. *)
Theorem doctor_agrees cfg url :
  let caps := buildTransportCapabilities cfg url in
  (forall t, t ∈ ta_advertised (analyzeEnabledTransports cfg) -> t ∈ tc_Transport <$> caps) /\
  (transport_status cfg <> doctorFail -> checkTransportConfig cfg caps = Ok tt) /\
  (nc_EnabledTransports cfg <> [] -> Forall (plain_entry cfg) (nc_EnabledTransports cfg) -> plain_endpoint cfg ->
     ta_advertised (analyzeEnabledTransports cfg) = tc_Transport <$> caps /\
     (transport_status cfg = doctorFail <-> is_ok (checkTransportConfig cfg caps) = false) /\
     (transport_status cfg = doctorPass <-> checkTransportConfig cfg caps = Ok tt /\ Forall blank_warning (unadvertisedTransports cfg caps))) /\
  (nc_EnabledTransports cfg = [] ->
     ta_advertised (analyzeEnabledTransports cfg) = [] /\ transport_status cfg = doctorWarn /\
     unadvertisedTransports cfg caps = [] /\
     (str_empty (nc_Endpoint cfg) = false -> tc_Transport <$> caps = [TransportWireGuard])).
Proof.
  intros caps. destruct (decide (nc_EnabledTransports cfg = [])) as [Hen|Hne].
  { assert (analyzeEnabledTransports cfg = analyze_loop cfg ∅ []) as Ha by (unfold analyzeEnabledTransports; by rewrite Hen). rewrite Ha.
    split_and!; [by intros t ?%not_elem_of_nil|intros _; unfold checkTransportConfig; by rewrite Hen|done|].
    intros _. split_and!; [done|unfold transport_status; by rewrite Hen|unfold unadvertisedTransports; by rewrite Hen|].
    intros He. subst caps. unfold buildTransportCapabilities, enabled_of. rewrite Hen. cbn [caps_loop].
    change (parseTransport TransportWireGuard) with (Some TransportWireGuard). cbv iota. rewrite bool_decide_false by set_solver.
    assert (str_empty (endpoint_for cfg TransportWireGuard TransportWireGuard) = false) as ->; [|done].
    unfold endpoint_for. destruct (str_empty (transportMapLookup _ _ _)) eqn:Hl; cbn [andb]; [exact He|done]. }
  destruct (status_cases cfg Hne) as [Hfail Hpass].
  assert (forall t, t ∈ ta_advertised (analyzeEnabledTransports cfg) -> t ∈ tc_Transport <$> caps) as Hsub.
  { intros t (raw & Hraw & Hp & He)%analyze_in. apply (caps_loop_in cfg url (enabled_of cfg) ∅). split; [set_solver|]. exists raw. unfold enabled_of.
    destruct (nc_EnabledTransports cfg); [done|]. split_and!; [done|done|]. by apply doctor_endpoint_found. }
  assert (checkTransportConfig cfg caps = Ok tt <-> caps <> []) as Hcheck by (unfold checkTransportConfig; by destruct (nc_EnabledTransports cfg), caps).
  split_and!; [done| | |done].
  - rewrite Hfail, Hcheck. intros Ha Hc. apply Ha. destruct (ta_advertised _) as [|t l] eqn:E; [done|]. specialize (Hsub t). rewrite Hc in Hsub.
    by apply not_elem_of_nil in Hsub; [|left].
  - intros _ Hplain Hep. assert (ta_advertised (analyzeEnabledTransports cfg) = tc_Transport <$> caps) as Hadv.
    { unfold analyzeEnabledTransports, caps, buildTransportCapabilities, enabled_of. rewrite (analyze_plain cfg url _ Hplain Hep). by destruct (nc_EnabledTransports cfg). }
    rewrite Hfail, Hpass, Hadv, Hcheck, (fine_warnings cfg url Hplain Hep Hne). split_and!; [done| |].
    + unfold checkTransportConfig. by destruct (nc_EnabledTransports cfg), caps.
    + fold caps. destruct caps as [|c cs] eqn:E; naive_solver.
Qed.

(** ** What init builds *)
Lemma lower_space c : is_space (lower_char c) = is_space c.
Proof. by destruct c as [[] [] [] [] [] [] [] []]. Qed.
Lemma lower_twice c : lower_char (lower_char c) = lower_char c.
Proof. by destruct c as [[] [] [] [] [] [] [] []]. Qed.
Lemma ToLower_twice s : ToLower (ToLower s) = ToLower s.
Proof. induction s as [|c s IH]; [done|]. cbn. by rewrite lower_twice, IH. Qed.
Lemma ToLower_trim_left s : trim_left (ToLower s) = ToLower (trim_left s).
Proof. induction s as [|c s IH]; [done|]. cbn. rewrite lower_space. by destruct (is_space c). Qed.
Lemma ToLower_trim_right s : trim_right (ToLower s) = ToLower (trim_right s).
Proof. induction s as [|c s IH]; [done|]. cbn. rewrite IH, lower_space. destruct (trim_right s); cbn; [by destruct (is_space c)|done]. Qed.
Lemma trim_right_twice s : trim_right (trim_right s) = trim_right s.
Proof.
  induction s as [|c s IH]; [done|]. cbn. destruct (trim_right s) as [|d r] eqn:E; [by destruct (is_space c) eqn:Hc; cbn; [|rewrite Hc]|].
  cbn [trim_right] in IH |- *. by rewrite IH.
Qed.
Lemma trim_left_first s : match trim_left s with String c _ => is_space c = false | EmptyString => True end.
Proof. induction s as [|c s IH]; [done|]. cbn. by destruct (is_space c) eqn:Hc. Qed.
Lemma TrimSpace_twice s : TrimSpace (TrimSpace s) = TrimSpace s.
Proof.
  unfold TrimSpace. pose proof (trim_left_first s) as Hs. destruct (trim_left s) as [|c r]; [done|].
  assert (trim_right (String c r) = String c (trim_right r)) as -> by (cbn; rewrite Hs; by destruct (trim_right r)).
  cbn [trim_left]. rewrite Hs. cbn. rewrite trim_right_twice. destruct (trim_right r); by rewrite ?Hs.
Qed.
Lemma canonical_twice s : ToLower (TrimSpace (ToLower (TrimSpace s))) = ToLower (TrimSpace s).
Proof.
  assert (forall x, TrimSpace (ToLower x) = ToLower (TrimSpace x)) as E by (intros x; unfold TrimSpace; by rewrite ToLower_trim_left, ToLower_trim_right).
  by rewrite E, TrimSpace_twice, ToLower_twice.
Qed.
Lemma trim_blank c s : is_space c = false -> TrimSpace s = ""%string -> last_byte c s = None.
Proof.
  intros Hc. assert (forall x, trim_right x = ""%string -> last_byte c x = None) as Hr.
  { induction x as [|a x IH]; [done|]. cbn. destruct (trim_right x); [|done]. rewrite IH by done. destruct (is_space a) eqn:Ha; [|done]. intros _.
    destruct (Ascii.eqb_spec a c) as [->|]; [congruence|done]. }
  unfold TrimSpace. induction s as [|a s IH]; [done|]. cbn [trim_left]. destruct (is_space a) eqn:Ha; [|by apply Hr].
  intros H. cbn. rewrite (IH H). destruct (Ascii.eqb_spec a c) as [->|]; [congruence|done].
Qed.
Lemma splits_given s : splits s = true -> str_empty (TrimSpace s) = false /\ str_empty s = false.
Proof.
  intros Hs. assert (last_byte ":" s <> None) as Hl by (intros E; unfold splits, SplitHostPort in Hs; by rewrite E in Hs).
  split; [|by destruct s]. apply str_empty_false. intros E. by apply Hl, trim_blank.
Qed.
Lemma role_known r p : presetForRole r = Some p -> existsb (String.eqb (ToLower (TrimSpace r))) roles = true.
Proof. unfold presetForRole. cbn. by destruct (String.eqb _ "entry"), (String.eqb _ "exit"), (String.eqb _ "both"). Qed.
Lemma role_of_known r : existsb (String.eqb r) roles = true -> match role_of r with RoleOther _ => False | _ => True end.
Proof. unfold role_of. cbn. by destruct (String.eqb r "entry"), (String.eqb r "exit"), (String.eqb r "both"). Qed.
Lemma relays_given l : relays_or_default l <> [].
Proof. by destruct l. Qed.
Lemma required_address_Ok name v : required_address name v = Ok tt -> splits v = true.
Proof. unfold required_address. destruct (str_empty v), (splits v); by intros. Qed.
Lemma build_inv uri_ok o k n cfg : buildNodeConfig uri_ok o (Some k) (Some n) = Ok cfg ->
  existsb (String.eqb (ToLower (TrimSpace (no_Role o)))) roles = true /\ 0 < no_ListenPort o /\ splits (no_Endpoint o) = true /\
  splits (no_ConnectAddr o) = true /\ str_empty (no_HubURL o) = false /\ uri_ok (no_HubURL o) = true /\
  cfg = mkNodeCfg (ToLower (TrimSpace (no_Role o))) (no_ListenPort o) (base64_EncodeToString k) (no_TunnelIP o) (no_Interface o) (no_OutInterface o) (no_AdminAddr o) (no_MTU o)
          (hex_encode n) "" "" (relays_or_default (no_Relays o)) (no_Endpoint o) (no_UploadMbps o) (no_DownloadMbps o) (no_Capacity o) (no_HubURL o)
          (no_HubPubkeyFile o) (no_ConnectAddr o) [TransportWireGuard] {[TransportWireGuard := no_Endpoint o]} {[TransportWireGuard := no_ConnectAddr o]}.
Proof.
  unfold buildNodeConfig. destruct (presetForRole _) as [p|] eqn:Hp; [|done]. apply role_known in Hp. rewrite canonical_twice in Hp.
  destruct (_ <=? 0) eqn:Hl; [done|]. destruct (required_address "endpoint" _) as [[]|] eqn:He; [|done]. cbn [mbind result_mbind].
  destruct (str_empty (no_HubURL o)) eqn:Hu; [done|]. destruct (uri_ok _) eqn:Hok; [|done]. cbn [negb].
  destruct (required_address "connect_addr" _) as [[]|] eqn:Hc; [|done]. destruct (required_address "admin_addr" _) as [[]|]; [|done]. intros [= <-].
  apply required_address_Ok in He, Hc. split_and!; try done. lia.
Qed.
Lemma key_of_hex `{Schnorr} n : String.length n = 32%nat -> is_ok (KeyPairFromPrivHex (hex_encode n)) = true.
Proof. intros Hn. unfold KeyPairFromPrivHex. rewrite hex_decode_encode. by replace (slen n =? 32) with true by (unfold slen; lia). Qed.

(** Init lists WireGuard alone, at its endpoint. *)
Lemma only_wireguard cfg e : nc_TransportEndpoints cfg = {[TransportWireGuard := e]} -> str_empty (TrimSpace e) = false ->
  endpoint_for cfg TransportWireGuard TransportWireGuard = TrimSpace e.
Proof. intros E He. unfold endpoint_for, transportMapLookup. rewrite E, lookup_singleton_eq. cbn -[TrimSpace str_empty]. rewrite He. cbn -[TrimSpace str_empty]. by rewrite He. Qed.
Lemma only_status cfg e : nc_EnabledTransports cfg = [TransportWireGuard] -> nc_TransportEndpoints cfg = {[TransportWireGuard := e]} -> str_empty (TrimSpace e) = false ->
  transport_status cfg = doctorPass.
Proof.
  intros Hen E He. assert (str_empty (doctor_endpoint cfg "wireguard") = false) as Hd.
  { unfold doctor_endpoint. rewrite E. change "wireguard"%string with TransportWireGuard. rewrite lookup_singleton_eq. cbn -[TrimSpace str_empty]. rewrite He. cbn -[TrimSpace str_empty]. by rewrite He. }
  assert (nc_EnabledTransports cfg <> []) as Hne by (by rewrite Hen). apply (status_cases cfg Hne). split.
  - unfold analyzeEnabledTransports. rewrite Hen. cbn [analyze_loop]. change (ToLower (TrimSpace TransportWireGuard)) with "wireguard"%string. cbn [str_empty existsb negb].
    change (existsb (String.eqb "wireguard") doctor_known) with true. cbn [negb]. rewrite Hd. rewrite bool_decide_false by set_solver. done.
  - rewrite Hen. constructor; [|done]. right. by exists "wireguard"%string.
Qed.


(** ** A configuration is never lost *)
Section overwrite.
Context (is_dir : string -> bool) (path now data : string) (m0 : disk).
Local Abbreviation target := (TrimSpace path).
Local Abbreviation backup := (backup_name (TrimSpace path) now).
Local Abbreviation text := (data ++ String (ascii_of_nat 10) "")%string.
Definition others (m : disk) : Prop := forall q, q <> target -> q <> backup -> m !! q = m0 !! q.
Definition safe (f : file) (m : disk) : Prop := (m !! target = Some f \/ m !! backup = Some (mkFile (fl_content f) true)) /\ others m.
Lemma backup_apart : backup <> target.
Proof. unfold backup_name. intros E. apply (f_equal String.length) in E. rewrite !str_length_app in E. cbn in E. lia. Qed.
Lemma others_write q s (m : disk) : q = target \/ q = backup -> others m -> others (write_to q s m).
Proof. intros Hq Hm x Hx Hb. unfold write_to. rewrite lookup_insert_ne by (destruct Hq; congruence). by apply Hm. Qed.

Lemma runs_copy f : runs (safe f) (fun m => m !! target = Some f /\ others m) (copyFile target backup)
  (fun r m => safe f m /\ (is_ok r = true -> m !! backup = Some (mkFile (fl_content f) true))).
Proof.
  set (start := fun m : disk => m !! target = Some f /\ others m).
  assert (forall m, start m -> safe f m) as Hsafe by (intros m [? ?]; split; [by left|done]).
  assert (forall s m, start m -> start (write_to backup s m)) as Hwrite.
  { intros s m [Hm Ho]. split; [|apply others_write; auto]. unfold write_to. by rewrite lookup_insert_ne by apply backup_apart. }
  unfold copyFile. apply runs_bind with (P' := fun _ => start); [apply runs_idle; intros [[]|e] m Hm; [done|split; [by apply Hsafe|done]]|].
  intros []. apply runs_bind with (P' := fun x m => x = Some f /\ start m).
  { intros d r d' [= <- <-] HP. split; [by apply evolves_same|]. split; [apply HP|done]. }
  intros x. destruct x as [g|]; [|apply runs_value; by intros m [? _]].
  eapply runs_bind with (P' := fun _ m => g = f /\ start m).
  { apply runs_call; [intros m [[= ->] Hm]; split; [by apply Hsafe, Hwrite|split; [done|by apply Hwrite]]|intros m e [_ Hm]; split; [by apply Hsafe|done]]. }
  intros []. eapply runs_bind with (P' := fun _ m => g = f /\ start m); [apply runs_idle; intros [[]|e] m [Hg Hm]; [done|split; [by apply Hsafe|done]]|].
  intros []. eapply runs_bind with (P' := fun _ m => m !! backup = Some (mkFile (fl_content f) false) /\ start m).
  { unfold fs_write. apply runs_sys; [intros m [-> Hm]|intros m n e [-> Hm]].
    - split; [by apply Hsafe, Hwrite|]. split; [apply lookup_insert_eq|by apply Hwrite].
    - split; [by apply Hsafe, Hwrite|]. split; [by apply Hsafe, Hwrite|done]. }
  intros []. unfold fs_sync. apply runs_call; [intros m [Hb Hm]|intros m e [_ Hm]; split; [by apply Hsafe|done]].
  rewrite Hb. cbn [fl_content]. set (m1 := insert backup _ m).
  assert (safe f m1 /\ m1 !! backup = Some (mkFile (fl_content f) true)) as [H1 H2].
  { assert (m1 !! backup = Some (mkFile (fl_content f) true)) as E by apply lookup_insert_eq. split; [|done]. split; [by right|].
    intros q Hq Hqb. subst m1. rewrite lookup_insert_ne by congruence. by apply Hm. }
  by split_and!.
Qed.
Lemma runs_target (R : disk -> Prop) : (forall m s, R m -> R (write_to target s m)) ->
  runs R R (writeJSON path data) (fun r m => R m /\ (is_ok r = true -> m !! target = Some (mkFile text false))).
Proof.
  intros HR. unfold writeJSON. destruct (str_empty target); [by apply runs_value|].
  eapply runs_bind with (P' := fun _ => R); [apply runs_parent; by intros [[]|e] m Hm|]. intros [].
  eapply runs_bind with (P' := fun _ m => R m /\ m !! target = Some (mkFile text false)).
  - eapply runs_conseq; [apply (runs_write R R); [done|by auto]|done|done|]. intros [[]|e] m [Hm Hx]; split; [done|by apply Hx|done|done].
  - intros []. apply runs_idle. by intros r m [? ?].
Qed.
Lemma backup_stays s (m : disk) : others m /\ m !! backup = m0 !! backup -> others (write_to target s m) /\ write_to target s m !! backup = m0 !! backup.
Proof. intros [Ho Hb]. split; [by apply others_write; [left|]|]. unfold write_to. by rewrite lookup_insert_ne by (intros E; by destruct backup_apart). Qed.
Lemma runs_guard force : runs (match m0 !! target with Some f => safe f | None => others end) (fun m => m = m0) (guardOutputPath is_dir path now force)
  (fun r m => match m0 !! target with
              | Some f => safe f m /\ (force = false -> is_ok r = false /\ m = m0) /\ (is_ok r = true -> m !! backup = Some (mkFile (fl_content f) true))
              | None => m = m0
              end).
Proof.
  assert (forall f, m0 !! target = Some f -> safe f m0) as H0 by (intros f Hf; split; [by left|done]).
  unfold guardOutputPath. set (Q := fun r m => match m0 !! target with Some f => _ | None => _ end).
  assert (forall e, Q (Err e) m0) as Herr by (intros e; subst Q; cbn; destruct (m0 !! target) as [f|] eqn:Hf; [|done]; split; [by apply H0|done]).
  destruct (str_empty target); [apply runs_value; by intros m ->|].
  eapply runs_bind with (P' := fun _ m => m = m0); [apply runs_idle; intros [[]|e] m ->; [done|by apply Herr]|]. intros [].
  destruct (is_dir target); [apply runs_value; by intros m ->|].
  eapply runs_bind with (P' := fun x m => x = m0 !! target /\ m = m0); [intros d r d' [= <- <-] Hd; split; [by apply evolves_same|by rewrite Hd]|].
  intros x. destruct x as [f|]; [|apply runs_value; intros m [Hx ->]; subst Q; cbn; by rewrite <-Hx].
  intros d r d' Hrun [Hx Hd]. subst Q. cbn. rewrite <-Hx. destruct force; cbn [negb] in Hrun.
  - destruct (runs_copy f d r d' Hrun) as [He [Hs Hb]]; [rewrite Hd; by split|]. by split_and!.
  - injection Hrun as <- <-. split; [by apply evolves_same|]. rewrite Hd. split_and!; [by apply H0|done|done].
Qed.
Lemma runs_replace force f : m0 !! target = Some f -> runs (safe f) (fun m => m = m0) (write_config is_dir path now data force)
  (fun r m => safe f m /\ (force = false -> is_ok r = false /\ m = m0) /\ (is_ok r = true -> m !! target = Some (mkFile text false) /\ m !! backup = Some (mkFile (fl_content f) true))).
Proof.
  intros Hf. set (I := fun m : disk => m !! backup = Some (mkFile (fl_content f) true) /\ others m).
  assert (forall m, I m -> safe f m) as HI by (intros m [? ?]; split; [by right|done]).
  unfold write_config. eapply runs_bind with (P' := fun _ m => force = true /\ I m).
  - pose proof (runs_guard force) as Hg. rewrite Hf in Hg. eapply runs_conseq; [exact Hg|done|done|]. intros [[]|e] m (Hs & Hforce & Hb).
    + destruct force; [|by destruct (Hforce eq_refl)]. split; [done|]. split; [by apply Hb|apply Hs].
    + by split_and!.
  - intros [] d r d' H [-> Hm]. destruct (runs_target I) with (d := d) (r := r) (d' := d') as [He [Hi Ht]]; [|done|done|].
    + intros m s [Hb Ho]. split; [|by apply others_write; [left|]]. unfold write_to. by rewrite lookup_insert_ne by (intros E; by destruct backup_apart).
    + split; [by eapply evolves_weaken|]. split_and!; [by apply HI|done|]. intros Hr. split; [by apply Ht|apply Hi].
Qed.
Lemma runs_create force : m0 !! target = None -> runs others (fun m => m = m0) (write_config is_dir path now data force)
  (fun r m => others m /\ m !! backup = m0 !! backup /\ (is_ok r = true -> m !! target = Some (mkFile text false))).
Proof.
  intros Hf. set (I := fun m : disk => others m /\ m !! backup = m0 !! backup). unfold write_config. eapply runs_bind with (P' := fun _ => I).
  - pose proof (runs_guard force) as Hg. rewrite Hf in Hg. eapply runs_conseq; [exact Hg|done|done|]. by intros [[]|e] m ->.
  - intros []. eapply runs_conseq; [apply (runs_target I); intros m s; apply backup_stays|by intros m [? _]|done|]. by intros r m [[? ?] ?].
Qed.
End overwrite.

(** The content is still on the disk: in the file, or in the copy. *)
Definition still_there (content p b : string) (m : disk) : Prop := exists g, (m !! p = Some g \/ m !! b = Some g) /\ fl_content g = content.
Lemma safe_crash path now m0 f m m' : safe path now m0 f m -> fl_synced f = true -> crash m m' ->
  still_there (fl_content f) (TrimSpace path) (backup_name (TrimSpace path) now) m'.
Proof.
  intros [Hm _] Hs Hc. destruct Hm as [Hm|Hm]; pose proof (crash_synced _ _ _ _ Hc Hm) as Hg; eexists; (split; [eauto|done]).
Qed.

(** C34: init never loses a configuration. Where no file was, init writes the file and
    touches no other; without --force an existing file stops it with nothing changed;
    with --force, at every moment while it works, and whatever survives if the power
    goes off at that moment, the old configuration is whole either in its file or in
    the dated copy; and when init succeeds the file is the new configuration and the
    copy, flushed, the old one. Any call may fail on the way. *)
Theorem overwrite_keeps_old is_dir path now data force d r d' : write_config is_dir path now data force d = (r, d') ->
  let p := TrimSpace path in
  let b := backup_name p now in
  let new_text := (data ++ String (ascii_of_nat 10) "")%string in
  (is_ok r = true -> dv_files d' !! p = Some (mkFile new_text false)) /\
  exists new, dv_history d' = new ++ dv_history d /\ Forall (others path now (dv_files d)) (dv_files d' :: new) /\
  match dv_files d !! p with
  | None => dv_files d' !! b = dv_files d !! b
  | Some f =>
      (force = false -> is_ok r = false /\ dv_files d' = dv_files d) /\
      (fl_synced f = true -> Forall (fun m => forall m', crash m m' -> still_there (fl_content f) p b m') (dv_files d' :: new)) /\
      (is_ok r = true -> dv_files d' !! b = Some (mkFile (fl_content f) true))
  end.
Proof.
  intros Hrun p b new_text. destruct (dv_files d !! p) as [f|] eqn:Hf.
  - destruct (runs_replace is_dir path now data (dv_files d) force f Hf d r d' Hrun eq_refl) as [[(new & Hh & Hnew) _] (Hs & Hno & Hyes)].
    assert (Forall (safe path now (dv_files d) f) (dv_files d' :: new)) as Hall by (by constructor).
    split; [intros Hr; by apply Hyes|]. exists new. split_and!; [done|eapply Forall_impl; [exact Hall|]; by intros m [_ ?]|done| |intros Hr; by apply Hyes].
    intros Hsync. eapply Forall_impl; [exact Hall|]. intros m Hm m' Hc. by eapply safe_crash.
  - destruct (runs_create is_dir path now data (dv_files d) force Hf d r d' Hrun eq_refl) as [[(new & Hh & Hnew) _] (Ho & Hb & Hyes)].
    split; [done|]. exists new. split_and!; [done|by constructor|done].
Qed.

(** ** Examples *)
Lemma doctor_agrees_witness :
  (transport_status toy_mixed = doctorWarn /\ checkTransportConfig toy_mixed (buildTransportCapabilities toy_mixed "") = Ok tt) /\
  let legacy := toy_node "entry" [] ∅ in
  ta_advertised (analyzeEnabledTransports legacy) = [] /\ tc_Transport <$> buildTransportCapabilities legacy "" = [TransportWireGuard].
Proof.
  split.
  - split; [vm_compute; reflexivity|]. refine (proj1 (proj2 (doctor_agrees toy_mixed "")) _). vm_compute. discriminate.
  - intros legacy. destruct (proj2 (proj2 (proj2 (doctor_agrees legacy ""))) eq_refl) as (Ha & _ & _ & Hw). split; [exact Ha|]. apply Hw. reflexivity.
Defined.

Definition toy_options : nodeInitOptions :=
  mkNodeOpts " Exit" 51821 "10.200.0.1/24" "wg-exit" "eth0" "127.0.0.1:9090" 1280 "203.0.113.9:51821" "0.0.0.0:9091" 100 100 10 [] "http://hub:8080" "hub.pub.json".
(** The hub's key was copied next to the configuration. *)
Definition toy_configured : Device := mkDev {["hub.pub.json"%string := mkFile (toy_key_text hub_key_id 100000000 "one") true]} [] None [] [].

Definition toy_old : file := mkFile "old keys" true.
(** The copy is cut short, then made; then the write is. *)
Definition toy_device (faults : list (option nat)) : Device := mkDev {["node.json"%string := toy_old]} [] None [] faults.
Lemma overwrite_keeps_old_witness :
  exists d', write_config (fun _ => false) " node.json" "17" "new" true (toy_device [None; None; None; None; None; None; None; Some 1%nat]) = (Err "input/output error"%string, d') /\
    Forall (fun m => forall m', crash m m' -> still_there "old keys" "node.json" "node.json.bak.17" m') (dv_files d' :: dv_history d') /\
    fl_content <$> dv_files d' !! "node.json"%string = Some "n"%string.
Proof.
  eexists. split; [vm_compute; reflexivity|]. split; [|vm_compute; reflexivity].
  destruct (overwrite_keeps_old (fun _ => false) " node.json" "17" "new" true (toy_device [None; None; None; None; None; None; None; Some 1%nat]) _ _ ltac:(vm_compute; reflexivity))
    as (_ & new & Hh & _ & Hkept).
  change (dv_history (toy_device _)) with (@nil disk) in Hh. rewrite app_nil_r in Hh. rewrite Hh.
  change (dv_files (toy_device _) !! TrimSpace " node.json") with (Some toy_old) in Hkept. cbv iota in Hkept. destruct Hkept as (_ & Hall & _). exact (Hall eq_refl).
Defined.

(** The daemon also looks an endpoint up under the name as it was written. *)
Example doctor_misses_raw_key :
  checkTransportConfig toy_hysteria_only (buildTransportCapabilities toy_hysteria_only "") = Ok tt /\ transport_status toy_hysteria_only = doctorFail.
Proof. by vm_compute. Qed.
(** A role doctor passes, and no hub takes. *)
Example doctor_passes_capital_role :
  let cfg := toy_node "Exit" [] ∅ in
  (dc_Status <$> head (validateNodeConfig (fun _ => true) None (fun _ => true) cfg)) = Some doctorPass /\
  validateNodeInfo (nodeInfoFn cfg "npub" toy_wgkey 0) = Err (IXInfo "invalid role").
Proof. by vm_compute. Qed.
(** Keys of which doctor and the hub think differently *)
Definition toy_hub_file (key : string) : HubConfig := mkHubCfg "" (hex_encode (pad32 "hub")) "0.0.0.0:8080" ["wss://relay"]%string "" key 24 1000 20 "" "127.0.0.1" 8081 "tls" "mac" 0.
Definition key_check (key : string) : option doctorStatus := dc_Status <$> validateHubConfig None (fun _ => true) (toy_hub_file key) !! 1%nat.
Example doctor_misjudges_key :
  key_check (hex_encode (pad32 "k" ++ "more")) = Some doctorFail /\ is_ok (parseCredentialKey (hex_encode (pad32 "k" ++ "more")) false) = true /\
  key_check (hex_encode (pad32 "k") ++ " ") = Some doctorPass /\ is_ok (parseCredentialKey (hex_encode (pad32 "k") ++ " ") false) = false.
Proof. by vm_compute. Qed.
(** Clients of a node with both roles are given addresses the firewall does not
    masquerade. *)
Example both_role_not_masqueraded :
  (fun role => (fun p => (deriveTunnelSubnet (pr_TunnelIP p), subnetForIface (pr_Interface p))) <$> presetForRole role) <$> roles =
  [Some ("10.100.0", "10.100.0.0/16"); Some ("10.200.0", "10.200.0.0/16"); Some ("10.150.0", "10.100.0.0/16")]%string.
Proof. by vm_compute. Qed.
