(* ===== verification/MintClient.v ===== *)
(** * MintClient: buying ecash over HTTP
    (src/internal/wallet/mintclient.go; RequestQuote and QuoteStatus of
    src/internal/wallet/wallet.go; Purchase and AwaitPurchase of
    src/internal/app/service.go)

    The client of a hub's ecash endpoints over a connection that may lose requests
    and answers, between the wallet of Wallet.v and the endpoints of CashuApi.v: a
    purchase from the invoice to the tokens. Bodies are passed decoded; url.Parse is
    an argument. *)
From S2P Require Import Prelude Sql Credentials Payments Ecash EcashStore Mint WorkerPool ProofVault Peers IPPool Control Connect CashuApi Wallet Bandwidth Discovery Nip44 HostNet ClientConnect ServiceNodes NodeConfig.

(** ** Addresses of hubs *)
(** url.URL, and how it is written *)
Record HubURL := mkHubURL { hu_Scheme : string; hu_User : string; hu_Host : string; hu_Path : string; hu_RawQuery : string; hu_ForceQuery : bool; hu_Fragment : string }.
Definition URL_String (u : HubURL) : string :=
  (hu_Scheme u ++ "://" ++ (if str_empty (hu_User u) then "" else hu_User u ++ "@") ++ hu_Host u ++ hu_Path u ++
   (if hu_ForceQuery u || negb (str_empty (hu_RawQuery u)) then "?" ++ hu_RawQuery u else "") ++
   (if str_empty (hu_Fragment u) then "" else "#" ++ hu_Fragment u))%string.
Definition is_slash (c : ascii) : bool := Ascii.eqb c "/".
Section urls.
Context (url_Parse : string -> option HubURL).
Definition normaliseHubURL (raw : string) : result wallet_error string :=
  let trimmed := TrimSpace raw in
  if str_empty trimmed then Err (WalletErr "hub URL is required")
  else match url_Parse trimmed with
  | None => Err (WalletErr "invalid hub URL")
  | Some u =>
      if negb (String.eqb (hu_Scheme u) "http") && negb (String.eqb (hu_Scheme u) "https") then Err (WalletErr "hub URL must use http or https")
      else if str_empty (hu_Host u) then Err (WalletErr "hub URL is missing a host")
      else Ok (URL_String (mkHubURL (hu_Scheme u) (hu_User u) (hu_Host u) (drop_right is_slash (hu_Path u)) "" (hu_ForceQuery u) ""))
  end.
Definition NewMintClient (hubURL : string) : result wallet_error string := normaliseHubURL hubURL.
End urls.

(** ** Requests *)
(** [unmarshal]: the error and detail of a JSON body. *)
Definition extractErrorMessage (unmarshal : string -> option (string * string)) (payload : string) : string :=
  match unmarshal payload with
  | Some (error, detail) => if negb (str_empty error) then error else if negb (str_empty detail) then detail else TrimSpace payload
  | None => TrimSpace payload
  end.
Definition HubError_Error (status : Z) (path msg : string) : string :=
  if str_empty msg then ("hub returned " ++ show_Z status ++ " for " ++ path)%string else ("hub returned " ++ show_Z status ++ " for " ++ path ++ ": " ++ msg)%string.

Section client.
Context `{Bdhke} {S : Type} `{!MintStore S}.
Context (limits : rate_config) (m : Mint).
(** What a request meets: how it fares, what else happened at the hub before it, the
    call at the hub and the Lightning client's answers. *)
Record meeting := mkMeeting { mt_fate : fate; mt_others : S -> S; mt_call : call; mt_ln : option ln_answers }.
(** The hub, and what the next requests meet; with none left the context is done. *)
Record Wire := mkWire { wi_api : DiscoveryAPI (S := S); wi_next : list meeting }.
Definition wi_store (w : Wire) : S := da_store (wi_api w).

Definition do_ {A} (handler : option ln_answers -> call -> DiscoveryAPI -> option (reply A) * DiscoveryAPI) (w : Wire) : result wallet_error A * Wire :=
  match wi_next w with
  | [] => (Err (WalletErr "context canceled"), w)
  | x :: rest =>
      let api := mkApi (da_rate (wi_api w)) (mt_others x (da_store (wi_api w))) in
      match mt_fate x with
      | LostRequest => (Err (WalletErr "request failed"), mkWire api rest)
      | LostAnswer => (Err (WalletErr "request failed"), mkWire (handler (mt_ln x) (mt_call x) api).2 rest)
      | Answered =>
          let '(a, api') := handler (mt_ln x) (mt_call x) api in
          (match a with
           | None => Err (WalletErr "request failed")
           | Some (Reply code body) => if (200 <=? code) && (code <? 300) then Ok body else Err (HubError code)
           | Some (Fault code _) => Err (HubError code)
           end, mkWire api' rest)
      end
  end.

Definition quote_path : string := "/v1/mint/quote/bolt11/".
(** [newID]: the ID the hub draws. *)
Definition CreateMintQuote (newID : option string) (amountSats : Z) (w : Wire) : result wallet_error MintQuote * Wire :=
  if amountSats =? 0 then (Err (WalletErr "amount must be greater than zero"), w)
  else
    let '(r, w1) := do_ (fun ln c api => handleMintQuote limits ln newID (Some (mkQuoteReq amountSats "sat")) "/v1/mint/quote/bolt11" POST c api) w in
    (match r with
     | Err e => Err e
     | Ok quote => if str_empty (q_ID quote) || str_empty (q_PaymentRequest quote) then Err (WalletErr "hub returned an incomplete mint quote") else Ok quote
     end, w1).
(** The path is escaped on the way and the hub sees it unescaped. *)
Definition MintQuoteStatus (quoteID : string) (w : Wire) : result wallet_error MintQuote * Wire :=
  if str_empty quoteID then (Err (WalletErr "quote ID is required"), w)
  else do_ (fun ln c api => handleMintQuote limits ln None None (quote_path ++ quoteID) GET c api) w.
Definition to_keyset (k : keysetKeys) : Keyset := mkKeysetInfo (kk_ID k) (kk_Unit k) (kk_Keys k).
Definition result_map {A B} (f : A -> B) (r : result wallet_error A) : result wallet_error B := match r with Ok a => Ok (f a) | Err e => Err e end.
(** The hub, as the wallet sees it *)
Definition http_api : HubApi Wire := {|
  api_keys := fun w => let '(r, w1) := do_ (fun _ c api => handleKeys limits m GET c api) w in (result_map (fmap to_keyset) r, w1);
  api_mint := fun id outs w => do_ (fun ln c api => handleMintTokens limits m ln (Some (mkMintReq id outs)) POST c api) w;
  api_swap := fun ins outs w => do_ (fun _ c api => handleSwap limits m (Some (mkSwapReq ins outs)) POST c api) w
|}.
End client.
Arguments mkMeeting {_}. Arguments mkWire {_}.

(** ** The wallet's and the service's purchase *)
Section purchase.
Context `{WalletCrypto} {S : Type} `{!MintStore S}.
Context (limits : rate_config) (m : Mint).
Definition quote_paid (q : MintQuote) : bool := match q_State q with QuotePaid | QuoteIssued => true | _ => false end.
(** AwaitPayment; [polls]: how often the ticker fires before the context is done, at most. *)
Fixpoint await_quote (polls : nat) (quoteID : string) (w : Wire (S := S)) : result wallet_error MintQuote * Wire (S := S) :=
  let '(r, w1) := MintQuoteStatus limits quoteID w in
  match r with
  | Err e => (Err e, w1)
  | Ok quote =>
      if quote_paid quote then (Ok quote, w1)
      else if bool_decide (q_State quote = QuoteExpired) then (Err (WalletErr "mint quote expired before payment"), w1)
      else match polls with O => (Err (WalletErr "context canceled"), w1) | Datatypes.S n => await_quote n quoteID w1 end
  end.
(** [url]: the hub of the current wallet. *)
Definition Purchase (url : option string) (newID : option string) (amountSats : Z) (w : Wire (S := S)) : result wallet_error MintQuote * Wire (S := S) :=
  match url with None => (Err (WalletErr "not connected to a hub"), w) | Some _ => CreateMintQuote limits newID amountSats w end.
Definition AwaitPurchase (url : option string) (e : entropy) (ok : bool) (polls : nat) (quoteID : string) (v : EncryptedProofStore) (w : Wire (S := S)) :
    result wallet_error Z * EncryptedProofStore * Wire (S := S) :=
  match url with
  | None => (Err (WalletErr "not connected to a hub"), v, w)
  | Some hub =>
      match await_quote polls quoteID w with
      | (Err er, w1) => (Err er, v, w1)
      | (Ok quote, w1) =>
          match Wallet_Mint (http_api limits m) e ok hub (Some (mkWalletQuote (q_ID quote) (q_Amount quote))) v w1 with
          | (Err er, v1, w2) => (Err er, v1, w2)
          | (Ok _, v1, w2) => (Ok (Balance hub v1), v1, w2)
          end
      end
  end.
End purchase.

(** ** A purchase, accounted for *)
Section accounting.
Context `{WalletCryptoLaws} {S : Type} `{MintStoreLaws S}.
Context (limits : rate_config) (m : Mint) (id : string) (n : Z).
(** The hub still owes the quote's tokens, or has given them. *)
Definition owed (s : S) : Prop := store_ok s /\ exists q, quotes s !! id = Some q /\ q_ID q = id /\ q_Amount q = n /\ q_State q <> QuoteIssued.
Definition given (s : S) : Prop := store_ok s /\ exists q, quotes s !! id = Some q /\ q_Amount q = n /\ q_State q = QuoteIssued.
(** What others do leaves the quote alone: its ID is known to its buyer only. *)
Definition leaves_alone (x : meeting (S := S)) : Prop := forall s, store_ok s -> store_ok (mt_others x s) /\ quotes (mt_others x s) !! id = quotes s !! id.

Lemma owed_others x s : leaves_alone x -> owed s -> owed (mt_others x s).
Proof. intros Hx [Hok (q & Hq & ?)]. destruct (Hx s Hok) as [? E]. split; [done|]. exists q. by rewrite E. Qed.
Lemma given_others x s : leaves_alone x -> given s -> given (mt_others x s).
Proof. intros Hx [Hok (q & Hq & ?)]. destruct (Hx s Hok) as [? E]. split; [done|]. exists q. by rewrite E. Qed.
Lemma owed_paid s q ln : owed s -> quotes s !! id = Some q -> lookup_settled ln q = true -> owed (mark_paid id s).
Proof.
  intros [Hok (q' & Hq & Hid & Hn & Hst)] Hq' _. unfold mark_paid. destruct (UpdateMintQuoteState id QuotePaid s) as [r s'] eqn:Hu.
  apply law_Update in Hu as (Hok' & _ & Hr); [|done]. split; [done|]. cbn [snd]. destruct r as [[]|e].
  - destruct Hr as (x & Hx & ->). exists (quote_with x QuotePaid). rewrite lookup_insert_eq. assert (x = q') as -> by congruence. by split_and!.
  - exists q'. rewrite Hr. by split_and!.
Qed.

(** A request that keeps [P] at the hub, whatever it answers. *)
Definition keeps {A} (P : S -> Prop) (handler : option ln_answers -> call -> DiscoveryAPI (S := S) -> option (reply A) * DiscoveryAPI (S := S)) : Prop :=
  forall ln c (api : DiscoveryAPI (S := S)), P (da_store api) -> P (da_store (handler ln c api).2).
Lemma do_keeps {A} (P : S -> Prop) (handler : option ln_answers -> call -> DiscoveryAPI (S := S) -> option (reply A) * DiscoveryAPI (S := S)) w r w' :
  (forall x s, x ∈ wi_next w -> P s -> P (mt_others x s)) -> keeps P handler -> do_ handler w = (r, w') -> P (wi_store w) ->
  P (wi_store w') /\ exists done, wi_next w = done ++ wi_next w'.
Proof.
  intros Hoth Hk Hdo HP. unfold do_ in Hdo. destruct (wi_next w) as [|x rest] eqn:Hn; [injection Hdo as <- <-; split; [done|]; exists []; by rewrite Hn|].
  assert (P (mt_others x (da_store (wi_api w)))) as HP' by (apply Hoth; [by left|done]).
  destruct (mt_fate x); [|injection Hdo as <- <-..].
  - destruct (handler _ _ _) as [a api'] eqn:Hh. pose proof (Hk (mt_ln x) (mt_call x) (mkApi (da_rate (wi_api w)) (mt_others x (da_store (wi_api w)))) HP') as Hk'.
    rewrite Hh in Hk'. injection Hdo as <- <-. split; [done|]. by exists [x].
  - split; [done|]. by exists [x].
  - split; [by apply Hk|]. by exists [x].
Qed.
(** The body of an answer that came: what the handler replied. *)
Lemma do_Ok {A} (handler : option ln_answers -> call -> DiscoveryAPI (S := S) -> option (reply A) * DiscoveryAPI (S := S)) w a w' : do_ handler w = (Ok a, w') ->
  exists x rest code api', wi_next w = x :: rest /\ wi_next w' = rest /\ wi_api w' = api' /\
    handler (mt_ln x) (mt_call x) (mkApi (da_rate (wi_api w)) (mt_others x (da_store (wi_api w)))) = (Some (Reply code a), api').
Proof.
  unfold do_. destruct (wi_next w) as [|x rest]; [done|]. destruct (mt_fate x); [|done..]. destruct (handler _ _ _) as [[[code body|code msg]|] api'] eqn:Hh; try done.
  destruct (_ && _); [|done]. intros [= -> <-]. by exists x, rest, code, api'.
Qed.

Lemma str_cons_app c a b : (String c a ++ b)%string = String c (a ++ b).
Proof. done. Qed.
Lemma trim_prefix_app a b : trim_prefix a (a ++ b) = b.
Proof.
  unfold trim_prefix. assert (String.prefix a (a ++ b) = true) as ->.
  { induction a as [|c a IH]; [by destruct b|]. rewrite str_cons_app. cbn. by destruct (ascii_dec c c). }
  rewrite str_length_app. replace (String.length a + String.length b - String.length a)%nat with (String.length b) by lia.
  induction a as [|c a IH]; [|rewrite str_cons_app; exact IH]. change ("" ++ b)%string with b. induction b as [|c b IH]; [done|]. cbn. f_equal. exact IH.
Qed.
Lemma status_keeps : str_empty id = false -> keeps owed (fun ln c api => handleMintQuote limits ln None None (quote_path ++ id) GET c api).
Proof.
  intros Hid ln c api Ho. unfold handleMintQuote, handleGetMintQuote, rate_checked. destruct (checkRateLimit _ _ _) as [[] rl]; [|done]. cbv zeta. cbn [da_store da_rate].
  unfold quote_path. rewrite trim_prefix_app. destruct (_ || _); [done|]. destruct (64 <? slen id); [done|].
  destruct (GetMintQuote id (da_store api)) as [q|e] eqn:Hg; [|done]. destruct (lookup_settled ln q) eqn:Hs; [|done]. cbn [da_store snd].
  eapply owed_paid; [done| |exact Hs]. apply law_GetMintQuote; [apply Ho|done].
Qed.
Lemma keys_keep P : keeps P (fun _ c api => handleKeys limits m GET c api).
Proof.
  intros ln c api HP. unfold handleKeys, for_method, rate_checked. rewrite bool_decide_eq_true_2 by done. cbn [negb].
  destruct (checkRateLimit _ _ _) as [[] rl]; [|done]. by destruct (PublicKeys m), (ActiveKeysetID m).
Qed.
Lemma status_Ok q w w' : (forall x, x ∈ wi_next w -> leaves_alone x) -> str_empty id = false ->
  MintQuoteStatus limits id w = (Ok q, w') -> owed (wi_store w) -> q_ID q = id /\ q_Amount q = n.
Proof.
  intros Hoth Hid Hrun Ho. unfold MintQuoteStatus in Hrun. rewrite Hid in Hrun. apply do_Ok in Hrun as (x & rest & code & api' & Hn & _ & _ & Hh).
  apply (owed_others x) in Ho; [|apply Hoth; rewrite Hn; by left]. unfold wi_store in Ho. set (s := mt_others x _) in *.
  unfold handleMintQuote, handleGetMintQuote, rate_checked in Hh. destruct (checkRateLimit _ _ _) as [[] rl]; [|done]. cbv zeta in Hh. cbn [da_store da_rate] in Hh.
  unfold quote_path in Hh. rewrite trim_prefix_app in Hh. destruct (_ || _); [done|]. destruct (64 <? slen id); [done|].
  destruct (GetMintQuote id s) as [y|e] eqn:Hg; [|done]. apply law_GetMintQuote in Hg; [|apply Ho]. destruct Ho as [_ (z & Hz & Hzid & Hzn & _)].
  assert (z = y) as -> by congruence. destruct (lookup_settled _ y); injection Hh as _ <- _; by split.
Qed.
Lemma client_mint_step ln outs sigs c (api : DiscoveryAPI (S := S)) a api' : 0 < n < 2 ^ 64 -> zsum_by bm_Amount outs = n -> SignBlindedMessages m outs = Ok sigs ->
  handleMintTokens limits m ln (Some (mkMintReq id outs)) POST c api = (a, api') -> owed (da_store api) ->
  (given (da_store api') /\ a = Some (Reply StatusOK sigs)) \/ (owed (da_store api') /\ match a with Some (Reply _ _) => False | _ => True end).
Proof.
  intros Hn Hout Hsign Hrun Ho. unfold handleMintTokens, for_method, rate_checked in Hrun. rewrite bool_decide_eq_true_2 in Hrun by done. cbn [negb] in Hrun.
  destruct (checkRateLimit _ _ _) as [[] rl]; [|injection Hrun as <- <-; by right]. cbn [da_store da_rate] in Hrun.
  destruct (mint_request_ok _) as [req|msg] eqn:Hreq; [|injection Hrun as <- <-; by right].
  assert (req = mkMintReq id outs) as -> by (unfold mint_request_ok in Hreq; crush). cbn [mq_Quote mq_Outputs] in Hrun.
  destruct (GetMintQuote id (da_store api)) as [q|e] eqn:Hg; [|injection Hrun as <- <-; by right]. apply law_GetMintQuote in Hg as Hq; [|apply Ho].
  set (s1 := if lookup_settled ln q then _ else _) in Hrun. assert (owed s1) as Ho1 by (subst s1; destruct (lookup_settled ln q) eqn:Hs; [by eapply owed_paid|done]).
  unfold Pool_MintTokens, pooled in Hrun. destruct (cx_slot c); [|injection Hrun as <- <-; by right].
  destruct (MintTokens m id outs s1) as [r s2] eqn:Hm.
  assert ((given s2 /\ r = Ok sigs) \/ (owed s2 /\ is_ok r = false)) as Hres.
  { unfold MintTokens in Hm. destruct (GetMintQuote id s1) as [q1|e] eqn:Hg1; [|injection Hm as <- <-; by right]. apply law_GetMintQuote in Hg1; [|apply Ho1].
    destruct (mint_guard q1 outs) as [[]|e]; [|injection Hm as <- <-; by right].
    destruct (TransitionMintQuoteState id QuotePaid QuoteIssued s1) as [t s3] eqn:Ht. apply law_Transition in Ht as (Hok & _ & Hr); [|apply Ho1].
    destruct Ho1 as [_ (z & Hz & Hzid & Hzn & Hzs)]. destruct t as [[]|e].
    - rewrite Hsign in Hm. injection Hm as <- <-. left. split; [|done]. split; [done|]. destruct Hr as (y & Hy & _ & ->). exists (quote_with y QuoteIssued).
      rewrite lookup_insert_eq. assert (y = z) as -> by congruence. by split_and!.
    - injection Hm as <- <-. right. split; [|done]. split; [done|]. exists z. destruct Hr as [-> _]. done.
    - injection Hm as <- <-. right. split; [|done]. split; [done|]. exists z. by rewrite Hr. }
  destruct Hres as [[Hgiven ->]|[Howed Hbad]]; [injection Hrun as <- <-; by left|]. destruct r as [|e]; [done|]. injection Hrun as <- <-. right. split; [done|].
  unfold mint_fault. by destruct e.
Qed.
Context (ks : MintKeyset).
Context (Ha : m_activeKeyset m = Some ks).
Lemma http_keys w k w' : ActiveKeyset (http_api limits m) w = (Ok k, w') -> k = mkKeysetInfo (mk_Id ks) "sat" (keysetPublicKeys ks).
Proof.
  unfold ActiveKeyset, http_api. cbn [api_keys]. destruct (do_ _ w) as [r w1] eqn:Hdo. destruct r as [l|e]; [|done]. cbn [result_map].
  apply do_Ok in Hdo as (x & rest & code & api' & _ & _ & _ & Hh). unfold handleKeys, for_method, rate_checked in Hh. rewrite bool_decide_eq_true_2 in Hh by done. cbn [negb] in Hh.
  destruct (checkRateLimit _ _ _) as [[] rl]; [|done]. unfold PublicKeys, ActiveKeysetID in Hh. rewrite Ha in Hh. injection Hh as _ <- _. cbn. by intros [= <- _].
Qed.
Definition last_answer_lost (w w' : Wire (S := S)) : Prop := exists done x, wi_next w = done ++ x :: wi_next w' /\ mt_fate x = LostAnswer.
Lemma http_mint outs sigs w r w' : (forall x, x ∈ wi_next w -> leaves_alone x) -> 0 < n < 2 ^ 64 -> zsum_by bm_Amount outs = n -> SignBlindedMessages m outs = Ok sigs ->
  api_mint (http_api limits m) id outs w = (r, w') -> owed (wi_store w) ->
  (r = Ok sigs /\ given (wi_store w')) \/ (is_ok r = false /\ (owed (wi_store w') \/ given (wi_store w') /\ last_answer_lost w w')).
Proof.
  intros Hoth Hn Hout Hsign Hrun Ho. unfold http_api in Hrun. cbn [api_mint] in Hrun. unfold do_ in Hrun.
  destruct (wi_next w) as [|x rest] eqn:Hw; [injection Hrun as <- <-; right; split; [done|by left]|].
  apply (owed_others x) in Ho; [|apply Hoth; by left]. unfold wi_store in Ho. set (s := mt_others x _) in *.
  cbv beta zeta in Hrun. fold s in Hrun.
  destruct (handleMintTokens limits m (mt_ln x) (Some (mkMintReq id outs)) POST (mt_call x) (mkApi (da_rate (wi_api w)) s)) as [a api'] eqn:Hh.
  apply (client_mint_step _ _ sigs) in Hh as Hcases; [|done..].
  destruct (mt_fate x) eqn:Hf.
  - destruct Hcases as [[Hg ->]|[Hg Hbad]].
    + injection Hrun as <- <-. left. by split.
    + destruct a as [[code body|code msg]|]; [done|..]; injection Hrun as <- <-; right; (split; [done|]); by left.
  - injection Hrun as <- <-. right. split; [done|]. by left.
  - injection Hrun as <- <-. right. split; [done|]. destruct Hcases as [[Hg _]|[Hg _]]; [right|by left]. split; [done|]. exists [], x. by rewrite Hw.
Qed.
Lemma await_cases polls : forall w r w', (forall x, x ∈ wi_next w -> leaves_alone x) -> str_empty id = false -> await_quote limits polls id w = (r, w') -> owed (wi_store w) ->
  owed (wi_store w') /\ (exists done, wi_next w = done ++ wi_next w') /\ forall q, r = Ok q -> q_ID q = id /\ q_Amount q = n.
Proof.
  induction polls as [|p IH]; intros w r w' Hoth Hid Hrun Ho; cbn [await_quote] in Hrun; destruct (MintQuoteStatus limits id w) as [r1 w1] eqn:Hs.
  all: assert (owed (wi_store w1) /\ exists done, wi_next w = done ++ wi_next w1) as [Ho1 Hd] by
    (unfold MintQuoteStatus in Hs; rewrite Hid in Hs; eapply do_keeps; [intros; by apply owed_others; [apply Hoth|]|by apply status_keeps|exact Hs|done]).
  all: destruct r1 as [q|e]; [|injection Hrun as <- <-; by split_and!].
  all: pose proof (status_Ok q w w1 Hoth Hid Hs Ho) as Hq.
  all: destruct (quote_paid q); [injection Hrun as <- <-; split_and!; [done|done|by intros ? [= <-]]|].
  all: destruct (bool_decide _); [injection Hrun as <- <-; by split_and!|].
  - injection Hrun as <- <-. by split_and!.
  - destruct Hd as [d1 E1]. destruct (IH w1 r w') as (Ho' & (d2 & E2) & Hok); [intros x Hx; apply Hoth; rewrite E1, elem_of_app; by right|done..|].
    split_and!; [done| |done]. exists (d1 ++ d2). by rewrite E1, E2, app_assoc.
Qed.
End accounting.

(** C40: a purchase is accounted for. However the requests and answers of a purchase
    fare, whatever others do at the hub meanwhile, and whether or not the vault can
    be written: when it succeeds the quote is issued and the vault has gained, in
    memory and on disk, tokens worth exactly the quote, each of which the mint
    accepts, and the balance returned is the vault's. When it fails, either the vault
    is as it was and the hub still owes the quote, unless the one answer that carried
    the signatures was lost on its way back; or the tokens came and could not be
    written to disk: the hub owes nothing, and memory has the tokens until the
    program ends. *)
Theorem purchase_accounted `{WalletCryptoLaws} {S : Type} `{MintStoreLaws S} limits (m : Mint) (ks : MintKeyset) hub e ok polls id n v (w : Wire (S := S)) r v' w'
    (Hm : m_activeKeyset m = Some ks /\ m_keysets m !! mk_Id ks = Some ks /\ mk_Active ks = true /\ str_empty (mk_Id ks) = false)
    (Hkeys : forall a kp, mk_Keys ks !! a = Some kp -> kp_PublicKey kp = PubOf (kp_PrivateKey kp) /\ on_curve (kp_PublicKey kp))
    (Hdenoms : forall a, a ∈ AmountSplit n -> is_Some (mk_Keys ks !! a))
    (Hn : 0 < n < 2 ^ 64) (Hid : str_empty id = false) (Hhub : str_empty hub = false)
    (Hent : forall i, exists buf r B, ent_secret e i = Some buf /\ ent_r e i = Some r /\ gcrypto_BlindMessage (hex_encode buf) r = Some B)
    (Hfresh : fresh_entropy e (held hub v))
    (Hothers : forall x, x ∈ wi_next w -> leaves_alone id x) (Howed : owed id n (wi_store w)) :
  AwaitPurchase limits m (Some hub) e ok polls id v w = (r, v', w') ->
  match r with
  | Ok balance => given id n (wi_store w') /\ balance = Balance hub v' /\
      v_disk v' = v_hubs v' /\
      exists proofs, worth proofs = n /\ held hub v' = held hub v ++ proofs /\ Forall (redeemable m) proofs
  | Err _ =>
      (v' = v /\ (owed id n (wi_store w') \/ given id n (wi_store w') /\ last_answer_lost w w')) \/
      (ok = false /\ given id n (wi_store w') /\ v_disk v' = v_disk v /\
       exists proofs, worth proofs = n /\ held hub v' = held hub v ++ proofs /\ Forall (redeemable m) proofs)
  end.
Proof.
  destruct Hm as (Ha & Hk & Hact & Hne). unfold AwaitPurchase. destruct (await_quote limits polls id w) as [rq w1] eqn:Hq.
  destruct (await_cases limits id n polls w rq w1 Hothers Hid Hq Howed) as (Ho1 & (d1 & E1) & Hquote). destruct rq as [q|er]; [|intros [= <- <- <-]; left; by split; [|left]].
  destruct (Hquote q eq_refl) as [-> ->]. clear Hquote.
  assert (forall x, x ∈ wi_next w1 -> leaves_alone id x) as Hoth1 by (intros x Hx; apply Hothers; rewrite E1, elem_of_app; by right).
  destruct (ActiveKeyset (http_api limits m) w1) as [rk w2] eqn:Hkey.
  assert (owed id n (wi_store w2) /\ exists done, wi_next w1 = done ++ wi_next w2) as [Ho2 (d2 & E2)].
  { unfold ActiveKeyset, http_api in Hkey. cbn [api_keys] in Hkey. destruct (do_ _ w1) as [l w2'] eqn:Hdo. injection Hkey as _ <-.
    eapply do_keeps; [intros; by apply owed_others; [apply Hoth1|]|apply (keys_keep limits m (owed id n))|exact Hdo|done]. }
  destruct rk as [k|er].
  2:{ unfold Wallet_Mint. cbn [wq_Amount]. rewrite (proj2 (Z.eqb_neq _ _)) by lia. rewrite Hkey. intros [= <- <- <-]. left. split; [done|by left]. }
  pose proof (http_keys limits m ks Ha _ _ _ Hkey) as ->.
  destruct (Wallet_Mint_cases m ks Hk Hact Hkeys (http_api limits m) e ok hub id n v w1 w2 Hne Hdenoms Hn Hid Hhub Hent Hfresh Hkey) as (msgs & sigs & _ & Hout & Hs & Hcases).
  destruct (api_mint (http_api limits m) id msgs w2) as [ra w3] eqn:Hapi. specialize (Hcases ra w3 eq_refl).
  destruct (http_mint limits m id n msgs sigs w2 ra w3) as [[-> Hg]|[Hbad Hend]]; [intros x Hx; apply Hoth1; rewrite E2, elem_of_app; by right|done..| |].
  - destruct (Hcases eq_refl) as (proofs & v1 & -> & Hw & Hh & Hr & Hd). destruct ok; intros [= <- <- <-].
    + split_and!; [done..|]. by exists proofs.
    + right. split_and!; [done..|]. by exists proofs.
  - destruct ra as [|er]; [done|]. rewrite Hcases. intros [= <- <- <-]. left. split; [done|]. destruct Hend as [?|(Hg & d3 & x & E3 & Hf)]; [by left|]. right. split; [done|].
    exists (d1 ++ d2 ++ d3), x. split; [|done]. by rewrite E1, E2, E3, <-!app_assoc.
Qed.

(** ** Examples *)
Definition toy_unpaid : EDB := (SaveMintQuote (toy_quote QuoteUnpaid) toy_db).2.
Lemma toy_owed : owed "q" 8 toy_unpaid.
Proof.
  unfold toy_unpaid. destruct (SaveMintQuote (toy_quote QuoteUnpaid) toy_db) as [r s] eqn:Hs.
  assert (is_ok r = true) as Hok by (change r with (r, s).1; rewrite <-Hs; vm_compute; reflexivity).
  apply law_SaveMintQuote in Hs as (Hst & _ & Hr); [|exact toy_api_ok]. destruct r as [[]|]; [|done]. destruct Hr as [_ Hr]. split; [done|].
  exists (toy_quote QuoteUnpaid). cbn [snd]. rewrite Hr. split; [apply lookup_insert_eq|done].
Qed.
Definition toy_meeting (f : fate) (st : InvoiceStatus) : meeting (S := EDB) := mkMeeting f (fun s => s) toy_call (toy_ln st).
(** Two polls, the keys, the signatures *)
Definition toy_wire (f : fate) : Wire (S := EDB) :=
  mkWire (mkApi ∅ toy_unpaid) [toy_meeting Answered InvoiceOpen; toy_meeting Answered InvoiceSettled; toy_meeting Answered InvoiceSettled; toy_meeting f InvoiceSettled].
Lemma purchase_accounted_witness : exists v' w', AwaitPurchase no_limit toy_mint (Some "hub"%string) toy_entropy true 5 "q" toy_vault (toy_wire Answered) = (Ok 16, v', w') /\
  given "q" 8 (wi_store w') /\ exists proofs, worth proofs = 8 /\ held "hub" v' = held "hub" toy_vault ++ proofs /\ Forall (redeemable toy_mint) proofs.
Proof.
  pose (ks := mkKeyset "000" "sat" true (toy_keys 0) 0).
  assert (m_activeKeyset toy_mint = Some ks) as Ha by (vm_cast_no_check (eq_refl (Some ks))).
  assert (m_keysets toy_mint !! "000"%string = Some ks) as Hk by (vm_cast_no_check (eq_refl (Some ks))).
  assert ((AwaitPurchase no_limit toy_mint (Some "hub"%string) toy_entropy true 5 "q" toy_vault (toy_wire Answered)).1.1 = Ok 16) as Hok by (vm_compute; reflexivity).
  destruct (AwaitPurchase no_limit toy_mint (Some "hub"%string) toy_entropy true 5 "q" toy_vault (toy_wire Answered)) as [[r v'] w'] eqn:Hrun. simpl in Hok. subst r.
  exists v', w'. split; [reflexivity|].
  destruct (purchase_accounted no_limit toy_mint ks "hub" toy_entropy true 5 "q" 8 toy_vault (toy_wire Answered) (Ok 16) v' w') as (Hg & _ & _ & Hp).
  - split_and!; [exact Ha|exact Hk|reflexivity|reflexivity].
  - exact toy_keys_ok.
  - intros a Hin. vm_compute in Hin. apply list_elem_of_singleton in Hin as ->. exists toy_key8. vm_cast_no_check (eq_refl (Some toy_key8)).
  - lia.
  - reflexivity.
  - reflexivity.
  - intros i. simpl. eauto 10.
  - exact toy_fresh_entropy.
  - intros x Hx. repeat (apply elem_of_cons in Hx as [->|Hx]; [intros s Hs; split; [exact Hs|reflexivity]|]). by apply not_elem_of_nil in Hx.
  - exact toy_owed.
  - exact Hrun.
  - split; [exact Hg|exact Hp].
Defined.
(** The disk is full: the quote is used up, the tokens are in memory only. *)
Example unwritten_purchase :
  let '(r, v1, w1) := AwaitPurchase no_limit toy_mint (Some "hub"%string) toy_entropy false 5 "q" toy_vault (toy_wire Answered) in
  r = Err (WalletErr "write proof store") /\ worth (held "hub" v1) = 16 /\ v_disk v1 = v_disk toy_vault /\
  (q_State <$> quotes (wi_store w1) !! "q"%string) = Some QuoteIssued.
Proof. by vm_compute. Qed.
(** The blinding secrets are gone with the failed call: nothing can fetch the
    signatures again. *)
Example lost_signatures_strand_purchase :
  let '(r, v1, w1) := AwaitPurchase no_limit toy_mint (Some "hub"%string) toy_entropy true 5 "q" toy_vault (toy_wire LostAnswer) in
  r = Err (WalletErr "request failed") /\ v1 = toy_vault /\
  (AwaitPurchase no_limit toy_mint (Some "hub"%string) toy_entropy true 5 "q" v1 (mkWire (wi_api w1) (wi_next (toy_wire Answered)))).1 = (Err (HubError 409), toy_vault).
Proof. by vm_compute. Qed.
(** A question mark at the end stays, and every path is asked for as a query. *)
Definition toy_hub_url (s : string) : option HubURL :=
  match split_on "?" s with
  | [base; q] => Some (mkHubURL "https" "" (drop_bytes 8 base) "" q (str_empty q) "")
  | _ => Some (mkHubURL "https" "" (drop_bytes 8 s) "" "" false "")
  end.
Example normalised_query_kept : normaliseHubURL toy_hub_url " https://hub.example.com? " = Ok "https://hub.example.com?"%string /\
  normaliseHubURL toy_hub_url "https://hub.example.com?a=1" = Ok "https://hub.example.com"%string.
Proof. by vm_compute. Qed.
