(* ===== verification/ClientMain.v ===== *)
(** * ClientMain: the command-line client
    (src/cmd/arfl-client/main.go; SessionFile of src/internal/config/config.go)

    The token file, the purchase that fills it and the connection that takes two
    tokens from it, over the device of VaultFile, the tunnel of Tunnel and whatever
    is at the other end of the network. Prompts and the choice of nodes are
    arguments. *)
From S2P Require Import Prelude Nostr Attestation Selector Discovery HubSelector Sql Schema Credentials Repository Payments Peers IPPool Control Connect Selector Nip44 HostNet ClientConnect ServiceNodes ServicePay Endpoints Tunnel Bandwidth VaultFile HubKeys.

Record SessionFile := mkSessionFile {
  sf_EntryEndpoint : string; sf_EntryWGPubkey : string; sf_EntryConnectURL : string; sf_ExitEndpoint : string; sf_ExitWGPubkey : string;
  sf_ExitConnectURL : string; sf_OuterTunnelIP : string; sf_InnerTunnelIP : string
}.
(** A session from a pair the hub listed *)
Definition discovered_session (p : HubSelector.NodePair) : SessionFile :=
  let entry := ix_Info (hp_Entry p) in let exit_ := ix_Info (hp_Exit p) in
  mkSessionFile (n_Endpoint entry) (n_WGPubkey entry) (n_ConnectURL entry) (n_Endpoint exit_) (n_WGPubkey exit_) (n_ConnectURL exit_) "10.100.0.2/24" "10.200.0.2/24".
Class TokensJson := { tokens_Marshal : list BlindToken -> string; tokens_Unmarshal : string -> option (list BlindToken) }.
Class TokensJsonLaws `{TokensJson} := { law_tokens l : tokens_Unmarshal (tokens_Marshal l) = Some l }.

(** ** The token file *)
Section tokens.
Context `{TokensJson} (tokenFile : string).
Definition saveTokens (tokens : list BlindToken) : io Device unit := fs_WriteFile tokenFile (tokens_Marshal tokens).
Definition loadTokens : io Device (list BlindToken) :=
  data <~ fs_read tokenFile ;;
  match data with
  | None => ifail "no such file or directory"
  | Some data => match tokens_Unmarshal data with None => ifail "invalid JSON" | Some l => iret l end
  end.
Definition stored (m : disk) : option (list BlindToken) := f ← m !! tokenFile; tokens_Unmarshal (fl_content f).

(** ** runPurchaseFlow, over a hub [Hub] *)
Section purchase.
Context `{BlindScheme} {Hub : Type}.
Record hub_ends := mkEnds {
  he_purchase : string -> Hub -> option (reply PurchaseResponse) * Hub;
  he_polls : list (string -> option (reply PurchaseStatusResponse));
  he_redeem : RedeemRequest -> Hub -> option (reply RedeemResponse) * Hub
}.
(** [nanos]: the clock, in digits. *)
Definition redeem_nonce (paymentHash nanos : string) : option string :=
  if slen paymentHash <? 16 then None else Some ("purchase-" ++ str_take 16 paymentHash ++ "-" ++ nanos)%string.
Definition runPurchaseFlow (pubKey : option DenominationKey) (ends : hub_ends) (tierID preimage nanos : string) (tokenCount : Z) (secret : nat -> option string) (rnd : nat -> string) :
    io (Device * Hub) RedeemResult := fun '(d, h) =>
  match pubKey with
  | None => (Err "load hub public key"%string, (d, h))
  | Some key =>
      let '(p, h1) := Bandwidth.Purchase (he_purchase ends) tierID h in
      match p with
      | Err e => (Err ("purchase failed: " ++ e)%string, (d, h1))
      | Ok purchase =>
          match WaitForSettlement (he_polls ends) (pu_PaymentHash purchase) with
          | Err e => (Err ("settlement failed: " ++ e)%string, (d, h1))
          | Ok _ =>
              let preimage := TrimSpace preimage in
              if str_empty preimage then (Err "preimage is required"%string, (d, h1))
              else match (if tokenCount <=? 0 then (match LookupTier tierID with Ok t => Some (tier_TicketCount t) | Err _ => None end) else Some tokenCount),
                         redeem_nonce (pu_PaymentHash purchase) nanos with
              | None, _ => (Err "unknown tier"%string, (d, h1))
              | _, None => (Err "slice bounds out of range"%string, (d, h1))
              | Some count, Some nonce =>
                  let '(r, h2) := RedeemTokens (dk_PublicKey key) (dk_KeyID key) secret rnd (he_redeem ends) preimage count nonce h1 in
                  match r with
                  | Err e => (Err ("redeem failed: " ++ e)%string, (d, h2))
                  | Ok result =>
                      let '(s, d') := saveTokens (rd_Tokens result) d in
                      (match s with Ok _ => Ok result | Err e => Err ("save tokens: " ++ e)%string end, (d', h2))
                  end
              end
          end
      end
  end.
End purchase.
End tokens.

(** ** The connection *)
Section connection.
Context `{TokensJson} `{Host W} {N : Type}.
Context (SplitHostPort : string -> option (string * string)) (JoinHostPort : string -> string -> string)
  (ParseIP : string -> option IP) (ParseCIDR : string -> option (IP * Z)).
(** [post]: a POST to a node's connect endpoint. *)
Context (post : string -> ConnectRequest -> N -> http_answer * N).
Definition world : Type := Device * (Tunnel * W) * N.
Definition on_disk {A} (f : io Device A) : io world A := fun '(d, t, n) => let '(r, d') := f d in (r, (d', t, n)).
Definition on_tunnel {A} (f : top A) : io world A := fun '(d, t, n) => let '(r, t') := f t in (r, (d, t', n)).
Definition token_request (token : BlindToken) (key : string) : ConnectRequest :=
  mkConnect (mkConnectToken (bt_Version token) (bt_KeyID token) (hex_encode (bt_TokenSecret token)) (hex_encode (bt_Signature token))) key.
Definition present (url : string) (token : BlindToken) (key : string) : io world ConnectResult := fun '(d, t, n) =>
  let '(answer, n') := post (url ++ "/connect")%string (token_request token key) n in
  (match Connect (fun _ => answer) token key with Ok r => Ok r | Err _ => Err "connect"%string end, (d, t, n')).
(** log.Fatalf after trying to clean up *)
Definition or_close {A} (f : io world A) : io world A :=
  r <~ itry f ;; match r with Ok a => iret a | Err e => _ <~ itry (on_tunnel Close) ;; ifail e end.

Definition with_nodes (s : SessionFile) (entry exit_ : ConnectResult) : SessionFile :=
  mkSessionFile (sf_EntryEndpoint s) (re_NodeWGPubkey entry) (sf_EntryConnectURL s) (sf_ExitEndpoint s) (re_NodeWGPubkey exit_)
    (sf_ExitConnectURL s) (re_TunnelIP entry) (re_TunnelIP exit_).
(** The session and the number of tokens spent *)
Definition present_tokens (tokenFile : string) (s : SessionFile) (key : string) : io world (SessionFile * nat) :=
  if negb (str_empty (sf_EntryConnectURL s)) && negb (str_empty (sf_ExitConnectURL s)) then
    tokens <~ on_disk (loadTokens tokenFile) ;;
    match tokens with
    | t0 :: t1 :: _ =>
        entry <~ present (sf_EntryConnectURL s) t0 key ;;
        exit_ <~ present (sf_ExitConnectURL s) t1 key ;;
        iret (with_nodes s entry exit_, 2%nat)
    | _ => ifail "need at least 2 tokens"
    end
  else if str_empty (sf_EntryConnectURL s) && str_empty (sf_ExitConnectURL s) then
    if str_empty (sf_OuterTunnelIP s) || str_empty (sf_InnerTunnelIP s) then ifail "session file missing tunnel IPs" else iret (s, 0%nat)
  else ifail "both entry and exit nodes must have connect URLs".
Definition tunnel_config (s : SessionFile) (key : string) : TunnelConfig :=
  mkTunnelConfig (mkHopConfig "entry" (sf_EntryEndpoint s) (sf_EntryWGPubkey s) (sf_OuterTunnelIP s) 0)
    (mkHopConfig "exit" (sf_ExitEndpoint s) (sf_ExitWGPubkey s) (sf_InnerTunnelIP s) 0) key key key [] "".
(** What is left of the tokens; the file is read again. *)
Definition drop_spent (tokenFile : string) (spent : nat) : io world unit :=
  if (spent =? 0)%nat then iret tt
  else
    r <~ itry (on_disk (loadTokens tokenFile)) ;;
    let tokens := match r with Ok l => l | Err _ => [] end in
    if (spent <=? length tokens)%nat then (_ <~ itry (on_disk (saveTokens tokenFile (drop spent tokens))) ;; iret tt) else iret tt.
Definition client_connect (privileged dataplane : bool) (lookupHost : string -> option (list string)) (tokenFile : string) (s : SessionFile) (kp : KeyPair) : io world SessionFile :=
  or_close (on_tunnel (Preflight privileged dataplane)) ~>
  (x <~ present_tokens tokenFile s (kp_PublicKey kp) ;;
   on_tunnel (SetHopKeys (Some kp) (Some kp)) ~>
   on_tunnel (ValidateEndpoints SplitHostPort ParseIP lookupHost (sf_EntryEndpoint x.1) (sf_ExitEndpoint x.1)) ~>
   or_close (on_tunnel (Up SplitHostPort JoinHostPort ParseIP ParseCIDR lookupHost (tunnel_config x.1 (kp_PublicKey kp)))) ~>
   drop_spent tokenFile x.2 ~>
   iret x.1).
(** Until a signal comes *)
Definition client_disconnect : io world unit := _ <~ itry (on_tunnel Down) ;; iret tt.
End connection.

(** ** What becomes of the tokens *)
Section token_file.
Context `{TokensJsonLaws} (tokenFile : string).
Lemma load_calm d : dv_faults d = [] ->
  loadTokens tokenFile d = match stored tokenFile (dv_files d) with Some l => (Ok l, d) | None => ((loadTokens tokenFile d).1, d) end.
Proof.
  intros Hf. unfold loadTokens, fs_read, stored, call. unfold ibind at 1 2 3 4. rewrite !calm by done. unfold iget. cbn [id].
  destruct (dv_files d !! tokenFile) as [f|]; [|done]. cbn. by destruct (tokens_Unmarshal _).
Qed.
Lemma load_same d r d' : loadTokens tokenFile d = (r, d') -> dv_files d' = dv_files d /\ forall l, r = Ok l -> stored tokenFile (dv_files d) = Some l.
Proof.
  unfold loadTokens. intros [(e & Hr & ->)|(data & d1 & Hr & Hd1)]%ibind_inv.
  - unfold fs_read in Hr. apply ibind_inv in Hr as [(e' & Hc & [= <-])|([] & d1 & _ & [=])]. apply sys_inv in Hc as (l & [[[=] _]|(n & e2 & _ & ->)]). by split.
  - assert (dv_files d1 = dv_files d /\ data = fl_content <$> dv_files d !! tokenFile) as [Hd ->].
    { unfold fs_read in Hr. apply ibind_inv in Hr as [(e' & _ & [=])|([] & d2 & Hc & [= <- <-])]. by apply sys_inv in Hc as (l & [[_ ->]|(n & e2 & [=] & _)]). }
    unfold stored. destruct (dv_files d !! tokenFile) as [f|]; cbn [fmap option_fmap option_map mbind option_bind] in *; [|injection Hd1 as <- <-; by split].
    destruct (tokens_Unmarshal _); injection Hd1 as <- <-; (split; [done|]); by intros ? [= <-].
Qed.
Lemma save_calm l d : dv_faults d = [] -> exists d', saveTokens tokenFile l d = (Ok tt, d') /\ stored tokenFile (dv_files d') = Some l /\ dv_faults d' = [].
Proof.
  intros Hf. unfold saveTokens, fs_WriteFile, fs_write, call. unfold ibind. rewrite calm by done. rewrite calm by done. eexists. split; [done|]. split; [|done].
  unfold stored. cbn [dv_files change]. unfold write_to. rewrite lookup_insert_eq. cbn. apply law_tokens.
Qed.
(** A purchase replaces whatever tokens were in the file. *)
Lemma purchase_replaces `{BlindScheme} {Hub : Type} pubKey (ends : hub_ends (Hub := Hub)) tier preimage nanos count secret rnd d h r d' h' : dv_faults d = [] ->
  runPurchaseFlow tokenFile pubKey ends tier preimage nanos count secret rnd (d, h) = (Ok r, (d', h')) -> stored tokenFile (dv_files d') = Some (rd_Tokens r).
Proof.
  intros Hf. unfold runPurchaseFlow. destruct pubKey as [key|]; [|done]. destruct (Bandwidth.Purchase _ _ _) as [[p|e] h1]; [|done].
  destruct (WaitForSettlement _ _); [|done]. cbv zeta. destruct (str_empty _); [done|]. destruct (if _ <=? 0 then _ else _) as [n|]; [|done]. destruct (redeem_nonce _ _) as [nonce|]; [|done].
  destruct (RedeemTokens _ _ _ _ _ _ _ _ _) as [[res|e] h2]; [|done]. destruct (save_calm (rd_Tokens res) d Hf) as (d1 & -> & Hs & _). by intros [= -> -> _].
Qed.
End token_file.

Section client_tokens.
Context `{TokensJsonLaws} `{Host W} {N : Type}.
Context (SplitHostPort : string -> option (string * string)) (JoinHostPort : string -> string -> string)
  (ParseIP : string -> option IP) (ParseCIDR : string -> option (IP * Z)) (post : string -> ConnectRequest -> N -> http_answer * N).
Local Abbreviation on_t := (on_tunnel (W := W) (N := N)).
(** What does not touch the disk *)
Definition files_kept {A} (f : io (world (W := W) (N := N)) A) : Prop := forall d t n r d' t' n', f (d, t, n) = (r, (d', t', n')) -> d' = d.
Lemma kept_tunnel {A} (f : top A) : files_kept (on_t f).
Proof. intros d t n r d' t' n'. unfold on_tunnel. destruct (f t). by intros [= _ <- _ _]. Qed.
Lemma files_kept_bind {A B} (f : io (world (W := W) (N := N)) A) (g : A -> io (world (W := W) (N := N)) B) : files_kept f -> (forall a, files_kept (g a)) -> files_kept (ibind f g).
Proof. intros Hf Hg d t n r d' t' n' [(e & Hr & _)|(a & [[d1 t1] n1] & Hr & Hs)]%ibind_inv; [by eapply Hf|]. apply Hg in Hs as ->. by eapply Hf. Qed.
Lemma kept_try {A} (f : io (world (W := W) (N := N)) A) : files_kept f -> files_kept (itry f).
Proof. intros Hf d t n r d' t' n' (x & _ & Hx)%itry_inv. by eapply Hf. Qed.
Lemma kept_value {A} (r : result string A) : files_kept (fun w => (r, w)).
Proof. by intros d t n x d' t' n' [= _ <- _ _]. Qed.
Lemma kept_close {A} (f : io (world (W := W) (N := N)) A) : files_kept f -> files_kept (or_close f).
Proof.
  intros Hf. apply files_kept_bind; [by apply kept_try|]. intros [a|e]; [apply kept_value|]. apply files_kept_bind; [apply kept_try, kept_tunnel|]. intros _. apply kept_value.
Qed.
Lemma kept_present url token key : files_kept (present (W := W) post url token key).
Proof. intros d t n r d' t' n'. unfold present. destruct (post _ _ n). by intros [= _ <- _ _]. Qed.
Definition both_urls (s : SessionFile) : bool := negb (str_empty (sf_EntryConnectURL s)) && negb (str_empty (sf_ExitConnectURL s)).
Lemma present_tokens_kept tokenFile s key d t n r d' t' n' : present_tokens (W := W) post tokenFile s key (d, t, n) = (r, (d', t', n')) ->
  dv_files d' = dv_files d /\ (dv_faults d = [] -> d' = d) /\
  forall x, r = Ok x -> x.2 = (if both_urls s then 2%nat else 0%nat) /\ (both_urls s = true -> exists t0 t1 rest, stored tokenFile (dv_files d) = Some (t0 :: t1 :: rest)).
Proof.
  unfold present_tokens, both_urls. destruct (_ && _) eqn:Hu;
    [|destruct (str_empty (sf_EntryConnectURL s) && _); [destruct (str_empty (sf_OuterTunnelIP s) || _)|]; unfold iret, ifail; intros [= <- <- _ _];
      (split_and!; [done..|]); intros x Hx; by simplify_eq].
  intros [(e & Hl & ->)|(tokens & [[d1 t1] n1] & Hl & Hrest)]%ibind_inv; unfold on_disk in Hl; destruct (loadTokens tokenFile d) as [l d2] eqn:Hload; injection Hl; intros; subst.
  - split_and!; [by apply load_same in Hload as [? _]|intros Hc; rewrite (load_calm tokenFile d Hc) in Hload; by destruct (stored _ _); injection Hload|done].
  - apply load_same in Hload as Hs. destruct Hs as [Hsame Hstored]. specialize (Hstored tokens eq_refl).
    assert (files_kept (match tokens with t0 :: t1 :: _ => entry <~ present (W := W) post (sf_EntryConnectURL s) t0 key ;; exit_ <~ present post (sf_ExitConnectURL s) t1 key ;; iret (with_nodes s entry exit_, 2%nat)
       | _ => ifail "need at least 2 tokens" end)) as Hk.
    { destruct tokens as [|a [|b l]]; [apply kept_value..|]. repeat (apply files_kept_bind; [apply kept_present|intros ?]). apply kept_value. }
    apply Hk in Hrest as E. subst d'. split_and!; [done|intros Hc; rewrite (load_calm tokenFile d Hc), Hstored in Hload; by injection Hload|].
    intros x ->. destruct tokens as [|a [|b l]]; [done..|]. split; [|by exists a, b, l].
    apply ibind_inv in Hrest as [(e & _ & [=])|(en & w1 & _ & Hrest)]. apply ibind_inv in Hrest as [(e & _ & [=])|(ex & w2 & _ & Hrest)]. by injection Hrest as <-.
Qed.

(** A connection touches the tokens in one way only: when the tunnel is up, the two
    it presented go from the file. One that fails leaves the file alone, also when
    the nodes have taken its tokens. *)
Lemma client_tokens pr dp lookup tokenFile s kp d t n r d' t' n' :
  client_connect SplitHostPort JoinHostPort ParseIP ParseCIDR post pr dp lookup tokenFile s kp (d, t, n) = (r, (d', t', n')) ->
  match r with
  | Err _ => dv_files d' = dv_files d
  | Ok _ =>
      (both_urls s = false -> dv_files d' = dv_files d) /\
      (both_urls s = true -> exists t0 t1 rest, stored tokenFile (dv_files d) = Some (t0 :: t1 :: rest) /\
         (dv_faults d = [] -> stored tokenFile (dv_files d') = Some rest))
  end.
Proof.
  unfold client_connect. intros [(e & Hp & ->)|([] & [[d0 t0] n0] & Hp & Hrun)]%ibind_inv; [by rewrite (kept_close _ (kept_tunnel _) _ _ _ _ _ _ _ Hp)|].
  assert (d0 = d) as -> by (eapply kept_close; [apply kept_tunnel|exact Hp]).
  apply ibind_inv in Hrun as [(e & Hx & ->)|(x & [[d1 t1] n1] & Hx & Hrun)]; [by apply present_tokens_kept in Hx as [? _]|].
  apply present_tokens_kept in Hx as (Hd1 & Hcalm & Hx). destruct (Hx x eq_refl) as [Hspent Htokens]. clear Hx.
  assert (forall f : io (world (W := W) (N := N)) unit, files_kept f -> forall g : io (world (W := W) (N := N)) SessionFile, forall da ta na, (f ~> g) (da, ta, na) = (r, (d', t', n')) ->
    (exists e, r = Err e /\ d' = da) \/ exists tb nb, g (da, tb, nb) = (r, (d', t', n'))) as Hstep.
  { intros f Hf g da ta na [(e & Hr & ->)|([] & [[db tb] nb] & Hr & Hg)]%ibind_inv; [left; exists e; split; [done|by eapply Hf]|].
    apply Hf in Hr as ->. right. by exists tb, nb. }
  apply Hstep in Hrun as [(e & -> & ->)|(t2 & n2 & Hrun)]; [done| |apply kept_tunnel].
  apply Hstep in Hrun as [(e & -> & ->)|(t3 & n3 & Hrun)]; [done| |apply kept_tunnel].
  apply Hstep in Hrun as [(e & -> & ->)|(t4 & n4 & Hrun)]; [done| |apply kept_close, kept_tunnel].
  unfold drop_spent in Hrun. rewrite Hspent in Hrun. destruct (both_urls s); cbn [Nat.eqb] in Hrun; [|unfold ibind, iret in Hrun; injection Hrun as <- <- _ _; by split].
  assert (exists sess, r = Ok sess) as [sess ->].
  { unfold ibind, itry, iret in Hrun. destruct (on_disk _ _) as [l w5]. destruct (_ <=? _)%nat; [destruct (on_disk _ _) as [l' w6]|]; injection Hrun as <- _; by eexists. }
  split; [done|]. intros _. destruct (Htokens eq_refl) as (a & b & rest & Hs). exists a, b, rest. split; [done|]. intros Hf.
  rewrite (Hcalm Hf) in Hrun. unfold ibind, itry, on_disk, iret in Hrun. rewrite (load_calm tokenFile d Hf), Hs in Hrun. cbn [length Nat.leb drop] in Hrun.
  destruct (save_calm tokenFile rest d Hf) as (d5 & E & Hd5 & _). rewrite drop_0, E in Hrun. by injection Hrun as _ <- _ _.
Qed.
End client_tokens.

(** ** Examples *)
Definition token_fields (t : BlindToken) : list string := [toy_write (bt_Version t); bt_KeyID t; bt_TokenSecret t; bt_Signature t].
Fixpoint fields_tokens (l : list string) : option (list BlindToken) :=
  match l with
  | [] => Some []
  | v :: k :: s :: g :: r => v ← toy_read v; cons (mkBlindToken v k s g) <$> fields_tokens r
  | _ => None
  end.
Definition toy_tokens_text (l : list BlindToken) : string := fields_text ("tokens"%string :: concat (token_fields <$> l)).
Definition toy_text_tokens (s : string) : option (list BlindToken) :=
  match text_fields s with Some (_ :: r) => fields_tokens r | _ => None end.
#[export] Instance toy_tokens_json : TokensJson := {| tokens_Marshal := toy_tokens_text; tokens_Unmarshal := toy_text_tokens |}.
#[export] Instance toy_tokens_laws : TokensJsonLaws.
Proof.
  split. intros l. cbn [tokens_Marshal tokens_Unmarshal toy_tokens_json]. unfold toy_text_tokens, toy_tokens_text. rewrite text_fields_text by done.
  induction l as [|t l IH]; [done|]. cbn. rewrite toy_read_write. cbn. rewrite IH. by destruct t.
Qed.

(** Nodes that take a token once, by its secret *)
Definition toy_node_post (url : string) (r : ConnectRequest) (spent : list string) : http_answer * list string :=
  let secret := ct_TokenSecret (co_Token r) in
  if bool_decide (secret ∈ spent) then (HTTPAnswer 409 (Some ("token already spent", "")%string) None, spent)
  else (HTTPAnswer 200 None (Some (if String.eqb url "https://entry.example/connect" then mkResult "10.100.0.2/32" "wg-entry" 1000 else mkResult "10.200.0.2/32" "wg-exit" 1000)), secret :: spent).
Definition toy_token (s : string) : BlindToken := mkBlindToken BlindTokenVersion "key-1" s "sig".
Definition toy_session : SessionFile :=
  mkSessionFile "203.0.113.9:51820" "" "https://entry.example" "exit.example:51820" "" "https://exit.example" "10.100.0.2/24" "10.200.0.2/24".
Definition toy_token_file : disk := {[ "tokens.json"%string := mkFile (tokens_Marshal [toy_token "a"; toy_token "b"; toy_token "c"; toy_token "d"]) true ]}.
Definition toy_client (faults : list Z) (spent : list string) : world (W := Sim) (N := list string) :=
  (mkDev toy_token_file [] None [] [], (newTunnel, toy_host faults), spent).
Definition toy_connect_again : io (world (W := Sim) (N := list string)) SessionFile :=
  client_connect toy_split toy_join toy_ip toy_cidr toy_node_post true true toy_lookup "tokens.json" toy_session (mkKeys "sk" "pk").
Definition left_in (w : world (W := Sim) (N := list string)) : option (list string) := (fun l : list BlindToken => bt_TokenSecret <$> l) <$> stored "tokens.json" (dv_files w.1.1).

Example connected_spends_two : is_ok (toy_connect_again (toy_client [] [])).1 = true /\ left_in (toy_connect_again (toy_client [] [])).2 = Some ["c"; "d"]%string.
Proof. vm_compute. by split. Qed.

(** A route cannot be added once both nodes have taken their tokens. The tokens stay
    in the file, and every later connection presents them first and is refused, with
    good tokens behind them; the same when the exit refuses after the entry took its
    token. *)
Definition toy_again (w : world (W := Sim) (N := list string)) : world (W := Sim) (N := list string) := (w.1.1, (newTunnel, toy_host []), w.2).
Example spent_tokens_block_client :
  let first := toy_connect_again (toy_client [9] []) in
  let again := toy_connect_again (toy_again first.2) in
  is_ok first.1 = false /\ first.2.2 = ["62"; "61"]%string /\ left_in first.2 = Some ["a"; "b"; "c"; "d"]%string /\
  again.1 = Err "connect"%string /\ left_in again.2 = Some ["a"; "b"; "c"; "d"]%string.
Proof. vm_compute. by split_and!. Qed.
Example refused_exit_strands_entry :
  let first := toy_connect_again (toy_client [] ["62"%string]) in
  first.1 = Err "connect"%string /\ first.2.2 = ["61"; "62"]%string /\ left_in first.2 = Some ["a"; "b"; "c"; "d"]%string.
Proof. vm_compute. by split_and!. Qed.
Example short_hash_panics : redeem_nonce "abc" "1" = None /\ redeem_nonce "0123456789abcdef99" "1" = Some "purchase-0123456789abcdef-1"%string.
Proof. vm_compute. by split. Qed.
