(* ===== verification/Windows.v ===== *)
(** * Windows: the host network under the tunnel, third platform
    (src/internal/tunnel/netconfig_windows.go; src/internal/wg/manager_windows.go)

    The configurator that drives PowerShell and the interfaces of the WireGuard
    service, as an instance of the class of HostNet.v over a model of what their
    commands change. A command fails and changes nothing, or does its work. The laws
    of the class are not claimed: a route is found by destination and interface here,
    so one of another interface to the same destination survives. *)
From S2P Require Import Prelude Peers Nip44 ServiceNodes ClientConnect HostNet Endpoints Tunnel.

(** ** What the commands read and change *)
Record WinRoute := mkWinRoute { wr_prefix : string; wr_alias : string; wr_nextHop : string }.
Record WinOS := mkWinOS {
  os_query : option (string * string);       (* next hop and alias of the lowest default route; None: not JSON *)
  os_routes : list WinRoute;                  (* the active store *)
  os_adapters : string;                       (* what the query for adapters prints *)
  os_dns : gmap string (list string);         (* the resolvers of each adapter *)
  os_profiles : bool;                         (* every firewall profile is on and takes local rules *)
  os_rules : gset string;                     (* firewall rules, by name *)
  os_exe : bool;                              (* wireguard.exe is installed *)
  os_confs : gmap string string;              (* tunnel configurations, by interface *)
  os_services : gset string;                  (* tunnel services, which hold the adapters *)
  os_peers : gmap string PeerConfig
}.
(** With the fields of windowsConfigurator and of the WireGuard manager *)
Record Windows := mkWindows {
  wn_os : WinOS;
  wn_user : gmap string (list string);        (* the resolvers the user had, to compare with *)
  wn_dnsBackup : gmap string (list string);
  wn_ipv6Rule : string;
  wn_osNames : gmap string string;
  wn_nonces : list string;
  wn_faults : list bool
}.
Definition wn_upd_os (f : WinOS -> WinOS) (w : Windows) : Windows := mkWindows (f (wn_os w)) (wn_user w) (wn_dnsBackup w) (wn_ipv6Rule w) (wn_osNames w) (wn_nonces w) (wn_faults w).
Definition wn_upd_backup f (w : Windows) : Windows := mkWindows (wn_os w) (wn_user w) (f (wn_dnsBackup w)) (wn_ipv6Rule w) (wn_osNames w) (wn_nonces w) (wn_faults w).
Definition wn_upd_rule rule nonces (w : Windows) : Windows := mkWindows (wn_os w) (wn_user w) (wn_dnsBackup w) rule (wn_osNames w) nonces (wn_faults w).
Definition wn_upd_names f (w : Windows) : Windows := mkWindows (wn_os w) (wn_user w) (wn_dnsBackup w) (wn_ipv6Rule w) (f (wn_osNames w)) (wn_nonces w) (wn_faults w).
Definition wn_upd_faults l (w : Windows) : Windows := mkWindows (wn_os w) (wn_user w) (wn_dnsBackup w) (wn_ipv6Rule w) (wn_osNames w) (wn_nonces w) l.
Definition os_upd_routes f (o : WinOS) : WinOS := mkWinOS (os_query o) (f (os_routes o)) (os_adapters o) (os_dns o) (os_profiles o) (os_rules o) (os_exe o) (os_confs o) (os_services o) (os_peers o).
Definition os_upd_dns f (o : WinOS) : WinOS := mkWinOS (os_query o) (os_routes o) (os_adapters o) (f (os_dns o)) (os_profiles o) (os_rules o) (os_exe o) (os_confs o) (os_services o) (os_peers o).
Definition os_upd_rules f (o : WinOS) : WinOS := mkWinOS (os_query o) (os_routes o) (os_adapters o) (os_dns o) (os_profiles o) (f (os_rules o)) (os_exe o) (os_confs o) (os_services o) (os_peers o).
Definition os_upd_tunnels confs services (o : WinOS) : WinOS := mkWinOS (os_query o) (os_routes o) (os_adapters o) (os_dns o) (os_profiles o) (os_rules o) (os_exe o) confs services (os_peers o).
Definition os_upd_peers f (o : WinOS) : WinOS := mkWinOS (os_query o) (os_routes o) (os_adapters o) (os_dns o) (os_profiles o) (os_rules o) (os_exe o) (os_confs o) (os_services o) (f (os_peers o)).

(** powershell, and the other commands *)
Definition powershell (f : WinOS -> WinOS) : io Windows unit := fun w =>
  match wn_faults w with
  | true :: l => (Err "exit status 1"%string, wn_upd_faults l w)
  | l => (Ok tt, wn_upd_os f (wn_upd_faults (tl l) w))
  end.
Definition query : io Windows unit := powershell (fun o => o).

(** ** windowsConfigurator: routes *)
Definition windows_DefaultRoute : io Windows (string * string) :=
  query ~>
  (out <~ iget (fun w => os_query (wn_os w)) ;;
   match out with
   | None => ifail "parse default route"
   | Some (nextHop, alias) =>
       if str_empty alias then ifail "no default route found"
       else iret (if String.eqb nextHop "0.0.0.0" then ""%string else nextHop, alias)
   end).
Definition same_route (r : route) (x : WinRoute) : bool := String.eqb (wr_prefix x) (rt_cidr r) && String.eqb (wr_alias x) (rt_iface r).
Definition windows_DeleteRoute (r : route) : io Windows unit := powershell (os_upd_routes (bfilter (fun x => negb (same_route r x)))).
Definition windows_AddRoute (r : route) : io Windows unit :=
  _ <~ itry (windows_DeleteRoute r) ;;
  let nextHop := if str_empty (rt_gateway r) then "0.0.0.0"%string else rt_gateway r in
  powershell (os_upd_routes (cons (mkWinRoute (rt_cidr r) (rt_iface r) nextHop))).

(** *** Resolvers *)
(** The lines a command prints, trimmed, without the empty ones *)
Definition listing (out : string) : list string :=
  bfilter (fun s => negb (str_empty s)) (TrimSpace <$> split_on (ascii_of_nat 10) (TrimSpace out)).
Definition printed (servers : list string) : string := join newline servers.
Definition activeAdapters : io Windows (list string) :=
  query ~>
  (out <~ iget (fun w => os_adapters (wn_os w)) ;;
   match listing out with [] => ifail "no active physical adapters found" | l => iret l end).
(** What the command prints for an adapter that is not there is an error. *)
Definition currentDNS (alias : string) : io Windows (list string) :=
  query ~>
  (servers <~ iget (fun w => os_dns (wn_os w) !! alias) ;;
   match servers with None => ifail "no such interface" | Some l => iret (listing (printed l)) end).
Fixpoint windows_setdns (resolver : string) (aliases : list string) : io Windows unit :=
  match aliases with
  | [] => iret tt
  | alias :: r =>
      current <~ itry (currentDNS alias) ;;
      match current with
      | Err _ => windows_setdns resolver r
      | Ok current =>
          powershell (os_upd_dns (insert alias [resolver])) ~>
          iput (wn_upd_backup (insert alias current)) ~>
          windows_setdns resolver r
      end
  end.
Definition windows_SetDNS (resolver : string) : io Windows unit :=
  aliases <~ activeAdapters ;;
  windows_setdns resolver aliases ~>
  (backup <~ iget wn_dnsBackup ;;
   if bool_decide (backup = ∅) then ifail "no adapter accepted a DNS change" else iret tt).
(** Without addresses the adapter goes back to those of DHCP. *)
Fixpoint windows_restoredns (backup : list (string * list string)) (problems : bool) : io Windows bool :=
  match backup with
  | [] => iret problems
  | (alias, previous) :: r =>
      ok <~ itry (powershell (os_upd_dns (insert alias previous))) ;;
      windows_restoredns r (problems || negb (is_ok ok))
  end.
Definition windows_RestoreDNS : io Windows unit :=
  backup <~ iget (fun w => map_to_list (wn_dnsBackup w)) ;;
  problems <~ windows_restoredns backup false ;;
  iput (wn_upd_backup (fun _ => ∅)) ~>
  (if problems : bool then ifail "restore DNS" else iret tt).

(** *** The IPv6 block *)
Definition windows_DisableIPv6 : io Windows unit :=
  rule <~ iget wn_ipv6Rule ;;
  if negb (str_empty rule) then iret tt
  else
    query ~>
    (profiles <~ iget (fun w => os_profiles (wn_os w)) ;;
     if negb profiles then ifail "cannot secure IPv6"
     else
       nonces <~ iget wn_nonces ;;
       match nonces with
       | [] => ifail "identify IPv6 rule"
       | nonce :: rest =>
           let name := ("ARFL-IPv6-" ++ nonce)%string in
           iput (fun w => wn_upd_rule (wn_ipv6Rule w) rest w) ~>
           powershell (os_upd_rules (fun l => {[name]} ∪ l)) ~>
           iput (fun w => wn_upd_rule name (wn_nonces w) w) ~>
           query
       end).
Definition windows_RestoreIPv6 : io Windows unit :=
  rule <~ iget wn_ipv6Rule ;;
  if str_empty rule then iret tt
  else
    powershell (os_upd_rules (fun l => l ∖ {[rule]})) ~>
    iput (fun w => wn_upd_rule "" (wn_nonces w) w).

(** ** WgctrlManager: interfaces *)
Definition tunnel_conf (c : InterfaceConfig) : string :=
  ("[Interface]" ++ newline ++ "PrivateKey = " ++ ic_PrivateKey c ++ newline
   ++ (if str_empty (ic_Address c) then "" else "Address = " ++ ic_Address c ++ newline)
   ++ (if (0 <? ic_ListenPort c)%Z then "ListenPort = " ++ show_Z (ic_ListenPort c) ++ newline else "")
   ++ (if (0 <? ic_MTU c)%Z then "MTU = " ++ show_Z (ic_MTU c) ++ newline else ""))%string.
Definition set_conf (name : string) (x : option string) (o : WinOS) : WinOS := os_upd_tunnels (partial_alter (fun _ => x) name (os_confs o)) (os_services o) o.
(** The path, the directory, and the file, which opening empties *)
Definition writeTunnelConfig (c : InterfaceConfig) : io Windows unit :=
  query ~> query ~> powershell (set_conf (ic_Name c) (Some ""%string)) ~> powershell (set_conf (ic_Name c) (Some (tunnel_conf c))).
Definition wireguardExe : io Windows unit :=
  found <~ iget (fun w => os_exe (wn_os w)) ;; if found : bool then iret tt else ifail "wireguard.exe not found".
Definition uninstall (name : string) : io Windows unit :=
  installed <~ iget (fun w => bool_decide (name ∈ os_services (wn_os w))) ;;
  if installed : bool then powershell (fun o => os_upd_tunnels (os_confs o) (os_services o ∖ {[name]}) o)
  else query ~> ifail "The specified service does not exist as an installed service.".
(** The service, the adapter within the time it is given; cleaning up otherwise *)
Definition or_cleanup (name : string) (m : io Windows unit) : io Windows unit :=
  r <~ itry m ;;
  match r with
  | Ok _ => iret tt
  | Err e => _ <~ itry (uninstall name) ;; _ <~ itry (powershell (set_conf name None)) ;; ifail e
  end.
Definition windows_createOSInterface (c : InterfaceConfig) : io Windows string :=
  wireguardExe ~> writeTunnelConfig c ~>
  (_ <~ itry (uninstall (ic_Name c)) ;;
   or_cleanup (ic_Name c) (powershell (fun o => os_upd_tunnels (os_confs o) ({[ic_Name c]} ∪ os_services o) o)) ~>
   or_cleanup (ic_Name c) query ~>
   iret (ic_Name c)).
(** An MTU of 0 is 1280. The address and bringing the interface up are the service's. *)
Definition with_mtu (c : InterfaceConfig) : InterfaceConfig :=
  mkIface (ic_Name c) (ic_PrivateKey c) (ic_ListenPort c) (ic_Address c) (if ic_MTU c =? 0 then 1280 else ic_MTU c).
(** ParseKey and ConfigureDevice end it. *)
Definition windows_CreateInterface (c : InterfaceConfig) : io Windows unit :=
  osName <~ windows_createOSInterface (with_mtu c) ;;
  iput (wn_upd_names (insert (ic_Name c) osName)) ~> query ~> query.
Definition windows_deleteOSInterface (name : string) : io Windows unit :=
  wireguardExe ~>
  (r <~ itry (uninstall name) ;;
   match r with
   | Err e => if Contains (ToLower e) "does not exist" then iret tt else ifail e
   | Ok _ => _ <~ itry (powershell (set_conf name None)) ;; iret tt
   end).
Definition windows_DeleteInterface (name : string) : io Windows unit :=
  osName <~ iget (fun w => os_name (wn_osNames w) name) ;;
  r <~ itry (windows_deleteOSInterface osName) ;;
  iput (wn_upd_names (delete name)) ~>
  match r with Ok _ => iret tt | Err e => ifail e end.
Definition windows_AddPeer (iface : string) (peer : PeerConfig) : io Windows unit :=
  query ~> powershell (os_upd_peers (insert iface peer)).

Definition windows_view (w : Windows) : view :=
  mkView (list_to_map ((fun x => (wr_prefix x, (if String.eqb (wr_nextHop x) "0.0.0.0" then ""%string else wr_nextHop x, wr_alias x))) <$> os_routes (wn_os w)))
    (os_services (wn_os w)) (os_peers (wn_os w)) (negb (bool_decide (os_dns (wn_os w) = wn_user w)))
    (negb (bool_decide (filter (fun n => String.prefix "ARFL-IPv6-" n = true) (os_rules (wn_os w)) = ∅))).
(** The only rule of ours is the one the configurator remembers. *)
Definition windows_ok (w : Windows) : Prop :=
  forall n, n ∈ os_rules (wn_os w) -> String.prefix "ARFL-IPv6-" n = true -> n = wn_ipv6Rule w.
#[export] Instance windows_host : Host Windows := {|
  DefaultRoute := windows_DefaultRoute;
  AddRoute := windows_AddRoute;
  DeleteRoute := windows_DeleteRoute;
  SetDNS := windows_SetDNS;
  RestoreDNS := windows_RestoreDNS;
  DisableIPv6 := windows_DisableIPv6;
  RestoreIPv6 := windows_RestoreIPv6;
  CreateInterface := windows_CreateInterface;
  DeleteInterface := windows_DeleteInterface;
  AddPeer := windows_AddPeer;
  InterfaceName := fun logical w => os_name (wn_osNames w) logical;
  host_view := windows_view;
  host_ok := windows_ok
|}.

(** ** What the configurator keeps on record *)
Lemma powershell_inv f w r w' : powershell f w = (r, w') ->
  (exists l, w' = wn_upd_os f (wn_upd_faults l w) /\ r = Ok tt) \/ exists e l, r = Err e /\ w' = wn_upd_faults l w.
Proof.
  unfold powershell. destruct (wn_faults w) as [|[|] l]; intros [= <- <-]; [left; by eexists|right; by do 2 eexists|left; by eexists].
Qed.
Lemma query_inv w r w' : query w = (r, w') -> exists l, w' = wn_upd_faults l w.
Proof. intros [(l & -> & _)|(e & l & _ & ->)]%powershell_inv; [|by exists l]. exists l. by destruct w as [[] ? ? ? ? ? ?]. Qed.
Lemma with_faults w : exists l, w = wn_upd_faults l w.
Proof. exists (wn_faults w). by destruct w. Qed.

(** *** Resolvers *)
Definition readable (w : Windows) (alias : string) : Prop := exists servers, os_dns (wn_os w) !! alias = Some servers /\ listing (printed servers) = servers.
(** The backup says what every adapter that was changed had. *)
Definition backed_up (user : gmap string (list string)) (w : Windows) : Prop :=
  forall a, match wn_dnsBackup w !! a with Some l => user !! a = Some l | None => os_dns (wn_os w) !! a = user !! a end.
Lemma currentDNS_inv alias w r w' : currentDNS alias w = (r, w') -> exists l, w' = wn_upd_faults l w /\
  forall c, r = Ok c -> exists servers, os_dns (wn_os w) !! alias = Some servers /\ c = listing (printed servers).
Proof.
  unfold currentDNS. intros [(e & H & ->)|(u & w1 & H & H')]%ibind_inv; apply query_inv in H as [l ->]; [by exists l|]. exists l.
  apply ibind_inv in H' as [(e & [=] & _)|(s & w1 & [= <- <-] & H)]. cbn [wn_os wn_upd_faults] in H.
  destruct (os_dns (wn_os w) !! alias) as [servers|]; injection H as <- <-; (split; [done|]); intros c [= <-]. by exists servers.
Qed.
Lemma setdns_backed_up user resolver aliases : forall w r w', windows_setdns resolver aliases w = (r, w') -> NoDup aliases -> backed_up user w ->
  (forall a, a ∈ aliases -> wn_dnsBackup w !! a = None /\ readable w a) -> backed_up user w'.
Proof.
  induction aliases as [|alias aliases IH]; cbn [windows_setdns]; [by intros w r w' [= <- <-]|]. intros w r w' H [Hn Hd]%NoDup_cons Hb Ha.
  apply ibind_inv in H as [(e & Hi & _)|(c & w1 & (x & [= <-] & Hc)%itry_inv & H)]; [apply itry_inv in Hi as (x & [=] & _)|].
  apply currentDNS_inv in Hc as (l & -> & Hc). destruct c as [c|e]; [|by eapply IH; [exact H|done..|]; intros b Hin; apply Ha; right].
  destruct (Hc c eq_refl) as (servers & Hs & ->). destruct (Ha alias) as [Hbk (servers' & Hs' & Hl)]; [left|]. rewrite Hs in Hs'. injection Hs' as <-. rewrite Hl in H.
  apply ibind_inv in H as [(e & H & ->)|(u & w2 & H & H')]; apply powershell_inv in H as [(l2 & -> & Hr)|(e2 & l2 & Hr & ->)]; try discriminate Hr; [exact Hb|].
  unfold ibind at 1, iput in H'. eapply IH; [exact H'|done| |].
  - intros b. cbn. specialize (Hb b). destruct (decide (b = alias)) as [->|Hne].
    + rewrite lookup_insert_eq. rewrite Hbk in Hb. by rewrite <-Hb.
    + by rewrite !lookup_insert_ne by done.
  - intros b Hin. assert (b <> alias) as Hne by (intros ->; done). destruct (Ha b) as [Hb1 (s & Hs1 & Hs2)]; [by right|].
    split; [cbn; by rewrite lookup_insert_ne|]. exists s. cbn. by rewrite lookup_insert_ne.
Qed.
Lemma restore_restores backup : forall p w w', windows_restoredns backup p w = (Ok false, w') -> NoDup backup.*1 ->
  p = false /\ wn_dnsBackup w' = wn_dnsBackup w /\
  forall a, os_dns (wn_os w') !! a = match list_to_map (M := gmap string (list string)) backup !! a with Some l => Some l | None => os_dns (wn_os w) !! a end.
Proof.
  induction backup as [|[alias previous] backup IH]; cbn [windows_restoredns]; [by intros p w w' [= -> <-]|]. intros p w w' H [Hn Hd]%NoDup_cons.
  apply ibind_inv in H as [(e & _ & [=])|(c & w1 & (x & [= <-] & Hc)%itry_inv & H)].
  destruct (IH _ _ _ H Hd) as (Hp & Hb & Ha). apply powershell_inv in Hc as [(l & -> & ->)|(e & l & -> & ->)]; [|by rewrite orb_true_r in Hp].
  apply orb_false_elim in Hp as [-> _]. split; [done|]. split; [done|]. intros a. rewrite Ha. cbn [list_to_map fold_right list_fmap uncurry].
  destruct (decide (a = alias)) as [->|Hne].
  - rewrite lookup_insert_eq, (not_elem_of_list_to_map_1 _ _ Hn). cbn. by rewrite lookup_insert_eq.
  - rewrite lookup_insert_ne by done. cbn. by rewrite lookup_insert_ne.
Qed.
(** Whether changing the resolvers succeeded or stopped half-way, a restoration that
    succeeds gives every adapter what it had. *)
Theorem windows_dns_restored resolver w r w1 w2 :
  NoDup (listing (os_adapters (wn_os w))) -> Forall (readable w) (listing (os_adapters (wn_os w))) -> wn_dnsBackup w = ∅ ->
  windows_SetDNS resolver w = (r, w1) -> windows_RestoreDNS w1 = (Ok tt, w2) -> os_dns (wn_os w2) = os_dns (wn_os w) /\ wn_dnsBackup w2 = ∅.
Proof.
  intros Hd Hr Hb Hset Hrestore. assert (backed_up (os_dns (wn_os w)) w) as Hb0 by (intros a; by rewrite Hb, lookup_empty).
  assert (backed_up (os_dns (wn_os w)) w1) as Hb1.
  { unfold windows_SetDNS, activeAdapters in Hset. apply ibind_inv in Hset as [(e & Hset & ->)|(aliases & w3 & Hset & H)].
    - apply ibind_inv in Hset as [(e' & Hq & _)|(u & w3 & Hq & Hset)]; apply query_inv in Hq as [l ->]; [exact Hb0|].
      apply ibind_inv in Hset as [(e' & [=] & _)|(o & w3 & [= <- <-] & Hset)]. by destruct (listing _); injection Hset; intros; subst.
    - apply ibind_inv in Hset as [(e' & Hq & [=])|(u & w4 & Hq & Hset)]. apply query_inv in Hq as [l ->].
      apply ibind_inv in Hset as [(e' & [=] & _)|(o & w4 & [= <- <-] & Hset)]. cbn [wn_os wn_upd_faults] in Hset.
      assert (aliases = listing (os_adapters (wn_os w)) /\ w3 = wn_upd_faults l w) as [-> ->] by (destruct (listing _); by injection Hset).
      assert (forall r w3, windows_setdns resolver (listing (os_adapters (wn_os w))) (wn_upd_faults l w) = (r, w3) -> backed_up (os_dns (wn_os w)) w3) as Hloop.
      { intros r' w3 Hs. eapply setdns_backed_up; [exact Hs|done|exact Hb0|]. intros a Ha. cbn. rewrite Hb, lookup_empty. split; [done|]. rewrite Forall_forall in Hr. exact (Hr a Ha). }
      apply ibind_inv in H as [(e & H & ->)|(u' & w3 & H & H')]; [by eapply Hloop|].
      apply ibind_inv in H' as [(e & [=] & _)|(b & w4 & [= <- <-] & H')]. apply Hloop in H. by case_bool_decide; injection H' as <- <-. }
  unfold windows_RestoreDNS in Hrestore. apply ibind_inv in Hrestore as [(e & _ & [=])|(b & w3 & [= <- <-] & H)].
  apply ibind_inv in H as [(e & _ & [=])|(p & w3 & H & H')]. unfold ibind at 1, iput in H'. destruct p; [discriminate H'|]. injection H' as <-.
  apply restore_restores in H as (_ & _ & Ha); [|apply NoDup_fst_map_to_list]. split; [|done]. cbn. apply map_eq. intros a. rewrite Ha, list_to_map_to_list.
  specialize (Hb1 a). by destruct (wn_dnsBackup w1 !! a).
Qed.

(** *** The IPv6 block *)
Definition blocked (w : Windows) : Prop := exists n, n ∈ os_rules (wn_os w) /\ String.prefix "ARFL-IPv6-" n = true.
Lemma our_prefix n : String.prefix "ARFL-IPv6-" ("ARFL-IPv6-" ++ n) = true.
Proof. by destruct n. Qed.
(** No rule of ours is ever without a record; when the block is reported as made, or
    was already, there is one on record, and when it is reported as removed none. *)
Theorem windows_ipv6_on_record w r w' : windows_ok w ->
  (windows_DisableIPv6 w = (r, w') -> windows_ok w' /\ (wn_ipv6Rule w = "" -> is_ok r = true -> blocked w')) /\
  (windows_RestoreIPv6 w = (r, w') -> windows_ok w' /\ (is_ok r = true -> ~ blocked w')).
Proof.
  intros Hok. unfold windows_DisableIPv6, windows_RestoreIPv6. split; intros H; apply ibind_inv in H as [(e & [=] & _)|(rule & w0 & [= <- <-] & H)].
  - destruct (str_empty (wn_ipv6Rule w)) eqn:He; cbn [negb] in H.
    2:{ injection H as <- <-. split; [done|]. intros He2. by rewrite He2 in He. }
    apply String.eqb_eq in He. assert (forall n, n ∈ os_rules (wn_os w) -> String.prefix "ARFL-IPv6-" n = true -> False) as Hno.
    { intros n Hn Hp. specialize (Hok n Hn Hp). by rewrite He in Hok; subst n. }
    apply ibind_inv in H as [(e & H & ->)|(u & w1 & H & H')]; apply query_inv in H as [l ->]; [by split|].
    apply ibind_inv in H' as [(e & [=] & _)|(p & w1 & [= <- <-] & H)]. cbn [wn_os wn_upd_faults] in H.
    destruct (os_profiles (wn_os w)); cbn [negb] in H; [|injection H as <- <-; by split].
    apply ibind_inv in H as [(e & [=] & _)|(ns & w1 & [= <- <-] & H)]. cbn [wn_nonces wn_upd_faults] in H. destruct (wn_nonces w) as [|n ns]; [injection H as <- <-; by split|].
    unfold ibind at 1, iput at 1 in H. apply ibind_inv in H as [(e & H & ->)|(u' & w1 & H & H')].
    { apply powershell_inv in H as [(l1 & _ & [=])|(e' & l1 & _ & ->)]. by split. }
    apply powershell_inv in H as [(l1 & -> & _)|(e' & l1 & [=] & _)]. unfold ibind at 1, iput in H'. apply query_inv in H' as [l2 ->]. split.
    + intros m. cbn. rewrite elem_of_union, elem_of_singleton. intros [->|Hm]; [done|]. intros Hp. by destruct (Hno m Hm Hp).
    + intros _ _. exists ("ARFL-IPv6-" ++ n)%string. split; [cbn; set_solver|apply our_prefix].
  - destruct (str_empty (wn_ipv6Rule w)) eqn:He.
    { injection H as <- <-. split; [done|]. intros _. apply String.eqb_eq in He. intros (n & Hn & Hp). specialize (Hok n Hn Hp). by rewrite He in Hok; subst n. }
    apply ibind_inv in H as [(e & H & ->)|(u & w1 & H & H')].
    { apply powershell_inv in H as [(l & _ & [=])|(e' & l & _ & ->)]. by split. }
    apply powershell_inv in H as [(l & -> & _)|(e' & l & [=] & _)]. injection H' as <- <-.
    assert (forall n, n ∈ os_rules (wn_os w) ∖ {[wn_ipv6Rule w]} -> String.prefix "ARFL-IPv6-" n = true -> False) as Hno.
    { intros n [Hn Hne]%elem_of_difference Hp. apply Hne, elem_of_singleton. by apply Hok. }
    split; [intros n Hn Hp; by destruct (Hno n Hn Hp)|]. intros _. intros (n & Hn & Hp). by destruct (Hno n Hn Hp).
Qed.

(** ** Examples *)
Definition toy_windows (l : list Z) : Windows :=
  let dns := {["Wi-Fi"%string := ["192.168.1.1"%string]; "Ethernet"%string := ["192.168.1.1"%string; "192.168.1.2"%string]]} : gmap string (list string) in
  mkWindows (mkWinOS (Some ("192.168.1.1", "Ethernet")%string) [mkWinRoute "192.168.1.0/24" "Ethernet" "0.0.0.0"] ("Wi-Fi" ++ newline ++ "Ethernet" ++ newline) dns true ∅ true ∅ ∅ ∅)
    dns ∅ "" ∅ ["a1"; "b2"]%string (faults l).
Definition toy_on (l : list Z) (ops : list op) : Tunnel * Windows := toy_run ops (newTunnel, toy_windows l).
Definition host_as_before (w : Windows) : Prop :=
  os_routes (wn_os w) = os_routes (wn_os (toy_windows [])) /\ os_dns (wn_os w) = wn_user w /\ os_rules (wn_os w) = ∅ /\ os_services (wn_os w) = ∅ /\ os_confs (wn_os w) = ∅.
Example windows_up_and_down :
  let up := toy_on [] toy_connected in let '(t, w) := toy_on [] (toy_connected ++ [OpDown]) in
  os_dns (wn_os up.2) = {["Wi-Fi"%string := [DNSResolver]; "Ethernet"%string := [DNSResolver]]} /\ os_confs (wn_os up.2) !! OuterInterface <> None /\ host_as_before w /\ t = newTunnel.
Proof. vm_compute. by split_and!. Qed.

(** As on macOS, the change of one adapter is forgotten when the next refuses, and so
    is what the resolvers were once a restoration failed. *)
Example windows_dns_not_restored :
  let '(t, w) := toy_on [38] (toy_connected ++ [OpDown]) in tn_active t = None /\ tn_pendingCleanup t = None /\ os_dns (wn_os w) !! "Wi-Fi"%string = Some [DNSResolver].
Proof. vm_compute. by split_and!. Qed.
Example windows_retry_forgets :
  let '(first, s1) := Down (toy_on [39] toy_connected) in let '(second, (t, w)) := Down s1 in
  is_ok first = false /\ is_ok second = true /\ tn_pendingCleanup t = None /\ os_dns (wn_os w) !! "Wi-Fi"%string = Some [DNSResolver].
Proof. vm_compute. by split_and!. Qed.
(** The adapter is there and cannot be configured: the service and its file with the
    private key stay, and nothing is on record. *)
Example windows_interface_leaked :
  let '(t, w) := toy_on [26] (toy_connected ++ [OpDown]) in
  tn_active t = None /\ tn_pendingCleanup t = None /\ InnerInterface ∈ os_services (wn_os w) /\
  os_confs (wn_os w) !! InnerInterface = Some (tunnel_conf (mkIface InnerInterface "sk2" 0 "10.200.0.2/32" 1200)).
Proof. vm_compute. by split_and!. Qed.
(** The service was removed by someone else: taking the tunnel down succeeds and
    leaves the files with both private keys. *)
Example windows_key_left :
  let '(t, w) := toy_on [] toy_connected in
  let '(r, (t', w')) := Down (t, wn_upd_os (fun o => os_upd_tunnels (os_confs o) ∅ o) w) in
  is_ok r = true /\ tn_pendingCleanup t' = None /\ os_confs (wn_os w') = os_confs (wn_os w) /\ os_confs (wn_os w') !! InnerInterface <> None.
Proof. vm_compute. by split_and!. Qed.
