(* ===== verification/LightningMock.v ===== *)
(** * LightningMock: the Lightning client of development mode
    (src/internal/lightning/mock.go)

    Invoices, preimages and payments in memory, and subscribers that each have a
    channel of their own. The critical sections of the lock are the steps; the end of
    a subscription has two, leaving the set of subscribers and closing the channel. *)
From S2P Require Import Prelude Settlement Lightning.

Record subscription := mkSub { su_buffer : list Invoice; su_closed : bool; su_received : list Invoice }.
Record MockClient := mkMock {
  mc_invoices : gmap string Invoice;
  mc_preimages : gmap string string;
  mc_payments : gmap string PaymentResult;
  mc_subs : gset nat;                       (* the channels that are broadcast to *)
  mc_channels : gmap nat subscription       (* every channel made so far *)
}.
Definition NewMockClient : MockClient := mkMock ∅ ∅ ∅ ∅ ∅.
(** The failures to inject; [delayed]: the context ends during the delay. *)
Record chaos := mkChaos {
  CreateInvoiceErr : option string; SendPaymentErr : option string; KeysendErr : option string; KeysendResult : option PaymentResult; delayed : bool
}.
Definition no_chaos : chaos := mkChaos None None None None false.
Definition mc_upd_invoices f (m : MockClient) : MockClient := mkMock (f (mc_invoices m)) (mc_preimages m) (mc_payments m) (mc_subs m) (mc_channels m).
Definition mc_upd_payments f (m : MockClient) : MockClient := mkMock (mc_invoices m) (mc_preimages m) (f (mc_payments m)) (mc_subs m) (mc_channels m).
Definition mc_upd_subs subs channels (m : MockClient) : MockClient := mkMock (mc_invoices m) (mc_preimages m) (mc_payments m) subs channels.

Section mock.
Context (sha256 : string -> string).
(** [preimage]: 32 random bytes, or none. *)
Definition randomPreimageHash (preimage : option string) : result string (string * string) :=
  match preimage with None => Err "rand"%string | Some p => Ok (hex_encode (sha256 p), hex_encode p) end.
Definition with_status (st : InvoiceStatus) (settled : option Z) (i : Invoice) : Invoice :=
  mkInvoice (in_PaymentHash i) (in_PaymentRequest i) (in_AmountSats i) (in_Memo i) st (in_CreatedAt i) settled (in_ExpiresAt i).
Definition CreateInvoice (c : chaos) (now : Z) (preimage : option string) (amountSats : Z) (memo : string) (expiry : Z) (m : MockClient) : result string Invoice * MockClient :=
  match CreateInvoiceErr c with
  | Some e => (Err e, m)
  | None =>
      if amountSats <=? 0 then (Err "amount must be positive"%string, m)
      else match randomPreimageHash preimage with
      | Err e => (Err e, m)
      | Ok (hash, p) =>
          let inv := mkInvoice hash ("lnbc" ++ Nip44.str_take 16 hash) amountSats memo InvoiceOpen (Some now) None (Some (now + expiry)) in
          (Ok inv, mkMock (<[hash := inv]> (mc_invoices m)) (<[hash := p]> (mc_preimages m)) (mc_payments m) (mc_subs m) (mc_channels m))
      end
  end.
Definition expired (now : Z) (i : Invoice) : bool :=
  bool_decide (in_Status i = InvoiceOpen) && match in_ExpiresAt i with Some t => t <? now | None => true end.
Definition LookupInvoice (now : Z) (paymentHash : string) (m : MockClient) : result string Invoice * MockClient :=
  match mc_invoices m !! paymentHash with
  | None => (Err "invoice not found"%string, m)
  | Some inv =>
      let inv := if expired now inv then with_status InvoiceExpired (in_SettledAt inv) inv else inv in
      (Ok inv, mc_upd_invoices (insert paymentHash inv) m)
  end.

(** *** Subscriptions; [ch]: a new channel *)
Definition SubscribeInvoices (ch : nat) (m : MockClient) : MockClient :=
  mc_upd_subs ({[ch]} ∪ mc_subs m) (<[ch := mkSub [] false []]> (mc_channels m)) m.
Definition unsubscribe (ch : nat) (m : MockClient) : MockClient := mc_upd_subs (mc_subs m ∖ {[ch]}) (mc_channels m) m.
Definition close_channel (ch : nat) (m : MockClient) : MockClient :=
  mc_upd_subs (mc_subs m) (alter (fun s => mkSub (su_buffer s) true (su_received s)) ch (mc_channels m)) m.
Definition receive (ch : nat) (m : MockClient) : MockClient :=
  mc_upd_subs (mc_subs m) (alter (fun s => match su_buffer s with [] => s | i :: r => mkSub r (su_closed s) (su_received s ++ [i]) end) ch (mc_channels m)) m.
(** A channel holds 64; sending to a closed one panics: [None]. *)
Definition offer (inv : Invoice) (s : subscription) : subscription :=
  if (length (su_buffer s) <? 64)%nat then mkSub (su_buffer s ++ [inv]) (su_closed s) (su_received s) else s.
Fixpoint broadcast (inv : Invoice) (subs : list nat) (channels : gmap nat subscription) : option (gmap nat subscription) :=
  match subs with
  | [] => Some channels
  | ch :: r =>
      match channels !! ch with
      | None => None
      | Some s => if su_closed s then None else broadcast inv r (<[ch := offer inv s]> channels)
      end
  end.
Definition status_name (st : InvoiceStatus) : string := match st with InvoiceOpen => "open" | InvoiceSettled => "settled" | InvoiceExpired => "expired" end.
Definition SimulateSettlement (now : Z) (paymentHash : string) (m : MockClient) : option (result string unit * MockClient) :=
  match mc_invoices m !! paymentHash with
  | None => Some (Err "invoice not found"%string, m)
  | Some inv =>
      if negb (bool_decide (in_Status inv = InvoiceOpen)) then Some (Err ("invoice is " ++ status_name (in_Status inv) ++ ", not open")%string, m)
      else
        let inv := with_status InvoiceSettled (Some now) inv in
        channels ← broadcast inv (elements (mc_subs m)) (mc_channels m);
        Some (Ok tt, mc_upd_subs (mc_subs m) channels (mc_upd_invoices (insert paymentHash inv) m))
  end.

(** *** Payments; [hash]: a random one *)
Definition paid (hash : string) : PaymentResult := mkPayResult hash PaymentSucceeded 1 "".
Definition SendPayment (c : chaos) (hash paymentRequest : string) (m : MockClient) : result string PaymentResult * MockClient :=
  match SendPaymentErr c with
  | Some e => (Err e, m)
  | None => if delayed c then (Err "context"%string, m) else (Ok (paid hash), mc_upd_payments (insert paymentRequest (paid hash)) m)
  end.
Definition MockKeysend (c : chaos) (hash destPubkey : string) (m : MockClient) : result string PaymentResult * MockClient :=
  match KeysendErr c with
  | Some e => (Err e, m)
  | None =>
      if delayed c then (Err "context"%string, m)
      else match KeysendResult c with
      | Some r => (Ok r, m)
      | None => (Ok (paid hash), mc_upd_payments (insert ("keysend:" ++ destPubkey)%string (paid hash)) m)
      end
  end.
Definition GetPayment (paymentRequest : string) (m : MockClient) : option PaymentResult := mc_payments m !! paymentRequest.
Definition InvoiceCount (m : MockClient) : nat := size (mc_invoices m).
Definition GetPreimage (paymentHash : string) (m : MockClient) : string := default ""%string (mc_preimages m !! paymentHash).

(** ** Any interleaving of its calls; crypto/rand does not repeat itself *)
Inductive mock_step : MockClient -> MockClient -> Prop :=
| st_create c now preimage amount memo expiry m r m' : CreateInvoice c now preimage amount memo expiry m = (r, m') ->
    (forall p, preimage = Some p -> mc_invoices m !! hex_encode (sha256 p) = None) -> mock_step m m'
| st_lookup now hash m r m' : LookupInvoice now hash m = (r, m') -> mock_step m m'
| st_subscribe ch m : mc_channels m !! ch = None -> mock_step m (SubscribeInvoices ch m)
| st_unsubscribe ch m : ch ∈ mc_subs m -> mock_step m (unsubscribe ch m)
| st_close ch m s : ch ∉ mc_subs m -> mc_channels m !! ch = Some s -> su_closed s = false -> mock_step m (close_channel ch m)
| st_receive ch m : mock_step m (receive ch m)
| st_settle now hash m r m' : SimulateSettlement now hash m = Some (r, m') -> mock_step m m'
| st_send c hash request m r m' : SendPayment c hash request m = (r, m') -> mock_step m m'
| st_keysend c hash dest m r m' : MockKeysend c hash dest m = (r, m') -> mock_step m m'.

(** ** What holds along any run *)
Definition seen (s : subscription) : list Invoice := su_received s ++ su_buffer s.
Record mock_ok (m : MockClient) : Prop := {
  ok_invoices h i : mc_invoices m !! h = Some i -> in_PaymentHash i = h /\ 0 < in_AmountSats i /\ exists p, h = hex_encode (sha256 p) /\ mc_preimages m !! h = Some (hex_encode p);
  ok_subs ch : ch ∈ mc_subs m -> exists s, mc_channels m !! ch = Some s /\ su_closed s = false;
  ok_events ch s : mc_channels m !! ch = Some s -> NoDup (in_PaymentHash <$> seen s) /\
    Forall (fun i => in_Status i = InvoiceSettled /\ mc_invoices m !! in_PaymentHash i = Some i) (seen s)
}.
(** A broadcast reaches every subscriber with room, and no other channel. *)
Lemma broadcast_spec inv subs : forall channels, NoDup subs -> (forall ch, ch ∈ subs -> exists s, channels !! ch = Some s /\ su_closed s = false) ->
  exists channels', broadcast inv subs channels = Some channels' /\
    forall ch, channels' !! ch = if bool_decide (ch ∈ subs) then offer inv <$> channels !! ch else channels !! ch.
Proof.
  induction subs as [|c subs IH]; intros channels Hd Hs; cbn [broadcast].
  { exists channels. split; [done|]. intros ch. by rewrite bool_decide_eq_false_2 by set_solver. }
  apply NoDup_cons in Hd as [Hn Hd]. destruct (Hs c) as (s & Hc & Ho); [set_solver|]. rewrite Hc, Ho.
  destruct (IH (<[c := offer inv s]> channels) Hd) as (channels' & Hb & Hch).
  { intros ch Hin. assert (ch <> c) by (intros ->; done). rewrite lookup_insert_ne by done. apply Hs. by right. }
  exists channels'. split; [done|]. intros ch. rewrite Hch. destruct (decide (ch = c)) as [->|Hne].
  - rewrite bool_decide_eq_false_2, bool_decide_eq_true_2 by set_solver. by rewrite lookup_insert_eq, Hc.
  - rewrite lookup_insert_ne by done. destruct (decide (ch ∈ subs)); [rewrite !bool_decide_eq_true_2 by set_solver|rewrite !bool_decide_eq_false_2 by set_solver]; done.
Qed.
(** The outcome of a settlement: only an open invoice is settled, once, and every
    subscriber with room in its channel is told. *)
Lemma settle_outcomes now h m : mock_ok m -> exists r m', SimulateSettlement now h m = Some (r, m') /\
  match mc_invoices m !! h with
  | Some i =>
      if bool_decide (in_Status i = InvoiceOpen)
      then r = Ok tt /\ let i' := with_status InvoiceSettled (Some now) i in mc_invoices m' = <[h := i']> (mc_invoices m) /\ mc_preimages m' = mc_preimages m /\ mc_subs m' = mc_subs m /\
        forall ch, mc_channels m' !! ch = if bool_decide (ch ∈ mc_subs m) then offer i' <$> mc_channels m !! ch else mc_channels m !! ch
      else is_ok r = false /\ m' = m
  | None => is_ok r = false /\ m' = m
  end.
Proof.
  intros Hok. unfold SimulateSettlement. destruct (mc_invoices m !! h) as [i|]; [|by eexists _, _]. case_bool_decide; cbn [negb]; [|by eexists _, _].
  destruct (broadcast_spec (with_status InvoiceSettled (Some now) i) (elements (mc_subs m)) (mc_channels m)) as (channels & -> & Hch).
  { apply NoDup_elements. } { intros ch Hin. apply (ok_subs m Hok). by apply elem_of_elements. }
  eexists _, _. split; [done|]. split; [done|]. cbv zeta. split_and!; [done..|]. intros ch. cbn. rewrite Hch.
  destruct (decide (ch ∈ mc_subs m)); [rewrite !bool_decide_eq_true_2|rewrite !bool_decide_eq_false_2]; rewrite ?elem_of_elements; done.
Qed.
(** Settled invoices are final. *)
Lemma mock_keeps_settled m m' h i : mock_ok m -> mock_step m m' -> mc_invoices m !! h = Some i -> in_Status i = InvoiceSettled -> mc_invoices m' !! h = Some i.
Proof.
  intros Hok Hstep Hi Hs. destruct Hstep as [c now rnd amount memo expiry m r m' H Hf|now g m r m' H|ch m Hc|ch m Hc|ch m s Hc Hc'|ch m|now g m r m' H|c g q m r m' H|c g q m r m' H]; try done.
  - unfold CreateInvoice in H. destruct (CreateInvoiceErr c); [by injection H as <- <-|]. destruct (amount <=? 0); [by injection H as <- <-|].
    destruct rnd as [p|]; cbn in H; injection H as <- <-; [|done]. cbn. specialize (Hf p eq_refl). by rewrite lookup_insert_ne by congruence.
  - unfold LookupInvoice in H. destruct (mc_invoices m !! g) as [j|] eqn:Hj; injection H as <- <-; [|done]. cbn. destruct (decide (g = h)) as [->|Hne]; [|by rewrite lookup_insert_ne].
    rewrite lookup_insert_eq. rewrite Hi in Hj. injection Hj as <-. unfold expired. by rewrite bool_decide_eq_false_2 by congruence.
  - destruct (settle_outcomes now g m Hok) as (r' & m2 & H' & Hout). rewrite H in H'. injection H' as <- <-.
    destruct (mc_invoices m !! g) as [j|] eqn:Hj; [|by destruct Hout as [_ ->]]. case_bool_decide as Ho; [|by destruct Hout as [_ ->]].
    destruct Hout as (_ & -> & _). rewrite lookup_insert_ne; [done|]. intros ->. congruence.
  - unfold SendPayment in H. destruct (SendPaymentErr c); [|destruct (delayed c)]; by injection H as <- <-.
  - unfold MockKeysend in H. destruct (KeysendErr c); [|destruct (delayed c); [|destruct (KeysendResult c)]]; by injection H as <- <-.
Qed.
Definition reported (m : MockClient) (s : subscription) : Prop :=
  NoDup (in_PaymentHash <$> seen s) /\ Forall (fun i => in_Status i = InvoiceSettled /\ mc_invoices m !! in_PaymentHash i = Some i) (seen s).
(** What was reported stays so while settled invoices are kept. *)
Lemma reported_mono m m' s : (forall h i, mc_invoices m !! h = Some i -> in_Status i = InvoiceSettled -> mc_invoices m' !! h = Some i) -> reported m s -> reported m' s.
Proof. intros Hk [Hn Hf]. split; [done|]. eapply Forall_impl; [exact Hf|]. intros i [Hs Hi]. split; [done|by apply Hk]. Qed.
Lemma reported_seen m s s' : seen s' = seen s -> reported m s -> reported m s'.
Proof. intros E [Hn Hf]. unfold reported. by rewrite E. Qed.
(** A step that leaves the channels alone, and invoices as they have to be *)
Lemma ok_same_channels m m' : mock_ok m -> mc_subs m' = mc_subs m -> mc_channels m' = mc_channels m ->
  (forall h i, mc_invoices m !! h = Some i -> in_Status i = InvoiceSettled -> mc_invoices m' !! h = Some i) ->
  (forall h i, mc_invoices m' !! h = Some i -> in_PaymentHash i = h /\ 0 < in_AmountSats i /\ exists p, h = hex_encode (sha256 p) /\ mc_preimages m' !! h = Some (hex_encode p)) -> mock_ok m'.
Proof.
  intros Hok Hs Hc Hk Hi. split; [exact Hi|by rewrite Hs, Hc; apply (ok_subs m Hok)|]. rewrite Hc. intros ch s Hch. eapply reported_mono; [exact Hk|]. by eapply (ok_events m Hok).
Qed.
Lemma offer_reported m h i s : mc_invoices m !! h = Some i -> in_PaymentHash i = h -> in_Status i = InvoiceSettled -> reported m s -> h ∉ in_PaymentHash <$> seen s -> reported m (offer i s).
Proof.
  intros Hi Hh Hs [Hn Hf] Hnew. unfold offer. destruct (_ <? _)%nat; [|done]. unfold reported. assert (seen (mkSub (su_buffer s ++ [i]) (su_closed s) (su_received s)) = seen s ++ [i]) as -> by (unfold seen; cbn; by rewrite app_assoc).
  rewrite fmap_app. split.
  - apply NoDup_app. split; [done|]. split; [|apply NoDup_singleton]. intros x Hx ->%list_elem_of_singleton. by rewrite Hh in Hx.
  - apply Forall_app. split; [done|]. apply Forall_singleton. by rewrite Hh.
Qed.
Lemma mock_step_ok m m' : mock_ok m -> mock_step m m' -> mock_ok m'.
Proof.
  intros Hok Hstep. pose proof (fun h i => mock_keeps_settled m m' h i Hok Hstep) as Hkeep.
  destruct Hstep as [c now rnd amount memo expiry m r m' H Hf|now g m r m' H|ch m Hc|ch m Hc|ch m s Hc Hc' Hcl|ch m|now g m r m' H|c g q m r m' H|c g q m r m' H].
  - unfold CreateInvoice in H. destruct (CreateInvoiceErr c); [by injection H as <- <-|]. destruct (amount <=? 0) eqn:Ha; [by injection H as <- <-|]. apply Z.leb_gt in Ha.
    destruct rnd as [p|]; cbn in H; injection H as <- <-; [|done]. apply (ok_same_channels m); try done. intros h i. cbn. rewrite lookup_insert_Some. intros [[<- <-]|[Hne Hi]].
    + split_and!; [done|done|]. exists p. by rewrite lookup_insert_eq.
    + rewrite lookup_insert_ne by done. by apply (ok_invoices m Hok).
  - unfold LookupInvoice in H. destruct (mc_invoices m !! g) as [j|] eqn:Hj; injection H as <- <-; [|done]. apply (ok_same_channels m); try done. intros h i. cbn. rewrite lookup_insert_Some.
    intros [[<- <-]|[Hne Hi]]; [|by apply (ok_invoices m Hok)]. destruct (ok_invoices m Hok _ _ Hj) as (A & B & C). destruct (expired now j); by split_and!.
  - split; [apply Hok|intros x; cbn; rewrite elem_of_union, elem_of_singleton|intros x s]; cbn; destruct (decide (x = ch)) as [->|Hne].
    + intros _. exists (mkSub [] false []). by rewrite lookup_insert_eq.
    + intros [->|Hx]; [done|]. rewrite lookup_insert_ne by done. by apply Hok.
    + rewrite lookup_insert_eq. intros [= <-]. split; constructor.
    + rewrite lookup_insert_ne by done. intros Hs. by eapply (ok_events m Hok).
  - split; [apply Hok| |apply Hok]. intros x. cbn. intros [Hx _]%elem_of_difference. by apply Hok.
  - split; [apply Hok|intros x Hx; cbn in *|intros x s' Hx; cbn in Hx].
    + assert (ch <> x) by (intros ->; done). rewrite lookup_alter_ne by done. by apply Hok.
    + apply lookup_alter_Some in Hx as [(-> & s0 & Hs0 & ->)|[_ Hx]]; [|by eapply (ok_events m Hok)]. apply (reported_seen m s0); [done|by eapply (ok_events m Hok)].
  - split; [apply Hok|intros x Hx; cbn in *|intros x s' Hx; cbn in Hx].
    + destruct (ok_subs m Hok _ Hx) as (s & Hs & Ho). destruct (decide (ch = x)) as [->|Hne]; [|rewrite lookup_alter_ne by done; by exists s].
      rewrite lookup_alter_eq, Hs. eexists. split; [done|]. by destruct (su_buffer s).
    + apply lookup_alter_Some in Hx as [(-> & s0 & Hs0 & ->)|[_ Hx]]; [|by eapply (ok_events m Hok)]. apply (reported_seen m s0); [|by eapply (ok_events m Hok)]. unfold seen. destruct (su_buffer s0) eqn:Eb; cbn; rewrite ?Eb; [done|]. by rewrite <-app_assoc.
  - destruct (settle_outcomes now g m Hok) as (r' & m2 & H' & Hout). rewrite H in H'. injection H' as <- <-.
    destruct (mc_invoices m !! g) as [j|] eqn:Hj; [|by destruct Hout as [_ ->]]. case_bool_decide as Ho; [|by destruct Hout as [_ ->]].
    destruct Hout as (_ & Hinv & Hpre & Hsubs & Hch). destruct (ok_invoices m Hok _ _ Hj) as (A & B & C). split.
    + intros h i. rewrite Hinv, Hpre, lookup_insert_Some. intros [[<- <-]|[Hne Hi]]; [by split_and!|by apply (ok_invoices m Hok)].
    + intros x. rewrite Hsubs. intros Hx. rewrite Hch, bool_decide_eq_true_2 by done. destruct (ok_subs m Hok _ Hx) as (s & -> & Hs). eexists. split; [done|]. unfold offer. by destruct (_ <? _)%nat.
    + intros x s. rewrite Hch. intros Hx. assert (forall s0, mc_channels m !! x = Some s0 -> reported m' s0) as Hold by (intros s0 Hs0; eapply reported_mono; [exact Hkeep|by eapply (ok_events m Hok)]).
      case_bool_decide; [|by apply Hold]. apply fmap_Some in Hx as (s0 & Hs0 & ->). eapply offer_reported; [by rewrite Hinv, lookup_insert_eq|done|done|by apply Hold|].
      intros (i & Hi1 & Hi2)%list_elem_of_fmap. destruct (ok_events m Hok _ _ Hs0) as [_ Hf]. rewrite Forall_forall in Hf. destruct (Hf i Hi2) as [Hi3 Hi4]. rewrite <-Hi1 in Hi4. congruence.
  - unfold SendPayment in H. destruct (SendPaymentErr c); [|destruct (delayed c)]; injection H as <- <-; [done..|]. by apply (ok_same_channels m); [..|apply Hok].
  - unfold MockKeysend in H. destruct (KeysendErr c); [|destruct (delayed c); [|destruct (KeysendResult c)]]; injection H as <- <-; [done..|]. by apply (ok_same_channels m); [..|apply Hok].
Qed.

(** However calls interleave, nothing is sent on a closed channel, every event a
    subscriber gets is a settled invoice, told once, and who knows the preimage the
    client kept knows one of the invoice's hash. *)
Theorem mock_settlements m : rtc mock_step NewMockClient m ->
  (forall now h, SimulateSettlement now h m <> None) /\
  (forall ch s, mc_channels m !! ch = Some s -> reported m s) /\
  (forall h i, mc_invoices m !! h = Some i -> exists p, h = hex_encode (sha256 p) /\ GetPreimage h m = hex_encode p).
Proof.
  intros Hr. assert (mock_ok m) as Hok.
  { assert (mock_ok NewMockClient) as H0 by (split; [done|intros ch; cbn; set_solver|done]). revert H0. induction Hr; [done|]. intros H0. apply IHHr. by eapply mock_step_ok. }
  split_and!.
  - intros now h. destruct (settle_outcomes now h m Hok) as (r & m' & -> & _). done.
  - apply Hok.
  - intros h i Hi. destruct (ok_invoices m Hok _ _ Hi) as (_ & _ & p & Hp & Hp'). exists p. split; [done|]. unfold GetPreimage. by rewrite Hp'.
Qed.
End mock.

(** ** Examples *)
Definition toy_sha (s : string) : string := s.
Definition toy_created : MockClient := (CreateInvoice toy_sha no_chaos 100 (Some "0123456789abcdef0123456789abcdef"%string) 500 "" 60 NewMockClient).2.
Definition toy_invoice : string := hex_encode "0123456789abcdef0123456789abcdef".
Definition status_of (h : string) (m : MockClient) : option InvoiceStatus := in_Status <$> mc_invoices m !! h.
(** Whether an invoice expires depends on who looks: settled long after its time,
    unless it was looked up. *)
Example mock_settles_expired :
  (status_of toy_invoice ∘ snd <$> SimulateSettlement 1000 toy_invoice toy_created) = Some (Some InvoiceSettled) /\
  (status_of toy_invoice ∘ snd <$> SimulateSettlement 1000 toy_invoice (LookupInvoice 1000 toy_invoice toy_created).2) = Some (Some InvoiceExpired).
Proof. vm_compute. by split. Qed.
(** Paying an invoice again is another payment. *)
Example mock_pays_twice :
  let '(r1, m1) := SendPayment no_chaos "aa" "lnbc1" NewMockClient in let '(r2, m2) := SendPayment no_chaos "bb" "lnbc1" m1 in
  r1 = Ok (paid "aa") /\ r2 = Ok (paid "bb") /\ GetPayment "lnbc1" m2 = Some (paid "bb").
Proof. by split_and!. Qed.
