(* ===== verification/Desktop.v ===== *)
(** * Desktop: which tunnel the desktop application drives
    (src/cmd/arfl-desktop/tunnelhost.go, bridge.go)

    How the tunnel is chosen when a wallet is opened, how the privileged helper takes
    over from it, and what the bridge hands to the service of Service.v, whose calls
    go on meanwhile. A handle is a number; closing it puts the number on a list. The
    vault is Identity's, the helper Helper's. *)
From S2P Require Import Prelude Selector ProofVault Nip44 Envelope ClientConnect ServiceNodes ServicePay Service Helper.

Inductive goos := Darwin_ | Linux_ | Windows_ | OtherOS.
#[export] Instance goos_eq_dec : EqDecision goos.
Proof. solve_decision. Defined.
(** What the machine answers: the helper's version, the user, making a tunnel and
    trying it. *)
Record machine := mkMachine { ma_GOOS : goos; ma_ping : result string Z; ma_root : bool; ma_new : result string unit; ma_preflight : result string unit }.
Definition needsSetupMsg : string := "Set up the tunnel to connect. ARFL needs your administrator approval once to change network settings.".
Definition adminOnlyMsg : string := "Run ARFL as administrator to connect. A background helper is not available on this system yet.".
Definition helperSupported (os : goos) : bool := bool_decide (os = Darwin_) || bool_decide (os = Linux_).

(** Handles: the next number, and those that were closed. *)
Record handles := mkHandles { hd_next : nat; hd_closed : list nat }.
Definition all_caps : tunnel_caps := mkCaps true true true true.
Definition new_handle (h : handles) : tunnel * handles := (mkTunnel (hd_next h) all_caps, mkHandles (S (hd_next h)) (hd_closed h)).
Definition close_handle (t : tunnel) (h : handles) : handles := mkHandles (hd_next h) (tu_ref t :: hd_closed h).
Definition close_maybe (t : option tunnel) (h : handles) : handles := match t with Some t => close_handle t h | None => h end.

Definition chooseTunnel (m : machine) (h : handles) : (option tunnel * string * bool) * handles :=
  let ping := if helperSupported (ma_GOOS m) then ma_ping m else Err "unsupported"%string in
  match ping with
  | Ok v =>
      if Version <=? v then let '(t, h') := new_handle h in ((Some t, ""%string, false), h')
      else ((None, "The tunnel helper is out of date. Set it up again to connect."%string, true), h)
  | Err _ =>
      let windows := bool_decide (ma_GOOS m = Windows_) in
      if ma_root m || windows then
        let failed e := (None, if windows then adminOnlyMsg else e, false) in
        match ma_new m with
        | Err e => (failed e, h)
        | Ok _ =>
            let '(t, h') := new_handle h in
            match ma_preflight m with Ok _ => ((Some t, ""%string, false), h') | Err e => (failed e, close_handle t h') end
        end
      else if helperSupported (ma_GOOS m) then ((None, needsSetupMsg, true), h)
      else ((None, adminOnlyMsg, false), h)
  end.

(** ** The bridge *)
Record Bridge := mkBridge { br_svc : option system; br_tun : option tunnel; br_tunErr : string; br_needsSetup : bool; br_handles : handles }.
Definition NewBridge : Bridge := mkBridge None None "" false (mkHandles 0 []).
(** A nil handle as app.Tunnel *)
Definition no_tunnel : tunnel := mkTunnel 0 (mkCaps false false false false).
Definition tunnelOrNil (t : option tunnel) : tunnel := default no_tunnel t.
(** openLocked, the tunnel's part: [opened] is what reading the configuration and
    app.New gave. *)
Definition open_service (m : machine) (opened : result string settings) (b : Bridge) : result string unit * Bridge :=
  let '((tun, reason, setup), h) := chooseTunnel m (br_handles b) in
  match opened with
  | Err e => (Err e, mkBridge (br_svc b) (br_tun b) reason setup (close_maybe tun h))
  | Ok st => (Ok tt, mkBridge (Some (start st (tunnelOrNil tun))) tun reason setup h)
  end.
(** InstallHelper: [elevated], what the installer's command printed when it failed;
    [started], whether the helper answered in time. *)
Definition cancelled (msg : string) : bool := Contains msg "User canceled" || Contains msg "(-128)" || Contains msg "dismissed".
Definition InstallHelper (os : goos) (elevated : result string unit) (started : bool) (b : Bridge) : result string unit * Bridge :=
  if negb (helperSupported os) then (Err adminOnlyMsg, b)
  else match elevated with
  | Err msg => (Err (if cancelled msg then "setup was cancelled"%string else ("install the helper: " ++ msg)%string), b)
  | Ok _ =>
      if negb started then (Err "the helper was installed but did not start; try again"%string, b)
      else
        let '(t, h) := new_handle (close_maybe (br_tun b) (br_handles b)) in
        match br_svc b with
        | None => (Ok tt, mkBridge None (Some t) "" false h)
        | Some sys =>
            let '(sv, r) := SetTunnel t (sy_service sys) in
            (match r with Ok _ => Ok tt | Err _ => Err "disconnect before changing how the tunnel runs"%string end,
             mkBridge (Some (mkSystem sv (sy_threads sys))) (Some t) "" false h)
        end
  end.
(** The guard of Connect *)
Definition connect_allowed (b : Bridge) : result string unit :=
  match br_tun b with
  | Some _ => Ok tt
  | None => Err ("cannot connect: " ++ (if str_empty (br_tunErr b) then "privileged networking is unavailable" else br_tunErr b))%string
  end.
(** ServiceShutdown, after the service was closed *)
Definition release_tunnel (b : Bridge) : Bridge := mkBridge (br_svc b) None (br_tunErr b) (br_needsSetup b) (close_maybe (br_tun b) (br_handles b)).

(** ** What is offered can be used *)
(** A tunnel is offered only when a current helper answered, or making and trying one
    succeeded; without one there is always a reason, and setting the helper up is
    proposed only where there is one. Whatever was made and is not offered is closed. *)
Theorem choose_outcomes m h : let '((t, reason, setup), h') := chooseTunnel m h in
  (forall x, t = Some x -> reason = ""%string /\ setup = false /\ x = mkTunnel (hd_next h) all_caps /\ h' = mkHandles (S (hd_next h)) (hd_closed h) /\
     ((exists v, ma_ping m = Ok v /\ Version <= v /\ helperSupported (ma_GOOS m) = true) \/ ma_new m = Ok tt /\ ma_preflight m = Ok tt)) /\
  (t = None -> (setup = true -> helperSupported (ma_GOOS m) = true) /\ hd_closed h' = seq (hd_next h) (hd_next h' - hd_next h) ++ hd_closed h /\
     (reason = ""%string -> ma_new m = Err ""%string \/ ma_preflight m = Err ""%string)).
Proof.
  unfold chooseTunnel, new_handle, close_handle. destruct (helperSupported (ma_GOOS m)) eqn:Hh; destruct (ma_ping m) as [v|e]; cbn.
  all: repeat (case_match; cbn; simplify_eq); (split; [intros x [= <-]|intros Ht]); try done.
  all: rewrite ?Nat.sub_diag, ?Nat.sub_succ_l, ?Nat.sub_diag by lia; cbn.
  all: split_and?; try done; try (by intros ->; auto); try (by auto).
  1: left; exists v; split_and!; [done|by apply Z.leb_le|done].
  all: right; repeat match goal with u : unit |- _ => destruct u end; done.
Qed.

(** *** One tunnel *)
Definition offers (th : thread) : bool := match th with CallSetTunnel _ => true | _ => false end.
(** The service changes its tunnel only when it is told to. *)
Lemma service_keeps_tunnel url_Parse JoinHostPort st sv th sv' th' : thread_step url_Parse JoinHostPort st sv th sv' th' -> offers th = false ->
  sv_tunnel sv' = sv_tunnel sv /\ offers th' = false.
Proof.
  assert (forall {A} (p p' : prog A) a b, prog_step st a p b p' -> sv_tunnel b = sv_tunnel a) as Heff.
  { intros A [x|R e k] p' a b; [done|]. intros (r & Hp & _). destruct e; cbn in Hp; try (by subst); [by destruct Hp as [-> _]|subst; by destruct a]. }
  assert (forall {A} (r : result service_error A) f, (forall a, offers (f a) = false) -> offers (next r f) = false) as Hnext by (intros A [a|e] f Hf; [apply Hf|done]).
  destruct 1; cbn [offers]; intros Ho; try discriminate Ho; repeat match goal with
    | H : prog_step _ _ _ _ _ |- _ => apply Heff in H
    | H : installHub _ ?sv = _ |- _ => unfold installHub in H; destruct sv; cbn in H; case_match; simplify_eq
    | H : SetPinnedPair ?p ?sv = _ |- _ => unfold SetPinnedPair in H; destruct sv; cbn in H; case_match; simplify_eq
    | H : beginConnect ?sv = _ |- _ => unfold beginConnect in H; destruct sv; cbn in H; case_match; simplify_eq
    | H : beginDisconnect ?sv = _ |- _ => unfold beginDisconnect in H; destruct sv; cbn in H; case_match; simplify_eq
    | H : beginPrepare ?sv = _ |- _ => unfold beginPrepare in H; destruct sv; cbn in H; repeat case_match; simplify_eq
    | H : endExtend _ _ _ ?sv = _ |- _ => unfold endExtend in H; destruct sv; cbn in H; repeat case_match; simplify_eq
    | H : keepPrepared _ _ _ _ _ ?sv = _ |- _ => unfold keepPrepared in H; destruct sv; cbn in H; repeat case_match; simplify_eq
    end; (split; [try done; try (by destruct sv)|try done; try (by apply Hnext; intros; repeat case_match); try (by repeat case_match)]).
  - cbn. by apply Hnext.
  - destruct (n =? 0); [done|by apply Hnext].
  - by destruct r, sv.
  - destruct (n =? 0); [done|by apply Hnext].
Qed.

(** Any interleaving: opening the wallet, the calls of its service, which the bridge
    makes but for CallSetTunnel, installing the helper while nothing is connected. *)
Definition quiet_calls (sys : system) : Prop := forall i th, sy_threads sys !! i = Some th -> offers th = false.
Inductive bridge_step (url_Parse : string -> option URL) (JoinHostPort : string -> string -> string) (st : settings) : Bridge -> Bridge -> Prop :=
| bs_open m opened b r b' : br_svc b = None -> open_service m opened b = (r, b') -> (forall s, opened = Ok s -> s = st) -> bridge_step url_Parse JoinHostPort st b b'
| bs_call b sys i th : br_svc b = Some sys -> sy_threads sys !! i = None -> is_call th = true -> offers th = false ->
    bridge_step url_Parse JoinHostPort st b (mkBridge (Some (mkSystem (sy_service sys) (<[i := th]> (sy_threads sys)))) (br_tun b) (br_tunErr b) (br_needsSetup b) (br_handles b))
| bs_thread b sys i sys' : br_svc b = Some sys -> step_by url_Parse JoinHostPort st i sys sys' ->
    bridge_step url_Parse JoinHostPort st b (mkBridge (Some sys') (br_tun b) (br_tunErr b) (br_needsSetup b) (br_handles b))
| bs_install os elevated started b r b' : (forall sys, br_svc b = Some sys -> sv_state (sy_service sys) = StateDisconnected) ->
    InstallHelper os elevated started b = (r, b') -> bridge_step url_Parse JoinHostPort st b b'.
Record bridge_ok (b : Bridge) : Prop := {
  one_tunnel sys : br_svc b = Some sys -> sv_tunnel (sy_service sys) = tunnelOrNil (br_tun b) /\ quiet_calls sys;
  open_handle t : br_tun b = Some t -> tu_ref t ∉ hd_closed (br_handles b) /\ (tu_ref t < hd_next (br_handles b))%nat;
  old_handles n : n ∈ hd_closed (br_handles b) -> (n < hd_next (br_handles b))%nat
}.
Definition handles_ok (h : handles) : Prop := forall n, n ∈ hd_closed h -> (n < hd_next h)%nat.
Definition handle_open (h : handles) (o : option tunnel) : Prop := forall t, o = Some t -> tu_ref t ∉ hd_closed h /\ (tu_ref t < hd_next h)%nat.
Lemma close_maybe_ok t h : handles_ok h -> handle_open h t -> handles_ok (close_maybe t h) /\ hd_next (close_maybe t h) = hd_next h.
Proof. intros Hh Ht. destruct t as [t|]; [|done]. split; [|done]. intros n [->|Hn]%elem_of_cons; [by apply (Ht t)|by apply Hh]. Qed.
Lemma new_ok h t h' : new_handle h = (t, h') -> handles_ok h -> handles_ok h' /\ handle_open h' (Some t) /\ forall o, handle_open h o -> handle_open h' o.
Proof.
  intros [= <- <-] Hh. split_and!.
  - intros n Hn. specialize (Hh n Hn). cbn. lia.
  - intros t [= <-]. cbn. split; [|lia]. intros Hn. specialize (Hh _ Hn). cbn in Hh. lia.
  - intros o Ho t ->. destruct (Ho t eq_refl). cbn. split; [done|lia].
Qed.
Lemma choose_ok m h o reason setup h' : chooseTunnel m h = ((o, reason, setup), h') -> handles_ok h -> handles_ok h' /\ handle_open h' o /\ forall x, handle_open h x -> handle_open h' x.
Proof.
  intros H Hh. pose proof (new_ok h _ _ eq_refl Hh) as (Hn & Ho & Hk). assert (handle_open h None) as Hnone by (by intros t [=]).
  unfold chooseTunnel, new_handle in H. destruct (if helperSupported _ then _ else _) as [v|e]; [destruct (Version <=? v); by injection H as <- _ _ <-|].
  destruct (ma_root m || _); [|destruct (helperSupported _); by injection H as <- _ _ <-].
  destruct (ma_new m) as [[]|e2]; [|by injection H as <- _ _ <-]. destruct (ma_preflight m); injection H as <- _ _ <-; [done|].
  destruct (close_maybe_ok (Some (mkTunnel (hd_next h) all_caps)) _ Hn Ho) as [A B]. split_and!; [exact A|by intros t [=]|]. intros x Hx t ->. destruct (Hx t eq_refl) as [C D].
  cbn. split; [|lia]. intros [E|E]%elem_of_cons; [cbn in E; lia|done].
Qed.
Lemma bridge_step_ok url_Parse JoinHostPort st b b' : bridge_ok b -> bridge_step url_Parse JoinHostPort st b b' -> bridge_ok b'.
Proof.
  intros Hok Hstep. destruct Hstep as [m opened b0 r b1 Hnone H _|b0 sys i th Hs Hi Hc Ho|b0 sys i sys' Hs Hst|os elevated started b0 r b1 Hoff H]; destruct Hok as [H1 H2 H3].
  - unfold open_service in H. destruct (chooseTunnel m (br_handles b0)) as [[[o reason] setup] h'] eqn:Hch. destruct (choose_ok _ _ _ _ _ _ Hch H3) as (A & B & C).
    destruct opened as [s|e]; injection H as _ <-; cbn [br_svc br_tun br_handles].
    + split; cbn; [|exact B|exact A]. intros sys [= <-]. split; [done|]. intros j th. cbn. by rewrite lookup_empty.
    + destruct (close_maybe_ok o h' A B) as [D E]. split; cbn; [by rewrite Hnone| |exact D]. intros t Ht. destruct (H2 t Ht) as [F G]. destruct (C (br_tun b0) H2 t Ht) as [I J].
      rewrite E. split; [|exact J]. destruct o as [x|]; [|exact I]. intros [K|K]%elem_of_cons; [|done].
      pose proof (choose_outcomes m (br_handles b0)) as Hout. rewrite Hch in Hout. destruct Hout as [Hx _]. destruct (Hx x eq_refl) as (_ & _ & -> & _). cbn in K. lia.
  - split; cbn; [|exact H2|exact H3]. intros s [= <-]. destruct (H1 _ Hs) as [A B]. split; [exact A|]. intros j x. cbn. rewrite lookup_insert_Some. intros [[_ <-]|[_ Hx]]; [done|by eapply B].
  - destruct Hst as (th & th' & Ht & Hts & Hmap). destruct (H1 _ Hs) as [A B]. destruct (service_keeps_tunnel _ _ _ _ _ _ _ Hts (B _ _ Ht)) as [C D].
    split; cbn; [|exact H2|exact H3]. intros s [= <-]. split; [by rewrite C|]. intros j x. rewrite Hmap, lookup_insert_Some. intros [[_ <-]|[_ Hx]]; [done|by eapply B].
  - unfold InstallHelper in H. destruct (helperSupported os); cbn [negb] in H; [|by injection H as _ <-]. destruct elevated as [[]|msg]; [|by injection H as _ <-].
    destruct started; cbn [negb] in H; [|by injection H as _ <-]. destruct (close_maybe_ok (br_tun b0) _ H3 H2) as [A B].
    destruct (new_handle (close_maybe (br_tun b0) (br_handles b0))) as [t h] eqn:Hn. destruct (new_ok _ _ _ Hn A) as (C & D & _).
    destruct (br_svc b0) as [sys|]; [|injection H as _ <-; by split]. unfold SetTunnel in H. rewrite (Hoff sys eq_refl) in H. injection H as _ <-.
    split; cbn; [|exact D|exact C]. intros s [= <-]. split; [by destruct (sy_service sys)|]. by destruct (H1 _ eq_refl).
Qed.
(** The service drives the tunnel the bridge has, which is open; without one it has
    none and Connect is refused with the reason. *)
Theorem bridge_one_tunnel url_Parse JoinHostPort st b sys : rtc (bridge_step url_Parse JoinHostPort st) NewBridge b -> br_svc b = Some sys ->
  match br_tun b with
  | Some t => connect_allowed b = Ok tt /\ sv_tunnel (sy_service sys) = t /\ tu_ref t ∉ hd_closed (br_handles b)
  | None => is_ok (connect_allowed b) = false /\ ca_present (tu_caps (sv_tunnel (sy_service sys))) = false
  end.
Proof.
  intros Hr Hs. assert (bridge_ok b) as Hok.
  { assert (bridge_ok NewBridge) as H0 by (split; [done|done|intros n; cbn; set_solver]). revert H0. clear Hs. induction Hr; [done|]. intros H0. apply IHHr. by eapply bridge_step_ok. }
  destruct (one_tunnel b Hok sys Hs) as [Ht _]. unfold connect_allowed. destruct (br_tun b) as [t|] eqn:Hb; [|by rewrite Ht].
  split_and!; [done|done|]. by apply (open_handle b Hok).
Qed.

(** ** The client's configuration *)
Record ClientConfig := mkClientConfig {
  cc_HubURL : string; cc_HubPubkeys : list string; cc_DiscoverySource : string; cc_Relays : list string;
  cc_PreferredTransports : list string; cc_AllowedTransports : list string; cc_TokenDelivery : string; cc_RequireCommonHops : option bool
}.
Record policy := mkPolicy {
  po_preferred : list Transport; po_allowed : list Transport; po_relays : list string; po_hubPubkeys : list string;
  po_delivery : TokenDeliveryMode; po_source : string
}.
Fixpoint parseTransportNames (names : list string) : option (list Transport) :=
  match names with
  | [] => Some []
  | raw :: r =>
      let name := ToLower (TrimSpace raw) in
      if String.eqb name TransportWireGuard then cons TransportWireGuard <$> parseTransportNames r
      else if String.eqb name TransportHysteria2 then cons TransportHysteria2 <$> parseTransportNames r
      else if String.eqb name TransportAmneziaWG then cons TransportAmneziaWG <$> parseTransportNames r
      else None
  end.
(** The two loops that trim, and drop the empty and the repeated *)
Fixpoint trimmed_once (seen : gset string) (l : list string) : list string :=
  match l with
  | [] => []
  | x :: r =>
      let x := TrimSpace x in
      if str_empty x || bool_decide (x ∈ seen) then trimmed_once seen r else x :: trimmed_once ({[x]} ∪ seen) r
  end.
(** [file]: no file, or what reading it gave. *)
Definition loadTransportPolicyFromClientConfig (file : option (result string ClientConfig)) : result string policy :=
  match file with
  | None => Ok (mkPolicy [] [] [] [] TokenDeliveryHTTP DiscoverySourceHub)
  | Some (Err e) => Err ("load client config: " ++ e)%string
  | Some (Ok cfg) =>
      if match cc_RequireCommonHops cfg with Some false => true | _ => false end then Err "require_common_hop_transport=false is not yet supported"%string
      else match parseTransportNames (cc_PreferredTransports cfg), parseTransportNames (cc_AllowedTransports cfg) with
      | None, _ => Err "preferred_transports has unsupported transport"%string
      | _, None => Err "allowed_transports has unsupported transport"%string
      | Some preferred, Some allowed =>
          match parse_delivery (ToLower (TrimSpace (cc_TokenDelivery cfg))) with
          | None => Err "token_delivery has unsupported value"%string
          | Some mode =>
              let source := ToLower (TrimSpace (cc_DiscoverySource cfg)) in
              if negb (str_empty source || String.eqb source DiscoverySourceHub || String.eqb source DiscoverySourceNostr) then Err "discovery_source has unsupported value"%string
              else Ok (mkPolicy preferred allowed (trimmed_once ∅ (cc_Relays cfg)) (trimmed_once ∅ (cc_HubPubkeys cfg)) mode
                         (if str_empty source then DiscoverySourceHub else source))
          end
      end
  end.
(** What openLocked gives app.New; [keys]: the configured keys with the registry's. *)
Definition mode_name (m : TokenDeliveryMode) : string := if is_nip44 m then "nip44" else "http".
Definition app_config (secret : string) (keys : list string) (p : policy) : Config :=
  mkConfig "" secret 2000000000 (po_preferred p) (po_allowed p) (po_relays p) (mode_name (po_delivery p)) (po_source p) keys 0.

Lemma trimmed_once_loop seen l : trimmed_once seen l = sanitize_loop seen l.
Proof. revert seen. induction l as [|x l IH]; intros seen; cbn; [done|]. rewrite !IH. by destruct (str_empty _), (bool_decide _). Qed.
Lemma parsed_known names l : parseTransportNames names = Some l -> Forall (fun t => known_transport t = true) l /\ length l = length names.
Proof.
  revert l. induction names as [|raw names IH]; cbn [parseTransportNames]; [by intros l [= <-]|]. intros l H.
  repeat (case_match; [apply fmap_Some in H as (r & Hr & ->); destruct (IH r Hr) as [A B]; split; [by constructor|cbn; by rewrite B]|]). done.
Qed.
Lemma policy_inv file p : loadTransportPolicyFromClientConfig file = Ok p ->
  Forall (fun t => known_transport t = true) (po_preferred p) /\ Forall (fun t => known_transport t = true) (po_allowed p) /\
  (po_source p = DiscoverySourceHub \/ po_source p = DiscoverySourceNostr) /\ (forall cfg, file = Some (Ok cfg) -> po_relays p = sanitizeRelays (cc_Relays cfg)).
Proof.
  unfold loadTransportPolicyFromClientConfig. destruct file as [[cfg|e]|]; [|done|by intros [= <-]; split_and!; [..|left|]]. destruct (match cc_RequireCommonHops cfg with Some false => _ | _ => _ end); [done|].
  destruct (parseTransportNames (cc_PreferredTransports cfg)) as [a|] eqn:Ha; [|done]. destruct (parseTransportNames (cc_AllowedTransports cfg)) as [b|] eqn:Hb; [|done].
  destruct (parse_delivery _); [|done]. cbv zeta. destruct (negb _) eqn:Hs; [done|]. intros [= <-]. cbn. apply negb_false_iff in Hs. split_and!.
  - by apply (parsed_known _ _ Ha).
  - by apply (parsed_known _ _ Hb).
  - destruct (str_empty _); [by left|]. apply orb_true_iff in Hs as [Hs|Hs]; apply String.eqb_eq in Hs as ->; [by left|by right].
  - intros c [= <-]. by rewrite trimmed_once_loop.
Qed.
Lemma known_all l : Forall (fun t => known_transport t = true) l -> forall t, t ∈ l -> known_transport t = true.
Proof. rewrite Forall_forall. auto. Qed.
Lemma preferred_as_asked l t : Forall (fun t => known_transport t = true) l ->
  t ∈ sanitizePreferredTransports l <-> if bool_decide (l = []) then t = TransportWireGuard else t ∈ l.
Proof.
  intros Hk. unfold sanitizePreferredTransports. destruct (preferred_loop_spec ∅ l) as [_ Hx]. case_bool_decide as He; [subst l; cbn; set_solver|].
  assert (forall t, t ∈ preferred_loop ∅ l <-> t ∈ l) as Hl by (intros x; rewrite Hx; split; [by intros (_ & _ & ?)|intros Hi; split_and!; [by eapply known_all|set_solver|done]]).
  destruct (preferred_loop ∅ l) as [|a r] eqn:Hp; [|by rewrite <-Hp in *; apply Hl]. destruct l as [|b l]; [done|]. assert (b ∈ []) by (apply Hl; left). set_solver.
Qed.
Lemma allowed_as_asked l t : Forall (fun t => known_transport t = true) l ->
  t ∈ sanitizeAllowedTransports l <-> if bool_decide (l = []) then t ∈ all_transports else t ∈ l.
Proof.
  intros Hk. rewrite allowed_ok. case_bool_decide as He; [subst l; tauto|]. split; [by intros [_ [?|?]]|]. intros Ht. split; [|by right].
  apply (known_all _ Hk) in Ht. by apply bool_decide_eq_true in Ht.
Qed.
(** What a configuration asks for is what the service does: the transports that are
    listed, and none besides, the relays and keys, the delivery and the source. *)
Theorem configured_as_asked file p secret keys default_path open store st : loadTransportPolicyFromClientConfig file = Ok p ->
  New default_path open (app_config secret keys p) = Ok (store, st) ->
  st_delivery st = po_delivery p /\ st_discoverySrc st = po_source p /\
  (forall t, t ∈ st_preferred st <-> if bool_decide (po_preferred p = []) then t = TransportWireGuard else t ∈ po_preferred p) /\
  (forall t, t ∈ st_allowed st <-> if bool_decide (po_allowed p = []) then t ∈ all_transports else t ∈ po_allowed p) /\
  st_nostrRelays st = sanitizeRelays (po_relays p) /\ (forall cfg, file = Some (Ok cfg) -> po_relays p = sanitizeRelays (cc_Relays cfg)) /\
  (st_discoverySrc st = DiscoverySourceNostr -> st_nostrRelays st <> [] /\ st_trustedHubs st <> []) /\
  (st_delivery st = TokenDeliveryNIP44 -> st_discoverySrc st = DiscoverySourceNostr).
Proof.
  intros Hp Hnew. destruct (policy_inv _ _ Hp) as (Hpref & Hall & Hsrc & Hrel). unfold New, app_config in Hnew. cbn [cf_Passphrase cf_StorePath cf_PollInterval cf_TokenDelivery cf_NostrRelays cf_DiscoverySource cf_TrustedHubPubkeys cf_PreferredTransports cf_AllowedTransports cf_DiscoveryWindow] in Hnew.
  destruct (str_empty secret); [done|]. destruct (if str_empty "" then _ else _) as [path|]; [|done]. destruct (open path secret) as [st0|]; [|done].
  assert (parse_delivery (mode_name (po_delivery p)) = Some (po_delivery p)) as Hmode by (by destruct (po_delivery p)). rewrite Hmode in Hnew. cbv zeta in Hnew.
  assert ((if str_empty (ToLower (TrimSpace (po_source p))) then DiscoverySourceHub else ToLower (TrimSpace (po_source p))) = po_source p) as Hs by (by destruct Hsrc as [-> | ->]).
  rewrite Hs in Hnew. repeat (match type of Hnew with (if ?c then _ else _) = _ => destruct c eqn:?Hc end; [done|]). injection Hnew as _ <-. cbn.
  split_and!; [done|done|intros t; by apply preferred_as_asked|intros t; by apply allowed_as_asked|done|exact Hrel| |].
  - intros E. rewrite E in *. cbn [String.eqb Ascii.eqb Bool.eqb andb DiscoverySourceNostr] in *. split; [by destruct (sanitizeRelays _)|by destruct (sanitizeHubPubkeys _)].
  - intros E. rewrite E in *. cbn [is_nip44 andb] in *. destruct Hsrc as [Es|Es]; [rewrite Es in *; done|done].
Qed.

(** ** Examples *)
Definition toy_root : machine := mkMachine Linux_ (Err "no socket"%string) true (Ok tt) (Ok tt).
Definition toy_open (m : machine) : Bridge := (open_service m (Ok toy_http) NewBridge).2.
Definition connected_bridge : Bridge :=
  let b := toy_open toy_root in
  mkBridge ((fun sys => mkSystem (with_state StateConnected (sy_service sys)) (sy_threads sys)) <$> br_svc b) (br_tun b) (br_tunErr b) (br_needsSetup b) (br_handles b).
Example outdated_helper_refused : let '((t, _, setup), _) := chooseTunnel (mkMachine Darwin_ (Ok (Version - 1)) true (Ok tt) (Ok tt)) (mkHandles 0 []) in t = None /\ setup = true.
Proof. by split. Qed.
(** Installing the helper over a live connection closes the tunnel the service still
    drives, and only then is refused. *)
Example install_closes_live_tunnel :
  let '(r, b) := InstallHelper Linux_ (Ok tt) true connected_bridge in
  is_ok r = false /\ hd_closed (br_handles b) = [0]%nat /\ (tu_ref ∘ sv_tunnel ∘ sy_service <$> br_svc b) = Some 0%nat /\ (sv_state ∘ sy_service <$> br_svc b) = Some StateConnected.
Proof. by split_and!. Qed.
